(* ===== verification/_CoqProject ===== *)
-Q . S2P
Prelude.v
Ord.v
Bytes.v
Text.v
Decimal.v
Ids.v
Asset.v
Json.v
Amount.v
Digest.v
Affordability.v
Send.v
Swap.v
StorageRecord.v
Strict.v
Profile.v
Network.v
Clock.v
Risk.v
Journal.v
Replay.v
Safety.v
Envelope.v
Persist.v
Authorization.v
VaultKeys.v
Vault.v
Fs.v
Atomic.v
Wallets.v
Writer.v
Destroy.v
Unlock.v
Store.v
Lock.v
Probe.v
Update.v
ChainData.v
AppState.v
Controller.v
Save.v
Service.v
Rows.v
Policy.v
Delivery.v
DeliveryFacts.v
Names.v
Authorize.v
RiskReview.v
Clipboard.v
Loads.v
Requests.v
Events.v
Session.v
Commands.v
Steps.v
Consent.v
Comment.v
Activity.v
Transmit.v
Prepare.v
Transfers.v
Keyring.v
ChainStorage.v
Subscription.v
Signing.v
Pool.v
Transport.v
Emulator.v
WalletService.v
Preparation.v
Prepared.v
Broadcast.v
