(* ===== verification/Prelude.v ===== *)
(** * CC Wallet: a verification development

    CC Wallet is a desktop wallet for the Tycho blockchain, in Rust.  Its crates are, from
    the bottom up: [cc-wallet-domain] (the data of the wallet and the rules on it: amounts,
    recipients, send tickets, the journal of sends, profiles), [cc-wallet-vault] (the
    encrypted container everything is stored in), [cc-wallet-storage] (vault files on disk),
    [cc-wallet-tycho] and [cc-wallet-chain] (contracts, transport, tracing),
    [cc-wallet-app] (commands, events, controllers) and [cc-wallet-ui-slint].  This
    development models the domain, vault and storage crates; of the app crate the state, every
    handler of commands, events, key answers and ticks except those of the explorer, and the
    application as steps of them; and of the chain and tycho crates the wallet service:
    what it asks of a node and accepts for an answer, how it estimates, prepares and
    broadcasts a send, a swap and a storage operation, and what it makes of transactions,
    conversations, subscriptions, pools and the records of the storage contract.

    ** The core: sending at most once

    A send is confirmed by the user as a ticket ([SendTicket], journal.rs), turned into a
    record that reserves its amount and fees ([PreparedRecord]), signed and broadcast.  The
    journal keeps for every record the evidence of what happened to it, and for every risk
    the user took a grant and its consumption, all numbered in one sequence.  Before any
    change becomes the journal, and whenever it is read back, the whole of it is replayed
    ([validate_replay]).  What the replay guarantees is the point of the domain crate:
    a record is prepared only while no other one may still be on its way, unless the user
    granted that very risk, once, for that very ticket; and what is reserved fits the
    balances.

    The journal is a section of the wallet's file.  The storage crate replaces that file
    atomically and numbers its versions; the controller writes every attempt to it before the
    socket call ([persist_journal_barrier]) and every outcome after it, turns what was under
    way into what may have happened when it starts again, and closes a record when the chain
    reports its message.  So whatever happens to the process or the disk, the journal found
    there speaks of every attempt that was made.

    Above this stands the user's consent.  The application is a loop over commands, events of
    its tasks, answers of its key threads and ticks ([app_step], Consent.v); whatever the
    loop does, a task that signs is started only for what waited for the user, confirmed by a
    password that opens the wallet or within the window the user opened.

    ** Files and what they model (paths below crates/)

    - [Prelude]: results with errors and panics, checked arithmetic, tactics.  [Update]:
      updates of record fields.
    - [Ord], [Bytes], [Text], [Decimal], [Json]: the standard library the code uses:
      orders, stable sorting and B-tree maps; bytes and integers as bytes; [str] operations
      on UTF-8; decimal printing and parsing; serde's values.
    - Domain (cc-wallet-domain/src).  [Ids]: ids.rs, error.rs.  [Asset]: asset.rs.
      [Amount]: amount.rs.  [Digest]: digest.rs.  [Affordability]: affordability.rs.
      [Send]: address.rs, send.rs (recipients, comments, forms, requests).
      [Authorization]: send.rs (what the user confirms).  [Swap]: swap.rs.
      [StorageRecord]: storage.rs (records of the on-chain storage).
      [Strict]: strict.rs (strict reading of stored JSON objects).  [Profile]: profile.rs.
      [Network]: network.rs.  [Clock]: validator_clock.rs, its integer part.
      [Risk]: risk.rs, activity.rs.  [Journal]: journal.rs up to the static checks of a
      record.  [Replay]: [validate_replay] and its helpers.  [Envelope]: the operations of
      envelope.rs on the journal, as functions and as the step relation [env_step].
      [Persist]: its stored form, and runs with restarts ([run_step]).  [Safety]: theorems
      only.
    - Vault (cc-wallet-vault/src).  [VaultKeys]: error.rs, params.rs, aead.rs, record.rs,
      keyslot.rs.  [Vault]: vault.rs.
    - Storage (cc-wallet-storage/src).  [Fs]: the file system it runs on, and the program
      logic [wp].  [Atomic]: atomic.rs.  [Wallets], [Writer], [Destroy], [Unlock]:
      vault_store.rs in four parts (names and listing; the writer; destruction; unlocking and
      quarantine).  [Lock]: paths.rs, error.rs.  [Store] and [Probe]: theorems only.
    - Application (cc-wallet-app/src).  [ChainData]: the data types of
      cc-wallet-chain/src/wallet_service.rs it holds.  [AppState]: state.rs.
      [Controller]: the controller's record and the monad [Ctl] of its handlers, with the
      program logic [cwp].  [Save]: controller/save.rs.  [Service]: the interface of the
      chain service and the inputs handlers give it.  [Rows]: the rows of the history and
      the chat (live.rs, chat.rs, swap.rs).  [Policy] and [Delivery]: controller/journal.rs,
      what the journal means for the controller and how a send is delivered.
      [DeliveryFacts]: theorems only.  [Names]: names of wallets and of their files (mod.rs).
      [Authorize]: random_ids.rs, the password dialog, fee estimates and the ticket of a send
      (seed_auth.rs, wallet_ops.rs).  [RiskReview]: controller/risk.rs.  [Clipboard]:
      clipboard.rs and its use in seed_auth.rs.  [Loads]: loading the wallet, endpoints,
      contacts (wallet_ops.rs, endpoints.rs, contacts.rs).  [Requests]: controller/swap.rs and
      controller/storage.rs.  [Events]: events.rs.  [Session]: unlocking, creating, locking,
      switching and deleting wallets, recovery phrases, settings, and the key threads with
      their answers (seed_auth.rs, mod.rs).  [Commands]: command.rs, and [handle_command],
      [tick], [poll_events] and [shutdown] of mod.rs.  [Steps]: what handlers do to the tasks
      and the dialog, lemmas only.  [Consent]: the application's steps, theorems only.
    - Chain (cc-wallet-chain/src, cc-wallet-tycho/src).  [Comment]: comments as cells
      (everwallet.rs, encrypted_comment.rs).  [Activity]: activity.rs and the rows of
      explorer.rs.  [Transmit]: endpoints, answers and the broadcast (transport.rs,
      wallet_service.rs).  [Prepare]: checks, balances and the fee of a send
      (wallet_service.rs).  [Transfers]: [EverTransfer], its building, sealed comments and
      conversations (everwallet.rs, crypto.rs, wallet_service.rs).  [Keyring]: keys, their
      cache and the slots of emulation jobs (crypto.rs, wallet_service.rs).  [ChainStorage]:
      the storage contract's cells and requests (storage.rs, wallet_service.rs).
      [Signing]: the wallet contract, its account and the messages it signs (everwallet.rs).
      [Pool]: the pool and the transfer of a swap (ccdex.rs, wallet_service.rs).
      [Subscription]: the stream that tells of an account (subscription.rs).
      [Transport]: the methods that read from a node and what is decoded of their results
      (transport.rs).  [Emulator]: what is emulated and the transaction read back
      (emulator.rs, history.rs).  [WalletService]: the state of the service with its caches,
      the monad [Svc] of its calls, and those that read (wallet_service.rs).  [Preparation]:
      [estimate_fee], [prepare_transaction], [prepare_swap], [prepare_storage_op].
      [Prepared]: theorems on them.  [Broadcast]: the calls that broadcast, and the way of a
      send from its preparation to the socket.

    Definitions keep the names of the code; where Rust has several functions of one name
    (the [new]s, the [label]s) the type is put in front, and fields carry a prefix of their
    record.  A function returning [Result] returns [res]: [Ok], [Err], or [Panic] for an
    [expect], [unwrap] or index out of range; one that cannot fail but may panic has the
    error type [Empty_set].  A [&mut self] method returns the new state beside its result.

    ** Files, time and failure

    A storage operation is a program over the file system state [FsState]: each call is one
    step, before which the world may change other files and after which the call may have
    failed, as a schedule says that the theorems quantify over; the sequence of states passed
    through is the places a crash may come at.  [wp T I p Q] says of a program that, in every
    world whose ticks satisfy [T], all those states satisfy [I] and the end satisfies [Q].
    A handler of the controller is a program over that with the controller's own state, the
    two clocks (a stream of readings, so nothing is assumed of how they advance), the entropy
    the system will still deliver, and the list of tasks it spawned; [cwp T I P] adds [P],
    the condition under which the handler may panic.  Theorems with [False] for [P] say it
    does not.

    A call of the wallet service is a program over the service's state ([Svc]): its caches,
    its keys, the emulations under way, the number the next request of a transport will have,
    and, so that theorems can speak of them, the requests made so far.  What it finds around
    it, the answers by the number of requests before them, the clocks where it reads them, the
    entropy, and how the emulation ends, is one argument ([Around]) the theorems quantify
    over.  The calls run one at a time there; where calls of several threads interleave on a
    mutex ([keypair_for]) they are small steps of a relation over the shared state and the
    place every thread is at ([Keyring]), and the call of the service is shown to be a run of
    those steps ([keypair_alone_runs]).

    ** What the theorems show

    - [Consent]: nothing is signed without consent, at most one task of a step signs, only
      deliveries broadcast, only the password verifies, and while a send waits what it is
      about cannot be changed.  [Clipboard]: a recovery phrase on a selection is tracked
      until it is wiped, whatever fails.  [Names]: every name has a valid, bounded file name.
    - [Transmit]: an outcome tells what happened at the socket; public nodes are not spoken to
      in clear.  [Prepare]: the fee is the largest that is affordable, and the rows kept for
      it are those the journal accepts.  [Transfers], [Comment]: a transfer carries what was
      asked for; comments, plain and sealed, read back, on both sides.  [Keyring]: no key is
      kept once the wallet is locked.  [ChainStorage]: records saved are records shown.
      [Activity]: the history and the explorer agree on every transaction.  [Signing]: what
      is signed is what was asked for, in time.  [Pool]: a swap carries what it sells.
      [Subscription]: what is told of an account does not depend on how the stream is cut.
    - [Preparation]: estimating and preparing only read, whatever is answered.  [Prepared]: a
      prepared send is the one that was confirmed, signed with the wallet's own key for the
      network it is on, paid for by the balances just read, at the fee that was estimated.
      [Broadcast]: it goes out as it was signed, at most once per attempt, to the endpoint
      that was confirmed.  [Transport]: what an answer is accepted for.
    - [DeliveryFacts]: an attempt is broadcast only when the journal on the disk says it has
      started; no attempt is made twice, over any sequence of steps with late or repeated
      results; a next route is tried only after a failure before any socket; after a restart
      nothing is left half done; a record is closed only by a transaction of its own message
      or by the replay guard of the wallet; the state shows what the journal says.
    - [Save]: the barrier returns true only if the disk holds the current state; the writer
      is owned by one place at a time; a failure is final.
    - [Writer], [Store], [Atomic]: at every crash point the old or the new version is in
      place, complete; runs of saves refine a sequence of versions; without failures a save
      succeeds, and what was created can be unlocked.  [Unlock]: the newest save wins; reuse
      of keyslots changes nothing; quarantine keeps its copy before the original goes.
      [Destroy]: what was destroyed is gone, zeroed first, and nothing else is touched; the
      loops end.  [Lock], [Probe]: one instance at a time, released at the end; the probe
      leaves nothing behind.  [Wallets]: files of different wallets are disjoint.
    - [AppState]: the send button is enabled only for what the wallet can pay and the journal
      allows; the operations of the state keep the profile well formed.
    - [Safety]: no second unresolved send without a grant; grants are used once and bound to
      record and ticket; prepared sends are covered; sequence numbers are contiguous; the
      replay never panics on well-formed records.
    - [Journal]: which records, tickets, reservations, provenances and addresses are
      accepted, exactly; what the lifecycle of evidence excludes; appends are atomic.
    - [Envelope], [Persist]: every reachable journal is valid, also across restarts from any
      stored bytes; it only grows; what is stored is read back; decoding is exact.
    - [Affordability]: the verdict is the arithmetic one, asset by asset, and the evaluation
      is total.  [Digest]: digests determine what they are taken of, up to a collision of
      the hash, and the set digests ignore order.
    - [Amount], [Ids], [Send], [Swap], [StorageRecord]: exact grammars, round trips, bounds
      and overflow; canonical forms are fixed points; a quote never overpays the pool.
    - [Profile]: exact strict decoding, round trip, normalisation.  [Authorization]: a
      confirmation is bound to the inputs it signs with.
    - [Vault]: sealing and opening are inverse, opening is total, and the associated data
      of a section binds it to its file, save, name and place.

    ** Parameters

    Code that is not in the repository is a class, with what the code relies on as a second
    class of laws and a concrete instance for the witnesses: [Sha256] (no law; binding is
    stated up to an exhibited collision), [StdAddrLib]/[StdAddrLaws] (the address codec of
    tycho_types; [AddressesReturn]: it does not panic), [SerdeJson]/[SerdeJsonLaws]
    (serde_json, and the texts serde's derived code writes for records, risk events, contacts
    and activity, as [Slot]s), [WalletCodec] (those for the profile and the journal),
    [VaultPrims]/[VaultPrimsLaws] (XChaCha20-Poly1305, Argon2id, BLAKE3),
    [Tempfile]/[TempfileLaws]/[TempfileWorks] (the tempfile crate), the text of
    /proc/self/stat, [RandomError] (the text of a failing entropy source),
    [Unicode]/[UnicodeLaws] (the character tables of [char]), [StoredText] (texts of stored
    sections), [CellLib]/[CellLaws], [StorageLib]/[StorageLaws] and [MessageLib] (cells,
    dictionaries, state inits and addresses of tycho_types), [MessageCodec] and [PoolLib] (its
    messages, arguments of contracts and token amounts), [StatusText] (the http crate), [CurveLib]/[CurveLaws]
    (ed25519-dalek), [SeedLib] (bip39 and the derivation of keys), [UrlLib]/[UrlLaws] (the url
    crate), [BocLib] (bags of cells and
    base64), [NodeLib] and [TransactionLib] (accounts, configurations, transactions and
    messages of tycho_types), [EmulatorLib] (the executor and the parameters of a
    configuration), [KeyLib] (a secret as a signing key); what the last four rely on is
    nothing, so they have no laws.  An answer over HTTP is an argument, whatever it is.
    [ChainService]/[CallsReturn] are the calls of the chain service that
    answer at once; those that do not are tasks, and their results are inputs of the handlers,
    whatever they are.

    ** Bounds and fuel

    Recursions follow the data.  Some take fuel: printing a number in decimal (the number of
    its bits; each step divides by ten), UTF-8 validation (the length; each character takes a
    byte), the decoder of the witnesses' serde (the length), the loops over a file's chunks
    ([rounds], the number of chunks and one more), following symbolic links (40,
    what Linux follows), the cells of a comment ([read_parts], one more than the depth of the
    cell), cutting bytes into cells ([cells_of], their number) and the search for a fee
    ([bisect], the bits of the gap); the cells of a record are counted to 16 by the code
    itself.  The property of [Prepare] on its search, the round
    trips of cells, [dec_val_print], [utf8_valid_iff], [toy_dec_enc_list] and the theorem of
    [Destroy] on its loops show it to be enough.  Machine integers are
    numbers with their checks and wraps written out against [u8_max] to [u128_max]; [usize]
    is taken to be 64 bits wide.

    ** Not modelled, and why

    Of cc-wallet-tycho and cc-wallet-chain: building the HTTP client, the executor that
    emulates, and the codecs of tycho_types are I/O or code that is not in the repository, and
    nothing of them is relied on but what the parameters say.  Elections, key blocks, the
    supply, network statistics, traces, descriptions of contracts and the views of the
    explorer only display.  Timeouts and retries of the HTTP client, and the poisoning of a
    mutex by a thread that panicked, are left out.  Of the rest: the user interface, [Debug] output, the zeroizing of
    memory, the 32-bit floats of the clock's needle, and entry points for tests. *)

From Stdlib Require Import NArith ZArith Lia.
From Stdlib Require Strings.String.
Export Strings.String.StringSyntax.
From stdpp Require Export base tactics list numbers option sorting.

(** Static texts (error messages, field names) are Rocq strings. *)
Notation string := Strings.String.string.
#[export] Instance string_eq_dec : EqDecision string := Strings.String.string_dec.

#[global] Open Scope string_scope.
#[global] Open Scope N_scope.
#[global] Open Scope list_scope.

(** ** Rust results

    [res E A] is the outcome of a Rust call returning [Result<A, E>]: a value, an
    error, or a panic ([expect], [unwrap], an index out of range).  A function that
    cannot fail in Rust but may panic is given the error type [Empty_set]. *)
Inductive res (E A : Type) : Type :=
| Ok (a : A)
| Err (e : E)
| Panic.
Arguments Ok {E A} a.
Arguments Err {E A} e.
Arguments Panic {E A}.

(** The [?] operator. *)
Definition rbind {E A B} (m : res E A) (k : A -> res E B) : res E B :=
  match m with
  | Ok a => k a
  | Err e => Err e
  | Panic => Panic
  end.

Definition map_err {E F A} (f : E -> F) (m : res E A) : res F A :=
  match m with
  | Ok a => Ok a
  | Err e => Err (f e)
  | Panic => Panic
  end.

Definition rmap {E A B} (f : A -> B) (m : res E A) : res E B :=
  rbind m (fun a => Ok (f a)).

(** [Option::ok_or]. *)
Definition ok_or {E A} (o : option A) (e : E) : res E A :=
  match o with Some a => Ok a | None => Err e end.

(** [Option::expect]. *)
Definition expect {E A} (o : option A) : res E A :=
  match o with Some a => Ok a | None => Panic end.

(** [Result::expect]: an error becomes a panic. *)
Definition rexpect {E F A} (m : res F A) : res E A :=
  match m with Ok a => Ok a | Err _ => Panic | Panic => Panic end.

(** [Result::ok] and [Result::is_ok_and]. *)
Definition ok {E F A} (m : res E A) : res F (option A) :=
  match m with Ok a => Ok (Some a) | Err _ => Ok None | Panic => Panic end.

Definition is_ok_and {E F A} (m : res E A) (f : A -> bool) : res F bool :=
  match m with Ok a => Ok (f a) | Err _ => Ok false | Panic => Panic end.

Definition is_ok {E A} (m : res E A) : bool :=
  match m with Ok _ => true | _ => false end.

Definition is_err {E A} (m : res E A) : bool :=
  match m with Err _ => true | _ => false end.

Declare Scope rust_scope.
Delimit Scope rust_scope with rust.
Notation "'let?' x ':=' m 'in' k" := (rbind m (fun x => k))
  (at level 10, x pattern, m at level 100, k at level 200) : rust_scope.
Notation "'check' c 'else' e ';;' k" := (if c then k else Err e)
  (at level 10, c at level 99, e at level 99, k at level 200) : rust_scope.
#[global] Open Scope rust_scope.

Lemma rbind_Ok {E A B} (m : res E A) (k : A -> res E B) b :
  rbind m k = Ok b <-> exists a, m = Ok a /\ k a = Ok b.
Proof. destruct m; simpl; naive_solver. Qed.

Lemma rbind_Err {E A B} (m : res E A) (k : A -> res E B) e :
  rbind m k = Err e <-> m = Err e \/ exists a, m = Ok a /\ k a = Err e.
Proof. destruct m; simpl; naive_solver. Qed.

Lemma rbind_Panic {E A B} (m : res E A) (k : A -> res E B) :
  rbind m k = Panic <-> m = Panic \/ exists a, m = Ok a /\ k a = Panic.
Proof. destruct m; simpl; naive_solver. Qed.

Lemma map_err_Ok {E F A} (f : E -> F) (m : res E A) a :
  map_err f m = Ok a <-> m = Ok a.
Proof. destruct m; simpl; naive_solver. Qed.

Lemma ok_or_Ok {E A} (o : option A) (e : E) a : ok_or o e = Ok a <-> o = Some a.
Proof. destruct o; simpl; naive_solver. Qed.

Lemma expect_Ok {E A} (o : option A) a : @expect E A o = Ok a <-> o = Some a.
Proof. destruct o; simpl; naive_solver. Qed.

Lemma rexpect_Ok {E F A} (m : res F A) a : @rexpect E F A m = Ok a <-> m = Ok a.
Proof. destruct m; simpl; naive_solver. Qed.

Lemma is_ok_true {E A} (m : res E A) : is_ok m = true <-> exists a, m = Ok a.
Proof. destruct m; simpl; naive_solver. Qed.

Lemma ok_Some {E F A} (m : res E A) (a : A) : @ok E F A m = Ok (Some a) <-> m = Ok a.
Proof. destruct m; cbn; naive_solver. Qed.

Lemma is_ok_and_true {E F A} (m : res E A) f : @is_ok_and E F A m f = Ok true <-> exists a, m = Ok a /\ f a = true.
Proof.
  destruct m as [a|e|]; cbn; (split; [|by intros (? & [= <-] & ->)]); [|done|done].
  intros [= H]. by exists a.
Qed.

Create Rewrite HintDb rust.
#[export] Hint Rewrite @rbind_Ok @map_err_Ok @ok_or_Ok @expect_Ok @rexpect_Ok : rust.

(** [rinv H] opens a hypothesis [H : m = Ok a] along the code's early returns. *)
Ltac rinv_step H :=
  lazymatch type of H with
  | rbind _ _ = Ok _ =>
      let a := fresh "a" in let H1 := fresh "Hm" in
      apply rbind_Ok in H; destruct H as (a & H1 & H); try (rinv_step H1)
  | map_err _ _ = Ok _ => apply map_err_Ok in H
  | ok_or _ _ = Ok _ => apply ok_or_Ok in H
  | expect _ = Ok _ => apply expect_Ok in H
  | rexpect _ = Ok _ => apply rexpect_Ok in H
  | (if ?c then _ else _) = Ok _ =>
      let Hc := fresh "Hc" in destruct c eqn:Hc; try discriminate H
  | match ?c with _ => _ end = Ok _ =>
      let Hc := fresh "Hc" in destruct c eqn:Hc; try discriminate H
  | Ok _ = Ok _ => injection H as H; subst
  end.
Ltac rinv H := repeat (rinv_step H; cbv beta zeta in H).

(** ** Machine integers

    Unsigned integers are [N], signed ones [Z]; widths are the bounds below, checked
    exactly where the code checks them. *)
Definition u8_max : N := 255.
Definition u16_max : N := 65535.
Definition u32_max : N := 4294967295.
Definition u64_max : N := 18446744073709551615.
Definition u128_max : N := 340282366920938463463374607431768211455.

Definition checked_add (max a b : N) : option N :=
  if a + b <=? max then Some (a + b) else None.

Definition checked_sub (a b : N) : option N :=
  if b <=? a then Some (a - b) else None.

Definition checked_mul (max a b : N) : option N :=
  if a * b <=? max then Some (a * b) else None.

Definition saturating_add (max a b : N) : N := N.min max (a + b).

(** [N.sub] truncates at zero, as [saturating_sub] does. *)
Definition saturating_sub (a b : N) : N := a - b.

Lemma checked_add_Some max a b c :
  checked_add max a b = Some c <-> c = a + b /\ a + b <= max.
Proof. unfold checked_add. destruct (N.leb_spec (a + b) max); naive_solver lia. Qed.

Lemma checked_sub_Some a b c : checked_sub a b = Some c <-> c = a - b /\ b <= a.
Proof. unfold checked_sub. destruct (N.leb_spec b a); naive_solver lia. Qed.

Lemma checked_mul_Some max a b c :
  checked_mul max a b = Some c <-> c = a * b /\ a * b <= max.
Proof. unfold checked_mul. destruct (N.leb_spec (a * b) max); naive_solver lia. Qed.

(** Boolean tests of the code become arithmetic facts. *)
Ltac bprop :=
  repeat match goal with
  | H : context [negb _ = true] |- _ => rewrite negb_true_iff in H
  | H : context [negb _ = false] |- _ => rewrite negb_false_iff in H
  | H : context [(_ && _) = true] |- _ => rewrite andb_true_iff in H
  | H : context [(_ && _) = false] |- _ => rewrite andb_false_iff in H
  | H : context [(_ || _) = true] |- _ => rewrite orb_true_iff in H
  | H : context [(_ || _) = false] |- _ => rewrite orb_false_iff in H
  | H : context [(_ =? _)%N = true] |- _ => rewrite N.eqb_eq in H
  | H : context [(_ =? _)%N = false] |- _ => rewrite N.eqb_neq in H
  | H : context [(_ <? _)%N = true] |- _ => rewrite N.ltb_lt in H
  | H : context [(_ <? _)%N = false] |- _ => rewrite N.ltb_ge in H
  | H : context [(_ <=? _)%N = true] |- _ => rewrite N.leb_le in H
  | H : context [(_ <=? _)%N = false] |- _ => rewrite N.leb_gt in H
  | H : context [(_ =? _)%nat = true] |- _ => rewrite Nat.eqb_eq in H
  | H : context [(_ =? _)%nat = false] |- _ => rewrite Nat.eqb_neq in H
  | H : context [(_ <? _)%nat = true] |- _ => rewrite Nat.ltb_lt in H
  | H : context [(_ <? _)%nat = false] |- _ => rewrite Nat.ltb_ge in H
  | H : context [(_ <=? _)%nat = true] |- _ => rewrite Nat.leb_le in H
  | H : context [(_ <=? _)%nat = false] |- _ => rewrite Nat.leb_gt in H
  | H : context [bool_decide _ = true] |- _ => rewrite bool_decide_eq_true in H
  | H : context [bool_decide _ = false] |- _ => rewrite bool_decide_eq_false in H
  | H : context [(_ =? _)%Z = true] |- _ => rewrite Z.eqb_eq in H
  | H : context [(_ =? _)%Z = false] |- _ => rewrite Z.eqb_neq in H
  end; destruct_and?.
