(* ===== verification/Ord.v ===== *)
(** * Orders, stable sorting and ordered maps

    Rust's [Ord] as a class with its laws, lexicographic orders for slices and tuples,
    the stable [sort_by_key] of slices, and [BTreeMap] as a list kept sorted by key:
    the code iterates over such maps, so the order of the entries is part of the model. *)

From Stdlib Require Import NArith Lia Sorting.
From S2P Require Import Prelude.

Class Ord (A : Type) := cmp : A -> A -> comparison.
#[global] Hint Mode Ord ! : typeclass_instances.

Class OrdLaws (A : Type) `{Ord A} : Prop := {
  cmp_eq_iff : forall a b : A, cmp a b = Eq <-> a = b;
  cmp_antisym : forall a b : A, cmp b a = CompOpp (cmp a b);
  cmp_lt_trans : forall a b c : A, cmp a b = Lt -> cmp b c = Lt -> cmp a c = Lt
}.

Section laws.
Context {A : Type} `{OrdLaws A}.

Lemma cmp_refl (a : A) : cmp a a = Eq.
Proof. by apply cmp_eq_iff. Qed.

Lemma cmp_gt_lt (a b : A) : cmp a b = Gt <-> cmp b a = Lt.
Proof. rewrite (cmp_antisym a b). destruct (cmp a b); naive_solver. Qed.

Lemma cmp_lt_irrefl (a : A) : cmp a a <> Lt.
Proof. by rewrite cmp_refl. Qed.

(** Transitivity with an equality on either side. *)
Lemma cmp_le_lt_trans (a b c : A) : cmp a b <> Gt -> cmp b c = Lt -> cmp a c = Lt.
Proof.
  destruct (cmp a b) eqn:E; [|by eauto using cmp_lt_trans|done].
  by apply cmp_eq_iff in E as ->.
Qed.

Lemma cmp_le_trans (a b c : A) : cmp a b <> Gt -> cmp b c <> Gt -> cmp a c <> Gt.
Proof.
  intros Hab Hbc. destruct (cmp b c) eqn:E; [|by rewrite (cmp_le_lt_trans a b c)|done].
  by apply cmp_eq_iff in E as ->.
Qed.

Lemma ord_dec (a b : A) : {a = b} + {a <> b}.
Proof.
  destruct (cmp a b) eqn:E; [left; by apply cmp_eq_iff|right|right];
    intros ->; by rewrite cmp_refl in E.
Qed.
End laws.

(** ** Instances *)
#[export] Instance N_ord : Ord N := N.compare.
#[export] Instance N_ord_laws : OrdLaws N.
Proof.
  split; unfold cmp, N_ord; intros.
  - apply N.compare_eq_iff.
  - apply N.compare_antisym.
  - rewrite N.compare_lt_iff in *. lia.
Qed.

(** An order pulled back along an injection. *)
Definition ord_by {A B : Type} `{Ord B} (f : A -> B) : Ord A := fun x y => cmp (f x) (f y).

Lemma ord_by_laws {A B : Type} `{OrdLaws B} (f : A -> B) :
  Inj (=) (=) f -> @OrdLaws A (ord_by f).
Proof.
  intros Hinj. split; unfold cmp, ord_by; intros.
  - rewrite cmp_eq_iff. split; [apply Hinj|by intros ->].
  - apply cmp_antisym.
  - by eapply cmp_lt_trans.
Qed.

(** Slices compare lexicographically. *)
Fixpoint list_cmp {A : Type} `{Ord A} (l k : list A) : comparison :=
  match l, k with
  | [], [] => Eq
  | [], _ :: _ => Lt
  | _ :: _, [] => Gt
  | x :: l', y :: k' =>
      match cmp x y with Eq => list_cmp l' k' | c => c end
  end.
#[export] Instance list_ord {A : Type} `{Ord A} : Ord (list A) := list_cmp.

#[export] Instance list_ord_laws {A : Type} `{OrdLaws A} : OrdLaws (list A).
Proof.
  split; unfold cmp, list_ord.
  - induction a as [|x a IH]; destruct b as [|y b]; simpl; try done.
    destruct (cmp x y) eqn:E.
    + apply cmp_eq_iff in E as ->. rewrite IH. naive_solver.
    + split; [done|]. intros [= -> ->]. by rewrite cmp_refl in E.
    + split; [done|]. intros [= -> ->]. by rewrite cmp_refl in E.
  - induction a as [|x a IH]; destruct b as [|y b]; simpl; try done.
    rewrite (cmp_antisym x y). by destruct (cmp x y); simpl.
  - induction a as [|x a IH]; destruct b as [|y b], c as [|z c]; simpl; try done.
    destruct (cmp x y) eqn:Exy, (cmp y z) eqn:Eyz; try done; intros Hl Hr.
    + apply cmp_eq_iff in Exy as ->, Eyz as ->. rewrite cmp_refl. eauto.
    + apply cmp_eq_iff in Exy as ->. by rewrite Eyz.
    + apply cmp_eq_iff in Eyz as ->. by rewrite Exy.
    + by rewrite (cmp_lt_trans x y z).
Qed.

(** Tuples compare lexicographically. *)
#[export] Instance prod_ord {A B : Type} `{Ord A, Ord B} : Ord (A * B) :=
  fun p q => match cmp (fst p) (fst q) with Eq => cmp (snd p) (snd q) | c => c end.

#[export] Instance prod_ord_laws {A B : Type} `{OrdLaws A, OrdLaws B} : OrdLaws (A * B).
Proof.
  split; unfold cmp, prod_ord.
  - intros [a b] [a' b']; simpl. destruct (cmp a a') eqn:E.
    + apply cmp_eq_iff in E as ->. rewrite cmp_eq_iff. naive_solver.
    + split; [done|]. intros [= -> ->]. by rewrite cmp_refl in E.
    + split; [done|]. intros [= -> ->]. by rewrite cmp_refl in E.
  - intros [a b] [a' b']; simpl. rewrite (cmp_antisym a a').
    destruct (cmp a a'); simpl; try done. apply cmp_antisym.
  - intros [a b] [a' b'] [a'' b'']; simpl.
    destruct (cmp a a') eqn:E, (cmp a' a'') eqn:E'; try done; intros Hl Hr.
    + apply cmp_eq_iff in E as ->, E' as ->. rewrite cmp_refl. by eapply cmp_lt_trans.
    + apply cmp_eq_iff in E as ->. by rewrite E'.
    + apply cmp_eq_iff in E' as ->. by rewrite E.
    + by rewrite (cmp_lt_trans a a' a'').
Qed.

#[export] Instance bool_ord : Ord bool := Bool.compare.

#[export] Instance bool_ord_laws : OrdLaws bool.
Proof. split; unfold cmp, bool_ord; [by intros [] []|by intros [] []|by intros [] [] []]. Qed.

(** [std::cmp::Reverse]. *)
Record Reverse (A : Type) := mkReverse { reversed : A }.
Arguments mkReverse {A} reversed.
Arguments reversed {A} r.

#[export] Instance reverse_ord {A : Type} `{Ord A} : Ord (Reverse A) :=
  fun x y => cmp (reversed y) (reversed x).

#[export] Instance reverse_ord_laws {A : Type} `{OrdLaws A} : OrdLaws (Reverse A).
Proof.
  split; unfold cmp, reverse_ord.
  - intros [a] [b]. cbn. rewrite cmp_eq_iff. split; [by intros ->|by intros [= ->]].
  - intros [a] [b]. cbn. apply cmp_antisym.
  - intros [a] [b] [c]. cbn. intros H1 H2. by apply (cmp_lt_trans c b a).
Qed.

(** [Iterator::min] and [Iterator::max] on integers. *)
Definition min_of (l : list N) : option N :=
  match l with [] => None | x :: l => Some (fold_left N.min l x) end.
Definition max_of (l : list N) : option N :=
  match l with [] => None | x :: l => Some (fold_left N.max l x) end.

(** ** Stable sorting

    [insert_by_key] puts an element before the first one with a strictly greater or
    equal key; folding from the right keeps equal elements in their order, as the
    stable [slice::sort_by_key] does. *)
Section sort.
Context {A K : Type} `{OrdLaws K} (key : A -> K).

Fixpoint insert_by_key (x : A) (l : list A) : list A :=
  match l with
  | [] => [x]
  | y :: l' =>
      match cmp (key x) (key y) with
      | Gt => y :: insert_by_key x l'
      | _ => x :: l
      end
  end.

Definition sort_by_key (l : list A) : list A := fold_right insert_by_key [] l.

(** [windows(2).any(|w| key(w[0]) == key(w[1]))]. *)
Fixpoint adjacent_dup (l : list A) : bool :=
  match l with
  | x :: ((y :: _) as l') =>
      match cmp (key x) (key y) with Eq => true | _ => adjacent_dup l' end
  | _ => false
  end.

Definition key_le (x y : A) : Prop := cmp (key x) (key y) <> Gt.

#[export] Instance key_le_trans : Transitive key_le.
Proof. intros x y z. apply cmp_le_trans. Qed.

Lemma insert_by_key_perm x l : insert_by_key x l ≡ₚ x :: l.
Proof.
  induction l as [|y l IH]; simpl; [done|].
  destruct (cmp (key x) (key y)); try done. rewrite IH. apply perm_swap.
Qed.

Lemma sort_by_key_perm l : sort_by_key l ≡ₚ l.
Proof. induction l as [|x l IH]; simpl; [done|]. by rewrite insert_by_key_perm, IH. Qed.

Lemma insert_by_key_sorted x l :
  StronglySorted key_le l -> StronglySorted key_le (insert_by_key x l).
Proof.
  induction 1 as [|y l Hl IH Hy]; simpl; [by repeat constructor|].
  assert (Hx : cmp (key x) (key y) <> Gt -> StronglySorted key_le (x :: y :: l)).
  { intros Hxy. constructor; [by constructor|].
    constructor; [done|]. eapply Forall_impl; [exact Hy|].
    intros z. by apply cmp_le_trans. }
  destruct (cmp (key x) (key y)) eqn:E; [by apply Hx..|].
  constructor; [done|]. rewrite insert_by_key_perm. constructor; [|done].
  unfold key_le. apply cmp_gt_lt in E. by rewrite E.
Qed.

Lemma sort_by_key_sorted l : StronglySorted key_le (sort_by_key l).
Proof. induction l; simpl; [constructor|by apply insert_by_key_sorted]. Qed.

(** A list already sorted is left alone. *)
Lemma sort_by_key_id l : StronglySorted key_le l -> sort_by_key l = l.
Proof.
  induction 1 as [|x l Hl IH Hx]; simpl; [done|]. rewrite IH.
  destruct l as [|y l]; [done|]. simpl. inversion_clear Hx as [|?? Hxy].
  unfold key_le in Hxy. by destruct (cmp (key x) (key y)).
Qed.

Lemma adjacent_dup_false l :
  StronglySorted key_le l -> adjacent_dup l = false <-> NoDup (key <$> l).
Proof.
  induction 1 as [|x l Hl IH Hx]; [split; [intros _; constructor|done]|].
  destruct l as [|y l].
  { split; [intros _; apply NoDup_singleton|done]. }
  change (adjacent_dup (x :: y :: l)) with
    (match cmp (key x) (key y) with Eq => true | _ => adjacent_dup (y :: l) end).
  rewrite fmap_cons, NoDup_cons, <- IH. inversion_clear Hx as [|?? Hxy Hxl].
  inversion_clear Hl as [|?? Hl' Hyl].
  destruct (cmp (key x) (key y)) eqn:E; [| |done].
  - split; [done|]. intros [Hn _]. apply cmp_eq_iff in E. exfalso.
    apply Hn. rewrite E. left.
  - split; [|naive_solver]. intros Hd. split; [|done].
    rewrite fmap_cons, not_elem_of_cons. split.
    + intros Heq. by rewrite Heq, cmp_refl in E.
    + rewrite list_elem_of_fmap. intros (z & Heq & Hz).
      rewrite Forall_forall in Hyl. specialize (Hyl z Hz).
      rewrite Heq in E. apply Hyl. by apply cmp_gt_lt.
Qed.

(** With distinct keys the sorted list does not depend on the order of the input. *)
Lemma sort_by_key_unique l k :
  l ≡ₚ k -> NoDup (key <$> l) -> sort_by_key l = sort_by_key k.
Proof.
  intros Hp Hn.
  assert (Hs : forall l1 l2, StronglySorted key_le l1 -> StronglySorted key_le l2 ->
            l1 ≡ₚ l2 -> NoDup (key <$> l1) -> l1 = l2).
  { clear Hp Hn. intros l1 l2 H1. revert l2.
    induction H1 as [|x l1 Hs1 IH Hx]; intros l2 H2 Hp Hn.
    { by apply Permutation_nil_l in Hp. }
    destruct H2 as [|y l2 Hs2 Hy]; [by apply Permutation_nil_r in Hp|].
    assert (x = y) as <-.
    { assert (y ∈ x :: l1) as Hy1 by (rewrite Hp; left).
      assert (x ∈ y :: l2) as Hx2 by (rewrite <- Hp; left).
      apply elem_of_cons in Hy1 as [Heq|Hy1]; [done|].
      apply elem_of_cons in Hx2 as [Heq|Hx2]; [done|].
      rewrite Forall_forall in Hx, Hy.
      specialize (Hx y Hy1). specialize (Hy x Hx2). unfold key_le in Hx, Hy.
      rewrite (cmp_antisym (key x) (key y)) in Hy.
      assert (E : cmp (key x) (key y) = Eq) by (by destruct (cmp (key x) (key y))).
      apply cmp_eq_iff in E. exfalso. apply NoDup_cons in Hn as [Hn _].
      apply Hn. rewrite E. by apply list_elem_of_fmap_2. }
    f_equal. apply IH; [done|by apply Permutation_cons_inv in Hp|].
    rewrite fmap_cons in Hn. by apply NoDup_cons in Hn as [_ ?]. }
  apply Hs; [apply sort_by_key_sorted..| |].
  - by rewrite !sort_by_key_perm.
  - by rewrite sort_by_key_perm.
Qed.
End sort.

(** ** [BTreeMap] *)
Notation btree K V := (list (K * V)).

Section btree.
Context {K V : Type} `{OrdLaws K}.

Fixpoint bt_insert (k : K) (v : V) (m : btree K V) : btree K V :=
  match m with
  | [] => [(k, v)]
  | (k', v') :: m' =>
      match cmp k k' with
      | Lt => (k, v) :: m
      | Eq => (k, v) :: m'
      | Gt => (k', v') :: bt_insert k v m'
      end
  end.

Fixpoint bt_get (k : K) (m : btree K V) : option V :=
  match m with
  | [] => None
  | (k', v') :: m' => match cmp k k' with Eq => Some v' | _ => bt_get k m' end
  end.

Fixpoint bt_remove (k : K) (m : btree K V) : btree K V :=
  match m with
  | [] => []
  | (k', v') :: m' => match cmp k k' with Eq => m' | _ => (k', v') :: bt_remove k m' end
  end.

Definition bt_contains (k : K) (m : btree K V) : bool :=
  match bt_get k m with Some _ => true | None => false end.

Definition bt_values (m : btree K V) : list V := snd <$> m.
Definition bt_keys (m : btree K V) : list K := fst <$> m.

(** Keys strictly increasing: what [BTreeMap] maintains. *)
Definition bt_wf (m : btree K V) : Prop :=
  StronglySorted (fun p q => cmp (fst p) (fst q) = Lt) m.

Lemma bt_get_insert_eq k v m : bt_get k (bt_insert k v m) = Some v.
Proof.
  induction m as [|[k' v'] m IH]; simpl; [by rewrite cmp_refl|].
  destruct (cmp k k') eqn:E; simpl; rewrite ?cmp_refl, ?E; done.
Qed.

Lemma bt_get_insert_ne k k' v m : k <> k' -> bt_get k' (bt_insert k v m) = bt_get k' m.
Proof.
  intros Hne. assert (Hc : cmp k' k <> Eq) by (rewrite cmp_eq_iff; congruence).
  induction m as [|[k2 v2] m IH]; simpl; [by destruct (cmp k' k)|].
  destruct (cmp k k2) eqn:E; simpl.
  - apply cmp_eq_iff in E as ->. by destruct (cmp k' k2).
  - by destruct (cmp k' k).
  - by rewrite IH.
Qed.

Lemma bt_insert_keys k v m : forall k', k' ∈ bt_keys (bt_insert k v m) -> k' = k \/ k' ∈ bt_keys m.
Proof.
  induction m as [|[k2 v2] m IH]; simpl; intros k'; [by rewrite list_elem_of_singleton; left|].
  destruct (cmp k k2) eqn:E; simpl; rewrite !elem_of_cons; naive_solver.
Qed.

Lemma bt_wf_cons k v m :
  bt_wf ((k, v) :: m) <-> (forall k', k' ∈ bt_keys m -> cmp k k' = Lt) /\ bt_wf m.
Proof.
  unfold bt_wf. split.
  - inversion_clear 1 as [|?? Hs Hf]. split; [|done].
    intros k' (p & -> & Hp)%list_elem_of_fmap. rewrite Forall_forall in Hf. by apply Hf.
  - intros [Hf Hs]. constructor; [done|]. apply Forall_forall. intros p Hp. simpl.
    apply Hf. by apply list_elem_of_fmap_2.
Qed.

Lemma bt_insert_wf k v m : bt_wf m -> bt_wf (bt_insert k v m).
Proof.
  induction m as [|[k' v'] m IH]; simpl; [intros _; repeat constructor|].
  rewrite bt_wf_cons. intros [Hf Hw]. destruct (cmp k k') eqn:E.
  - apply cmp_eq_iff in E as ->. by rewrite bt_wf_cons.
  - rewrite !bt_wf_cons. split; [|done]. simpl. intros k2 Hk2.
    apply elem_of_cons in Hk2 as [->|Hk2]; [done|]. by eapply cmp_lt_trans, Hf.
  - rewrite bt_wf_cons. split; [|by apply IH]. intros k2 Hk2.
    apply bt_insert_keys in Hk2 as [->|Hk2]; [by apply cmp_gt_lt|by apply Hf].
Qed.

Lemma bt_remove_keys k m : forall k', k' ∈ bt_keys (bt_remove k m) -> k' ∈ bt_keys m.
Proof.
  induction m as [|[k2 v2] m IH]; simpl; intros k'; [done|].
  destruct (cmp k k2); simpl; rewrite ?elem_of_cons; naive_solver.
Qed.

Lemma bt_remove_wf k m : bt_wf m -> bt_wf (bt_remove k m).
Proof.
  induction m as [|[k' v'] m IH]; simpl; [done|].
  rewrite bt_wf_cons. intros [Hf Hw]. destruct (cmp k k'); [done|..];
    rewrite bt_wf_cons; (split; [|by apply IH]);
    intros k2 Hk2%bt_remove_keys; by apply Hf.
Qed.

Lemma bt_get_None k m : bt_get k m = None <-> k ∉ bt_keys m.
Proof.
  induction m as [|[k' v'] m IH]; simpl; [split; [intros _; apply not_elem_of_nil|done]|].
  rewrite not_elem_of_cons, <- IH, <- cmp_eq_iff. destruct (cmp k k'); naive_solver.
Qed.

Lemma bt_get_remove_eq k m : bt_wf m -> bt_get k (bt_remove k m) = None.
Proof.
  induction m as [|[k' v'] m IH]; simpl; [done|].
  rewrite bt_wf_cons. intros [Hf Hw]. destruct (cmp k k') eqn:E.
  - apply bt_get_None. intros Hk. apply cmp_eq_iff in E as ->.
    by apply (cmp_lt_irrefl k'), Hf.
  - simpl. rewrite E. by apply IH.
  - simpl. rewrite E. by apply IH.
Qed.

Lemma bt_get_remove_ne k k' m : k <> k' -> bt_get k' (bt_remove k m) = bt_get k' m.
Proof.
  intros Hne. induction m as [|[k2 v2] m IH]; simpl; [done|].
  destruct (cmp k k2) eqn:E; simpl; rewrite ?IH; try done.
  apply cmp_eq_iff in E as ->.
  destruct (cmp k' k2) eqn:E'; [|done..]. by apply cmp_eq_iff in E'.
Qed.

Lemma bt_get_In k v m : bt_get k m = Some v -> (k, v) ∈ m.
Proof.
  induction m as [|[k' v'] m IH]; simpl; [done|].
  destruct (cmp k k') eqn:E; [|right; by apply IH..].
  intros [= ->]. apply cmp_eq_iff in E as ->. left.
Qed.

Lemma bt_In_get k v m : bt_wf m -> (k, v) ∈ m -> bt_get k m = Some v.
Proof.
  induction m as [|[k' v'] m IH]; [by intros _ ?%elem_of_nil|].
  rewrite bt_wf_cons. intros [Hf Hw] Hin. simpl.
  apply elem_of_cons in Hin as [[= -> ->]|Hin]; [by rewrite cmp_refl|].
  assert (cmp k' k = Lt) as E by (by apply Hf, (list_elem_of_fmap_2 fst m (k, v))).
  rewrite (cmp_antisym k' k), E. simpl. by apply IH.
Qed.

Lemma bt_contains_true k m : bt_contains k m = true <-> k ∈ bt_keys m.
Proof.
  unfold bt_contains. pose proof (bt_get_None k m) as Hn.
  destruct (bt_get k m) eqn:E; [|split; [done|]; intros Hin; by apply (proj1 Hn eq_refl) in Hin].
  split; [|done]. intros _. apply bt_get_In in E. by apply (list_elem_of_fmap_2 fst) in E.
Qed.

Lemma bt_keys_insert k v m k' : k' ∈ bt_keys (bt_insert k v m) <-> k' = k \/ k' ∈ bt_keys m.
Proof.
  rewrite <- !bt_contains_true. unfold bt_contains.
  destruct (ord_dec k k') as [<-|Hne]; [rewrite bt_get_insert_eq; tauto|].
  rewrite bt_get_insert_ne by done. naive_solver.
Qed.

Lemma length_bt_insert_le k v m : (length (bt_insert k v m) <= S (length m))%nat.
Proof. induction m as [|[k' v'] m IH]; simpl; [done|]. destruct (cmp k k'); simpl; lia. Qed.

Lemma length_bt_insert_old k v m : bt_wf m -> k ∈ bt_keys m -> length (bt_insert k v m) = length m.
Proof.
  induction m as [|[k' v'] m IH]; [by intros _ ?%elem_of_nil|].
  rewrite bt_wf_cons. intros [Hf Hw] Hk. simpl. destruct (cmp k k') eqn:E; [done| |].
  - exfalso. cbn in Hk. apply elem_of_cons in Hk as [->|Hk]; [by rewrite cmp_refl in E|].
    apply (cmp_lt_irrefl k). eapply cmp_lt_trans; [exact E|by apply Hf].
  - simpl. f_equal. apply IH; [done|]. cbn in Hk. apply elem_of_cons in Hk as [->|Hk]; [|done].
    by rewrite cmp_refl in E.
Qed.

Lemma length_bt_remove_le k m : (length (bt_remove k m) <= length m)%nat.
Proof. induction m as [|[k' v'] m IH]; simpl; [done|]. destruct (cmp k k'); simpl; lia. Qed.

Lemma bt_wf_nodup m : bt_wf m -> NoDup (bt_keys m).
Proof.
  induction m as [|[k v] m IH]; [constructor|]. rewrite bt_wf_cons. intros [Hf Hw].
  cbn. apply NoDup_cons. split; [|by apply IH]. intros Hin. by apply (cmp_lt_irrefl k), Hf.
Qed.

(** Well-formed maps with the same lookups are equal. *)
Lemma bt_ext m1 m2 :
  bt_wf m1 -> bt_wf m2 -> (forall k, bt_get k m1 = bt_get k m2) -> m1 = m2.
Proof.
  revert m2. induction m1 as [|[k v] m1 IH]; intros [|[k2 v2] m2] H1 H2 Hg; [done|..].
  - specialize (Hg k2). simpl in Hg. by rewrite cmp_refl in Hg.
  - specialize (Hg k). simpl in Hg. by rewrite cmp_refl in Hg.
  - pose proof H1 as H1'. pose proof H2 as H2'.
    apply bt_wf_cons in H1' as [Hf1 Hw1], H2' as [Hf2 Hw2].
    assert (k = k2) as <-.
    { destruct (cmp k k2) eqn:E; [by apply cmp_eq_iff| |]; exfalso.
      - pose proof (Hg k) as Hk. simpl in Hk. rewrite cmp_refl, E in Hk.
        symmetry in Hk. apply bt_get_In in Hk.
        apply (list_elem_of_fmap_2 fst), Hf2 in Hk. simpl in Hk.
        apply cmp_gt_lt in Hk. congruence.
      - apply cmp_gt_lt in E. pose proof (Hg k2) as Hk. simpl in Hk.
        rewrite cmp_refl, E in Hk. apply bt_get_In in Hk.
        apply (list_elem_of_fmap_2 fst), Hf1 in Hk. simpl in Hk.
        apply cmp_gt_lt in Hk. congruence. }
    f_equal.
    + specialize (Hg k). simpl in Hg. rewrite !cmp_refl in Hg. congruence.
    + apply IH; [done..|]. intros k'. pose proof (Hg k') as Hk'. simpl in Hk'.
      destruct (cmp k' k) eqn:E; [|done..]. apply cmp_eq_iff in E as ->.
      transitivity (@None V); [|symmetry]; apply bt_get_None; intros Hin.
      * by apply (cmp_lt_irrefl k), Hf1.
      * by apply (cmp_lt_irrefl k), Hf2.
Qed.
End btree.

Create HintDb btree.
#[export] Hint Resolve bt_insert_wf bt_remove_wf : btree.
#[export] Hint Extern 1 (bt_wf []) => constructor : btree.
