(* ===== verification/Bytes.v ===== *)
(** * Bytes

    [u8] values are [Byte.byte], slices and [Vec<u8>] are lists of bytes, a Rust
    [String] is the list of its UTF-8 bytes.  This file holds the conversions between
    bytes and numbers ([to_be_bytes], [to_le_bytes] and back), arrays of 32 bytes, and
    the notation for byte-string literals. *)

From Stdlib Require Import NArith Lia.
From Stdlib Require Strings.Byte Strings.String.
From S2P Require Import Prelude Ord.

Notation byte := Byte.byte.
Notation bytes := (list byte).
#[global] Open Scope list_scope.

(** A string literal of the source, as bytes. *)
Definition bs (s : string) : bytes := Strings.String.list_byte_of_string s.
Coercion bs : string >-> list.

#[export] Instance byte_eq_dec : EqDecision byte := Byte.byte_eq_dec.

Definition u8 (b : byte) : N := Byte.to_N b.

(** [n as u8]. *)
Definition byte_of (n : N) : byte :=
  match Byte.of_N (n mod 256) with Some b => b | None => Byte.x00 end.

Lemma u8_bound b : u8 b < 256.
Proof. unfold u8. pose proof (Byte.to_N_bounded b). lia. Qed.

Lemma byte_of_u8 b : byte_of (u8 b) = b.
Proof. by destruct b. Qed.

Lemma u8_byte_of n : u8 (byte_of n) = n mod 256.
Proof.
  unfold byte_of, u8. pose proof (N.mod_lt n 256).
  destruct (Byte.of_N (n mod 256)) eqn:E; [by apply Byte.to_of_N|].
  apply Byte.of_N_None_iff in E. lia.
Qed.

Lemma byte_of_mod n : byte_of (n mod 256) = byte_of n.
Proof. unfold byte_of. by rewrite N.Div0.mod_mod. Qed.

#[export] Instance u8_inj : Inj (=) (=) u8.
Proof. intros a b E. by rewrite <- (byte_of_u8 a), <- (byte_of_u8 b), E. Qed.

#[export] Instance byte_ord : Ord byte := ord_by u8.
#[export] Instance byte_ord_laws : OrdLaws byte.
Proof. apply ord_by_laws, _. Qed.

(** ** Big-endian and little-endian integers *)
Fixpoint be_bytes (k : nat) (n : N) : bytes :=
  match k with
  | O => []
  | S k' => byte_of (n / 256 ^ N.of_nat k') :: be_bytes k' n
  end.

Definition of_be (l : bytes) : N := fold_left (fun acc b => acc * 256 + u8 b) l 0.

Definition le_bytes (k : nat) (n : N) : bytes := rev (be_bytes k n).
Definition of_le (l : bytes) : N := of_be (rev l).

Lemma length_be_bytes k n : length (be_bytes k n) = k.
Proof. induction k; simpl; congruence. Qed.

Lemma length_le_bytes k n : length (le_bytes k n) = k.
Proof. unfold le_bytes. by rewrite length_rev, length_be_bytes. Qed.

Lemma pow256_pos k : 0 < 256 ^ k.
Proof. apply N.neq_0_lt_0, N.pow_nonzero. lia. Qed.

Lemma pow256_succ k : 256 ^ N.of_nat (S k) = 256 * 256 ^ N.of_nat k.
Proof. by rewrite Nat2N.inj_succ, N.pow_succ_r'. Qed.

Lemma fold_be_acc l acc :
  fold_left (fun acc b => acc * 256 + u8 b) l acc
  = acc * 256 ^ N.of_nat (length l) + of_be l.
Proof.
  unfold of_be. revert acc. induction l as [|b l IH]; intros acc; simpl length.
  - simpl. lia.
  - cbn [fold_left]. rewrite (IH (acc * 256 + u8 b)), (IH (0 * 256 + u8 b)), pow256_succ. lia.
Qed.

Lemma of_be_cons b l : of_be (b :: l) = u8 b * 256 ^ N.of_nat (length l) + of_be l.
Proof. unfold of_be at 1. simpl. apply fold_be_acc. Qed.

Lemma of_be_app l k : of_be (l ++ k) = of_be l * 256 ^ N.of_nat (length k) + of_be k.
Proof. unfold of_be at 1. rewrite fold_left_app. apply fold_be_acc. Qed.

Lemma of_be_bound l : of_be l < 256 ^ N.of_nat (length l).
Proof.
  induction l as [|b l IH]; [done|].
  rewrite of_be_cons. simpl length. rewrite pow256_succ. pose proof (u8_bound b). nia.
Qed.

Lemma of_be_be_bytes k n : of_be (be_bytes k n) = n mod 256 ^ N.of_nat k.
Proof.
  induction k as [|k IH]; [by rewrite N.mod_1_r|].
  cbn [be_bytes]. rewrite of_be_cons, u8_byte_of, length_be_bytes, IH, pow256_succ.
  rewrite (N.mul_comm 256), (N.Div0.mod_mul_r n (256 ^ N.of_nat k) 256). lia.
Qed.

Lemma be_bytes_mod k n : be_bytes k (n mod 256 ^ N.of_nat k) = be_bytes k n.
Proof.
  revert n. assert (H : forall j n, (j <= k)%nat ->
    be_bytes j (n mod 256 ^ N.of_nat k) = be_bytes j n).
  { induction j as [|j IH]; intros n Hj; [done|]. cbn [be_bytes]. rewrite IH by lia.
    f_equal. rewrite <- (byte_of_mod (n / _)), <- (byte_of_mod (_ mod _ / _)). f_equal.
    replace (256 ^ N.of_nat k) with (256 ^ N.of_nat j * (256 * 256 ^ N.of_nat (k - S j))).
    2:{ rewrite <- pow256_succ, <- N.pow_add_r. f_equal. lia. }
    rewrite N.Div0.mod_mul_r, N.mul_comm, N.div_add by (pose proof (pow256_pos (N.of_nat j)); lia).
    rewrite N.div_small, N.add_0_l
      by (apply N.mod_lt; pose proof (pow256_pos (N.of_nat j)); lia).
    rewrite N.Div0.mod_mul_r, (N.mul_comm 256), N.Div0.mod_add. apply N.Div0.mod_mod. }
  intros n. by apply H.
Qed.

Lemma be_bytes_of_be l : be_bytes (length l) (of_be l) = l.
Proof.
  induction l as [|b l IH]; [done|]. cbn [length be_bytes].
  rewrite of_be_cons. pose proof (of_be_bound l) as Hb. f_equal.
  - rewrite N.add_comm, N.div_add, N.div_small, N.add_0_l by lia. apply byte_of_u8.
  - rewrite <- be_bytes_mod, N.add_comm, N.Div0.mod_add, be_bytes_mod. exact IH.
Qed.

Lemma be_bytes_inj k n m :
  n < 256 ^ N.of_nat k -> m < 256 ^ N.of_nat k -> be_bytes k n = be_bytes k m -> n = m.
Proof.
  intros Hn Hm E%(f_equal of_be). rewrite !of_be_be_bytes, !N.mod_small in E by done. done.
Qed.

Lemma of_le_le_bytes k n : n < 256 ^ N.of_nat k -> of_le (le_bytes k n) = n.
Proof.
  intros Hn. unfold of_le, le_bytes. by rewrite rev_involutive, of_be_be_bytes, N.mod_small.
Qed.

Lemma le_bytes_inj k n m :
  n < 256 ^ N.of_nat k -> m < 256 ^ N.of_nat k -> le_bytes k n = le_bytes k m -> n = m.
Proof. intros Hn Hm E%(f_equal of_le). by rewrite !of_le_le_bytes in E. Qed.

(** Equal-length lists compare as the numbers they spell. *)
Lemma list_cmp_of_be l k :
  length l = length k -> list_cmp l k = N.compare (of_be l) (of_be k).
Proof.
  revert k. induction l as [|x l IH]; intros [|y k] Hl; try discriminate Hl; [done|].
  injection Hl as Hl. rewrite !of_be_cons, <- Hl. simpl. unfold cmp, byte_ord, ord_by, cmp, N_ord.
  pose proof (of_be_bound l) as B1. pose proof (of_be_bound k) as B2. rewrite <- Hl in B2.
  destruct (N.compare_spec (u8 x) (u8 y)) as [E|E|E].
  - rewrite E, IH by done. destruct (N.compare_spec (of_be l) (of_be k)) as [E'|E'|E']; symmetry;
      [apply N.compare_eq_iff|apply N.compare_lt_iff|apply N.compare_gt_iff]; lia.
  - symmetry. apply N.compare_lt_iff. nia.
  - symmetry. apply N.compare_gt_iff. nia.
Qed.

(** ** Arrays of 32 bytes

    [RecordId], [RiskNonce], [Digest32] and [PublicKey32] wrap a [[u8; 32]]. *)
Record bytes32 : Type := mk32 {
  as_bytes : bytes;
  as_bytes_len : Is_true (length as_bytes =? 32)%nat
}.

(** [<[u8; 32]>::try_from]. *)
Definition try_into_32 (l : bytes) : option bytes32 :=
  match decide (Is_true (length l =? 32)%nat) with
  | left H => Some (mk32 l H)
  | right _ => None
  end.

Lemma bytes32_eq (a b : bytes32) : as_bytes a = as_bytes b -> a = b.
Proof.
  destruct a as [a Ha], b as [b Hb]; simpl. intros ->. f_equal. apply proof_irrel.
Qed.
#[export] Instance as_bytes_inj : Inj (=) (=) as_bytes.
Proof. intros a b. apply bytes32_eq. Qed.

Lemma length_as_bytes a : length (as_bytes a) = 32%nat.
Proof. destruct a as [a Ha]; simpl. by apply Is_true_eq_true, Nat.eqb_eq in Ha. Qed.

#[export] Instance bytes32_eq_dec : EqDecision bytes32.
Proof.
  refine (fun a b => cast_if (decide (as_bytes a = as_bytes b))); [by apply bytes32_eq|congruence].
Defined.

#[export] Instance bytes32_ord : Ord bytes32 := ord_by as_bytes.
#[export] Instance bytes32_ord_laws : OrdLaws bytes32.
Proof. apply ord_by_laws, _. Qed.

Lemma try_into_32_Some l a : try_into_32 l = Some a <-> l = as_bytes a.
Proof.
  unfold try_into_32. case_decide as H; split; try done.
  - by intros [= <-].
  - intros ->. f_equal. by apply bytes32_eq.
  - intros ->. exfalso. apply H. apply as_bytes_len.
Qed.

Lemma try_into_32_is_Some l : is_Some (try_into_32 l) <-> length l = 32%nat.
Proof.
  split.
  - intros [a ->%try_into_32_Some]. apply length_as_bytes.
  - intros Hl. unfold try_into_32. case_decide as H; [by eexists|].
    exfalso. apply H. by rewrite Hl.
Qed.

(** The first 32 bytes, zero-padded: the literal arrays of the concrete checks. *)
Lemma length_pad32 (l : bytes) : Is_true (length (take 32 (l ++ repeat Byte.x00 32)) =? 32)%nat.
Proof.
  rewrite length_take, length_app, repeat_length.
  rewrite Nat.min_l by lia. done.
Qed.
Definition pad32 (l : bytes) : bytes32 := mk32 _ (length_pad32 l).
