(* ===== verification/Text.v ===== *)
(** * Text

    The [str] operations of the Rust standard library the code uses, on the UTF-8
    bytes of a string: [trim], [split_whitespace], [is_control], UTF-8 validation,
    character boundaries, prefix and separator searches.

    White space is Unicode's [White_Space], control characters are Unicode's [Cc];
    both are recognised by their UTF-8 encodings, whose first bytes are never
    continuation bytes, so a match inside another character is impossible in a
    valid string. *)

From Stdlib Require Import NArith Lia.
From S2P Require Import Prelude Ord Bytes.

(** ** Character classes *)
Definition is_ascii_digit (b : byte) : bool := (48 <=? u8 b) && (u8 b <=? 57).
Definition is_ascii_control (b : byte) : bool := (u8 b <? 32) || (u8 b =? 127).
Definition is_continuation (b : byte) : bool := (128 <=? u8 b) && (u8 b <? 192).

Definition ws1 (a : byte) : bool := ((9 <=? u8 a) && (u8 a <=? 13)) || (u8 a =? 32).
(** U+0085, U+00A0 *)
Definition ws2 (a b : byte) : bool := (u8 a =? 194) && ((u8 b =? 133) || (u8 b =? 160)).
(** U+1680; U+2000-U+200A, U+2028, U+2029, U+202F, U+205F; U+3000 *)
Definition ws3 (a b c : byte) : bool :=
  ((u8 a =? 225) && (u8 b =? 154) && (u8 c =? 128))
  || ((u8 a =? 226) && (u8 b =? 128)
      && (((128 <=? u8 c) && (u8 c <=? 138)) || (u8 c =? 168) || (u8 c =? 169) || (u8 c =? 175)))
  || ((u8 a =? 226) && (u8 b =? 129) && (u8 c =? 159))
  || ((u8 a =? 227) && (u8 b =? 128) && (u8 c =? 128)).

(** ** [str::trim] *)
Section trim.
(** The encodings to strip, of one, two and three bytes. *)
Context (p1 : byte -> bool) (p2 : byte -> byte -> bool) (p3 : byte -> byte -> byte -> bool).

Fixpoint strip (s : bytes) : bytes :=
  match s with
  | [] => []
  | a :: s1 =>
      if p1 a then strip s1 else
      match s1 with
      | [] => s
      | b :: s2 =>
          if p2 a b then strip s2 else
          match s2 with
          | [] => s
          | c :: s3 => if p3 a b c then strip s3 else s
          end
      end
  end.

(** Nothing to strip at the front. *)
Definition stripped (s : bytes) : bool :=
  match s with
  | [] => true
  | a :: s1 =>
      negb (p1 a) &&
      match s1 with
      | [] => true
      | b :: s2 =>
          negb (p2 a b) &&
          match s2 with [] => true | c :: _ => negb (p3 a b c) end
      end
  end.

Lemma strip_ind (P : bytes -> bytes -> Prop) :
  (forall s, stripped s = true -> P s s) ->
  (forall a s t, p1 a = true -> P s t -> P (a :: s) t) ->
  (forall a b s t, p2 a b = true -> P s t -> P (a :: b :: s) t) ->
  (forall a b c s t, p3 a b c = true -> P s t -> P (a :: b :: c :: s) t) ->
  forall s, P s (strip s).
Proof.
  intros H0 H1 H2 H3 s.
  induction s as [s IH] using (well_founded_induction (well_founded_ltof _ length)).
  unfold ltof in IH. destruct s as [|a s]; [by apply H0|].
  cbn [strip]. destruct (p1 a) eqn:E1; [apply H1, IH; simpl; auto with lia|].
  destruct s as [|b s]; [apply H0; simpl; by rewrite E1|].
  destruct (p2 a b) eqn:E2; [apply H2, IH; simpl; auto with lia|].
  destruct s as [|c s]; [apply H0; simpl; by rewrite E1, E2|].
  destruct (p3 a b c) eqn:E3; [apply H3, IH; simpl; auto with lia|].
  apply H0. simpl. by rewrite E1, E2, E3.
Qed.

Lemma strip_stripped s : stripped (strip s) = true.
Proof. by apply (strip_ind (fun _ t => stripped t = true)). Qed.

Lemma strip_id s : stripped s = true -> strip s = s.
Proof.
  destruct s as [|a [|b [|c s]]]; simpl; try done;
    rewrite ?andb_true_iff, ?negb_true_iff;
    [intros [-> _]|intros (-> & -> & _)|intros (-> & -> & ->)]; done.
Qed.

Lemma strip_suffix s : exists p, s = p ++ strip s.
Proof.
  apply (strip_ind (fun s t => exists p, s = p ++ t)).
  - by exists [].
  - intros a s' t _ [p ->]. by exists (a :: p).
  - intros a b s' t _ [p ->]. by exists (a :: b :: p).
  - intros a b c s' t _ [p ->]. by exists (a :: b :: c :: p).
Qed.

(** A prefix of a stripped string is stripped. *)
Lemma stripped_prefix s t : stripped (s ++ t) = true -> stripped s = true.
Proof.
  destruct s as [|a [|b [|c s]]]; simpl; try done; rewrite ?andb_true_iff.
  - by intros [-> _].
  - intros [-> H]. destruct t; simpl in *; rewrite ?andb_true_iff in *; by destruct H as [-> _].
Qed.
End trim.

Definition trim_start (s : bytes) : bytes := strip ws1 ws2 ws3 s.
Definition trim_end (s : bytes) : bytes :=
  rev (strip ws1 (fun b a => ws2 a b) (fun c b a => ws3 a b c) (rev s)).
Definition trim (s : bytes) : bytes := trim_end (trim_start s).

Lemma trim_end_prefix s : exists t, s = trim_end s ++ t.
Proof.
  unfold trim_end. destruct (strip_suffix ws1 (fun b a => ws2 a b) (fun c b a => ws3 a b c) (rev s))
    as [p Hp]. exists (rev p). by rewrite <- rev_app_distr, <- Hp, rev_involutive.
Qed.

Lemma trim_end_idemp s : trim_end (trim_end s) = trim_end s.
Proof. unfold trim_end. by rewrite rev_involutive, strip_id by apply strip_stripped. Qed.

Lemma trim_start_trim_end s : trim_start (trim_end (trim_start s)) = trim_end (trim_start s).
Proof.
  unfold trim_start at 1. apply strip_id.
  destruct (trim_end_prefix (trim_start s)) as [t Ht].
  apply (stripped_prefix _ _ _ _ t). rewrite <- Ht. apply strip_stripped.
Qed.

Lemma trim_idemp s : trim (trim s) = trim s.
Proof. unfold trim. by rewrite trim_start_trim_end, trim_end_idemp. Qed.

Lemma trim_infix s : exists p q, s = p ++ trim s ++ q.
Proof.
  destruct (strip_suffix ws1 ws2 ws3 s) as [p Hp].
  destruct (trim_end_prefix (trim_start s)) as [q Hq].
  exists p, q. unfold trim. by rewrite <- Hq.
Qed.

Lemma length_trim s : (length (trim s) <= length s)%nat.
Proof.
  destruct (trim_infix s) as (p & q & Hs). apply (f_equal length) in Hs.
  rewrite !length_app in Hs. lia.
Qed.

(** ** [split_whitespace] *)
Definition flush (cur : bytes) (ws : list bytes) : list bytes :=
  match cur with [] => ws | _ => rev cur :: ws end.

Fixpoint split_ws (cur s : bytes) : list bytes :=
  match s with
  | [] => flush cur []
  | a :: s1 =>
      if ws1 a then flush cur (split_ws [] s1) else
      match s1 with
      | [] => split_ws (a :: cur) s1
      | b :: s2 =>
          if ws2 a b then flush cur (split_ws [] s2) else
          match s2 with
          | [] => split_ws (a :: cur) s1
          | c :: s3 =>
              if ws3 a b c then flush cur (split_ws [] s3) else split_ws (a :: cur) s1
          end
      end
  end.

Definition split_whitespace (s : bytes) : list bytes := split_ws [] s.

(** [collect::<Vec<_>>().join(" ")]. *)
Fixpoint join_sp (ws : list bytes) : bytes :=
  match ws with
  | [] => []
  | [w] => w
  | w :: ws' => w ++ Byte.x20 :: join_sp ws'
  end.

Notation no_ws_at := (stripped ws1 ws2 ws3).

(** No white space anywhere. *)
Fixpoint no_ws (s : bytes) : bool :=
  match s with [] => true | _ :: s' => no_ws_at s && no_ws s' end.

Lemma split_ws_step cur s :
  split_ws cur s =
    match s with
    | [] => flush cur []
    | a :: s1 => if no_ws_at s then split_ws (a :: cur) s1
                 else flush cur (split_whitespace (skipn (if ws1 a then 1 else
                        match s1 with b :: _ => if ws2 a b then 2 else 3 | [] => 1 end) s))
    end.
Proof.
  unfold split_whitespace. destruct s as [|a s]; [done|].
  cbn [split_ws stripped]. destruct (ws1 a); [done|].
  destruct s as [|b s]; [done|]. destruct (ws2 a b); [done|].
  destruct s as [|c s]; [done|]. by destruct (ws3 a b c).
Qed.

Definition word (w : bytes) : Prop := w <> [] /\ no_ws w = true.

(** No white space begins inside [cur] when [s] follows it. *)
Definition clean (cur s : bytes) : Prop :=
  forall p q, rev cur = p ++ q -> q <> [] -> no_ws_at (q ++ s) = true.

Lemma no_ws_suffixes w : (forall p q, w = p ++ q -> no_ws_at q = true) -> no_ws w = true.
Proof.
  induction w as [|y w IH]; intros Hw; [done|]. cbn [no_ws].
  rewrite (Hw [] (y :: w) eq_refl), IH; [done|]. intros p q ->. by apply (Hw (y :: p)).
Qed.

Lemma flush_words cur s ws : clean cur s -> Forall word ws -> Forall word (flush cur ws).
Proof.
  intros Hc Hws. unfold flush. destruct cur as [|x cur]; [done|]. constructor; [|done]. split.
  - intros Hn%(f_equal length). by rewrite length_rev in Hn.
  - apply no_ws_suffixes. intros p [|y q] Hpq; [done|].
    apply (stripped_prefix ws1 ws2 ws3 _ s). by apply (Hc p).
Qed.

Lemma clean_push cur a s : clean cur (a :: s) -> no_ws_at (a :: s) = true -> clean (a :: cur) s.
Proof.
  intros Hc Ha p q Hpq Hq. simpl in Hpq. destruct q as [|y q _] using rev_ind; [done|].
  rewrite app_assoc in Hpq. apply app_inj_tail in Hpq as [Hpq <-]. rewrite <- app_assoc. simpl.
  destruct q as [|z q]; [done|]. by apply (Hc p).
Qed.

Lemma split_ws_words cur s : clean cur s -> Forall word (split_ws cur s).
Proof.
  revert cur. induction s as [s IH] using (well_founded_induction (well_founded_ltof _ length)).
  unfold ltof in IH. intros cur Hcur. rewrite split_ws_step. destruct s as [|a s].
  { by apply (flush_words cur []). }
  destruct (no_ws_at (a :: s)) eqn:E.
  - apply IH; [simpl; lia|]. by apply clean_push.
  - apply (flush_words cur (a :: s)); [done|]. apply IH.
    + rewrite length_skipn. repeat case_match; simpl; lia.
    + intros [|??] [|??]; done.
Qed.

Lemma split_whitespace_words s : Forall word (split_whitespace s).
Proof. apply split_ws_words. intros [|??] [|??]; done. Qed.

(** A run of white-space-free bytes accumulates. *)
Lemma split_ws_run cur w s :
  no_ws w = true -> (forall p q, w = p ++ q -> q <> [] -> no_ws_at (q ++ s) = true) ->
  split_ws cur (w ++ s) = split_ws (rev w ++ cur) s.
Proof.
  revert cur. induction w as [|a w IH]; intros cur Hw Hs; [done|].
  rewrite split_ws_step.
  assert (Ha : no_ws_at ((a :: w) ++ s) = true) by (by apply (Hs [])).
  cbn [app] in Ha |- *. rewrite Ha.
  cbn [no_ws] in Hw. apply andb_true_iff in Hw as [_ Hw]. rewrite IH; [|done|].
  - cbn [rev]. by rewrite <- app_assoc.
  - intros p q -> Hq. by apply (Hs (a :: p)).
Qed.

(** A space never completes a white-space encoding. *)
Lemma no_ws_at_space q s : q <> [] -> no_ws_at q = true -> no_ws_at (q ++ Byte.x20 :: s) = true.
Proof.
  destruct q as [|a [|b [|c q]]]; cbn; try done; intros _; rewrite ?andb_true_iff, ?negb_true_iff.
  - intros [-> _]. unfold ws2, ws3. change (u8 Byte.x20) with 32.
    destruct s; cbn; rewrite ?andb_false_r; cbn; rewrite ?andb_false_r; done.
  - intros (-> & -> & _). unfold ws3. change (u8 Byte.x20) with 32.
    cbn. rewrite ?andb_false_r. done.
Qed.

Lemma no_ws_app p q : no_ws (p ++ q) = true -> no_ws_at q = true.
Proof.
  induction p as [|a p IH]; cbn [app no_ws].
  - destruct q; [done|]. cbn [no_ws]. by intros [-> _]%andb_true_iff.
  - intros [_ H]%andb_true_iff. by apply IH.
Qed.

Lemma flush_rev w ws : w <> [] -> flush (rev w) ws = w :: ws.
Proof.
  intros Hw. unfold flush. destruct (rev w) eqn:E.
  - apply (f_equal (@rev byte)) in E. by rewrite rev_involutive in E.
  - by rewrite <- E, rev_involutive.
Qed.

(** Splitting the joined words gives the words back. *)
Lemma split_join ws : Forall word ws -> split_whitespace (join_sp ws) = ws.
Proof.
  unfold split_whitespace. induction 1 as [|w ws [Hne Hw] Hws IH]; [done|].
  destruct ws as [|w' ws]; cbn [join_sp].
  - rewrite <- (app_nil_r w) at 1. rewrite split_ws_run, app_nil_r; [by apply flush_rev|done|].
    intros p q -> _. rewrite app_nil_r. by eapply no_ws_app.
  - rewrite split_ws_run, app_nil_r; [|done|].
    + rewrite split_ws_step. cbn -[flush join_sp split_whitespace].
      rewrite flush_rev by done. f_equal. apply IH.
    + intros p q -> Hq. apply no_ws_at_space; [done|]. by eapply no_ws_app.
Qed.

(** ** UTF-8

    One well-formed character: one to four bytes, no overlong form, no surrogate,
    nothing above U+10FFFF. *)
Definition in_range (lo hi : N) (b : byte) : bool := (lo <=? u8 b) && (u8 b <=? hi).

Definition utf8_char (c : bytes) : bool :=
  match c with
  | [a] => u8 a <? 128
  | [a; b] => in_range 194 223 a && is_continuation b
  | [a; b; c] =>
      ((u8 a =? 224) && in_range 160 191 b
       || in_range 225 236 a && is_continuation b
       || (u8 a =? 237) && in_range 128 159 b
       || in_range 238 239 a && is_continuation b) && is_continuation c
  | [a; b; c; d] =>
      ((u8 a =? 240) && in_range 144 191 b
       || in_range 241 243 a && is_continuation b
       || (u8 a =? 244) && in_range 128 143 b) && is_continuation c && is_continuation d
  | _ => false
  end.

(** The length of the character at the front. *)
Definition char_len (s : bytes) : option nat :=
  if utf8_char (take 1 s) then Some 1%nat
  else if utf8_char (take 2 s) then Some 2%nat
  else if utf8_char (take 3 s) then Some 3%nat
  else if utf8_char (take 4 s) then Some 4%nat
  else None.

Fixpoint utf8_go (fuel : nat) (s : bytes) : bool :=
  match s with
  | [] => true
  | _ =>
      match fuel with
      | O => false
      | S fuel' =>
          match char_len s with
          | Some k => utf8_go fuel' (drop k s)
          | None => false
          end
      end
  end.

(** [str::from_utf8(s).is_ok()]; a character takes at least one byte, so the length
    of the string is fuel enough. *)
Definition utf8_valid (s : bytes) : bool := utf8_go (length s) s.

(** [str::is_char_boundary]. *)
Definition is_char_boundary (s : bytes) (i : nat) : bool :=
  (i =? 0)%nat || (i =? length s)%nat
  || match s !! i with Some b => negb (is_continuation b) | None => false end.

(** [s.chars().any(char::is_control)]: the C0 and C1 controls and DEL. *)
Fixpoint has_control (s : bytes) : bool :=
  match s with
  | [] => false
  | a :: s' =>
      is_ascii_control a
      || match s' with
         | b :: _ => (u8 a =? 194) && (128 <=? u8 b) && (u8 b <=? 159)
         | [] => false
         end
      || has_control s'
  end.

(** The well-formed strings, a character at a time. *)
Inductive utf8 : bytes -> Prop :=
| utf8_nil : utf8 []
| utf8_cons c s : utf8_char c = true -> utf8 s -> utf8 (c ++ s).

Lemma utf8_char_shape c :
  utf8_char c = true ->
  exists a t, c = a :: t /\ is_continuation a = false /\ Forall (fun b => is_continuation b = true) t.
Proof.
  unfold utf8_char, in_range, is_continuation. intros H.
  destruct c as [|a [|b [|c' [|d [|]]]]]; try discriminate H; bprop;
    (eexists a, _; split; [done|]; split; [|repeat (constructor; [|]); try constructor]);
    repeat match goal with |- _ && _ = true => apply andb_true_iff; split
      | |- (_ <=? _) = true => apply N.leb_le | |- (_ <? _) = true => apply N.ltb_lt
      | |- (_ && _) = false => apply andb_false_iff; rewrite N.leb_gt, N.ltb_ge end;
    bprop; try lia.
Qed.

(** The first byte fixes the length of the character. *)
Definition lead_width (a : byte) : nat :=
  if u8 a <? 128 then 1 else if u8 a <? 224 then 2 else if u8 a <? 240 then 3 else 4.

Lemma utf8_char_width a t : utf8_char (a :: t) = true -> S (length t) = lead_width a.
Proof.
  unfold utf8_char, in_range, lead_width. intros H.
  destruct t as [|b [|c [|d [|]]]]; try discriminate H; bprop;
    repeat case_match; bprop; simpl; lia.
Qed.

Lemma char_len_Some s k : char_len s = Some k -> utf8_char (take k s) = true.
Proof. unfold char_len. repeat case_match; naive_solver. Qed.

Lemma char_len_app c s : utf8_char c = true -> char_len (c ++ s) = Some (length c).
Proof.
  intros Hc. destruct (utf8_char_shape c Hc) as (a & t & -> & _ & _).
  pose proof (utf8_char_width a t Hc) as Hw.
  assert (Hj : forall j, utf8_char (take (S j) ((a :: t) ++ s)) = true -> lead_width a = S (length (take j (t ++ s)))).
  { intros j Hj. simpl in Hj. by apply utf8_char_width in Hj. }
  assert (Hle : forall j, (j <= length t)%nat -> length (take j (t ++ s)) = j).
  { intros j Hjl. rewrite length_take, length_app. lia. }
  assert (Hat : forall j, j = length t -> utf8_char (take (S j) ((a :: t) ++ s)) = true).
  { intros j ->. change (S (length t)) with (length (a :: t)). by rewrite take_app_length. }
  assert (Hne : forall j, (j < length t)%nat -> utf8_char (take (S j) ((a :: t) ++ s)) = false).
  { intros j Hjl. destruct (utf8_char (take (S j) ((a :: t) ++ s))) eqn:E; [|done].
    apply Hj in E. rewrite Hle in E by lia. lia. }
  assert (Hb : (length t <= 3)%nat) by (unfold lead_width in Hw; repeat case_match; lia).
  unfold char_len. cbn [length].
  destruct (length t) as [|[|[|[|n]]]]; [..|lia];
    repeat (rewrite Hne by lia); by rewrite Hat.
Qed.

Lemma utf8_go_sound fuel s : utf8_go fuel s = true -> utf8 s.
Proof.
  revert s. induction fuel as [|fuel IH]; intros [|a s]; cbn [utf8_go]; try done; [constructor..|].
  destruct (char_len (a :: s)) as [k|] eqn:E; [|done].
  intros H%IH. rewrite <- (take_drop k (a :: s)). constructor; [|done]. by apply char_len_Some.
Qed.

Lemma utf8_go_complete s : utf8 s -> forall fuel, (length s <= fuel)%nat -> utf8_go fuel s = true.
Proof.
  induction 1 as [|c s Hc Hs IH]; intros fuel Hf; [by destruct fuel|].
  pose proof (char_len_app c s Hc) as Hl.
  destruct (utf8_char_shape c Hc) as (a & t & -> & _ & _).
  destruct fuel as [|fuel]; [simpl in Hf; lia|]. 
  change (utf8_go (S fuel) ((a :: t) ++ s)) with
    (match char_len ((a :: t) ++ s) with
     | Some k => utf8_go fuel (drop k ((a :: t) ++ s)) | None => false end).
  rewrite Hl, drop_app_length. apply IH.
  simpl in Hf. rewrite length_app in Hf. lia.
Qed.

Lemma utf8_valid_iff s : utf8_valid s = true <-> utf8 s.
Proof. split; [apply utf8_go_sound|]. intros H. by apply utf8_go_complete. Qed.

Lemma utf8_app s t : utf8 s -> utf8 t -> utf8 (s ++ t).
Proof. induction 1; intros Ht; [done|]. rewrite <- app_assoc. constructor; auto. Qed.

Lemma utf8_ascii s : Forall (fun b => u8 b < 128) s -> utf8 s.
Proof.
  induction 1 as [|b s Hb Hs IH]; [constructor|]. apply (utf8_cons [b]); [|done].
  simpl. by apply N.ltb_lt.
Qed.

(** Cutting a well-formed string at a character boundary leaves two of them. *)
Lemma utf8_cut s i :
  utf8 s -> is_char_boundary s i = true -> utf8 (take i s) /\ utf8 (drop i s).
Proof.
  intros Hs. revert i. induction Hs as [|c s Hc Hs IH]; intros i Hi.
  { rewrite take_nil, drop_nil. split; constructor. }
  destruct (decide (i = 0)%nat) as [->|Hi0]; [split; [constructor|by constructor]|].
  destruct (utf8_char_shape c Hc) as (a & t & Hct & Ha & Ht).
  assert (Hge : (length c <= i)%nat).
  { destruct (decide (length c <= i)%nat) as [|Hlt]; [done|exfalso].
    unfold is_char_boundary in Hi. rewrite length_app in Hi.
    rewrite lookup_app_l in Hi by lia. destruct (c !! i) as [b|] eqn:E.
    - subst c. destruct i as [|i]; [done|]. simpl in E. apply list_elem_of_lookup_2 in E.
      rewrite Forall_forall in Ht. rewrite (Ht b E) in Hi. bprop.
      destruct Hi as [[Hi|Hi]|Hi]; bprop; [lia|simpl in *; lia|done].
    - apply lookup_ge_None in E. lia. }
  rewrite take_app, drop_app, (take_ge c), (drop_ge c) by lia.
  destruct (IH (i - length c)%nat) as [H1 H2].
  - unfold is_char_boundary in *. rewrite length_app in Hi.
    rewrite lookup_app_r in Hi by lia. bprop.
    destruct Hi as [[Hi|Hi]|Hi]; bprop; [lia| |].
    + replace (i - length c =? length s)%nat with true; [by rewrite orb_true_r|].
      symmetry. apply Nat.eqb_eq. lia.
    + rewrite Hi. by rewrite !orb_true_r.
  - split; [by constructor|done].
Qed.

(** A character taken off either end of a well-formed string leaves one. *)
Lemma utf8_uncons c s : utf8_char c = true -> utf8 (c ++ s) -> utf8 s.
Proof.
  intros Hc H. inversion H as [E|c' s' Hc' Hs' E].
  { destruct (utf8_char_shape c Hc) as (a & t & -> & _). done. }
  pose proof (char_len_app c s Hc) as H1. pose proof (char_len_app c' s' Hc') as H2.
  rewrite E, H1 in H2. injection H2 as H2. apply app_inj_1 in E as [_ <-]; done.
Qed.

Lemma utf8_unsnoc c s : utf8_char c = true -> utf8 (s ++ c) -> utf8 s.
Proof.
  intros Hc H. destruct (utf8_char_shape c Hc) as (a & t & -> & Ha & _).
  apply (utf8_cut _ (length s)) in H as [H _]; [by rewrite take_app_length in H|].
  unfold is_char_boundary. rewrite list_lookup_middle by done. rewrite Ha. by rewrite !orb_true_r.
Qed.

Lemma ws1_char a : ws1 a = true -> utf8_char [a] = true.
Proof. unfold ws1. cbn. rewrite N.ltb_lt. intros H. bprop. destruct H as [H|H]; bprop; lia. Qed.

Lemma ws2_char a b : ws2 a b = true -> utf8_char [a; b] = true.
Proof.
  unfold ws2, utf8_char, in_range, is_continuation. intros H. bprop.
  rewrite !andb_true_iff, !N.leb_le, N.ltb_lt. naive_solver lia.
Qed.

Lemma ws3_char a b c : ws3 a b c = true -> utf8_char [a; b; c] = true.
Proof.
  unfold ws3, utf8_char, in_range, is_continuation.
  rewrite ?orb_true_iff, ?andb_true_iff, ?orb_true_iff, ?andb_true_iff, ?N.leb_le, ?N.ltb_lt, ?N.eqb_eq.
  lia.
Qed.

Lemma utf8_trim s : utf8 s -> utf8 (trim s).
Proof.
  intros Hs. assert (H1 : utf8 (trim_start s)).
  { revert Hs. unfold trim_start. revert s; apply (strip_ind ws1 ws2 ws3 (fun s t => utf8 s -> utf8 t)); [done|..].
    - intros a s' t Hw IH H. apply IH, (utf8_uncons [a]); [by apply ws1_char|done].
    - intros a b s' t Hw IH H. apply IH, (utf8_uncons [a; b]); [by apply ws2_char|done].
    - intros a b c s' t Hw IH H. apply IH, (utf8_uncons [a; b; c]); [by apply ws3_char|done]. }
  unfold trim, trim_end. revert H1. generalize (trim_start s). clear s Hs. intros s.
  rewrite <- (rev_involutive s) at 1. generalize (rev s). clear s. intros s.
  apply (strip_ind ws1 (fun b a => ws2 a b) (fun c b a => ws3 a b c)
           (fun s t => utf8 (rev s) -> utf8 (rev t))); [done|..]; cbn [rev].
  - intros a s' t Hw IH H. apply IH, (utf8_unsnoc [a]); [by apply ws1_char|done].
  - intros b a s' t Hw IH H. rewrite <- app_assoc in H.
    apply IH, (utf8_unsnoc [a; b]); [by apply ws2_char|done].
  - intros c b a s' t Hw IH H. rewrite <- !app_assoc in H.
    apply IH, (utf8_unsnoc [a; b; c]); [by apply ws3_char|done].
Qed.

(** Words of a well-formed text, and texts of well-formed words, are well formed. *)
Lemma utf8_around p c q : utf8_char c = true -> utf8 (p ++ c ++ q) -> utf8 p /\ utf8 q.
Proof.
  intros Hc H. destruct (utf8_char_shape c Hc) as (a & t & -> & Ha & _).
  destruct (utf8_cut _ (length p) H) as [H1 H2].
  - unfold is_char_boundary. cbn [app]. rewrite list_lookup_middle by done. rewrite Ha. by rewrite !orb_true_r.
  - rewrite take_app_length in H1. rewrite drop_app_length in H2. split; [done|by apply (utf8_uncons (a :: t))].
Qed.

Lemma utf8_flush cur ws : utf8 (rev cur) -> Forall utf8 ws -> Forall utf8 (flush cur ws).
Proof. intros Hc Hws. unfold flush. destruct cur; [done|by constructor]. Qed.

Lemma utf8_split_ws cur s : utf8 (rev cur ++ s) -> Forall utf8 (split_ws cur s).
Proof.
  revert cur. induction s as [s IH] using (well_founded_induction (well_founded_ltof _ length)).
  unfold ltof in IH. intros cur H.
  assert (Hstep : forall c s', utf8_char c = true -> s = c ++ s' -> (length s' < length s)%nat ->
    Forall utf8 (flush cur (split_ws [] s'))).
  { intros c s' Hc -> Hl. destruct (utf8_around _ _ _ Hc H) as [H1 H2]. apply utf8_flush; [done|]. by apply IH. }
  assert (Hpush : forall a s', s = a :: s' -> Forall utf8 (split_ws (a :: cur) s')).
  { intros a s' ->. apply IH; [simpl; lia|]. simpl. by rewrite <- app_assoc. }
  destruct s as [|a s]; [apply utf8_flush; [by rewrite app_nil_r in H|done]|]. cbn [split_ws].
  destruct (ws1 a) eqn:E1; [apply (Hstep [a]); [by apply ws1_char|done|simpl; lia]|].
  destruct s as [|b s]; [by apply Hpush|].
  destruct (ws2 a b) eqn:E2; [apply (Hstep [a; b]); [by apply ws2_char|done|simpl; lia]|].
  destruct s as [|c s]; [by apply Hpush|].
  destruct (ws3 a b c) eqn:E3; [apply (Hstep [a; b; c]); [by apply ws3_char|done|simpl; lia]|by apply Hpush].
Qed.

Lemma utf8_split_whitespace s : utf8 s -> Forall utf8 (split_whitespace s).
Proof. intros H. by apply utf8_split_ws. Qed.

Lemma utf8_join_sp ws : Forall utf8 ws -> utf8 (join_sp ws).
Proof.
  induction 1 as [|w ws Hw Hws IH]; [constructor|]. cbn [join_sp]. destruct ws as [|w' ws]; [done|].
  apply utf8_app; [done|]. by apply (utf8_cons [Byte.x20]).
Qed.

(** A text of ASCII graphic characters has nothing to trim. *)
Definition is_ascii_graphic (b : byte) : bool := (33 <=? u8 b) && (u8 b <=? 126).

Lemma graphic_stripped s : Forall (fun b => is_ascii_graphic b = true) s -> stripped ws1 ws2 ws3 s = true
  /\ stripped ws1 (fun b a => ws2 a b) (fun c b a => ws3 a b c) s = true.
Proof.
  assert (Hg : forall b, is_ascii_graphic b = true -> 33 <= u8 b <= 126)
    by (intros b Hb; unfold is_ascii_graphic in Hb; bprop; lia).
  assert (H1 : forall b, is_ascii_graphic b = true -> ws1 b = false)
    by (intros b Hb%Hg; unfold ws1; rewrite orb_false_iff, andb_false_iff, !N.leb_gt, N.eqb_neq; lia).
  assert (Hn : forall b n, is_ascii_graphic b = true -> 127 < n -> (u8 b =? n) = false)
    by (intros b n Hb%Hg Hlt; rewrite N.eqb_neq; lia).
  assert (H2 : forall a b, is_ascii_graphic a = true -> ws2 a b = false)
    by (intros a b Ha; unfold ws2; by rewrite (Hn a) by done).
  assert (H3 : forall a b c, is_ascii_graphic a = true -> ws3 a b c = false)
    by (intros a b c Ha; unfold ws3; by rewrite !(Hn a) by done).
  intros Hs. inversion_clear Hs as [|a s1 Ha Hs1]; [done|].
  inversion_clear Hs1 as [|b s2 Hb Hs2]; [cbn; by rewrite H1|].
  inversion_clear Hs2 as [|c s3 Hc Hs3]; cbn.
  - by rewrite H1, !H2 by done.
  - by rewrite H1, !H2, !H3 by done.
Qed.

Lemma trim_graphic s : Forall (fun b => is_ascii_graphic b = true) s -> trim s = s.
Proof.
  intros H. unfold trim, trim_end, trim_start.
  rewrite (strip_id ws1 ws2 ws3 s) by by apply graphic_stripped.
  rewrite strip_id; [apply rev_involutive|]. apply graphic_stripped. by apply Forall_rev.
Qed.

(** ** Searching and comparing *)
Fixpoint starts_with (p s : bytes) : bool :=
  match p, s with
  | [], _ => true
  | a :: p', b :: s' => (u8 a =? u8 b) && starts_with p' s'
  | _ :: _, [] => false
  end.

Definition ends_with (p s : bytes) : bool := starts_with (rev p) (rev s).

(** [s.split_once(c)] for an ASCII separator. *)
Fixpoint split_once (c : byte) (s : bytes) : option (bytes * bytes) :=
  match s with
  | [] => None
  | a :: s' =>
      if u8 a =? u8 c then Some ([], s')
      else match split_once c s' with
           | Some (l, r) => Some (a :: l, r)
           | None => None
           end
  end.

(** [s.split(c)]: at least one piece. *)
Fixpoint split_on (c : byte) (s : bytes) : list bytes :=
  match s with
  | [] => [[]]
  | a :: s' =>
      if u8 a =? u8 c then [] :: split_on c s'
      else match split_on c s' with
           | p :: ps => (a :: p) :: ps
           | [] => [[a]]
           end
  end.

(** [str::lines]. *)
Definition strip_cr (line : bytes) : bytes := if ends_with [Byte.x0d] line then removelast line else line.
Definition lines (text : bytes) : list bytes :=
  let parts := split_on Byte.x0a text in
  let rest := List.last parts [] in
  (strip_cr <$> removelast parts) ++ (if bool_decide (rest = []) then [] else [rest]).

(** [s.find(p)]: where [p] first occurs. *)
Fixpoint find_seq (p s : bytes) : option nat :=
  if starts_with p s then Some 0%nat
  else match s with [] => None | _ :: s => S <$> find_seq p s end.

(** [String::from_utf8_lossy]: of bytes that begin no character, those that begin one that
    is cut short are replaced together, others one by one. *)
Definition broken_len (s : bytes) : nat :=
  match s with
  | a :: b :: t =>
      if (u8 a =? 224) && in_range 160 191 b || in_range 225 236 a && is_continuation b
         || (u8 a =? 237) && in_range 128 159 b || in_range 238 239 a && is_continuation b
      then 2%nat
      else if (u8 a =? 240) && in_range 144 191 b || in_range 241 243 a && is_continuation b
              || (u8 a =? 244) && in_range 128 143 b
      then match t with c :: _ => if is_continuation c then 3%nat else 2%nat | [] => 2%nat end
      else 1%nat
  | _ => 1%nat
  end.
Definition REPLACEMENT : bytes := [Byte.xef; Byte.xbf; Byte.xbd].
Fixpoint lossy_go (fuel : nat) (s : bytes) : bytes :=
  match fuel, s with
  | S fuel, _ :: _ =>
      match char_len s with
      | Some k => take k s ++ lossy_go fuel (drop k s)
      | None => REPLACEMENT ++ lossy_go fuel (drop (broken_len s) s)
      end
  | _, _ => []
  end.
Definition from_utf8_lossy (s : bytes) : bytes := lossy_go (length s) s.

Lemma starts_with_iff p s : starts_with p s = true <-> exists t, s = p ++ t.
Proof.
  revert s. induction p as [|a p IH]; intros s; cbn [starts_with].
  { split; [by exists s|done]. }
  destruct s as [|b s]; [split; [done|by intros []]|].
  rewrite andb_true_iff, N.eqb_eq, IH. split.
  - intros [E%(inj u8) [t ->]]. subst. by exists t.
  - intros [t [= -> ->]]. eauto.
Qed.

Lemma ends_with_iff p s : ends_with p s = true <-> exists t, s = t ++ p.
Proof.
  unfold ends_with. rewrite starts_with_iff. split; intros [t Ht].
  - exists (rev t). by rewrite <- (rev_involutive s), Ht, rev_app_distr, rev_involutive.
  - exists (rev t). by rewrite Ht, rev_app_distr.
Qed.

Lemma split_once_Some c s l r :
  split_once c s = Some (l, r) <-> s = l ++ c :: r /\ c ∉ l.
Proof.
  revert l. induction s as [|a s IH]; intros l; cbn [split_once].
  { split; [done|]. intros [H _]. by destruct l. }
  destruct (N.eqb_spec (u8 a) (u8 c)) as [E%(inj u8)|E].
  - subst a. split.
    + intros [= <- <-]. split; [done|apply not_elem_of_nil].
    + intros [H Hn]. destruct l as [|b l]; [by injection H as ->|].
      injection H as <- _. exfalso. apply Hn. left.
  - destruct (split_once c s) as [[l' r']|] eqn:Es.
    + split.
      * intros [= <- <-]. destruct (proj1 (IH l') eq_refl) as [-> Hn]. split; [done|].
        apply not_elem_of_cons. split; [congruence|done].
      * intros [H Hn]. destruct l as [|b l]; [injection H as -> _; done|].
        injection H as -> H. apply not_elem_of_cons in Hn as [_ Hn].
        destruct (proj2 (IH l) (conj H Hn)) as []. by injection (proj2 (IH l) (conj H Hn)) as -> ->.
    + split; [done|]. intros [H Hn]. destruct l as [|b l]; [injection H as -> _; done|].
      injection H as -> H. apply not_elem_of_cons in Hn as [_ Hn].
      by specialize (proj2 (IH l) (conj H Hn)).
Qed.

Lemma find_seq_Some p s i :
  find_seq p s = Some i <-> starts_with p (drop i s) = true /\ (i <= length s)%nat
                            /\ forall j, (j < i)%nat -> starts_with p (drop j s) = false.
Proof.
  revert i. induction s as [|a s IH]; intros i; cbn [find_seq].
  - destruct (starts_with p []) eqn:E.
    + split; [intros [= <-]; split; [done|]; split; [done|lia]|]. intros (_ & Hi & _). cbn in Hi. f_equal. lia.
    + split; [done|]. intros (H & _). by rewrite drop_nil, E in H.
  - destruct (starts_with p (a :: s)) eqn:E.
    + split; [intros [= <-]; split; [done|]; split; [cbn; lia|lia]|]. intros (_ & _ & Hj).
      destruct i as [|i]; [done|]. specialize (Hj 0%nat ltac:(lia)). cbn [drop] in Hj. congruence.
    + destruct i as [|i].
      { split; [by destruct (find_seq p s)|]. intros (H & _). cbn [drop] in H. congruence. }
      transitivity (find_seq p s = Some i); [destruct (find_seq p s); cbn; naive_solver|].
      rewrite IH. cbn [drop length]. split; intros (H1 & H2 & H3); (split; [done|]; split; [lia|]).
      * intros [|j] Hj; [done|]. apply H3. lia.
      * intros j Hj. apply (H3 (S j)). lia.
Qed.

Lemma find_seq_None p s : find_seq p s = None <-> forall j, (j <= length s)%nat -> starts_with p (drop j s) = false.
Proof.
  split.
  - intros Hn j Hj. destruct (starts_with p (drop j s)) eqn:E; [|done]. exfalso. revert j Hj E Hn.
    induction s as [|a s IH]; intros [|j] Hj E; cbn [find_seq]; cbn [drop length] in *; try lia; try by rewrite E.
    destruct (starts_with p (a :: s)); [done|]. destruct (find_seq p s) as [i|] eqn:Hf; [done|].
    intros _. exact (IH j ltac:(lia) E eq_refl).
  - intros Hj. destruct (find_seq p s) as [i|] eqn:E; [|done]. apply find_seq_Some in E as (H & Hi & _). by rewrite Hj in H.
Qed.

Lemma starts_with_app p s t : starts_with p s = true -> starts_with p (s ++ t) = true.
Proof. intros [r ->]%starts_with_iff. apply starts_with_iff. exists (r ++ t). by rewrite app_assoc. Qed.

(** More text moves no occurrence, and a new one reaches into the new text. *)
Lemma find_seq_app p s t i : find_seq p s = Some i -> find_seq p (s ++ t) = Some i.
Proof.
  intros (Hp & Hi & Hj)%find_seq_Some. pose proof Hp as Hlen. apply starts_with_iff in Hlen as [r Hr].
  apply (f_equal (@length byte)) in Hr. rewrite length_drop, length_app in Hr.
  apply find_seq_Some. split; [rewrite drop_app_le by done; by apply starts_with_app|].
  split; [rewrite length_app; lia|]. intros j Hji. specialize (Hj j Hji).
  rewrite drop_app_le by lia. destruct (starts_with p (drop j s ++ t)) eqn:E; [|done].
  apply starts_with_iff in E as [r' Hr']. rewrite <- Hj. symmetry. apply starts_with_iff.
  exists (drop (length p) (drop j s)).
  assert (Hl : (length p <= length (drop j s))%nat) by (rewrite length_drop; lia).
  rewrite <- (take_drop (length p) (drop j s)) at 1. f_equal.
  apply (f_equal (take (length p))) in Hr'. rewrite take_app_le in Hr' by done. by rewrite take_app_length in Hr'.
Qed.

Lemma find_seq_new p s t i : find_seq p s = None -> find_seq p (s ++ t) = Some i -> (length s < i + length p)%nat.
Proof.
  intros Hn (Hp & Hi & Hj)%find_seq_Some. destruct (decide (length s < i + length p)%nat) as [|Hge]; [done|exfalso].
  assert (His : (i <= length s)%nat) by lia. rewrite drop_app_le in Hp by done.
  apply starts_with_iff in Hp as [r Hr]. pose proof (proj1 (find_seq_None p s) Hn i His) as Hf.
  assert (starts_with p (drop i s) = true); [|congruence]. apply starts_with_iff. exists (drop (length p) (drop i s)).
  assert (Hl : (length p <= length (drop i s))%nat) by (rewrite length_drop; lia).
  rewrite <- (take_drop (length p) (drop i s)) at 1. f_equal.
  apply (f_equal (take (length p))) in Hr. rewrite take_app_le in Hr by done. by rewrite take_app_length in Hr.
Qed.

Lemma lossy_valid s : utf8_valid s = true -> from_utf8_lossy s = s.
Proof.
  rewrite utf8_valid_iff. unfold from_utf8_lossy. intros Hs.
  cut (forall fuel, (length s <= fuel)%nat -> lossy_go fuel s = s); [intros H; by apply H|].
  induction Hs as [|c s Hc Hs IH]; intros fuel Hf; [by destruct fuel|].
  destruct (utf8_char_shape c Hc) as (a & t & Hct & _ & _).
  destruct fuel as [|fuel]; [rewrite length_app, Hct in Hf; cbn in Hf; lia|].
  pose proof (char_len_app c s Hc) as Hl. destruct (c ++ s) as [|x l] eqn:E; [by subst c|].
  cbn [lossy_go]. rewrite Hl, <- E, take_app_length, drop_app_length, IH; [done|].
  rewrite <- E, length_app, Hct in Hf. cbn in Hf. lia.
Qed.
