(* ===== verification/Decimal.v ===== *)
(** * Decimal text

    Printing ([to_string], [BigUint::to_str_radix(10)]) and parsing ([str::parse],
    [BigUint::parse_bytes]) of base-10 integers, and the round trips between them. *)

From Stdlib Require Import NArith ZArith Lia.
From Stdlib Require Strings.String.
From S2P Require Import Prelude Ord Bytes Text.

Definition digit (d : N) : byte := byte_of (48 + d).
Definition digit_val (b : byte) : N := u8 b - 48.

Fixpoint dec_go (fuel : nat) (n : N) (acc : bytes) : bytes :=
  let acc' := digit (n mod 10) :: acc in
  match fuel with
  | O => acc'
  | S fuel' => if n <? 10 then acc' else dec_go fuel' (n / 10) acc'
  end.

(** The number of binary digits bounds the number of decimal ones. *)
Definition print_dec (n : N) : bytes := dec_go (N.size_nat n) n [].

Definition dec_val (l : bytes) : N := fold_left (fun acc b => acc * 10 + digit_val b) l 0.

Definition all_digits (l : bytes) : bool := forallb is_ascii_digit l.

(** Digits only, at least one, no superfluous leading zero. *)
Definition canonical (l : bytes) : bool :=
  match l with
  | [] => false
  | [b] => is_ascii_digit b
  | b :: _ => negb (u8 b =? 48) && all_digits l
  end.

(** [text.parse::<uN>()]: an optional [+], then digits, in range. *)
Definition parse_unsigned (max : N) (text : bytes) : option N :=
  let ds := match text with
            | b :: ((_ :: _) as t) => if u8 b =? 43 then t else text
            | _ => text
            end in
  match ds with
  | [] => None
  | _ => if all_digits ds && (dec_val ds <=? max) then Some (dec_val ds) else None
  end.

(** [text.parse::<i8>()]: an optional sign, then digits, in range. *)
Definition parse_i8 (text : bytes) : option Z :=
  let '(neg, ds) := match text with
                    | b :: ((_ :: _) as t) =>
                        if u8 b =? 43 then (false, t)
                        else if u8 b =? 45 then (true, t) else (false, text)
                    | _ => (false, text)
                    end in
  match ds with
  | [] => None
  | _ =>
      if all_digits ds then
        if (neg : bool) then if dec_val ds <=? 128 then Some (- Z.of_N (dec_val ds))%Z else None
        else if dec_val ds <=? 127 then Some (Z.of_N (dec_val ds)) else None
      else None
  end.

(** [to_string] of a signed integer. *)
Definition print_z (z : Z) : bytes :=
  if (z <? 0)%Z then Byte.x2d :: print_dec (Z.to_N (- z)) else print_dec (Z.to_N z).

(** A number inside a diagnostic message. *)
Definition dec_string (n : N) : string := Strings.String.string_of_list_byte (print_dec n).

(** [format!]: the pieces of a message in order. *)
Definition message (pieces : list string) : string :=
  fold_right Strings.String.append "" pieces.

(** ** Printing *)
Lemma u8_digit d : d < 10 -> u8 (digit d) = 48 + d.
Proof. intros H. unfold digit. rewrite u8_byte_of, N.mod_small; lia. Qed.

Lemma digit_val_digit d : d < 10 -> digit_val (digit d) = d.
Proof. intros H. unfold digit_val. rewrite u8_digit; lia. Qed.

Lemma digit_digit_val b : is_ascii_digit b = true -> digit (digit_val b) = b.
Proof.
  unfold is_ascii_digit, digit, digit_val. intros H. bprop.
  replace (48 + (u8 b - 48)) with (u8 b) by lia. apply byte_of_u8.
Qed.

Lemma is_ascii_digit_digit d : d < 10 -> is_ascii_digit (digit d) = true.
Proof.
  intros H. unfold is_ascii_digit. rewrite u8_digit by done.
  apply andb_true_iff. split; apply N.leb_le; lia.
Qed.

Lemma digit_val_bound b : is_ascii_digit b = true -> digit_val b < 10.
Proof. unfold is_ascii_digit, digit_val. intros H. bprop. lia. Qed.

Lemma dec_go_acc fuel n acc : dec_go fuel n acc = dec_go fuel n [] ++ acc.
Proof.
  revert n acc. induction fuel as [|fuel IH]; intros n acc; cbn [dec_go]; [done|].
  destruct (n <? 10); [done|]. rewrite IH, (IH _ [_]), <- app_assoc. done.
Qed.

Lemma dec_go_fuel f1 f2 n :
  n < 2 ^ N.of_nat f1 -> n < 2 ^ N.of_nat f2 -> dec_go f1 n [] = dec_go f2 n [].
Proof.
  revert f2 n.
  assert (Hdiv : forall f n, n < 2 ^ N.of_nat (S f) -> n / 10 < 2 ^ N.of_nat f).
  { intros f n. rewrite Nat2N.inj_succ, N.pow_succ_r'. intros H.
    apply N.Div0.div_lt_upper_bound. lia. }
  induction f1 as [|f1 IH]; intros f2 n H1 H2.
  - simpl in H1. assert (n = 0) as -> by lia. by destruct f2.
  - destruct f2 as [|f2]; [simpl in H2; assert (n = 0) as -> by lia; done|].
    cbn [dec_go]. destruct (n <? 10); [done|].
    rewrite dec_go_acc, (dec_go_acc f2). f_equal. apply IH; by apply Hdiv.
Qed.

Lemma size_nat_gt n : n < 2 ^ N.of_nat (N.size_nat n).
Proof.
  destruct n as [|p]; [done|]. induction p as [p IH|p IH|]; cbn [N.size_nat Pos.size_nat] in *.
  - rewrite Nat2N.inj_succ, N.pow_succ_r'. lia.
  - rewrite Nat2N.inj_succ, N.pow_succ_r'. lia.
  - done.
Qed.

(** The equation the printer satisfies, whatever the fuel. *)
Lemma print_dec_eq n :
  print_dec n = if n <? 10 then [digit n] else print_dec (n / 10) ++ [digit (n mod 10)].
Proof.
  unfold print_dec at 1. destruct (N.ltb_spec n 10) as [Hn|Hn].
  - destruct (N.size_nat n) as [|f]; cbn [dec_go]; rewrite ?(N.mod_small n 10) by done; [done|].
    by rewrite (proj2 (N.ltb_lt n 10) Hn).
  - pose proof (size_nat_gt n) as Hs. destruct (N.size_nat n) as [|f] eqn:E; [simpl in Hs; lia|].
    cbn [dec_go]. rewrite (proj2 (N.ltb_ge n 10) Hn), dec_go_acc. f_equal.
    apply dec_go_fuel; [|apply size_nat_gt].
    rewrite Nat2N.inj_succ, N.pow_succ_r' in Hs. apply N.Div0.div_lt_upper_bound. lia.
Qed.

Lemma dec_ind (P : N -> Prop) :
  (forall n, n < 10 -> P n) -> (forall n, 10 <= n -> P (n / 10) -> P n) -> forall n, P n.
Proof.
  intros H0 H1 n. induction n as [n IH] using (well_founded_induction N.lt_wf_0).
  destruct (N.lt_ge_cases n 10) as [Hn|Hn]; [by apply H0|].
  apply H1; [done|]. apply IH. apply N.div_lt; lia.
Qed.

(** ** Values *)
Lemma fold_dec_acc l acc :
  fold_left (fun acc b => acc * 10 + digit_val b) l acc
  = acc * 10 ^ N.of_nat (length l) + dec_val l.
Proof.
  unfold dec_val. revert acc. induction l as [|b l IH]; intros acc; [simpl; lia|].
  cbn [fold_left length].
  rewrite (IH (acc * 10 + digit_val b)), (IH (0 * 10 + digit_val b)).
  rewrite Nat2N.inj_succ, N.pow_succ_r'. lia.
Qed.

Lemma dec_val_cons b l : dec_val (b :: l) = digit_val b * 10 ^ N.of_nat (length l) + dec_val l.
Proof. unfold dec_val at 1. cbn [fold_left]. rewrite fold_dec_acc. lia. Qed.

Lemma dec_val_app l k : dec_val (l ++ k) = dec_val l * 10 ^ N.of_nat (length k) + dec_val k.
Proof. unfold dec_val at 1. rewrite fold_left_app. apply fold_dec_acc. Qed.

Lemma dec_val_bound l : all_digits l = true -> dec_val l < 10 ^ N.of_nat (length l).
Proof.
  induction l as [|b l IH]; [done|]. unfold all_digits. cbn [forallb]. intros H. bprop.
  rewrite dec_val_cons. cbn [length]. rewrite Nat2N.inj_succ, N.pow_succ_r'.
  pose proof (digit_val_bound b ltac:(done)). specialize (IH ltac:(done)). nia.
Qed.

Lemma all_digits_app l k : all_digits (l ++ k) = all_digits l && all_digits k.
Proof. apply forallb_app. Qed.

Lemma print_dec_digits n : all_digits (print_dec n) = true.
Proof.
  induction n as [n Hn|n Hn IH] using dec_ind; rewrite print_dec_eq.
  - rewrite (proj2 (N.ltb_lt n 10) Hn). simpl. by rewrite is_ascii_digit_digit.
  - rewrite (proj2 (N.ltb_ge n 10) Hn), all_digits_app, IH. simpl.
    rewrite is_ascii_digit_digit; [done|]. by apply N.mod_lt.
Qed.

Lemma dec_val_print n : dec_val (print_dec n) = n.
Proof.
  induction n as [n Hn|n Hn IH] using dec_ind; rewrite print_dec_eq.
  - rewrite (proj2 (N.ltb_lt n 10) Hn). unfold dec_val. simpl. by rewrite digit_val_digit.
  - rewrite (proj2 (N.ltb_ge n 10) Hn), dec_val_app, IH. unfold dec_val at 1. simpl.
    rewrite digit_val_digit by (by apply N.mod_lt). pose proof (N.Div0.div_mod n 10). lia.
Qed.

#[export] Instance print_dec_inj : Inj (=) (=) print_dec.
Proof. intros n m E. by rewrite <- (dec_val_print n), <- (dec_val_print m), E. Qed.

Lemma print_dec_nonempty n : print_dec n <> [].
Proof. rewrite print_dec_eq. destruct (n <? 10); [done|]. by destruct (print_dec (n / 10)). Qed.

(** ** Canonical texts *)
Lemma canonical_digits l : canonical l = true -> all_digits l = true.
Proof.
  destruct l as [|b [|c l]]; cbn; try done.
  - by intros ->.
  - by intros [_ H]%andb_true_iff.
Qed.

Lemma print_dec_canonical n : canonical (print_dec n) = true.
Proof.
  assert (H : canonical (print_dec n) = true /\ (n <> 0 -> exists b t, print_dec n = b :: t /\ u8 b <> 48)).
  2: by destruct H.
  induction n as [n Hn|n Hn IH] using dec_ind.
  - rewrite print_dec_eq, (proj2 (N.ltb_lt n 10) Hn). simpl. rewrite is_ascii_digit_digit by done.
    split; [done|]. intros Hz. eexists _, _. split; [done|]. rewrite u8_digit; lia.
  - destruct IH as [_ IH].
    destruct IH as (b & t & Hb & H48); [pose proof (N.Div0.div_mod n 10) as Hd; pose proof (N.mod_lt n 10); lia|].
    pose proof (print_dec_digits n) as Hdig. rewrite print_dec_eq in Hdig |- *.
    rewrite (proj2 (N.ltb_ge n 10) Hn), Hb in *. cbn [app] in *.
    split; [|intros _; by eexists _, _].
    unfold canonical. destruct (t ++ [digit (n mod 10)]) eqn:E; [by destruct t|].
    rewrite Hdig, andb_true_r. apply negb_true_iff, N.eqb_neq. done.
Qed.

Lemma canonical_lower b c l :
  canonical (b :: c :: l) = true -> 10 ^ N.of_nat (length (c :: l)) <= dec_val (b :: c :: l).
Proof.
  intros H. pose proof (canonical_digits _ H) as Hd. cbn in Hd. bprop.
  unfold canonical in H. bprop. rewrite dec_val_cons.
  assert (1 <= digit_val b) as Hge1.
  { unfold digit_val, is_ascii_digit in *. bprop. lia. }
  nia.
Qed.

(** The canonical text of a number is unique. *)
Lemma canonical_inj l k :
  canonical l = true -> canonical k = true -> dec_val l = dec_val k -> l = k.
Proof.
  intros Hl Hk E.
  assert (Hlen : forall l k, canonical l = true -> canonical k = true -> dec_val l = dec_val k ->
            (length l <= length k)%nat).
  { clear. intros l k Hl Hk E. destruct (decide (length l <= length k)%nat) as [|Hgt]; [done|].
    exfalso. pose proof (dec_val_bound k (canonical_digits k Hk)) as Hb.
    destruct l as [|b [|c l]]; [simpl in Hgt; lia|destruct k; simpl in *; [done|lia]|].
    pose proof (canonical_lower b c l Hl) as Hlow. rewrite E in Hlow.
    assert (10 ^ N.of_nat (length k) <= 10 ^ N.of_nat (length (c :: l))).
    { apply N.pow_le_mono_r; [done|]. simpl in *. lia. }
    lia. }
  assert (Hll : length l = length k) by (apply Nat.le_antisymm; by apply Hlen).
  apply canonical_digits in Hl, Hk. clear Hlen.
  revert k Hl Hk E Hll. induction l as [|b l IH]; intros [|c k] Hl Hk E Hll; try done.
  unfold all_digits in Hl, Hk. cbn [forallb] in Hl, Hk. bprop. injection Hll as Hll.
  rewrite !dec_val_cons, Hll in E.
  pose proof (dec_val_bound l ltac:(done)) as B1. pose proof (dec_val_bound k ltac:(done)) as B2.
  rewrite Hll in B1.
  assert (digit_val b = digit_val c) as Eb by nia. f_equal.
  - by rewrite <- (digit_digit_val b), Eb, digit_digit_val.
  - apply IH; try done. rewrite Eb in E. lia.
Qed.

Lemma print_dec_val l : canonical l = true -> print_dec (dec_val l) = l.
Proof.
  intros H. apply canonical_inj; [apply print_dec_canonical|done|apply dec_val_print].
Qed.

(** Digit texts of the same length compare as their values. *)
Lemma list_cmp_dec l k :
  all_digits l = true -> all_digits k = true -> length l = length k ->
  list_cmp l k = N.compare (dec_val l) (dec_val k).
Proof.
  revert k. induction l as [|x l IH]; intros [|y k] Hl Hk Hll; try done.
  unfold all_digits in Hl, Hk. cbn [forallb] in Hl, Hk. bprop. injection Hll as Hll.
  rewrite !dec_val_cons, <- Hll. cbn [list_cmp]. unfold cmp, byte_ord, ord_by, cmp, N_ord.
  pose proof (dec_val_bound l ltac:(done)) as B1. pose proof (dec_val_bound k ltac:(done)) as B2.
  rewrite <- Hll in B2.
  assert (Hu : u8 x = 48 + digit_val x /\ u8 y = 48 + digit_val y).
  { unfold digit_val, is_ascii_digit in *. bprop. lia. }
  destruct Hu as [-> ->].
  destruct (N.compare_spec (48 + digit_val x) (48 + digit_val y)) as [E|E|E].
  - assert (digit_val x = digit_val y) as -> by lia. rewrite IH by done.
    destruct (N.compare_spec (dec_val l) (dec_val k)) as [E'|E'|E']; symmetry;
      [apply N.compare_eq_iff|apply N.compare_lt_iff|apply N.compare_gt_iff]; lia.
  - symmetry. apply N.compare_lt_iff. nia.
  - symmetry. apply N.compare_gt_iff. nia.
Qed.

Lemma length_print_dec_le n k : n < 10 ^ N.of_nat (S k) -> (length (print_dec n) <= S k)%nat.
Proof.
  intros Hn. destruct (decide (length (print_dec n) <= S k)%nat) as [|Hgt]; [done|exfalso].
  pose proof (print_dec_canonical n) as Hc. pose proof (dec_val_print n) as Hv.
  destruct (print_dec n) as [|b [|c l]]; [simpl in Hgt; lia|simpl in Hgt; lia|].
  pose proof (canonical_lower b c l Hc) as Hlow. rewrite Hv in Hlow.
  assert (10 ^ N.of_nat (S k) <= 10 ^ N.of_nat (length (c :: l))).
  { apply N.pow_le_mono_r; [done|]. simpl in *. lia. }
  lia.
Qed.

(** ** [parse] after [to_string] *)
Lemma parse_unsigned_digits_if max ds :
  ds <> [] -> all_digits ds = true ->
  parse_unsigned max ds = if dec_val ds <=? max then Some (dec_val ds) else None.
Proof.
  intros Hn Hd. unfold parse_unsigned.
  replace (match ds with b :: ((_ :: _) as t) => if u8 b =? 43 then t else ds | _ => ds end) with ds.
  - destruct ds; [done|]. by rewrite Hd.
  - destruct ds as [|b [|c ds]]; try done. destruct (N.eqb_spec (u8 b) 43) as [E|]; [|done].
    unfold all_digits, is_ascii_digit in Hd. cbn [forallb] in Hd. bprop. lia.
Qed.

Lemma parse_unsigned_digits max ds :
  ds <> [] -> all_digits ds = true -> dec_val ds <= max ->
  parse_unsigned max ds = Some (dec_val ds).
Proof. intros Hn Hd Hb. by rewrite parse_unsigned_digits_if, (proj2 (N.leb_le _ _) Hb). Qed.

Lemma parse_print_unsigned_if max n :
  parse_unsigned max (print_dec n) = if n <=? max then Some n else None.
Proof.
  rewrite parse_unsigned_digits_if; rewrite ?dec_val_print; try done.
  - apply print_dec_nonempty.
  - apply print_dec_digits.
Qed.

Lemma parse_print_unsigned max n : n <= max -> parse_unsigned max (print_dec n) = Some n.
Proof. intros H. by rewrite parse_print_unsigned_if, (proj2 (N.leb_le _ _) H). Qed.
