(* ===== verification/Ids.v ===== *)
(** * Identifiers (crates/cc-wallet-domain/src/ids.rs, error.rs)

    The lowercase hexadecimal codec, the 32-byte identifiers built on it, and the
    crate's error type. *)

From Stdlib Require Import NArith Lia.
From S2P Require Import Prelude Ord Bytes.

(** ** error.rs *)
Inductive WalletError :=
| Validation (message : string)
| AmountErr (message : string)
| OverflowErr (message : string).

(** [Display for WalletError]. *)
Definition WalletError_display (e : WalletError) : string :=
  match e with Validation m | AmountErr m | OverflowErr m => m end.

#[export] Instance WalletError_eq_dec : EqDecision WalletError.
Proof. solve_decision. Defined.

(** ** ids.rs *)
Definition ID_BYTES : nat := 32.
Definition ID_HEX_LEN : nat := ID_BYTES * 2.
Definition HEX_DIGITS : bytes := bs "0123456789abcdef".

Inductive IdError := WrongLength | NonCanonicalHex.

Definition IdError_display (e : IdError) : string :=
  match e with
  | WrongLength => "identifier must be exactly 64 hex digits"
  | NonCanonicalHex =>
      "identifier must be lowercase ASCII hex with no prefix, sign, whitespace, or separators"
  end.

(** [HEX_DIGITS[i]]: a nibble is always in range. *)
Definition hex_digit (i : N) : byte := nth (N.to_nat i) HEX_DIGITS Byte.x00.

Fixpoint hex_lower_encode (l : bytes) : bytes :=
  match l with
  | [] => []
  | b :: l' =>
      hex_digit (N.shiftr (u8 b) 4) :: hex_digit (N.land (u8 b) 15) :: hex_lower_encode l'
  end.

Definition lower_hex_value (b : byte) : res IdError N :=
  if (48 <=? u8 b) && (u8 b <=? 57) then Ok (u8 b - 48)
  else if (97 <=? u8 b) && (u8 b <=? 102) then Ok (u8 b - 97 + 10)
  else Err NonCanonicalHex.

(** The pairs of [chunks_exact(2)]; a trailing odd byte is left out, and the caller
    has refused odd lengths. *)
Fixpoint decode_pairs (src : bytes) : option bytes :=
  match src with
  | p0 :: p1 :: src' =>
      match lower_hex_value p0, lower_hex_value p1 with
      | Ok hi, Ok lo =>
          match decode_pairs src' with
          | Some out => Some (byte_of (N.lor (N.shiftl hi 4) lo) :: out)
          | None => None
          end
      | _, _ => None
      end
  | _ => Some []
  end.

Definition hex_lower_decode (text : bytes) : option bytes :=
  if Nat.even (length text) then decode_pairs text else None.

Definition to_hex (a : bytes32) : bytes := hex_lower_encode (as_bytes a).

Definition from_hex (text : bytes) : res IdError bytes32 :=
  if negb (length text =? ID_HEX_LEN)%nat then Err WrongLength else
  let? out := ok_or (hex_lower_decode text) NonCanonicalHex in
  ok_or (try_into_32 out) WrongLength.

(** The types the [hex32_newtype!] macro declares. *)
Notation RecordId := bytes32.
Notation RiskNonce := bytes32.
Notation Digest32 := bytes32.
Notation PublicKey32 := bytes32.

Definition try_from_hex (text : bytes) : res IdError bytes32 := from_hex text.

(** ** The codec *)
Lemma length_hex_lower_encode l : length (hex_lower_encode l) = (2 * length l)%nat.
Proof. induction l; simpl; lia. Qed.

Lemma decode_encode_byte b :
  match lower_hex_value (hex_digit (N.shiftr (u8 b) 4)),
        lower_hex_value (hex_digit (N.land (u8 b) 15)) with
  | Ok hi, Ok lo => byte_of (N.lor (N.shiftl hi 4) lo) = b
  | _, _ => False
  end.
Proof. by destruct b; vm_compute. Qed.

Lemma decode_pairs_encode l : decode_pairs (hex_lower_encode l) = Some l.
Proof.
  induction l as [|b l IH]; [done|]. cbn [hex_lower_encode decode_pairs].
  pose proof (decode_encode_byte b) as Hb.
  destruct (lower_hex_value (hex_digit (N.shiftr (u8 b) 4))); try done.
  destruct (lower_hex_value (hex_digit (N.land (u8 b) 15))); try done.
  by rewrite IH, Hb.
Qed.

Lemma hex_lower_decode_encode l : hex_lower_decode (hex_lower_encode l) = Some l.
Proof.
  unfold hex_lower_decode. rewrite length_hex_lower_encode, decode_pairs_encode.
  by rewrite Nat.even_mul.
Qed.

(** The digit a value was read from is the digit printed for it. *)
Lemma hex_digit_value b v : lower_hex_value b = Ok v -> v < 16 /\ hex_digit v = b.
Proof.
  destruct b; vm_compute; intros H; try discriminate H; by injection H as <-.
Qed.

Lemma nibbles hi lo :
  hi < 16 -> lo < 16 ->
  N.shiftr (u8 (byte_of (N.lor (N.shiftl hi 4) lo))) 4 = hi
  /\ N.land (u8 (byte_of (N.lor (N.shiftl hi 4) lo))) 15 = lo.
Proof.
  intros Hhi Hlo.
  assert (Hf : forallb (fun h => forallb (fun l =>
      (N.shiftr (u8 (byte_of (N.lor (N.shiftl h 4) l))) 4 =? h)
      && (N.land (u8 (byte_of (N.lor (N.shiftl h 4) l))) 15 =? l))
      (N.of_nat <$> seq 0 16)) (N.of_nat <$> seq 0 16) = true) by by vm_compute.
  assert (Hin : forall n, n < 16 -> In n (N.of_nat <$> seq 0 16)).
  { intros n Hn. apply list_elem_of_In, list_elem_of_fmap. exists (N.to_nat n).
    split; [lia|]. apply elem_of_seq. lia. }
  rewrite forallb_forall in Hf. specialize (Hf hi (Hin hi Hhi)).
  rewrite forallb_forall in Hf. specialize (Hf lo (Hin lo Hlo)). by bprop.
Qed.

Lemma decode_pairs_canonical n t out :
  (length t <= n)%nat -> Nat.even (length t) = true ->
  decode_pairs t = Some out -> t = hex_lower_encode out.
Proof.
  revert t out. induction n as [|n IH]; intros t out Hn He.
  - destruct t; [by intros [= <-]|simpl in Hn; lia].
  - destruct t as [|p0 [|p1 t]]; [by intros [= <-]|done|]. cbn [decode_pairs].
    destruct (lower_hex_value p0) as [hi| |] eqn:E0; try done.
    destruct (lower_hex_value p1) as [lo| |] eqn:E1; try done.
    destruct (decode_pairs t) as [o|] eqn:Et; [|done]. intros [= <-].
    apply hex_digit_value in E0 as [B0 <-], E1 as [B1 <-].
    cbn [hex_lower_encode]. destruct (nibbles hi lo B0 B1) as [-> ->].
    f_equal. f_equal. apply IH; [simpl in Hn; lia|done|done].
Qed.

Lemma hex_lower_decode_Some t out : hex_lower_decode t = Some out <-> t = hex_lower_encode out.
Proof.
  split; [|intros ->; apply hex_lower_decode_encode].
  unfold hex_lower_decode. destruct (Nat.even (length t)) eqn:E; [|done].
  by apply (decode_pairs_canonical (length t)).
Qed.

Lemma from_hex_exact (text : bytes) (a : bytes32) : from_hex text = Ok a <-> text = to_hex a.
Proof.
  unfold from_hex, to_hex. split.
  - intros H. rinv H. apply hex_lower_decode_Some in Hm as ->.
    by apply try_into_32_Some in H as ->.
  - intros ->. rewrite length_hex_lower_encode, length_as_bytes, hex_lower_decode_encode.
    cbn. by rewrite (proj2 (try_into_32_Some _ _) eq_refl).
Qed.

(** A 32-byte identifier parses from exactly one text, the 64 lowercase
    hexadecimal digits it prints as; every other text is refused. *)
Lemma try_from_hex_exact (text : bytes) (a : bytes32) :
  try_from_hex text = Ok a <-> text = to_hex a.
Proof. apply from_hex_exact. Qed.
