(* ===== verification/Asset.v ===== *)
(** * Assets (crates/cc-wallet-domain/src/asset.rs)

    The native coin and the numbered currency collections, with their display data. *)

From Stdlib Require Import NArith Lia.
From S2P Require Import Prelude Ord Bytes.

Inductive AssetId :=
| Native
| CurrencyCollection (id : N).

#[export] Instance AssetId_eq_dec : EqDecision AssetId.
Proof. solve_decision. Defined.

(** The derived [Ord]: variants in order, then their fields. *)
#[export] Instance AssetId_ord : Ord AssetId := fun a b =>
  match a, b with
  | Native, Native => Eq
  | Native, CurrencyCollection _ => Lt
  | CurrencyCollection _, Native => Gt
  | CurrencyCollection i, CurrencyCollection j => cmp i j
  end.

#[export] Instance AssetId_ord_laws : OrdLaws AssetId.
Proof.
  split; unfold cmp at 1; unfold AssetId_ord.
  - intros [|i] [|j]; try done. rewrite cmp_eq_iff. naive_solver.
  - intros [|i] [|j]; try done. apply (cmp_antisym i j).
  - intros [|i] [|j] [|k]; try done. apply (cmp_lt_trans i j k).
Qed.

Inductive AssetTone := Coin | One | Two | Three | Unknown.

Record AssetMeta := {
  meta_id : AssetId;
  display_name : string;
  symbol : string;
  mark : string;
  tone : AssetTone;
  decimals : option N
}.

Definition COIN_ASSET : AssetMeta :=
  {| meta_id := Native; display_name := "CC Coin"; symbol := "COIN"; mark := "C";
     tone := Coin; decimals := Some 9 |}.
Definition ONE_ASSET : AssetMeta :=
  {| meta_id := CurrencyCollection 1; display_name := "One Token"; symbol := "ONE"; mark := "1";
     tone := One; decimals := Some 9 |}.
Definition TWO_ASSET : AssetMeta :=
  {| meta_id := CurrencyCollection 2; display_name := "Two Token"; symbol := "TWO"; mark := "2";
     tone := Two; decimals := Some 9 |}.
Definition THREE_ASSET : AssetMeta :=
  {| meta_id := CurrencyCollection 3; display_name := "Three Token"; symbol := "THREE";
     mark := "3"; tone := Three; decimals := Some 9 |}.
Definition UNKNOWN_CC_ASSET : AssetMeta :=
  {| meta_id := CurrencyCollection 0; display_name := "Currency Collection"; symbol := "CC";
     mark := "#"; tone := Unknown; decimals := Some 9 |}.

Definition known_cc_assets : list AssetMeta := [ONE_ASSET; TWO_ASSET; THREE_ASSET].
Definition all_supported_assets : list AssetMeta :=
  [COIN_ASSET; ONE_ASSET; TWO_ASSET; THREE_ASSET].

Definition asset_meta (asset : AssetId) : AssetMeta :=
  match asset with
  | Native => COIN_ASSET
  | CurrencyCollection 1 => ONE_ASSET
  | CurrencyCollection 2 => TWO_ASSET
  | CurrencyCollection 3 => THREE_ASSET
  | CurrencyCollection id =>
      {| meta_id := CurrencyCollection id;
         display_name := display_name UNKNOWN_CC_ASSET;
         symbol := symbol UNKNOWN_CC_ASSET;
         mark := mark UNKNOWN_CC_ASSET;
         tone := tone UNKNOWN_CC_ASSET;
         decimals := decimals UNKNOWN_CC_ASSET |}
  end.

Definition cc_id (a : AssetId) : option N :=
  match a with Native => None | CurrencyCollection id => Some id end.

Definition is_native (a : AssetId) : bool :=
  match a with Native => true | CurrencyCollection _ => false end.

Definition is_known_cc (a : AssetId) : bool :=
  match a with
  | CurrencyCollection id =>
      existsb (fun meta => bool_decide (cc_id (meta_id meta) = Some id)) known_cc_assets
  | Native => false
  end.

#[global] Arguments is_known_cc : simpl never.

Definition is_sendable (a : AssetId) : bool := is_native a || is_known_cc a.

Lemma asset_meta_decimals a : decimals (asset_meta a) = Some 9.
Proof. destruct a as [|[|[[p|p|]|[p|p|]|]]]; done. Qed.

Lemma asset_meta_id a : meta_id (asset_meta a) = a.
Proof. destruct a as [|[|[[p|p|]|[p|p|]|]]]; done. Qed.

Lemma is_known_cc_iff id : is_known_cc (CurrencyCollection id) = true <-> id = 1 \/ id = 2 \/ id = 3.
Proof.
  unfold is_known_cc. cbn [existsb known_cc_assets meta_id cc_id ONE_ASSET TWO_ASSET THREE_ASSET]. rewrite !orb_true_iff, !bool_decide_eq_true. naive_solver.
Qed.
