(* ===== verification/Json.v ===== *)
(** * JSON values

    The values serde exchanges with [serde_json]: integers are kept apart from other
    numbers, objects keep their members in order with duplicates, as the
    deserializers see them. *)

From Stdlib Require Import ZArith NArith Lia.
From S2P Require Import Prelude Bytes.

Inductive json :=
| JNull
| JBool (b : bool)
| JInt (z : Z)
| JFloat (text : bytes)
| JStr (s : bytes)
| JArr (items : list json)
| JObj (members : list (bytes * json)).

(** What a deserializer reports. *)
Inductive serde_error :=
| DuplicateField (name : string)
| UnknownField (name : bytes)
| MissingField (name : string)
| InvalidType
| Custom (message : string).

#[export] Instance serde_error_eq_dec : EqDecision serde_error.
Proof. solve_decision. Defined.

(** [String::deserialize], [uN::deserialize]. *)
Definition de_string (j : json) : res serde_error bytes :=
  match j with JStr s => Ok s | _ => Err InvalidType end.

Definition de_unsigned (max : N) (j : json) : res serde_error N :=
  match j with
  | JInt z => if ((0 <=? z) && (z <=? Z.of_N max))%Z then Ok (Z.to_N z) else Err InvalidType
  | _ => Err InvalidType
  end.

Definition ser_unsigned (n : N) : json := JInt (Z.of_N n).

Lemma de_ser_unsigned max n : n <= max -> de_unsigned max (ser_unsigned n) = Ok n.
Proof.
  intros H. unfold de_unsigned, ser_unsigned.
  replace (_ && _)%Z with true by (symmetry; apply andb_true_iff; split; apply Z.leb_le; lia).
  by rewrite N2Z.id.
Qed.
