(* ===== verification/Amount.v ===== *)
(** * Amounts (crates/cc-wallet-domain/src/amount.rs)

    Native amounts below 2^120 and currency-collection amounts below 2^248, their
    canonical decimal texts, the fixed-9 texts a user types and reads, same-asset
    arithmetic, and the JSON form of an amount. *)

From Stdlib Require Import NArith Lia.
From S2P Require Import Prelude Ord Bytes Text Decimal Ids Asset Json.

Definition FIXED9_DECIMALS : nat := 9.
Definition CC_MAX_DECIMAL : bytes :=
  bs "452312848583266388373324160190187140051835877600158453279131187530910662655".
Definition NATIVE_MAX_UNITS : N := N.shiftl 1 120 - 1.
#[global] Arguments NATIVE_MAX_UNITS : simpl never.

Inductive AmountError :=
| Empty
| NonCanonicalDecimal
| TooManyDigits
| ExtraCurrencyOutOfDomain
| NativeOutOfDomain
| Overflow
| Underflow
| AssetMismatch.

Definition AmountError_display (e : AmountError) : string :=
  match e with
  | Empty => "amount is empty"
  | NonCanonicalDecimal =>
      "amount must be a canonical base-10 integer: ASCII digits only, no sign, whitespace, decimal point, exponent, separators, or leading zeros"
  | TooManyDigits => "amount has too many digits for the extra-currency domain"
  | ExtraCurrencyOutOfDomain => "extra-currency amount exceeds the protocol maximum (2^248 - 1)"
  | NativeOutOfDomain => "native amount exceeds the protocol maximum (2^120 - 1)"
  | Overflow => "amount addition overflows the asset domain"
  | Underflow => "amount subtraction underflows below zero"
  | AssetMismatch => "amounts of different assets cannot be combined or compared"
  end.

#[export] Instance AmountError_eq_dec : EqDecision AmountError.
Proof. solve_decision. Defined.

(** ** Canonical decimals *)
Definition ensure_canonical_decimal (text : bytes) : res AmountError unit :=
  match text with
  | [] => Err Empty
  | b :: _ =>
      if negb (all_digits text) then Err NonCanonicalDecimal
      else if (1 <? length text)%nat && (u8 b =? 48) then Err NonCanonicalDecimal
      else Ok tt
  end.

Definition native_units_from_canonical_decimal (text : bytes) : res AmountError N :=
  let? _ := ensure_canonical_decimal text in
  if (37 <? length text)%nat then Err NativeOutOfDomain else
  let? value := ok_or (parse_unsigned u128_max text) NativeOutOfDomain in
  if NATIVE_MAX_UNITS <? value then Err NativeOutOfDomain else Ok value.

(** [CcAmount(BigUint)]. *)
Record CcAmount := mkCc { cc_value : N }.

#[export] Instance CcAmount_eq_dec : EqDecision CcAmount.
Proof. solve_decision. Defined.

Definition cc_zero : CcAmount := mkCc 0.
Definition cc_from_u128 (value : N) : CcAmount := mkCc value.

(** [BigUint::bits]: the number of significant bits. *)
Definition biguint_bits (n : N) : N := N.size n.

Definition cc_is_zero (a : CcAmount) : bool := biguint_bits (cc_value a) =? 0.

Definition try_from_canonical_decimal (text : bytes) : res AmountError CcAmount :=
  let? _ := ensure_canonical_decimal text in
  if (75 <? length text)%nat then Err TooManyDigits
  else if (length text =? 75)%nat && bool_decide (list_cmp text CC_MAX_DECIMAL = Gt)
  then Err ExtraCurrencyOutOfDomain
  else
    (* [BigUint::parse_bytes(_, 10)] of a nonempty digit string *)
    Ok (mkCc (dec_val text)).

Definition to_canonical_decimal (a : CcAmount) : bytes := print_dec (cc_value a).

(** [BigUint::to_bytes_be]: no leading zero byte, one byte for zero. *)
Definition biguint_to_bytes_be (n : N) : bytes :=
  be_bytes (N.to_nat (N.max 1 ((biguint_bits n + 7) / 8))) n.

Definition cc_from_be_bytes_31 (l : bytes) : CcAmount := mkCc (of_be l).

(** [out[31 - raw.len()..].copy_from_slice(&raw)]. *)
Definition cc_to_be_bytes_31 (a : CcAmount) : res Empty_set bytes :=
  let raw := biguint_to_bytes_be (cc_value a) in
  if (length raw <=? 31)%nat then Ok (repeat Byte.x00 (31 - length raw) ++ raw) else Panic.

Definition cc_checked_add (a b : CcAmount) : option CcAmount :=
  let sum := cc_value a + cc_value b in
  if biguint_bits sum <=? 248 then Some (mkCc sum) else None.

Definition cc_checked_sub (a b : CcAmount) : option CcAmount :=
  if cc_value b <=? cc_value a then Some (mkCc (cc_value a - cc_value b)) else None.

#[export] Instance CcAmount_ord : Ord CcAmount := ord_by cc_value.

(** ** Amounts of an asset *)
Inductive AssetAmount :=
| NativeAmount (units : N)
| CcAssetAmount (id : N) (units : CcAmount).

#[export] Instance AssetAmount_eq_dec : EqDecision AssetAmount.
Proof. solve_decision. Defined.

Definition amount_native (units : N) : res AmountError AssetAmount :=
  if NATIVE_MAX_UNITS <? units then Err NativeOutOfDomain else Ok (NativeAmount units).

Definition currency_collection (id : N) (units : CcAmount) : AssetAmount :=
  CcAssetAmount id units.

Definition asset_id (a : AssetAmount) : AssetId :=
  match a with NativeAmount _ => Native | CcAssetAmount id _ => CurrencyCollection id end.

Definition native_units (a : AssetAmount) : option N :=
  match a with NativeAmount u => Some u | CcAssetAmount _ _ => None end.

Definition cc_units (a : AssetAmount) : option CcAmount :=
  match a with NativeAmount _ => None | CcAssetAmount _ u => Some u end.

Definition is_zero (a : AssetAmount) : bool :=
  match a with NativeAmount u => u =? 0 | CcAssetAmount _ u => cc_is_zero u end.

Definition checked_add_same_asset (a b : AssetAmount) : res AmountError AssetAmount :=
  match a, b with
  | NativeAmount a, NativeAmount b =>
      let? sum := ok_or (checked_add u128_max a b) Overflow in
      amount_native sum
  | CcAssetAmount ia a, CcAssetAmount ib b =>
      if ia =? ib
      then let? sum := ok_or (cc_checked_add a b) Overflow in Ok (currency_collection ia sum)
      else Err AssetMismatch
  | _, _ => Err AssetMismatch
  end.

Definition checked_sub_same_asset (a b : AssetAmount) : res AmountError AssetAmount :=
  match a, b with
  | NativeAmount a, NativeAmount b =>
      let? diff := ok_or (checked_sub a b) Underflow in
      amount_native diff
  | CcAssetAmount ia a, CcAssetAmount ib b =>
      if ia =? ib
      then let? diff := ok_or (cc_checked_sub a b) Underflow in Ok (currency_collection ia diff)
      else Err AssetMismatch
  | _, _ => Err AssetMismatch
  end.

Definition cmp_same_asset (a b : AssetAmount) : res AmountError comparison :=
  match a, b with
  | NativeAmount a, NativeAmount b => Ok (cmp a b)
  | CcAssetAmount ia a, CcAssetAmount ib b =>
      if ia =? ib then Ok (cmp a b) else Err AssetMismatch
  | _, _ => Err AssetMismatch
  end.

(** ** Fixed-9 texts *)
Definition amount_err {A} (r : res AmountError A) : res WalletError A :=
  map_err (fun e => AmountErr (AmountError_display e)) r.

Fixpoint trim_start_zeros (l : bytes) : bytes :=
  match l with b :: l' => if u8 b =? 48 then trim_start_zeros l' else l | [] => [] end.

(** The [match asset] that reads the canonical base units. *)
Definition amount_of_canonical (asset : AssetId) (canonical : bytes) : res WalletError AssetAmount :=
  match asset with
  | Native =>
      let? units := amount_err (native_units_from_canonical_decimal canonical) in
      amount_err (amount_native units)
  | CurrencyCollection id =>
      if is_known_cc (CurrencyCollection id) then
        let? units := amount_err (try_from_canonical_decimal canonical) in
        Ok (currency_collection id units)
      else Panic (* [unreachable!] *)
  end.

Definition parse_send_amount (asset : AssetId) (value : bytes) : res WalletError AssetAmount :=
  if negb (bool_decide (decimals (asset_meta asset) = Some (N.of_nat FIXED9_DECIMALS))) then
    Err (AmountErr "this currency has no approved first-release send precision") else
  let parts := split_on Byte.x2e value in
  let whole := match parts with w :: _ => w | [] => [] end in
  let fraction := match parts with _ :: f :: _ => Some f | _ => None end in
  let third := match parts with _ :: _ :: p :: _ => Some p | _ => None end in
  if match third with Some _ => true | None => false end
     || match whole with [] => true | _ => false end
     || negb (all_digits whole)
     || ((1 <? length whole)%nat && match whole with b :: _ => u8 b =? 48 | [] => false end)
  then Err (AmountErr "amount must use canonical ASCII fixed-9 syntax") else
  if match fraction with
     | Some f => (length f =? 0)%nat || (FIXED9_DECIMALS <? length f)%nat || negb (all_digits f)
     | None => false
     end
  then Err (AmountErr "amount fraction must contain 1 to 9 ASCII digits") else
  let? max_whole_digits :=
    match asset with
    | Native => Ok 28%nat
    | CurrencyCollection id =>
        if is_known_cc (CurrencyCollection id) then Ok 66%nat
        else Err (AmountErr "only currency-collection ids 1, 2, and 3 can be sent")
    end in
  if (max_whole_digits <? length whole)%nat then
    Err (AmountErr "amount whole part exceeds the asset-domain precheck") else
  let fraction := match fraction with Some f => f | None => [] end in
  let digits := whole ++ fraction ++ repeat (digit 0) (FIXED9_DECIMALS - length fraction) in
  let canonical := trim_start_zeros digits in
  let canonical := match canonical with [] => bs "0" | _ => canonical end in
  let? amount := amount_of_canonical asset canonical in
  if is_zero amount then Err (AmountErr "amount must be greater than zero") else Ok amount.

(** The decimal of the base units, whatever the asset. *)
Definition format_base_units (a : AssetAmount) : res Empty_set bytes :=
  match native_units a with
  | Some units => Ok (print_dec units)
  | None => let? u := expect (cc_units a) in Ok (to_canonical_decimal u)
  end.

Definition format_fixed9_amount (a : AssetAmount) : res WalletError bytes :=
  if negb (bool_decide (decimals (asset_meta (asset_id a)) = Some (N.of_nat FIXED9_DECIMALS)))
  then Err (AmountErr "this currency has no approved decimal display") else
  let? digits :=
    match native_units a with
    | Some units => Ok (print_dec units)
    | None => let? u := expect (cc_units a) in Ok (to_canonical_decimal u)
    end in
  let padded :=
    if (length digits <=? FIXED9_DECIMALS)%nat
    then repeat (digit 0) (FIXED9_DECIMALS + 1 - length digits) ++ digits
    else digits in
  let split := (length padded - FIXED9_DECIMALS)%nat in
  Ok (take split padded ++ Byte.x2e :: drop split padded).

Definition format_native_fixed9 (units : N) : res WalletError bytes :=
  let? amount := amount_err (amount_native units) in
  format_fixed9_amount amount.

(** ** The JSON form *)
Definition amount_serde {A} (r : res AmountError A) : res serde_error A :=
  map_err (fun e => Custom (AmountError_display e)) r.

Definition ser_cc_amount (a : CcAmount) : json := JStr (to_canonical_decimal a).

Definition de_cc_amount (j : json) : res serde_error CcAmount :=
  match j with
  | JStr s => amount_serde (try_from_canonical_decimal s)
  | _ => Err InvalidType
  end.

Definition ser_asset_amount (a : AssetAmount) : json :=
  match a with
  | NativeAmount units =>
      JObj [(bs "asset", JStr (bs "native")); (bs "base_units", JStr (print_dec units))]
  | CcAssetAmount id units =>
      JObj [(bs "asset", JStr (bs "currency_collection"));
            (bs "currency_id", ser_unsigned id);
            (bs "base_units", JStr (to_canonical_decimal units))]
  end.

(** The fields [visit_map] has seen so far. *)
Record amount_fields := {
  f_asset : option bytes;
  f_currency_id : option N;
  f_base_units : option bytes
}.

Fixpoint visit_amount_map (members : list (bytes * json)) (f : amount_fields)
  : res serde_error amount_fields :=
  match members with
  | [] => Ok f
  | (key, value) :: members' =>
      if bool_decide (key = bs "asset") then
        match f_asset f with
        | Some _ => Err (DuplicateField "asset")
        | None =>
            let? v := de_string value in
            visit_amount_map members'
              {| f_asset := Some v; f_currency_id := f_currency_id f; f_base_units := f_base_units f |}
        end
      else if bool_decide (key = bs "currency_id") then
        match f_currency_id f with
        | Some _ => Err (DuplicateField "currency_id")
        | None =>
            let? v := de_unsigned u32_max value in
            visit_amount_map members'
              {| f_asset := f_asset f; f_currency_id := Some v; f_base_units := f_base_units f |}
        end
      else if bool_decide (key = bs "base_units") then
        match f_base_units f with
        | Some _ => Err (DuplicateField "base_units")
        | None =>
            let? v := de_string value in
            visit_amount_map members'
              {| f_asset := f_asset f; f_currency_id := f_currency_id f; f_base_units := Some v |}
        end
      else Err (UnknownField key)
  end.

Definition de_asset_amount (j : json) : res serde_error AssetAmount :=
  match j with
  | JObj members =>
      let? f := visit_amount_map members
                  {| f_asset := None; f_currency_id := None; f_base_units := None |} in
      let? asset := ok_or (f_asset f) (MissingField "asset") in
      let? base_units := ok_or (f_base_units f) (MissingField "base_units") in
      if bool_decide (asset = bs "native") then
        match f_currency_id f with
        | Some _ => Err (Custom "native asset-amount must not carry a currency_id")
        | None =>
            let? units := amount_serde (native_units_from_canonical_decimal base_units) in
            amount_serde (amount_native units)
        end
      else if bool_decide (asset = bs "currency_collection") then
        let? id := ok_or (f_currency_id f) (MissingField "currency_id") in
        let? units := amount_serde (try_from_canonical_decimal base_units) in
        Ok (currency_collection id units)
      else Err (Custom "unknown asset tag")
  | _ => Err InvalidType
  end.

(** [mod native_scalar]. *)
Definition ser_native_scalar (value : N) : res serde_error json :=
  if NATIVE_MAX_UNITS <? value then Err (Custom (AmountError_display NativeOutOfDomain))
  else Ok (JStr (print_dec value)).

Definition de_native_scalar (j : json) : res serde_error N :=
  match j with
  | JStr s => amount_serde (native_units_from_canonical_decimal s)
  | _ => Err InvalidType
  end.

(** ** Well-formedness

    Rust's field privacy and integer widths: a [CcAmount] stays below 2^248, a native
    amount below 2^120, a currency id fits a [u32]. *)
Definition CC_BOUND : N := 2 ^ 248.

Definition wf_cc (a : CcAmount) : Prop := cc_value a < CC_BOUND.

Definition wf_amount (a : AssetAmount) : Prop :=
  match a with
  | NativeAmount u => u <= NATIVE_MAX_UNITS
  | CcAssetAmount id u => id <= u32_max /\ wf_cc u
  end.

(** The number of base units. *)
Definition units_of (a : AssetAmount) : N :=
  match a with NativeAmount u => u | CcAssetAmount _ u => cc_value u end.

Lemma NATIVE_MAX_UNITS_val : NATIVE_MAX_UNITS = 2 ^ 120 - 1.
Proof. by vm_compute. Qed.

Lemma cc_max_decimal_val : dec_val CC_MAX_DECIMAL = CC_BOUND - 1 /\ all_digits CC_MAX_DECIMAL = true
  /\ length CC_MAX_DECIMAL = 75%nat.
Proof. by vm_compute. Qed.

Lemma biguint_bits_le n k : biguint_bits n <= k <-> n < 2 ^ k.
Proof.
  unfold biguint_bits. split.
  - intros H. eapply N.lt_le_trans; [apply N.size_gt|]. by apply N.pow_le_mono_r.
  - intros H. destruct (N.eq_dec n 0) as [->|Hn]; [apply N.le_0_l|].
    rewrite N.size_log2 by done. apply N.le_succ_l. apply N.log2_lt_pow2; lia.
Qed.

Lemma cc_is_zero_iff a : cc_is_zero a = true <-> cc_value a = 0.
Proof.
  unfold cc_is_zero, biguint_bits. rewrite N.eqb_eq. destruct (cc_value a); simpl; naive_solver lia.
Qed.

Lemma is_zero_iff a : is_zero a = true <-> units_of a = 0.
Proof. destruct a; simpl; [apply N.eqb_eq|apply cc_is_zero_iff]. Qed.

Lemma ensure_canonical_ok text : ensure_canonical_decimal text = Ok tt <-> canonical text = true.
Proof.
  unfold ensure_canonical_decimal, canonical. destruct text as [|b [|c l]]; [done|..].
  - cbn. rewrite andb_true_r. by destruct (is_ascii_digit b).
  - destruct (all_digits (b :: c :: l)) eqn:E; cbn; [|by rewrite andb_false_r].
    destruct (u8 b =? 48); cbn; done.
Qed.

Lemma try_from_canonical_ok (text : bytes) (a : CcAmount) :
  try_from_canonical_decimal text = Ok a <->
  cc_value a < 2 ^ 248 /\ text = to_canonical_decimal a.
Proof.
  unfold try_from_canonical_decimal, to_canonical_decimal.
  destruct cc_max_decimal_val as (Hmax & Hdig & Hlen). unfold CC_BOUND in Hmax.
  split.
  - intros H. rinv H. destruct a0. apply ensure_canonical_ok in Hm.
    pose proof (canonical_digits _ Hm) as Hd. simpl.
    rewrite print_dec_val by done. split; [|done].
    destruct (decide (length text = 75)%nat) as [E|E].
    + rewrite E in Hc0. simpl in Hc0. bprop.
      rewrite list_cmp_dec in Hc0 by (rewrite ?E; done).
      rewrite Hmax in Hc0. rewrite N.compare_gt_iff in Hc0.
      assert (0 < 2 ^ 248) by done. lia.
    + bprop. pose proof (dec_val_bound text Hd) as Hb.
      eapply N.lt_le_trans; [exact Hb|].
      etransitivity; [apply (N.pow_le_mono_r _ _ 74); lia|by vm_compute].
  - intros [Hb ->].
    rewrite (proj2 (ensure_canonical_ok _) (print_dec_canonical _)). cbn [rbind].
    assert (Hle : (length (print_dec (cc_value a)) <= 75)%nat).
    { apply length_print_dec_le. eapply N.lt_le_trans; [exact Hb|by vm_compute]. }
    rewrite (proj2 (Nat.ltb_ge _ _) Hle).
    destruct (length (print_dec (cc_value a)) =? 75)%nat eqn:E; bprop; cbn [andb].
    + rewrite list_cmp_dec; [|apply print_dec_digits|done|by rewrite E, Hlen].
      rewrite dec_val_print, Hmax. rewrite bool_decide_eq_false_2.
      * by destruct a.
      * rewrite N.compare_gt_iff. assert (0 < 2 ^ 248) by done. lia.
    + rewrite dec_val_print. by destruct a.
Qed.

(** [CcAmount::try_from_canonical_decimal] accepts exactly the canonical decimal
    texts of the numbers below 2^248, and yields that number; in particular the
    75-digit lexicographic comparison with the maximum is the numeric bound. *)
Lemma try_from_canonical_decimal_exact (text : bytes) (a : CcAmount) :
  try_from_canonical_decimal text = Ok a <->
  cc_value a < 2 ^ 248 /\ text = to_canonical_decimal a.
Proof. apply try_from_canonical_ok. Qed.

Lemma native_units_ok (text : bytes) (units : N) :
  native_units_from_canonical_decimal text = Ok units <->
  units <= NATIVE_MAX_UNITS /\ text = print_dec units.
Proof.
  unfold native_units_from_canonical_decimal. split.
  - intros H. rinv H. destruct a. apply ensure_canonical_ok in Hm. bprop.
    split; [done|].
    rewrite parse_unsigned_digits in Hm0; [injection Hm0 as <-; by rewrite print_dec_val|..].
    + by destruct text.
    + by apply canonical_digits.
    + pose proof (dec_val_bound text (canonical_digits _ Hm)) as Hb.
      assert (10 ^ N.of_nat (length text) <= 10 ^ 37) by (apply N.pow_le_mono_r; lia).
      assert (10 ^ 37 <= u128_max) by by vm_compute. lia.
  - intros [Hb ->]. rewrite NATIVE_MAX_UNITS_val in *.
    rewrite (proj2 (ensure_canonical_ok _) (print_dec_canonical _)). cbn [rbind].
    assert (Hle : (length (print_dec units) <= 37)%nat).
    { apply length_print_dec_le. eapply N.le_lt_trans; [exact Hb|by vm_compute]. }
    rewrite (proj2 (Nat.ltb_ge _ _) Hle). rewrite parse_print_unsigned.
    + simpl. by rewrite (proj2 (N.ltb_ge _ _) Hb).
    + etransitivity; [exact Hb|by vm_compute].
Qed.

(** [native_units_from_canonical_decimal] accepts exactly the canonical decimal
    texts of the numbers up to 2^120 - 1: the 37-digit cut loses none of them. *)
Lemma native_units_exact (text : bytes) (units : N) :
  native_units_from_canonical_decimal text = Ok units <->
  units <= NATIVE_MAX_UNITS /\ text = print_dec units.
Proof. apply native_units_ok. Qed.

(** ** What a fixed-9 text denotes

    A canonical whole part, then optionally a point and one to nine digits. *)
Definition fixed9 (value : bytes) (u : N) : Prop :=
  exists w f,
    canonical w = true /\ all_digits f = true /\ (length f <= 9)%nat
    /\ (value = w /\ f = [] \/ value = w ++ Byte.x2e :: f /\ f <> [])
    /\ u = dec_val w * 10 ^ 9 + dec_val f * 10 ^ (9 - N.of_nat (length f)).

Definition in_domain (a : AssetAmount) : Prop :=
  match a with
  | NativeAmount u => u <= NATIVE_MAX_UNITS
  | CcAssetAmount _ u => wf_cc u
  end.

Definition canon (l : bytes) : bytes :=
  let c := trim_start_zeros l in match c with [] => bs "0" | _ => c end.

Lemma digits_zero k : all_digits (repeat (digit 0) k) = true /\ dec_val (repeat (digit 0) k) = 0.
Proof.
  induction k as [|k [IH1 IH2]]; [done|]. cbn [repeat]. rewrite dec_val_cons, IH2.
  unfold all_digits in *. cbn [forallb]. rewrite IH1. split; [done|].
  rewrite digit_val_digit; lia.
Qed.

Lemma canon_spec l :
  all_digits l = true -> canonical (canon l) = true /\ dec_val (canon l) = dec_val l.
Proof.
  unfold canon. induction l as [|b l IH]; intros Hd; [done|]. cbn [trim_start_zeros].
  pose proof Hd as Hd'. unfold all_digits in Hd'. cbn [forallb] in Hd'.
  apply andb_true_iff in Hd' as [Hb Hl].
  destruct (N.eqb_spec (u8 b) 48) as [E|E].
  - destruct (IH Hl) as [Hc Hv]. split; [done|]. rewrite Hv, dec_val_cons.
    unfold digit_val. rewrite E. lia.
  - split; [|done]. unfold canonical. destruct l as [|c l]; [done|].
    rewrite Hd, (proj2 (N.eqb_neq _ _) E). done.
Qed.

Lemma canon_print l : all_digits l = true -> canon l = print_dec (dec_val l).
Proof.
  intros H. destruct (canon_spec l H) as [Hc <-]. by rewrite print_dec_val.
Qed.

Lemma no_dot_digits l : all_digits l = true -> Byte.x2e ∉ l.
Proof.
  intros H Hin. unfold all_digits in H. rewrite forallb_forall in H.
  apply list_elem_of_In in Hin. by specialize (H _ Hin).
Qed.

Lemma split_on_none c l : c ∉ l -> split_on c l = [l].
Proof.
  induction l as [|a l IH]; [done|]. intros [Ha Hl]%not_elem_of_cons. cbn [split_on].
  rewrite (proj2 (N.eqb_neq _ _)), IH; [done..|]. intros E%(inj u8). congruence.
Qed.

Lemma split_on_app c l k : c ∉ l -> split_on c (l ++ c :: k) = l :: split_on c k.
Proof.
  induction l as [|a l IH]; cbn [app split_on]; [by rewrite N.eqb_refl|].
  intros [Ha Hl]%not_elem_of_cons.
  rewrite (proj2 (N.eqb_neq _ _)), IH; [done..|]. intros E%(inj u8). congruence.
Qed.

(** The pieces put back together. *)
Lemma split_on_join c s p ps :
  split_on c s = p :: ps ->
  c ∉ p /\ match ps with [] => s = p | _ => exists k, s = p ++ c :: k /\ split_on c k = ps end.
Proof.
  revert p ps. induction s as [|a s IH]; intros p ps; cbn [split_on].
  { intros [= <- <-]. split; [apply not_elem_of_nil|done]. }
  destruct (N.eqb_spec (u8 a) (u8 c)) as [E%(inj u8)|E].
  - intros [= <- <-]. subst a. split; [apply not_elem_of_nil|].
    destruct (split_on c s) eqn:Es; [|by exists s].
    destruct s; cbn in Es; [done|]. repeat case_match; done.
  - destruct (split_on c s) as [|q qs] eqn:Es.
    { destruct s; cbn in Es; [done|]. repeat case_match; done. }
    intros [= <- <-]. destruct (IH q qs eq_refl) as [Hq Hqs].
    split; [apply not_elem_of_cons; split; [congruence|done]|].
    destruct qs; [by subst|]. destruct Hqs as (k & -> & Hk). by exists k.
Qed.

Lemma fixed9_digits_val w f :
  all_digits f = true -> (length f <= 9)%nat ->
  dec_val (w ++ f ++ repeat (digit 0) (FIXED9_DECIMALS - length f))
  = dec_val w * 10 ^ 9 + dec_val f * 10 ^ (9 - N.of_nat (length f)).
Proof.
  intros Hf Hl. rewrite !dec_val_app, (proj2 (digits_zero _)), length_app, repeat_length.
  unfold FIXED9_DECIMALS. replace (length f + (9 - length f))%nat with 9%nat by lia.
  replace (N.of_nat (9 - length f)) with (9 - N.of_nat (length f)) by lia. lia.
Qed.

Lemma amount_of_canonical_spec asset ds a :
  all_digits ds = true ->
  amount_of_canonical asset (canon ds) = Ok a <->
  is_sendable asset = true /\ asset_id a = asset /\ in_domain a /\ units_of a = dec_val ds.
Proof.
  intros Hds. rewrite canon_print by done. unfold amount_of_canonical, amount_err, is_sendable.
  destruct asset as [|id]; split.
  - intros H. rinv H. apply native_units_ok in Hm as [Hb Hp%(inj print_dec)].
    unfold amount_native in H. case_match; [done|]. injection H as <-. simpl. auto.
  - destruct a as [u|]; cbn [asset_id in_domain units_of]; intros (_ & Ha & Hb & Hu); [|done].
    rewrite (proj2 (native_units_ok _ u)) by (by subst u).
    unfold amount_native. cbn [rbind map_err]. by rewrite (proj2 (N.ltb_ge _ _) Hb).
  - intros H. rinv H. apply try_from_canonical_ok in Hm as [Hb Hp%(inj print_dec)].
    simpl. auto.
  - destruct a as [|id' u]; [by intros (_ & ? & _)|].
    cbn [asset_id in_domain units_of]. intros (Hs & [= ->] & Hb & Hu). simpl in Hs.
    rewrite Hs. rewrite (proj2 (try_from_canonical_ok _ u)); [done|].
    split; [done|]. unfold to_canonical_decimal. by rewrite Hu.
Qed.

(** The digit limits on the whole part exclude no amount of the domain. *)
Lemma whole_precheck a w k :
  canonical w = true -> in_domain a -> dec_val w * 10 ^ 9 + k = units_of a ->
  (length w <= match asset_id a with Native => 28 | _ => 66 end)%nat.
Proof.
  intros Hw Hd Hu. pose proof (print_dec_val w Hw) as <-.
  assert (Hb : forall m, units_of a < 10 ^ 9 * 10 ^ N.of_nat (S m) -> (length (print_dec (dec_val w)) <= S m)%nat).
  { intros m Hm. apply length_print_dec_le. nia. }
  destruct a as [u|id u]; cbn [asset_id units_of in_domain] in *; apply Hb.
  - rewrite NATIVE_MAX_UNITS_val in Hd. eapply N.le_lt_trans; [exact Hd|by vm_compute].
  - eapply N.lt_trans; [exact Hd|by vm_compute].
Qed.

Lemma canonical_checks w :
  canonical w = true <->
  (match w with [] => true | _ => false end || negb (all_digits w)
   || ((1 <? length w)%nat && match w with b :: _ => u8 b =? 48 | [] => false end)) = false.
Proof.
  unfold canonical. destruct w as [|b [|c l]]; [done| |].
  - cbn. rewrite andb_true_r, orb_false_r. by destruct (is_ascii_digit b).
  - cbn [length Nat.ltb Nat.leb andb orb].
    destruct (all_digits (b :: c :: l)), (u8 b =? 48); done.
Qed.

(** The checks of [parse_send_amount] after the text has been split. *)
Lemma parse_send_amount_pieces asset value a :
  parse_send_amount asset value = Ok a <->
  exists w f,
    (value = w /\ f = [] \/ value = w ++ Byte.x2e :: f /\ f <> [])
    /\ canonical w = true /\ all_digits f = true /\ (length f <= 9)%nat
    /\ is_sendable asset = true
    /\ (length w <= match asset with Native => 28 | _ => 66 end)%nat
    /\ amount_of_canonical asset (canon (w ++ f ++ repeat (digit 0) (FIXED9_DECIMALS - length f))) = Ok a
    /\ is_zero a = false.
Proof.
  unfold parse_send_amount. rewrite asset_meta_decimals. cbn [negb bool_decide].
  rewrite bool_decide_eq_true_2 by done. cbn [negb].
  remember (match asset with
      | Native => Ok 28%nat
      | CurrencyCollection id => if is_known_cc (CurrencyCollection id) then Ok 66%nat
          else Err (AmountErr "only currency-collection ids 1, 2, and 3 can be sent") end) as mw eqn:Emw.
  assert (Hsend : forall m, mw = Ok m
      <-> is_sendable asset = true /\ m = match asset with Native => 28 | _ => 66 end%nat).
  { intros m. subst mw. unfold is_sendable. destruct asset as [|id]; cbn; [naive_solver|].
    destruct (is_known_cc (CurrencyCollection id)); naive_solver. }
  clear Emw. split.
  - intros H. destruct (split_on Byte.x2e value) as [|w ps] eqn:Es.
    { cbn in H. discriminate H. }
    apply split_on_join in Es as [Hw Hps].
    destruct ps as [|f ps]; [|destruct ps as [|p ps]; [|cbn in H; discriminate H]].
    + rinv H. cbn [orb] in Hc. destruct (proj1 (Hsend _) eq_refl) as [Hs ->].
      apply canonical_checks in Hc.
      bprop. exists w, []. split; [by left|]. split; [done|]. split; [done|]. split; [simpl; lia|].
      split; [done|]. split; [done|]. split; [exact Hm0|done].
    + destruct Hps as (k & -> & Hk). apply split_on_join in Hk as [Hf ->].
      rinv H. cbn [orb] in Hc. destruct (proj1 (Hsend _) eq_refl) as [Hs ->].
      apply canonical_checks in Hc.
      bprop. unfold FIXED9_DECIMALS in *. exists w, f.
      split; [right; split; [done|by destruct f]|]. split; [done|]. split; [done|].
      split; [lia|]. split; [done|]. split; [done|]. split; [exact Hm0|done].
  - intros (w & f & Hv & Hw & Hf & Hl & Hs & Hlw & Ha & Hz).
    pose proof (no_dot_digits w (canonical_digits w Hw)) as Hdw.
    pose proof (no_dot_digits f Hf) as Hdf.
    pose proof (proj1 (canonical_checks w) Hw) as Hcw.
    destruct Hv as [[-> ->]|[-> Hne]].
    + rewrite split_on_none by done. cbn [orb]. rewrite Hcw.
      rewrite (proj2 (Hsend _) (conj Hs eq_refl)). cbn [rbind].
      rewrite (proj2 (Nat.ltb_ge _ _) Hlw).
      unfold canon in Ha. cbv zeta in Ha. rewrite Ha. cbn [rbind]. by rewrite Hz.
    + rewrite split_on_app, split_on_none by done. cbn [orb]. rewrite Hcw.
      unfold FIXED9_DECIMALS at 1. rewrite Hf, (proj2 (Nat.ltb_ge _ _) Hl). rewrite (proj2 (Nat.eqb_neq _ _)) by by destruct f. cbn [negb orb].
      rewrite (proj2 (Hsend _) (conj Hs eq_refl)). cbn [rbind].
      rewrite (proj2 (Nat.ltb_ge _ _) Hlw).
      unfold canon in Ha. cbv zeta in Ha. rewrite Ha. cbn [rbind]. by rewrite Hz.
Qed.

Lemma parse_send_amount_ok (asset : AssetId) (value : bytes) (a : AssetAmount) :
  parse_send_amount asset value = Ok a <->
  is_sendable asset = true /\ asset_id a = asset /\ in_domain a
  /\ units_of a <> 0 /\ fixed9 value (units_of a).
Proof.
  rewrite parse_send_amount_pieces. unfold fixed9. split.
  - intros (w & f & Hv & Hw & Hf & Hl & Hs & Hlw & Ha & Hz).
    apply amount_of_canonical_spec in Ha as (_ & Hid & Hd & Hu).
    2: by rewrite !all_digits_app, (canonical_digits w Hw), Hf, (proj1 (digits_zero _)).
    rewrite fixed9_digits_val in Hu by done. repeat (split; [done|]).
    split; [by rewrite <- is_zero_iff, Hz|]. by exists w, f.
  - intros (Hs & Hid & Hd & Hz & w & f & Hw & Hf & Hl & Hv & Hu). exists w, f.
    repeat (split; [done|]). split; [subst asset; by eapply whole_precheck|].
    split; [|by rewrite <- not_true_iff_false, is_zero_iff].
    apply amount_of_canonical_spec.
    { by rewrite !all_digits_app, (canonical_digits w Hw), Hf, (proj1 (digits_zero _)). }
    by rewrite fixed9_digits_val.
Qed.

(** [parse_send_amount] accepts a text for an asset exactly when the asset can be
    sent, the text is a canonical fixed-9 number, and the number of base units it
    denotes is in the asset's domain and not zero; the amount returned is that one.
    The digit-count prechecks on the whole part refuse nothing else. *)
Lemma parse_send_amount_exact (asset : AssetId) (value : bytes) (a : AssetAmount) :
  parse_send_amount asset value = Ok a <->
  is_sendable asset = true /\ asset_id a = asset /\ in_domain a
  /\ units_of a <> 0 /\ fixed9 value (units_of a).
Proof. apply parse_send_amount_ok. Qed.

(** *** Printing *)
Lemma canonical_take l k :
  canonical l = true -> (0 < k < length l)%nat -> canonical (take k l) = true.
Proof.
  destruct l as [|b [|c l]]; [simpl; lia|simpl; lia|]. intros H Hk.
  unfold canonical in H. bprop. destruct k as [|[|k]]; [lia|..]; cbn [take].
  - unfold canonical. unfold all_digits in *. cbn [forallb] in *. by bprop.
  - unfold canonical. apply andb_true_iff. split; [by apply negb_true_iff, N.eqb_neq|].
    unfold all_digits in *. cbn [forallb] in *. bprop.
    repeat (apply andb_true_iff; split; [done|]). apply forallb_forall. intros x Hx.
    match goal with H : forallb _ l = true |- _ => rewrite forallb_forall in H; apply H end.
    rewrite <- (take_drop k l). apply in_or_app. by left.
Qed.

Lemma format_digits_spec n :
  let ds := print_dec n in
  let padded := if (length ds <=? FIXED9_DECIMALS)%nat
                then repeat (digit 0) (FIXED9_DECIMALS + 1 - length ds) ++ ds else ds in
  let split := (length padded - FIXED9_DECIMALS)%nat in
  canonical (take split padded) = true /\ all_digits (drop split padded) = true
  /\ length (drop split padded) = 9%nat
  /\ dec_val (take split padded) * 10 ^ 9 + dec_val (drop split padded) = n.
Proof.
  intros ds padded split.
  assert (Hds : all_digits ds = true) by apply print_dec_digits.
  assert (Hdv : dec_val ds = n) by apply dec_val_print.
  assert (Hpd : all_digits padded = true /\ dec_val padded = n /\ (9 < length padded)%nat).
  { unfold padded, FIXED9_DECIMALS. destruct (Nat.leb_spec (length ds) 9) as [Hl|Hl].
    - rewrite all_digits_app, (proj1 (digits_zero _)), dec_val_app, (proj2 (digits_zero _)).
      rewrite length_app, repeat_length, Hdv, Hds.
      split; [done|]. split; [lia|]. lia.
    - done. }
  destruct Hpd as (Hp & Hv & Hlen).
  assert (Hsplit : (split < length padded)%nat) by (unfold split, FIXED9_DECIMALS; lia).
  assert (Htd : all_digits (take split padded) = true /\ all_digits (drop split padded) = true).
  { rewrite <- (take_drop split padded), all_digits_app in Hp. by apply andb_true_iff in Hp. }
  assert (Hdl : length (drop split padded) = 9%nat).
  { rewrite length_drop. unfold split, FIXED9_DECIMALS. lia. }
  split; [|split; [by apply Htd|split; [done|]]].
  - unfold split, padded, FIXED9_DECIMALS in *. destruct (Nat.leb_spec (length ds) 9) as [Hl|Hl].
    + rewrite length_app, repeat_length.
      pose proof (print_dec_nonempty n) as Hne. fold ds in Hne.
      assert (0 < length ds)%nat by (destruct ds; [done|simpl; lia]).
      replace (9 + 1 - length ds + length ds - 9)%nat with 1%nat by lia.
      replace (9 + 1 - length ds)%nat with (S (9 - length ds)) by lia. done.
    + apply canonical_take; [apply print_dec_canonical|]. fold ds. lia.
  - rewrite <- Hv. rewrite <- (take_drop split padded) at 3.
    by rewrite dec_val_app, Hdl.
Qed.

Lemma format_fixed9_spec a : exists s, format_fixed9_amount a = Ok s /\ fixed9 s (units_of a).
Proof.
  unfold format_fixed9_amount. rewrite asset_meta_decimals.
  rewrite bool_decide_eq_true_2 by done. cbn [negb].
  assert (Hd : (match native_units a with
    | Some units => Ok (print_dec units)
    | None => let? u := expect (cc_units a) in Ok (to_canonical_decimal u) end : res WalletError bytes)
    = Ok (print_dec (units_of a))) by by destruct a.
  rewrite Hd. cbn [rbind]. eexists. split; [done|].
  destruct (format_digits_spec (units_of a)) as (Hw & Hf & Hl & Hv).
  eexists _, _. split; [exact Hw|]. split; [exact Hf|]. rewrite Hl. split; [lia|].
  split; [right; split; [done|]|].
  - intros Hn. rewrite Hn in Hl. done.
  - change (N.of_nat 9) with 9. rewrite N.sub_diag, N.pow_0_r, N.mul_1_r. by symmetry.
Qed.

(** Formatting never fails, and what it prints for a sendable, non-zero amount of
    the domain parses back to that amount. *)
Lemma format_parse_roundtrip (a : AssetAmount) :
  in_domain a -> is_sendable (asset_id a) = true -> units_of a <> 0 ->
  exists s, format_fixed9_amount a = Ok s /\ parse_send_amount (asset_id a) s = Ok a.
Proof.
  intros Hd Hs Hz. destruct (format_fixed9_spec a) as (s & Hf & H9).
  exists s. split; [done|]. by apply parse_send_amount_ok.
Qed.

Lemma format_parse_roundtrip_witness :
  exists s, format_fixed9_amount (NativeAmount 1500000000) = Ok s
            /\ parse_send_amount Native s = Ok (NativeAmount 1500000000).
Proof. apply (format_parse_roundtrip (NativeAmount 1500000000)); vm_compute; done. Defined.

(** ** Same-asset arithmetic *)
Definition set_units (a : AssetAmount) (u : N) : AssetAmount :=
  match a with NativeAmount _ => NativeAmount u | CcAssetAmount id _ => CcAssetAmount id (mkCc u) end.

Lemma in_domain_bound a :
  in_domain a <-> units_of a < match asset_id a with Native => 2 ^ 120 | _ => CC_BOUND end.
Proof.
  destruct a as [u|id u]; cbn [in_domain units_of asset_id]; [|done].
  rewrite NATIVE_MAX_UNITS_val. assert (0 < 2 ^ 120) by done. lia.
Qed.

Lemma checked_add_exact (a b c : AssetAmount) :
  in_domain a -> in_domain b ->
  (checked_add_same_asset a b = Ok c <->
   asset_id a = asset_id b /\ c = set_units a (units_of a + units_of b) /\ in_domain c).
Proof.
  intros Ha Hb. destruct a as [x|i x], b as [y|j y]; cbn [checked_add_same_asset asset_id]; try naive_solver.
  - cbn [in_domain set_units units_of] in *. rewrite NATIVE_MAX_UNITS_val in *.
    assert (Hmax : 2 ^ 120 - 1 + (2 ^ 120 - 1) <= u128_max) by by vm_compute.
    unfold checked_add. rewrite (proj2 (N.leb_le _ _)) by lia. cbn [ok_or rbind].
    unfold amount_native. rewrite NATIVE_MAX_UNITS_val.
    destruct (N.ltb_spec (2 ^ 120 - 1) (x + y)) as [Hs|Hs].
    + split; [done|]. intros (_ & -> & Hc). cbn [in_domain] in Hc. rewrite NATIVE_MAX_UNITS_val in Hc. lia.
    + split; [|by intros (_ & -> & _)]. intros [= <-]. split; [done|]. split; [done|].
      cbn [in_domain]. by rewrite NATIVE_MAX_UNITS_val.
  - cbn [set_units units_of]. destruct (N.eqb_spec i j) as [->|Hij].
    + unfold cc_checked_add. destruct (N.leb_spec (biguint_bits (cc_value x + cc_value y)) 248) as [Hs|Hs].
      * apply biguint_bits_le in Hs. cbn. split; [|by intros (_ & -> & _)].
        intros [= <-]. done.
      * cbn. split; [done|]. intros (_ & -> & Hc). exfalso. revert Hs. apply N.le_ngt.
        by apply biguint_bits_le.
    + split; [done|]. intros ([= ->] & _). done.
Qed.

(** Adding two amounts of a domain succeeds exactly when they are of the same
    asset and the sum is in that asset's domain, and then returns the sum. *)
Lemma checked_add_same_asset_spec (a b c : AssetAmount) :
  in_domain a -> in_domain b ->
  (checked_add_same_asset a b = Ok c <->
   asset_id a = asset_id b /\ c = set_units a (units_of a + units_of b) /\ in_domain c).
Proof. exact (checked_add_exact a b c). Qed.

Lemma checked_add_same_asset_spec_witness :
  checked_add_same_asset (NativeAmount 2) (NativeAmount 3) = Ok (NativeAmount 5).
Proof. apply checked_add_same_asset_spec; repeat split; vm_compute; done. Defined.

Lemma checked_sub_exact (a b c : AssetAmount) :
  in_domain a -> in_domain b ->
  (checked_sub_same_asset a b = Ok c <->
   asset_id a = asset_id b /\ units_of b <= units_of a
   /\ c = set_units a (units_of a - units_of b))
  /\ (checked_sub_same_asset a b = Ok c -> checked_add_same_asset c b = Ok a).
Proof.
  intros Ha Hb.
  assert (Hsub : checked_sub_same_asset a b = Ok c <->
    asset_id a = asset_id b /\ units_of b <= units_of a /\ c = set_units a (units_of a - units_of b)).
  { destruct a as [x|i x], b as [y|j y]; cbn [checked_sub_same_asset asset_id]; try naive_solver.
    - cbn [in_domain set_units units_of] in *. unfold checked_sub.
      destruct (N.leb_spec y x) as [Hs|Hs]; cbn; [|split; [done|lia]].
      unfold amount_native. rewrite (proj2 (N.ltb_ge _ _)) by lia. naive_solver.
    - cbn [set_units units_of]. destruct (N.eqb_spec i j) as [->|Hij]; [|naive_solver].
      unfold cc_checked_sub. destruct (N.leb_spec (cc_value y) (cc_value x)) as [Hs|Hs]; cbn; [naive_solver|].
      split; [done|lia]. }
  split; [exact Hsub|]. intros (Hid & Hle & ->)%Hsub.
  apply checked_add_exact; [|done|].
  - rewrite in_domain_bound in *. destruct a, b; cbn in *; lia.
  - destruct a as [x|i [x]], b as [y|j [y]]; try discriminate Hid; cbn in *; (split; [done|]; split; [|done]);
      repeat f_equal; lia.
Qed.

(** Subtracting succeeds exactly when the assets agree and the difference is not
    negative, and then adding the subtrahend back gives the minuend. *)
Lemma checked_sub_same_asset_spec (a b c : AssetAmount) :
  in_domain a -> in_domain b ->
  (checked_sub_same_asset a b = Ok c <->
   asset_id a = asset_id b /\ units_of b <= units_of a
   /\ c = set_units a (units_of a - units_of b))
  /\ (checked_sub_same_asset a b = Ok c -> checked_add_same_asset c b = Ok a).
Proof. exact (checked_sub_exact a b c). Qed.

Lemma checked_sub_same_asset_spec_witness :
  checked_sub_same_asset (NativeAmount 5) (NativeAmount 3) = Ok (NativeAmount 2)
  /\ checked_add_same_asset (NativeAmount 2) (NativeAmount 3) = Ok (NativeAmount 5).
Proof.
  destruct (checked_sub_same_asset_spec (NativeAmount 5) (NativeAmount 3) (NativeAmount 2)) as [H1 H2];
    [by vm_compute..|]. split; [|apply H2]; apply H1; by vm_compute.
Defined.

Lemma cmp_same_asset_units a b :
  asset_id a = asset_id b -> cmp_same_asset a b = Ok (N.compare (units_of a) (units_of b)).
Proof.
  destruct a as [x|i x], b as [y|j y]; cbn; try done. intros [= ->]. by rewrite N.eqb_refl.
Qed.

Lemma checked_sub_ok a b :
  in_domain a -> asset_id a = asset_id b -> units_of b <= units_of a ->
  checked_sub_same_asset a b = Ok (set_units a (units_of a - units_of b)).
Proof.
  intros Ha Hid Hle.
  apply checked_sub_exact; [done| |done].
  rewrite in_domain_bound in *. rewrite <- Hid. lia.
Qed.

(** ** 31-byte big-endian form *)
Lemma length_biguint_bytes n : n < CC_BOUND -> (length (biguint_to_bytes_be n) <= 31)%nat.
Proof.
  intros H. unfold biguint_to_bytes_be. rewrite length_be_bytes.
  apply (biguint_bits_le n 248) in H. cut (N.max 1 ((biguint_bits n + 7) / 8) <= 31); [lia|].
  apply N.max_lub; [done|]. apply N.lt_succ_r. apply N.Div0.div_lt_upper_bound. lia.
Qed.

Lemma of_be_biguint_bytes n : of_be (biguint_to_bytes_be n) = n.
Proof.
  unfold biguint_to_bytes_be. rewrite of_be_be_bytes, N2Nat.id. apply N.mod_small.
  assert (Hb : n < 2 ^ biguint_bits n) by by apply biguint_bits_le.
  eapply N.lt_le_trans; [exact Hb|].
  change 256 with (2 ^ 8). rewrite <- N.pow_mul_r. apply N.pow_le_mono_r; [done|].
  pose proof (N.le_max_r 1 ((biguint_bits n + 7) / 8)) as Hm.
  pose proof (N.Div0.div_mod (biguint_bits n + 7) 8). pose proof (N.mod_lt (biguint_bits n + 7) 8). lia.
Qed.

Lemma of_be_zeros k l : of_be (repeat Byte.x00 k ++ l) = of_be l.
Proof.
  rewrite of_be_app. replace (of_be (repeat Byte.x00 k)) with 0; [lia|].
  induction k as [|k IH]; [done|]. cbn [repeat]. rewrite of_be_cons, <- IH. done.
Qed.

Lemma cc_be_bytes_31_ok (a : CcAmount) :
  wf_cc a ->
  exists l, cc_to_be_bytes_31 a = Ok l /\ length l = 31%nat /\ cc_from_be_bytes_31 l = a.
Proof.
  intros H. unfold cc_to_be_bytes_31. pose proof (length_biguint_bytes (cc_value a) H) as Hl.
  rewrite (proj2 (Nat.leb_le _ _) Hl). eexists. split; [done|]. split.
  - rewrite length_app, repeat_length. lia.
  - unfold cc_from_be_bytes_31. rewrite of_be_zeros, of_be_biguint_bytes. by destruct a.
Qed.

(** A currency-collection amount below 2^248 has a 31-byte big-endian form (the
    copy into the fixed array never panics) and reads back from it. *)
Lemma cc_be_bytes_31_roundtrip (a : CcAmount) :
  wf_cc a ->
  exists l, cc_to_be_bytes_31 a = Ok l /\ length l = 31%nat /\ cc_from_be_bytes_31 l = a.
Proof. exact (cc_be_bytes_31_ok a). Qed.

Lemma cc_be_bytes_31_roundtrip_witness :
  exists l, cc_to_be_bytes_31 (mkCc 258) = Ok l /\ length l = 31%nat /\ cc_from_be_bytes_31 l = mkCc 258.
Proof. apply cc_be_bytes_31_roundtrip. by vm_compute. Defined.

(** ** JSON *)
Lemma de_asset_amount_native s :
  de_asset_amount (JObj [(bs "asset", JStr (bs "native")); (bs "base_units", JStr s)])
  = (let? units := amount_serde (native_units_from_canonical_decimal s) in
     amount_serde (amount_native units)).
Proof. reflexivity. Qed.

Lemma de_asset_amount_cc id s :
  id <= u32_max ->
  de_asset_amount (JObj [(bs "asset", JStr (bs "currency_collection"));
                         (bs "currency_id", ser_unsigned id); (bs "base_units", JStr s)])
  = (let? units := amount_serde (try_from_canonical_decimal s) in Ok (currency_collection id units)).
Proof.
  intros H. unfold de_asset_amount.
  change (visit_amount_map _ _) with
    (let? v := de_unsigned u32_max (ser_unsigned id) in
     visit_amount_map [(bs "base_units", JStr s)]
       {| f_asset := Some (bs "currency_collection"); f_currency_id := Some v; f_base_units := None |}).
  by rewrite de_ser_unsigned.
Qed.

(** An amount within its integer widths reads back from its JSON form, and
    whatever JSON value is read, the result is in its asset's domain. *)
Lemma asset_amount_json_roundtrip (a : AssetAmount) (j : json) :
  (wf_amount a -> de_asset_amount (ser_asset_amount a) = Ok a)
  /\ (de_asset_amount j = Ok a -> in_domain a).
Proof.
  split.
  - destruct a as [u|id u]; cbn [wf_amount].
    + intros Hu. unfold ser_asset_amount. rewrite de_asset_amount_native.
      rewrite (proj2 (native_units_ok _ u) (conj Hu eq_refl)). cbn [rbind amount_serde map_err].
      unfold amount_native. by rewrite (proj2 (N.ltb_ge _ _) Hu).
    + intros [Hid Hu]. unfold ser_asset_amount. rewrite de_asset_amount_cc by done.
      by rewrite (proj2 (try_from_canonical_ok _ u) (conj Hu eq_refl)).
  - unfold de_asset_amount. intros H. destruct j; try discriminate H. rinv H.
    + apply map_err_Ok in H. unfold amount_native in H. case_match; [done|]. injection H as <-.
      bprop. done.
    + apply map_err_Ok, try_from_canonical_ok in Hm3 as [Hb _]. done.
Qed.

Lemma asset_amount_json_roundtrip_witness :
  de_asset_amount (ser_asset_amount (CcAssetAmount 2 (mkCc 77))) = Ok (CcAssetAmount 2 (mkCc 77)).
Proof.
  destruct (asset_amount_json_roundtrip (CcAssetAmount 2 (mkCc 77)) JNull) as [H _].
  apply H. split; by vm_compute.
Defined.
