(* ===== verification/Digest.v ===== *)
(** * Digests (crates/cc-wallet-domain/src/digest.rs)

    The framed, domain-separated preimages the wallet hashes to bind a send ticket, a
    set of blocking records and a set of reservations, and the rows those sets hold.
    SHA-256 is a parameter: what the wallet controls is the preimage. *)

From Stdlib Require Import NArith ZArith Lia Sorting.
From S2P Require Import Prelude Ord Bytes Decimal Ids Asset Amount.

(** The [sha2] crate's [Sha256]. *)
Class Sha256 := sha256 : bytes -> bytes32.

Definition AMOUNT_DOMAIN : bytes := bs "cc-wallet/asset-amount/v1" ++ [Byte.x00].
Definition DIGEST_DOMAIN : bytes := bs "cc-wallet/journal-v1/".

Inductive DigestError :=
| FieldTooLong
| TooManyFields
| TooManyRows
| DuplicateRow
| NonBlockingEvidence
| NativeFeeRequiresNativeAmount.

#[export] Instance DigestError_eq_dec : EqDecision DigestError.
Proof. solve_decision. Defined.

Definition DigestError_display (e : DigestError) : string :=
  match e with
  | FieldTooLong => "a digest field length exceeds the u32 length prefix"
  | TooManyFields => "a digest has more fields than the u16 tag space allows"
  | TooManyRows => "a set has more rows than the u32 count prefix allows"
  | DuplicateRow => "a set has two rows with the same canonical key"
  | NonBlockingEvidence => "a blocker row requires a blocking evidence state"
  | NativeFeeRequiresNativeAmount => "a native-fee reservation must hold a native amount"
  end.

Inductive DigestKind := Ticket | BlockerSet | ReservationSet | OverlapSet.

Definition DigestKind_as_str (k : DigestKind) : bytes :=
  match k with
  | Ticket => bs "ticket"
  | BlockerSet => bs "blocker-set"
  | ReservationSet => bs "reservation-set"
  | OverlapSet => bs "overlap-set"
  end.

Definition checked_field_len (len : nat) : res DigestError N :=
  if N.of_nat len <=? u32_max then Ok (N.of_nat len) else Err FieldTooLong.

Definition frame (tag : N) (field : bytes) : res DigestError bytes :=
  let? len := checked_field_len (length field) in
  Ok (be_bytes 2 tag ++ be_bytes 4 len ++ field).

(** [out.push(decimal.len() as u8)], then the digits. *)
Definition push_len_prefixed_decimal (out decimal : bytes) : bytes :=
  out ++ [byte_of (N.of_nat (length decimal))] ++ decimal.

Definition asset_amount_bytes (a : AssetAmount) : bytes :=
  match a with
  | NativeAmount units =>
      push_len_prefixed_decimal (AMOUNT_DOMAIN ++ [Byte.x00]) (print_dec units)
  | CcAssetAmount id units =>
      push_len_prefixed_decimal (AMOUNT_DOMAIN ++ [Byte.x01] ++ be_bytes 4 id) (to_canonical_decimal units)
  end.

(** The [for] loop over the fields, from the index of the first one. *)
Fixpoint frame_fields (index : N) (fields : list bytes) : res DigestError bytes :=
  match fields with
  | [] => Ok []
  | field :: fields' =>
      if index + 1 <=? u16_max then
        let? framed := frame (index + 1) field in
        let? rest := frame_fields (index + 1) fields' in
        Ok (framed ++ rest)
      else Err TooManyFields
  end.

(** Everything [digest] feeds to the hasher, in order. *)
Definition digest_preimage (kind : DigestKind) (fields : list bytes) : res DigestError bytes :=
  let? framed := frame_fields 0 fields in
  Ok (DIGEST_DOMAIN ++ DigestKind_as_str kind ++ [Byte.x00] ++ framed).

Definition digest `{Sha256} (kind : DigestKind) (fields : list bytes) : res DigestError Digest32 :=
  let? preimage := digest_preimage kind fields in
  Ok (sha256 preimage).

(** ** Rows *)
Inductive EvidenceTag :=
| TagPrepared
| TagAttemptStarted
| TagMayHaveBroadcast
| TagNodeResponseObserved
| TagEndpointReportedSuccess
| TagEndpointReportedFailedOnChain
| TagVerifiedTerminalSuccess
| TagVerifiedTerminalFailedOnChain
| TagNotBroadcast.

#[export] Instance EvidenceTag_eq_dec : EqDecision EvidenceTag.
Proof. solve_decision. Defined.

Definition EvidenceTag_code (t : EvidenceTag) : byte :=
  match t with
  | TagPrepared => Byte.x00
  | TagAttemptStarted => Byte.x01
  | TagMayHaveBroadcast => Byte.x02
  | TagNodeResponseObserved => Byte.x03
  | TagEndpointReportedSuccess => Byte.x04
  | TagEndpointReportedFailedOnChain => Byte.x05
  | TagVerifiedTerminalSuccess => Byte.x06
  | TagVerifiedTerminalFailedOnChain => Byte.x07
  | TagNotBroadcast => Byte.x08
  end.

Definition tag_is_blocking (t : EvidenceTag) : bool :=
  match t with
  | TagPrepared | TagAttemptStarted | TagMayHaveBroadcast | TagNodeResponseObserved
  | TagEndpointReportedSuccess | TagEndpointReportedFailedOnChain => true
  | TagVerifiedTerminalSuccess | TagVerifiedTerminalFailedOnChain | TagNotBroadcast => false
  end.

Inductive ReservationKind := Transfer | NativeFee.

#[export] Instance ReservationKind_eq_dec : EqDecision ReservationKind.
Proof. solve_decision. Defined.

Definition ReservationKind_code (k : ReservationKind) : byte :=
  match k with Transfer => Byte.x00 | NativeFee => Byte.x01 end.

Definition prefix_row_length (body : bytes) : res DigestError bytes :=
  let? len := checked_field_len (length body) in
  Ok (be_bytes 4 len ++ body).

Definition blocker_row_bytes (record_id : RecordId) (evidence : EvidenceTag)
    (external_hash : Digest32) : res DigestError bytes :=
  if negb (tag_is_blocking evidence) then Err NonBlockingEvidence else
  let? f1 := frame 1 (as_bytes record_id) in
  let? f2 := frame 2 [EvidenceTag_code evidence] in
  let? f3 := frame 3 (as_bytes external_hash) in
  prefix_row_length (f1 ++ f2 ++ f3).

Definition reservation_row_bytes (record_id : RecordId) (amount : AssetAmount)
    (kind : ReservationKind) : res DigestError bytes :=
  if bool_decide (kind = NativeFee) && bool_decide (native_units amount = None)
  then Err NativeFeeRequiresNativeAmount else
  let? f1 := frame 1 (as_bytes record_id) in
  let? f2 := frame 2 (asset_amount_bytes amount) in
  let? f3 := frame 3 [ReservationKind_code kind] in
  prefix_row_length (f1 ++ f2 ++ f3).

Record BlockerRow := mkBlockerRow {
  br_record_id : RecordId;
  br_evidence : EvidenceTag;
  br_external_hash : Digest32
}.

Definition BlockerRow_new (record_id : RecordId) (evidence : EvidenceTag)
    (external_hash : Digest32) : res DigestError BlockerRow :=
  if negb (tag_is_blocking evidence) then Err NonBlockingEvidence
  else Ok (mkBlockerRow record_id evidence external_hash).

Record Reservation := mkReservation {
  r_record_id : RecordId;
  r_amount : AssetAmount;
  r_kind : ReservationKind
}.

#[export] Instance Reservation_eq_dec : EqDecision Reservation.
Proof. solve_decision. Defined.

Definition Reservation_new (record_id : RecordId) (amount : AssetAmount)
    (kind : ReservationKind) : res DigestError Reservation :=
  if bool_decide (kind = NativeFee) && bool_decide (native_units amount = None)
  then Err NativeFeeRequiresNativeAmount
  else Ok (mkReservation record_id amount kind).

(** ** Sets of rows *)
Definition checked_row_count (len : nat) : res DigestError N :=
  if N.of_nat len <=? u32_max then Ok (N.of_nat len) else Err TooManyRows.

(** [usize] is 64 bits wide. *)
Fixpoint try_fold_len (total : N) (lengths : list nat) : res DigestError N :=
  match lengths with
  | [] => Ok total
  | l :: lengths' =>
      let? total' := ok_or (checked_add u64_max total (N.of_nat l)) FieldTooLong in
      try_fold_len total' lengths'
  end.

Definition checked_set_blob_len (lengths : list nat) : res DigestError N :=
  let? total := try_fold_len 4 lengths in
  let? _ := checked_field_len (N.to_nat total) in
  Ok total.

Definition assemble_set_blob (rows : list bytes) : res DigestError bytes :=
  let? count := checked_row_count (length rows) in
  let? _ := checked_set_blob_len (length <$> rows) in
  Ok (be_bytes 4 count ++ concat rows).

(** The loop that computes one [(key, bytes)] item per row. *)
Fixpoint row_items {R K : Type} (key : R -> K) (enc : R -> res DigestError bytes) (rows : list R)
  : res DigestError (list (K * bytes)) :=
  match rows with
  | [] => Ok []
  | row :: rows' =>
      let? b := enc row in
      let? items := row_items key enc rows' in
      Ok ((key row, b) :: items)
  end.

(** Sort by key, refuse equal neighbours, concatenate. *)
Definition set_blob {K : Type} `{Ord K} (items : list (K * bytes)) : res DigestError bytes :=
  let sorted := sort_by_key fst items in
  if adjacent_dup fst sorted then Err DuplicateRow else assemble_set_blob (snd <$> sorted).

Definition blocker_set_blob (rows : list BlockerRow) : res DigestError bytes :=
  let? items := row_items br_record_id
    (fun row => blocker_row_bytes (br_record_id row) (br_evidence row) (br_external_hash row)) rows in
  set_blob items.

Definition blocker_set_digest `{Sha256} (rows : list BlockerRow) : res DigestError Digest32 :=
  let? blob := blocker_set_blob rows in
  digest BlockerSet [blob].

(** [ReservationSortKey]. *)
Definition reservation_key (row : Reservation) : bytes32 * bytes * byte :=
  (r_record_id row, asset_amount_bytes (r_amount row), ReservationKind_code (r_kind row)).

Definition reservation_set_blob (rows : list Reservation) : res DigestError bytes :=
  let? items := row_items reservation_key
    (fun row => reservation_row_bytes (r_record_id row) (r_amount row) (r_kind row)) rows in
  set_blob items.

Definition reservation_like_set_digest `{Sha256} (kind : DigestKind) (rows : list Reservation)
  : res DigestError Digest32 :=
  let? blob := reservation_set_blob rows in
  digest kind [blob].

Definition reservation_set_digest `{Sha256} := reservation_like_set_digest ReservationSet.
Definition overlap_set_digest `{Sha256} := reservation_like_set_digest OverlapSet.

(** ** Tickets *)
Record CanonicalAddress := mkCanonicalAddress {
  ca_workchain : Z;
  ca_account : bytes32
}.

#[export] Instance CanonicalAddress_eq_dec : EqDecision CanonicalAddress.
Proof. solve_decision. Defined.

(** Two's complement: [workchain as u8], [i32::to_be_bytes]. *)
Definition i8_as_u8 (z : Z) : byte := byte_of (Z.to_N (z mod 256)).
Definition i32_to_be_bytes (z : Z) : bytes := be_bytes 4 (Z.to_N (z mod 4294967296)).

Definition digest_bytes (a : CanonicalAddress) : bytes :=
  i8_as_u8 (ca_workchain a) :: as_bytes (ca_account a).

Record TicketDigestInput := {
  td_record_id : RecordId;
  td_sender_wallet_id : bytes;
  td_sender_address : CanonicalAddress;
  td_network_global_id : Z;
  td_endpoint_identity : bytes;
  td_destination : CanonicalAddress;
  td_value : AssetAmount;
  td_bounce : bool;
  td_auth_generation : N;
  td_auth_nonce : N
}.

Definition ticket_fields (t : TicketDigestInput) : list bytes :=
  [as_bytes (td_record_id t); td_sender_wallet_id t; digest_bytes (td_sender_address t);
   i32_to_be_bytes (td_network_global_id t); td_endpoint_identity t;
   digest_bytes (td_destination t); asset_amount_bytes (td_value t);
   [if td_bounce t then Byte.x01 else Byte.x00];
   be_bytes 8 (td_auth_generation t); be_bytes 8 (td_auth_nonce t)].

Definition ticket_digest `{Sha256} (t : TicketDigestInput) : res DigestError Digest32 :=
  digest Ticket (ticket_fields t).

(** ** The framing is injective *)
Lemma frame_Ok tag f x :
  frame tag f = Ok x <->
  N.of_nat (length f) <= u32_max /\ x = be_bytes 2 tag ++ be_bytes 4 (N.of_nat (length f)) ++ f.
Proof.
  unfold frame, checked_field_len. destruct (N.leb_spec (N.of_nat (length f)) u32_max); cbn;
    split; try naive_solver lia.
Qed.

Lemma be4_inj n m : n <= u32_max -> m <= u32_max -> be_bytes 4 n = be_bytes 4 m -> n = m.
Proof. intros Hn Hm. apply be_bytes_inj; unfold u32_max in *; simpl; lia. Qed.

(** A length-prefixed field at the front can be read off. *)
Lemma len_prefixed_inj (f g r s : bytes) :
  N.of_nat (length f) <= u32_max -> N.of_nat (length g) <= u32_max ->
  be_bytes 4 (N.of_nat (length f)) ++ f ++ r = be_bytes 4 (N.of_nat (length g)) ++ g ++ s ->
  f = g /\ r = s.
Proof.
  intros Hf Hg E. apply app_inj_1 in E as [El E]; [|by rewrite !length_be_bytes].
  apply be4_inj, Nat2N.inj in El; [|done..]. by apply app_inj_1 in E.
Qed.

Lemma frame_inj tag f g x y r s :
  frame tag f = Ok x -> frame tag g = Ok y -> x ++ r = y ++ s -> f = g /\ r = s.
Proof.
  intros [Hf ->]%frame_Ok [Hg ->]%frame_Ok. rewrite <- !app_assoc. intros E.
  apply app_inv_head in E. by apply len_prefixed_inj in E.
Qed.

Lemma len_prefixed_inj_end (f g : bytes) :
  N.of_nat (length f) <= u32_max -> N.of_nat (length g) <= u32_max ->
  be_bytes 4 (N.of_nat (length f)) ++ f = be_bytes 4 (N.of_nat (length g)) ++ g -> f = g.
Proof.
  intros Hf Hg E. apply (len_prefixed_inj f g [] []); [done..|]. by rewrite !app_nil_r.
Qed.

Lemma frame_inj_end tag f g x : frame tag f = Ok x -> frame tag g = Ok x -> f = g.
Proof. intros Hf Hg. by apply (frame_inj tag f g x x [] []). Qed.

Lemma frame_nonempty tag f x : frame tag f = Ok x -> x <> [].
Proof. intros [_ ->]%frame_Ok. done. Qed.

Lemma frame_fields_inj i l1 l2 x :
  frame_fields i l1 = Ok x -> frame_fields i l2 = Ok x -> l1 = l2.
Proof.
  revert i l2 x. induction l1 as [|f l1 IH]; intros i [|g l2] x; cbn [frame_fields]; [done|..].
  - intros [= <-] H. rinv H. apply frame_nonempty in Hm. by destruct a.
  - intros H [= <-]. rinv H. apply frame_nonempty in Hm. by destruct a.
  - intros H1 H2. destruct (i + 1 <=? u16_max); [|done].
    apply rbind_Ok in H1 as (x1 & Hx1 & H1). apply rbind_Ok in H1 as (y1 & Hy1 & H1).
    apply rbind_Ok in H2 as (x2 & Hx2 & H2). apply rbind_Ok in H2 as (y2 & Hy2 & H2).
    assert (E : x1 ++ y1 = x2 ++ y2) by congruence.
    destruct (frame_inj _ _ _ _ _ _ _ Hx1 Hx2 E) as [-> ->]. f_equal. by eapply IH.
Qed.

(** The kinds' names, with their terminator, are told apart by their first bytes. *)
Lemma kind_prefix_inj k1 k2 r s :
  DigestKind_as_str k1 ++ [Byte.x00] ++ r = DigestKind_as_str k2 ++ [Byte.x00] ++ s -> k1 = k2 /\ r = s.
Proof. destruct k1, k2; cbn; intros E; (discriminate E || by simplify_eq). Qed.

Lemma digest_preimage_inj (k1 k2 : DigestKind) (l1 l2 : list bytes) (p : bytes) :
  digest_preimage k1 l1 = Ok p -> digest_preimage k2 l2 = Ok p -> k1 = k2 /\ l1 = l2.
Proof.
  unfold digest_preimage. intros H1 H2.
  apply rbind_Ok in H1 as (x1 & Hx1 & H1). apply rbind_Ok in H2 as (x2 & Hx2 & H2).
  assert (E : DIGEST_DOMAIN ++ DigestKind_as_str k1 ++ [Byte.x00] ++ x1
              = DIGEST_DOMAIN ++ DigestKind_as_str k2 ++ [Byte.x00] ++ x2) by congruence.
  apply app_inv_head, kind_prefix_inj in E as [-> ->]. split; [done|]. by eapply frame_fields_inj.
Qed.

(** No two lists of fields, of whatever kinds, share a preimage: the kind's name,
    the tags and the length prefixes make the hashed bytes unambiguous. *)
Lemma digest_preimage_injective (k1 k2 : DigestKind) (l1 l2 : list bytes) (p : bytes) :
  digest_preimage k1 l1 = Ok p -> digest_preimage k2 l2 = Ok p -> k1 = k2 /\ l1 = l2.
Proof. apply digest_preimage_inj. Qed.

Lemma digest_preimage_injective_witness :
  Ticket = Ticket /\ [[Byte.x01]] = [[Byte.x01]].
Proof.
  apply (digest_preimage_injective Ticket Ticket [[Byte.x01]] [[Byte.x01]]
    (DIGEST_DOMAIN ++ bs "ticket" ++ [Byte.x00] ++ be_bytes 2 1 ++ be_bytes 4 1 ++ [Byte.x01]));
    by vm_compute.
Defined.

(** ** Amounts and tickets *)
Lemma length_decimal_u8 n : n < CC_BOUND -> (length (print_dec n) <= 75)%nat.
Proof. intros H. apply length_print_dec_le. eapply N.lt_trans; [exact H|by vm_compute]. Qed.

Lemma asset_amount_bytes_inj a b :
  wf_amount a -> wf_amount b -> asset_amount_bytes a = asset_amount_bytes b -> a = b.
Proof.
  intros Ha Hb. unfold asset_amount_bytes, push_len_prefixed_decimal.
  destruct a as [u|i u], b as [v|j v]; rewrite <- !app_assoc; intros E; apply app_inv_head in E.
  - injection E as _ E. apply (inj print_dec) in E. by subst.
  - discriminate E.
  - discriminate E.
  - apply app_inv_head in E. destruct Ha as [Hi Hu], Hb as [Hj Hv].
    apply app_inj_1 in E as [Eid E]; [|by rewrite !length_be_bytes].
    apply be4_inj in Eid as ->; [|done..]. injection E as _ E.
    apply (inj print_dec) in E. destruct u, v; simpl in *. by subst.
Qed.

Definition wf_address (a : CanonicalAddress) : Prop := (-128 <= ca_workchain a < 128)%Z.

Definition wf_ticket (t : TicketDigestInput) : Prop :=
  wf_address (td_sender_address t) /\ wf_address (td_destination t)
  /\ (-2147483648 <= td_network_global_id t < 2147483648)%Z
  /\ wf_amount (td_value t)
  /\ td_auth_generation t <= u64_max /\ td_auth_nonce t <= u64_max.

Lemma i8_as_u8_inj x y :
  (-128 <= x < 128)%Z -> (-128 <= y < 128)%Z -> i8_as_u8 x = i8_as_u8 y -> x = y.
Proof.
  unfold i8_as_u8. intros Hx Hy E%(f_equal u8). rewrite !u8_byte_of in E.
  assert (Hm : forall z, (0 <= z mod 256 < 256)%Z) by (intros z; apply Z.mod_pos_bound; lia).
  pose proof (Hm x). pose proof (Hm y). rewrite !N.mod_small in E by lia.
  apply Z2N.inj in E; [|lia..].
  pose proof (Z.div_mod x 256). pose proof (Z.div_mod y 256). lia.
Qed.

Lemma i32_to_be_bytes_inj x y :
  (-2147483648 <= x < 2147483648)%Z -> (-2147483648 <= y < 2147483648)%Z ->
  i32_to_be_bytes x = i32_to_be_bytes y -> x = y.
Proof.
  unfold i32_to_be_bytes. intros Hx Hy E.
  assert (Hm : forall z, (0 <= z mod 4294967296 < 4294967296)%Z) by (intros z; apply Z.mod_pos_bound; lia).
  pose proof (Hm x). pose proof (Hm y). apply be4_inj in E; [|unfold u32_max; lia..].
  apply Z2N.inj in E; [|lia..].
  pose proof (Z.div_mod x 4294967296). pose proof (Z.div_mod y 4294967296). lia.
Qed.

Lemma digest_bytes_inj a b : wf_address a -> wf_address b -> digest_bytes a = digest_bytes b -> a = b.
Proof.
  unfold wf_address, digest_bytes. intros Ha Hb [= E1 E2].
  apply i8_as_u8_inj in E1; [|done..]. apply bytes32_eq in E2.
  destruct a, b; simpl in *. by subst.
Qed.

Lemma ticket_fields_inj t1 t2 : wf_ticket t1 -> wf_ticket t2 -> ticket_fields t1 = ticket_fields t2 -> t1 = t2.
Proof.
  intros (Hs1 & Hd1 & Hn1 & Hv1 & Hg1 & Ha1) (Hs2 & Hd2 & Hn2 & Hv2 & Hg2 & Ha2).
  intros E. assert (Hn : forall k, nth k (ticket_fields t1) [] = nth k (ticket_fields t2) []) by by rewrite E.
  assert (H8 : u64_max < 256 ^ N.of_nat 8) by by vm_compute.
  pose proof (Hn 0%nat) as E0. pose proof (Hn 1%nat) as E1. pose proof (Hn 2%nat) as E2.
  pose proof (Hn 3%nat) as E3. pose proof (Hn 4%nat) as E4. pose proof (Hn 5%nat) as E5.
  pose proof (Hn 6%nat) as E6. pose proof (Hn 7%nat) as E7. pose proof (Hn 8%nat) as E8.
  pose proof (Hn 9%nat) as E9. unfold ticket_fields in *. cbn [nth] in *.
  apply bytes32_eq in E0. apply digest_bytes_inj in E2, E5; [|done..].
  apply i32_to_be_bytes_inj in E3; [|done..]. apply asset_amount_bytes_inj in E6; [|done..].
  apply be_bytes_inj in E8, E9; [|lia..].
  assert (td_bounce t1 = td_bounce t2) by (by destruct (td_bounce t1), (td_bounce t2)).
  destruct t1, t2; simpl in *. by subst.
Qed.


(** A stand-in hash for concrete checks: the last 32 bytes of the input as a number. *)
Definition toy_sha256 : Sha256 := fun l => pad32 (be_bytes 32 (of_be l)).

Definition ex_account : bytes32 := toy_sha256 [Byte.x07].
Definition ex_ticket : TicketDigestInput :=
  {| td_record_id := ex_account; td_sender_wallet_id := bs "w";
     td_sender_address := mkCanonicalAddress 0 ex_account; td_network_global_id := 2000;
     td_endpoint_identity := bs "e"; td_destination := mkCanonicalAddress (-1) ex_account;
     td_value := NativeAmount 5; td_bounce := true; td_auth_generation := 1; td_auth_nonce := 2 |}.


(** ** Sets of rows, generically

    What the blocker and reservation sets share: rows encode injectively to
    length-prefixed bytes, and an encoding can fail in one way only. *)
Lemma prefix_row_length_Ok body x :
  prefix_row_length body = Ok x <->
  N.of_nat (length body) <= u32_max /\ x = be_bytes 4 (N.of_nat (length body)) ++ body.
Proof.
  unfold prefix_row_length, checked_field_len.
  destruct (N.leb_spec (N.of_nat (length body)) u32_max); cbn; split; naive_solver lia.
Qed.

Lemma concat_rows_inj (l k : list bytes) :
  Forall (fun x => exists body, prefix_row_length body = Ok x) l ->
  Forall (fun x => exists body, prefix_row_length body = Ok x) k ->
  concat l = concat k -> l = k.
Proof.
  intros Hl. revert k. induction Hl as [|x l (b & [Hb ->]%prefix_row_length_Ok) _ IH];
    intros k [|y k' (c & [Hc ->]%prefix_row_length_Ok) Hk]; cbn [concat]; try done.
  rewrite <- !app_assoc. intros E. apply len_prefixed_inj in E as [-> E]; [|done..].
  f_equal. by apply IH.
Qed.

Section row_sets.
Context {R K : Type} `{OrdLaws K} (key : R -> K) (enc : R -> res DigestError bytes).
Context (e : DigestError) (wf : R -> Prop).
Context (enc_cases : forall r, wf r -> enc r = Err e \/ exists body b, enc r = Ok b /\ prefix_row_length body = Ok b).
Context (enc_inj : forall r s b, wf r -> wf s -> enc r = Ok b -> enc s = Ok b -> r = s).

Definition enc_bytes (r : R) : bytes := match enc r with Ok b => b | _ => [] end.
Definition item (r : R) : K * bytes := (key r, enc_bytes r).

Lemma row_items_eq rows :
  Forall wf rows ->
  row_items key enc rows = if forallb (fun r => is_ok (enc r)) rows then Ok (item <$> rows) else Err e.
Proof.
  induction 1 as [|r rows Hr Hrows IH]; [done|]. cbn [row_items forallb].
  destruct (enc_cases r Hr) as [Er|(body & b & Er & _)]; rewrite Er; [done|].
  cbn. rewrite IH. destruct (forallb _ rows); [|done]. cbn.
  unfold item at 2, enc_bytes. by rewrite Er.
Qed.

Lemma set_blob_perm (i1 i2 : list (K * bytes)) : i1 ≡ₚ i2 -> set_blob i1 = set_blob i2.
Proof.
  intros Hp. unfold set_blob.
  assert (Hk : NoDup (fst <$> sort_by_key fst i1) <-> NoDup (fst <$> sort_by_key fst i2)).
  { by rewrite !sort_by_key_perm, Hp. }
  pose proof (adjacent_dup_false fst _ (sort_by_key_sorted fst i1)) as H1.
  pose proof (adjacent_dup_false fst _ (sort_by_key_sorted fst i2)) as H2.
  destruct (adjacent_dup fst (sort_by_key fst i1)) eqn:E1.
  - destruct (adjacent_dup fst (sort_by_key fst i2)) eqn:E2; [done|].
    pose proof (proj2 H1 (proj2 Hk (proj1 H2 eq_refl))) as Hf. discriminate Hf.
  - pose proof (proj1 H1 eq_refl) as Hn. apply Hk in Hn as Hn2. rewrite (proj2 H2 Hn2).
    rewrite sort_by_key_perm in Hn. by rewrite (sort_by_key_unique fst i1 i2 Hp Hn).
Qed.

Lemma row_set_perm rows1 rows2 :
  Forall wf rows1 -> rows1 ≡ₚ rows2 ->
  (let? items := row_items key enc rows1 in set_blob items)
  = (let? items := row_items key enc rows2 in set_blob items).
Proof.
  intros Hw Hp. rewrite !row_items_eq by (done || by rewrite <- Hp).
  replace (forallb (fun r => is_ok (enc r)) rows2) with (forallb (fun r => is_ok (enc r)) rows1).
  - destruct (forallb _ rows1); [|done]. cbn. apply set_blob_perm. by rewrite Hp.
  - apply eq_iff_eq_true. rewrite !forallb_forall. split; intros Hf x Hx; apply Hf;
      apply list_elem_of_In; apply list_elem_of_In in Hx; [by rewrite Hp|by rewrite <- Hp].
Qed.

Lemma item_prefixed r : wf r -> is_ok (enc r) = true -> exists body, prefix_row_length body = Ok (enc_bytes r).
Proof.
  intros Hr Hok. destruct (enc_cases r Hr) as [Er|(body & b & Er & Hb)]; [by rewrite Er in Hok|].
  exists body. unfold enc_bytes. by rewrite Er.
Qed.

Lemma row_set_blob rows b :
  Forall wf rows -> (let? items := row_items key enc rows in set_blob items) = Ok b ->
  exists rows', rows' ≡ₚ rows /\ Forall (fun r => wf r /\ is_ok (enc r) = true) rows'
    /\ NoDup (key <$> rows')
    /\ b = be_bytes 4 (N.of_nat (length rows')) ++ concat (enc_bytes <$> rows')
    /\ N.of_nat (length rows') <= u32_max.
Proof.
  intros Hw. rewrite row_items_eq by done. destruct (forallb _ rows) eqn:Ef; [|done].
  cbn. unfold set_blob. destruct (adjacent_dup fst (sort_by_key fst (item <$> rows))) eqn:Ed; [done|].
  intros Hb. pose proof (sort_by_key_perm fst (item <$> rows)) as Hp.
  apply (proj1 (adjacent_dup_false fst _ (sort_by_key_sorted fst _))) in Ed.
  apply Permutation_map_inv in Hp as (rows' & Hs & Hp).
  change (map item rows') with (item <$> rows') in Hs. rewrite Hs in Hb, Ed.
  exists rows'. split; [by symmetry|]. rewrite <- !list_fmap_compose in *. split; [|split; [exact Ed|]].
  - rewrite <- Hp. rewrite Forall_forall in *. rewrite forallb_forall in Ef.
    intros r Hr. split; [by apply Hw|]. apply Ef. by apply list_elem_of_In.
  - unfold assemble_set_blob in Hb. rinv Hb. unfold checked_row_count in Hm.
    rewrite length_fmap in Hm. case_match; [|done]. injection Hm as <-. bprop.
    split; [|done]. f_equal.
Qed.

Lemma row_set_inj rows1 rows2 b :
  Forall wf rows1 -> Forall wf rows2 ->
  (let? items := row_items key enc rows1 in set_blob items) = Ok b ->
  (let? items := row_items key enc rows2 in set_blob items) = Ok b ->
  rows1 ≡ₚ rows2.
Proof.
  intros W1 W2 H1 H2. apply row_set_blob in H1 as (l1 & P1 & F1 & _ & E1 & C1); [|done].
  apply row_set_blob in H2 as (l2 & P2 & F2 & _ & E2 & C2); [|done].
  rewrite <- P1, <- P2. rewrite E1 in E2.
  apply app_inj_1 in E2 as [_ E2]; [|by rewrite !length_be_bytes].
  assert (Hpre : forall l, Forall (fun r => wf r /\ is_ok (enc r) = true) l ->
    Forall (fun x => exists body, prefix_row_length body = Ok x) (enc_bytes <$> l)).
  { intros l Hl. apply Forall_fmap. eapply Forall_impl; [exact Hl|]. intros r [Hr Hok]. by apply item_prefixed. }
  apply concat_rows_inj in E2; [|by apply Hpre..].
  assert (l1 = l2) as ->; [|done].
  clear P1 P2 E1 C1 C2. revert l2 F2 E2. induction F1 as [|r l1 [Hr Hro] Hl1 IH];
    intros [|s l2] F2 E2; try done. injection E2 as Ers E2.
  inversion_clear F2 as [|?? [Hsw Hso] F2']. f_equal; [|by apply IH].
  apply is_ok_true in Hro, Hso. destruct Hro as [x1 Hx], Hso as [y1 Hy].
  unfold enc_bytes in Ers. rewrite Hx, Hy in Ers. subst y1. by eapply enc_inj.
Qed.
End row_sets.

(** ** Blocker sets *)
Definition blocker_enc (row : BlockerRow) : res DigestError bytes :=
  blocker_row_bytes (br_record_id row) (br_evidence row) (br_external_hash row).

Lemma frame_small tag f : (length f <= 200)%nat ->
  frame tag f = Ok (be_bytes 2 tag ++ be_bytes 4 (N.of_nat (length f)) ++ f).
Proof. intros H. apply frame_Ok. split; [unfold u32_max; lia|done]. Qed.

Lemma prefix_small body : (length body <= 1000)%nat ->
  prefix_row_length body = Ok (be_bytes 4 (N.of_nat (length body)) ++ body).
Proof. intros H. apply prefix_row_length_Ok. split; [unfold u32_max; lia|done]. Qed.

Ltac len_solve :=
  rewrite ?length_app, ?length_be_bytes, ?length_as_bytes; cbn [length]; lia.

Lemma blocker_enc_cases row :
  blocker_enc row = Err NonBlockingEvidence
  \/ exists body b, blocker_enc row = Ok b /\ prefix_row_length body = Ok b.
Proof.
  unfold blocker_enc, blocker_row_bytes. destruct (tag_is_blocking (br_evidence row)); [right|by left].
  cbn [negb]. rewrite !frame_small by (rewrite ?length_as_bytes; cbn [length]; lia). cbn [rbind].
  match goal with |- context [prefix_row_length ?b] =>
    exists b, (be_bytes 4 (N.of_nat (length b)) ++ b) end.
  split; apply prefix_small; len_solve.
Qed.

Lemma blocker_enc_inj r s b : blocker_enc r = Ok b -> blocker_enc s = Ok b -> r = s.
Proof.
  unfold blocker_enc, blocker_row_bytes. intros H1 H2. rinv H1. rinv H2.
  apply prefix_row_length_Ok in H1 as [B1 ->], H2 as [B2 E].
  apply len_prefixed_inj_end in E; [|done..].
  destruct (frame_inj _ _ _ _ _ _ _ Hm Hm2 E) as [Eid E'].
  destruct (frame_inj _ _ _ _ _ _ _ Hm0 Hm3 E') as [Et E''].
  subst a4. pose proof (frame_inj_end _ _ _ _ Hm1 Hm4) as Eh.
  apply bytes32_eq in Eid, Eh. injection Et as Et.
  destruct r as [? t ?], s as [? t' ?]; simpl in *. subst. f_equal.
  by destruct t, t'.
Qed.

(** The digest of a blocker set, error or value, does not depend on the order the
    rows are listed in. *)
Lemma blocker_set_digest_perm `{Sha256} (rows1 rows2 : list BlockerRow) :
  rows1 ≡ₚ rows2 -> blocker_set_digest rows1 = blocker_set_digest rows2.
Proof.
  intros Hp. unfold blocker_set_digest, blocker_set_blob.
  rewrite (row_set_perm br_record_id blocker_enc NonBlockingEvidence (fun _ => True)
    (fun r _ => blocker_enc_cases r) rows1 rows2); [done| |done].
  by apply Forall_true.
Qed.

Definition ex_row (n : N) (t : EvidenceTag) : BlockerRow :=
  mkBlockerRow (pad32 [byte_of n]) t (pad32 [byte_of (n + 1)]).

Lemma blocker_set_digest_perm_witness :
  @blocker_set_digest toy_sha256 [ex_row 1 TagPrepared; ex_row 2 TagMayHaveBroadcast]
  = @blocker_set_digest toy_sha256 [ex_row 2 TagMayHaveBroadcast; ex_row 1 TagPrepared].
Proof. apply (@blocker_set_digest_perm toy_sha256). apply perm_swap. Defined.

(** ** Reservation sets *)
Definition reservation_enc (row : Reservation) : res DigestError bytes :=
  reservation_row_bytes (r_record_id row) (r_amount row) (r_kind row).

Definition wf_reservation (row : Reservation) : Prop := wf_amount (r_amount row).

Lemma length_asset_amount_bytes a : wf_amount a -> (length (asset_amount_bytes a) <= 110)%nat.
Proof.
  intros Ha. assert (Hd : (length (print_dec (units_of a)) <= 75)%nat).
  { apply length_decimal_u8. destruct a as [u|id u]; cbn in *; [|by apply Ha].
    rewrite NATIVE_MAX_UNITS_val in Ha. eapply N.le_lt_trans; [exact Ha|by vm_compute]. }
  unfold asset_amount_bytes, push_len_prefixed_decimal, to_canonical_decimal.
  change (length AMOUNT_DOMAIN) with 26%nat.
  assert (Hdom : length AMOUNT_DOMAIN = 26%nat) by by vm_compute.
  destruct a; rewrite !length_app, ?length_be_bytes, Hdom; cbn [length units_of] in *; lia.
Qed.

Lemma reservation_enc_cases row :
  wf_reservation row ->
  reservation_enc row = Err NativeFeeRequiresNativeAmount
  \/ exists body b, reservation_enc row = Ok b /\ prefix_row_length body = Ok b.
Proof.
  intros Hw. pose proof (length_asset_amount_bytes _ Hw) as Hl.
  unfold reservation_enc, reservation_row_bytes. destruct (_ && _); [by left|right].
  rewrite !frame_small by (rewrite ?length_as_bytes; cbn [length]; lia). cbn [rbind].
  match goal with |- context [prefix_row_length ?b] =>
    exists b, (be_bytes 4 (N.of_nat (length b)) ++ b) end.
  split; apply prefix_small; len_solve.
Qed.

Lemma reservation_enc_inj r s b :
  wf_reservation r -> wf_reservation s ->
  reservation_enc r = Ok b -> reservation_enc s = Ok b -> r = s.
Proof.
  unfold reservation_enc, reservation_row_bytes. intros Wr Ws H1 H2. rinv H1. rinv H2.
  apply prefix_row_length_Ok in H1 as [B1 ->], H2 as [B2 E].
  apply len_prefixed_inj_end in E; [|done..].
  destruct (frame_inj _ _ _ _ _ _ _ Hm Hm2 E) as [Eid E'].
  destruct (frame_inj _ _ _ _ _ _ _ Hm0 Hm3 E') as [Ea E''].
  subst a4. pose proof (frame_inj_end _ _ _ _ Hm1 Hm4) as Ek.
  apply bytes32_eq in Eid. apply asset_amount_bytes_inj in Ea; [|done..]. injection Ek as Ek.
  destruct r as [? ? k], s as [? ? k']; simpl in *. subst. f_equal. by destruct k, k'.
Qed.

Lemma reservation_set_blob_inj rows1 rows2 b :
  Forall wf_reservation rows1 -> Forall wf_reservation rows2 ->
  reservation_set_blob rows1 = Ok b -> reservation_set_blob rows2 = Ok b -> rows1 ≡ₚ rows2.
Proof.
  apply (row_set_inj reservation_key reservation_enc NativeFeeRequiresNativeAmount wf_reservation
    reservation_enc_cases reservation_enc_inj).
Qed.

Lemma reservation_like_set_digest_perm `{Sha256} kind rows1 rows2 :
  Forall wf_reservation rows1 -> rows1 ≡ₚ rows2 ->
  reservation_like_set_digest kind rows1 = reservation_like_set_digest kind rows2.
Proof.
  intros Hw Hp. unfold reservation_like_set_digest, reservation_set_blob.
  by rewrite (row_set_perm reservation_key reservation_enc NativeFeeRequiresNativeAmount wf_reservation
    reservation_enc_cases rows1 rows2).
Qed.

(** A reservation-set digest stands for one multiset of rows, whatever their
    order: permuted rows have the same digest, and two sets with the same digest are
    permutations of each other or exhibit a SHA-256 collision. *)
Lemma reservation_set_digest_binding `{Sha256} (rows1 rows2 : list Reservation) (d : Digest32) :
  Forall wf_reservation rows1 -> Forall wf_reservation rows2 ->
  (rows1 ≡ₚ rows2 -> reservation_set_digest rows1 = reservation_set_digest rows2)
  /\ (reservation_set_digest rows1 = Ok d -> reservation_set_digest rows2 = Ok d ->
      rows1 ≡ₚ rows2
      \/ exists b1 b2 p1 p2, reservation_set_blob rows1 = Ok b1 /\ reservation_set_blob rows2 = Ok b2
           /\ digest_preimage ReservationSet [b1] = Ok p1 /\ digest_preimage ReservationSet [b2] = Ok p2
           /\ p1 <> p2 /\ sha256 p1 = sha256 p2).
Proof.
  intros W1 W2. split; [by apply reservation_like_set_digest_perm|].
  unfold reservation_set_digest, reservation_like_set_digest, digest. intros H1 H2.
  apply rbind_Ok in H1 as (b1 & Hb1 & H1). apply rbind_Ok in H1 as (p1 & Hp1 & H1).
  apply rbind_Ok in H2 as (b2 & Hb2 & H2). apply rbind_Ok in H2 as (p2 & Hp2 & H2).
  destruct (decide (p1 = p2)) as [<-|Hne].
  - left. destruct (digest_preimage_inj _ _ _ _ _ Hp1 Hp2) as [_ [= <-]].
    by eapply reservation_set_blob_inj.
  - right. exists b1, b2, p1, p2. repeat (split; [done|]). congruence.
Qed.

Definition ex_res (n : N) (k : ReservationKind) : Reservation :=
  mkReservation (pad32 [byte_of n]) (NativeAmount n) k.

Lemma reservation_set_digest_binding_witness :
  @reservation_set_digest toy_sha256 [ex_res 1 Transfer; ex_res 1 NativeFee]
  = @reservation_set_digest toy_sha256 [ex_res 1 NativeFee; ex_res 1 Transfer].
Proof.
  apply (@reservation_set_digest_binding toy_sha256 _ _ (pad32 []));
    [repeat constructor; by vm_compute..|apply perm_swap].
Defined.
