(* ===== verification/Affordability.v ===== *)
(** * Affordability (crates/cc-wallet-domain/src/affordability.rs)

    Whether the balances cover a request on top of the reservations that stay
    outstanding: a report per asset, computed with unbounded integers, and the proof
    that its verdict is the arithmetic one. *)

From Stdlib Require Import NArith Lia Sorting.
From S2P Require Import Prelude Ord Bytes Ids Asset Amount Digest.

Inductive AffordabilityError :=
| DuplicateAsset (asset : AssetId)
| DuplicateReservation
| DuplicateOverlap
| OverlapRowNotReserved.

Record AssetAffordability := {
  aa_asset : AssetId;
  aa_balance : AssetAmount;
  aa_reserved : option AssetAmount;
  aa_available : option AssetAmount;
  aa_requested : AssetAmount;
  aa_reservation_components : list AssetAmount;
  aa_worst_case : option AssetAmount;
  aa_sufficient : bool;
  aa_worst_case_warns : bool
}.

(** [AffordabilityReport { outcomes }]. *)
Definition AffordabilityReport : Type := list AssetAffordability.

Definition is_sufficient (o : AssetAffordability) : bool := aa_sufficient o.

Definition is_affordable (report : AffordabilityReport) : bool := forallb is_sufficient report.

Definition outcome (report : AffordabilityReport) (asset : AssetId) : option AssetAffordability :=
  find (fun o => bool_decide (aa_asset o = asset)) report.

Definition zero_amount {E} (asset : AssetId) : res E AssetAmount :=
  match asset with
  | Native => rexpect (amount_native 0)
  | CurrencyCollection id => Ok (currency_collection id cc_zero)
  end.

Definition amount_to_biguint {E} (a : AssetAmount) : res E N :=
  match native_units a with
  | Some units => Ok units
  | None =>
      let? units := expect (cc_units a) in
      let? raw := rexpect (cc_to_be_bytes_31 units) in
      Ok (of_be raw)
  end.

Definition biguint_to_amount (value : N) (asset : AssetId) : option AssetAmount :=
  match asset with
  | Native =>
      if value <=? u128_max then
        match amount_native value with Ok a => Some a | _ => None end
      else None
  | CurrencyCollection id =>
      let raw := biguint_to_bytes_be value in
      if (31 <? length raw)%nat then None
      else Some (currency_collection id
             (cc_from_be_bytes_31 (repeat Byte.x00 (31 - length raw) ++ raw)))
  end.

(** The loop of [index_by_asset], from the map built so far. *)
Fixpoint index_from (map : btree AssetId AssetAmount) (amounts : list AssetAmount)
  : res AffordabilityError (btree AssetId AssetAmount) :=
  match amounts with
  | [] => Ok map
  | amount :: amounts' =>
      if bt_contains (asset_id amount) map then Err (DuplicateAsset (asset_id amount))
      else index_from (bt_insert (asset_id amount) amount map) amounts'
  end.

Definition index_by_asset (amounts : list AssetAmount) :
  res AffordabilityError (btree AssetId AssetAmount) := index_from [] amounts.

Fixpoint has_duplicate_rows (rows : list Reservation) : bool :=
  match rows with
  | [] => false
  | row :: rows' => bool_decide (row ∈ rows') || has_duplicate_rows rows'
  end.

(** The loop over the reservations of one asset: the sum of all, the sum and the list of
    those the new send does not replace. *)
Fixpoint sum_rows (asset : AssetId) (overlap reservations : list Reservation)
    (acc : N * N * list AssetAmount) : res AffordabilityError (N * N * list AssetAmount) :=
  match reservations with
  | [] => Ok acc
  | row :: rows =>
      if bool_decide (asset_id (r_amount row) = asset) then
        let '(all_big, reserved_big, components) := acc in
        let? value := amount_to_biguint (r_amount row) in
        if bool_decide (row ∈ overlap)
        then sum_rows asset overlap rows (all_big + value, reserved_big, components)
        else sum_rows asset overlap rows
               (all_big + value, reserved_big + value, components ++ [r_amount row])
      else sum_rows asset overlap rows acc
  end.

Definition is_le (c : comparison) : bool := match c with Gt => false | _ => true end.

(** The body of the loop over the relevant assets. *)
Definition evaluate_asset (balances requested : btree AssetId AssetAmount)
    (reservations overlap : list Reservation) (asset : AssetId)
  : res AffordabilityError AssetAffordability :=
  let? b := match bt_get asset balances with Some a => Ok a | None => zero_amount asset end in
  let? n := match bt_get asset requested with Some a => Ok a | None => zero_amount asset end in
  let? (all_big, reserved_big, components) := sum_rows asset overlap reservations (0, 0, []) in
  let reserved := biguint_to_amount reserved_big asset in
  let? available :=
    match reserved with
    | Some s =>
        let? c := rexpect (cmp_same_asset s b) in
        if is_le c then let? d := rexpect (checked_sub_same_asset b s) in Ok (Some d)
        else Ok None
    | None => Ok None
    end in
  let? n_big := amount_to_biguint n in
  let worst_case := biguint_to_amount (all_big + n_big) asset in
  let? worst_case_warns :=
    match worst_case with
    | None => Ok true
    | Some w => let? c := rexpect (cmp_same_asset w b) in Ok (bool_decide (c = Gt))
    end in
  let? sufficient :=
    match available with
    | Some a =>
        let? c := rexpect (cmp_same_asset n b) in
        if is_le c then let? c' := rexpect (cmp_same_asset n a) in Ok (is_le c') else Ok false
    | None => Ok false
    end in
  Ok {| aa_asset := asset; aa_balance := b; aa_reserved := reserved; aa_available := available;
        aa_requested := n; aa_reservation_components := components; aa_worst_case := worst_case;
        aa_sufficient := sufficient; aa_worst_case_warns := worst_case_warns |}.

Fixpoint evaluate_assets (balances requested : btree AssetId AssetAmount)
    (reservations overlap : list Reservation) (relevant : list AssetId)
  : res AffordabilityError AffordabilityReport :=
  match relevant with
  | [] => Ok []
  | asset :: relevant' =>
      let? o := evaluate_asset balances requested reservations overlap asset in
      let? rest := evaluate_assets balances requested reservations overlap relevant' in
      Ok (o :: rest)
  end.

(** The [BTreeSet] of the assets a report speaks of. *)
Definition relevant_assets (requested : btree AssetId AssetAmount) (reservations : list Reservation)
  : list AssetId :=
  let set := foldl (fun s row => bt_insert (asset_id (r_amount row)) tt s) [] reservations in
  bt_keys (foldl (fun s asset => bt_insert asset tt s) set (bt_keys requested)).

Definition evaluate_affordability (balances : list AssetAmount) (reservations overlap : list Reservation)
    (requested : list AssetAmount) : res AffordabilityError AffordabilityReport :=
  let? balances := index_by_asset balances in
  let? requested := index_by_asset requested in
  check negb (has_duplicate_rows reservations) else DuplicateReservation ;;
  check negb (has_duplicate_rows overlap) else DuplicateOverlap ;;
  check forallb (fun row => bool_decide (row ∈ reservations)) overlap else OverlapRowNotReserved ;;
  evaluate_assets balances requested reservations overlap (relevant_assets requested reservations).

(** ** The conversions *)
Lemma zero_amount_ok {E} asset :
  exists z, @zero_amount E asset = Ok z /\ asset_id z = asset /\ units_of z = 0 /\ in_domain z.
Proof.
  destruct asset as [|id]; [exists (NativeAmount 0)|exists (CcAssetAmount id cc_zero)];
    repeat split; by vm_compute.
Qed.

Lemma amount_to_biguint_ok {E} a : in_domain a -> @amount_to_biguint E a = Ok (units_of a).
Proof.
  destruct a as [u|id u]; [done|]. intros H. unfold amount_to_biguint. cbn [native_units cc_units expect rbind].
  destruct (cc_be_bytes_31_ok u H) as (l & -> & _ & <-). done.
Qed.

Definition domain_bound (asset : AssetId) : N := match asset with Native => 2 ^ 120 | _ => CC_BOUND end.

Lemma in_domain_below a : in_domain a <-> units_of a < domain_bound (asset_id a).
Proof. apply in_domain_bound. Qed.

Lemma biguint_bytes_short v : (length (biguint_to_bytes_be v) <= 31)%nat -> v < CC_BOUND.
Proof.
  intros H. rewrite <- (of_be_biguint_bytes v). eapply N.lt_le_trans; [apply of_be_bound|].
  change CC_BOUND with (256 ^ 31). apply N.pow_le_mono_r; lia.
Qed.

Lemma biguint_to_amount_spec v asset :
  match biguint_to_amount v asset with
  | Some a => asset_id a = asset /\ units_of a = v /\ in_domain a
  | None => domain_bound asset <= v
  end.
Proof.
  destruct asset as [|id]; cbn [biguint_to_amount domain_bound].
  - unfold amount_native. rewrite NATIVE_MAX_UNITS_val.
    assert (2 ^ 120 <= u128_max) by by vm_compute.
    destruct (N.leb_spec v u128_max); [|lia].
    destruct (N.ltb_spec (2 ^ 120 - 1) v); [lia|].
    repeat split. cbn. by rewrite NATIVE_MAX_UNITS_val.
  - destruct (Nat.ltb_spec 31 (length (biguint_to_bytes_be v))) as [Hl|Hl].
    + destruct (N.lt_ge_cases v CC_BOUND) as [Hv|Hv]; [|done].
      apply length_biguint_bytes in Hv. lia.
    + unfold cc_from_be_bytes_31, currency_collection. rewrite of_be_zeros, of_be_biguint_bytes.
      repeat split. by apply biguint_bytes_short.
Qed.

(** ** The maps *)
Definition units_for (asset : AssetId) (amounts : list AssetAmount) : N :=
  foldr (fun a total => (if bool_decide (asset_id a = asset) then units_of a else 0) + total) 0 amounts.

Lemma units_for_absent asset l : asset ∉ asset_id <$> l -> units_for asset l = 0.
Proof.
  induction l as [|a l IH]; [done|]. rewrite fmap_cons, not_elem_of_cons. intros [Hne Hl].
  cbn [units_for foldr]. rewrite bool_decide_eq_false_2 by congruence. by apply IH.
Qed.

Lemma index_from_Ok l m m' :
  index_from m l = Ok m' ->
  forall asset,
    match bt_get asset m' with
    | Some a => bt_get asset m = Some a /\ units_for asset l = 0
                \/ bt_get asset m = None /\ a ∈ l /\ asset_id a = asset /\ units_for asset l = units_of a
    | None => bt_get asset m = None /\ units_for asset l = 0
    end.
Proof.
  revert m. induction l as [|x l IH]; intros m; cbn [index_from].
  - intros [= <-] asset. destruct (bt_get asset m); [left|]; done.
  - destruct (bt_contains (asset_id x) m) eqn:Hc; [done|]. intros H asset.
    specialize (IH _ H asset). cbn [units_for foldr]. fold (units_for asset l).
    assert (Hx : bt_get (asset_id x) m = None) by (unfold bt_contains in Hc; by destruct (bt_get (asset_id x) m)).
    destruct (decide (asset_id x = asset)) as [<-|Hne].
    + rewrite bool_decide_eq_true_2 by done. rewrite bt_get_insert_eq in IH.
      destruct (bt_get (asset_id x) m') as [a|]; [|by destruct IH].
      destruct IH as [[[= <-] ->]|[? _]]; [|done]. right.
      repeat split; [done|left|lia].
    + rewrite bool_decide_eq_false_2 by done. rewrite bt_get_insert_ne in IH by done.
      destruct (bt_get asset m') as [a|]; [|exact IH].
      destruct IH as [[-> ->]|(-> & ? & ? & ->)]; [by left|right].
      repeat split; [by right|done].
Qed.

Lemma index_from_outcome l m :
  (exists m', index_from m l = Ok m')
    /\ NoDup (asset_id <$> l) /\ (forall a, a ∈ l -> asset_id a ∉ bt_keys m)
  \/ (exists asset, index_from m l = Err (DuplicateAsset asset))
     /\ ~ (NoDup (asset_id <$> l) /\ (forall a, a ∈ l -> asset_id a ∉ bt_keys m)).
Proof.
  revert m. induction l as [|x l IH]; intros m; cbn [index_from].
  - left. split; [by eexists|]. split; [constructor|]. by intros a ?%elem_of_nil.
  - destruct (bt_contains (asset_id x) m) eqn:Hc.
    { right. split; [by eexists|]. apply bt_contains_true in Hc. intros [_ Hn]. by apply (Hn x); [left|]. }
    assert (Hx : asset_id x ∉ bt_keys m) by (rewrite <- bt_contains_true, Hc; done).
    assert (Hk : forall y, y ∈ bt_keys (bt_insert (asset_id x) x m) <-> y = asset_id x \/ y ∈ bt_keys m)
      by apply bt_keys_insert.
    destruct (IH (bt_insert (asset_id x) x m)) as [(Hok & Hn & Hd)|(Herr & Hn)]; [left|right]; (split; [done|]).
    + split.
      * rewrite fmap_cons, NoDup_cons. split; [|done]. rewrite list_elem_of_fmap.
        intros (y & Hy & Hin). apply (Hd y Hin), Hk. by left.
      * intros a [->|Ha]%elem_of_cons; [done|]. intros Hin. apply (Hd a Ha), Hk. by right.
    + rewrite fmap_cons, NoDup_cons. intros [[Hnx Hnl] Hd]. apply Hn. split; [done|].
      intros a Ha Hin. apply Hk in Hin as [Heq|Hin].
      * apply Hnx. rewrite <- Heq. by apply list_elem_of_fmap_2.
      * apply (Hd a); [by right|done].
Qed.

Lemma index_by_asset_outcome l :
  (exists m, index_by_asset l = Ok m) /\ NoDup (asset_id <$> l)
  \/ (exists asset, index_by_asset l = Err (DuplicateAsset asset)) /\ ~ NoDup (asset_id <$> l).
Proof.
  assert (Hd : forall a, a ∈ l -> asset_id a ∉ bt_keys (V := AssetAmount) []) by (intros; apply not_elem_of_nil).
  destruct (index_from_outcome l []) as [(? & ? & _)|[? ?]]; [left|right]; naive_solver.
Qed.

(** What the maps give the loop for an asset: an amount of it, of the listed units. *)
Lemma index_lookup l m asset :
  Forall in_domain l -> index_by_asset l = Ok m ->
  exists a, match bt_get asset m with Some a => Ok a | None => zero_amount asset end
              = @Ok AffordabilityError _ a
    /\ asset_id a = asset /\ units_of a = units_for asset l /\ in_domain a.
Proof.
  intros Hl Hm. pose proof (index_from_Ok _ _ _ Hm asset) as H.
  destruct (bt_get asset m) as [a|].
  - destruct H as [[? _]|(_ & Hin & Ha & ->)]; [done|]. exists a. repeat split; [done|].
    by eapply Forall_forall in Hl.
  - destruct H as [_ ->]. apply zero_amount_ok.
Qed.

Lemma has_duplicate_rows_false rows : has_duplicate_rows rows = false <-> NoDup rows.
Proof.
  induction rows as [|r rows IH]; cbn [has_duplicate_rows]; [split; [constructor|done]|].
  by rewrite orb_false_iff, bool_decide_eq_false, NoDup_cons, IH.
Qed.

Lemma elem_of_insert_all {A} (f : A -> AssetId) (l : list A) (s : btree AssetId unit) k :
  k ∈ bt_keys (foldl (fun s x => bt_insert (f x) tt s) s l) <-> k ∈ bt_keys s \/ k ∈ f <$> l.
Proof.
  revert s. induction l as [|x l IH]; intros s; cbn [foldl]; [rewrite elem_of_nil; tauto|].
  rewrite IH, fmap_cons, elem_of_cons, bt_keys_insert. tauto.
Qed.

Lemma relevant_assets_spec m reservations asset :
  asset ∈ relevant_assets m reservations
  <-> asset ∈ asset_id <$> (r_amount <$> reservations) \/ asset ∈ bt_keys m.
Proof.
  unfold relevant_assets. rewrite (elem_of_insert_all id), (elem_of_insert_all (asset_id ∘ r_amount)).
  rewrite list_fmap_id, <- list_fmap_compose. cbn. rewrite elem_of_nil. tauto.
Qed.

(** ** The report of one asset *)
Definition outstanding (overlap reservations : list Reservation) : list AssetAmount :=
  r_amount <$> filter (fun row => row ∉ overlap) reservations.

Lemma sum_rows_ok asset overlap rows x y c :
  Forall in_domain (r_amount <$> rows) ->
  sum_rows asset overlap rows (x, y, c)
  = Ok (x + units_for asset (r_amount <$> rows), y + units_for asset (outstanding overlap rows),
        c ++ filter (fun a => asset_id a = asset) (outstanding overlap rows)).
Proof.
  revert x y c. induction rows as [|row rows IH]; intros x y c H.
  - cbn. by rewrite !N.add_0_r, app_nil_r.
  - rewrite fmap_cons, Forall_cons in H. destruct H as [Hr H].
    cbn [sum_rows]. rewrite fmap_cons. cbn [units_for foldr]. fold (units_for asset (r_amount <$> rows)).
    unfold outstanding. rewrite filter_cons.
    destruct (decide (asset_id (r_amount row) = asset)) as [Ha|Ha].
    + rewrite bool_decide_eq_true_2 by done. rewrite amount_to_biguint_ok by done. cbn [rbind].
      destruct (decide (row ∈ overlap)) as [Ho|Ho].
      * rewrite bool_decide_eq_true_2 by done. rewrite (decide_False (P := row ∉ overlap)) by tauto. rewrite IH by done.
        fold (outstanding overlap rows). by rewrite N.add_assoc.
      * rewrite bool_decide_eq_false_2 by done. rewrite decide_True by done. rewrite IH by done.
        fold (outstanding overlap rows). rewrite fmap_cons, filter_cons, decide_True by done.
        cbn [units_for foldr]. rewrite bool_decide_eq_true_2 by done.
        fold (outstanding overlap rows). fold (units_for asset (outstanding overlap rows)).
        by rewrite !N.add_assoc, <- app_assoc.
    + rewrite bool_decide_eq_false_2 by done. rewrite IH by done.
      fold (outstanding overlap rows). rewrite N.add_0_l.
      destruct (decide (row ∈ overlap)) as [Ho|Ho].
      * by rewrite (decide_False (P := row ∉ overlap)) by tauto.
      * rewrite decide_True by done. rewrite fmap_cons, filter_cons, (decide_False (P := _ = asset)) by done.
        cbn [units_for foldr]. by rewrite bool_decide_eq_false_2 by done.
Qed.

(** The arithmetic a row of the report stands for: balance [b], request [n], reserved
    [r], all reservations [t]. *)
Definition outcome_for (asset : AssetId) (b n r t : N) (o : AssetAffordability) : Prop :=
  aa_asset o = asset
  /\ units_of (aa_balance o) = b /\ units_of (aa_requested o) = n
  /\ (units_of <$> aa_available o) = (if r <=? b then Some (b - r) else None)
  /\ aa_sufficient o = (n + r <=? b)
  /\ aa_worst_case_warns o = (b <? n + t).

Lemma is_le_compare a b : is_le (a ?= b) = (a <=? b).
Proof. destruct (N.compare_spec a b), (N.leb_spec a b); try done; lia. Qed.

Lemma gt_compare a b : bool_decide ((a ?= b) = Gt) = (b <? a).
Proof. destruct (N.compare_spec a b), (N.ltb_spec b a); try done; lia. Qed.

Lemma available_ok asset b r :
  in_domain b -> asset_id b = asset ->
  exists av,
    match biguint_to_amount r asset with
    | Some s =>
        let? c := rexpect (cmp_same_asset s b) in
        if is_le c then let? d := rexpect (checked_sub_same_asset b s) in Ok (Some d)
        else Ok None
    | None => Ok None
    end = @Ok AffordabilityError _ av
    /\ match av with
       | Some a => asset_id a = asset /\ r <= units_of b /\ units_of a = units_of b - r
       | None => units_of b < r
       end.
Proof.
  intros Hb Ha. pose proof (biguint_to_amount_spec r asset) as Hr.
  destruct (biguint_to_amount r asset) as [s|].
  - destruct Hr as (Hs & Hu & Hd). rewrite cmp_same_asset_units by congruence. cbn [rexpect rbind].
    rewrite is_le_compare, Hu. destruct (N.leb_spec r (units_of b)) as [Hle|Hle].
    + rewrite checked_sub_ok by (congruence || lia). cbn [rexpect rbind]. eexists. split; [done|].
      rewrite Hu. destruct b; cbn in *; naive_solver.
    + eexists. split; [done|]. done.
  - exists None. split; [done|]. apply in_domain_below in Hb. rewrite Ha in Hb. by eapply N.lt_le_trans.
Qed.

Lemma worst_case_ok asset b v :
  in_domain b -> asset_id b = asset ->
  match biguint_to_amount v asset with
  | None => Ok true
  | Some w => let? c := rexpect (cmp_same_asset w b) in Ok (bool_decide (c = Gt))
  end = @Ok AffordabilityError _ (units_of b <? v).
Proof.
  intros Hb Ha. pose proof (biguint_to_amount_spec v asset) as Hv.
  destruct (biguint_to_amount v asset) as [w|].
  - destruct Hv as (Hw & Hu & Hd). rewrite cmp_same_asset_units by congruence. cbn [rexpect rbind].
    by rewrite gt_compare, Hu.
  - apply in_domain_below in Hb. rewrite Ha in Hb. rewrite (proj2 (N.ltb_lt _ _)); [done|]. by eapply N.lt_le_trans.
Qed.

Lemma sufficient_ok b n av r :
  asset_id n = asset_id b ->
  match av with
  | Some a => asset_id a = asset_id b /\ r <= units_of b /\ units_of a = units_of b - r
  | None => units_of b < r
  end ->
  match av with
  | Some a =>
      let? c := rexpect (cmp_same_asset n b) in
      if is_le c then let? c' := rexpect (cmp_same_asset n a) in Ok (is_le c') else Ok false
  | None => Ok false
  end = @Ok AffordabilityError _ (units_of n + r <=? units_of b).
Proof.
  intros Hn Hav. destruct av as [a|].
  - destruct Hav as (Ha & Hr & Hu). rewrite !cmp_same_asset_units by congruence. cbn [rexpect rbind].
    rewrite !is_le_compare, Hu. destruct (N.leb_spec (units_of n) (units_of b)).
    + f_equal. apply eq_true_iff_eq. rewrite !N.leb_le. lia.
    + rewrite (proj2 (N.leb_gt _ _)); [done|lia].
  - rewrite (proj2 (N.leb_gt _ _)); [done|lia].
Qed.

Section report.
Context (balances requested : list AssetAmount) (reservations overlap : list Reservation).
Hypothesis Hbal : Forall in_domain balances.
Hypothesis Hreq : Forall in_domain requested.
Hypothesis Hres : Forall in_domain (r_amount <$> reservations).

(** The row the report must hold for an asset. *)
Definition row_spec (asset : AssetId) : AssetAffordability -> Prop :=
  outcome_for asset (units_for asset balances) (units_for asset requested)
    (units_for asset (outstanding overlap reservations))
    (units_for asset (r_amount <$> reservations)).

Lemma evaluate_asset_ok bm rm asset :
  index_by_asset balances = Ok bm -> index_by_asset requested = Ok rm ->
  exists o, evaluate_asset bm rm reservations overlap asset = Ok o /\ row_spec asset o.
Proof.
  intros Hbm Hrm. unfold evaluate_asset.
  destruct (index_lookup _ _ asset Hbal Hbm) as (b & -> & Hba & Hbu & Hbd).
  destruct (index_lookup _ _ asset Hreq Hrm) as (n & -> & Hna & Hnu & Hnd). cbn [rbind].
  rewrite sum_rows_ok by done. cbn [rbind]. rewrite !N.add_0_l.
  destruct (available_ok asset b (units_for asset (outstanding overlap reservations)) Hbd Hba)
    as (av & Hav & Hspec). rewrite Hav. cbn [rbind].
  rewrite amount_to_biguint_ok by done. cbn [rbind].
  rewrite worst_case_ok by done. cbn [rbind].
  rewrite (sufficient_ok b n av (units_for asset (outstanding overlap reservations)))
    by (congruence || (destruct av; [rewrite Hba|]; exact Hspec)).
  cbn [rbind]. eexists. split; [done|]. unfold row_spec, outcome_for. cbn.
  rewrite <- Hbu, <- Hnu. rewrite (N.add_comm (units_of n) (units_for asset (r_amount <$> reservations))).
  repeat split. destruct av as [a|]; cbn.
  - destruct Hspec as (_ & Hle & ->). by rewrite (proj2 (N.leb_le _ _) Hle).
  - by rewrite (proj2 (N.leb_gt _ _) Hspec).
Qed.

Lemma evaluate_assets_ok bm rm relevant :
  index_by_asset balances = Ok bm -> index_by_asset requested = Ok rm ->
  exists report, evaluate_assets bm rm reservations overlap relevant = Ok report
    /\ Forall2 row_spec relevant report.
Proof.
  intros Hbm Hrm. induction relevant as [|asset relevant IH]; cbn [evaluate_assets].
  - eexists. split; [done|constructor].
  - destruct (evaluate_asset_ok _ _ asset Hbm Hrm) as (o & -> & Ho).
    destruct IH as (report & -> & Hr). eexists. split; [done|]. by constructor.
Qed.

Lemma Forall2_affordable relevant report :
  Forall2 row_spec relevant report ->
  is_affordable report = true <->
  forall asset, asset ∈ relevant ->
    units_for asset requested + units_for asset (outstanding overlap reservations)
    <= units_for asset balances.
Proof.
  induction 1 as [|asset o relevant report Ho _ IH]; [split; [by intros _ ? ?%elem_of_nil|done]|].
  cbn [is_affordable forallb]. fold (is_affordable report). rewrite andb_true_iff, IH.
  destruct Ho as (_ & _ & _ & _ & Hs & _). unfold is_sufficient. rewrite Hs, N.leb_le.
  split.
  - intros [H1 H2] a [->|Ha]%elem_of_cons; [done|by apply H2].
  - intros H. split; [apply H; left|]. intros a Ha. apply H. by right.
Qed.
End report.

(** What the inputs must be for the code to evaluate them. *)
Definition wf_inputs (balances : list AssetAmount) (reservations overlap : list Reservation)
    (requested : list AssetAmount) : Prop :=
  NoDup (asset_id <$> balances) /\ NoDup (asset_id <$> requested)
  /\ NoDup reservations /\ NoDup overlap /\ (forall row, row ∈ overlap -> row ∈ reservations).

Lemma overlap_rows_reserved (overlap reservations : list Reservation) :
  forallb (fun row : Reservation => bool_decide (row ∈ reservations)) overlap = true
  <-> forall row, row ∈ overlap -> row ∈ reservations.
Proof.
  rewrite forallb_forall. split; intros H row Hrow.
  - by apply (bool_decide_eq_true_1 (row ∈ reservations)), H, list_elem_of_In.
  - by apply (bool_decide_eq_true_2 (row ∈ reservations)), H, list_elem_of_In.
Qed.

Lemma evaluate_affordability_report balances reservations overlap requested :
  Forall in_domain balances -> Forall in_domain requested -> Forall in_domain (r_amount <$> reservations) ->
  (wf_inputs balances reservations overlap requested
   /\ exists bm rm report,
        index_by_asset balances = Ok bm /\ index_by_asset requested = Ok rm
        /\ evaluate_affordability balances reservations overlap requested = Ok report
        /\ Forall2 (row_spec balances requested reservations overlap)
             (relevant_assets rm reservations) report)
  \/ (~ wf_inputs balances reservations overlap requested
      /\ is_err (evaluate_affordability balances reservations overlap requested) = true).
Proof.
  intros Hb Hq Hr. unfold evaluate_affordability, wf_inputs.
  destruct (index_by_asset_outcome balances) as [[[bm Hbm] Hnb]|[[a Ha] Hnb]];
    [rewrite Hbm|rewrite Ha; right; tauto]. cbn [rbind].
  destruct (index_by_asset_outcome requested) as [[[rm Hrm] Hnq]|[[a Ha] Hnq]];
    [rewrite Hrm|rewrite Ha; right; tauto]. cbn [rbind].
  rewrite <- !has_duplicate_rows_false, <- overlap_rows_reserved.
  destruct (has_duplicate_rows reservations); [right; split; [naive_solver|done]|].
  destruct (has_duplicate_rows overlap); [right; split; [naive_solver|done]|].
  destruct (forallb _ overlap); [|right; split; [naive_solver|done]].
  left. split; [done|]. cbn [negb].
  destruct (evaluate_assets_ok _ _ reservations overlap Hb Hq Hr bm rm (relevant_assets rm reservations) Hbm Hrm)
    as (report & Hrep & Hrows). by exists bm, rm, report.
Qed.

Lemma affordability_no_panic balances requested reservations overlap :
  Forall in_domain balances -> Forall in_domain requested -> Forall in_domain (r_amount <$> reservations) ->
  evaluate_affordability balances reservations overlap requested <> Panic.
Proof.
  intros Hb Hq Hr.
  destruct (evaluate_affordability_report _ _ overlap _ Hb Hq Hr)
    as [(Hw & _ & _ & report & _ & _ & -> & _)|(Hw & He)]; [done|].
  by destruct (evaluate_affordability balances reservations overlap requested).
Qed.

(** Evaluating amounts of their domains never panics (no [expect] fails, no copy is
    out of range), and it answers exactly when no asset is listed twice, no reservation
    or overlap row is repeated and every overlap row is reserved; otherwise it is an
    error. *)
Lemma evaluate_affordability_total (balances requested : list AssetAmount)
    (reservations overlap : list Reservation) :
  Forall in_domain balances -> Forall in_domain requested -> Forall in_domain (r_amount <$> reservations) ->
  evaluate_affordability balances reservations overlap requested <> Panic
  /\ (is_ok (evaluate_affordability balances reservations overlap requested) = true
      <-> wf_inputs balances reservations overlap requested).
Proof.
  intros Hb Hq Hr.
  destruct (evaluate_affordability_report _ _ overlap _ Hb Hq Hr)
    as [(Hw & _ & _ & report & _ & _ & -> & _)|(Hw & He)]; [done|].
  destruct (evaluate_affordability balances reservations overlap requested); done.
Qed.

Definition demo_id : RecordId := pad32 [].
Definition demo_row (n : N) (k : ReservationKind) : Reservation := mkReservation demo_id (NativeAmount n) k.

Lemma evaluate_affordability_total_witness :
  evaluate_affordability [NativeAmount 10] [demo_row 3 Transfer] [] [NativeAmount 5] <> Panic
  /\ (is_ok (evaluate_affordability [NativeAmount 10] [demo_row 3 Transfer] [] [NativeAmount 5]) = true
      <-> wf_inputs [NativeAmount 10] [demo_row 3 Transfer] [] [NativeAmount 5]).
Proof.
  apply (evaluate_affordability_total [NativeAmount 10] [NativeAmount 5] [demo_row 3 Transfer] []);
    repeat constructor; by vm_compute.
Defined.

Lemma affordable_all_assets (balances requested : list AssetAmount)
    (reservations overlap : list Reservation) (report : AffordabilityReport) :
  Forall in_domain balances -> Forall in_domain requested -> Forall in_domain (r_amount <$> reservations) ->
  evaluate_affordability balances reservations overlap requested = Ok report ->
  is_affordable report = true <->
  forall asset,
    units_for asset requested + units_for asset (outstanding overlap reservations)
    <= units_for asset balances.
Proof.
  intros Hb Hq Hr Hok.
  destruct (evaluate_affordability_report _ _ overlap _ Hb Hq Hr)
    as [(Hw & bm & rm & report' & Hbm & Hrm & Hok' & Hrows)|(_ & He)]; [|by rewrite Hok in He].
  rewrite Hok in Hok'. injection Hok' as <-. rewrite (Forall2_affordable _ _ _ _ _ _ Hrows).
  split; [|naive_solver]. intros H asset.
  destruct (decide (asset ∈ relevant_assets rm reservations)) as [Hin|Hout]; [by apply H|].
  rewrite relevant_assets_spec in Hout. pose proof (index_from_Ok _ _ _ Hrm asset) as Hn.
  rewrite (proj2 (bt_get_None _ _)) in Hn by tauto. destruct Hn as [_ ->].
  rewrite units_for_absent; [lia|]. intros Hin. apply Hout. left.
  apply list_elem_of_fmap in Hin as (a & -> & Ha). unfold outstanding in Ha.
  apply list_elem_of_fmap in Ha as (row & -> & Hrow). apply list_elem_of_filter in Hrow as [_ Hrow].
  by apply list_elem_of_fmap_2, list_elem_of_fmap_2.
Qed.

(** The verdict is the arithmetic one. A request is affordable exactly when, for
    every asset, the requested units and the reserved units the new send does not
    replace fit in the balance together. *)
Lemma evaluate_affordability_verdict (balances requested : list AssetAmount)
    (reservations overlap : list Reservation) (report : AffordabilityReport) :
  Forall in_domain balances -> Forall in_domain requested -> Forall in_domain (r_amount <$> reservations) ->
  evaluate_affordability balances reservations overlap requested = Ok report ->
  is_affordable report = true <->
  forall asset,
    units_for asset requested + units_for asset (outstanding overlap reservations)
    <= units_for asset balances.
Proof. apply affordable_all_assets. Qed.

Lemma evaluate_affordability_verdict_witness :
  exists report,
    evaluate_affordability [NativeAmount 10] [demo_row 3 Transfer] [demo_row 3 Transfer] [NativeAmount 8] = Ok report
    /\ is_affordable report = true.
Proof.
  eexists. split; [vm_compute; reflexivity|].
  eapply (evaluate_affordability_verdict [NativeAmount 10] [NativeAmount 8]
    [demo_row 3 Transfer] [demo_row 3 Transfer]); [repeat constructor; by vm_compute..|vm_compute; reflexivity|].
  intros [|id]; by vm_compute.
Defined.

(** Every row of a report carries the figures of its asset: what is left after the
    outstanding reservations, and a worst-case warning exactly when the request and all
    the reservations together exceed the balance, replaced rows included. *)
Lemma evaluate_affordability_rows (balances requested : list AssetAmount)
    (reservations overlap : list Reservation) (report : AffordabilityReport) (asset : AssetId)
    (o : AssetAffordability) :
  Forall in_domain balances -> Forall in_domain requested -> Forall in_domain (r_amount <$> reservations) ->
  evaluate_affordability balances reservations overlap requested = Ok report ->
  outcome report asset = Some o ->
  outcome_for asset (units_for asset balances) (units_for asset requested)
    (units_for asset (outstanding overlap reservations)) (units_for asset (r_amount <$> reservations)) o.
Proof.
  intros Hb Hq Hr Hok Ho.
  destruct (evaluate_affordability_report _ _ overlap _ Hb Hq Hr)
    as [(Hw & bm & rm & report' & Hbm & Hrm & Hok' & Hrows)|(_ & He)]; [|by rewrite Hok in He].
  rewrite Hok in Hok'. injection Hok' as <-. clear -Hrows Ho.
  induction Hrows as [|x y l k Hxy _ IH]; [done|]. cbn [outcome find] in Ho.
  case_bool_decide as Ha; [|by apply IH]. injection Ho as <-.
  destruct Hxy as (Hx & Hrest). rewrite Ha in Hx. subst x. by split.
Qed.

Lemma evaluate_affordability_rows_witness :
  exists report o,
    evaluate_affordability [NativeAmount 10] [demo_row 3 Transfer] [demo_row 3 Transfer] [NativeAmount 8] = Ok report
    /\ outcome report Native = Some o
    /\ outcome_for Native 10 8 0 3 o.
Proof.
  eexists _, _. split; [vm_compute; reflexivity|]. split; [vm_compute; reflexivity|].
  eapply (evaluate_affordability_rows [NativeAmount 10] [NativeAmount 8]
    [demo_row 3 Transfer] [demo_row 3 Transfer] _ Native); [repeat constructor; by vm_compute..|vm_compute; reflexivity|].
  vm_compute; reflexivity.
Defined.
