(* ===== verification/Send.v ===== *)
(** * Recipients and send requests (crates/cc-wallet-domain/src/address.rs, send.rs)

    The canonical form of a recipient, the truncation of a comment at a character
    boundary, and the request a send form becomes.  The standard-address codec is the
    tycho_types crate's: a parameter, with the documented form of its texts as laws. *)

From Stdlib Require Import NArith ZArith Lia.
From S2P Require Import Prelude Ord Bytes Text Decimal Ids Asset Amount.

(** ** The third-party address codec *)
Record StdAddr (Anycast : Type) := mkStdAddr {
  sa_anycast : option Anycast;
  sa_workchain : Z;
  sa_address : bytes32
}.
Arguments mkStdAddr {Anycast} _ _ _.
Arguments sa_anycast {Anycast} _.
Arguments sa_workchain {Anycast} _.
Arguments sa_address {Anycast} _.

(** [StdAddr::from_str_ext(_, StdAddrFormat::any())], with the error's text, and
    [StdAddr::to_string]. *)
Class StdAddrLib := {
  Anycast : Type;
  from_str_ext : bytes -> res string (StdAddr Anycast);
  stdaddr_to_string : StdAddr Anycast -> bytes
}.

(** The raw text of an address without anycast. *)
Definition raw_address (workchain : Z) (account : bytes32) : bytes :=
  print_z workchain ++ Byte.x3a :: to_hex account.

(** What the code relies on: such an address prints as [workchain:hash], and that text
    reads back as the address. *)
Class StdAddrLaws `{StdAddrLib} : Prop := {
  to_string_raw : forall w h, (-128 <= w < 128)%Z ->
    stdaddr_to_string (mkStdAddr None w h) = raw_address w h;
  from_str_raw : forall w h, (-128 <= w < 128)%Z ->
    from_str_ext (raw_address w h) = Ok (mkStdAddr None w h)
}.

(** ** address.rs *)
Definition canonicalize_recipient `{StdAddrLib} (address : bytes) : res WalletError bytes :=
  let address := trim address in
  if bool_decide (address = []) then Err (Validation "address is empty") else
  let? parsed := map_err (fun e => Validation (Strings.String.append "invalid standard address: " e))
                   (from_str_ext address) in
  match sa_anycast parsed with
  | Some _ => Err (Validation "anycast recipient addresses are not supported")
  | None =>
      check (sa_workchain parsed =? 0)%Z || (sa_workchain parsed =? -1)%Z
      else Validation "recipient workchain must be 0 or -1" ;;
      Ok (stdaddr_to_string parsed)
  end.

Definition recipient_is_valid `{StdAddrLib} (address : bytes) : bool :=
  is_ok (canonicalize_recipient address).
Definition contact_address_is_valid `{StdAddrLib} (address : bytes) : bool :=
  is_ok (canonicalize_recipient address).

(** ** send.rs *)
Inductive SendToken := TokenNative | TokenCc (id : N).

Definition token_asset_id (t : SendToken) : AssetId :=
  match t with TokenNative => Native | TokenCc id => CurrencyCollection id end.

Definition COMMENT_ROOT_BYTES : nat := 123.
Definition COMMENT_CELL_BYTES : nat := 127.
Definition MAX_COMMENT_BYTES : nat := 1024.
Definition div_ceil (a b : nat) : nat := (a + b - 1) / b.
Definition COMMENT_CELLS : nat := div_ceil (MAX_COMMENT_BYTES - COMMENT_ROOT_BYTES) COMMENT_CELL_BYTES.
Definition MAX_ENCRYPTED_COMMENT_BYTES : nat := MAX_COMMENT_BYTES - 57 - 16.

(** [while end > 0 && !text.is_char_boundary(end)]. *)
Fixpoint boundary_below (text : bytes) (end_ : nat) : nat :=
  match end_ with
  | O => O
  | S e => if is_char_boundary text end_ then end_ else boundary_below text e
  end.

Definition truncate_comment_to (text : bytes) (limit : nat) : bytes :=
  if (length text <=? limit)%nat then text else take (boundary_below text limit) text.

Definition truncate_comment (text : bytes) : bytes := truncate_comment_to text MAX_COMMENT_BYTES.

Record SendRequest := mkSendRequest {
  sr_destination : bytes;
  sr_value : AssetAmount;
  sr_comment : bytes;
  sr_encrypt_to : option bytes32
}.

#[export] Instance SendRequest_eq_dec : EqDecision SendRequest.
Proof. solve_decision. Defined.

Definition SendRequest_new `{StdAddrLib} (destination : bytes) (value : AssetAmount)
  : res WalletError SendRequest :=
  let? destination := canonicalize_recipient destination in
  if is_zero value then Err (AmountErr "amount must be greater than zero") else
  match asset_id value with
  | CurrencyCollection id =>
      check is_known_cc (CurrencyCollection id)
      else AmountErr "only currency-collection ids 1, 2, and 3 can be sent" ;;
      Ok (mkSendRequest destination value [] None)
  | Native => Ok (mkSendRequest destination value [] None)
  end.

Definition with_comment (r : SendRequest) (comment : bytes) : SendRequest :=
  {| sr_destination := sr_destination r; sr_value := sr_value r;
     sr_comment := truncate_comment (trim comment); sr_encrypt_to := sr_encrypt_to r |}.

Definition sealed_to (r : SendRequest) (key : option bytes32) : SendRequest :=
  {| sr_destination := sr_destination r; sr_value := sr_value r;
     sr_comment := sr_comment r; sr_encrypt_to := key |}.

Definition request_native `{StdAddrLib} (destination : bytes) (units : N) : res WalletError SendRequest :=
  let? value := amount_err (amount_native units) in
  SendRequest_new destination value.

Definition request_currency_collection `{StdAddrLib} (destination : bytes) (id : N) (units : CcAmount)
  : res WalletError SendRequest :=
  SendRequest_new destination (currency_collection id units).

Definition request_asset_id (r : SendRequest) : AssetId := asset_id (sr_value r).

Record SendForm := {
  form_token : SendToken;
  form_destination : bytes;
  form_amount : bytes;
  form_comment : bytes;
  form_encrypt : bool
}.

Definition SendForm_default : SendForm :=
  {| form_token := TokenNative; form_destination := []; form_amount := []; form_comment := [];
     form_encrypt := false |}.

Definition form_request `{StdAddrLib} (f : SendForm) : res WalletError SendRequest :=
  let? value := parse_send_amount (token_asset_id (form_token f)) (form_amount f) in
  rmap (fun request => with_comment request (form_comment f))
    (SendRequest_new (form_destination f) value).

(** [Deserialize for SendRequest], from the fields of [SendRequestWire], which are those
    [Serialize] writes. *)
Definition SendRequest_of_wire `{StdAddrLib} (wire : SendRequest) : res WalletError SendRequest :=
  rmap (fun request => sealed_to (with_comment request (sr_comment wire)) (sr_encrypt_to wire))
    (SendRequest_new (sr_destination wire) (sr_value wire)).

(** ** A codec for the raw texts alone *)
#[global] Instance toy_stdaddr : StdAddrLib := {|
  Anycast := Empty_set;
  from_str_ext s :=
    match split_once Byte.x3a s with
    | Some (w, h) =>
        match parse_i8 w, from_hex h with
        | Some w, Ok h => Ok (mkStdAddr None w h)
        | _, _ => Err "not workchain:hash"
        end
    | None => Err "not workchain:hash"
    end;
  stdaddr_to_string a := raw_address (sa_workchain a) (sa_address a)
|}.
#[global] Remove Hints toy_stdaddr : typeclass_instances.

Lemma print_z_chars z b : b ∈ print_z z -> b = Byte.x2d \/ is_ascii_digit b = true.
Proof.
  unfold print_z. assert (Hd : forall n, b ∈ print_dec n -> is_ascii_digit b = true).
  { intros n Hb. pose proof (print_dec_digits n) as H. unfold all_digits in H.
    rewrite forallb_forall in H. by apply H, list_elem_of_In. }
  destruct (z <? 0)%Z; [rewrite elem_of_cons|]; naive_solver.
Qed.

Lemma split_raw_address w h : split_once Byte.x3a (raw_address w h) = Some (print_z w, to_hex h).
Proof.
  apply split_once_Some. split; [done|]. intros Hin%print_z_chars. by destruct Hin.
Qed.

Lemma parse_i8_dec (neg : bool) (n : N) (ds : bytes) :
  ds = print_dec n ->
  parse_i8 (if neg then Byte.x2d :: ds else ds)
  = if neg then if n <=? 128 then Some (- Z.of_N n)%Z else None
    else if n <=? 127 then Some (Z.of_N n) else None.
Proof.
  intros ->. pose proof (print_dec_digits n) as Hd. pose proof (dec_val_print n) as Hv.
  pose proof (print_dec_nonempty n) as Hne.
  destruct (print_dec n) as [|b ds]; [done|]. destruct neg.
  - unfold parse_i8. change (u8 Byte.x2d =? 43) with false. change (u8 Byte.x2d =? 45) with true.
    cbn iota. by rewrite Hd, Hv.
  - assert (Hb : (u8 b =? 43) = false /\ (u8 b =? 45) = false).
    { cbn in Hd. unfold is_ascii_digit in Hd. bprop. rewrite !N.eqb_neq. lia. }
    destruct Hb as [H1 H2]. unfold parse_i8.
    destruct ds; rewrite ?H1, ?H2; cbn iota; by rewrite Hd, Hv.
Qed.

Lemma parse_print_i8 z : (-128 <= z < 128)%Z -> parse_i8 (print_z z) = Some z.
Proof.
  intros Hz. unfold print_z. destruct (Z.ltb_spec z 0).
  - rewrite (parse_i8_dec true (Z.to_N (- z))) by done.
    rewrite (proj2 (N.leb_le _ _)) by lia. f_equal. lia.
  - rewrite (parse_i8_dec false (Z.to_N z)) by done.
    rewrite (proj2 (N.leb_le _ _)) by lia. f_equal. lia.
Qed.

Lemma from_hex_to_hex h : from_hex (to_hex h) = Ok h.
Proof. by apply from_hex_exact. Qed.

#[global] Instance toy_stdaddr_laws : @StdAddrLaws toy_stdaddr.
Proof.
  split; [done|]. intros w h Hw. cbn.
  by rewrite split_raw_address, parse_print_i8, from_hex_to_hex.
Qed.

(** ** Canonical recipients *)
Lemma hex_digit_graphic i : i < 16 -> is_ascii_graphic (hex_digit i) = true.
Proof.
  intros Hi. assert (Hf : forallb (fun k => is_ascii_graphic (nth k HEX_DIGITS Byte.x00)) (seq 0 16) = true)
    by by vm_compute.
  rewrite forallb_forall in Hf. apply (Hf (N.to_nat i)), in_seq. lia.
Qed.

Lemma hex_encode_graphic l : Forall (fun b => is_ascii_graphic b = true) (hex_lower_encode l).
Proof.
  induction l as [|b l IH]; cbn [hex_lower_encode]; [constructor|].
  pose proof (u8_bound b). repeat constructor; [..|done]; apply hex_digit_graphic.
  - rewrite N.shiftr_div_pow2. apply N.Div0.div_lt_upper_bound. change (2 ^ 4) with 16. lia.
  - change 15 with (N.ones 4). rewrite N.land_ones. by apply N.mod_lt.
Qed.

Lemma raw_address_graphic w h : Forall (fun b => is_ascii_graphic b = true) (raw_address w h).
Proof.
  unfold raw_address. apply Forall_app. split.
  - apply Forall_forall. intros b [->|Hb]%print_z_chars; [done|].
    unfold is_ascii_digit in Hb. unfold is_ascii_graphic. bprop.
    rewrite andb_true_iff, !N.leb_le. lia.
  - constructor; [done|]. apply hex_encode_graphic.
Qed.

Definition canonical_recipient (c : bytes) : Prop :=
  exists w h, (w = 0 \/ w = -1)%Z /\ c = raw_address w h.

Section laws.
Context `{StdAddrLaws}.

Lemma canonicalize_canonical w h :
  (w = 0 \/ w = -1)%Z -> canonicalize_recipient (raw_address w h) = Ok (raw_address w h).
Proof.
  intros Hw. unfold canonicalize_recipient. rewrite trim_graphic by apply raw_address_graphic.
  rewrite bool_decide_eq_false_2 by (unfold raw_address; intros E; by destruct (print_z w)).
  rewrite from_str_raw by lia. cbn [map_err rbind sa_anycast sa_workchain].
  rewrite to_string_raw by lia. by destruct Hw as [-> | ->].
Qed.

Lemma canonicalize_Ok a c :
  canonicalize_recipient a = Ok c ->
  exists w h, (w = 0 \/ w = -1)%Z /\ c = raw_address w h
    /\ from_str_ext (trim a) = Ok (mkStdAddr None w h).
Proof.
  unfold canonicalize_recipient. case_bool_decide; [done|]. intros Hc.
  apply rbind_Ok in Hc as ([ac w h] & Hp%map_err_Ok & Hc). cbn in Hc.
  destruct ac; [done|]. destruct ((w =? 0)%Z || (w =? -1)%Z) eqn:Hw; [|done].
  injection Hc as <-. bprop. exists w, h. split; [destruct Hw; bprop; auto|].
  split; [|done]. apply to_string_raw. destruct Hw; bprop; lia.
Qed.
End laws.

(** Whatever text of an address is accepted as a recipient, the form kept is
    [workchain:hash] with workchain 0 or -1 and 64 lowercase digits, and that form is
    accepted and kept unchanged: canonicalising twice is canonicalising once. *)
Lemma canonicalize_recipient_idempotent `{StdAddrLaws} (address c : bytes) :
  canonicalize_recipient address = Ok c ->
  canonical_recipient c /\ canonicalize_recipient c = Ok c /\ recipient_is_valid c = true.
Proof.
  intros (w & h & Hw & -> & _)%canonicalize_Ok.
  pose proof (canonicalize_canonical w h Hw) as Hc.
  split; [by exists w, h|]. split; [done|]. unfold recipient_is_valid. by rewrite Hc.
Qed.

Definition demo_text : bytes := bs " 0:1100000000000000000000000000000000000000000000000000000000000000".
Definition demo_dest : bytes := raw_address 0 (pad32 [Byte.x11]).

Lemma canonicalize_recipient_idempotent_witness :
  canonical_recipient demo_dest
  /\ @canonicalize_recipient toy_stdaddr demo_dest = Ok demo_dest
  /\ @recipient_is_valid toy_stdaddr demo_dest = true.
Proof.
  apply (@canonicalize_recipient_idempotent toy_stdaddr toy_stdaddr_laws demo_text). by vm_compute.
Defined.

(** ** Comments *)
Lemma boundary_below_spec text e :
  (e < length text)%nat ->
  (boundary_below text e <= e)%nat /\ is_char_boundary text (boundary_below text e) = true
  /\ (forall k, (k <= e)%nat -> is_char_boundary text k = true -> (k <= boundary_below text e)%nat).
Proof.
  induction e as [|e IH]; intros He; [split; [done|]; split; [done|]; intros k Hk _; lia|].
  cbn [boundary_below]. destruct (is_char_boundary text (S e)) eqn:Hb.
  - split; [done|]. split; [done|]. by intros k Hk _.
  - destruct IH as (H1 & H2 & H3); [lia|]. split; [lia|]. split; [done|].
    intros k Hk Hkb. apply H3; [|done]. destruct (decide (k = S e)) as [->|]; [congruence|lia].
Qed.

Lemma truncate_comment_to_ok text limit :
  utf8_valid text = true ->
  exists k, truncate_comment_to text limit = take k text
    /\ (k <= length text)%nat /\ (k <= limit)%nat /\ utf8_valid (take k text) = true
    /\ (forall j, (j <= limit)%nat -> (j <= length text)%nat -> is_char_boundary text j = true -> (j <= k)%nat).
Proof.
  intros Hu. unfold truncate_comment_to. destruct (Nat.leb_spec (length text) limit) as [Hl|Hl].
  - exists (length text). rewrite firstn_all. split; [done|]. split; [done|]. split; [done|]. by split.
  - destruct (boundary_below_spec text limit Hl) as (H1 & H2 & H3).
    exists (boundary_below text limit). split; [done|]. split; [lia|]. split; [done|]. split.
    + apply utf8_valid_iff. apply utf8_valid_iff in Hu. by apply utf8_cut.
    + intros j Hj _. by apply H3.
Qed.

(** Truncating a comment keeps a prefix of it that is valid UTF-8 and fits the
    limit, and the longest one that does: the slice never falls inside a character, and
    a comment within the limit is untouched. *)
Lemma truncate_comment_to_longest (text : bytes) (limit : nat) :
  utf8_valid text = true ->
  exists k, truncate_comment_to text limit = take k text
    /\ (k <= limit)%nat /\ utf8_valid (truncate_comment_to text limit) = true
    /\ (forall j, (j <= limit)%nat -> (j <= length text)%nat -> is_char_boundary text j = true -> (j <= k)%nat)
    /\ ((length text <= limit)%nat -> truncate_comment_to text limit = text).
Proof.
  intros (k & Hk & H1 & H2 & H3 & H4)%(truncate_comment_to_ok text limit).
  exists k. rewrite Hk. do 4 (split; [done|]). rewrite <- Hk. unfold truncate_comment_to.
  intros Hl. by rewrite (proj2 (Nat.leb_le _ _) Hl).
Qed.

(** The euro sign takes three bytes: two of them never survive. *)
Lemma truncate_comment_to_longest_witness :
  exists k, truncate_comment_to (bs "ab" ++ [Byte.xe2; Byte.x82; Byte.xac]) 4
      = take k (bs "ab" ++ [Byte.xe2; Byte.x82; Byte.xac])
    /\ (k <= 4)%nat /\ utf8_valid (truncate_comment_to (bs "ab" ++ [Byte.xe2; Byte.x82; Byte.xac]) 4) = true
    /\ (forall j, (j <= 4)%nat -> (j <= length (bs "ab" ++ [Byte.xe2; Byte.x82; Byte.xac]))%nat ->
        is_char_boundary (bs "ab" ++ [Byte.xe2; Byte.x82; Byte.xac]) j = true -> (j <= k)%nat)
    /\ ((length (bs "ab" ++ [Byte.xe2; Byte.x82; Byte.xac]) <= 4)%nat ->
        truncate_comment_to (bs "ab" ++ [Byte.xe2; Byte.x82; Byte.xac]) 4
        = bs "ab" ++ [Byte.xe2; Byte.x82; Byte.xac]).
Proof. apply truncate_comment_to_longest. by vm_compute. Defined.

Lemma comment_fits_cells :
  (MAX_COMMENT_BYTES <= COMMENT_ROOT_BYTES + COMMENT_CELLS * COMMENT_CELL_BYTES)%nat.
Proof. vm_compute. lia. Qed.

(** ** Requests *)
Definition wf_request (r : SendRequest) : Prop :=
  canonical_recipient (sr_destination r)
  /\ is_sendable (request_asset_id r) = true /\ in_domain (sr_value r) /\ units_of (sr_value r) <> 0
  /\ (length (sr_comment r) <= MAX_COMMENT_BYTES)%nat /\ utf8_valid (sr_comment r) = true.

Lemma wf_with_comment r comment :
  wf_request r -> utf8_valid comment = true -> wf_request (with_comment r comment).
Proof.
  intros (Hd & Hs & Hi & Hu & _) Hc.
  destruct (truncate_comment_to_ok (trim comment) MAX_COMMENT_BYTES) as (k & Hk & Hl & Hm & Hv & _).
  { apply utf8_valid_iff, utf8_trim. by apply utf8_valid_iff. }
  unfold wf_request, with_comment, request_asset_id. cbn [sr_destination sr_value sr_comment].
  unfold truncate_comment. rewrite Hk. do 4 (split; [done|]). split; [|done].
  rewrite length_take. lia.
Qed.

Lemma truncate_short c : (length c <= MAX_COMMENT_BYTES)%nat -> truncate_comment c = c.
Proof. intros H. unfold truncate_comment, truncate_comment_to. by rewrite (proj2 (Nat.leb_le _ _) H). Qed.

Lemma with_comment_id r :
  (length (sr_comment r) <= MAX_COMMENT_BYTES)%nat ->
  with_comment r (sr_comment r) = r <-> trim (sr_comment r) = sr_comment r.
Proof.
  intros Hl. pose proof (length_trim (sr_comment r)) as Ht. unfold with_comment.
  rewrite truncate_short by lia. destruct r as [d v c k]; cbn. split; [by intros [= H]|by intros ->].
Qed.

Section requests.
Context `{StdAddrLaws}.

Lemma SendRequest_new_Ok d v r :
  in_domain v -> SendRequest_new d v = Ok r ->
  wf_request r /\ sr_value r = v /\ sr_comment r = [] /\ sr_encrypt_to r = None
  /\ canonicalize_recipient d = Ok (sr_destination r).
Proof.
  intros Hv Hr. unfold SendRequest_new in Hr. apply rbind_Ok in Hr as (c & Hc & Hr).
  destruct (is_zero v) eqn:Hz; [done|].
  assert (Hu : units_of v <> 0) by (rewrite <- is_zero_iff, Hz; done).
  assert (Hcan : canonical_recipient c)
    by (destruct (canonicalize_Ok _ _ Hc) as (w & h & Hw & -> & _); by exists w, h).
  assert (Hr' : r = mkSendRequest c v [] None /\ is_sendable (asset_id v) = true).
  { unfold is_sendable. destruct (asset_id v) as [|id]; [by injection Hr as <-|].
    destruct (is_known_cc (CurrencyCollection id)); [by injection Hr as <-|done]. }
  destruct Hr' as [-> Hs]. split; [|done]. unfold wf_request, request_asset_id. cbn.
  do 4 (split; [done|]). split; [lia|done].
Qed.

Lemma SendRequest_new_wf r :
  wf_request r -> SendRequest_new (sr_destination r) (sr_value r)
                  = Ok (mkSendRequest (sr_destination r) (sr_value r) [] None).
Proof.
  intros ((w & h & Hw & Hd) & Hs & _ & Hu & _). unfold SendRequest_new.
  rewrite Hd, canonicalize_canonical by done. cbn [rbind].
  destruct (is_zero (sr_value r)) eqn:Hz; [by apply is_zero_iff in Hz|].
  unfold is_sendable, request_asset_id in Hs.
  destruct (asset_id (sr_value r)) as [|id]; [done|]. simpl in Hs. by rewrite Hs.
Qed.

Lemma SendRequest_of_wire_wf r :
  wf_request r -> SendRequest_of_wire r = Ok (with_comment r (sr_comment r)).
Proof.
  intros Hw. unfold SendRequest_of_wire. rewrite SendRequest_new_wf by done. done.
Qed.
End requests.

(** A form becomes a request only if its amount is a positive fixed-9 text of a
    sendable asset and its recipient is canonicalisable; the request then carries
    exactly the typed units, the canonical recipient, and a UTF-8 comment of at most
    1024 bytes. *)
Lemma form_request_sound `{StdAddrLaws} (f : SendForm) (r : SendRequest) :
  utf8_valid (form_comment f) = true ->
  form_request f = Ok r ->
  wf_request r
  /\ request_asset_id r = token_asset_id (form_token f)
  /\ fixed9 (form_amount f) (units_of (sr_value r))
  /\ canonicalize_recipient (form_destination f) = Ok (sr_destination r)
  /\ sr_encrypt_to r = None.
Proof.
  intros Hu Hf. unfold form_request in Hf. apply rbind_Ok in Hf as (v & Hv & Hf).
  apply parse_send_amount_ok in Hv as (Hs & Ha & Hd & Hz & Hfix).
  unfold rmap in Hf. apply rbind_Ok in Hf as (r0 & Hr0 & Hf). injection Hf as <-.
  destruct (SendRequest_new_Ok _ _ _ Hd Hr0) as (Hw & Hval & _ & Hk & Hc).
  split; [by apply wf_with_comment|]. unfold request_asset_id. cbn. by rewrite Hval.
Qed.

Definition demo_form (comment : bytes) : SendForm :=
  {| form_token := TokenNative; form_destination := demo_text; form_amount := bs "1.5";
     form_comment := comment; form_encrypt := false |}.

Lemma form_request_sound_witness :
  exists r, @form_request toy_stdaddr (demo_form (bs " hi ")) = Ok r
    /\ wf_request r /\ request_asset_id r = Native /\ fixed9 (bs "1.5") (units_of (sr_value r))
    /\ @canonicalize_recipient toy_stdaddr demo_text = Ok (sr_destination r) /\ sr_encrypt_to r = None.
Proof.
  eexists. split; [vm_compute; reflexivity|].
  apply (@form_request_sound toy_stdaddr toy_stdaddr_laws (demo_form (bs " hi "))); vm_compute; reflexivity.
Defined.

(** A request reads back from its wire form as itself exactly when its comment has
    no white space at its ends; otherwise it comes back with the trimmed comment and
    every other field unchanged. *)
Lemma send_request_wire_roundtrip `{StdAddrLaws} (r : SendRequest) :
  wf_request r ->
  (SendRequest_of_wire r = Ok r <-> trim (sr_comment r) = sr_comment r)
  /\ SendRequest_of_wire r
     = Ok (mkSendRequest (sr_destination r) (sr_value r) (trim (sr_comment r)) (sr_encrypt_to r)).
Proof.
  intros Hw. rewrite SendRequest_of_wire_wf by done.
  assert (Hl : (length (sr_comment r) <= MAX_COMMENT_BYTES)%nat) by apply Hw.
  split.
  - rewrite <- with_comment_id by done. split; [by intros [= ->]|by intros ->].
  - unfold with_comment. pose proof (length_trim (sr_comment r)). by rewrite truncate_short by lia.
Qed.

Lemma send_request_wire_roundtrip_witness :
  (@SendRequest_of_wire toy_stdaddr (mkSendRequest demo_dest (NativeAmount 1) (bs "hi") None)
     = Ok (mkSendRequest demo_dest (NativeAmount 1) (bs "hi") None)
   <-> trim (bs "hi") = bs "hi")
  /\ @SendRequest_of_wire toy_stdaddr (mkSendRequest demo_dest (NativeAmount 1) (bs "hi") None)
     = Ok (mkSendRequest demo_dest (NativeAmount 1) (trim (bs "hi")) None).
Proof.
  apply (@send_request_wire_roundtrip toy_stdaddr toy_stdaddr_laws
           (mkSendRequest demo_dest (NativeAmount 1) (bs "hi") None)).
  split; [exists 0%Z, (pad32 [Byte.x11]); split; [by left|done]|].
  do 3 (split; [by vm_compute|]). split; [apply Nat.leb_le; by vm_compute|by vm_compute].
Defined.

(** [with_comment] trims before it truncates, so cutting a long comment after a
    space leaves white space at the end and applying it again gives another comment:
    the request a form makes is then not the one its wire form reads back as. Applied
    twice it has reached a comment it keeps. *)
Lemma with_comment_not_idempotent :
  (exists r comment, with_comment (with_comment r comment) (sr_comment (with_comment r comment))
                     <> with_comment r comment)
  /\ (forall r comment,
        let once := with_comment r comment in
        let twice := with_comment once (sr_comment once) in
        with_comment twice (sr_comment twice) = twice).
Proof.
  split.
  - exists (mkSendRequest demo_dest (NativeAmount 1) [] None), (repeat Byte.x61 1023 ++ bs " b").
    intros E. apply (f_equal (fun r => length (sr_comment r))) in E. by vm_compute in E.
  - intros r comment. cbv zeta. set (c := sr_comment (with_comment r comment)).
    assert (Hc : (length c <= MAX_COMMENT_BYTES)%nat).
    { subst c. cbn [with_comment sr_comment]. unfold truncate_comment, truncate_comment_to.
      destruct (Nat.leb_spec (length (trim comment)) MAX_COMMENT_BYTES) as [Hl|Hl]; [done|].
      rewrite length_take. pose proof (boundary_below_spec _ _ Hl). lia. }
    pose proof (length_trim c) as Ht. apply with_comment_id; cbn [with_comment sr_comment];
      rewrite truncate_short by lia; [lia|apply trim_idemp].
Qed.
