(* ===== verification/Swap.v ===== *)
(** * Swaps (crates/cc-wallet-domain/src/swap.rs)

    The slippage text and its steps, the constant-product quote on 128-bit integers, and
    the request a swap form becomes. *)

From Stdlib Require Import NArith ZArith Lia.
From S2P Require Import Prelude Ord Bytes Text Decimal Ids Asset Amount Send.

Definition FEE_DENOM : N := 10000.
Definition DEFAULT_SLIPPAGE_BPS : N := 50.
Definition SLIPPAGE_STEP_BPS : N := 10.
Definition MAX_SLIPPAGE_BPS : N := 1000.
Definition SLIPPAGE_DECIMALS : nat := 2.

(** [trim_end_matches('%')]. *)
Fixpoint drop_percent (l : bytes) : bytes :=
  match l with b :: l' => if u8 b =? 37 then drop_percent l' else l | [] => [] end.
Definition trim_end_percent (s : bytes) : bytes := rev (drop_percent (rev s)).

(** [?] on an [Option]. *)
Definition parse_slippage_percent (text : bytes) : option N :=
  let text := trim (trim_end_percent (trim text)) in
  let '(whole_text, frac_text) :=
    match split_once Byte.x2e text with Some (whole, frac) => (whole, frac) | None => (text, []) end in
  if bool_decide (whole_text = []) && bool_decide (frac_text = []) then None else
  if negb (all_digits whole_text) || negb (all_digits frac_text)
     || (SLIPPAGE_DECIMALS <? length frac_text)%nat
  then None else
  match (if bool_decide (whole_text = []) then Some 0 else parse_unsigned u32_max whole_text) with
  | None => None
  | Some whole =>
      let hundredths_text := frac_text ++ repeat (digit 0) (SLIPPAGE_DECIMALS - length frac_text) in
      match parse_unsigned u32_max hundredths_text with
      | None => None
      | Some hundredths =>
          match checked_mul u32_max whole 100 with
          | None => None
          | Some scaled =>
              match checked_add u32_max scaled hundredths with
              | None => None
              | Some bps =>
                  if u16_max <? bps then None
                  else if bps <=? MAX_SLIPPAGE_BPS then Some bps else None
              end
          end
      end
  end.

Definition step_slippage_bps (bps : N) (up : bool) : N :=
  let step := SLIPPAGE_STEP_BPS in
  let bps := N.min bps MAX_SLIPPAGE_BPS in
  let stepped := if up then (bps / step + 1) * step else saturating_sub bps 1 / step * step in
  N.min stepped MAX_SLIPPAGE_BPS.

(** [{hundredths:02}]. *)
Definition pad2 (l : bytes) : bytes := repeat (digit 0) (2 - length l) ++ l.

Definition format_slippage_percent (bps : N) : bytes :=
  let whole := bps / 100 in
  let hundredths := bps mod 100 in
  if hundredths =? 0 then print_dec whole
  else if hundredths mod 10 =? 0 then print_dec whole ++ Byte.x2e :: print_dec (hundredths / 10)
  else print_dec whole ++ Byte.x2e :: pad2 (print_dec hundredths).

Record SwapForm := {
  swap_from : SendToken;
  swap_to : SendToken;
  swap_amount : bytes;
  swap_slippage_bps : N
}.

Definition SwapForm_default : SwapForm :=
  {| swap_from := TokenNative; swap_to := TokenCc 1; swap_amount := [];
     swap_slippage_bps := DEFAULT_SLIPPAGE_BPS |}.

Definition from_asset (f : SwapForm) : AssetId := token_asset_id (swap_from f).
Definition to_asset (f : SwapForm) : AssetId := token_asset_id (swap_to f).
Definition swap_input (f : SwapForm) : res WalletError AssetAmount :=
  parse_send_amount (token_asset_id (swap_from f)) (swap_amount f).
Definition flip (f : SwapForm) : SwapForm :=
  {| swap_from := swap_to f; swap_to := swap_from f; swap_amount := swap_amount f;
     swap_slippage_bps := swap_slippage_bps f |}.
Definition clamped_slippage_bps (f : SwapForm) : N := N.min (swap_slippage_bps f) MAX_SLIPPAGE_BPS.

Definition base_units_u128 {E} (a : AssetAmount) : res E (option N) :=
  match native_units a with
  | Some units => Ok (Some units)
  | None =>
      let? u := expect (cc_units a) in
      Ok (parse_unsigned u128_max (to_canonical_decimal u))
  end.

Definition expected_out (reserve_in reserve_out dx fee_bps : N) : option N :=
  if FEE_DENOM <=? fee_bps then None else
  if reserve_in =? 0 then Some 0 else
  match checked_mul u128_max dx (FEE_DENOM - fee_bps) with
  | None => None
  | Some scaled =>
      let dx_fee := scaled / FEE_DENOM in
      if dx_fee =? 0 then Some 0 else
      match checked_mul u128_max reserve_out dx_fee with
      | None => None
      | Some numerator =>
          match checked_add u128_max reserve_in dx_fee with
          | None => None
          | Some denominator => if denominator =? 0 then Some 0 else Some (numerator / denominator)
          end
      end
  end.

Definition min_out_after_slippage (out slippage_bps : N) : option N :=
  let slippage := N.min slippage_bps FEE_DENOM in
  match checked_mul u128_max out (FEE_DENOM - slippage) with
  | None => None
  | Some scaled => Some (scaled / FEE_DENOM)
  end.

Record SwapQuote := {
  q_in_units : N;
  q_out_units : N;
  q_min_out_units : N;
  q_fee_bps : N;
  q_slippage_bps : N
}.

Definition quote_is_empty (q : SwapQuote) : bool := q_out_units q =? 0.

Definition quote_swap (in_units reserve_in reserve_out fee_bps slippage_bps : N) : option SwapQuote :=
  match expected_out reserve_in reserve_out in_units fee_bps with
  | None => None
  | Some out_units =>
      match min_out_after_slippage out_units slippage_bps with
      | None => None
      | Some min_out_units =>
          Some {| q_in_units := in_units; q_out_units := out_units; q_min_out_units := min_out_units;
                  q_fee_bps := fee_bps; q_slippage_bps := slippage_bps |}
      end
  end.

Record SwapRequest := mkSwapRequest {
  swr_input : AssetAmount;
  swr_output : AssetId;
  swr_min_out_units : N;
  swr_slippage_bps : N
}.

Definition SwapRequest_new (input : AssetAmount) (output : AssetId) (min_out_units slippage_bps : N)
  : res WalletError SwapRequest :=
  let in_asset := asset_id input in
  if negb (is_sendable in_asset) || negb (is_sendable output)
  then Err (Validation "only the native coin and tokens 1, 2, and 3 can be swapped") else
  if bool_decide (in_asset = output) then Err (Validation "choose two different tokens to swap") else
  if is_zero input then Err (AmountErr "amount must be greater than zero") else
  if MAX_SLIPPAGE_BPS <? slippage_bps then Err (Validation "slippage tolerance is too high") else
  let? units := base_units_u128 input in
  let? _ := ok_or units (AmountErr "amount is too large to swap") in
  Ok (mkSwapRequest input output min_out_units slippage_bps).

Definition in_asset (r : SwapRequest) : AssetId := asset_id (swr_input r).

Definition in_units (r : SwapRequest) : res Empty_set N :=
  let? units := base_units_u128 (swr_input r) in expect units.

(** ** The quote *)
Lemma expected_out_Some reserve_in reserve_out dx fee out :
  expected_out reserve_in reserve_out dx fee = Some out ->
  out = 0 \/
  (fee < FEE_DENOM /\ reserve_in <> 0
   /\ let dx_fee := dx * (FEE_DENOM - fee) / FEE_DENOM in
      dx_fee <> 0 /\ out = reserve_out * dx_fee / (reserve_in + dx_fee)).
Proof.
  unfold expected_out. destruct (N.leb_spec FEE_DENOM fee) as [|Hf]; [done|].
  destruct (N.eqb_spec reserve_in 0) as [|Hr]; [intros [= <-]; by left|].
  destruct (checked_mul u128_max dx _) as [s|] eqn:Hs; [|done]. apply checked_mul_Some in Hs as [-> _].
  destruct (N.eqb_spec (dx * (FEE_DENOM - fee) / FEE_DENOM) 0) as [|Hd]; [intros [= <-]; by left|].
  destruct (checked_mul u128_max reserve_out _) as [n|] eqn:Hn; [|done]. apply checked_mul_Some in Hn as [-> _].
  destruct (checked_add u128_max reserve_in _) as [m|] eqn:Hm; [|done]. apply checked_add_Some in Hm as [-> _].
  destruct (N.eqb_spec (reserve_in + dx * (FEE_DENOM - fee) / FEE_DENOM) 0) as [He|_];
    [apply N.eq_add_0 in He as [He _]; done|].
  intros [= <-]. by right.
Qed.

Lemma fee_reduces dx fee : dx * (FEE_DENOM - fee) / FEE_DENOM <= dx.
Proof.
  apply N.Div0.div_le_upper_bound. rewrite N.mul_comm. apply N.mul_le_mono_r. apply N.le_sub_l.
Qed.

Lemma min_out_Some out slippage m :
  min_out_after_slippage out slippage = Some m ->
  m = out * (FEE_DENOM - N.min slippage FEE_DENOM) / FEE_DENOM /\ m <= out.
Proof.
  unfold min_out_after_slippage. destruct (checked_mul _ _ _) as [s|] eqn:Hs; [|done].
  apply checked_mul_Some in Hs as [-> _]. intros [= <-]. split; [done|apply fee_reduces].
Qed.

(** C40: a quote never promises what the pool cannot pay. The output is at most the output
    reserve, and strictly less when there is one; paying it keeps the product of the
    reserves at least what it was; and the minimum accepted is at most the output. *)
Theorem quote_swap_sound (dx reserve_in reserve_out fee slippage : N) (q : SwapQuote) :
  quote_swap dx reserve_in reserve_out fee slippage = Some q ->
  q_min_out_units q <= q_out_units q
  /\ q_out_units q <= reserve_out
  /\ (reserve_out <> 0 -> q_out_units q < reserve_out)
  /\ reserve_in * reserve_out <= (reserve_in + dx) * (reserve_out - q_out_units q).
Proof.
  unfold quote_swap. destruct (expected_out _ _ _ _) as [out|] eqn:Ho; [|done].
  destruct (min_out_after_slippage out slippage) as [m|] eqn:Hm; [|done]. intros [= <-]. cbn.
  apply min_out_Some in Hm as [_ Hm]. split; [done|].
  apply expected_out_Some in Ho as [->|(Hf & Hr & Hd & ->)].
  { rewrite N.sub_0_r. split; [lia|]. split; [lia|]. apply N.mul_le_mono_r. lia. }
  pose proof (fee_reduces dx fee) as Hred. cbv zeta in *.
  set (d := dx * (FEE_DENOM - fee) / FEE_DENOM) in *.
  set (out := reserve_out * d / (reserve_in + d)).
  assert (Hout : out * (reserve_in + d) <= reserve_out * d).
  { unfold out. rewrite N.mul_comm. apply N.Div0.mul_div_le. }
  assert (Hle : out <= reserve_out).
  { apply N.Div0.div_le_upper_bound. nia. }
  split; [done|]. split.
  - intros Hz. apply N.Div0.div_lt_upper_bound. nia.
  - assert (H1 : reserve_in * reserve_out <= (reserve_in + d) * (reserve_out - out)) by nia.
    etrans; [exact H1|]. apply N.mul_le_mono_r. lia.
Qed.

Lemma quote_swap_sound_witness :
  exists q, quote_swap 1000 5000 9000 30 50 = Some q
    /\ q_min_out_units q <= q_out_units q <= 9000
    /\ 5000 * 9000 <= (5000 + 1000) * (9000 - q_out_units q).
Proof.
  eexists. split; [vm_compute; reflexivity|].
  edestruct (quote_swap_sound 1000 5000 9000 30 50) as (H1 & H2 & _ & H4); [vm_compute; reflexivity|].
  split; [split; [exact H1|exact H2]|exact H4].
Defined.

(** ** Slippage *)
Lemma below_forallb (P : N -> bool) (n : nat) :
  forallb P (N.of_nat <$> seq 0 n) = true -> forall k, k < N.of_nat n -> P k = true.
Proof.
  rewrite forallb_forall. intros H k Hk. apply H. apply list_elem_of_In, list_elem_of_fmap.
  exists (N.to_nat k). split; [lia|]. apply elem_of_seq. lia.
Qed.

(** Every admissible slippage prints as a percentage that reads back as itself, and
    stepping it up or down stays within the limit, lands on a multiple of the step and
    moves by at most one step, so it reaches the limit and zero. *)
Lemma slippage_text_and_steps (bps : N) :
  bps <= MAX_SLIPPAGE_BPS ->
  parse_slippage_percent (format_slippage_percent bps) = Some bps
  /\ step_slippage_bps bps true <= MAX_SLIPPAGE_BPS
  /\ step_slippage_bps bps true mod SLIPPAGE_STEP_BPS = 0
  /\ step_slippage_bps bps false mod SLIPPAGE_STEP_BPS = 0
  /\ (bps < MAX_SLIPPAGE_BPS -> bps < step_slippage_bps bps true <= bps + SLIPPAGE_STEP_BPS)
  /\ (0 < bps -> step_slippage_bps bps false < bps <= step_slippage_bps bps false + SLIPPAGE_STEP_BPS).
Proof.
  intros Hb.
  set (P := fun b => bool_decide (parse_slippage_percent (format_slippage_percent b) = Some b)
    && (step_slippage_bps b true <=? MAX_SLIPPAGE_BPS)
    && (step_slippage_bps b true mod SLIPPAGE_STEP_BPS =? 0)
    && (step_slippage_bps b false mod SLIPPAGE_STEP_BPS =? 0)
    && implb (b <? MAX_SLIPPAGE_BPS) ((b <? step_slippage_bps b true) && (step_slippage_bps b true <=? b + SLIPPAGE_STEP_BPS))
    && implb (0 <? b) ((step_slippage_bps b false <? b) && (b <=? step_slippage_bps b false + SLIPPAGE_STEP_BPS))).
  assert (HP : P bps = true).
  { apply (below_forallb P 1001); [vm_compute; reflexivity|].
    unfold MAX_SLIPPAGE_BPS in Hb. change (N.of_nat 1001) with 1001. lia. }
  unfold P in HP. rewrite !andb_true_iff, bool_decide_eq_true, !N.eqb_eq, !N.leb_le in HP.
  destruct HP as [[[[[H1 H2] H3] H4] H5] H6]. do 4 (split; [done|]). split.
  - intros Hlt. apply N.ltb_lt in Hlt. rewrite Hlt in H5. cbn in H5.
    by rewrite andb_true_iff, N.ltb_lt, N.leb_le in H5.
  - intros Hlt. apply N.ltb_lt in Hlt. rewrite Hlt in H6. cbn in H6.
    by rewrite andb_true_iff, N.ltb_lt, N.leb_le in H6.
Qed.

Lemma slippage_text_and_steps_witness :
  parse_slippage_percent (format_slippage_percent 105) = Some 105
  /\ step_slippage_bps 105 true <= MAX_SLIPPAGE_BPS
  /\ step_slippage_bps 105 true mod SLIPPAGE_STEP_BPS = 0
  /\ step_slippage_bps 105 false mod SLIPPAGE_STEP_BPS = 0
  /\ (105 < MAX_SLIPPAGE_BPS -> 105 < step_slippage_bps 105 true <= 105 + SLIPPAGE_STEP_BPS)
  /\ (0 < 105 -> step_slippage_bps 105 false < 105 <= step_slippage_bps 105 false + SLIPPAGE_STEP_BPS).
Proof. apply slippage_text_and_steps. by vm_compute. Defined.

(** ** Requests *)

(** A swap request is made exactly of a positive sendable amount below 2^128 base
    units, another sendable asset and an admissible slippage, and its units are then
    always available. *)
Lemma swap_request_new_spec (input : AssetAmount) (output : AssetId) (min_out slippage : N)
    (r : SwapRequest) :
  in_domain input ->
  SwapRequest_new input output min_out slippage = Ok r <->
  r = mkSwapRequest input output min_out slippage
  /\ is_sendable (asset_id input) = true /\ is_sendable output = true /\ asset_id input <> output
  /\ units_of input <> 0 /\ slippage <= MAX_SLIPPAGE_BPS
  /\ in_units r = Ok (units_of input).
Proof.
  intros Hd.
  assert (Hbase : forall E, @base_units_u128 E input
    = Ok (if units_of input <=? u128_max then Some (units_of input) else None)).
  { intros E. unfold base_units_u128. destruct input as [u|id [u]]; cbn.
    - assert (NATIVE_MAX_UNITS <= u128_max) by by vm_compute. cbn in Hd.
      by rewrite (proj2 (N.leb_le _ _)) by lia.
    - unfold to_canonical_decimal. cbn. by rewrite parse_print_unsigned_if. }
  unfold SwapRequest_new. rewrite Hbase. cbn [rbind].
  destruct (is_sendable (asset_id input)); cbn [negb orb]; [|naive_solver].
  destruct (is_sendable output); cbn [negb]; [|naive_solver].
  case_bool_decide as Ha; [naive_solver|].
  destruct (is_zero input) eqn:Hz; [apply is_zero_iff in Hz; naive_solver|].
  assert (Hz' : units_of input <> 0) by (rewrite <- is_zero_iff, Hz; done).
  destruct (N.ltb_spec MAX_SLIPPAGE_BPS slippage) as [Hs|Hs]; [split; [done|intros (_ & _ & _ & _ & _ & ? & _); lia]|].
  unfold in_units. destruct (units_of input <=? u128_max) eqn:Hu; cbn [ok_or rbind].
  - split; [intros [= <-]|intros (-> & _); done]. cbn [swr_input]. by rewrite Hbase.
  - split; [done|]. intros (-> & _ & _ & _ & _ & _ & Hi). cbn in Hi. by rewrite Hbase in Hi.
Qed.

Lemma swap_request_new_spec_witness :
  SwapRequest_new (NativeAmount 7) (CurrencyCollection 1) 5 50
    = Ok (mkSwapRequest (NativeAmount 7) (CurrencyCollection 1) 5 50)
  <-> mkSwapRequest (NativeAmount 7) (CurrencyCollection 1) 5 50
      = mkSwapRequest (NativeAmount 7) (CurrencyCollection 1) 5 50
  /\ is_sendable Native = true /\ is_sendable (CurrencyCollection 1) = true
  /\ Native <> CurrencyCollection 1 /\ 7 <> 0 /\ 50 <= MAX_SLIPPAGE_BPS
  /\ in_units (mkSwapRequest (NativeAmount 7) (CurrencyCollection 1) 5 50) = Ok 7.
Proof.
  apply (swap_request_new_spec (NativeAmount 7) (CurrencyCollection 1) 5 50). by vm_compute.
Defined.
