(* ===== verification/StorageRecord.v ===== *)
(** * Stored records (crates/cc-wallet-domain/src/storage.rs)

    The plain text of a record of the on-chain storage: its limits, its framing, the
    data it is authenticated with, and the id of the next one. *)

From Stdlib Require Import NArith Lia.
From S2P Require Import Prelude Ord Bytes Text Decimal.

Definition MAX_RECORD_TITLE_BYTES : nat := 128.
Definition MAX_RECORD_DATA_BYTES : nat := 1024.
Definition RECORD_FRAMING_BYTES : nat := 2.

Inductive StorageError :=
| EmptyTitle
| TitleTooLong (len : nat)
| DataTooLong (len : nat)
| Full (limit : N)
| Malformed (what : string).

Definition StorageError_display (e : StorageError) : string :=
  match e with
  | EmptyTitle => "give the record a name"
  | TitleTooLong len =>
      message ["the name is "; dec_string (N.of_nat len); " bytes; the limit is ";
               dec_string (N.of_nat MAX_RECORD_TITLE_BYTES)]
  | DataTooLong len =>
      message ["the record is "; dec_string (N.of_nat len); " bytes; the limit is ";
               dec_string (N.of_nat MAX_RECORD_DATA_BYTES)]
  | Full limit => message ["the storage already holds "; dec_string limit; " records"]
  | Malformed what => message ["the record could not be read: "; what]
  end.

Record StorageRecord := { st_id : N; st_title : bytes; st_data : bytes }.

Inductive StorageOp :=
| OpCreate
| OpPut (id : N) (title data : bytes)
| OpDelete (id : N).

Definition op_label (o : StorageOp) : string :=
  match o with
  | OpCreate => "create storage"
  | OpPut _ _ _ => "save record"
  | OpDelete _ => "delete record"
  end.

Definition record_id (o : StorageOp) : option N :=
  match o with OpCreate => None | OpPut id _ _ | OpDelete id => Some id end.

Record StorageSnapshot := {
  ss_address : bytes;
  ss_exists : bool;
  ss_balance : N;
  ss_records : list StorageRecord;
  ss_unreadable : N
}.

Definition is_full (s : StorageSnapshot) (limit : N) : bool :=
  limit <=? N.of_nat (length (ss_records s)).

Definition contains (s : StorageSnapshot) (id : N) : bool :=
  existsb (fun record => st_id record =? id) (ss_records s).

Definition validate_record (title data : bytes) : res StorageError unit :=
  let title := trim title in
  if bool_decide (title = []) then Err EmptyTitle else
  if (MAX_RECORD_TITLE_BYTES <? length title)%nat then Err (TitleTooLong (length title)) else
  if (MAX_RECORD_DATA_BYTES <? length data)%nat then Err (DataTooLong (length data)) else
  Ok tt.

(** [title.len() as u16] keeps the low 16 bits, as [be_bytes 2] does. *)
Definition encode_record (title data : bytes) : res StorageError bytes :=
  let? _ := validate_record title data in
  let title := trim title in
  Ok (be_bytes 2 (N.of_nat (length title)) ++ title ++ data).

(** [split_at] past the end would panic; the length has been checked. *)
Definition decode_record (input : bytes) : res StorageError (bytes * bytes) :=
  if (length input <? RECORD_FRAMING_BYTES)%nat
  then Err (Malformed "it is shorter than its own header") else
  let header := take RECORD_FRAMING_BYTES input in
  let rest := drop RECORD_FRAMING_BYTES input in
  let title_len := N.to_nat (of_be header) in
  if (length rest <? title_len)%nat then Err (Malformed "the name runs past the end") else
  let title := take title_len rest in
  let data := drop title_len rest in
  if negb (utf8_valid title) then Err (Malformed "the name is not valid text") else
  if negb (utf8_valid data) then Err (Malformed "the contents are not valid text") else
  Ok (title, data).

Definition record_aad (owner_address : bytes) (id : N) : bytes :=
  owner_address ++ be_bytes 4 id.

(** [Vec::dedup]: of equal neighbours the first one stays. *)
Fixpoint dedup_from (x : N) (l : list N) : list N :=
  match l with
  | [] => []
  | y :: l' => if y =? x then dedup_from x l' else y :: dedup_from y l'
  end.
Definition dedup (l : list N) : list N :=
  match l with [] => [] | x :: l' => x :: dedup_from x l' end.

(** The loop over the sorted ids; [candidate += 1] overflows in a panic. *)
Fixpoint next_candidate (candidate : N) (sorted : list N) : res StorageError N :=
  match sorted with
  | [] => Ok candidate
  | id :: sorted' =>
      if candidate <? id then Ok candidate
      else if id =? candidate then
        let? candidate := expect (checked_add u32_max candidate 1) in
        next_candidate candidate sorted'
      else next_candidate candidate sorted'
  end.

Definition next_free_id (taken : list N) (limit : N) : res StorageError N :=
  let sorted := dedup (sort_by_key id taken) in
  if limit <=? N.of_nat (length sorted) then Err (Full limit)
  else next_candidate 1 sorted.

(** ** Records *)
Lemma validate_record_Ok title data :
  validate_record title data = Ok tt <->
  trim title <> [] /\ (length (trim title) <= MAX_RECORD_TITLE_BYTES)%nat
  /\ (length data <= MAX_RECORD_DATA_BYTES)%nat.
Proof.
  unfold validate_record. case_bool_decide as Ht; [naive_solver|].
  destruct (Nat.ltb_spec MAX_RECORD_TITLE_BYTES (length (trim title))); [split; [done|lia]|].
  destruct (Nat.ltb_spec MAX_RECORD_DATA_BYTES (length data)); [split; [done|lia]|].
  split; [by repeat split|done].
Qed.

Lemma encode_record_Ok title data enc :
  encode_record title data = Ok enc <->
  validate_record title data = Ok tt
  /\ enc = be_bytes 2 (N.of_nat (length (trim title))) ++ trim title ++ data.
Proof.
  unfold encode_record. destruct (validate_record title data) as [[]|e|] eqn:E; cbn; naive_solver.
Qed.

Lemma decode_framed title data :
  N.of_nat (length title) < 65536 ->
  decode_record (be_bytes 2 (N.of_nat (length title)) ++ title ++ data)
  = if negb (utf8_valid title) then Err (Malformed "the name is not valid text")
    else if negb (utf8_valid data) then Err (Malformed "the contents are not valid text")
    else Ok (title, data).
Proof.
  intros Hl. unfold decode_record.
  assert (Hh : length (be_bytes 2 (N.of_nat (length title))) = RECORD_FRAMING_BYTES)
    by apply length_be_bytes.
  rewrite length_app, Hh. destruct (Nat.ltb_spec (RECORD_FRAMING_BYTES + length (title ++ data)) RECORD_FRAMING_BYTES); [lia|].
  set (h := be_bytes 2 (N.of_nat (length title))) in *.
  assert (take RECORD_FRAMING_BYTES (h ++ title ++ data) = h) as -> by (rewrite <- Hh; apply take_app_length).
  assert (drop RECORD_FRAMING_BYTES (h ++ title ++ data) = title ++ data) as -> by (rewrite <- Hh; apply drop_app_length).
  unfold h.
  rewrite of_be_be_bytes. change (256 ^ N.of_nat 2) with 65536.
  rewrite N.mod_small, Nat2N.id by done. rewrite length_app.
  destruct (Nat.ltb_spec (length title + length data) (length title)); [lia|].
  by rewrite take_app_length, drop_app_length.
Qed.

(** A record is encoded exactly when its trimmed title is nonempty and both parts are
    within their limits; the encoding is the two texts and two bytes, and decodes to the
    trimmed title and the data. *)
Lemma record_roundtrip (title data : bytes) :
  utf8_valid title = true -> utf8_valid data = true ->
  (is_ok (encode_record title data) = true <->
     trim title <> [] /\ (length (trim title) <= MAX_RECORD_TITLE_BYTES)%nat
     /\ (length data <= MAX_RECORD_DATA_BYTES)%nat)
  /\ forall enc, encode_record title data = Ok enc ->
       length enc = (RECORD_FRAMING_BYTES + length (trim title) + length data)%nat
       /\ decode_record enc = Ok (trim title, data).
Proof.
  intros Hut Hud. split.
  - rewrite is_ok_true, <- validate_record_Ok. split.
    + intros (enc & He). by apply encode_record_Ok in He as [? _].
    + intros Hv. eexists. by apply encode_record_Ok.
  - intros enc [Hv ->]%encode_record_Ok. apply validate_record_Ok in Hv as (Hn & Ht & Hd).
    split. { rewrite !length_app, length_be_bytes. unfold RECORD_FRAMING_BYTES. lia. }
    rewrite decode_framed; [|unfold MAX_RECORD_TITLE_BYTES in Ht; lia].
    rewrite Hud. assert (utf8_valid (trim title) = true) as ->; [|done].
    apply utf8_valid_iff, utf8_trim. by apply utf8_valid_iff.
Qed.

Lemma record_roundtrip_witness :
  exists enc, encode_record (bs " phone ") (bs "86594423664") = Ok enc
    /\ length enc = 18%nat /\ decode_record enc = Ok (bs "phone", bs "86594423664").
Proof.
  eexists. split; [vm_compute; reflexivity|].
  apply (record_roundtrip (bs " phone ") (bs "86594423664")); by vm_compute.
Defined.

(** What decodes was framed: the input is the length, the title and the data. *)
Lemma decode_record_Ok input title data :
  decode_record input = Ok (title, data) ->
  input = be_bytes 2 (N.of_nat (length title)) ++ title ++ data
  /\ utf8_valid title = true /\ utf8_valid data = true.
Proof.
  unfold decode_record. destruct (Nat.ltb_spec (length input) RECORD_FRAMING_BYTES) as [|Hl]; [done|].
  set (rest := drop RECORD_FRAMING_BYTES input). set (k := N.to_nat (of_be (take _ input))).
  destruct (Nat.ltb_spec (length rest) k) as [|Hk]; [done|].
  destruct (utf8_valid (take k rest)) eqn:Hu; [|done].
  destruct (utf8_valid (drop k rest)) eqn:Hv; [|done]. cbn [negb]. intros [= <- <-].
  split; [|done]. rewrite length_take_le, take_drop by done. unfold k, rest.
  rewrite N2Nat.id.
  assert (Hlen : length (take RECORD_FRAMING_BYTES input) = 2%nat) by by apply length_take_le.
  pose proof (be_bytes_of_be (take RECORD_FRAMING_BYTES input)) as Hb. rewrite Hlen in Hb.
  rewrite Hb. by rewrite take_drop.
Qed.

Lemma record_aad_inj owner owner' id id' :
  id <= u32_max -> id' <= u32_max ->
  record_aad owner id = record_aad owner' id' -> owner = owner' /\ id = id'.
Proof.
  intros Hi Hi' E. apply app_inj_2 in E as [-> E]; [|by rewrite !length_be_bytes].
  split; [done|]. assert (Hp : u32_max < 256 ^ N.of_nat 4) by by vm_compute.
  apply (be_bytes_inj 4); [lia..|done].
Qed.

(** ** The next id *)
Lemma dedup_from_spec x l :
  StronglySorted N.le (x :: l) ->
  StronglySorted N.lt (x :: dedup_from x l) /\ forall y, y ∈ x :: dedup_from x l <-> y ∈ x :: l.
Proof.
  revert x. induction l as [|y l IH]; intros x Hs; [split; [by repeat constructor|done]|].
  inversion_clear Hs as [|?? Hyl Hx]. inversion_clear Hx as [|?? Hxy Hxl]. cbn [dedup_from].
  destruct (N.eqb_spec y x) as [->|Hne].
  - destruct (IH x Hyl) as [H1 H2]. split; [done|]. intros z. rewrite H2, !elem_of_cons. tauto.
  - destruct (IH y Hyl) as [H1 H2]. split.
    + constructor; [done|]. apply Forall_forall. intros z Hz%H2.
      assert (y <= z). { apply elem_of_cons in Hz as [->|Hz]; [done|].
        inversion_clear Hyl as [|?? _ Hall]. by apply (proj1 (Forall_forall _ _) Hall). }
      lia.
    + intros z. by rewrite elem_of_cons, H2, <- elem_of_cons.
Qed.

Lemma key_le_N l : StronglySorted (key_le (@id N)) l -> StronglySorted N.le l.
Proof.
  induction 1 as [|x l _ IH Hx]; constructor; [done|]. eapply Forall_impl; [exact Hx|].
  intros y. unfold key_le, cmp, N_ord, id. apply N.compare_le_iff.
Qed.

Lemma dedup_sorted taken :
  let sorted := dedup (sort_by_key id taken) in
  StronglySorted N.lt sorted /\ forall y, y ∈ sorted <-> y ∈ taken.
Proof.
  assert (Hp : forall y, y ∈ sort_by_key id taken <-> y ∈ taken).
  { intros y. by rewrite (sort_by_key_perm id taken). }
  pose proof (key_le_N _ (sort_by_key_sorted (@id N) taken)) as Hs.
  cbv zeta. destruct (sort_by_key id taken) as [|x l] eqn:E; [by split; [constructor|]|].
  cbn [dedup]. destruct (dedup_from_spec x l Hs) as [H1 H2]. split; [done|].
  intros y. by rewrite H2, Hp.
Qed.

Lemma next_candidate_spec l : forall c,
  StronglySorted N.lt l -> c + N.of_nat (length l) <= u32_max ->
  exists c', next_candidate c l = Ok c' /\ c <= c' <= c + N.of_nat (length l)
    /\ c' ∉ l /\ forall j, c <= j < c' -> j ∈ l.
Proof.
  induction l as [|x l IH]; intros c Hs Hb; cbn [next_candidate length].
  { exists c. repeat split; try lia. apply not_elem_of_nil. }
  cbn [length] in Hb. inversion_clear Hs as [|?? Hl Hx]. rewrite Forall_forall in Hx.
  destruct (N.ltb_spec c x) as [Hcx|Hcx].
  { exists c. repeat split; try lia. rewrite not_elem_of_cons. split; [lia|].
    intros Hc%Hx. lia. }
  destruct (N.eqb_spec x c) as [->|Hne].
  - assert (checked_add u32_max c 1 = Some (c + 1)) as -> by (apply checked_add_Some; lia).
    cbn [expect rbind]. destruct (IH (c + 1) Hl ltac:(lia)) as (c' & Hc & Hr & Hn & Hall).
    exists c'. split; [done|]. split; [lia|]. split.
    + rewrite not_elem_of_cons. split; [lia|done].
    + intros j Hj. rewrite elem_of_cons. destruct (decide (j = c)); [by left|].
      right. apply Hall. lia.
  - destruct (IH c Hl ltac:(lia)) as (c' & Hc & Hr & Hn & Hall).
    exists c'. split; [done|]. split; [lia|]. split.
    + rewrite not_elem_of_cons. split; [lia|done].
    + intros j Hj. right. by apply Hall.
Qed.

(** With fewer distinct ids taken than a 16-bit limit, the next id is the smallest
    positive one not taken, at most the limit, and finding it cannot overflow; otherwise
    the answer is that the storage is full. *)
Lemma next_free_id_smallest (taken : list N) (limit : N) :
  limit <= u16_max ->
  (N.of_nat (length (remove_dups taken)) < limit /\
   exists id, next_free_id taken limit = Ok id /\ 1 <= id <= limit
     /\ id ∉ taken /\ forall j, 1 <= j < id -> j ∈ taken)
  \/ (limit <= N.of_nat (length (remove_dups taken))
      /\ next_free_id taken limit = Err (Full limit)).
Proof.
  intros Hlim. unfold next_free_id. pose proof (dedup_sorted taken) as [Hs Hin].
  set (sorted := dedup (sort_by_key id taken)) in *.
  assert (Hnd : NoDup sorted).
  { clear -Hs. induction Hs as [|x l _ IH Hx]; constructor; [|done].
    intros Hxl. rewrite Forall_forall in Hx. specialize (Hx x Hxl). lia. }
  assert (Hlen : length (remove_dups taken) = length sorted).
  { apply Permutation_length, NoDup_Permutation; [apply NoDup_remove_dups|done|].
    intros y. by rewrite elem_of_remove_dups, Hin. }
  rewrite Hlen. destruct (N.leb_spec limit (N.of_nat (length sorted))) as [Hf|Hf]; [by right|left].
  split; [done|]. assert (Hu : u16_max + 1 <= u32_max) by by vm_compute.
  destruct (next_candidate_spec sorted 1 Hs ltac:(lia)) as (c & Hc & Hr & Hn & Hall).
  exists c. rewrite Hc. split; [done|]. split; [lia|]. rewrite <- Hin. split; [done|].
  intros j Hj. apply Hin. by apply Hall.
Qed.

Lemma next_free_id_smallest_witness :
  next_free_id [3; 1; 1; 2; 7] 16 = Ok 4 /\
  ((N.of_nat (length (remove_dups [3; 1; 1; 2; 7])) < 16 /\
    exists id, next_free_id [3; 1; 1; 2; 7] 16 = Ok id /\ 1 <= id <= 16
      /\ id ∉ [3; 1; 1; 2; 7] /\ forall j, 1 <= j < id -> j ∈ [3; 1; 1; 2; 7])
   \/ (16 <= N.of_nat (length (remove_dups [3; 1; 1; 2; 7]))
       /\ next_free_id [3; 1; 1; 2; 7] 16 = Err (Full 16))).
Proof. split; [by vm_compute|]. apply (next_free_id_smallest [3; 1; 1; 2; 7] 16). by vm_compute. Defined.
