(* ===== verification/Strict.v ===== *)
(** * Strict objects (crates/cc-wallet-domain/src/strict.rs)

    Reading a stored JSON object strictly: no duplicate key, the schema stamp first, the
    writer stamp next, every field taken by name, nothing left over.  The JSON reader and
    writer (serde_json) are parameters: [SerdeJson] is what the code calls of them. *)

From Stdlib Require Import NArith ZArith Lia.
From S2P Require Import Prelude Ord Bytes Text Decimal.

(** A type as serde_json writes and reads it ([to_string], [from_str]). *)
Record Slot (T : Type) := { to_str : T -> bytes; from_str : bytes -> option T }.
Arguments to_str {T} s x.
Arguments from_str {T} s text.

(** How a map ends once its members are read: with an error of the reader, with the closing
    brace but more text behind it, or with the closing brace at the end of the input. *)
Inductive map_end := Broken | Trailing | Closed.

(** serde_json: [read_map] is [deserialize_map] over [String] keys and [RawValue]s, [None]
    when the input does not start an object; the members are those [next_entry] returns
    before it fails or ends. *)
Class SerdeJson := {
  read_map : bytes -> option (list (bytes * bytes) * map_end);
  write_map : list (bytes * bytes) -> bytes;
  slot_u8 : Slot N;
  slot_u32 : Slot N;
  slot_usize : Slot N;
  slot_i8 : Slot Z;
  slot_i32 : Slot Z;
  slot_string : Slot bytes;
  slot_strings : Slot (list bytes);
  slot_u32_set : Slot (list N)
}.

Inductive StrictError :=
| StrictMalformed
| DuplicateKey (key : bytes)
| UnsupportedSchema (version : N)
| NewerSchema (version : N)
| MissingWriterStamp
| WrongWriterVersion (expected found : N)
| StrictMissingField (key : string)
| WrongType (key : string)
| UnknownFields (keys : list bytes).

#[export] Instance StrictError_eq_dec : EqDecision StrictError.
Proof. solve_decision. Defined.

Fixpoint join_comma (keys : list bytes) : bytes :=
  match keys with
  | [] => []
  | [k] => k
  | k :: keys' => k ++ bs ", " ++ join_comma keys'
  end.

Definition StrictError_display (e : StrictError) : bytes :=
  match e with
  | StrictMalformed => bs "bytes are not a single well-formed JSON object"
  | DuplicateKey k => bs "duplicate top-level key `" ++ k ++ bs "`"
  | UnsupportedSchema v => bs "schema " ++ print_dec v ++ bs " is not a supported format"
  | NewerSchema v => bs "schema " ++ print_dec v ++ bs " is newer than this build"
  | MissingWriterStamp => bs "current schema requires a writer_version stamp"
  | WrongWriterVersion expected found =>
      bs "writer_version " ++ print_dec found ++ bs " is not the expected " ++ print_dec expected
  | StrictMissingField k => bs "required field `" ++ bs k ++ bs "` is missing"
  | WrongType k => bs "field `" ++ bs k ++ bs "` has the wrong type or a noncanonical value"
  | UnknownFields keys => bs "unexpected field(s): " ++ join_comma keys
  end.

(** [SchemaPolicy]: the two implementations. *)
Record SchemaPolicy := { SCHEMA : N; WRITER : N }.
Definition EnvelopeSchemaV1 : SchemaPolicy := {| SCHEMA := 1; WRITER := 1 |}.
Definition ProfileSchemaV1 : SchemaPolicy := {| SCHEMA := 1; WRITER := 0 |}.

Definition members := list (bytes * bytes).

(** [visit_map]: the first key seen before, if any. *)
Fixpoint first_duplicate (seen : list bytes) (ms : members) : option bytes :=
  match ms with
  | [] => None
  | (key, _) :: ms' =>
      if bool_decide (key ∈ seen) then Some key else first_duplicate (key :: seen) ms'
  end.

(** The first member with the key, and the members without it. *)
Fixpoint take_member (ms : members) (key : bytes) : option (bytes * members) :=
  match ms with
  | [] => None
  | (k, raw) :: ms' =>
      if bool_decide (k = key) then Some (raw, ms')
      else
        match take_member ms' key with
        | Some (v, rest) => Some (v, (k, raw) :: rest)
        | None => None
        end
  end.

Section strict.
Context `{SerdeJson}.

Definition strict_parse (input : bytes) : res StrictError members :=
  match read_map input with
  | None => Err StrictMalformed
  | Some (ms, ending) =>
      match first_duplicate [] ms with
      | Some key => Err (DuplicateKey key)
      | None => match ending with Closed => Ok ms | _ => Err StrictMalformed end
      end
  end.

(** [take_u32_stamp]: the stamp, if there, and the members left. *)
Definition take_u32_stamp (ms : members) (key : bytes) : res StrictError (option N * members) :=
  match take_member ms key with
  | None => Ok (None, ms)
  | Some (raw, ms') =>
      match from_str slot_u32 raw with
      | Some v => Ok (Some v, ms')
      | None => Err StrictMalformed
      end
  end.

Definition require_schema (p : SchemaPolicy) (ms : members) : res StrictError members :=
  let? stamp := take_u32_stamp ms (bs "schema_version") in
  match stamp with
  | (None, _) => Err (UnsupportedSchema 0)
  | (Some schema, ms') =>
      match schema ?= SCHEMA p with
      | Eq => Ok ms'
      | Gt => Err (NewerSchema schema)
      | Lt => Err (UnsupportedSchema schema)
      end
  end.

Definition require_writer (p : SchemaPolicy) (ms : members) : res StrictError members :=
  let? stamp := take_u32_stamp ms (bs "writer_version") in
  match stamp with
  | (None, _) => Err MissingWriterStamp
  | (Some found, ms') =>
      if found =? WRITER p then Ok ms' else Err (WrongWriterVersion (WRITER p) found)
  end.

(** [take_required] and [take_required_zeroizing_string]. *)
Definition take_required {T} (slot : Slot T) (ms : members) (key : string)
  : res StrictError (T * members) :=
  match take_member ms (bs key) with
  | None => Err (StrictMissingField key)
  | Some (raw, ms') =>
      match from_str slot raw with
      | Some x => Ok (x, ms')
      | None => Err (WrongType key)
      end
  end.

Definition finish (ms : members) : res StrictError unit :=
  match ms with [] => Ok tt | _ => Err (UnknownFields (fst <$> ms)) end.

(** ** Members *)
Lemma first_duplicate_None seen ms :
  first_duplicate seen ms = None <-> NoDup (fst <$> ms) /\ forall k, k ∈ fst <$> ms -> k ∉ seen.
Proof.
  revert seen. induction ms as [|[k v] ms IH]; intros seen; cbn [first_duplicate].
  { split; [|done]. intros _. split; [constructor|]. intros k Hk. by apply elem_of_nil in Hk. }
  rewrite fmap_cons, NoDup_cons. cbn [fst]. case_bool_decide as Hs.
  - split; [done|]. intros [_ Ha]. exfalso. apply (Ha k); [left|done].
  - rewrite IH. split.
    + intros [Hn Ha]. repeat split; [|done|].
      * intros Hk. apply (Ha k Hk). left.
      * intros k' [->|Hk']%elem_of_cons; [done|]. intros Hin. apply (Ha k' Hk'). by right.
    + intros [[Hk Hn] Ha]. split; [done|]. intros k' Hk' [->|Hin]%elem_of_cons; [done|].
      apply (Ha k'); [by right|done].
Qed.

Lemma take_member_perm ms key raw rest :
  take_member ms key = Some (raw, rest) -> ms ≡ₚ (key, raw) :: rest.
Proof.
  revert rest. induction ms as [|[k v] ms IH]; intros rest; cbn [take_member]; [done|].
  case_bool_decide as Hk; [intros [= <- <-]; by subst|].
  destruct (take_member ms key) as [[v' rest']|]; [|done]. intros [= <- <-].
  rewrite (IH _ eq_refl). apply perm_swap.
Qed.

Lemma take_member_None ms key : take_member ms key = None <-> key ∉ fst <$> ms.
Proof.
  induction ms as [|[k v] ms IH]; cbn [take_member]; [split; [intros _; apply not_elem_of_nil|done]|].
  rewrite fmap_cons, not_elem_of_cons. cbn [fst]. case_bool_decide as Hk; [naive_solver|].
  destruct (take_member ms key) as [[v' rest']|]; split; try done; naive_solver.
Qed.

(** With distinct keys the member found is the one there is. *)
Lemma take_member_Some ms key raw rest :
  NoDup (fst <$> ms) -> ms ≡ₚ (key, raw) :: rest ->
  exists rest', take_member ms key = Some (raw, rest') /\ rest' ≡ₚ rest.
Proof.
  intros Hn Hp. destruct (take_member ms key) as [[raw' rest']|] eqn:E.
  - apply take_member_perm in E as Hp'.
    assert (raw' = raw) as ->.
    { rewrite Hp in Hp'. assert (Hin : (key, raw) ∈ (key, raw') :: rest') by (rewrite <- Hp'; left).
      apply elem_of_cons in Hin as [[= ->]|Hin]; [done|exfalso].
      apply take_member_perm in E. rewrite E, fmap_cons in Hn. apply NoDup_cons in Hn as [Hn _].
      apply Hn. apply (list_elem_of_fmap_2' _ _ (key, raw)); done. }
    exists rest'. split; [done|]. rewrite Hp in Hp'. by apply Permutation_cons_inv in Hp'.
  - apply take_member_None in E. exfalso. apply E. rewrite Hp. left.
Qed.

Lemma strict_parse_Ok input ms :
  strict_parse input = Ok ms <-> read_map input = Some (ms, Closed) /\ NoDup (fst <$> ms).
Proof.
  unfold strict_parse. destruct (read_map input) as [[ms' ending]|]; [|naive_solver].
  destruct (first_duplicate [] ms') as [k|] eqn:E.
  - split; [done|]. intros [[= -> ->] Hn]. exfalso.
    assert (first_duplicate [] ms = None) as Hf; [|by rewrite Hf in E].
    apply first_duplicate_None. split; [done|]. intros k' _. apply not_elem_of_nil.
  - apply first_duplicate_None in E as [Hn _]. destruct ending; naive_solver.
Qed.

(** A stamp or a field taken from members with distinct keys. *)
Definition field {T} (slot : Slot T) (ms : members) (key : string) (x : T) (rest : members) : Prop :=
  exists raw, ms ≡ₚ (bs key, raw) :: rest /\ from_str slot raw = Some x.

Lemma take_required_Ok {T} (slot : Slot T) ms key x rest :
  take_required slot ms key = Ok (x, rest) -> field slot ms key x rest.
Proof.
  unfold take_required. destruct (take_member ms (bs key)) as [[raw ms']|] eqn:E; [|done].
  destruct (from_str slot raw) as [y|] eqn:Ey; [|done]. intros [= <- <-].
  exists raw. split; [by apply take_member_perm|done].
Qed.

Lemma take_required_intro {T} (slot : Slot T) ms key raw x rest :
  NoDup (fst <$> ms) -> ms ≡ₚ (bs key, raw) :: rest -> from_str slot raw = Some x ->
  exists rest', take_required slot ms key = Ok (x, rest') /\ rest' ≡ₚ rest.
Proof.
  intros Hn Hp Hx. destruct (take_member_Some ms (bs key) raw rest Hn Hp) as (rest' & E & Hr).
  exists rest'. unfold take_required. by rewrite E, Hx.
Qed.

Lemma require_schema_Ok p ms rest :
  require_schema p ms = Ok rest -> field slot_u32 ms "schema_version" (SCHEMA p) rest.
Proof.
  unfold require_schema, take_u32_stamp.
  destruct (take_member ms _) as [[raw ms']|] eqn:E; [|done].
  destruct (from_str slot_u32 raw) as [v|] eqn:Ev; cbn; [|done].
  destruct (N.compare_spec v (SCHEMA p)); [|done|done]. intros [= <-]. subst v.
  exists raw. split; [by apply take_member_perm|done].
Qed.

Lemma require_schema_intro p ms raw rest :
  NoDup (fst <$> ms) -> ms ≡ₚ (bs "schema_version", raw) :: rest ->
  from_str slot_u32 raw = Some (SCHEMA p) ->
  exists rest', require_schema p ms = Ok rest' /\ rest' ≡ₚ rest.
Proof.
  intros Hn Hp Hx. destruct (take_member_Some ms _ raw rest Hn Hp) as (rest' & E & Hr).
  exists rest'. unfold require_schema, take_u32_stamp. rewrite E, Hx. cbn. by rewrite N.compare_refl.
Qed.

Lemma require_writer_Ok p ms rest :
  require_writer p ms = Ok rest -> field slot_u32 ms "writer_version" (WRITER p) rest.
Proof.
  unfold require_writer, take_u32_stamp.
  destruct (take_member ms _) as [[raw ms']|] eqn:E; [|done].
  destruct (from_str slot_u32 raw) as [v|] eqn:Ev; cbn; [|done].
  destruct (N.eqb_spec v (WRITER p)); [|done]. intros [= <-]. subst v.
  exists raw. split; [by apply take_member_perm|done].
Qed.

Lemma require_writer_intro p ms raw rest :
  NoDup (fst <$> ms) -> ms ≡ₚ (bs "writer_version", raw) :: rest ->
  from_str slot_u32 raw = Some (WRITER p) ->
  exists rest', require_writer p ms = Ok rest' /\ rest' ≡ₚ rest.
Proof.
  intros Hn Hp Hx. destruct (take_member_Some ms _ raw rest Hn Hp) as (rest' & E & Hr).
  exists rest'. unfold require_writer, take_u32_stamp. rewrite E, Hx. cbn. by rewrite N.eqb_refl.
Qed.

Lemma finish_Ok ms : finish ms = Ok tt <-> ms = [].
Proof. destruct ms; [done|]. split; done. Qed.

(** The members the texts [raw] give a list of fields. *)
Definition with_keys (keys : list string) (raw : string -> bytes) : members :=
  (fun k => (bs k, raw k)) <$> keys.

Lemma with_keys_nodup keys raw ms :
  bool_decide (NoDup (bs <$> keys)) = true -> ms ≡ₚ with_keys keys raw -> NoDup (fst <$> ms).
Proof.
  rewrite bool_decide_eq_true. intros Hn ->. unfold with_keys. by rewrite <- list_fmap_compose.
Qed.

Lemma take_required_keys {T} (slot : Slot T) ms key keys raw x :
  bool_decide (NoDup (bs <$> (key :: keys))) = true -> ms ≡ₚ with_keys (key :: keys) raw ->
  from_str slot (raw key) = Some x ->
  exists rest, take_required slot ms key = Ok (x, rest) /\ rest ≡ₚ with_keys keys raw.
Proof. intros Hn Hp. apply take_required_intro; [|done]. by eapply with_keys_nodup. Qed.

Lemma require_schema_keys p ms keys raw :
  bool_decide (NoDup (bs <$> ("schema_version" :: keys))) = true ->
  ms ≡ₚ with_keys ("schema_version" :: keys) raw ->
  from_str slot_u32 (raw "schema_version") = Some (SCHEMA p) ->
  exists rest, require_schema p ms = Ok rest /\ rest ≡ₚ with_keys keys raw.
Proof. intros Hn Hp. apply require_schema_intro; [|done]. by eapply with_keys_nodup. Qed.

Lemma require_writer_keys p ms keys raw :
  bool_decide (NoDup (bs <$> ("writer_version" :: keys))) = true ->
  ms ≡ₚ with_keys ("writer_version" :: keys) raw ->
  from_str slot_u32 (raw "writer_version") = Some (WRITER p) ->
  exists rest, require_writer p ms = Ok rest /\ rest ≡ₚ with_keys keys raw.
Proof. intros Hn Hp. apply require_writer_intro; [|done]. by eapply with_keys_nodup. Qed.

(** The texts of members with distinct keys. *)
Definition raw_of (ms : members) (key : string) : bytes :=
  match take_member ms (bs key) with Some (raw, _) => raw | None => [] end.

(** The members of the keys [taken] and those left are all of [ms]. *)
Definition split_keys (ms : members) (taken : list string) (rest : members) : Prop :=
  ms ≡ₚ with_keys taken (raw_of ms) ++ rest.

Lemma split_keys_step {T} (slot : Slot T) ms taken m key x rest :
  NoDup (fst <$> ms) -> split_keys ms taken m -> field slot m key x rest ->
  from_str slot (raw_of ms key) = Some x /\ split_keys ms (taken ++ [key]) rest.
Proof.
  unfold split_keys. intros Hn Hs (raw & Hp & Hx).
  assert (Hr : raw_of ms key = raw).
  { rewrite Hp, <- Permutation_middle in Hs.
    destruct (take_member_Some ms (bs key) raw _ Hn Hs) as (r' & E & _). unfold raw_of. by rewrite E. }
  rewrite Hr. split; [done|]. rewrite Hs at 1. unfold with_keys.
  rewrite fmap_app, <- app_assoc. cbn. by rewrite Hr, Hp.
Qed.
End strict.

(** A decoder taking known keys: one step forward, when the members are known up to order. *)
Ltac next_take lem Hp :=
  let rest := fresh "ms" in let E := fresh "E" in let P := fresh "P" in
  destruct lem as (rest & E & P); rewrite E; cbn [rbind]; clear E Hp; rename P into Hp.
Ltac next_schema p :=
  match goal with
  | Hp : ?ms ≡ₚ with_keys ("schema_version" :: ?keys) ?raw,
    Hx : from_str slot_u32 (?raw "schema_version") = Some _ |- _ =>
      next_take (require_schema_keys p ms keys raw eq_refl Hp Hx) Hp
  end.
Ltac next_writer p :=
  match goal with
  | Hp : ?ms ≡ₚ with_keys ("writer_version" :: ?keys) ?raw,
    Hx : from_str slot_u32 (?raw "writer_version") = Some _ |- _ =>
      next_take (require_writer_keys p ms keys raw eq_refl Hp Hx) Hp
  end.
Ltac next_field :=
  match goal with
  | Hp : ?ms ≡ₚ with_keys (?key :: ?keys) ?raw, Hx : from_str ?slot (?raw ?key) = Some ?x
    |- context [take_required ?slot ?ms ?key] =>
      next_take (take_required_keys slot ms key keys raw x eq_refl Hp Hx) Hp
  end.

(** One step backward, from a decoder's success to the texts of its members. *)
Ltac took_field :=
  match goal with
  | Hn : NoDup (fst <$> ?ms), Hs : split_keys ?ms ?taken ?m, E : take_required ?slot ?m ?key = Ok (_, _) |- _ =>
      let R := fresh "R" in
      apply take_required_Ok in E;
      destruct (split_keys_step _ _ _ _ _ _ _ Hn Hs E) as [R ?]; clear Hs E
  end.
Ltac took_schema :=
  match goal with
  | Hn : NoDup (fst <$> ?ms), Hs : split_keys ?ms ?taken ?m, E : require_schema ?p ?m = Ok _ |- _ =>
      let R := fresh "R" in
      apply require_schema_Ok in E;
      destruct (split_keys_step _ _ _ _ _ _ _ Hn Hs E) as [R ?]; clear Hs E
  end.
Ltac took_writer :=
  match goal with
  | Hn : NoDup (fst <$> ?ms), Hs : split_keys ?ms ?taken ?m, E : require_writer ?p ?m = Ok _ |- _ =>
      let R := fresh "R" in
      apply require_writer_Ok in E;
      destruct (split_keys_step _ _ _ _ _ _ _ Hn Hs E) as [R ?]; clear Hs E
  end.

(** ** What the code relies on of serde_json

    Writing and reading back: a map of valid keys and JSON texts reads as its members, and
    each type reads back what it wrote. *)
Definition in_i8 (z : Z) : Prop := (-128 <= z <= 127)%Z.
Definition in_i32 (z : Z) : Prop := (-2147483648 <= z <= 2147483647)%Z.
Definition wf_u32_set (l : list N) : Prop := StronglySorted N.lt l /\ Forall (fun n => n <= u32_max) l.

Class SerdeJsonLaws `{SerdeJson} := {
  json_text : bytes -> Prop;
  read_write_map : forall ms,
    Forall (fun m => utf8_valid (fst m) = true /\ json_text (snd m)) ms ->
    read_map (write_map ms) = Some (ms, Closed);
  slot_u8_ok : forall n, n <= u8_max ->
    json_text (to_str slot_u8 n) /\ from_str slot_u8 (to_str slot_u8 n) = Some n;
  slot_u32_ok : forall n, n <= u32_max ->
    json_text (to_str slot_u32 n) /\ from_str slot_u32 (to_str slot_u32 n) = Some n;
  slot_usize_ok : forall n, n <= u64_max ->
    json_text (to_str slot_usize n) /\ from_str slot_usize (to_str slot_usize n) = Some n;
  slot_i8_ok : forall z, in_i8 z ->
    json_text (to_str slot_i8 z) /\ from_str slot_i8 (to_str slot_i8 z) = Some z;
  slot_i32_ok : forall z, in_i32 z ->
    json_text (to_str slot_i32 z) /\ from_str slot_i32 (to_str slot_i32 z) = Some z;
  slot_string_ok : forall s, utf8_valid s = true ->
    json_text (to_str slot_string s) /\ from_str slot_string (to_str slot_string s) = Some s;
  slot_strings_ok : forall l, Forall (fun s => utf8_valid s = true) l ->
    json_text (to_str slot_strings l) /\ from_str slot_strings (to_str slot_strings l) = Some l;
  slot_u32_set_ok : forall l, wf_u32_set l ->
    json_text (to_str slot_u32_set l) /\ from_str slot_u32_set (to_str slot_u32_set l) = Some l
}.

(** ** A concrete serde for the witnesses

    Not JSON: texts are escaped byte by byte and ended by a zero byte, numbers are written
    in unary (a sign byte first for the signed ones). *)
Definition toy_enc (s : bytes) : bytes := concat ((fun b => [Byte.x01; b]) <$> s) ++ [Byte.x00].

Fixpoint toy_dec (input : bytes) : option (bytes * bytes) :=
  match input with
  | Byte.x00 :: rest => Some ([], rest)
  | Byte.x01 :: b :: rest =>
      match toy_dec rest with Some (s, rest') => Some (b :: s, rest') | None => None end
  | _ => None
  end.

Lemma toy_dec_enc s rest : toy_dec (toy_enc s ++ rest) = Some (s, rest).
Proof.
  unfold toy_enc. rewrite <- app_assoc. induction s as [|b s IH]; [done|].
  rewrite fmap_cons. cbn [concat]. rewrite <- app_assoc. cbn [app] in *. cbn [toy_dec]. by rewrite IH.
Qed.

Fixpoint toy_dec_list (fuel : nat) (input : bytes) : option (list bytes) :=
  match input with
  | [] => Some []
  | _ =>
      match fuel with
      | O => None
      | S fuel' =>
          match toy_dec input with
          | Some (s, rest) =>
              match toy_dec_list fuel' rest with Some l => Some (s :: l) | None => None end
          | None => None
          end
      end
  end.

Definition toy_enc_list (l : list bytes) : bytes := concat (toy_enc <$> l).

Lemma toy_dec_enc_list l fuel :
  (length (toy_enc_list l) <= fuel)%nat -> toy_dec_list fuel (toy_enc_list l) = Some l.
Proof.
  revert fuel. unfold toy_enc_list. induction l as [|s l IH]; intros fuel Hf; [by destruct fuel|].
  rewrite fmap_cons in *. cbn [concat] in *. rewrite length_app in Hf.
  assert (Hp : (1 <= length (toy_enc s))%nat).
  { unfold toy_enc. rewrite length_app. cbn. lia. }
  destruct fuel as [|fuel]; [lia|].
  pose proof (toy_dec_enc s (concat (toy_enc <$> l))) as Hd.
  destruct (toy_enc s ++ concat (toy_enc <$> l)) eqn:E.
  { apply (f_equal length) in E. rewrite length_app in E. cbn in E. lia. }
  cbn [toy_dec_list]. rewrite Hd, IH by lia. done.
Qed.

Fixpoint toy_pairs (l : list bytes) : list (bytes * bytes) :=
  match l with k :: v :: l' => (k, v) :: toy_pairs l' | _ => [] end.

Definition toy_n (n : N) : bytes := print_dec n.
Definition toy_n_back (max : N) (s : bytes) : option N := parse_unsigned max s.
Definition toy_z (z : Z) : bytes := print_dec (Z.to_N (z + 2147483648)).
Definition toy_z_back (s : bytes) : option Z :=
  match parse_unsigned u64_max s with Some n => Some (Z.of_N n - 2147483648)%Z | None => None end.

Definition toy_list_back (s : bytes) : option (list bytes) := toy_dec_list (length s) s.

Definition toy_serde : SerdeJson := {|
  read_map input :=
    match toy_list_back input with Some l => Some (toy_pairs l, Closed) | None => None end;
  write_map ms := toy_enc_list (concat ((fun m => [fst m; snd m]) <$> ms));
  slot_u8 := {| to_str := toy_n; from_str := toy_n_back u8_max |};
  slot_u32 := {| to_str := toy_n; from_str := toy_n_back u32_max |};
  slot_usize := {| to_str := toy_n; from_str := toy_n_back u64_max |};
  slot_i8 := {| to_str := toy_z; from_str := toy_z_back |};
  slot_i32 := {| to_str := toy_z; from_str := toy_z_back |};
  slot_string := {| to_str := fun s => s; from_str := Some |};
  slot_strings := {| to_str := toy_enc_list; from_str := toy_list_back |};
  slot_u32_set := {| to_str l := toy_enc_list (toy_n <$> l);
                     from_str s := match toy_list_back s with
                                   | Some l => mapM (toy_n_back u32_max) l | None => None end |}
|}.

Lemma toy_z_ok z : in_i32 z -> toy_z_back (toy_z z) = Some z.
Proof.
  unfold in_i32. intros Hz. unfold toy_z_back, toy_z. rewrite parse_print_unsigned.
  - f_equal. rewrite Z2N.id by lia. lia.
  - unfold u64_max. lia.
Qed.

Lemma toy_list_ok l : toy_list_back (toy_enc_list l) = Some l.
Proof. by apply toy_dec_enc_list. Qed.

Lemma toy_serde_laws : @SerdeJsonLaws toy_serde.
Proof.
  refine (@Build_SerdeJsonLaws toy_serde (fun _ => True) _ _ _ _ _ _ _ _ _); unfold in_i8;
    intros; lazymatch goal with |- _ /\ _ => split; [done|] | _ => idtac end;
    cbn [read_map write_map slot_u8 slot_u32 slot_usize slot_i8 slot_i32 slot_string slot_strings
         slot_u32_set toy_serde to_str from_str]; try done.
  - rewrite toy_list_ok. do 2 f_equal. induction ms as [|[k v] ms IH]; [done|]. cbn.
    f_equal. apply IH. by inversion_clear H.
  - by apply parse_print_unsigned.
  - by apply parse_print_unsigned.
  - by apply parse_print_unsigned.
  - apply toy_z_ok. unfold in_i32. lia.
  - by apply toy_z_ok.
  - apply toy_list_ok.
  - rewrite toy_list_ok. apply mapM_Some. destruct H as [_ Hl].
    induction Hl as [|n l Hn _ IH]; constructor; [by apply parse_print_unsigned|done].
Defined.
