(* ===== verification/Profile.v ===== *)
(** * Profiles (crates/cc-wallet-domain/src/profile.rs)

    The wallet profile: its strict stored form, its normalisation, the inputs it hands to
    the wallet, and the snapshot of an account it is shown with. *)

From Stdlib Require Import NArith ZArith Lia Sorting.
From S2P Require Import Prelude Ord Bytes Text Decimal Ids Asset Amount Send Strict.

Definition DEFAULT_ENDPOINT : bytes := bs "http://127.0.0.1:8001/".
Definition DEFAULT_WORKCHAIN : Z := -1.
Definition DEFAULT_NETWORK_ID : Z := 0.
Definition TYCHO_TESTNET_ENDPOINT : bytes := bs "https://rpc-testnet.tychoprotocol.com/".
Definition DEFAULT_AUTOSIGN_MINS : N := 5.
Definition DEFAULT_SCREEN_LOCK_MINS : N := 5.
Definition PROFILE_SCHEMA_VERSION : N := 1.

Definition seed_words (seed : bytes) : N := N.of_nat (length (split_whitespace seed)).

Definition redacted (seed : bytes) : string :=
  let words := seed_words seed in
  if words =? 0 then "<empty>" else message ["<redacted "; dec_string words; " words>"].

Definition normalize_seed (value : bytes) : bytes := join_sp (split_whitespace value).

Definition validate_seed (seed : bytes) : res WalletError unit :=
  let words := seed_words seed in
  if words =? 0 then Err (Validation "seed is empty") else
  if words <? 12
  then Err (Validation (message ["seed looks too short: "; dec_string words; " words"])) else
  Ok tt.

Definition validate_workchain (workchain : Z) : res WalletError unit :=
  if ((workchain =? 0) || (workchain =? -1))%Z then Ok tt
  else Err (Validation "workchain must be 0 or -1").

Record AddressBookEntry := { ab_name : bytes; ab_address : bytes; ab_tag : bytes }.

Definition AddressBookEntry_new (name address : bytes) : AddressBookEntry :=
  {| ab_name := name; ab_address := address; ab_tag := [] |}.

(** The seed is the text a [SeedPhrase] holds; [visible_cc_assets] is an ordered set. *)
Record WalletProfile := mkProfile {
  wp_network_id : Z;
  wp_workchain : Z;
  wp_seed : bytes;
  wp_visible_cc_assets : list N;
  wp_address_book : list AddressBookEntry;
  wp_autosign_mins : N;
  wp_screen_lock_mins : N;
  wp_custom_endpoints : list bytes;
  wp_selected_endpoint : N
}.

Definition WalletProfile_default : WalletProfile :=
  mkProfile DEFAULT_NETWORK_ID DEFAULT_WORKCHAIN [] [] [] DEFAULT_AUTOSIGN_MINS
    DEFAULT_SCREEN_LOCK_MINS [] 0.

Section codec.
Context `{SerdeJson} (slot_address_book : Slot (list AddressBookEntry)).

Definition profile_members (p : WalletProfile) : members :=
  [(bs "schema_version", to_str slot_u32 PROFILE_SCHEMA_VERSION);
   (bs "network_id", to_str slot_i32 (wp_network_id p));
   (bs "workchain", to_str slot_i8 (wp_workchain p));
   (bs "seed", to_str slot_string (wp_seed p));
   (bs "visible_cc_assets", to_str slot_u32_set (wp_visible_cc_assets p));
   (bs "address_book", to_str slot_address_book (wp_address_book p));
   (bs "autosign_mins", to_str slot_u8 (wp_autosign_mins p));
   (bs "screen_lock_mins", to_str slot_u8 (wp_screen_lock_mins p));
   (bs "custom_endpoints", to_str slot_strings (wp_custom_endpoints p));
   (bs "selected_endpoint", to_str slot_usize (wp_selected_endpoint p))].

Definition profile_encode (p : WalletProfile) : bytes := write_map (profile_members p).

Definition profile_decode (input : bytes) : res StrictError WalletProfile :=
  let? members := strict_parse input in
  let? content := require_schema ProfileSchemaV1 members in
  let? (seed, content) := take_required slot_string content "seed" in
  let? (network_id, content) := take_required slot_i32 content "network_id" in
  let? (workchain, content) := take_required slot_i8 content "workchain" in
  let? (visible_cc_assets, content) := take_required slot_u32_set content "visible_cc_assets" in
  let? (address_book, content) := take_required slot_address_book content "address_book" in
  let? (autosign_mins, content) := take_required slot_u8 content "autosign_mins" in
  let? (screen_lock_mins, content) := take_required slot_u8 content "screen_lock_mins" in
  let? (custom_endpoints, content) := take_required slot_strings content "custom_endpoints" in
  let? (selected_endpoint, content) := take_required slot_usize content "selected_endpoint" in
  let? _ := finish content in
  Ok (mkProfile network_id workchain seed visible_cc_assets address_book autosign_mins
        screen_lock_mins custom_endpoints selected_endpoint).
End codec.

(** ** Normalisation *)
Definition is_known_cc_id (id : N) : bool :=
  existsb (fun asset => bool_decide (cc_id (meta_id asset) = Some id)) known_cc_assets.

Definition normalized_entry (entry : AddressBookEntry) : option AddressBookEntry :=
  let name := trim (ab_name entry) in
  let address := trim (ab_address entry) in
  if bool_decide (name = []) || bool_decide (address = []) then None
  else Some {| ab_name := name; ab_address := address; ab_tag := trim (ab_tag entry) |}.

(** The endpoint the 1-based selection points at, if it is not blank. *)
Definition selected_url (p : WalletProfile) : option bytes :=
  if 0 <? wp_selected_endpoint p then
    match wp_custom_endpoints p !! N.to_nat (wp_selected_endpoint p - 1) with
    | Some u => let u := trim u in if bool_decide (u = []) then None else Some u
    | None => None
    end
  else None.

(** [filter(|url| !url.is_empty() && seen.insert(url.clone()))]. *)
Fixpoint distinct_urls (seen : list bytes) (urls : list bytes) : list bytes :=
  match urls with
  | [] => []
  | url :: urls' =>
      if bool_decide (url = []) then distinct_urls seen urls'
      else if bool_decide (url ∈ seen) then distinct_urls seen urls'
      else url :: distinct_urls (url :: seen) urls'
  end.

(** [iter().position(|u| *u == url)]. *)
Fixpoint url_position (url : bytes) (urls : list bytes) : option N :=
  match urls with
  | [] => None
  | u :: urls' =>
      if bool_decide (u = url) then Some 0
      else match url_position url urls' with Some p => Some (p + 1) | None => None end
  end.

Definition normalized (p : WalletProfile) : WalletProfile :=
  let normalized_seed := normalize_seed (wp_seed p) in
  let seed := if bool_decide (normalized_seed = wp_seed p) then wp_seed p else normalized_seed in
  let visible := List.filter is_known_cc_id (wp_visible_cc_assets p) in
  let address_book := omap normalized_entry (wp_address_book p) in
  let endpoints := distinct_urls [] (trim <$> wp_custom_endpoints p) in
  let selected :=
    match selected_url p with
    | None => 0
    | Some url => match url_position url endpoints with Some i => i + 1 | None => 0 end
    end in
  mkProfile (wp_network_id p) (wp_workchain p) seed visible address_book (wp_autosign_mins p)
    (wp_screen_lock_mins p) endpoints selected.

Record WalletInputs := mkInputs {
  wi_endpoint : bytes;
  wi_network_id : Z;
  wi_workchain : Z;
  wi_seed : bytes;
  wi_require_signature_id : bool
}.

Definition wallet_inputs (p : WalletProfile) (endpoint : bytes) (require_signature_id : bool)
  : res WalletError WalletInputs :=
  let? _ := validate_seed (wp_seed p) in
  let? _ := validate_workchain (wp_workchain p) in
  Ok (mkInputs endpoint (wp_network_id p) (wp_workchain p) (wp_seed p) require_signature_id).

(** ** Endpoint data *)
Record EndpointAddressInputs := mkEndpointAddress { ea_endpoint : bytes; ea_address : bytes }.

Definition EndpointAddressInputs_new `{StdAddrLib} (endpoint address : bytes)
  : res WalletError EndpointAddressInputs :=
  if bool_decide (endpoint = []) || negb (bool_decide (trim endpoint = endpoint))
  then Err (Validation "endpoint/address inputs require a nonempty canonical endpoint") else
  let? address := canonicalize_recipient address in
  Ok (mkEndpointAddress endpoint address).

(** [observed_at_mono] is a reading of the monotonic clock. *)
Record ObservedNetworkTime := mkObservedTime {
  ont_value : N;
  ont_source_endpoint : bytes;
  ont_request_id : bytes;
  ont_observed_at_mono : N
}.

Definition ObservedNetworkTime_new (value : N) (source_endpoint request_id : bytes) (observed_at_mono : N)
  : res WalletError ObservedNetworkTime :=
  if negb (bool_decide (trim source_endpoint = source_endpoint)) || bool_decide (source_endpoint = [])
     || negb (bool_decide (trim request_id = request_id)) || bool_decide (request_id = [])
  then Err (Validation "network-time source and request id must be nonempty canonical strings")
  else Ok (mkObservedTime value source_endpoint request_id observed_at_mono).

Record WalletSnapshot := mkSnapshot {
  ws_address : bytes;
  ws_global_id : Z;
  ws_status : bytes;
  ws_native_balance : N;
  ws_extra_balance : btree N CcAmount;
  ws_last_trans_lt : N;
  ws_last_message_ms : N;
  ws_observed_network_time : option ObservedNetworkTime
}.

Definition new_with_network_time (address : bytes) (global_id : Z) (status : bytes)
    (native_balance : N) (extra_balance : btree N CcAmount) (last_trans_lt : N)
    (observed_network_time : option ObservedNetworkTime) : res WalletError WalletSnapshot :=
  if NATIVE_MAX_UNITS <? native_balance
  then Err (AmountErr "native snapshot balance exceeds the protocol maximum")
  else Ok (mkSnapshot address global_id status native_balance extra_balance last_trans_lt 0
             observed_network_time).

Definition WalletSnapshot_new (address : bytes) (global_id : Z) (status : bytes)
    (native_balance : N) (extra_balance : btree N CcAmount) (last_trans_lt : N)
  : res WalletError WalletSnapshot :=
  new_with_network_time address global_id status native_balance extra_balance last_trans_lt None.

Definition with_last_message_ms (s : WalletSnapshot) (last_message_ms : N) : WalletSnapshot :=
  mkSnapshot (ws_address s) (ws_global_id s) (ws_status s) (ws_native_balance s)
    (ws_extra_balance s) (ws_last_trans_lt s) last_message_ms (ws_observed_network_time s).

Definition WalletSnapshot_empty (address : bytes) : res Empty_set WalletSnapshot :=
  rexpect (WalletSnapshot_new address 0 (bs "Unknown") 0 [] 0).

(** The snapshot after the call, and its result. *)
Definition replace_balances (s : WalletSnapshot) (native_balance : N) (extra_balance : btree N CcAmount)
  : WalletSnapshot * res WalletError unit :=
  if NATIVE_MAX_UNITS <? native_balance
  then (s, Err (AmountErr "native snapshot balance exceeds the protocol maximum"))
  else (mkSnapshot (ws_address s) (ws_global_id s) (ws_status s) native_balance extra_balance
          (ws_last_trans_lt s) (ws_last_message_ms s) (ws_observed_network_time s), Ok tt).

Definition balance_for (s : WalletSnapshot) (asset : AssetId) : res Empty_set AssetAmount :=
  match asset with
  | Native => rexpect (amount_native (ws_native_balance s))
  | CurrencyCollection id =>
      Ok (currency_collection id
            (match bt_get id (ws_extra_balance s) with Some u => u | None => cc_zero end))
  end.

(** ** The stored form *)

(** The fields in the order they are taken. *)
Definition profile_keys : list string :=
  ["schema_version"; "seed"; "network_id"; "workchain"; "visible_cc_assets"; "address_book";
   "autosign_mins"; "screen_lock_mins"; "custom_endpoints"; "selected_endpoint"].

Definition wf_profile (p : WalletProfile) : Prop :=
  in_i32 (wp_network_id p) /\ in_i8 (wp_workchain p) /\ utf8_valid (wp_seed p) = true
  /\ wf_u32_set (wp_visible_cc_assets p) /\ wp_autosign_mins p <= u8_max
  /\ wp_screen_lock_mins p <= u8_max
  /\ Forall (fun u => utf8_valid u = true) (wp_custom_endpoints p)
  /\ wp_selected_endpoint p <= u64_max.

(** The texts [raw] of the fields stand for the profile. *)
Definition profile_reads `{SerdeJson} (slot_address_book : Slot (list AddressBookEntry))
    (raw : string -> bytes) (p : WalletProfile) : Prop :=
  from_str slot_u32 (raw "schema_version") = Some PROFILE_SCHEMA_VERSION
  /\ from_str slot_string (raw "seed") = Some (wp_seed p)
  /\ from_str slot_i32 (raw "network_id") = Some (wp_network_id p)
  /\ from_str slot_i8 (raw "workchain") = Some (wp_workchain p)
  /\ from_str slot_u32_set (raw "visible_cc_assets") = Some (wp_visible_cc_assets p)
  /\ from_str slot_address_book (raw "address_book") = Some (wp_address_book p)
  /\ from_str slot_u8 (raw "autosign_mins") = Some (wp_autosign_mins p)
  /\ from_str slot_u8 (raw "screen_lock_mins") = Some (wp_screen_lock_mins p)
  /\ from_str slot_strings (raw "custom_endpoints") = Some (wp_custom_endpoints p)
  /\ from_str slot_usize (raw "selected_endpoint") = Some (wp_selected_endpoint p).

Lemma profile_decode_intro `{SerdeJson} slot_address_book input ms raw p :
  read_map input = Some (ms, Closed) -> ms ≡ₚ with_keys profile_keys raw ->
  profile_reads slot_address_book raw p -> profile_decode slot_address_book input = Ok p.
Proof.
  intros Hr Hp (R0 & R1 & R2 & R3 & R4 & R5 & R6 & R7 & R8 & R9).
  unfold profile_decode. rewrite (proj2 (strict_parse_Ok input ms)); cbn [rbind].
  2:{ split; [done|]. eapply with_keys_nodup; [|exact Hp]; by vm_compute. }
  unfold profile_keys in Hp. next_schema ProfileSchemaV1. do 9 next_field.
  apply Permutation_nil_r in Hp as ->. by destruct p.
Qed.

Lemma profile_decode_elim `{SerdeJson} slot_address_book input p :
  profile_decode slot_address_book input = Ok p ->
  exists ms raw, read_map input = Some (ms, Closed) /\ ms ≡ₚ with_keys profile_keys raw
    /\ profile_reads slot_address_book raw p.
Proof.
  unfold profile_decode. intros E. rinv E.
  apply strict_parse_Ok in Hm as [Hr Hn]. assert (Hs : split_keys a [] a) by (unfold split_keys; reflexivity).
  took_schema. do 9 took_field. destruct a10. apply finish_Ok in Hm10 as ->.
  exists a, (raw_of a). split; [done|]. split; [|done].
  match goal with H : split_keys _ _ [] |- _ => unfold split_keys in H; by rewrite app_nil_r in H end.
Qed.

(** Decoding is exact. A profile is read from precisely the inputs that are one JSON
    object holding each of the ten fields once and nothing else, in any order, with the
    schema stamp of this version and each text read by its field's type. *)
Lemma profile_decode_exact `{SerdeJson} (slot_address_book : Slot (list AddressBookEntry))
    (input : bytes) (p : WalletProfile) :
  profile_decode slot_address_book input = Ok p <->
  exists ms raw, read_map input = Some (ms, Closed) /\ ms ≡ₚ with_keys profile_keys raw
    /\ profile_reads slot_address_book raw p.
Proof.
  split; [apply profile_decode_elim|]. intros (ms & raw & Hr & Hp & Hreads).
  by eapply profile_decode_intro.
Qed.

(** Every profile reads back as it was written. *)
Lemma profile_encode_decode `{SerdeJsonLaws} (slot_address_book : Slot (list AddressBookEntry))
    (p : WalletProfile) :
  json_text (to_str slot_address_book (wp_address_book p)) ->
  from_str slot_address_book (to_str slot_address_book (wp_address_book p)) = Some (wp_address_book p) ->
  wf_profile p ->
  profile_decode slot_address_book (profile_encode slot_address_book p) = Ok p.
Proof.
  intros Ht Hb (Hni & Hwc & Hse & Hvis & Hau & Hsc & Hep & Hsel).
  pose proof (slot_u32_ok PROFILE_SCHEMA_VERSION ltac:(by vm_compute)) as [T0 R0].
  apply slot_i32_ok in Hni as [T1 R1]. apply slot_i8_ok in Hwc as [T2 R2].
  apply slot_string_ok in Hse as [T3 R3]. apply slot_u32_set_ok in Hvis as [T4 R4].
  apply slot_u8_ok in Hau as [T5 R5], Hsc as [T6 R6].
  apply slot_strings_ok in Hep as [T7 R7]. apply slot_usize_ok in Hsel as [T8 R8].
  set (ms := profile_members slot_address_book p).
  apply (profile_decode_intro _ _ ms (raw_of ms)).
  - apply read_write_map. repeat constructor; done.
  - unfold with_keys, profile_keys. cbn [fmap list_fmap]. unfold ms, profile_members.
    constructor. apply Permutation_sym.
    apply (Permutation_middle [(bs "network_id", _); (bs "workchain", _)] _ (bs "seed", _)).
  - by repeat split.
Qed.

Lemma profile_encode_decode_witness :
  let p := mkProfile 2000 (-1) (bs "alpha beta") [1; 3] [] 5 10 [bs "http://a/"; bs "http://b/"] 2 in
  @profile_decode toy_serde {| to_str _ := []; from_str _ := Some [] |}
    (@profile_encode toy_serde {| to_str _ := []; from_str _ := Some [] |} p) = Ok p.
Proof.
  intros p. apply (@profile_encode_decode toy_serde toy_serde_laws {| to_str _ := []; from_str _ := Some [] |} p).
  - exact I.
  - reflexivity.
  - unfold wf_profile, wf_u32_set. cbn. unfold in_i32, in_i8.
    repeat match goal with |- _ /\ _ => split | |- Forall _ _ => constructor
      | |- StronglySorted _ _ => constructor end; try lia; try (by vm_compute).
Defined.

(** ** Normalising a profile *)
Lemma normalize_seed_words seed : split_whitespace (normalize_seed seed) = split_whitespace seed.
Proof. apply split_join, split_whitespace_words. Qed.

Lemma normalize_seed_idemp seed : normalize_seed (normalize_seed seed) = normalize_seed seed.
Proof. unfold normalize_seed at 1. by rewrite normalize_seed_words. Qed.

Lemma normalized_entry_Some e e' :
  normalized_entry e = Some e' ->
  normalized_entry e' = Some e' /\ ab_name e' <> [] /\ ab_address e' <> []
  /\ trim (ab_name e') = ab_name e' /\ trim (ab_address e') = ab_address e' /\ trim (ab_tag e') = ab_tag e'.
Proof.
  unfold normalized_entry. destruct (bool_decide (trim (ab_name e) = []) || _) eqn:E; [done|].
  intros [= <-]. cbn [ab_name ab_address ab_tag]. rewrite !trim_idemp, E. bprop. done.
Qed.

Lemma omap_fixed {A} (f : A -> option A) (l : list A) :
  Forall (fun x => f x = Some x) l -> omap f l = l.
Proof. induction 1 as [|x l Hx _ IH]; [done|]. cbn. rewrite Hx. by f_equal. Qed.

Lemma filter_fixed {A} (f : A -> bool) (l : list A) :
  Forall (fun x => f x = true) l -> List.filter f l = l.
Proof. induction 1 as [|x l Hx _ IH]; [done|]. cbn. rewrite Hx. by f_equal. Qed.

Lemma elem_of_filter_bool {A} (f : A -> bool) (l : list A) x :
  x ∈ List.filter f l <-> x ∈ l /\ f x = true.
Proof. by rewrite !list_elem_of_In, filter_In. Qed.

Lemma distinct_urls_spec urls : forall seen,
  NoDup (distinct_urls seen urls)
  /\ forall u, u ∈ distinct_urls seen urls <-> u ∈ urls /\ u <> [] /\ u ∉ seen.
Proof.
  induction urls as [|url urls IH]; intros seen; cbn [distinct_urls].
  { split; [constructor|]. intros u. by rewrite !elem_of_nil; tauto. }
  case_bool_decide as Hn.
  { destruct (IH seen) as [H1 H2]. split; [done|]. intros u. rewrite H2, elem_of_cons. naive_solver. }
  case_bool_decide as Hs.
  { destruct (IH seen) as [H1 H2]. split; [done|]. intros u. rewrite H2, elem_of_cons. naive_solver. }
  destruct (IH (url :: seen)) as [H1 H2]. split.
  - constructor; [|done]. rewrite H2. intros (_ & _ & Hu). apply Hu. left.
  - intros u. rewrite !elem_of_cons, H2, not_elem_of_cons.
    destruct (decide (u = url)) as [->|]; [tauto|]. naive_solver.
Qed.

Lemma distinct_urls_length urls : forall seen, (length (distinct_urls seen urls) <= length urls)%nat.
Proof. induction urls as [|u urls IH]; intros seen; cbn; [lia|]. repeat case_bool_decide; cbn; auto with arith. Qed.

Lemma distinct_urls_fixed urls : forall seen,
  NoDup urls -> Forall (fun u => u <> [] /\ u ∉ seen) urls -> distinct_urls seen urls = urls.
Proof.
  induction urls as [|u urls IH]; intros seen Hn Hf; cbn [distinct_urls]; [done|].
  apply NoDup_cons in Hn as [Hu Hn]. apply Forall_cons in Hf as [[Hne Hs] Hf].
  rewrite !bool_decide_eq_false_2 by done. f_equal. apply IH; [done|].
  rewrite Forall_forall in *. intros v Hv. destruct (Hf v Hv) as [Hv1 Hv2]. split; [done|].
  rewrite not_elem_of_cons. split; [by intros ->|done].
Qed.

Lemma url_position_Some url urls :
  url ∈ urls -> exists i, url_position url urls = Some i /\ urls !! N.to_nat i = Some url
    /\ i < N.of_nat (length urls).
Proof.
  induction urls as [|u urls IH]; [by intros ?%elem_of_nil|]. cbn [url_position].
  case_bool_decide as Hu; [intros _; exists 0; subst; cbn; repeat split; lia|].
  intros [->|Hin]%elem_of_cons; [done|]. destruct (IH Hin) as (i & -> & Hi & Hl).
  exists (i + 1). split; [done|]. rewrite N.add_1_r, N2Nat.inj_succ. cbn. split; [done|lia].
Qed.

Lemma selected_url_Some p u :
  selected_url p = Some u -> u <> [] /\ trim u = u /\ u ∈ trim <$> wp_custom_endpoints p.
Proof.
  unfold selected_url. destruct (0 <? _); [|done].
  destruct (wp_custom_endpoints p !! _) as [v|] eqn:Hv; [|done].
  case_bool_decide as Hn; [done|]. intros [= <-]. split; [done|]. split; [apply trim_idemp|].
  apply list_elem_of_fmap. exists v. split; [done|]. by eapply list_elem_of_lookup_2.
Qed.

Lemma normalized_endpoints p u :
  u ∈ wp_custom_endpoints (normalized p) <->
  u <> [] /\ exists e, e ∈ wp_custom_endpoints p /\ trim e = u.
Proof.
  cbn. destruct (distinct_urls_spec (trim <$> wp_custom_endpoints p) []) as [_ ->].
  rewrite list_elem_of_fmap. split.
  - intros ((e & -> & He) & Hn & _). split; [done|]. by exists e.
  - intros (Hn & e & He & <-). split; [by exists e|]. split; [done|apply not_elem_of_nil].
Qed.

Lemma normalized_endpoints_trimmed p :
  trim <$> wp_custom_endpoints (normalized p) = wp_custom_endpoints (normalized p).
Proof.
  rewrite <- list_fmap_id. apply list_fmap_ext. intros i u Hu.
  apply list_elem_of_lookup_2, normalized_endpoints in Hu as (_ & e & _ & <-). apply trim_idemp.
Qed.

Lemma normalized_selected p :
  selected_url (normalized p) = selected_url p
  /\ wp_selected_endpoint (normalized p) <= N.of_nat (length (wp_custom_endpoints (normalized p))).
Proof.
  destruct (selected_url p) as [u|] eqn:E.
  - apply selected_url_Some in E as Hu. destruct Hu as (Hn & Ht & Hin).
    assert (Hin' : u ∈ wp_custom_endpoints (normalized p)).
    { apply normalized_endpoints. split; [done|]. apply list_elem_of_fmap in Hin as (e & -> & He).
      by exists e. }
    destruct (url_position_Some u _ Hin') as (i & Hp & Hl & Hb).
    assert (Hsel : wp_selected_endpoint (normalized p) = i + 1).
    { cbn. rewrite E. cbn in Hp. by rewrite Hp. }
    rewrite Hsel. split; [|lia]. unfold selected_url. rewrite Hsel.
    rewrite (proj2 (N.ltb_lt _ _)) by lia. rewrite N.add_sub, Hl. cbv zeta.
    by rewrite Ht, bool_decide_eq_false_2.
  - assert (Hsel : wp_selected_endpoint (normalized p) = 0) by (cbn; by rewrite E).
    rewrite Hsel. split; [|lia]. unfold selected_url. by rewrite Hsel.
Qed.

Lemma normalized_seed p : wp_seed (normalized p) = normalize_seed (wp_seed p).
Proof. cbn. case_bool_decide; congruence. Qed.

Lemma normalized_idemp p : normalized (normalized p) = normalized p.
Proof.
  destruct (normalized_selected p) as [Hsel _].
  unfold normalized at 1. rewrite Hsel, normalized_endpoints_trimmed.
  rewrite (distinct_urls_fixed _ []).
  2:{ apply distinct_urls_spec. }
  2:{ apply Forall_forall. intros u Hu. apply normalized_endpoints in Hu as [Hn _].
      split; [done|apply not_elem_of_nil]. }
  rewrite omap_fixed.
  2:{ apply Forall_forall. intros e (e0 & _ & He)%list_elem_of_omap.
      apply normalized_entry_Some in He as [He _]. exact He. }
  rewrite filter_fixed.
  2:{ apply Forall_forall. intros id Hid.
      apply elem_of_filter_bool in Hid as [_ Hid]. exact Hid. }
  rewrite normalized_seed, normalize_seed_idemp, bool_decide_eq_true_2 by done.
  rewrite <- normalized_seed. by destruct p.
Qed.

(** Normalising keeps what a profile means in one canonical form: the words of the seed,
    the known assets, the named contacts and the nonblank endpoints, each trimmed and once,
    with the selection on the same endpoint and in range.  Doing it again changes nothing. *)
Lemma normalized_canonical (p : WalletProfile) :
  normalized (normalized p) = normalized p
  /\ split_whitespace (wp_seed (normalized p)) = split_whitespace (wp_seed p)
  /\ (forall id, id ∈ wp_visible_cc_assets (normalized p) <->
        id ∈ wp_visible_cc_assets p /\ is_known_cc_id id = true)
  /\ (forall e, e ∈ wp_address_book (normalized p) ->
        ab_name e <> [] /\ ab_address e <> [] /\ trim (ab_name e) = ab_name e
        /\ trim (ab_address e) = ab_address e)
  /\ NoDup (wp_custom_endpoints (normalized p))
  /\ (forall u, u ∈ wp_custom_endpoints (normalized p) <->
        u <> [] /\ exists e, e ∈ wp_custom_endpoints p /\ trim e = u)
  /\ selected_url (normalized p) = selected_url p
  /\ wp_selected_endpoint (normalized p) <= N.of_nat (length (wp_custom_endpoints (normalized p))).
Proof.
  split; [apply normalized_idemp|]. split; [rewrite normalized_seed; apply normalize_seed_words|].
  split; [intros id; apply elem_of_filter_bool|]. split.
  { cbn. intros e (e0 & _ & He)%list_elem_of_omap. by apply normalized_entry_Some in He as (_ & ? & ? & ? & ? & _). }
  split; [apply distinct_urls_spec|]. split; [apply normalized_endpoints|]. apply normalized_selected.
Qed.

(** The wallet gets its inputs exactly when the seed has at least twelve words and the
    workchain is 0 or -1, and a normalised profile gives them exactly when the original does. *)
Lemma wallet_inputs_exact (p : WalletProfile) (endpoint : bytes) (sig : bool) (i : WalletInputs) :
  (wallet_inputs p endpoint sig = Ok i <->
   i = mkInputs endpoint (wp_network_id p) (wp_workchain p) (wp_seed p) sig
   /\ 12 <= seed_words (wp_seed p) /\ (wp_workchain p = 0 \/ wp_workchain p = -1)%Z)
  /\ is_ok (wallet_inputs (normalized p) endpoint sig) = is_ok (wallet_inputs p endpoint sig).
Proof.
  assert (Hv : forall s, validate_seed s = Ok tt <-> 12 <= seed_words s).
  { intros s. unfold validate_seed. destruct (N.eqb_spec (seed_words s) 0); [split; [done|lia]|].
    destruct (N.ltb_spec (seed_words s) 12); split; done || lia. }
  assert (Hw : forall w, validate_workchain w = Ok tt <-> (w = 0 \/ w = -1)%Z).
  { intros w. unfold validate_workchain. destruct (Z.eqb_spec w 0), (Z.eqb_spec w (-1)); cbn; naive_solver. }
  split.
  - unfold wallet_inputs. rewrite <- Hv, <- Hw.
    destruct (validate_seed (wp_seed p)) as [[]| |], (validate_workchain (wp_workchain p)) as [[]| |];
      cbn; naive_solver.
  - unfold wallet_inputs. rewrite normalized_seed.
    assert (validate_seed (normalize_seed (wp_seed p)) = validate_seed (wp_seed p)) as ->.
    { unfold validate_seed, seed_words. by rewrite normalize_seed_words. }
    change (wp_workchain (normalized p)) with (wp_workchain p).
    destruct (validate_seed (wp_seed p)) as [[]| |], (validate_workchain (wp_workchain p)) as [[]| |]; done.
Qed.

(** Normalising keeps a profile well formed. *)
Lemma StronglySorted_filter_bool {A} (R : A -> A -> Prop) (f : A -> bool) l :
  StronglySorted R l -> StronglySorted R (List.filter f l).
Proof.
  induction 1 as [|x l _ IH Hx]; cbn; [constructor|]. destruct (f x); [|done]. constructor; [done|].
  rewrite Forall_forall in Hx |- *. intros y [Hy _]%elem_of_filter_bool. by apply Hx.
Qed.

Lemma normalized_wf p :
  wf_profile p -> N.of_nat (length (wp_custom_endpoints p)) <= u64_max -> wf_profile (normalized p).
Proof.
  intros (Hn & Hw & Hs & [Hv1 Hv2] & Ha & Hl & He & Hsel) Hlen.
  split; [done|]. split; [done|]. split.
  { rewrite normalized_seed. apply utf8_valid_iff, utf8_join_sp, utf8_split_whitespace. by apply utf8_valid_iff. }
  split.
  { split; [by apply StronglySorted_filter_bool|]. cbn. rewrite Forall_forall in Hv2 |- *.
    intros n [Hin _]%elem_of_filter_bool. by apply Hv2. }
  split; [done|]. split; [done|]. split.
  { apply Forall_forall. intros u (_ & e & Hin & <-)%normalized_endpoints.
    apply utf8_valid_iff, utf8_trim, utf8_valid_iff. rewrite Forall_forall in He. by apply He. }
  destruct (normalized_selected p) as [_ Hb]. eapply N.le_trans; [done|].
  assert (length (wp_custom_endpoints (normalized p)) <= length (wp_custom_endpoints p))%nat; [|lia].
  cbn. etransitivity; [apply distinct_urls_length|]. by rewrite length_fmap.
Qed.

(** A snapshot's balances stay within the domain of amounts. *)
Definition wf_snapshot (s : WalletSnapshot) : Prop :=
  ws_native_balance s <= NATIVE_MAX_UNITS
  /\ forall id u, bt_get id (ws_extra_balance s) = Some u -> in_domain (CcAssetAmount id u).

Lemma replace_balances_wf s native extra :
  wf_snapshot s -> (forall id u, bt_get id extra = Some u -> in_domain (CcAssetAmount id u)) ->
  wf_snapshot (fst (replace_balances s native extra)).
Proof.
  intros Hs He. unfold replace_balances. destruct (N.ltb_spec NATIVE_MAX_UNITS native); [done|].
  by split.
Qed.

(** Asking a snapshot for a balance never panics. *)
Lemma balance_for_ok s asset :
  wf_snapshot s -> exists a, balance_for s asset = Ok a /\ in_domain a /\ asset_id a = asset.
Proof.
  intros [Hn He]. destruct asset as [|id]; cbn.
  - unfold amount_native. rewrite (proj2 (N.ltb_ge _ _)) by done. by eexists.
  - eexists. split; [done|]. split; [|done]. unfold currency_collection.
    destruct (bt_get id (ws_extra_balance s)) as [u|] eqn:E; [by apply He|]. by vm_compute.
Qed.
