(* ===== verification/Network.v ===== *)
(** * Networks (crates/cc-wallet-domain/src/network.rs)

    The networks the wallet knows, and what it looks up in them by id. *)

From Stdlib Require Import NArith ZArith Lia.
From S2P Require Import Prelude Ord Bytes Text Decimal Ids Asset Amount Send Strict Profile.

Definition LOCAL_DEX_POOL : bytes :=
  bs "0:4273920c193f325e2db7d77b5668c8ac60f4d2ac37bc239b9aeea5a27924ccf4".

Record Network := mkNetwork {
  net_id : Z;
  net_name : bytes;
  endpoints : list bytes;
  selected : N;
  net_require_signature_id : bool;
  net_dex_pool : bytes
}.

Definition active_endpoint (n : Network) : option bytes :=
  match endpoints n with
  | [] => None
  | _ =>
      let idx := N.min (selected n) (N.of_nat (length (endpoints n)) - 1) in
      endpoints n !! N.to_nat idx
  end.

Definition dex_pool (n : Network) : option bytes :=
  let trimmed := trim (net_dex_pool n) in
  if bool_decide (trimmed = []) then None else Some trimmed.

(** [NetworkRegistry { networks }]. *)
Definition NetworkRegistry := list Network.

Definition registry_defaults : NetworkRegistry :=
  [mkNetwork 2000 (bs "Tycho testnet") [TYCHO_TESTNET_ENDPOINT] 0 true [];
   mkNetwork 0 (bs "Local") [DEFAULT_ENDPOINT] 0 false LOCAL_DEX_POOL].

Definition registry_get (r : NetworkRegistry) (id : Z) : option Network :=
  find (fun n => (net_id n =? id)%Z) r.
Definition endpoint_for (r : NetworkRegistry) (id : Z) : option bytes :=
  match registry_get r id with Some n => active_endpoint n | None => None end.
Definition dex_pool_for (r : NetworkRegistry) (id : Z) : option bytes :=
  match registry_get r id with Some n => dex_pool n | None => None end.
Definition name_for (r : NetworkRegistry) (id : Z) : option bytes :=
  match registry_get r id with Some n => Some (net_name n) | None => None end.
Definition require_signature_id (r : NetworkRegistry) (id : Z) : bool :=
  match registry_get r id with Some n => net_require_signature_id n | None => false end.

(** A network has an active endpoint exactly when it has one at all, whatever the stored
    selection: a stale index falls on the last one. *)
Lemma active_endpoint_some n :
  (active_endpoint n = None <-> endpoints n = [])
  /\ forall u, active_endpoint n = Some u -> u ∈ endpoints n.
Proof.
  unfold active_endpoint. destruct (endpoints n) as [|e l] eqn:E; [done|].
  set (idx := N.min _ _). destruct ((e :: l) !! N.to_nat idx) as [v|] eqn:Hv.
  - split; [done|]. intros u [= <-]. by eapply list_elem_of_lookup_2.
  - apply lookup_ge_None in Hv. cbn [length] in *. lia.
Qed.

(** A known network pins its signature policy and endpoint; an unknown one has neither. *)
Lemma registry_unknown r id :
  id ∉ net_id <$> r -> endpoint_for r id = None /\ dex_pool_for r id = None
    /\ name_for r id = None /\ require_signature_id r id = false.
Proof.
  intros Hid. assert (registry_get r id = None) as Hg; [|unfold endpoint_for, dex_pool_for,
    name_for, require_signature_id; by rewrite Hg].
  unfold registry_get. induction r as [|n r IH]; [done|]. cbn.
  rewrite fmap_cons, not_elem_of_cons in Hid. destruct Hid as [Hn Hr].
  destruct (Z.eqb_spec (net_id n) id); [congruence|by apply IH].
Qed.

Lemma defaults_lookup :
  endpoint_for registry_defaults 0 = Some DEFAULT_ENDPOINT
  /\ endpoint_for registry_defaults 2000 = Some TYCHO_TESTNET_ENDPOINT
  /\ dex_pool_for registry_defaults 0 = Some LOCAL_DEX_POOL
  /\ dex_pool_for registry_defaults 2000 = None
  /\ require_signature_id registry_defaults 2000 = true
  /\ require_signature_id registry_defaults 0 = false.
Proof. by vm_compute. Qed.
