(* ===== verification/Clock.v ===== *)
(** * The validator clock (crates/cc-wallet-domain/src/validator_clock.rs)

    The integer part of the display: rounds and their colours, the election window and the
    countdowns. The needle and the arc fractions are 32-bit floating-point numbers for the
    screen and are not modelled. *)

From Stdlib Require Import NArith Lia.
From S2P Require Import Prelude Ord Bytes Text Decimal.

Inductive RoundColor := Blue | Green.

Definition color_name (c : RoundColor) : string :=
  match c with Blue => "BLUE" | Green => "GREEN" end.
Definition is_green (c : RoundColor) : bool := match c with Green => true | Blue => false end.
Definition of_round (round_id : N) : RoundColor := if round_id mod 2 =? 0 then Blue else Green.

Record ValidatorCycle := {
  validators_elected_for : N;
  elections_start_before : N;
  elections_end_before : N;
  current_utime_since : N;
  current_utime_until : N;
  next_utime_until : option N
}.

Definition fmt_duration (secs : N) : string :=
  let h := secs / 3600 in
  let m := secs mod 3600 / 60 in
  let s := secs mod 60 in
  if 0 <? h then message [dec_string h; "h "; dec_string m; "m "; dec_string s; "s"]
  else if 0 <? m then message [dec_string m; "m "; dec_string s; "s"]
  else message [dec_string s; "s"].

Record ClockDisplay := {
  round_id : N;
  round_color : RoundColor;
  elections_open : bool;
  next_round_color : RoundColor;
  round_ends_in : string;
  elections_value : string;
  elections_countdown : string
}.

(** [elections_start], [elections_end]. *)
Definition election_window (c : ValidatorCycle) (now : N) : N * N :=
  let round_duration := N.max (saturating_sub (current_utime_until c) (current_utime_since c)) 1 in
  let anchor := match next_utime_until c with Some t => t | None => current_utime_until c end in
  let raw_start := saturating_sub anchor (elections_start_before c) in
  let raw_end := saturating_sub anchor (elections_end_before c) in
  let shift := if raw_end <? now then round_duration else 0 in
  (saturating_add u32_max raw_start shift, saturating_add u32_max raw_end shift).

Definition clock_display (c : ValidatorCycle) (now : N) : ClockDisplay :=
  let elect_for := N.max (validators_elected_for c) 1 in
  let rid := current_utime_since c / elect_for in
  let '(elections_start, elections_end) := election_window c now in
  let open := (elections_start <=? now) && (now <? elections_end) in
  let '(countdown, value) :=
    if open then (fmt_duration (saturating_sub elections_end now), "OPEN")
    else (fmt_duration (saturating_sub elections_start now), "CLOSED") in
  {| round_id := rid; round_color := of_round rid; elections_open := open;
     next_round_color := of_round ((rid + 1) mod 2 ^ 64);
     round_ends_in := fmt_duration (saturating_sub (current_utime_until c) now);
     elections_value := value; elections_countdown := countdown |}.

Lemma of_round_succ k : of_round (k + 1) <> of_round k.
Proof.
  unfold of_round. rewrite N.Div0.add_mod. pose proof (N.mod_lt k 2 ltac:(done)) as Hk.
  set (r := k mod 2) in *. clearbody r.
  assert (r = 0 \/ r = 1) as [-> | ->] by lia; done.
Qed.

(** Consecutive rounds differ in colour: the round number never wraps. *)
Lemma next_round_color_flips c now :
  current_utime_since c <= u32_max ->
  next_round_color (clock_display c now) <> round_color (clock_display c now).
Proof.
  intros Hs. unfold clock_display. destruct (election_window c now) as [st en].
  destruct (_ && _); cbn [next_round_color round_color];
    (rewrite N.mod_small; [apply of_round_succ|];
     apply N.le_lt_trans with (u32_max + 1); [|by vm_compute];
     apply N.add_le_mono_r; etrans; [|exact Hs]; apply N.Div0.div_le_upper_bound; nia).
Qed.

(** The window shown is never one that is over: it ends at or after now, unless the
    arithmetic saturates or the cycle has been over for a whole round. *)
Lemma window_not_over c now :
  let '(st, en) := election_window c now in
  let duration := N.max (current_utime_until c - current_utime_since c) 1 in
  let anchor := match next_utime_until c with Some t => t | None => current_utime_until c end in
  now <= anchor - elections_end_before c + duration ->
  anchor - elections_end_before c + duration <= u32_max -> now <= en.
Proof.
  unfold election_window, saturating_add, saturating_sub. cbv zeta.
  set (e := _ - elections_end_before c). destruct (N.ltb_spec e now); lia.
Qed.

(** The parts of a duration: minutes and seconds below 60, and nothing lost. *)
Lemma duration_parts secs :
  secs = secs / 3600 * 3600 + secs mod 3600 / 60 * 60 + secs mod 60
  /\ secs mod 3600 / 60 < 60 /\ secs mod 60 < 60.
Proof.
  assert (Hm : secs mod 3600 mod 60 = secs mod 60).
  { change 3600 with (60 * 60). rewrite N.Div0.mod_mul_r.
    rewrite (N.mul_comm 60), N.Div0.mod_add. by rewrite N.Div0.mod_mod. }
  pose proof (N.div_mod secs 3600 ltac:(done)). pose proof (N.div_mod (secs mod 3600) 60 ltac:(done)).
  rewrite Hm in *. split; [lia|]. split; [|by apply N.mod_lt].
  apply N.Div0.div_lt_upper_bound. by apply N.mod_lt.
Qed.
