(* ===== verification/Risk.v ===== *)
(** * Risk grants and activity data (crates/cc-wallet-domain/src/risk.rs, activity.rs)

    The one-use grant that lets a send be signed over unresolved ones, its consumption,
    and the movements a transaction is reported with. *)

From Stdlib Require Import NArith ZArith Lia.
From S2P Require Import Prelude Ord Bytes Ids Asset Amount.

Definition RISK_WARNING_VERSION : N := 1.

Record RiskGrant := mkRiskGrant {
  g_old_blocker_set_digest : Digest32;
  g_old_reservation_set_digest : Digest32;
  g_new_ticket_digest : Digest32;
  g_new_record_id : RecordId;
  g_one_use_nonce : RiskNonce;
  g_warning_version : N;
  g_overlap_reservation_set_digest : Digest32
}.

Record RiskGrantConsumption := mkConsumption {
  c_one_use_nonce : RiskNonce;
  c_new_record_id : RecordId;
  c_new_ticket_digest : Digest32
}.

Definition authorizes (g : RiskGrant) (c : RiskGrantConsumption) : bool :=
  bool_decide (g_one_use_nonce g = c_one_use_nonce c)
  && bool_decide (g_new_record_id g = c_new_record_id c)
  && bool_decide (g_new_ticket_digest g = c_new_ticket_digest c).

Inductive RiskAction :=
| Granted (grant : RiskGrant)
| Consumed (consumption : RiskGrantConsumption).

(** ** activity.rs *)
Inductive ActivityDirection := In | Out.

Definition direction_label (d : ActivityDirection) : string :=
  match d with In => "IN" | Out => "OUT" end.

Record AssetMovement := mkMovement { mv_amount : AssetAmount }.

#[export] Instance AssetMovement_eq_dec : EqDecision AssetMovement.
Proof. solve_decision. Defined.

Inductive ActivityMessage :=
| Plain (text : bytes)
| Sealed (sender_key : PublicKey32) (blob : bytes).

Definition is_sealed (m : ActivityMessage) : bool :=
  match m with Sealed _ _ => true | Plain _ => false end.

(** [mod hex_bytes]. *)
Definition hex_bytes_serialize (blob : bytes) : bytes := hex_lower_encode blob.

Definition hex_bytes_deserialize (text : bytes) : res string bytes :=
  check Nat.even (length text) else "a hex blob has an even number of digits" ;;
  ok_or (hex_lower_decode text) "a hex blob is lowercase ASCII hex".

Record ActivityEvent := {
  ae_direction : ActivityDirection;
  ae_lt : N;
  ae_time_unix : N;
  ae_tx_hash : option Digest32;
  ae_counterparty : bytes;
  ae_movements : list AssetMovement;
  ae_fee_native : N;
  ae_success : bool;
  ae_bounced : bool;
  ae_exit_code : Z;
  ae_ext_msg_hash : option Digest32;
  ae_int_msg_hash : option Digest32;
  ae_finality_ms : option N;
  ae_pending : bool;
  ae_message : option ActivityMessage
}.

Definition moves_asset (e : ActivityEvent) (asset : AssetId) : bool :=
  existsb (fun m => bool_decide (asset_id (mv_amount m) = asset)) (ae_movements e).

Lemma hex_bytes_roundtrip blob : hex_bytes_deserialize (hex_bytes_serialize blob) = Ok blob.
Proof.
  unfold hex_bytes_deserialize, hex_bytes_serialize.
  rewrite hex_lower_decode_encode, length_hex_lower_encode.
  replace (Nat.even (2 * length blob)) with true; [done|]. by rewrite Nat.even_mul.
Qed.
