(* ===== verification/Journal.v ===== *)
(** * Journal records (crates/cc-wallet-domain/src/journal.rs, to [prepared_record])

    The immutable ticket of a send, the provenance of its preparation, its
    reservations, the evidence of its delivery, and the checks a record must pass on its
    own. *)

From Stdlib Require Import NArith ZArith Lia.
From S2P Require Import Prelude Ord Bytes Text Decimal Ids Asset Amount Digest Send Risk.

Definition LOCAL_SEND_FEE_CEILING_NANOS : N := 1000000000.
Definition LOCAL_SEND_FEE_HEADROOM_NANOS : N := 400000.

Definition max_native_spendable (balance_units fee_nanos : N) : N :=
  saturating_sub balance_units (saturating_add u128_max fee_nanos LOCAL_SEND_FEE_HEADROOM_NANOS).

Inductive JournalError :=
| InvalidTicket (detail : string)
| InvalidProvenance (detail : string)
| InvalidReservation (detail : string)
| InvalidDelivery (detail : string)
| DuplicateRecord
| SequenceZero
| SequenceGap
| SequenceOverflow
| OrphanConsumption
| UnsupportedWarningVersion
| ConsumptionMismatch
| ConsumptionNotAdjacent
| DuplicateConsumption
| OrdinarySigningBlocked
| GrantDigestMismatch
| JDigest (error : DigestError).

Definition JournalError_display (e : JournalError) : string :=
  match e with
  | InvalidTicket detail => message ["invalid send ticket: "; detail]
  | InvalidProvenance detail => message ["invalid prepare provenance: "; detail]
  | InvalidReservation detail => message ["invalid reservation: "; detail]
  | InvalidDelivery detail => message ["invalid delivery event: "; detail]
  | DuplicateRecord => "a Journal record id is duplicated"
  | SequenceZero => "journal_seq must start at 1, never zero"
  | SequenceGap => "journal_seq values must be unique and strictly contiguous"
  | SequenceOverflow => "journal_seq overflow"
  | OrphanConsumption => "risk consumption has no prior matching grant"
  | UnsupportedWarningVersion => "risk grant uses an unsupported warning version"
  | ConsumptionMismatch => "risk consumption does not match its one-use grant"
  | ConsumptionNotAdjacent =>
      "risk consumption must be immediately followed by its matching Prepared event"
  | DuplicateConsumption => "a one-use risk grant was consumed more than once"
  | OrdinarySigningBlocked => "ordinary signing is blocked by prior unresolved delivery evidence"
  | GrantDigestMismatch =>
      "risk grant digests do not match the replayed blocker/reservation/ticket/overlap state"
  | JDigest error => message ["journal digest failed: "; DigestError_display error]
  end.

(** [impl From<DigestError>], for [?]. *)
Definition jdigest {A} (r : res DigestError A) : res JournalError A := map_err JDigest r.

Definition validate_identity (value : bytes) : bool :=
  negb (bool_decide (value = []))
  && bool_decide (trim value = value)
  && negb (existsb (fun b => (u8 b =? 0) || is_ascii_control b) value).

Definition parse_canonical_address (value : bytes) : res JournalError CanonicalAddress :=
  let? (workchain_text, account) :=
    ok_or (split_once Byte.x3a value) (InvalidTicket "address is not workchain:hash") in
  let? workchain := ok_or (parse_i8 workchain_text) (InvalidTicket "address workchain is not an i8") in
  check ((workchain =? -1)%Z || (workchain =? 0)%Z)
        && bool_decide (print_z workchain = take (length value - length account - 1) value)
  else InvalidTicket "address workchain is not canonical 0 or -1" ;;
  let? account_bytes :=
    ok_or (match hex_lower_decode account with
           | Some decoded => if (length decoded =? 32)%nat then try_into_32 decoded else None
           | None => None
           end) (InvalidTicket "address hash is not 64 lowercase hex digits") in
  Ok (mkCanonicalAddress workchain account_bytes).

(** ** Tickets *)
Record SendTicket := mkSendTicket {
  t_record_id : RecordId;
  t_sender_wallet_id : bytes;
  t_sender_address : bytes;
  t_network_global_id : Z;
  t_endpoint_identity : bytes;
  t_request : SendRequest;
  t_bounce : bool;
  t_auth_generation : N;
  t_auth_nonce : N
}.

Definition SendTicket_new (record_id : RecordId) (sender_wallet_id sender_address : bytes)
    (network_global_id : Z) (endpoint_identity : bytes) (request : SendRequest) (bounce : bool)
    (auth_generation auth_nonce : N) : res JournalError SendTicket :=
  check validate_identity sender_wallet_id
  else InvalidTicket "sender wallet identity is empty or noncanonical" ;;
  check validate_identity endpoint_identity
  else InvalidTicket "endpoint identity is empty or noncanonical" ;;
  let? _ := parse_canonical_address sender_address in
  let? _ := parse_canonical_address (sr_destination request) in
  Ok (mkSendTicket record_id sender_wallet_id sender_address network_global_id endpoint_identity
        request bounce auth_generation auth_nonce).

Definition SendTicket_digest `{Sha256} (t : SendTicket) : res DigestError Digest32 :=
  let? sender_address := rexpect (parse_canonical_address (t_sender_address t)) in
  let? destination := rexpect (parse_canonical_address (sr_destination (t_request t))) in
  ticket_digest
    {| td_record_id := t_record_id t; td_sender_wallet_id := t_sender_wallet_id t;
       td_sender_address := sender_address; td_network_global_id := t_network_global_id t;
       td_endpoint_identity := t_endpoint_identity t; td_destination := destination;
       td_value := sr_value (t_request t); td_bounce := t_bounce t;
       td_auth_generation := t_auth_generation t; td_auth_nonce := t_auth_nonce t |}.

Definition scope (t : SendTicket) : bytes * bytes * Z :=
  (t_sender_wallet_id t, t_sender_address t, t_network_global_id t).

(** ** Provenance *)
Record NetworkTimeProvenance := mkNetworkTime {
  nt_value : N;
  nt_source_endpoint : bytes;
  nt_request_id : bytes;
  nt_observed_at_mono_ms : N
}.

Definition NetworkTimeProvenance_new (value : N) (source_endpoint request_id : bytes)
    (observed_at_mono_ms : N) : res JournalError NetworkTimeProvenance :=
  if negb (validate_identity source_endpoint) || negb (validate_identity request_id)
  then Err (InvalidProvenance "network-time endpoint/request identity is noncanonical")
  else Ok (mkNetworkTime value source_endpoint request_id observed_at_mono_ms).

Record PrepareProvenance := mkProvenance {
  p_source_endpoint : bytes;
  p_route_id : bytes;
  p_request_ids : list bytes;
  p_observed_at_mono_ms : N;
  p_account_state_hash : Digest32;
  p_state_init_required : bool;
  p_balances : list AssetAmount;
  p_signature_context_hash : Digest32;
  p_signature_global_id : Z;
  p_signature_with_id : bool;
  p_network_time : option NetworkTimeProvenance;
  p_fee_input_hash : Digest32;
  p_estimated_fee_native : N;
  p_local_fee_ceiling_native : N;
  p_authorized_overlap : list Reservation
}.

(** [PrepareProvenance::new], from the fields as it is given them. *)
Definition PrepareProvenance_new `{Sha256} (p : PrepareProvenance) : res JournalError PrepareProvenance :=
  if negb (validate_identity (p_source_endpoint p)) || negb (validate_identity (p_route_id p))
     || bool_decide (p_request_ids p = [])
     || existsb (fun id => negb (validate_identity id)) (p_request_ids p)
     || negb (bool_decide (NoDup (p_request_ids p)))
  then Err (InvalidProvenance "source/route/request identities are missing or noncanonical") else
  let estimated := p_estimated_fee_native p in
  let ceiling := p_local_fee_ceiling_native p in
  let derived_fee_ceiling := checked_add u128_max estimated LOCAL_SEND_FEE_HEADROOM_NANOS in
  let bounded_dynamic_ceiling :=
    match derived_fee_ceiling with
    | Some maximum => (estimated <=? ceiling) && (ceiling <=? maximum)
    | None => false
    end in
  if (LOCAL_SEND_FEE_CEILING_NANOS <? estimated) || (LOCAL_SEND_FEE_CEILING_NANOS <? ceiling)
     || (negb (ceiling =? LOCAL_SEND_FEE_CEILING_NANOS) && negb bounded_dynamic_ceiling)
  then Err (InvalidProvenance
              "native fee reserve is neither the legacy cap nor a bounded local headroom") else
  if negb (bool_decide (NoDup (asset_id <$> p_balances p)))
  then Err (InvalidProvenance "fresh balances contain a duplicate asset") else
  if match p_network_time p with
     | Some observation =>
         negb (bool_decide (nt_source_endpoint observation = p_source_endpoint p))
         || (p_observed_at_mono_ms p <? nt_observed_at_mono_ms observation)
     | None => false
     end
  then Err (InvalidProvenance "network-time provenance is not bound to the prepare endpoint") else
  let? _ := jdigest (overlap_set_digest (p_authorized_overlap p)) in
  Ok p.

(** ** Evidence *)
Inductive NodeResponseKind := Acknowledged | Rejected | TransportError | MalformedResponse.
Inductive TerminalOutcome := Success | FailedOnChain.

Record EndpointTransactionEvidence := mkEndpointTx {
  tx_source_endpoint : bytes;
  tx_request_id : bytes;
  tx_sender_address : bytes;
  tx_tx_hash : Digest32;
  tx_ext_msg_hash : Digest32;
  tx_lt : N;
  tx_success : bool;
  tx_exit_code : Z;
  tx_effects : list AssetMovement
}.

Definition validate_endpoint_tx (tx : EndpointTransactionEvidence) : res JournalError unit :=
  if negb (validate_identity (tx_source_endpoint tx)) || negb (validate_identity (tx_request_id tx))
     || negb (is_ok (parse_canonical_address (tx_sender_address tx)))
  then Err (InvalidDelivery "endpoint transaction provenance is noncanonical")
  else Ok tt.

Definition EndpointTransactionEvidence_new (evidence : EndpointTransactionEvidence)
  : res JournalError EndpointTransactionEvidence :=
  let? _ := validate_endpoint_tx evidence in
  Ok evidence.

Inductive DeliveryEvidence :=
| Prepared
| AttemptStarted (attempt_no : N) (route_id : bytes)
| MayHaveBroadcast (attempt_no : N) (route_id : bytes)
| NodeResponseObserved (attempt_no : N) (route_id request_id : bytes) (response : NodeResponseKind)
| EndpointReportedSuccess (tx : EndpointTransactionEvidence)
| EndpointReportedFailedOnChain (tx : EndpointTransactionEvidence)
| VerifiedTerminal (outcome : TerminalOutcome) (proof_ref : bytes)
| NotBroadcast (route_id detail : bytes).

Definition tag (e : DeliveryEvidence) : EvidenceTag :=
  match e with
  | Prepared => TagPrepared
  | AttemptStarted _ _ => TagAttemptStarted
  | MayHaveBroadcast _ _ => TagMayHaveBroadcast
  | NodeResponseObserved _ _ _ _ => TagNodeResponseObserved
  | EndpointReportedSuccess _ => TagEndpointReportedSuccess
  | EndpointReportedFailedOnChain _ => TagEndpointReportedFailedOnChain
  | VerifiedTerminal Success _ => TagVerifiedTerminalSuccess
  | VerifiedTerminal FailedOnChain _ => TagVerifiedTerminalFailedOnChain
  | NotBroadcast _ _ => TagNotBroadcast
  end.

Definition validate_evidence (e : DeliveryEvidence) : res JournalError unit :=
  let refused := Err (InvalidDelivery "payload is empty, inconsistent, or out of range") in
  match e with
  | Prepared => Ok tt
  | AttemptStarted attempt_no route_id | MayHaveBroadcast attempt_no route_id =>
      if (0 <? attempt_no) && validate_identity route_id then Ok tt else refused
  | NodeResponseObserved attempt_no route_id request_id _ =>
      if (0 <? attempt_no) && validate_identity route_id && validate_identity request_id
      then Ok tt else refused
  | EndpointReportedSuccess tx => if tx_success tx then validate_endpoint_tx tx else refused
  | EndpointReportedFailedOnChain tx =>
      if negb (tx_success tx) then validate_endpoint_tx tx else refused
  | VerifiedTerminal _ proof_ref => if validate_identity proof_ref then Ok tt else refused
  | NotBroadcast route_id detail =>
      if validate_identity route_id && validate_identity detail then Ok tt else refused
  end.

Record DeliveryEvent := mkDeliveryEvent {
  de_journal_seq : N;
  de_evidence : DeliveryEvidence
}.

Definition DeliveryEvent_new (journal_seq : N) (evidence : DeliveryEvidence) : res JournalError DeliveryEvent :=
  if journal_seq =? 0 then Err SequenceZero else
  let? _ := validate_evidence evidence in
  Ok (mkDeliveryEvent journal_seq evidence).

Record RiskEvent := mkRiskEvent {
  re_journal_seq : N;
  re_action : RiskAction
}.

Definition RiskEvent_new (journal_seq : N) (action : RiskAction) : res JournalError RiskEvent :=
  if journal_seq =? 0 then Err SequenceZero else Ok (mkRiskEvent journal_seq action).

Definition risk_event_grant (e : RiskEvent) : option RiskGrant :=
  match re_action e with Granted g => Some g | Consumed _ => None end.
Definition risk_event_consumption (e : RiskEvent) : option RiskGrantConsumption :=
  match re_action e with Consumed c => Some c | Granted _ => None end.

(** ** Records *)
Record PreparedRecord := mkPrepared {
  pr_ticket : SendTicket;
  pr_prepare_provenance : PrepareProvenance;
  pr_ext_msg_hash : Digest32;
  pr_expire_at : N;
  pr_reservations : list Reservation
}.

Definition validate_reservations (ticket : SendTicket) (fee_units : N) (reservations : list Reservation)
  : res JournalError unit :=
  if existsb (fun r => negb (bool_decide (r_record_id r = t_record_id ticket)) || is_zero (r_amount r))
       reservations
  then Err (InvalidReservation "row id differs from the ticket or amount is zero") else
  match asset_id (sr_value (t_request ticket)) with
  | Native =>
      let? fee := map_err (fun _ => InvalidReservation "native fee is out of domain")
                    (amount_native fee_units) in
      let? total := map_err (fun _ => InvalidReservation "native transfer plus fee overflows")
                      (checked_add_same_asset (sr_value (t_request ticket)) fee) in
      match reservations with
      | [r] =>
          if negb (bool_decide (r_kind r = Transfer)) || negb (bool_decide (r_amount r = total))
          then Err (InvalidReservation "native send requires one exact transfer-plus-fee reservation")
          else Ok tt
      | _ => Err (InvalidReservation "native send requires one exact transfer-plus-fee reservation")
      end
  | CurrencyCollection _ =>
      let? fee := map_err (fun _ => InvalidReservation "native fee is out of domain")
                    (amount_native fee_units) in
      let transfer := filter (fun row => r_kind row = Transfer /\ r_amount row = sr_value (t_request ticket))
                        reservations in
      let native_fee := filter (fun row => r_kind row = NativeFee /\ r_amount row = fee) reservations in
      if negb (length reservations =? 2)%nat || negb (length transfer =? 1)%nat
         || negb (length native_fee =? 1)%nat
      then Err (InvalidReservation
                  "CC send requires exact CC transfer and separate native-fee reservations")
      else Ok tt
  end.

Definition check_prepared_shape (ticket : SendTicket) (provenance : PrepareProvenance)
    (reservations : list Reservation) : res JournalError unit :=
  if negb (bool_decide (p_source_endpoint provenance = t_endpoint_identity ticket))
     || negb (bool_decide (p_signature_global_id provenance = t_network_global_id ticket))
  then Err (InvalidProvenance "prepare source/global id does not match the immutable ticket") else
  validate_reservations ticket (p_local_fee_ceiling_native provenance) reservations.

Definition PreparedRecord_new (p : PreparedRecord) : res JournalError PreparedRecord :=
  let? _ := check_prepared_shape (pr_ticket p) (pr_prepare_provenance p) (pr_reservations p) in
  Ok p.

Record SendRecord := mkSendRecord {
  rec_ticket : SendTicket;
  rec_prepare_provenance : PrepareProvenance;
  rec_ext_msg_hash : Digest32;
  rec_expire_at : N;
  rec_reservations : list Reservation;
  rec_delivery_events : list DeliveryEvent
}.

(** [last().expect(_)]. *)
Definition latest_evidence {E} (r : SendRecord) : res E DeliveryEvidence :=
  rmap de_evidence (expect (last (rec_delivery_events r))).

Definition latest_evidence_tag {E} (r : SendRecord) : res E EvidenceTag := rmap tag (latest_evidence r).

Definition is_blocking {E} (r : SendRecord) : res E bool := rmap tag_is_blocking (latest_evidence_tag r).

Definition has_duplicate_fingerprint (r : SendRecord) (ticket : SendTicket) : bool :=
  bool_decide (scope (rec_ticket r) = scope ticket)
  && bool_decide (sr_destination (t_request (rec_ticket r)) = sr_destination (t_request ticket))
  && bool_decide (request_asset_id (t_request (rec_ticket r)) = request_asset_id (t_request ticket)).

Definition valid_delivery_transition (previous next : DeliveryEvidence) : bool :=
  match previous, next with
  | Prepared, AttemptStarted 1 _ => true
  | Prepared, NotBroadcast _ _ => true
  | AttemptStarted p _, AttemptStarted n _ => bool_decide (checked_add u32_max p 1 = Some n)
  | AttemptStarted p _, MayHaveBroadcast n _ => p =? n
  | AttemptStarted p _, NodeResponseObserved n _ _ _ => p =? n
  | AttemptStarted _ _, NotBroadcast _ _ => true
  | (AttemptStarted _ _ | MayHaveBroadcast _ _ | NodeResponseObserved _ _ _ _),
    (EndpointReportedSuccess _ | EndpointReportedFailedOnChain _) => true
  | (AttemptStarted _ _ | MayHaveBroadcast _ _ | NodeResponseObserved _ _ _ _
     | EndpointReportedSuccess _ | EndpointReportedFailedOnChain _), VerifiedTerminal _ _ => true
  | _, _ => false
  end.

Definition is_prepared (e : DeliveryEvidence) : bool := match e with Prepared => true | _ => false end.

Definition is_terminal (e : DeliveryEvidence) : bool :=
  match e with VerifiedTerminal _ _ | NotBroadcast _ _ => true | _ => false end.

(** The [match] that binds an event to the ticket, the message and the route. *)
Definition event_bound (r : SendRecord) (e : DeliveryEvidence) : res JournalError unit :=
  match e with
  | AttemptStarted _ route_id | MayHaveBroadcast _ route_id
  | NodeResponseObserved _ route_id _ _ | NotBroadcast route_id _ =>
      if negb (bool_decide (route_id = p_route_id (rec_prepare_provenance r)))
      then Err (InvalidDelivery "delivery route differs from the frozen prepare route") else Ok tt
  | EndpointReportedSuccess tx | EndpointReportedFailedOnChain tx =>
      if negb (bool_decide (tx_source_endpoint tx = t_endpoint_identity (rec_ticket r)))
         || negb (bool_decide (tx_sender_address tx = t_sender_address (rec_ticket r)))
         || negb (bool_decide (tx_ext_msg_hash tx = rec_ext_msg_hash r))
      then Err (InvalidDelivery "endpoint transaction does not match the immutable ticket/message")
      else Ok tt
  | _ => Ok tt
  end.

(** The loop of [validate_static]. *)
Fixpoint validate_events (r : SendRecord) (events : list DeliveryEvent) (prior : N) (terminal : bool)
    (previous_evidence : option DeliveryEvidence) : res JournalError unit :=
  match events with
  | [] => Ok tt
  | event :: events' =>
      let? _ := validate_evidence (de_evidence event) in
      if match previous_evidence with
         | Some previous => negb (valid_delivery_transition previous (de_evidence event))
         | None => false
         end
      then Err (InvalidDelivery "delivery evidence transition is not monotone or attempt-bound") else
      let? _ := event_bound r (de_evidence event) in
      if de_journal_seq event <=? prior then Err SequenceGap else
      if terminal then Err (InvalidDelivery "no event may follow durable terminal evidence") else
      validate_events r events' (de_journal_seq event) (is_terminal (de_evidence event))
        (Some (de_evidence event))
  end.

Definition validate_static (r : SendRecord) : res JournalError unit :=
  if match rec_delivery_events r with
     | [] => true
     | first :: rest =>
         negb (is_prepared (de_evidence first)) || existsb (fun e => is_prepared (de_evidence e)) rest
     end
  then Err (InvalidDelivery "each record requires exactly one first Prepared event") else
  let? _ := check_prepared_shape (rec_ticket r) (rec_prepare_provenance r) (rec_reservations r) in
  validate_events r (rec_delivery_events r) 0 false None.

Definition prepared_record (prepared : PreparedRecord) (journal_seq : N) : res JournalError SendRecord :=
  let? event := DeliveryEvent_new journal_seq Prepared in
  Ok (mkSendRecord (pr_ticket prepared) (pr_prepare_provenance prepared) (pr_ext_msg_hash prepared)
        (pr_expire_at prepared) (pr_reservations prepared) [event]).

Definition with_events (r : SendRecord) (events : list DeliveryEvent) : SendRecord :=
  mkSendRecord (rec_ticket r) (rec_prepare_provenance r) (rec_ext_msg_hash r) (rec_expire_at r)
    (rec_reservations r) events.

(** The state after the call, and its result: a refused event is popped again. *)
Definition append_delivery_event (record : SendRecord) (journal_seq : N) (evidence : DeliveryEvidence)
  : SendRecord * res JournalError unit :=
  match DeliveryEvent_new journal_seq evidence with
  | Ok event =>
      let pushed := with_events record (rec_delivery_events record ++ [event]) in
      match validate_static pushed with
      | Ok _ => (pushed, Ok tt)
      | Err e => (with_events pushed (take (length (rec_delivery_events pushed) - 1)
                                       (rec_delivery_events pushed)), Err e)
      | Panic => (pushed, Panic)
      end
  | Err e => (record, Err e)
  | Panic => (record, Panic)
  end.

Definition risk_grant_event (journal_seq : N) (grant : RiskGrant) : res JournalError RiskEvent :=
  RiskEvent_new journal_seq (Granted grant).
Definition risk_consumption_event (journal_seq : N) (consumption : RiskGrantConsumption)
  : res JournalError RiskEvent :=
  RiskEvent_new journal_seq (Consumed consumption).

(** ** Addresses and tickets *)
Lemma parse_canonical_ok value a :
  parse_canonical_address value = Ok a
  <-> value = raw_address (ca_workchain a) (ca_account a) /\ (ca_workchain a = 0 \/ ca_workchain a = -1)%Z.
Proof.
  unfold parse_canonical_address. split.
  - intros H. apply rbind_Ok in H as ([w acct] & Hs%ok_or_Ok & H). cbn in H.
    apply split_once_Some in Hs as [-> _].
    apply rbind_Ok in H as (z & Hz%ok_or_Ok & H).
    destruct (_ && _) eqn:Hc; [|done]. apply andb_true_iff in Hc as [Hc H0]. bprop.
    apply rbind_Ok in H as (h & Hh%ok_or_Ok & [= <-]). cbn [ca_workchain ca_account].
    rewrite length_app in H0. simpl in H0.
    replace (length w + S (length acct) - length acct - 1)%nat with (length w) in H0 by lia.
    rewrite take_app_length in H0.
    destruct (hex_lower_decode acct) as [d|] eqn:Hd; [|done].
    destruct (length d =? 32)%nat; [|done]. apply try_into_32_Some in Hh as ->.
    apply hex_lower_decode_Some in Hd as ->. unfold raw_address, to_hex. rewrite H0.
    split; [done|]. tauto.
  - destruct a as [w h]. cbn [ca_workchain ca_account]. intros [-> Hw].
    rewrite split_raw_address. cbn [ok_or rbind]. rewrite parse_print_i8 by lia. cbn [ok_or rbind].
    replace (length (raw_address w h) - length (to_hex h) - 1)%nat with (length (print_z w))
      by (unfold raw_address; rewrite length_app; simpl; lia).
    rewrite (bool_decide_eq_true_2 (print_z w = take (length (print_z w)) (raw_address w h)))
      by (unfold raw_address; by rewrite (take_app_length (print_z w))).
    replace ((w =? -1)%Z || (w =? 0)%Z) with true by (by destruct Hw as [-> | ->]). cbn [andb].
    unfold to_hex. rewrite hex_lower_decode_encode, length_as_bytes. cbn.
    by rewrite (proj2 (try_into_32_Some _ _) eq_refl).
Qed.

Lemma parse_canonical_no_panic value : parse_canonical_address value <> Panic.
Proof.
  unfold parse_canonical_address. destruct (split_once _ _) as [[w acct]|]; [|done]. cbn.
  destruct (parse_i8 w); [|done]. cbn. destruct (_ && _); [|done].
  by destruct (match hex_lower_decode acct with Some _ => _ | None => _ end).
Qed.

Lemma parse_canonical_recipient value :
  canonical_recipient value <-> is_ok (parse_canonical_address value) = true.
Proof.
  rewrite is_ok_true. split.
  - intros (w & h & Hw & ->). exists (mkCanonicalAddress w h). by apply parse_canonical_ok.
  - intros ([w h] & [-> Hw]%parse_canonical_ok). by exists w, h.
Qed.

(** An address text is canonical for exactly one address, of workchain 0 or -1, and
    it is that address printed as [workchain:hash]; every other spelling (an explicit
    plus sign, a leading zero, [-0], upper-case digits) is refused. *)
Lemma parse_canonical_address_exact (value : bytes) (a : CanonicalAddress) :
  parse_canonical_address value = Ok a
  <-> value = raw_address (ca_workchain a) (ca_account a) /\ (ca_workchain a = 0 \/ ca_workchain a = -1)%Z.
Proof. apply parse_canonical_ok. Qed.

Definition wf_send_ticket (t : SendTicket) : Prop :=
  validate_identity (t_sender_wallet_id t) = true /\ validate_identity (t_endpoint_identity t) = true
  /\ canonical_recipient (t_sender_address t) /\ canonical_recipient (sr_destination (t_request t)).

Lemma SendTicket_new_Ok rid wid addr net ep req b gen nonce t :
  SendTicket_new rid wid addr net ep req b gen nonce = Ok t
  <-> t = mkSendTicket rid wid addr net ep req b gen nonce /\ wf_send_ticket t.
Proof.
  unfold SendTicket_new, wf_send_ticket. rewrite !parse_canonical_recipient. split.
  - destruct (validate_identity wid) eqn:H1; [|done]. destruct (validate_identity ep) eqn:H2; [|done].
    intros H. apply rbind_Ok in H as (a & Ha & H). apply rbind_Ok in H as (a' & Ha' & [= <-]). cbn.
    by rewrite H1, H2, Ha, Ha'.
  - intros (-> & Hw & He & H1 & H2). cbn in *. rewrite Hw, He.
    apply is_ok_true in H1 as (a & ->). by apply is_ok_true in H2 as (a' & ->).
Qed.

Lemma frame_no_panic tag f : frame tag f <> Panic.
Proof. unfold frame, checked_field_len. by destruct (_ <=? _). Qed.

Lemma frame_fields_no_panic i l : frame_fields i l <> Panic.
Proof.
  revert i. induction l as [|f l IH]; intros i; cbn [frame_fields]; [done|].
  destruct (_ <=? _); [|done]. intros [H|(a & _ & [H|(b & _ & H)]%rbind_Panic)]%rbind_Panic; [|by apply IH in H|done].
  by apply frame_no_panic in H.
Qed.

Lemma digest_no_panic `{Sha256} k l : digest k l <> Panic.
Proof.
  unfold digest, digest_preimage. intros [H1|(a & _ & H1)]%rbind_Panic; [|done].
  apply rbind_Panic in H1 as [H1|(b & _ & H1)]; [|done]. by apply frame_fields_no_panic in H1.
Qed.

Lemma SendTicket_digest_no_panic `{Sha256} t : wf_send_ticket t -> SendTicket_digest t <> Panic.
Proof.
  intros (_ & _ & H1 & H2). apply parse_canonical_recipient, is_ok_true in H1 as (a & Ha), H2 as (a' & Ha').
  unfold SendTicket_digest. rewrite Ha, Ha'. apply digest_no_panic.
Qed.

(** A ticket is built exactly when both identities are trimmed, nonempty texts
    without control bytes and both addresses are canonical, the digest of such a ticket
    never panics on its own addresses, and a request the wallet canonicalised is always
    an acceptable destination. *)
Lemma send_ticket_new_spec `{Sha256, StdAddrLaws} (record_id : RecordId)
    (sender_wallet_id sender_address : bytes) (network_global_id : Z) (endpoint_identity : bytes)
    (request : SendRequest) (bounce : bool) (auth_generation auth_nonce : N) (ticket : SendTicket) :
  canonicalize_recipient (sr_destination request) = Ok (sr_destination request) ->
  (SendTicket_new record_id sender_wallet_id sender_address network_global_id endpoint_identity request
     bounce auth_generation auth_nonce = Ok ticket
   <-> ticket = mkSendTicket record_id sender_wallet_id sender_address network_global_id endpoint_identity
                  request bounce auth_generation auth_nonce
       /\ validate_identity sender_wallet_id = true /\ validate_identity endpoint_identity = true
       /\ canonical_recipient sender_address)
  /\ (SendTicket_new record_id sender_wallet_id sender_address network_global_id endpoint_identity request
        bounce auth_generation auth_nonce = Ok ticket -> SendTicket_digest ticket <> Panic).
Proof.
  intros Hc. rewrite SendTicket_new_Ok. split.
  - unfold wf_send_ticket. split; [by intros (-> & Hi & He & Hs & _)|].
    intros (-> & Hi & He & Hs). cbn. repeat (split; [done|]).
    apply canonicalize_Ok in Hc as (w & h & Hw & -> & _). by exists w, h.
  - intros [_ Hw]. by apply SendTicket_digest_no_panic.
Qed.

Definition demo_request : SendRequest := mkSendRequest demo_dest (NativeAmount 5) [] None.
Definition demo_ticket (rid : RecordId) : SendTicket :=
  mkSendTicket rid (bs "wallet-1") demo_dest 2000 (bs "http://node/") demo_request true 1 1.

Lemma send_ticket_new_spec_witness :
  (SendTicket_new (pad32 []) (bs "wallet-1") demo_dest 2000 (bs "http://node/") demo_request true 1 1
     = Ok (demo_ticket (pad32 []))
   <-> demo_ticket (pad32 []) = demo_ticket (pad32 [])
       /\ validate_identity (bs "wallet-1") = true /\ validate_identity (bs "http://node/") = true
       /\ canonical_recipient demo_dest)
  /\ (SendTicket_new (pad32 []) (bs "wallet-1") demo_dest 2000 (bs "http://node/") demo_request true 1 1
        = Ok (demo_ticket (pad32 [])) -> @SendTicket_digest toy_sha256 (demo_ticket (pad32 [])) <> Panic).
Proof.
  apply (@send_ticket_new_spec toy_sha256 toy_stdaddr toy_stdaddr_laws). by vm_compute.
Defined.

(** ** Fees and reservations *)

(** The provenance a record is prepared with bounds its fee: the estimate is at most
    the reserved ceiling, the ceiling at most one coin, and unless it is that legacy cap
    it exceeds the estimate by at most the fixed headroom; its request ids and its
    balances' assets are distinct, and a network time it carries was observed before it. *)
Lemma prepare_provenance_sound `{Sha256} (p q : PrepareProvenance) :
  PrepareProvenance_new p = Ok q ->
  q = p
  /\ p_estimated_fee_native p <= p_local_fee_ceiling_native p <= LOCAL_SEND_FEE_CEILING_NANOS
  /\ (p_local_fee_ceiling_native p = LOCAL_SEND_FEE_CEILING_NANOS
      \/ p_local_fee_ceiling_native p <= p_estimated_fee_native p + LOCAL_SEND_FEE_HEADROOM_NANOS)
  /\ NoDup (p_request_ids p) /\ p_request_ids p <> [] /\ NoDup (asset_id <$> p_balances p)
  /\ (forall t, p_network_time p = Some t -> nt_observed_at_mono_ms t <= p_observed_at_mono_ms p).
Proof.
  unfold PrepareProvenance_new. intros Hp.
  destruct (_ || _ || _ || _ || _) eqn:H1 in Hp; [done|]. cbv zeta in Hp.
  match type of Hp with (if ?c then _ else _) = _ => destruct c eqn:H2; [done|] end.
  destruct (negb _) eqn:H3 in Hp; [done|].
  match type of Hp with (if ?c then _ else _) = _ => destruct c eqn:H4; [done|] end.
  apply rbind_Ok in Hp as (d & _ & [= <-]). split; [done|].
  rewrite !orb_false_iff, !negb_false_iff in H1. destruct H1 as [[[_ Hne] _] Hnd].
  rewrite !orb_false_iff, andb_false_iff, !negb_false_iff, !N.ltb_ge, N.eqb_eq in H2.
  destruct H2 as [[He Hc] Hd].
  apply negb_false_iff, bool_decide_eq_true_1 in H3. apply bool_decide_eq_true_1 in Hnd.
  apply bool_decide_eq_false_1 in Hne.
  assert (Hb : p_estimated_fee_native p <= p_local_fee_ceiling_native p
    /\ (p_local_fee_ceiling_native p = LOCAL_SEND_FEE_CEILING_NANOS
        \/ p_local_fee_ceiling_native p <= p_estimated_fee_native p + LOCAL_SEND_FEE_HEADROOM_NANOS)).
  { destruct Hd as [->|Hd]; [by split; [|left]|].
    destruct (checked_add _ _ _) as [m|] eqn:Hm; [|done]. apply checked_add_Some in Hm as [-> _].
    rewrite andb_true_iff, !N.leb_le in Hd. split; [|right]; apply Hd. }
  destruct Hb as [Hle Hcap]. do 5 (split; [done|]).
  intros t Ht. rewrite Ht in H4. apply orb_false_iff in H4 as [_ H4]. by apply N.ltb_ge in H4.
Qed.

Definition demo_provenance : PrepareProvenance :=
  {| p_source_endpoint := bs "http://node/"; p_route_id := bs "route"; p_request_ids := [bs "req"];
     p_observed_at_mono_ms := 7; p_account_state_hash := pad32 []; p_state_init_required := false;
     p_balances := [NativeAmount 9000000000]; p_signature_context_hash := pad32 [];
     p_signature_global_id := 2000; p_signature_with_id := true; p_network_time := None;
     p_fee_input_hash := pad32 []; p_estimated_fee_native := 20; p_local_fee_ceiling_native := 400;
     p_authorized_overlap := [] |}.

Lemma prepare_provenance_sound_witness :
  @PrepareProvenance_new toy_sha256 demo_provenance = Ok demo_provenance
  /\ demo_provenance = demo_provenance
  /\ 20 <= 400 <= LOCAL_SEND_FEE_CEILING_NANOS
  /\ (400 = LOCAL_SEND_FEE_CEILING_NANOS \/ 400 <= 20 + LOCAL_SEND_FEE_HEADROOM_NANOS)
  /\ NoDup [bs "req"] /\ [bs "req"] <> [] /\ NoDup [Native]
  /\ (forall t, None = Some t -> nt_observed_at_mono_ms t <= 7).
Proof.
  split; [by vm_compute|].
  apply (@prepare_provenance_sound toy_sha256 demo_provenance demo_provenance). by vm_compute.
Defined.

(** The reservations a ticket must hold, given its fee. *)
Definition exact_reservations (t : SendTicket) (fee : N) (rs : list Reservation) : Prop :=
  let value := sr_value (t_request t) in
  fee <= NATIVE_MAX_UNITS
  /\ match asset_id value with
     | Native =>
         units_of value + fee <= NATIVE_MAX_UNITS /\ units_of value + fee <> 0
         /\ rs = [mkReservation (t_record_id t) (NativeAmount (units_of value + fee)) Transfer]
     | CurrencyCollection _ =>
         units_of value <> 0 /\ fee <> 0
         /\ rs ≡ₚ [mkReservation (t_record_id t) value Transfer;
                   mkReservation (t_record_id t) (NativeAmount fee) NativeFee]
     end.

Lemma amount_native_ok {F} (f : AmountError -> F) u a :
  map_err f (amount_native u) = Ok a <-> a = NativeAmount u /\ u <= NATIVE_MAX_UNITS.
Proof.
  rewrite map_err_Ok. unfold amount_native. destruct (N.ltb_spec NATIVE_MAX_UNITS u); naive_solver lia.
Qed.

Lemma rows_checked (t : SendTicket) (rs : list Reservation) :
  existsb (fun r => negb (bool_decide (r_record_id r = t_record_id t)) || is_zero (r_amount r)) rs = false
  <-> Forall (fun r => r_record_id r = t_record_id t /\ units_of (r_amount r) <> 0) rs.
Proof.
  induction rs as [|r rs IH]; [by split|]. cbn [existsb]. rewrite orb_false_iff, IH, Forall_cons.
  rewrite orb_false_iff, negb_false_iff, bool_decide_eq_true, <- is_zero_iff, not_true_iff_false. done.
Qed.

Lemma one_of_two {A} (P Q : A -> Prop) `{forall x, Decision (P x)} `{forall x, Decision (Q x)} (a b : A) :
  (forall x, P x -> ~ Q x) ->
  length (filter P [a; b]) = 1%nat -> length (filter Q [a; b]) = 1%nat -> P a /\ Q b \/ Q a /\ P b.
Proof.
  intros Hd. rewrite !filter_cons, !filter_nil.
  destruct (decide (P a)), (decide (P b)), (decide (Q a)), (decide (Q b)); simpl; naive_solver.
Qed.

Lemma cc_rows (t : SendTicket) value fee (rs : list Reservation) :
  Forall (fun r => r_record_id r = t_record_id t /\ units_of (r_amount r) <> 0) rs ->
  length rs = 2%nat ->
  length (filter (fun r => r_kind r = Transfer /\ r_amount r = value) rs) = 1%nat ->
  length (filter (fun r => r_kind r = NativeFee /\ r_amount r = fee) rs) = 1%nat ->
  units_of value <> 0 /\ units_of fee <> 0
  /\ rs ≡ₚ [mkReservation (t_record_id t) value Transfer; mkReservation (t_record_id t) fee NativeFee].
Proof.
  intros Hrs Hl Ht Hf. destruct rs as [|a [|b [|]]]; try discriminate Hl.
  apply Forall_cons in Hrs as [[Ha Hza] Hrs]. apply Forall_cons in Hrs as [[Hb Hzb] _].
  assert (Hd : forall x, r_kind x = Transfer /\ r_amount x = value ->
    ~ (r_kind x = NativeFee /\ r_amount x = fee)) by (intros x [Hx _] [Hy _]; congruence).
  pose proof (one_of_two _ _ a b Hd Ht Hf) as Hab. clear Ht Hf Hd Hl.
  destruct a as [ra va ka], b as [rb vb kb]. cbn in *. subst ra rb.
  destruct Hab as [[[Hk1 Hv1] [Hk2 Hv2]]|[[Hk1 Hv1] [Hk2 Hv2]]]; subst.
  - done.
  - split; [done|]. split; [done|]. apply perm_swap.
Qed.

Lemma cc_rows_count (rid : RecordId) value fee (rs : list Reservation) :
  rs ≡ₚ [mkReservation rid value Transfer; mkReservation rid fee NativeFee] ->
  length rs = 2%nat
  /\ length (filter (fun r => r_kind r = Transfer /\ r_amount r = value) rs) = 1%nat
  /\ length (filter (fun r => r_kind r = NativeFee /\ r_amount r = fee) rs) = 1%nat.
Proof.
  intros ->. split; [done|].
  rewrite !filter_cons, !filter_nil. cbn [r_kind r_amount].
  split.
  - rewrite decide_True by done. rewrite decide_False by (by intros [? _]). done.
  - rewrite decide_False by (by intros [? _]). rewrite decide_True by done. done.
Qed.

(** The reservations accepted for a ticket are exactly the ones that cover its worst
    case: for a native send one transfer row of value plus fee ceiling, without overflow
    of the native domain; for a currency-collection send one row of the value and one
    native row of the fee; all nonzero and of the ticket's record. *)
Lemma validate_reservations_exact (t : SendTicket) (fee : N) (rs : list Reservation) :
  in_domain (sr_value (t_request t)) ->
  validate_reservations t fee rs = Ok tt <-> exact_reservations t fee rs.
Proof.
  intros Hd. unfold validate_reservations, exact_reservations.
  set (value := sr_value (t_request t)) in *. cbv zeta.
  destruct (existsb _ rs) eqn:Hrows.
  { split; [done|]. intros [Hfee H].
    exfalso. apply not_false_iff_true in Hrows. apply Hrows, rows_checked.
    destruct (asset_id value).
    - destruct H as (_ & Hz & ->). by repeat constructor.
    - destruct H as (Hz & Hzf & ->). repeat constructor; done. }
  apply rows_checked in Hrows. destruct (asset_id value) as [|id] eqn:Ha.
  - assert (Hadd : forall total, fee <= NATIVE_MAX_UNITS ->
      checked_add_same_asset value (NativeAmount fee) = Ok total
      <-> total = NativeAmount (units_of value + fee) /\ units_of value + fee <= NATIVE_MAX_UNITS).
    { intros total Hfee. rewrite checked_add_exact by done. rewrite Ha.
      destruct value; [|done]. cbn. split; [by intros (_ & -> & ?)|by intros (-> & ?)]. }
    split.
    + intros H. apply rbind_Ok in H as (f & [-> Hfee]%amount_native_ok & H).
      apply rbind_Ok in H as (total & [-> Hmax]%map_err_Ok%(Hadd _ Hfee) & H).
      destruct rs as [|[rid va k] [|]]; try done. destruct (_ || _) eqn:Hc in H; [done|].
      rewrite orb_false_iff, !negb_false_iff, !bool_decide_eq_true in Hc. cbn in Hc. destruct Hc as [-> ->].
      apply Forall_cons in Hrows as [[Hr Hz] _]. cbn in Hr, Hz. by rewrite Hr.
    + intros (Hfee & Hmax & Hz & ->). rewrite (proj2 (amount_native_ok _ fee _)) by done. cbn [rbind].
      rewrite (proj2 (Hadd _ Hfee) (conj eq_refl Hmax)). cbn [map_err rbind r_kind r_amount].
      by rewrite !bool_decide_eq_true_2 by done.
  - split.
    + intros H. apply rbind_Ok in H as (f & [-> Hfee]%amount_native_ok & H). cbv zeta in H.
      destruct (_ || _) eqn:Hc in H; [done|].
      rewrite !orb_false_iff, !negb_false_iff, !Nat.eqb_eq in Hc. destruct Hc as [[H1 H2] H3].
      split; [done|]. by apply (cc_rows t value (NativeAmount fee)).
    + intros (Hfee & Hz & Hzf & Hp). rewrite (proj2 (amount_native_ok _ fee _)) by done. cbn [rbind].
      destruct (cc_rows_count _ _ _ _ Hp) as (H1 & H2 & H3). by rewrite H1, H2, H3.
Qed.

Lemma validate_reservations_exact_witness :
  validate_reservations (demo_ticket (pad32 [])) 400
    [mkReservation (pad32 []) (NativeAmount 405) Transfer] = Ok tt
  <-> exact_reservations (demo_ticket (pad32 [])) 400 [mkReservation (pad32 []) (NativeAmount 405) Transfer].
Proof. apply validate_reservations_exact. by vm_compute. Defined.

(** ** The life of a record

    What the checks of [validate_static] amount to: the evidence of a record is a word of
    a small language. It opens with [Prepared] and the attempts numbered from 1; then
    either it is abandoned, or the last attempt may have been broadcast or answered, an
    endpoint may have reported it and a proof may have closed it. *)
Fixpoint attempts_from (k : N) (l : list DeliveryEvidence) : Prop :=
  match l with
  | [] => True
  | AttemptStarted n _ :: l' => n = k /\ k <= u32_max /\ attempts_from (k + 1) l'
  | _ => False
  end.

Definition is_sent (n : N) (e : DeliveryEvidence) : Prop :=
  match e with MayHaveBroadcast m _ | NodeResponseObserved m _ _ _ => m = n | _ => False end.
Definition is_report (e : DeliveryEvidence) : Prop :=
  match e with EndpointReportedSuccess _ | EndpointReportedFailedOnChain _ => True | _ => False end.
Definition is_verified (e : DeliveryEvidence) : Prop :=
  match e with VerifiedTerminal _ _ => True | _ => False end.
Definition is_abandoned (e : DeliveryEvidence) : Prop :=
  match e with NotBroadcast _ _ => True | _ => False end.

(** An optional event. *)
Definition opt (P : DeliveryEvidence -> Prop) (l : list DeliveryEvidence) : Prop :=
  l = [] \/ exists e, l = [e] /\ P e.

Definition closing (n : N) (l : list DeliveryEvidence) : Prop :=
  (exists e, l = [e] /\ is_abandoned e)
  \/ exists sent reported verified,
       l = sent ++ reported ++ verified
       /\ opt (is_sent n) sent /\ opt is_report reported /\ opt is_verified verified
       /\ (n = 0 -> l = []).

Definition lifecycle (l : list DeliveryEvidence) : Prop :=
  exists attempts rest,
    l = Prepared :: attempts ++ rest
    /\ attempts_from 1 attempts /\ closing (N.of_nat (length attempts)) rest.

Fixpoint transitions_ok (previous : DeliveryEvidence) (l : list DeliveryEvidence) : Prop :=
  match l with
  | [] => True
  | e :: l' => valid_delivery_transition previous e = true /\ transitions_ok e l'
  end.

Lemma after_terminal e l : is_terminal e = true -> transitions_ok e l <-> l = [].
Proof.
  intros He. destruct l as [|x l]; [by split|]. cbn [transitions_ok]. split; [|done].
  intros [Hx _]. by destruct e, x.
Qed.

Lemma after_report e l : is_report e -> transitions_ok e l <-> opt is_verified l.
Proof.
  intros He. unfold opt. destruct l as [|x l]; cbn; [split; [by left|done]|].
  split.
  - intros [Hx Hl]. right. destruct e as [| | | | | |[]|]; try done;
      (destruct x; try done; apply after_terminal in Hl as ->; [by eexists|done]).
  - intros [?|(y & [= -> ->] & Hy)]; [done|]. by destruct e as [| | | | | |[]|], y.
Qed.

(** What may follow broadcast evidence, and what may follow an attempt besides. *)
Definition reported_tail (l : list DeliveryEvidence) : Prop :=
  exists reported verified, l = reported ++ verified /\ opt is_report reported /\ opt is_verified verified.

Lemma reported_tail_cons x l :
  reported_tail (x :: l) <-> is_report x /\ opt is_verified l \/ is_verified x /\ l = [].
Proof.
  unfold reported_tail. split.
  - intros (r & v & E & [->|(y & -> & Hy)] & Hv); simpl in E.
    + subst v. destruct Hv as [?|(z & [= -> ->] & Hz)]; [done|]. by right.
    + injection E as -> ->. by left.
  - intros [[Hx Hl]|[Hx ->]]; [exists [x], l|exists [], [x]]; (split; [done|]);
      (split; [first [by left|right; by eexists]|first [done|right; by eexists]]).
Qed.

Lemma reported_tail_nil : reported_tail [].
Proof. exists [], []. split; [done|]. split; by left. Qed.

Lemma after_sent n e l : is_sent n e -> transitions_ok e l <-> reported_tail l.
Proof.
  intros He. destruct l as [|x l]; [split; [intros _; apply reported_tail_nil|done]|].
  rewrite reported_tail_cons. cbn. split.
  - intros [Hx Hl]. destruct e as [| | | | | |[]|]; try done; destruct x; try done;
      solve [left; split; [done|by eapply after_report in Hl]
            |right; split; [done|by apply after_terminal in Hl]].
  - intros [[Hx Hl]|[Hx ->]]; (split; [by destruct e as [| | | | | |[]|], x|]);
      [by apply after_report|done].
Qed.

Lemma closing_pos n l :
  n <> 0 ->
  closing n l <-> (exists e, l = [e] /\ is_abandoned e) \/ reported_tail l
                  \/ exists e l', l = e :: l' /\ is_sent n e /\ reported_tail l'.
Proof.
  intros Hn. unfold closing, reported_tail. split.
  - intros [H|(s & r & v & -> & [->|(e & -> & He)] & Hr & Hv & _)]; [by left|right..].
    + left. by exists r, v.
    + right. exists e, (r ++ v). split; [done|]. split; [done|]. by exists r, v.
  - intros [H|[(r & v & -> & Hr & Hv)|(e & l' & -> & He & r & v & -> & Hr & Hv)]]; [by left|right..].
    + exists [], r, v. split; [done|]. by split; [left|].
    + exists [e], r, v. split; [done|]. split; [right; by exists e|done].
Qed.

Lemma after_attempt n route l :
  n <> 0 -> n <= u32_max ->
  transitions_ok (AttemptStarted n route) l <->
  exists attempts rest, l = attempts ++ rest /\ attempts_from (n + 1) attempts
    /\ closing (n + N.of_nat (length attempts)) rest.
Proof.
  intros Hn. revert n route Hn. induction l as [|x l IH]; intros n route Hn Hm.
  { split; [|done]. intros _. exists [], []. split; [done|]. split; [done|]. rewrite N.add_0_r.
    apply closing_pos; [done|]. right; left. apply reported_tail_nil. }
  cbn [transitions_ok]. split.
  - intros [Hx Hl].
    assert (Hhere : closing n (x :: l) ->
      exists attempts rest, x :: l = attempts ++ rest /\ attempts_from (n + 1) attempts
        /\ closing (n + N.of_nat (length attempts)) rest).
    { intros Hc. exists [], (x :: l). rewrite N.add_0_r. done. }
    destruct x as [|m rt|m rt|m rt rq rs|tx|tx|o pf|rt d]; cbn in Hx; try done.
    + apply bool_decide_eq_true_1, checked_add_Some in Hx as [-> Hb].
      apply IH in Hl as (a & r & -> & Ha & Hc); [|lia|done].
      exists (AttemptStarted (n + 1) rt :: a), r. split; [done|]. split; [done|].
      cbn [length]. by replace (n + N.of_nat (S (length a))) with (n + 1 + N.of_nat (length a)) by lia.
    + apply N.eqb_eq in Hx as <-. apply Hhere, closing_pos; [done|]. right; right.
      eexists _, _. split; [done|]. split; [done|]. by eapply (after_sent n) in Hl.
    + apply N.eqb_eq in Hx as <-. apply Hhere, closing_pos; [done|]. right; right.
      eexists _, _. split; [done|]. split; [done|]. by eapply (after_sent n) in Hl.
    + apply Hhere, closing_pos; [done|]. right; left. apply reported_tail_cons. left.
      split; [done|]. by apply after_report in Hl.
    + apply Hhere, closing_pos; [done|]. right; left. apply reported_tail_cons. left.
      split; [done|]. by apply after_report in Hl.
    + apply Hhere, closing_pos; [done|]. right; left. apply reported_tail_cons. right.
      split; [done|]. by apply after_terminal in Hl.
    + apply after_terminal in Hl as ->; [|done]. apply Hhere. left. by eexists.
  - intros (a & r & E & Ha & Hc). destruct a as [|y a].
    + simpl in E. subst r. rewrite N.add_0_r in Hc. apply closing_pos in Hc; [|done].
      destruct Hc as [(e & [= -> ->] & He)|[Hc|(e & l' & [= -> ->] & He & Hl)]].
      * by destruct e.
      * apply reported_tail_cons in Hc as [[Hx Hl]|[Hx ->]]; (split; [by destruct x|]);
          [by apply after_report|done].
      * split; [destruct e; try done; cbn in *; by rewrite He, N.eqb_refl|]. by apply (after_sent n).
    + injection E as <- ->. destruct x as [|m rt| | | | | |]; try done.
      destruct Ha as (-> & Hb & Ha). split.
      * cbn. apply bool_decide_eq_true, checked_add_Some. done.
      * apply IH; [lia|done|]. exists a, r. split; [done|]. split; [done|].
        by replace (n + 1 + N.of_nat (length a)) with (n + N.of_nat (length (AttemptStarted (n+1) rt :: a)))
          by (cbn [length]; lia).
Qed.

Lemma closing_zero l : closing 0 l <-> l = [] \/ exists e, l = [e] /\ is_abandoned e.
Proof.
  unfold closing. split.
  - intros [H|(s & r & v & _ & _ & _ & _ & H)]; [by right|left; by apply H].
  - intros [->|H]; [right|by left]. exists [], [], []. by repeat (split; [by try left|]).
Qed.

Lemma after_prepared l : lifecycle (Prepared :: l) <-> transitions_ok Prepared l.
Proof.
  unfold lifecycle. split.
  - intros (a & r & [= ->] & Ha & Hc). destruct a as [|x a].
    + apply closing_zero in Hc as [->|(e & -> & He)]; [done|]. by destruct e.
    + destruct x as [|m rt| | | | | |]; try done. destruct Ha as (-> & _ & Ha).
      split; [done|]. apply after_attempt; [done..|]. exists a, r. split; [done|]. split; [done|].
      by replace (1 + N.of_nat (length a)) with (N.of_nat (length (AttemptStarted 1 rt :: a)))
        by (cbn [length]; lia).
  - intros H. destruct l as [|x l].
    { exists [], []. split; [done|]. split; [done|]. apply closing_zero. by left. }
    destruct H as [Hx Hl]. destruct x as [|m rt| | | | | |rt d]; try done.
    + destruct (decide (m = 1)) as [->|Hm]; [|by destruct m as [|[]]].
      apply after_attempt in Hl as (a & r & -> & Ha & Hc); [|done..].
      exists (AttemptStarted 1 rt :: a), r. split; [done|]. split; [done|].
      cbn [length]. by replace (N.of_nat (S (length a))) with (1 + N.of_nat (length a)) by lia.
    + apply after_terminal in Hl as ->; [|done]. exists [], [NotBroadcast rt d].
      split; [done|]. split; [done|]. left. by eexists.
Qed.

Fixpoint increasing (prior : N) (l : list N) : Prop :=
  match l with [] => True | s :: l' => prior < s /\ increasing s l' end.

Definition evidence_ok (r : SendRecord) (e : DeliveryEvidence) : Prop :=
  validate_evidence e = Ok tt /\ event_bound r e = Ok tt.

Lemma validate_events_Ok r events prior terminal previous :
  (terminal = true -> exists e, previous = Some e /\ is_terminal e = true) ->
  validate_events r events prior terminal previous = Ok tt
  <-> Forall (fun e => evidence_ok r (de_evidence e)) events
      /\ match previous with
         | Some e => transitions_ok e (de_evidence <$> events)
         | None => match events with
                   | e :: events' => transitions_ok (de_evidence e) (de_evidence <$> events')
                   | [] => True
                   end
         end
      /\ increasing prior (de_journal_seq <$> events).
Proof.
  revert prior terminal previous. induction events as [|ev events IH]; intros prior terminal previous Ht.
  { cbn. destruct previous; split; try done; by repeat constructor. }
  rewrite !fmap_cons, Forall_cons. cbn [validate_events increasing].
  assert (Hunit : forall (m : res JournalError unit) k, rbind m (fun _ => k) = Ok tt <-> m = Ok tt /\ k = Ok tt).
  { intros m k. rewrite rbind_Ok. split; [by intros ([] & ? & ?)|by intros [? ?]; exists tt]. }
  rewrite Hunit. unfold evidence_ok at 1.
  assert (Hstep : forall p, previous = Some p -> valid_delivery_transition p (de_evidence ev) = true ->
    terminal = false).
  { intros p -> Hv. destruct terminal; [|done]. destruct (Ht eq_refl) as (e & [= ->] & He).
    by destruct e, (de_evidence ev). }
  assert (Hnext : is_terminal (de_evidence ev) = true ->
    exists e, Some (de_evidence ev) = Some e /\ is_terminal e = true) by (intros; by eexists).
  specialize (IH (de_journal_seq ev) (is_terminal (de_evidence ev)) (Some (de_evidence ev)) Hnext).
  destruct previous as [p|].
  - cbn [transitions_ok]. destruct (valid_delivery_transition p (de_evidence ev)) eqn:Hv; cbn [negb].
    + rewrite Hunit. specialize (Hstep p eq_refl Hv). subst terminal.
      destruct (N.leb_spec (de_journal_seq ev) prior); [split; [naive_solver|intros; lia]|].
      rewrite IH. tauto.
    + split; [naive_solver|]. naive_solver.
  - rewrite Hunit. assert (terminal = false) as -> by (destruct terminal; [by destruct (Ht eq_refl) as (? & ? & _)|done]).
    destruct (N.leb_spec (de_journal_seq ev) prior); [split; [naive_solver|intros; lia]|].
    rewrite IH. tauto.
Qed.

Lemma transitions_no_prepared e l : transitions_ok e l -> existsb is_prepared l = false.
Proof.
  revert e. induction l as [|x l IH]; intros e; cbn; [done|]. intros [Hx Hl].
  rewrite (IH x Hl), orb_false_r. by destruct e as [| | | | | |[]|], x.
Qed.

Lemma validate_static_Ok r :
  validate_static r = Ok tt
  <-> lifecycle (de_evidence <$> rec_delivery_events r)
      /\ Forall (fun e => evidence_ok r (de_evidence e)) (rec_delivery_events r)
      /\ increasing 0 (de_journal_seq <$> rec_delivery_events r)
      /\ check_prepared_shape (rec_ticket r) (rec_prepare_provenance r) (rec_reservations r) = Ok tt.
Proof.
  unfold validate_static. destruct (rec_delivery_events r) as [|first rest] eqn:Hev.
  { split; [done|]. intros [(a & l & H & _) _]. done. }
  rewrite fmap_cons. destruct (is_prepared (de_evidence first)) eqn:Hp; cbn [negb orb].
  2: { split; [done|]. intros [(a & l & [= H _] & _) _]. by rewrite H in Hp. }
  destruct (de_evidence first) eqn:Hf; try discriminate Hp. rewrite after_prepared.
  assert (He : existsb (fun e => is_prepared (de_evidence e)) rest = existsb is_prepared (de_evidence <$> rest)).
  { clear. induction rest as [|e rest IH]; [done|]. cbn. by rewrite IH. }
  rewrite He. destruct (existsb is_prepared (de_evidence <$> rest)) eqn:Hx.
  { split; [done|]. intros [H%transitions_no_prepared _]. congruence. }
  rewrite rbind_Ok.
  rewrite <- (and_comm (check_prepared_shape _ _ _ = _)).
  assert (Hv : validate_events r (first :: rest) 0 false None = Ok tt
    <-> Forall (fun e => evidence_ok r (de_evidence e)) (first :: rest)
        /\ transitions_ok Prepared (de_evidence <$> rest)
        /\ increasing 0 (de_journal_seq <$> first :: rest)).
  { rewrite validate_events_Ok by done. cbn match. by rewrite Hf. }
  split.
  - intros ([] & Hc & H%Hv). tauto.
  - intros (H1 & H2 & H3 & H4). exists tt. split; [done|]. apply Hv. tauto.
Qed.

(** C36: the records that pass [validate_static] are exactly those whose evidence is a
    word of the lifecycle (one [Prepared], attempts numbered from 1, then abandonment or
    at most one broadcast or response of the last attempt, one report and one proof),
    whose payloads are valid and bound to the ticket, message and route, whose sequence
    numbers increase from above zero, and whose reservations fit the ticket. *)
Theorem record_lifecycle_exact (r : SendRecord) :
  validate_static r = Ok tt
  <-> lifecycle (de_evidence <$> rec_delivery_events r)
      /\ Forall (fun e => evidence_ok r (de_evidence e)) (rec_delivery_events r)
      /\ increasing 0 (de_journal_seq <$> rec_delivery_events r)
      /\ check_prepared_shape (rec_ticket r) (rec_prepare_provenance r) (rec_reservations r) = Ok tt.
Proof. apply validate_static_Ok. Qed.

Lemma attempts_from_forall k l e : attempts_from k l -> e ∈ l -> exists n rt, e = AttemptStarted n rt.
Proof.
  revert k. induction l as [|x l IH]; intros k; [by intros _ ?%elem_of_nil|].
  destruct x; try done. intros (_ & _ & Hl) [->|He]%elem_of_cons; [by eexists _, _|by eapply IH].
Qed.

Lemma lifecycle_abandoned l e x :
  lifecycle l -> e ∈ l -> is_abandoned e -> x ∈ l ->
  x = e \/ x = Prepared \/ exists n rt, x = AttemptStarted n rt.
Proof.
  intros (a & rest & -> & Ha & Hc) He Hab Hx.
  assert (Hnot : forall y, is_abandoned y -> y ∈ Prepared :: a -> False).
  { intros y Hy [->|Hin]%elem_of_cons; [done|]. by apply (attempts_from_forall _ _ _ Ha) in Hin as (n & rt & ->). }
  assert (Hopt : forall P q y, opt P q -> y ∈ q -> P y).
  { intros P q y [->|(z & -> & Hz)]; [by intros ?%elem_of_nil|]. by intros ->%list_elem_of_singleton. }
  change (Prepared :: a ++ rest) with ((Prepared :: a) ++ rest) in *.
  apply elem_of_app in He as [He|He]; [by apply Hnot in He|].
  assert (Hrest : exists y, rest = [y] /\ is_abandoned y).
  { destruct Hc as [Hc|(s & r & v & -> & Hs & Hr & Hv & _)]; [done|]. exfalso.
    rewrite !elem_of_app in He. destruct He as [He|[He|He]].
    - apply (Hopt _ _ _ Hs) in He. by destruct e.
    - apply (Hopt _ _ _ Hr) in He. by destruct e.
    - apply (Hopt _ _ _ Hv) in He. by destruct e. }
  destruct Hrest as (y & -> & _). apply list_elem_of_singleton in He as ->.
  apply elem_of_app in Hx as [Hx|Hx]; [|left; by apply list_elem_of_singleton in Hx].
  right. apply elem_of_cons in Hx as [->|Hx]; [by left|right]. by eapply attempts_from_forall.
Qed.

(** A record says its message was not broadcast only when nothing in it suggests
    otherwise: with [NotBroadcast] there is no broadcast, no node response, no endpoint
    report and no proof among its evidence, so its reservations are released only when
    the message never left. *)
Lemma not_broadcast_never_after_broadcast (r : SendRecord) (e x : DeliveryEvidence) :
  validate_static r = Ok tt ->
  e ∈ de_evidence <$> rec_delivery_events r -> is_abandoned e ->
  x ∈ de_evidence <$> rec_delivery_events r ->
  x = e \/ x = Prepared \/ exists n route, x = AttemptStarted n route.
Proof. intros (Hl & _)%validate_static_Ok He Ha Hx. by eapply lifecycle_abandoned. Qed.

Definition demo_record (rid : RecordId) (events : list DeliveryEvent) : SendRecord :=
  {| rec_ticket := demo_ticket rid; rec_prepare_provenance := demo_provenance;
     rec_ext_msg_hash := pad32 [Byte.x99]; rec_expire_at := 100;
     rec_reservations := [mkReservation rid (NativeAmount 405) Transfer];
     rec_delivery_events := events |}.

Definition demo_abandoned : SendRecord :=
  demo_record (pad32 [])
    [mkDeliveryEvent 1 Prepared; mkDeliveryEvent 2 (AttemptStarted 1 (bs "route"));
     mkDeliveryEvent 3 (NotBroadcast (bs "route") (bs "refused"))].

Lemma not_broadcast_never_after_broadcast_witness :
  AttemptStarted 1 (bs "route") = NotBroadcast (bs "route") (bs "refused")
  \/ AttemptStarted 1 (bs "route") = Prepared
  \/ exists n route, AttemptStarted 1 (bs "route") = AttemptStarted n route.
Proof.
  apply (not_broadcast_never_after_broadcast demo_abandoned); [by vm_compute| |done|].
  - right. right. left.
  - right. left.
Defined.

Lemma validate_static_no_panic r : validate_static r <> Panic.
Proof.
  assert (Hadd : forall a b, checked_add_same_asset a b <> Panic).
  { intros [x|i x] [y|j y]; cbn; try done.
    - unfold checked_add, amount_native. by destruct (_ <=? _); cbn; [destruct (_ <? _)|].
    - unfold cc_checked_add. by destruct (i =? j); [destruct (_ <=? _)|]. }
  assert (Htx : forall tx, validate_endpoint_tx tx <> Panic) by (intros tx; unfold validate_endpoint_tx; by case_match).
  assert (Hev : forall e, validate_evidence e <> Panic)
    by (intros []; cbn; repeat case_match; try done; apply Htx).
  assert (Hb : forall r e, event_bound r e <> Panic) by (intros ? []; cbn; repeat case_match; done).
  assert (Hvr : forall t f rs, validate_reservations t f rs <> Panic).
  { intros t f rs. unfold validate_reservations, amount_native. case_match; [done|].
    case_match; (case_match; [done|]; cbn [map_err rbind]).
    - pose proof (Hadd (sr_value (t_request t)) (NativeAmount f)) as H2.
      destruct (checked_add_same_asset _ _); [|done..]. cbn. destruct rs as [|? [|? ?]]; [done| |done]. by case_match.
    - by case_match. }
  unfold validate_static.
  match goal with |- (if ?c then _ else _) <> _ => destruct c; [done|] end. intros [H0|(u & _ & H0)]%rbind_Panic.
  - unfold check_prepared_shape in H0. case_match; [done|]. by apply Hvr in H0.
  - revert H0. generalize 0, false, (@None DeliveryEvidence).
    induction (rec_delivery_events r) as [|e l IH]; intros p t o; cbn [validate_events]; [done|].
    intros [H1|(u1 & _ & H1)]%rbind_Panic; [by apply Hev in H1|]. case_match; [done|].
    apply rbind_Panic in H1 as [H1|(u2 & _ & H1)]; [by apply Hb in H1|]. repeat (case_match; [done|]).
    by apply IH in H1.
Qed.

Lemma with_events_id r : with_events r (rec_delivery_events r) = r.
Proof. by destruct r. Qed.

Lemma append_delivery_event_cases (r r' : SendRecord) (seq : N) (e : DeliveryEvidence)
    (out : res JournalError unit) :
  append_delivery_event r seq e = (r', out) ->
  (out = Ok tt /\ r' = with_events r (rec_delivery_events r ++ [mkDeliveryEvent seq e])
   /\ validate_static r' = Ok tt)
  \/ (r' = r /\ is_err out = true).
Proof.
  unfold append_delivery_event, DeliveryEvent_new. destruct (seq =? 0); [intros [= <- <-]; by right|].
  pose proof (validate_static_no_panic
    (with_events r (rec_delivery_events r ++ [mkDeliveryEvent seq e]))) as Hp.
  assert (Hev : validate_evidence e <> Panic).
  { destruct e; cbn; unfold validate_endpoint_tx; repeat case_match; done. }
  destruct (validate_evidence e) as [u|err|]; cbn [rbind]; [|intros [= <- <-]; by right|done].
  destruct (validate_static _) as [[]|err|] eqn:Hv; [| |done].
  - intros [= <- <-]. left. done.
  - intros [= <- <-]. right. split; [|done]. cbn [with_events rec_delivery_events].
    rewrite length_app. cbn [length].
    replace (length (rec_delivery_events r) + 1 - 1)%nat with (length (rec_delivery_events r)) by lia.
    rewrite take_app_length. unfold with_events. cbn. by destruct r.
Qed.

(** Appending an event to a record either adds it at the end, and the record is then
    valid, or refuses it and leaves the record exactly as it was; it never panics. *)
Lemma append_delivery_event_atomic (r r' : SendRecord) (seq : N) (e : DeliveryEvidence)
    (out : res JournalError unit) :
  append_delivery_event r seq e = (r', out) ->
  (out = Ok tt /\ r' = with_events r (rec_delivery_events r ++ [mkDeliveryEvent seq e])
   /\ validate_static r' = Ok tt)
  \/ (r' = r /\ is_err out = true).
Proof. apply append_delivery_event_cases. Qed.

Lemma append_delivery_event_atomic_witness :
  (Err (InvalidDelivery "delivery evidence transition is not monotone or attempt-bound")
     = @Ok JournalError _ tt
   /\ demo_abandoned = with_events demo_abandoned (rec_delivery_events demo_abandoned ++ [mkDeliveryEvent 4 (AttemptStarted 2 (bs "route"))])
   /\ validate_static demo_abandoned = Ok tt)
  \/ (demo_abandoned = demo_abandoned
      /\ is_err (@Err JournalError unit (InvalidDelivery "delivery evidence transition is not monotone or attempt-bound")) = true).
Proof. apply (append_delivery_event_atomic demo_abandoned demo_abandoned 4 (AttemptStarted 2 (bs "route"))). by vm_compute. Defined.
