(* ===== verification/Replay.v ===== *)
(** * Replay (crates/cc-wallet-domain/src/journal.rs, [validate_replay] and its helpers)

    The journal is accepted only if its events, put in the order of their sequence
    numbers, run through this machine: ordinary sends are exclusive, a send over
    unresolved ones needs a one-use grant that names exactly them, and every send must
    be affordable against what stays reserved. *)

From Stdlib Require Import NArith ZArith Lia Sorting.
From S2P Require Import Prelude Ord Bytes Text Ids Asset Amount Digest Affordability Send Risk Journal.

Inductive ReplayItem :=
| RDelivery (record : SendRecord) (event : DeliveryEvent)
| RRisk (event : RiskEvent).

Definition item_seq (i : ReplayItem) : N :=
  match i with RDelivery _ event => de_journal_seq event | RRisk event => re_journal_seq event end.

Definition record_id (r : SendRecord) : RecordId := t_record_id (rec_ticket r).

Definition same_signing_scope (left right : SendRecord) : bool :=
  bool_decide (scope (rec_ticket left) = scope (rec_ticket right)).

(** [BTreeMap<RecordId, (&SendRecord, EvidenceTag)>]. *)
Notation record_map := (btree bytes32 (SendRecord * EvidenceTag)).

(** The local variables of the replay loop. *)
Record ReplayState := mkReplay {
  active : record_map;
  blocking : record_map;
  grants : btree bytes32 RiskGrant;
  consumed : btree bytes32 unit;
  pending_consumption : option (RiskGrant * RiskGrantConsumption)
}.

Definition replay_init : ReplayState := mkReplay [] [] [] [] None.

(** The first loop: each record on its own, one scope, distinct ids. *)
Fixpoint check_records (identity : option (bytes * bytes * Z)) (record_ids : btree bytes32 unit)
    (records : list SendRecord) : res JournalError unit :=
  match records with
  | [] => Ok tt
  | record :: records' =>
      let? _ := validate_static record in
      if match identity with
         | Some s => negb (bool_decide (scope (rec_ticket record) = s))
         | None => false
         end
      then Err (InvalidDelivery "one encrypted Journal cannot mix wallet, sender, or network identities") else
      if bt_contains (record_id record) record_ids then Err DuplicateRecord else
      check_records identity (bt_insert (record_id record) tt record_ids) records'
  end.

Definition record_items (r : SendRecord) : list ReplayItem := RDelivery r <$> rec_delivery_events r.

Definition replay_stream (records : list SendRecord) (risk_events : list RiskEvent) : list ReplayItem :=
  sort_by_key item_seq (concat (record_items <$> records) ++ (RRisk <$> risk_events)).

(** [usize] is 64 bits wide, so the index always fits a [u64]. *)
Fixpoint check_sequence (index : N) (stream : list ReplayItem) : res JournalError unit :=
  match stream with
  | [] => Ok tt
  | item :: stream' =>
      let? expected := ok_or (checked_add u64_max index 1) SequenceOverflow in
      if item_seq item =? 0 then Err SequenceZero
      else if negb (item_seq item =? expected) then Err SequenceGap
      else check_sequence (index + 1) stream'
  end.

(** The loops that list the blocking records chosen by [pick], and their reservations. *)
Fixpoint collect_blockers (pick : SendRecord -> bool) (entries : record_map)
  : res JournalError (list BlockerRow * list Reservation) :=
  match entries with
  | [] => Ok ([], [])
  | (id, (record, evidence)) :: entries' =>
      if pick record && tag_is_blocking evidence then
        let? row := jdigest (BlockerRow_new id evidence (rec_ext_msg_hash record)) in
        let? (rows, reservations) := collect_blockers pick entries' in
        Ok (row :: rows, rec_reservations record ++ reservations)
      else collect_blockers pick entries'
  end.

Definition validate_grant_old_state `{Sha256} (grant : RiskGrant) (entries : record_map)
  : res JournalError unit :=
  let? (blockers, reservations) := collect_blockers (fun _ => true) entries in
  if bool_decide (length blockers = 0%nat) then Err GrantDigestMismatch else
  let? b := jdigest (blocker_set_digest blockers) in
  if negb (bool_decide (b = g_old_blocker_set_digest grant)) then Err GrantDigestMismatch else
  let? r := jdigest (reservation_set_digest reservations) in
  if negb (bool_decide (r = g_old_reservation_set_digest grant)) then Err GrantDigestMismatch else
  Ok tt.

Definition validate_grant_state `{Sha256} (grant : RiskGrant) (new_record : SendRecord)
    (entries : record_map) : res JournalError unit :=
  let? (blockers, reservations) :=
    collect_blockers (fun record => same_signing_scope record new_record) entries in
  if bool_decide (length blockers = 0%nat) then Err GrantDigestMismatch else
  let overlap := p_authorized_overlap (rec_prepare_provenance new_record) in
  if existsb (fun row => negb (bool_decide (row ∈ reservations))) overlap
  then Err (InvalidReservation "authorized overlap is not a subset of active reservations") else
  let? ticket := jdigest (SendTicket_digest (rec_ticket new_record)) in
  let? b := jdigest (blocker_set_digest blockers) in
  if negb (bool_decide (b = g_old_blocker_set_digest grant)) then Err GrantDigestMismatch else
  let? r := jdigest (reservation_set_digest reservations) in
  if negb (bool_decide (r = g_old_reservation_set_digest grant)) then Err GrantDigestMismatch else
  let? o := jdigest (overlap_set_digest overlap) in
  if negb (bool_decide (o = g_overlap_reservation_set_digest grant))
     || negb (bool_decide (ticket = g_new_ticket_digest grant))
     || negb (bool_decide (record_id new_record = g_new_record_id grant))
  then Err GrantDigestMismatch else Ok tt.

(** What the blocking records of the new record's scope keep reserved. *)
Definition active_reservations (record : SendRecord) (entries : record_map) : list Reservation :=
  concat ((fun entry => rec_reservations (fst (snd entry))) <$>
    filter (fun entry => same_signing_scope (fst (snd entry)) record && tag_is_blocking (snd (snd entry)))
      entries).

(** The branch of the loop for a [Prepared] event. *)
Definition replay_prepared `{Sha256} (st : ReplayState) (record : SendRecord) : res JournalError ReplayState :=
  if bt_contains (record_id record) (active st) then Err (InvalidDelivery "second Prepared") else
  let? _ :=
    match pending_consumption st with
    | Some (grant, consumption) =>
        if negb (bool_decide (record_id record = c_new_record_id consumption))
        then Err ConsumptionMismatch else
        let? ticket := jdigest (SendTicket_digest (rec_ticket record)) in
        if negb (bool_decide (ticket = c_new_ticket_digest consumption))
        then Err ConsumptionMismatch else
        validate_grant_state grant record (blocking st)
    | None =>
        if negb (bool_decide (p_authorized_overlap (rec_prepare_provenance record) = []))
        then Err OrphanConsumption else
        if existsb (fun entry => same_signing_scope (fst (snd entry)) record
                                 && tag_is_blocking (snd (snd entry))) (blocking st)
        then Err OrdinarySigningBlocked else Ok tt
    end in
  let? affordability :=
    map_err (fun _ => InvalidReservation "Prepared affordability inputs are inconsistent")
      (evaluate_affordability (p_balances (rec_prepare_provenance record))
         (active_reservations record (blocking st))
         (p_authorized_overlap (rec_prepare_provenance record))
         (r_amount <$> rec_reservations record)) in
  check is_affordable affordability
  else InvalidReservation "Prepared is not affordable against its fresh balances and reservations" ;;
  Ok (mkReplay (bt_insert (record_id record) (record, TagPrepared) (active st))
        (bt_insert (record_id record) (record, TagPrepared) (blocking st))
        (grants st) (consumed st) None).

(** The branch for any other evidence. *)
Definition replay_evidence (st : ReplayState) (record : SendRecord) (t : EvidenceTag)
  : res JournalError ReplayState :=
  let? state := ok_or (bt_get (record_id record) (active st)) (InvalidDelivery "event precedes Prepared") in
  Ok (mkReplay (bt_insert (record_id record) (fst state, t) (active st))
        (if tag_is_blocking t then bt_insert (record_id record) (record, t) (blocking st)
         else bt_remove (record_id record) (blocking st))
        (grants st) (consumed st) (pending_consumption st)).

Definition is_prepared_item (i : ReplayItem) : bool :=
  match i with RDelivery _ event => is_prepared (de_evidence event) | RRisk _ => false end.

(** One turn of the loop. *)
Definition replay_step `{Sha256} (st : ReplayState) (item : ReplayItem) : res JournalError ReplayState :=
  if negb (bool_decide (pending_consumption st = None)) && negb (is_prepared_item item)
  then Err ConsumptionNotAdjacent else
  match item with
  | RRisk event =>
      match re_action event with
      | Granted grant =>
          check g_warning_version grant =? RISK_WARNING_VERSION else UnsupportedWarningVersion ;;
          let? _ := validate_grant_old_state grant (blocking st) in
          if bt_contains (g_one_use_nonce grant) (grants st) then Err DuplicateConsumption else
          Ok (mkReplay (active st) (blocking st) (bt_insert (g_one_use_nonce grant) grant (grants st))
                (consumed st) (pending_consumption st))
      | Consumed consumption =>
          let? grant := ok_or (bt_get (c_one_use_nonce consumption) (grants st)) OrphanConsumption in
          check authorizes grant consumption else ConsumptionMismatch ;;
          if bt_contains (c_one_use_nonce consumption) (consumed st) then Err DuplicateConsumption else
          Ok (mkReplay (active st) (blocking st) (grants st)
                (bt_insert (c_one_use_nonce consumption) tt (consumed st)) (Some (grant, consumption)))
      end
  | RDelivery record event =>
      if is_prepared (de_evidence event) then replay_prepared st record
      else replay_evidence st record (tag (de_evidence event))
  end.

Fixpoint replay_run `{Sha256} (st : ReplayState) (stream : list ReplayItem) : res JournalError ReplayState :=
  match stream with
  | [] => Ok st
  | item :: stream' => let? st' := replay_step st item in replay_run st' stream'
  end.

Definition validate_replay `{Sha256} (records : list SendRecord) (risk_events : list RiskEvent)
  : res JournalError unit :=
  let identity := match records with r :: _ => Some (scope (rec_ticket r)) | [] => None end in
  let? _ := check_records identity [] records in
  let stream := replay_stream records risk_events in
  let? _ := check_sequence 0 stream in
  let? st := replay_run replay_init stream in
  match pending_consumption st with
  | Some _ => Err ConsumptionNotAdjacent
  | None => Ok tt
  end.

(** ** Running the machine *)
Section run.
Context `{Sha256}.

Lemma replay_run_app st l k :
  replay_run st (l ++ k) = (let? st' := replay_run st l in replay_run st' k).
Proof.
  revert st. induction l as [|i l IH]; intros st; [done|]. cbn [replay_run app].
  destruct (replay_step st i); cbn [rbind]; [apply IH|done..].
Qed.

(** Rule induction on a run: [P] relates the items processed so far to the state. *)
Lemma replay_run_ind (stream : list ReplayItem) (P : list ReplayItem -> ReplayState -> Prop) :
  P [] replay_init ->
  (forall done item rest st st',
     stream = done ++ item :: rest -> P done st -> replay_step st item = Ok st' ->
     P (done ++ [item]) st') ->
  forall st, replay_run replay_init stream = Ok st -> P stream st.
Proof.
  intros H0 Hstep. assert (Hgen : forall rest done st st',
    stream = done ++ rest -> P done st -> replay_run st rest = Ok st' -> P stream st').
  { induction rest as [|i rest IH]; intros done st st' Hs HP Hr.
    - injection Hr as <-. by rewrite Hs, app_nil_r.
    - cbn in Hr. apply rbind_Ok in Hr as (st1 & H1 & Hr).
      apply (IH (done ++ [i]) st1); [by rewrite <- app_assoc| |done].
      by apply (Hstep _ _ rest st). }
  intros st Hr. by apply (Hgen stream [] replay_init).
Qed.

Lemma validate_replay_Ok records risks :
  validate_replay records risks = Ok tt <->
  check_records (match records with r :: _ => Some (scope (rec_ticket r)) | [] => None end) [] records = Ok tt
  /\ check_sequence 0 (replay_stream records risks) = Ok tt
  /\ exists st, replay_run replay_init (replay_stream records risks) = Ok st
                /\ pending_consumption st = None.
Proof.
  unfold validate_replay. split.
  - intros Hv. apply rbind_Ok in Hv as ([] & Hc & Hv). apply rbind_Ok in Hv as ([] & Hs & Hv).
    apply rbind_Ok in Hv as (st & Hr & Hv). split; [done|]. split; [done|]. exists st.
    split; [done|]. by destruct (pending_consumption st).
  - intros (-> & -> & st & -> & Hp). cbn. by rewrite Hp.
Qed.
End run.

(** ** What the first loops establish *)
Lemma check_records_Ok identity ids records :
  check_records identity ids records = Ok tt ->
  Forall (fun r => validate_static r = Ok tt) records
  /\ NoDup (record_id <$> records)
  /\ (forall r, r ∈ records -> record_id r ∉ bt_keys ids)
  /\ (forall s, identity = Some s -> Forall (fun r => scope (rec_ticket r) = s) records).
Proof.
  revert ids. induction records as [|r records IH]; intros ids.
  { intros _. split; [constructor|]. split; [constructor|]. split; [by intros ? ?%elem_of_nil|]. by constructor. }
  cbn [check_records]. intros Hc. apply rbind_Ok in Hc as ([] & Hv & Hc).
  destruct (match identity with Some s => _ | None => _ end) eqn:Hi; [done|].
  destruct (bt_contains (record_id r) ids) eqn:Hin; [done|].
  apply IH in Hc as (Hf & Hn & Hk & Hs).
  split; [by constructor|]. split; [|split].
  - rewrite fmap_cons, NoDup_cons. split; [|done]. rewrite list_elem_of_fmap.
    intros (r' & Heq & Hr'). apply (Hk r' Hr'), bt_keys_insert. by left.
  - intros r' [->|Hr']%elem_of_cons; [by rewrite <- bt_contains_true, Hin|].
    intros Hr. apply (Hk r' Hr'), bt_keys_insert. by right.
  - intros s ->. apply negb_false_iff, bool_decide_eq_true_1 in Hi. constructor; [done|by apply Hs].
Qed.

Lemma check_sequence_Ok index stream :
  check_sequence index stream = Ok tt ->
  item_seq <$> stream = (fun k => index + N.of_nat k) <$> seq 1 (length stream)
  /\ (stream <> [] -> index + N.of_nat (length stream) <= u64_max).
Proof.
  revert index. induction stream as [|i stream IH]; intros index; [done|].
  cbn [check_sequence]. intros Hc. apply rbind_Ok in Hc as (e & [-> Hb]%ok_or_Ok%checked_add_Some & Hc).
  destruct (item_seq i =? 0); [done|]. destruct (item_seq i =? index + 1) eqn:Hi; [|done].
  apply N.eqb_eq in Hi. apply IH in Hc as [Hs Hm]. split.
  - rewrite fmap_cons, Hi, Hs. cbn [length seq]. rewrite fmap_cons. f_equal.
    rewrite <- (fmap_S_seq 1). rewrite <- list_fmap_compose. apply list_fmap_ext. intros _ k _. cbn. lia.
  - intros _. cbn [length]. destruct stream; [cbn; lia|]. specialize (Hm ltac:(done)). lia.
Qed.

Lemma check_sequence_complete index stream :
  item_seq <$> stream = (fun k => index + N.of_nat k) <$> seq 1 (length stream) ->
  (stream <> [] -> index + N.of_nat (length stream) <= u64_max) ->
  check_sequence index stream = Ok tt.
Proof.
  revert index. induction stream as [|i stream IH]; intros index; [done|].
  cbn [length seq]. rewrite !fmap_cons. intros [= Hi Hs] Hm. specialize (Hm ltac:(done)). cbn in Hm.
  cbn [check_sequence]. unfold checked_add. rewrite (proj2 (N.leb_le _ _)) by lia. cbn [ok_or rbind].
  rewrite Hi. rewrite (proj2 (N.eqb_neq _ _)) by lia. change (N.of_nat 1) with 1. rewrite N.eqb_refl. cbn [negb].
  apply IH; [|intros _; lia]. rewrite Hs, <- (fmap_S_seq 1), <- list_fmap_compose.
  apply list_fmap_ext. intros _ k _. cbn. lia.
Qed.

(** ** The stream *)
Definition of_record (id : RecordId) (i : ReplayItem) : Prop :=
  match i with RDelivery r _ => record_id r = id | RRisk _ => False end.

#[export] Instance of_record_dec id i : Decision (of_record id i).
Proof. destruct i; simpl; apply _. Defined.

Definition replay_items (records : list SendRecord) (risks : list RiskEvent) : list ReplayItem :=
  concat (record_items <$> records) ++ (RRisk <$> risks).

Lemma replay_stream_perm records risks : replay_stream records risks ≡ₚ replay_items records risks.
Proof. apply sort_by_key_perm. Qed.

Lemma filter_record_items_eq r : filter (of_record (record_id r)) (record_items r) = record_items r.
Proof.
  unfold record_items. induction (rec_delivery_events r) as [|e l IH]; [done|].
  rewrite fmap_cons, filter_cons_True by done. by rewrite IH.
Qed.

Lemma filter_record_items_ne r id : record_id r <> id -> filter (of_record id) (record_items r) = [].
Proof.
  intros Hne. unfold record_items. induction (rec_delivery_events r) as [|e l IH]; [done|].
  by rewrite fmap_cons, filter_cons_False by done.
Qed.

Lemma filter_replay_items records risks r :
  NoDup (record_id <$> records) -> r ∈ records ->
  filter (of_record (record_id r)) (replay_items records risks) = record_items r.
Proof.
  intros Hn Hr. unfold replay_items. rewrite filter_app.
  replace (filter (of_record (record_id r)) (RRisk <$> risks)) with (@nil ReplayItem).
  2: { induction risks as [|x l IH]; [done|]. by rewrite fmap_cons, filter_cons_False by (by intros ?). }
  rewrite app_nil_r. induction records as [|r' records IH]; [by apply elem_of_nil in Hr|].
  rewrite fmap_cons in Hn. apply NoDup_cons in Hn as [Hnot Hn].
  rewrite fmap_cons. cbn [concat]. rewrite filter_app.
  apply elem_of_cons in Hr as [->|Hr].
  - rewrite filter_record_items_eq. replace (filter _ (concat _)) with (@nil ReplayItem); [by rewrite app_nil_r|].
    clear IH Hn. induction records as [|r2 records IH]; [done|].
    rewrite fmap_cons in *. apply not_elem_of_cons in Hnot as [Hne Hnot]. cbn [concat].
    rewrite filter_app, filter_record_items_ne by congruence. by rewrite <- IH.
  - rewrite filter_record_items_ne; [by apply IH|]. intros Heq. apply Hnot. rewrite Heq.
    by apply list_elem_of_fmap_2.
Qed.

Lemma elem_of_replay_items records risks i :
  i ∈ replay_items records risks ->
  match i with
  | RDelivery r e => r ∈ records /\ e ∈ rec_delivery_events r
  | RRisk e => e ∈ risks
  end.
Proof.
  unfold replay_items. rewrite elem_of_app. intros [Hi|(e & -> & He)%list_elem_of_fmap]; [|done].
  apply list_elem_of_In, in_concat in Hi as (l & Hl & Hi).
  apply list_elem_of_In, list_elem_of_fmap in Hl as (r & -> & Hr).
  apply list_elem_of_In in Hi. unfold record_items in Hi.
  by apply list_elem_of_fmap in Hi as (e & -> & He).
Qed.

Lemma elem_of_replay_stream records risks i :
  i ∈ replay_stream records risks ->
  match i with
  | RDelivery r e => r ∈ records /\ e ∈ rec_delivery_events r
  | RRisk e => e ∈ risks
  end.
Proof. intros Hi. apply elem_of_replay_items. by rewrite <- replay_stream_perm. Qed.

Lemma increasing_sorted prior l :
  increasing prior l -> StronglySorted N.lt l /\ Forall (fun s => prior < s) l.
Proof.
  revert prior. induction l as [|s l IH]; intros prior; [by repeat constructor|].
  intros [Hs [Hl Hf]%IH]. split; [by constructor|]. constructor; [done|].
  eapply Forall_impl; [exact Hf|]. intros x Hx. simpl in Hx. lia.
Qed.

Lemma sorted_lt_nodup l : StronglySorted N.lt l -> NoDup l.
Proof.
  induction 1 as [|x l Hl IH Hx]; constructor; [|done]. intros Hin.
  rewrite Forall_forall in Hx. specialize (Hx x Hin). lia.
Qed.

Lemma record_items_seqs r : item_seq <$> record_items r = de_journal_seq <$> rec_delivery_events r.
Proof. unfold record_items. by rewrite <- list_fmap_compose. Qed.

Lemma sorted_keys_le (l : list ReplayItem) :
  StronglySorted N.lt (item_seq <$> l) -> StronglySorted (key_le item_seq) l.
Proof.
  induction l as [|i l IH]; [constructor|]. rewrite fmap_cons. inversion_clear 1 as [|?? Hs Hf].
  constructor; [by apply IH|]. apply Forall_forall. intros j Hj. rewrite Forall_forall in Hf.
  specialize (Hf (item_seq j) (list_elem_of_fmap_2 _ _ _ Hj)). unfold key_le, cmp, N_ord. by rewrite Hf.
Qed.

Lemma StronglySorted_filter {A} (R : A -> A -> Prop) (P : A -> Prop) `{forall x, Decision (P x)} l :
  StronglySorted R l -> StronglySorted R (filter P l).
Proof.
  induction 1 as [|x l Hl IH Hx]; [constructor|]. rewrite filter_cons. destruct (decide (P x)); [|done].
  constructor; [done|]. apply Forall_forall. intros y [_ Hy]%list_elem_of_filter.
  rewrite Forall_forall in Hx. by apply Hx.
Qed.

(** The items of a record appear in the stream in the order of its events. *)
Lemma stream_of_record records risks r :
  NoDup (record_id <$> records) -> r ∈ records -> validate_static r = Ok tt ->
  filter (of_record (record_id r)) (replay_stream records risks) = record_items r.
Proof.
  intros Hn Hr (_ & _ & Hinc & _)%validate_static_Ok. apply increasing_sorted in Hinc as [Hs _].
  rewrite <- record_items_seqs in Hs.
  rewrite <- (sort_by_key_id item_seq (filter _ _))
    by (apply StronglySorted_filter, sort_by_key_sorted).
  rewrite <- (sort_by_key_id item_seq (record_items r)) by by apply sorted_keys_le.
  symmetry. apply sort_by_key_unique; [|by apply sorted_lt_nodup].
  rewrite <- (filter_replay_items records risks r Hn Hr) at 1.
  by rewrite (replay_stream_perm records risks).
Qed.

(** ** What the blocking map holds *)
Definition latest (id : RecordId) (done : list ReplayItem) : option (SendRecord * EvidenceTag) :=
  match last (filter (of_record id) done) with
  | Some (RDelivery r e) => Some (r, tag (de_evidence e))
  | _ => None
  end.

Definition still_blocking (o : option (SendRecord * EvidenceTag)) : option (SendRecord * EvidenceTag) :=
  match o with Some (r, t) => if tag_is_blocking t then Some (r, t) else None | None => None end.

Lemma latest_snoc_eq r e done : latest (record_id r) (done ++ [RDelivery r e]) = Some (r, tag (de_evidence e)).
Proof. unfold latest. by rewrite filter_app, filter_cons_True, filter_nil, last_snoc by done. Qed.

Lemma latest_snoc_ne id i done : ~ of_record id i -> latest id (done ++ [i]) = latest id done.
Proof. intros Hi. unfold latest. by rewrite filter_app, filter_cons_False, filter_nil, app_nil_r by done. Qed.

(** The invariant of the run. *)
Record replay_inv (done : list ReplayItem) (st : ReplayState) : Prop := {
  inv_wf : bt_wf (blocking st);
  inv_blocking : forall id, bt_get id (blocking st) = still_blocking (latest id done)
}.

Lemma replay_prepared_Ok `{Sha256} st record st' :
  replay_prepared st record = Ok st' ->
  st' = mkReplay (bt_insert (record_id record) (record, TagPrepared) (active st))
          (bt_insert (record_id record) (record, TagPrepared) (blocking st)) (grants st) (consumed st) None
  /\ bt_contains (record_id record) (active st) = false
  /\ match pending_consumption st with
     | Some (g, c) =>
         record_id record = c_new_record_id c
         /\ SendTicket_digest (rec_ticket record) = Ok (c_new_ticket_digest c)
         /\ validate_grant_state g record (blocking st) = Ok tt
     | None =>
         p_authorized_overlap (rec_prepare_provenance record) = []
         /\ forall entry, entry ∈ blocking st ->
              same_signing_scope (fst (snd entry)) record && tag_is_blocking (snd (snd entry)) = false
     end
  /\ exists report,
       evaluate_affordability (p_balances (rec_prepare_provenance record))
         (active_reservations record (blocking st))
         (p_authorized_overlap (rec_prepare_provenance record))
         (r_amount <$> rec_reservations record) = Ok report
       /\ is_affordable report = true.
Proof.
  unfold replay_prepared. destruct (bt_contains _ _) eqn:Ha; [done|]. intros Hr.
  apply rbind_Ok in Hr as (u & Hg & Hr). apply rbind_Ok in Hr as (rep & Hrep%map_err_Ok & Hr).
  destruct (is_affordable rep) eqn:Haff; [|done]. injection Hr as <-.
  split; [done|]. split; [done|]. split; [|by exists rep].
  destruct (pending_consumption st) as [[g c]|].
  - destruct (bool_decide (record_id record = _)) eqn:Hid; [|done]. apply bool_decide_eq_true_1 in Hid.
    cbn [negb] in Hg. apply rbind_Ok in Hg as (d & Hd%map_err_Ok & Hg).
    destruct (bool_decide (d = _)) eqn:Hdd; [|done]. apply bool_decide_eq_true_1 in Hdd as ->.
    cbn [negb] in Hg. destruct u. done.
  - destruct (bool_decide (_ = [])) eqn:Ho; [|done]. apply bool_decide_eq_true_1 in Ho. cbn [negb] in Hg.
    destruct (existsb _ _) eqn:Hx; [done|]. split; [done|]. intros entry He.
    apply not_true_iff_false. intros Ht. apply not_true_iff_false in Hx. apply Hx.
    apply existsb_exists. exists entry. split; [by apply list_elem_of_In|done].
Qed.

Lemma replay_evidence_Ok st record t st' :
  replay_evidence st record t = Ok st' ->
  blocking st' = (if tag_is_blocking t then bt_insert (record_id record) (record, t) (blocking st)
                  else bt_remove (record_id record) (blocking st))
  /\ grants st' = grants st /\ consumed st' = consumed st
  /\ pending_consumption st' = pending_consumption st.
Proof. unfold replay_evidence. intros Hr. apply rbind_Ok in Hr as (s & _ & [= <-]). done. Qed.

(** The maps and the pending pair after a turn of the loop. *)
Lemma replay_step_Ok `{Sha256} st item st' :
  replay_step st item = Ok st' ->
  match item with
  | RRisk event =>
      blocking st' = blocking st /\ pending_consumption st = None
      /\ match re_action event with
         | Granted g =>
             grants st' = bt_insert (g_one_use_nonce g) g (grants st) /\ consumed st' = consumed st
             /\ pending_consumption st' = None
             /\ bt_contains (g_one_use_nonce g) (grants st) = false
             /\ validate_grant_old_state g (blocking st) = Ok tt
         | Consumed c =>
             exists g, bt_get (c_one_use_nonce c) (grants st) = Some g /\ authorizes g c = true
             /\ bt_contains (c_one_use_nonce c) (consumed st) = false
             /\ grants st' = grants st /\ consumed st' = bt_insert (c_one_use_nonce c) tt (consumed st)
             /\ pending_consumption st' = Some (g, c)
         end
  | RDelivery record event =>
      grants st' = grants st /\ consumed st' = consumed st /\ pending_consumption st' = None
      /\ if is_prepared (de_evidence event) then replay_prepared st record = Ok st'
         else pending_consumption st = None
              /\ blocking st' =
                 (if tag_is_blocking (tag (de_evidence event))
                  then bt_insert (record_id record) (record, tag (de_evidence event)) (blocking st)
                  else bt_remove (record_id record) (blocking st))
  end.
Proof.
  unfold replay_step. destruct (bool_decide (pending_consumption st = None)) eqn:Hp.
  - apply bool_decide_eq_true_1 in Hp. cbn [negb andb]. destruct item as [record event|event].
    + destruct (is_prepared _) eqn:He.
      * intros Hr. destruct (replay_prepared_Ok _ _ _ Hr) as (Hst & _).
        do 3 (split; [by rewrite Hst|]). done.
      * intros (Hb & Hg & Hc & Hpe)%replay_evidence_Ok. rewrite Hpe. done.
    + destruct (re_action event) as [g|c].
      * destruct (g_warning_version g =? _); [|done]. intros Hr. apply rbind_Ok in Hr as ([] & Hv & Hr).
        destruct (bt_contains _ _); [done|]. by injection Hr as <-.
      * intros Hr. apply rbind_Ok in Hr as (g & Hg%ok_or_Ok & Hr).
        destruct (authorizes g c) eqn:Ha; [|done].
        destruct (bt_contains _ (consumed st)) eqn:Hc; [done|]. injection Hr as <-.
        split; [done|]. split; [done|]. by exists g.
  - destruct item as [record event|event]; cbn [is_prepared_item negb andb]; [|done].
    destruct (is_prepared (de_evidence event)) eqn:He; [|done]. cbn [negb andb]. intros Hr.
    destruct (replay_prepared_Ok _ _ _ Hr) as (Hst & _).
    do 3 (split; [by rewrite Hst|]). done.
Qed.

Lemma is_prepared_tag e : is_prepared e = true -> tag e = TagPrepared.
Proof. by destruct e. Qed.

Lemma still_blocking_insert st done r e :
  (forall id, bt_get id (blocking st) = still_blocking (latest id done)) ->
  tag_is_blocking (tag (de_evidence e)) = true ->
  forall id, bt_get id (bt_insert (record_id r) (r, tag (de_evidence e)) (blocking st))
             = still_blocking (latest id (done ++ [RDelivery r e])).
Proof.
  intros Hinv Hb id. destruct (decide (record_id r = id)) as [<-|Hne].
  - rewrite bt_get_insert_eq, latest_snoc_eq. cbn. by rewrite Hb.
  - by rewrite bt_get_insert_ne, latest_snoc_ne by done.
Qed.

Lemma replay_inv_step `{Sha256} done item st st' :
  replay_inv done st -> replay_step st item = Ok st' -> replay_inv (done ++ [item]) st'.
Proof.
  intros [Hwf Hinv] Hs%replay_step_Ok. destruct item as [r e|e].
  - destruct Hs as (_ & _ & _ & Hs). destruct (is_prepared (de_evidence e)) eqn:He.
    + destruct (replay_prepared_Ok _ _ _ Hs) as (-> & _). cbn [blocking].
      apply is_prepared_tag in He. rewrite <- He. split; cbn [blocking]; [by apply bt_insert_wf|].
      apply still_blocking_insert; [done|by rewrite He].
    + destruct Hs as [_ Hb]. split; rewrite Hb; destruct (tag_is_blocking _) eqn:Ht.
      * by apply bt_insert_wf.
      * by apply bt_remove_wf.
      * by apply still_blocking_insert.
      * intros id. destruct (decide (record_id r = id)) as [<-|Hne].
        -- rewrite bt_get_remove_eq, latest_snoc_eq by done. cbn. by rewrite Ht.
        -- by rewrite bt_get_remove_ne, latest_snoc_ne by done.
  - destruct Hs as (Hb & _). split; rewrite Hb; [done|]. intros id. by rewrite latest_snoc_ne by (simpl; tauto).
Qed.

Lemma replay_inv_init : replay_inv [] replay_init.
Proof. split; [constructor|done]. Qed.

(** ** Accepted journals *)
Lemma transition_from_blocking p e : valid_delivery_transition p e = true -> tag_is_blocking (tag p) = true.
Proof. by destruct p as [| | | | | |[]|], e. Qed.

Lemma transitions_ok_middle p l1 e' e l2 :
  transitions_ok p (l1 ++ e' :: e :: l2) -> valid_delivery_transition e' e = true.
Proof.
  revert p. induction l1 as [|x l1 IH]; intros p; cbn; [tauto|]. intros [_ Hl]. by apply IH in Hl.
Qed.

Section accepted.
Context `{Sha256} (records : list SendRecord) (risks : list RiskEvent).
Hypothesis Hv : validate_replay records risks = Ok tt.

Lemma accepted_records :
  Forall (fun r => validate_static r = Ok tt) records /\ NoDup (record_id <$> records)
  /\ (forall r1 r2, r1 ∈ records -> r2 ∈ records -> same_signing_scope r1 r2 = true).
Proof.
  apply validate_replay_Ok in Hv as (Hc & _).
  destruct (check_records_Ok _ _ _ Hc) as (Hf & Hn & _ & Hs). split; [done|]. split; [done|].
  intros r1 r2 H1 H2. destruct records as [|r l]; [by apply elem_of_nil in H1|].
  specialize (Hs _ eq_refl). rewrite Forall_forall in Hs.
  apply bool_decide_eq_true. by rewrite (Hs r1 H1), (Hs r2 H2).
Qed.

Lemma accepted_static r : r ∈ records -> validate_static r = Ok tt.
Proof. destruct accepted_records as [Hf _]. rewrite Forall_forall in Hf. apply Hf. Qed.

Lemma accepted_run : exists st,
  replay_run replay_init (replay_stream records risks) = Ok st /\ pending_consumption st = None.
Proof. apply validate_replay_Ok in Hv as (_ & _ & Hr). done. Qed.

(** A delivery item cuts its record's events where it cuts the stream. *)
Lemma item_position done r e rest :
  replay_stream records risks = done ++ RDelivery r e :: rest ->
  r ∈ records /\ exists evs1 evs2, rec_delivery_events r = evs1 ++ e :: evs2
    /\ filter (of_record (record_id r)) done = RDelivery r <$> evs1.
Proof.
  intros Hs. assert (Hin : RDelivery r e ∈ replay_stream records risks)
    by (rewrite Hs; apply elem_of_app; right; left).
  apply elem_of_replay_stream in Hin as [Hr _]. split; [done|].
  destruct accepted_records as (_ & Hn & _).
  pose proof (stream_of_record records risks r Hn Hr (accepted_static r Hr)) as Hf.
  rewrite Hs, filter_app, filter_cons_True in Hf by done. unfold record_items in Hf.
  symmetry in Hf. apply fmap_app_inv in Hf as (evs1 & evs2 & H1 & H2 & Hev).
  symmetry in H2. apply fmap_cons_inv in H2 as (e' & evs3 & [= ->] & _ & ->).
  by exists evs1, evs3.
Qed.

(** An event other than the first follows blocking evidence of its record. *)
Lemma prior_blocking done r e rest :
  replay_stream records risks = done ++ RDelivery r e :: rest ->
  is_prepared (de_evidence e) = false ->
  exists t, still_blocking (latest (record_id r) done) = Some (r, t).
Proof.
  intros Hs He. destruct (item_position _ _ _ _ Hs) as (Hr & evs1 & evs2 & Hev & Hf).
  destruct (proj1 (validate_static_Ok r) (accepted_static r Hr)) as ((a & k & Hl & _ & _) & _ & _ & _).
  pose proof (proj1 (validate_static_Ok r) (accepted_static r Hr)) as (Hlife & _).
  rewrite Hev in Hl, Hlife. destruct evs1 as [|p evs1 _] using rev_ind.
  - simpl in Hl. injection Hl as Hl _. by rewrite Hl in He.
  - unfold latest. rewrite Hf, fmap_last, last_snoc. exists (tag (de_evidence p)). cbn.
    rewrite (transition_from_blocking _ (de_evidence e)); [done|].
    rewrite <- app_assoc in Hlife. rewrite fmap_app in Hlife. cbn in Hlife.
    destruct evs1 as [|x evs1]; cbn in Hlife, Hl.
    + injection Hl as Hp _. rewrite Hp in *. apply after_prepared in Hlife. apply Hlife.
    + injection Hl as Hp _. rewrite Hp in *. apply after_prepared in Hlife.
      by apply transitions_ok_middle in Hlife.
Qed.

(** The state before an item of the accepted stream. *)
Lemma state_before done item rest :
  replay_stream records risks = done ++ item :: rest ->
  exists st st' st'', replay_run replay_init done = Ok st /\ replay_step st item = Ok st'
    /\ replay_run st' rest = Ok st'' /\ pending_consumption st'' = None /\ replay_inv done st.
Proof.
  intros Hs. destruct accepted_run as (st'' & Hr & Hp). rewrite Hs, replay_run_app in Hr.
  apply rbind_Ok in Hr as (st & Hd & Hr). cbn in Hr. apply rbind_Ok in Hr as (st' & Hi & Hr).
  exists st, st', st''. do 4 (split; [done|]).
  apply (replay_run_ind done replay_inv); [apply replay_inv_init| |done].
  intros d i r s s' _. apply replay_inv_step.
Qed.

(** At the end, the blocking map holds exactly the records whose last evidence blocks. *)
Lemma final_blocking st r :
  replay_run replay_init (replay_stream records risks) = Ok st -> r ∈ records ->
  bt_get (record_id r) (blocking st)
  = match last (rec_delivery_events r) with
    | Some e => if tag_is_blocking (tag (de_evidence e)) then Some (r, tag (de_evidence e)) else None
    | None => None
    end.
Proof.
  intros Hst Hr. assert (Hinv : replay_inv (replay_stream records risks) st).
  { apply (replay_run_ind (replay_stream records risks) replay_inv); [apply replay_inv_init| |done].
    intros d i rest s s' _. apply replay_inv_step. }
  rewrite (inv_blocking _ _ Hinv). destruct accepted_records as (_ & Hn & _). unfold latest.
  rewrite (stream_of_record records risks r Hn Hr (accepted_static r Hr)).
  unfold record_items. rewrite fmap_last. by destruct (last (rec_delivery_events r)).
Qed.
End accepted.
