(* ===== verification/Safety.v ===== *)
(** * What an accepted journal guarantees

    Consequences of [validate_replay] stated on the journal itself: its sequence
    numbers, when a send may be signed over unresolved ones, the single use of a grant,
    how many sends can be unresolved at once, and what their reservations leave. *)

From Stdlib Require Import NArith ZArith Lia Sorting.
From S2P Require Import Prelude Ord Bytes Text Ids Asset Amount Digest Affordability Send Risk Journal Replay.

(** ** Sequence numbers *)
Lemma sequence_lookup stream j i :
  check_sequence 0 stream = Ok tt -> stream !! j = Some i -> item_seq i = N.of_nat (S j).
Proof.
  intros [Hs _]%check_sequence_Ok Hj.
  assert (Hl : (item_seq <$> stream) !! j = Some (item_seq i)) by by rewrite list_lookup_fmap, Hj.
  rewrite Hs, list_lookup_fmap in Hl. destruct (seq 1 (length stream) !! j) as [k|] eqn:Hk; [|done].
  apply lookup_seq in Hk as [-> _]. cbn in Hl. injection Hl as Hl. lia.
Qed.

Lemma filter_all {A} (Q : A -> Prop) `{forall x, Decision (Q x)} (l : list A) :
  (forall x, x ∈ l -> Q x) -> filter Q l = l.
Proof.
  induction l as [|x l IH]; intros Hl; [done|]. rewrite filter_cons_True by (apply Hl; left).
  f_equal. apply IH. intros y Hy. apply Hl. by right.
Qed.

Lemma filter_none {A} (Q : A -> Prop) `{forall x, Decision (Q x)} (l : list A) :
  (forall x, x ∈ l -> ~ Q x) -> filter Q l = [].
Proof.
  induction l as [|x l IH]; intros Hl; [done|]. rewrite filter_cons_False by (apply Hl; left).
  apply IH. intros y Hy. apply Hl. by right.
Qed.

Lemma NoDup_fmap_filter {A B} (f : A -> B) (P : A -> Prop) `{forall x, Decision (P x)} (l : list A) :
  NoDup (f <$> l) -> NoDup (f <$> filter P l).
Proof.
  induction l as [|x l IH]; [done|]. rewrite fmap_cons, NoDup_cons, filter_cons. intros [Hx Hl].
  destruct (decide (P x)); [|by apply IH]. rewrite fmap_cons. apply NoDup_cons. split; [|by apply IH].
  intros (y & Hxy & Hy)%list_elem_of_fmap. apply list_elem_of_filter in Hy as [_ Hy].
  apply Hx. rewrite Hxy. by apply list_elem_of_fmap_2.
Qed.

Section positions.
Context (done rest : list ReplayItem) (item : ReplayItem).
Hypothesis Hseq : check_sequence 0 (done ++ item :: rest) = Ok tt.

Lemma item_seq_position : item_seq item = N.of_nat (S (length done)).
Proof. apply (sequence_lookup _ _ _ Hseq). by apply list_lookup_middle. Qed.

Lemma done_before i : i ∈ done -> item_seq i < item_seq item.
Proof.
  intros (j & Hj)%list_elem_of_lookup. rewrite item_seq_position.
  rewrite (sequence_lookup _ j i Hseq).
  - apply lookup_lt_Some in Hj. lia.
  - rewrite lookup_app_l; [done|]. by eapply lookup_lt_Some.
Qed.

Lemma rest_after i : i ∈ rest -> item_seq item < item_seq i.
Proof.
  intros (j & Hj)%list_elem_of_lookup. rewrite item_seq_position.
  rewrite (sequence_lookup _ (length done + S j) i Hseq); [lia|].
  rewrite lookup_app_r by lia. by replace (length done + S j - length done)%nat with (S j) by lia.
Qed.

(** The items before one are those with a smaller number. *)
Lemma done_filter (P : ReplayItem -> Prop) `{forall x, Decision (P x)} :
  filter P done = filter (fun i => item_seq i < item_seq item) (filter P (done ++ item :: rest)).
Proof.
  set (Q := fun i => item_seq i < item_seq item).
  rewrite !filter_app, (filter_all Q (filter P done)), (filter_none Q (filter P (item :: rest))), app_nil_r;
    [done|unfold Q..].
  - intros i [_ [->|Hi]%elem_of_cons]%list_elem_of_filter; [lia|]. apply rest_after in Hi. lia.
  - intros i [_ Hi]%list_elem_of_filter. by apply done_before.
Qed.
End positions.

(** The number a journal has reached. *)
Definition all_seqs (records : list SendRecord) (risks : list RiskEvent) : list N :=
  concat ((fun r => de_journal_seq <$> rec_delivery_events r) <$> records) ++ (re_journal_seq <$> risks).

Lemma replay_items_seqs records risks : item_seq <$> replay_items records risks = all_seqs records risks.
Proof.
  unfold replay_items, all_seqs. rewrite fmap_app, <- list_fmap_compose. f_equal.
  induction records as [|r records IH]; [done|]. rewrite !fmap_cons. cbn [concat].
  by rewrite fmap_app, IH, record_items_seqs.
Qed.

Lemma all_seqs_perm records risks :
  check_sequence 0 (replay_stream records risks) = Ok tt ->
  all_seqs records risks ≡ₚ N.of_nat <$> seq 1 (length (all_seqs records risks))
  /\ N.of_nat (length (all_seqs records risks)) <= u64_max.
Proof.
  intros [Hs Hm]%check_sequence_Ok.
  assert (Hl : length (replay_stream records risks) = length (all_seqs records risks)).
  { by rewrite (replay_stream_perm records risks), <- replay_items_seqs, length_fmap. }
  rewrite <- Hl. split.
  - rewrite <- replay_items_seqs, <- (replay_stream_perm records risks), Hs.
    apply Permutation_refl'. apply list_fmap_ext. intros _ k _. lia.
  - destruct (replay_stream records risks) eqn:E; [done|]. rewrite <- E in *.
    apply Hm. by rewrite E.
Qed.

(** The delivery events and the risk events of an accepted journal carry the
    sequence numbers 1 to n, each exactly once, where n is how many there are: no event
    can be dropped from the middle, repeated or renumbered. *)
Lemma journal_sequence_contiguous `{Sha256} (records : list SendRecord) (risks : list RiskEvent) :
  validate_replay records risks = Ok tt ->
  all_seqs records risks ≡ₚ N.of_nat <$> seq 1 (length (all_seqs records risks))
  /\ N.of_nat (length (all_seqs records risks)) <= u64_max.
Proof. intros (_ & Hs & _)%validate_replay_Ok. by apply all_seqs_perm. Qed.

Definition demo_open (rid : RecordId) (s : N) : SendRecord := demo_record rid [mkDeliveryEvent s Prepared].

Lemma journal_sequence_contiguous_witness :
  all_seqs [demo_open (pad32 []) 1] [] ≡ₚ N.of_nat <$> seq 1 1
  /\ N.of_nat (length (all_seqs [demo_open (pad32 []) 1] [])) <= u64_max.
Proof. apply (@journal_sequence_contiguous toy_sha256 [demo_open (pad32 []) 1] []). by vm_compute. Defined.

(** ** Grants and consumptions *)
Definition item_consumption (i : ReplayItem) : option RiskGrantConsumption :=
  match i with RRisk ev => risk_event_consumption ev | RDelivery _ _ => None end.

Definition nonces (items : list ReplayItem) : list RiskNonce :=
  c_one_use_nonce <$> omap item_consumption items.

Record risk_inv (done : list ReplayItem) (st : ReplayState) : Prop := {
  ri_grants : forall n g, bt_get n (grants st) = Some g ->
    exists ev, RRisk ev ∈ done /\ re_action ev = Granted g /\ g_one_use_nonce g = n;
  ri_nodup : NoDup (nonces done);
  ri_consumed : forall n, n ∈ nonces done -> bt_contains n (consumed st) = true;
  ri_pending : forall g c, pending_consumption st = Some (g, c) ->
    exists ev, last done = Some (RRisk ev) /\ re_action ev = Consumed c /\ authorizes g c = true
      /\ bt_get (c_one_use_nonce c) (grants st) = Some g
}.

Lemma nonces_snoc items i :
  nonces (items ++ [i]) = nonces items ++ (match item_consumption i with Some c => [c_one_use_nonce c] | None => [] end).
Proof.
  unfold nonces. rewrite omap_app, fmap_app. f_equal. cbn. by destruct (item_consumption i).
Qed.

Lemma risk_inv_init : risk_inv [] replay_init.
Proof. split; [done|constructor|by intros n ?%elem_of_nil|done]. Qed.

Lemma risk_inv_step `{Sha256} done item st st' :
  risk_inv done st -> replay_step st item = Ok st' -> risk_inv (done ++ [item]) st'.
Proof.
  intros [Hg Hn Hc Hp] Hs%replay_step_Ok.
  assert (Hkeep : forall g : RiskGrant, forall n, (exists ev, RRisk ev ∈ done /\ re_action ev = Granted g /\ g_one_use_nonce g = n) ->
    exists ev, RRisk ev ∈ done ++ [item] /\ re_action ev = Granted g /\ g_one_use_nonce g = n).
  { intros g n (ev & Hin & Hev). exists ev. split; [|done]. apply elem_of_app. by left. }
  destruct item as [r e|ev].
  - destruct Hs as (Eg & Ec & Ep & _). split; rewrite ?nonces_snoc, ?app_nil_r, ?Eg, ?Ec, ?Ep; try done.
    intros n g Hn'. by apply Hkeep, Hg.
  - destruct Hs as (_ & Hnone & Hs). destruct (re_action ev) as [g|c] eqn:Ha.
    + destruct Hs as (Eg & Ec & Ep & Hnew & _).
      assert (En : nonces (done ++ [RRisk ev]) = nonces done).
      { rewrite nonces_snoc. cbn. unfold risk_event_consumption. by rewrite Ha, app_nil_r. }
      split; rewrite ?En, ?Eg, ?Ec, ?Ep; try done.
      intros n g' Hget. destruct (decide (g_one_use_nonce g = n)) as [<-|Hne].
      * rewrite bt_get_insert_eq in Hget. injection Hget as <-. exists ev.
        split; [apply elem_of_app; right; left|done].
      * rewrite bt_get_insert_ne in Hget by done. by apply Hkeep, Hg.
    + destruct Hs as (g & Hget & Hauth & Hnew & Eg & Ec & Ep).
      assert (En : nonces (done ++ [RRisk ev]) = nonces done ++ [c_one_use_nonce c]).
      { rewrite nonces_snoc. cbn. unfold risk_event_consumption. by rewrite Ha. }
      split; rewrite ?En, ?Eg, ?Ec, ?Ep.
      * intros n g' Hn'. by apply Hkeep, Hg.
      * apply NoDup_app. split; [done|]. split; [|apply NoDup_singleton].
        intros n Hin ->%list_elem_of_singleton. apply Hc in Hin. by rewrite Hin in Hnew.
      * intros n. rewrite elem_of_app, list_elem_of_singleton, bt_contains_true, bt_keys_insert.
        rewrite <- bt_contains_true. intros [Hin| ->]; [right; by apply Hc|by left].
      * intros g' c' [= <- <-]. exists ev. rewrite last_snoc. done.
Qed.

Lemma risk_inv_run `{Sha256} l st : replay_run replay_init l = Ok st -> risk_inv l st.
Proof.
  apply replay_run_ind; [apply risk_inv_init|]. intros d i r s s' _. apply risk_inv_step.
Qed.

Lemma authorizes_spec g c :
  authorizes g c = true <-> g_one_use_nonce g = c_one_use_nonce c
    /\ g_new_record_id g = c_new_record_id c /\ g_new_ticket_digest g = c_new_ticket_digest c.
Proof. unfold authorizes. rewrite !andb_true_iff, !bool_decide_eq_true. tauto. Qed.

Section accepted.
Context `{Sha256} (records : list SendRecord) (risks : list RiskEvent).
Hypothesis Hv : validate_replay records risks = Ok tt.

Lemma accepted_sequence : check_sequence 0 (replay_stream records risks) = Ok tt.
Proof. apply validate_replay_Ok in Hv as (_ & Hs & _). done. Qed.

Lemma stream_split i :
  i ∈ replay_items records risks ->
  exists done rest, replay_stream records risks = done ++ i :: rest.
Proof. rewrite <- replay_stream_perm. apply list_elem_of_split. Qed.

Lemma risk_in_items ev : ev ∈ risks -> RRisk ev ∈ replay_items records risks.
Proof. intros He. unfold replay_items. apply elem_of_app. right. by apply list_elem_of_fmap_2. Qed.

Lemma delivery_in_items r e :
  r ∈ records -> e ∈ rec_delivery_events r -> RDelivery r e ∈ replay_items records risks.
Proof.
  intros Hr He. unfold replay_items. apply elem_of_app. left.
  apply list_elem_of_In, in_concat. exists (record_items r). split; apply list_elem_of_In.
  - by apply list_elem_of_fmap_2.
  - unfold record_items. by apply list_elem_of_fmap_2.
Qed.

(** The record of a [Prepared] item starts with it. *)
Lemma prepared_first r e done rest :
  replay_stream records risks = done ++ RDelivery r e :: rest -> is_prepared (de_evidence e) = true ->
  head (rec_delivery_events r) = Some e.
Proof.
  intros Hs He. destruct (item_position records risks Hv _ _ _ _ Hs) as (Hr & evs1 & evs2 & Hev & _).
  destruct (proj1 (validate_static_Ok r) (accepted_static records risks Hv r Hr)) as (Hlife & _).
  rewrite Hev in *. destruct evs1 as [|x evs1]; [done|]. exfalso. cbn in Hlife.
  destruct Hlife as (a & k & [= Hx Hl] & Ha & Hc). rewrite fmap_app in Hl. cbn in Hl.
  assert (Hok : transitions_ok Prepared ((de_evidence <$> evs1) ++ de_evidence e :: (de_evidence <$> evs2))).
  { apply after_prepared. exists a, k. by rewrite Hl. }
  apply transitions_no_prepared in Hok. rewrite existsb_app in Hok. cbn in Hok. rewrite He in Hok.
  by rewrite orb_true_r in Hok.
Qed.

(** A consumption at work: what follows it, and the grant before it. *)
Lemma consumption_at_work ev c :
  ev ∈ risks -> re_action ev = Consumed c ->
  (exists r e, r ∈ records /\ head (rec_delivery_events r) = Some e
     /\ de_journal_seq e = re_journal_seq ev + 1
     /\ record_id r = c_new_record_id c
     /\ SendTicket_digest (rec_ticket r) = Ok (c_new_ticket_digest c))
  /\ (exists gev g, gev ∈ risks /\ re_action gev = Granted g /\ authorizes g c = true
        /\ re_journal_seq gev < re_journal_seq ev).
Proof.
  intros He Ha. destruct (stream_split _ (risk_in_items _ He)) as (done & rest & Hs).
  pose proof accepted_sequence as Hseq. rewrite Hs in Hseq.
  destruct (state_before records risks Hv _ _ _ Hs) as (st & st' & st'' & Hrun & Hstep & Hrest & Hp & _).
  pose proof (risk_inv_run _ _ Hrun) as Hinv. apply replay_step_Ok in Hstep as (_ & _ & Hstep).
  rewrite Ha in Hstep. destruct Hstep as (g & Hget & Hauth & _ & _ & _ & Hpend). split.
  - destruct rest as [|i rest]; [injection Hrest as <-; congruence|].
    assert (Hs2 : replay_stream records risks = (done ++ [RRisk ev]) ++ i :: rest)
      by (by rewrite Hs, <- app_assoc).
    cbn in Hrest. apply rbind_Ok in Hrest as (st3 & Hi & _).
    pose proof Hi as Hi2. apply replay_step_Ok in Hi. destruct i as [r e|ev2]; [|destruct Hi as (_ & Hn & _); congruence].
    destruct Hi as (_ & _ & _ & Hi). destruct (is_prepared (de_evidence e)) eqn:Hpe; [|destruct Hi; congruence].
    destruct (replay_prepared_Ok _ _ _ Hi) as (_ & _ & Hg & _). rewrite Hpend in Hg.
    destruct Hg as (Hid & Hdig & _). exists r, e.
    split; [by apply (item_position records risks Hv _ _ _ _ Hs2)|].
    split; [by apply (prepared_first r e _ _ Hs2)|]. split; [|done].
    assert (Hseq2 : check_sequence 0 ((done ++ [RRisk ev]) ++ RDelivery r e :: rest) = Ok tt)
      by (rewrite <- app_assoc; exact Hseq).
    pose proof (item_seq_position _ _ _ Hseq) as H1. pose proof (item_seq_position _ _ _ Hseq2) as H2.
    cbn [item_seq] in H1, H2. rewrite length_app in H2. cbn in H2. lia.
  - destruct (ri_grants _ _ Hinv _ _ Hget) as (gev & Hin & Hga & _).
    exists gev, g. pose proof (done_before _ _ _ Hseq _ Hin) as Hlt. cbn [item_seq] in Hlt.
    split; [|done]. assert (Hin2 : RRisk gev ∈ replay_stream records risks) by (rewrite Hs; apply elem_of_app; by left).
    by apply elem_of_replay_stream in Hin2.
Qed.
End accepted.

Lemma omap_items_consumption records risks :
  omap item_consumption (replay_items records risks) = omap risk_event_consumption risks.
Proof.
  unfold replay_items. rewrite omap_app.
  replace (omap item_consumption (concat (record_items <$> records))) with (@nil RiskGrantConsumption).
  - induction risks as [|ev l IH]; [done|]. cbn in *. destruct (risk_event_consumption ev); [by f_equal|done].
  - induction records as [|r l IH]; [done|]. rewrite fmap_cons. cbn [concat]. rewrite omap_app, <- IH, app_nil_r.
    unfold record_items. induction (rec_delivery_events r) as [|e k IHk]; [done|]. cbn in *. done.
Qed.

(** The nonces a journal has consumed. *)
Definition consumed_nonces (risks : list RiskEvent) : list RiskNonce :=
  c_one_use_nonce <$> omap risk_event_consumption risks.

(** C34: a grant authorises one send. In an accepted journal no nonce is consumed twice,
    and every consumption has an earlier grant with its nonce, record id and ticket
    digest and is immediately followed by the [Prepared] event of the record it names,
    whose ticket has that digest. *)
Theorem risk_grant_single_use `{Sha256} (records : list SendRecord) (risks : list RiskEvent) :
  validate_replay records risks = Ok tt ->
  NoDup (consumed_nonces risks)
  /\ forall ev c, ev ∈ risks -> re_action ev = Consumed c ->
     (exists r e, r ∈ records /\ head (rec_delivery_events r) = Some e
        /\ de_journal_seq e = re_journal_seq ev + 1
        /\ record_id r = c_new_record_id c
        /\ SendTicket_digest (rec_ticket r) = Ok (c_new_ticket_digest c))
     /\ (exists gev g, gev ∈ risks /\ re_action gev = Granted g /\ authorizes g c = true
           /\ re_journal_seq gev < re_journal_seq ev).
Proof.
  intros Hv. split; [|intros ev c; by apply consumption_at_work].
  destruct (accepted_run records risks Hv) as (st & Hr & _).
  pose proof (ri_nodup _ _ (risk_inv_run _ _ Hr)) as Hn. unfold nonces in Hn.
  unfold consumed_nonces. by rewrite (replay_stream_perm records risks), omap_items_consumption in Hn.
Qed.

(** A journal in which a second send is signed over a first, unresolved one. *)
Definition ok_digest {E} (r : res E bytes32) : bytes32 := match r with Ok d => d | _ => pad32 [] end.

Definition id_a : RecordId := pad32 [Byte.x0a].
Definition id_b : RecordId := pad32 [Byte.x0b].
Definition demo_nonce : RiskNonce := pad32 [Byte.x77].

Definition demo_digest : Digest32 :=
  Eval vm_compute in ok_digest (@SendTicket_digest toy_sha256 (demo_ticket id_b)).

Definition demo_grant : RiskGrant :=
  {| g_old_blocker_set_digest := ok_digest (@blocker_set_digest toy_sha256
       [mkBlockerRow id_a TagPrepared (rec_ext_msg_hash (demo_open id_a 1))]);
     g_old_reservation_set_digest := ok_digest (@reservation_set_digest toy_sha256
       (rec_reservations (demo_open id_a 1)));
     g_new_ticket_digest := demo_digest; g_new_record_id := id_b; g_one_use_nonce := demo_nonce;
     g_warning_version := 1;
     g_overlap_reservation_set_digest := ok_digest (@overlap_set_digest toy_sha256 []) |}.

Definition demo_consumption : RiskGrantConsumption :=
  {| c_one_use_nonce := demo_nonce; c_new_record_id := id_b; c_new_ticket_digest := demo_digest |}.

Definition demo_records : list SendRecord := [demo_open id_a 1; demo_open id_b 4].
Definition demo_risks : list RiskEvent :=
  [mkRiskEvent 2 (Granted demo_grant); mkRiskEvent 3 (Consumed demo_consumption)].

Lemma risk_grant_single_use_witness :
  exists gev g, gev ∈ demo_risks /\ re_action gev = Granted g /\ authorizes g demo_consumption = true
    /\ re_journal_seq gev < 3.
Proof.
  apply (proj2 (@risk_grant_single_use toy_sha256 demo_records demo_risks ltac:(by vm_compute))
           (mkRiskEvent 3 (Consumed demo_consumption)) demo_consumption); [right; left|done].
Defined.

(** ** Sends over unresolved ones *)

(** The last evidence a record had before a sequence number. *)
Definition evidence_before (r : SendRecord) (s : N) : option DeliveryEvidence :=
  de_evidence <$> last (filter (fun e => de_journal_seq e < s) (rec_delivery_events r)).

Definition blocking_before (s : N) (r : SendRecord) : bool :=
  match evidence_before r s with Some e => tag_is_blocking (tag e) | None => false end.

Section before.
Context `{Sha256} (records : list SendRecord) (risks : list RiskEvent).
Hypothesis Hv : validate_replay records risks = Ok tt.

Lemma filter_record_items_seq r s :
  filter (fun i => item_seq i < s) (record_items r)
  = RDelivery r <$> filter (fun e => de_journal_seq e < s) (rec_delivery_events r).
Proof.
  unfold record_items. induction (rec_delivery_events r) as [|e l IH]; [done|].
  rewrite fmap_cons, !filter_cons. cbn [item_seq].
  destruct (decide (de_journal_seq e < s)); [|done]. by rewrite fmap_cons, IH.
Qed.

Lemma latest_before done item rest r :
  replay_stream records risks = done ++ item :: rest -> r ∈ records ->
  latest (record_id r) done = (fun e => (r, tag e)) <$> evidence_before r (item_seq item).
Proof.
  intros Hs Hr. pose proof (accepted_sequence records risks Hv) as Hseq. rewrite Hs in Hseq.
  destruct (accepted_records records risks Hv) as (_ & Hn & _). unfold latest, evidence_before.
  rewrite (done_filter _ _ _ Hseq), <- Hs,
    (stream_of_record records risks r Hn Hr (accepted_static records risks Hv r Hr)),
    filter_record_items_seq, fmap_last.
  by destruct (last (filter (fun e => de_journal_seq e < item_seq item) (rec_delivery_events r))).
Qed.

Lemma latest_in_records done item rest id r t :
  replay_stream records risks = done ++ item :: rest -> latest id done = Some (r, t) ->
  r ∈ records /\ record_id r = id.
Proof.
  intros Hs Hl. unfold latest in Hl. destruct (last (filter (of_record id) done)) as [[r' e|]|] eqn:E; [|done..].
  injection Hl as -> _. apply last_Some_elem_of in E. apply list_elem_of_filter in E as [Hid Hin].
  split; [|done]. assert (Hin2 : RDelivery r e ∈ replay_stream records risks)
    by (rewrite Hs; apply elem_of_app; by left).
  by apply elem_of_replay_stream in Hin2 as [? _].
Qed.

(** The blocking map before an item. *)
Lemma blocking_before_map done item rest st id r t :
  replay_stream records risks = done ++ item :: rest -> replay_inv done st ->
  bt_get id (blocking st) = Some (r, t)
  <-> r ∈ records /\ record_id r = id /\ blocking_before (item_seq item) r = true
      /\ exists e, evidence_before r (item_seq item) = Some e /\ t = tag e.
Proof.
  intros Hs [_ Hb]. rewrite Hb. split.
  - intros Hst. destruct (latest id done) as [[r' t']|] eqn:Hl; [|done]. cbn in Hst.
    destruct (tag_is_blocking t') eqn:Ht; [|done]. injection Hst as -> ->.
    destruct (latest_in_records _ _ _ _ _ _ Hs Hl) as [Hr <-].
    rewrite (latest_before _ _ _ _ Hs Hr) in Hl. unfold blocking_before.
    destruct (evidence_before r (item_seq item)) as [e|]; [|done]. injection Hl as <-.
    split; [done|]. split; [done|]. split; [done|]. by exists e.
  - intros (Hr & <- & Hbl & e & He & ->). rewrite (latest_before _ _ _ _ Hs Hr), He. cbn.
    unfold blocking_before in Hbl. rewrite He in Hbl. by rewrite Hbl.
Qed.

(** The state in which a record is prepared. *)
Lemma prepared_state r e :
  r ∈ records -> head (rec_delivery_events r) = Some e ->
  exists done rest st st', replay_stream records risks = done ++ RDelivery r e :: rest
    /\ replay_run replay_init done = Ok st /\ replay_prepared st r = Ok st' /\ replay_inv done st.
Proof.
  intros Hr He. assert (Hin : e ∈ rec_delivery_events r)
    by (destruct (rec_delivery_events r); [done|injection He as ->; left]).
  destruct (stream_split records risks _ (delivery_in_items records risks _ _ Hr Hin)) as (done & rest & Hs).
  destruct (state_before records risks Hv _ _ _ Hs) as (st & st' & st'' & Hrun & Hstep & _ & _ & Hinv).
  exists done, rest, st, st'. do 2 (split; [done|]). split; [|done].
  apply replay_step_Ok in Hstep as (_ & _ & _ & Hstep).
  destruct (proj1 (validate_static_Ok r) (accepted_static records risks Hv r Hr)) as ((a & k & Hl & _) & _).
  destruct (rec_delivery_events r) as [|x l]; [done|]. injection He as ->. injection Hl as Hp _.
  by rewrite Hp in Hstep.
Qed.
End before.

(** C33: no send is signed while another is unresolved, unless the user granted that very
    send: if a record is prepared at a moment when another record's evidence still
    blocks, the event just before is the consumption of a grant made earlier for this
    record and this ticket. *)
Theorem overlapping_send_needs_grant `{Sha256} (records : list SendRecord) (risks : list RiskEvent)
    (r1 r2 : SendRecord) (e : DeliveryEvent) :
  validate_replay records risks = Ok tt ->
  r1 ∈ records -> r2 ∈ records -> head (rec_delivery_events r2) = Some e ->
  blocking_before (de_journal_seq e) r1 = true ->
  exists ev c gev g,
    ev ∈ risks /\ re_action ev = Consumed c /\ re_journal_seq ev + 1 = de_journal_seq e
    /\ c_new_record_id c = record_id r2
    /\ SendTicket_digest (rec_ticket r2) = Ok (c_new_ticket_digest c)
    /\ gev ∈ risks /\ re_action gev = Granted g /\ authorizes g c = true
    /\ re_journal_seq gev < re_journal_seq ev.
Proof.
  intros Hv H1 H2 He Hb.
  destruct (prepared_state records risks Hv _ _ H2 He) as (done & rest & st & st' & Hs & Hrun & Hprep & Hinv).
  destruct (replay_prepared_Ok _ _ _ Hprep) as (_ & _ & Hg & _).
  destruct (pending_consumption st) as [[g c]|] eqn:Hp.
  - destruct (ri_pending _ _ (risk_inv_run _ _ Hrun) _ _ Hp) as (ev & Hlast & Hact & Hauth & _).
    apply last_Some in Hlast as (done' & ->). rewrite <- app_assoc in Hs.
    assert (Hin : RRisk ev ∈ replay_stream records risks) by (rewrite Hs; apply elem_of_app; right; left).
    apply elem_of_replay_stream in Hin.
    destruct (consumption_at_work records risks Hv ev c Hin Hact) as (_ & gev & g' & Hgin & Hga & Hgauth & Hlt).
    exists ev, c, gev, g'. destruct Hg as (Hid & Hdig & _).
    split; [done|]. split; [done|]. split; [|done].
    pose proof (accepted_sequence records risks Hv) as Hseq. rewrite Hs in Hseq.
    pose proof (item_seq_position _ _ _ Hseq) as P1.
    change (done' ++ [RRisk ev] ++ RDelivery r2 e :: rest) with (done' ++ [RRisk ev] ++ (RDelivery r2 e :: rest)) in Hseq.
    rewrite app_assoc in Hseq. pose proof (item_seq_position _ _ _ Hseq) as P2.
    rewrite length_app in P2. cbn in P1, P2. lia.
  - destruct Hg as [_ Hfree]. exfalso.
    destruct (evidence_before r1 (de_journal_seq e)) as [e1|] eqn:He1;
      [|unfold blocking_before in Hb; by rewrite He1 in Hb].
    assert (Hget : bt_get (record_id r1) (blocking st) = Some (r1, tag e1)).
    { apply (blocking_before_map records risks Hv _ _ _ _ _ _ _ Hs Hinv). cbn [item_seq]. split; [done|].
      split; [done|]. split; [done|]. by exists e1. }
    apply bt_get_In in Hget. specialize (Hfree _ Hget). cbn in Hfree.
    destruct (accepted_records records risks Hv) as (_ & _ & Hsc). rewrite (Hsc r1 r2 H1 H2) in Hfree.
    unfold blocking_before in Hb. rewrite He1 in Hb. by rewrite Hb in Hfree.
Qed.

Lemma overlapping_send_needs_grant_witness :
  exists ev c gev g,
    ev ∈ demo_risks /\ re_action ev = Consumed c /\ re_journal_seq ev + 1 = 4
    /\ c_new_record_id c = id_b
    /\ @SendTicket_digest toy_sha256 (demo_ticket id_b) = Ok (c_new_ticket_digest c)
    /\ gev ∈ demo_risks /\ re_action gev = Granted g /\ authorizes g c = true
    /\ re_journal_seq gev < re_journal_seq ev.
Proof.
  apply (@overlapping_send_needs_grant toy_sha256 demo_records demo_risks
           (demo_open id_a 1) (demo_open id_b 4) (mkDeliveryEvent 4 Prepared));
    [by vm_compute|left|right; left|done|by vm_compute].
Defined.

(** ** What stays reserved *)
Definition wf_journal_record (r : SendRecord) : Prop :=
  Forall in_domain (p_balances (rec_prepare_provenance r))
  /\ Forall in_domain (r_amount <$> rec_reservations r).

(** The reservations of the records unresolved before a sequence number. *)
Definition reserved_before (s : N) (records : list SendRecord) : list Reservation :=
  concat (rec_reservations <$> filter (fun r => blocking_before s r = true) records).

#[export] Instance units_for_perm asset : Proper ((≡ₚ) ==> eq) (units_for asset).
Proof.
  intros l k. induction 1 as [|x l k _ IH|x y l|l k m _ IH1 _ IH2]; cbn; [done|by f_equal| |congruence].
  rewrite !N.add_assoc. f_equal. apply N.add_comm.
Qed.

#[export] Instance outstanding_perm overlap : Proper ((≡ₚ) ==> (≡ₚ)) (outstanding overlap).
Proof. intros l k Hp. unfold outstanding. by rewrite Hp. Qed.

Lemma concat_fmap_perm {A B} (f : A -> list B) l k : l ≡ₚ k -> concat (f <$> l) ≡ₚ concat (f <$> k).
Proof.
  induction 1 as [|x l k _ IH|x y l|l k m _ IH1 _ IH2]; cbn; [done|by rewrite IH| |by rewrite IH1].
  rewrite !(assoc_L (++)). apply Permutation_app_tail, Permutation_app_comm.
Qed.

Section reserved.
Context `{Sha256} (records : list SendRecord) (risks : list RiskEvent).
Hypothesis Hv : validate_replay records risks = Ok tt.

Lemma records_nodup : NoDup records.
Proof. destruct (accepted_records records risks Hv) as (_ & Hn & _). by apply NoDup_fmap_1 in Hn. Qed.

(** The records of the blocking map are those the journal says are unresolved. *)
Lemma blocking_entries done item rest st :
  replay_stream records risks = done ++ item :: rest -> replay_inv done st ->
  (fun entry => fst (snd entry)) <$> blocking st
  ≡ₚ filter (fun r => blocking_before (item_seq item) r = true) records.
Proof.
  intros Hs Hinv. pose proof (inv_wf _ _ Hinv) as Hwf.
  assert (Hmap : forall id r t, bt_get id (blocking st) = Some (r, t) <->
    r ∈ records /\ record_id r = id /\ blocking_before (item_seq item) r = true
    /\ exists e, evidence_before r (item_seq item) = Some e /\ t = tag e)
    by (intros; by apply (blocking_before_map records risks Hv done item rest)).
  assert (Hent : forall entry, entry ∈ blocking st ->
    record_id (fst (snd entry)) = fst entry /\ fst (snd entry) ∈ records
    /\ blocking_before (item_seq item) (fst (snd entry)) = true).
  { intros [id [r t]] Hin. apply bt_In_get, Hmap in Hin; [|done]. cbn. naive_solver. }
  apply NoDup_Permutation.
  - apply (NoDup_fmap_1 record_id). rewrite <- list_fmap_compose.
    replace ((record_id ∘ (fun entry => fst (snd entry))) <$> blocking st) with (bt_keys (blocking st));
      [by apply bt_wf_nodup|]. unfold bt_keys. clear -Hent. induction (blocking st) as [|x l IH]; [done|].
    rewrite !fmap_cons. f_equal; [symmetry; apply Hent; left|].
    apply IH. intros y Hy. apply Hent. by right.
  - apply NoDup_filter, records_nodup.
  - intros r. rewrite list_elem_of_filter, list_elem_of_fmap. split.
    + intros (entry & -> & Hin). by apply Hent in Hin as (_ & ? & ?).
    + intros [Hb Hr]. destruct (evidence_before r (item_seq item)) as [e|] eqn:He.
      * exists (record_id r, (r, tag e)). split; [done|]. apply bt_get_In, Hmap.
        split; [done|]. split; [done|]. split; [done|]. by exists e.
      * unfold blocking_before in Hb. by rewrite He in Hb.
Qed.

Lemma active_reservations_eq done item rest st r :
  replay_stream records risks = done ++ item :: rest -> replay_inv done st -> r ∈ records ->
  active_reservations r (blocking st) ≡ₚ reserved_before (item_seq item) records.
Proof.
  intros Hs Hinv Hr. unfold active_reservations, reserved_before.
  rewrite <- (concat_fmap_perm _ _ _ (blocking_entries _ _ _ _ Hs Hinv)), <- list_fmap_compose.
  replace (filter _ (blocking st)) with (blocking st); [done|]. symmetry. apply filter_all.
  intros [id [r' t]] Hin. cbn. apply bt_In_get in Hin; [|by apply inv_wf in Hinv].
  pose proof Hin as Hin2. rewrite (inv_blocking _ _ Hinv) in Hin2.
  apply (blocking_before_map records risks Hv _ _ _ _ _ _ _ Hs Hinv) in Hin as (Hr' & _ & Hb & e & He & ->).
  destruct (accepted_records records risks Hv) as (_ & _ & Hsc).
  rewrite (Hsc r' r Hr' Hr). unfold blocking_before in Hb. rewrite He in Hb. by rewrite Hb.
Qed.
End reserved.

(** C35: every send an accepted journal prepared was covered when it was prepared: for
    each asset, its own reservations together with those of every send then unresolved,
    less the rows it was authorised to replace, fit the fresh balance it recorded. *)
Theorem prepared_send_is_covered `{Sha256} (records : list SendRecord) (risks : list RiskEvent)
    (r : SendRecord) (e : DeliveryEvent) (asset : AssetId) :
  Forall wf_journal_record records ->
  validate_replay records risks = Ok tt ->
  r ∈ records -> head (rec_delivery_events r) = Some e ->
  units_for asset (r_amount <$> rec_reservations r)
  + units_for asset (outstanding (p_authorized_overlap (rec_prepare_provenance r))
                       (reserved_before (de_journal_seq e) records))
  <= units_for asset (p_balances (rec_prepare_provenance r)).
Proof.
  intros Hwf Hv Hr He.
  destruct (prepared_state records risks Hv _ _ Hr He) as (done & rest & st & st' & Hs & _ & Hprep & Hinv).
  destruct (replay_prepared_Ok _ _ _ Hprep) as (_ & _ & _ & report & Hrep & Haff).
  pose proof (active_reservations_eq records risks Hv _ _ _ _ r Hs Hinv Hr) as Hact.
  rewrite Forall_forall in Hwf. pose proof (Hwf r Hr) as [Hb Hq].
  assert (Hdom : Forall in_domain (r_amount <$> active_reservations r (blocking st))).
  { rewrite Hact. apply Forall_forall. intros a (row & -> & Hrow)%list_elem_of_fmap.
    unfold reserved_before in Hrow. apply list_elem_of_In, in_concat in Hrow as (l & Hl & Hin).
    apply list_elem_of_In, list_elem_of_fmap in Hl as (r' & -> & Hr').
    apply list_elem_of_filter in Hr' as [_ Hr']. destruct (Hwf r' Hr') as [_ Hd].
    rewrite Forall_forall in Hd. apply Hd, list_elem_of_fmap_2. by apply list_elem_of_In. }
  rewrite <- Hact. apply (affordable_all_assets _ _ _ _ _ Hb Hq Hdom Hrep). done.
Qed.

Lemma prepared_send_is_covered_witness :
  units_for Native (r_amount <$> rec_reservations (demo_open id_b 4))
  + units_for Native (outstanding [] (reserved_before 4 demo_records))
  <= units_for Native [NativeAmount 9000000000].
Proof.
  apply (@prepared_send_is_covered toy_sha256 demo_records demo_risks (demo_open id_b 4)
           (mkDeliveryEvent 4 Prepared) Native); [|by vm_compute|right; left|done].
  repeat constructor; by vm_compute.
Defined.

(** ** How many sends can be unresolved *)
Definition blocks (r : SendRecord) : bool :=
  match @is_blocking Empty_set r with Ok b => b | _ => false end.

Definition slack (st : ReplayState) : nat := match pending_consumption st with Some _ => 0 | None => 1 end.

Section count.
Context `{Sha256} (records : list SendRecord) (risks : list RiskEvent).
Hypothesis Hv : validate_replay records risks = Ok tt.

(** A send prepared without a grant finds nothing unresolved. *)
Lemma ordinary_send_alone done r e rest st :
  replay_stream records risks = done ++ RDelivery r e :: rest -> replay_inv done st ->
  (forall entry, entry ∈ blocking st ->
     same_signing_scope (fst (snd entry)) r && tag_is_blocking (snd (snd entry)) = false) ->
  blocking st = [].
Proof.
  intros Hs Hinv Hfree. destruct (blocking st) as [|[id [r' t]] l] eqn:Hb; [done|]. exfalso.
  assert (Hin : (id, (r', t)) ∈ blocking st) by (rewrite Hb; left).
  specialize (Hfree (id, (r', t)) ltac:(left)). cbn in Hfree.
  apply bt_In_get in Hin; [|apply (inv_wf _ _ Hinv)].
  apply (blocking_before_map records risks Hv _ _ _ _ _ _ _ Hs Hinv) in Hin as (Hr' & _ & Hbl & e' & He' & ->).
  destruct (accepted_records records risks Hv) as (_ & _ & Hsc).
  destruct (item_position records risks Hv _ _ _ _ Hs) as [Hr _].
  rewrite (Hsc r' r Hr' Hr) in Hfree. unfold blocking_before in Hbl. rewrite He' in Hbl. by rewrite Hbl in Hfree.
Qed.

Lemma count_step done item rest st st' :
  replay_stream records risks = done ++ item :: rest -> replay_inv done st ->
  replay_step st item = Ok st' ->
  (length (blocking st) <= length (omap item_consumption done) + slack st)%nat ->
  (length (blocking st') <= length (omap item_consumption (done ++ [item])) + slack st')%nat.
Proof.
  intros Hs Hinv Hstep Hle. rewrite omap_app, length_app. unfold slack in *.
  pose proof Hstep as Hcase. apply replay_step_Ok in Hcase. destruct item as [r e|ev].
  - destruct Hcase as (_ & _ & -> & Hcase). destruct (is_prepared (de_evidence e)) eqn:He.
    + destruct (replay_prepared_Ok _ _ _ Hcase) as (-> & _ & Hg & _). cbn [blocking].
      destruct (pending_consumption st) as [[g c]|].
      * etrans; [apply length_bt_insert_le|]. cbn. lia.
      * destruct Hg as [_ Hfree]. rewrite (ordinary_send_alone _ _ _ _ _ Hs Hinv Hfree). cbn. lia.
    + destruct Hcase as [Hp ->]. rewrite Hp in Hle. destruct (tag_is_blocking _) eqn:Ht.
      * rewrite length_bt_insert_old; [cbn; lia|apply (inv_wf _ _ Hinv)|].
        destruct (prior_blocking records risks Hv _ _ _ _ Hs He) as (t & Hst).
        rewrite <- (inv_blocking _ _ Hinv) in Hst. rewrite <- bt_contains_true. unfold bt_contains. by rewrite Hst.
      * etrans; [apply length_bt_remove_le|]. cbn. lia.
  - destruct Hcase as (-> & Hp & Hcase). rewrite Hp in Hle. destruct (re_action ev) as [g|c] eqn:Ha.
    + destruct Hcase as (_ & _ & -> & _). lia.
    + destruct Hcase as (g & _ & _ & _ & _ & _ & ->).
      cbn. unfold risk_event_consumption. rewrite Ha. cbn. lia.
Qed.

Lemma count_run st :
  replay_run replay_init (replay_stream records risks) = Ok st ->
  (length (blocking st) <= length (omap item_consumption (replay_stream records risks)) + slack st)%nat.
Proof.
  intros Hr. apply (replay_run_ind (replay_stream records risks)
    (fun done st => replay_inv done st /\
       (length (blocking st) <= length (omap item_consumption done) + slack st)%nat)); [| |done].
  - split; [apply replay_inv_init|]. cbn. lia.
  - intros done item rest s s' Hs [Hinv Hle] Hstep. split; [by eapply replay_inv_step|].
    by eapply count_step.
Qed.
End count.

(** At most one send is unresolved in a journal beyond those the user granted: the
    records whose last evidence still blocks number at most one more than the grants
    consumed; in particular a journal without risk events never holds two of them. *)
Lemma unresolved_sends_bounded `{Sha256} (records : list SendRecord) (risks : list RiskEvent) :
  validate_replay records risks = Ok tt ->
  (length (filter (fun r => blocks r = true) records)
   <= 1 + length (omap risk_event_consumption risks))%nat.
Proof.
  intros Hv. destruct (accepted_run records risks Hv) as (st & Hr & Hp).
  pose proof (count_run records risks Hv st Hr) as Hc. unfold slack in Hc. rewrite Hp in Hc.
  rewrite (replay_stream_perm records risks), omap_items_consumption in Hc.
  etrans; [|rewrite Nat.add_comm; exact Hc].
  rewrite <- (length_fmap record_id). rewrite <- (length_fmap fst (blocking st)).
  apply submseteq_length, NoDup_submseteq.
  - destruct (accepted_records records risks Hv) as (_ & Hn & _).
    by apply NoDup_fmap_filter.
  - intros id (r & -> & Hin)%list_elem_of_fmap. apply list_elem_of_filter in Hin as [Hb Hin].
    apply (bt_contains_true (record_id r) (blocking st)). unfold bt_contains.
    rewrite (final_blocking records risks Hv st r Hr Hin).
    unfold blocks, is_blocking, latest_evidence_tag, latest_evidence in Hb.
    destruct (last (rec_delivery_events r)) as [e|]; [|done]. cbn in Hb. by rewrite Hb.
Qed.

Lemma unresolved_sends_bounded_witness :
  (length (filter (fun r => blocks r = true) demo_records)
   <= 1 + length (omap risk_event_consumption demo_risks))%nat.
Proof. apply (@unresolved_sends_bounded toy_sha256). by vm_compute. Defined.

(** ** No panic *)
Lemma bind_no_panic {E A B} (m : res E A) (k : A -> res E B) :
  m <> Panic -> (forall a, m = Ok a -> k a <> Panic) -> rbind m k <> Panic.
Proof. destruct m; cbn; [|done..]. intros _ Hk. by apply Hk. Qed.

Lemma map_err_no_panic {E F A} (f : E -> F) (m : res E A) : m <> Panic -> map_err f m <> Panic.
Proof. by destruct m. Qed.

Create HintDb no_panic.
#[export] Hint Resolve bind_no_panic map_err_no_panic frame_no_panic digest_no_panic
  SendTicket_digest_no_panic validate_static_no_panic : no_panic.
#[export] Hint Extern 1 (ok_or ?o _ <> Panic) => (destruct o; discriminate) : no_panic.
#[export] Hint Extern 1 (Ok _ <> Panic) => discriminate : no_panic.
#[export] Hint Extern 1 (Err _ <> Panic) => discriminate : no_panic.

(** Follows a function's branches and calls. *)
Ltac no_panic :=
  repeat first
    [ progress intros
    | match goal with |- rbind _ _ <> Panic => apply bind_no_panic end
    | match goal with |- map_err _ _ <> Panic => apply map_err_no_panic end
    | match goal with |- jdigest _ <> Panic => apply map_err_no_panic end
    | match goal with |- (if ?c then _ else _) <> Panic => destruct c end
    | match goal with |- (match ?c with Some _ => _ | None => _ end) <> Panic => destruct c end
    | match goal with |- (let '(_, _) := ?p in _) <> Panic => destruct p end ];
  auto with no_panic.

Section no_panic.
Context `{Sha256}.

Lemma row_items_no_panic {R K} (key : R -> K) enc rows :
  (forall r, enc r <> Panic) -> row_items key enc rows <> Panic.
Proof. intros He. induction rows as [|r rows IH]; cbn [row_items]; no_panic. Qed.

Lemma try_fold_len_no_panic t l : try_fold_len t l <> Panic.
Proof. revert t. induction l as [|x l IH]; intros t; cbn [try_fold_len]; no_panic. Qed.

Lemma set_blob_no_panic {K} `{Ord K} (items : list (K * bytes)) : set_blob items <> Panic.
Proof.
  unfold set_blob, assemble_set_blob, checked_row_count, checked_set_blob_len, checked_field_len.
  cbv zeta. no_panic. apply try_fold_len_no_panic.
Qed.

Lemma prefix_row_length_no_panic b : prefix_row_length b <> Panic.
Proof. unfold prefix_row_length, checked_field_len. no_panic. Qed.

Lemma blocker_set_digest_no_panic rows : blocker_set_digest rows <> Panic.
Proof.
  unfold blocker_set_digest, blocker_set_blob, blocker_row_bytes. no_panic.
  - apply row_items_no_panic. no_panic. apply prefix_row_length_no_panic.
  - apply set_blob_no_panic.
Qed.

Lemma reservation_like_no_panic k rows : reservation_like_set_digest k rows <> Panic.
Proof.
  unfold reservation_like_set_digest, reservation_set_blob, reservation_row_bytes. no_panic.
  - apply row_items_no_panic. no_panic. apply prefix_row_length_no_panic.
  - apply set_blob_no_panic.
Qed.

Lemma collect_blockers_no_panic pick entries : collect_blockers pick entries <> Panic.
Proof.
  induction entries as [|[id [r t]] l IH]; cbn [collect_blockers]; [done|].
  unfold BlockerRow_new. no_panic.
Qed.

Lemma validate_grant_old_state_no_panic g entries : validate_grant_old_state g entries <> Panic.
Proof.
  unfold validate_grant_old_state, reservation_set_digest. no_panic;
    auto using collect_blockers_no_panic, blocker_set_digest_no_panic, reservation_like_no_panic.
Qed.

Lemma validate_grant_state_no_panic g r entries :
  wf_send_ticket (rec_ticket r) -> validate_grant_state g r entries <> Panic.
Proof.
  intros Hw. unfold validate_grant_state, reservation_set_digest, overlap_set_digest. cbv zeta. no_panic;
    auto using collect_blockers_no_panic, blocker_set_digest_no_panic, reservation_like_no_panic with no_panic.
Qed.

(** The type invariants of a record. *)
Definition wf_send_record (r : SendRecord) : Prop := wf_send_ticket (rec_ticket r) /\ wf_journal_record r.

Definition wf_entries (m : record_map) : Prop := Forall (fun entry => wf_send_record (fst (snd entry))) m.

Lemma active_reservations_domain r m :
  wf_entries m -> Forall in_domain (r_amount <$> active_reservations r m).
Proof.
  unfold wf_entries. rewrite !Forall_forall. intros Hm a (row & -> & Hrow)%list_elem_of_fmap.
  unfold active_reservations in Hrow. apply list_elem_of_In, in_concat in Hrow as (l & Hl & Hin).
  apply list_elem_of_In, list_elem_of_fmap in Hl as (entry & -> & He).
  apply list_elem_of_filter in He as [_ He]. destruct (Hm _ He) as [_ [_ Hd]].
  rewrite Forall_forall in Hd. apply Hd, list_elem_of_fmap_2. by apply list_elem_of_In.
Qed.

Lemma replay_prepared_no_panic st r :
  wf_send_record r -> wf_entries (blocking st) -> replay_prepared st r <> Panic.
Proof.
  intros [Ht [Hb Hq]] Hm. unfold replay_prepared. no_panic; auto using validate_grant_state_no_panic with no_panic.
  pose proof (affordability_no_panic _ _ (active_reservations r (blocking st))
    (p_authorized_overlap (rec_prepare_provenance r)) Hb Hq (active_reservations_domain r _ Hm)). done.
Qed.

Lemma wf_entries_insert id r t m : wf_send_record r -> wf_entries m -> wf_entries (bt_insert id (r, t) m).
Proof.
  intros Hr Hm. induction Hm as [|[id' v'] m Hv Hm IH]; cbn; [by apply Forall_singleton|].
  destruct (cmp id id'); [by constructor| |by constructor]. constructor; [done|by constructor].
Qed.

Lemma wf_entries_remove id m : wf_entries m -> wf_entries (bt_remove id m).
Proof.
  intros Hm. induction Hm as [|[id' v'] m Hv Hm IH]; cbn; [constructor|].
  destruct (cmp id id'); [done|by constructor..].
Qed.

Definition wf_item (i : ReplayItem) : Prop :=
  match i with RDelivery r _ => wf_send_record r | RRisk _ => True end.

Lemma replay_step_no_panic st i : wf_item i -> wf_entries (blocking st) -> replay_step st i <> Panic.
Proof.
  intros Hi Hm. unfold replay_step. destruct (_ && _); [done|]. destruct i as [r e|ev].
  - destruct (is_prepared _); [by apply replay_prepared_no_panic|]. unfold replay_evidence. no_panic.
  - destruct (re_action ev); no_panic. apply validate_grant_old_state_no_panic.
Qed.

Lemma replay_step_wf st i st' :
  wf_item i -> wf_entries (blocking st) -> replay_step st i = Ok st' -> wf_entries (blocking st').
Proof.
  intros Hi Hm Hs%replay_step_Ok. destruct i as [r e|ev].
  - destruct Hs as (_ & _ & _ & Hs). destruct (is_prepared _).
    + destruct (replay_prepared_Ok _ _ _ Hs) as (-> & _). by apply wf_entries_insert.
    + destruct Hs as [_ ->]. destruct (tag_is_blocking _); [by apply wf_entries_insert|by apply wf_entries_remove].
  - by destruct Hs as (-> & _).
Qed.

Lemma replay_run_no_panic st l : Forall wf_item l -> wf_entries (blocking st) -> replay_run st l <> Panic.
Proof.
  intros Hl. revert st. induction Hl as [|i l Hi Hl IH]; intros st Hm; cbn [replay_run]; [done|].
  apply bind_no_panic; [by apply replay_step_no_panic|]. intros st' Hs. apply IH. by eapply replay_step_wf.
Qed.

Lemma check_records_no_panic identity ids records : check_records identity ids records <> Panic.
Proof. revert ids. induction records as [|r l IH]; intros ids; cbn [check_records]; no_panic. Qed.

Lemma check_sequence_no_panic i l : check_sequence i l <> Panic.
Proof. revert i. induction l as [|x l IH]; intros i; cbn [check_sequence]; no_panic. Qed.
End no_panic.

Lemma validate_replay_safe `{Sha256} (records : list SendRecord) (risks : list RiskEvent) :
  Forall wf_send_record records -> validate_replay records risks <> Panic.
Proof.
  intros Hw. unfold validate_replay. cbv zeta.
  apply bind_no_panic; [apply check_records_no_panic|intros _ _].
  apply bind_no_panic; [apply check_sequence_no_panic|intros _ _].
  apply bind_no_panic; [|intros st _; by destruct (pending_consumption st)].
  apply replay_run_no_panic; [|constructor]. apply Forall_forall. intros i Hi.
  apply elem_of_replay_stream in Hi. rewrite Forall_forall in Hw. destruct i as [r e|]; [|done].
  by apply Hw, Hi.
Qed.

(** Replaying records built of well-formed tickets and amounts never panics: none of
    the [expect]s on the way (canonical addresses, same-asset comparisons, byte copies)
    can fail, however the journal was tampered with. *)
Lemma validate_replay_no_panic `{Sha256} (records : list SendRecord) (risks : list RiskEvent) :
  Forall wf_send_record records -> validate_replay records risks <> Panic.
Proof. apply validate_replay_safe. Qed.

Lemma validate_replay_no_panic_witness : @validate_replay toy_sha256 demo_records demo_risks <> Panic.
Proof.
  apply (@validate_replay_no_panic toy_sha256). repeat constructor; try by vm_compute.
  all: exists 0%Z, (pad32 [Byte.x11]); (split; [by left|done]).
Defined.
