(* ===== verification/Envelope.v ===== *)
(** * The journal envelope (crates/cc-wallet-domain/src/envelope.rs)

    The journal as the wallet holds it: each operation builds a candidate, validates it
    whole and only then replaces the journal. *)

From Stdlib Require Import NArith ZArith Lia Sorting.
From stdpp Require Import relations.
From S2P Require Import Prelude Ord Bytes Text Ids Asset Amount Digest Affordability Send Risk Journal Replay Safety.

Record JournalEnvelope := mkEnvelope {
  env_records : list SendRecord;
  env_risk_events : list RiskEvent
}.

Definition env_empty : JournalEnvelope := mkEnvelope [] [].

Definition env_record (e : JournalEnvelope) (id : RecordId) : option SendRecord :=
  find (fun r => bool_decide (record_id r = id)) (env_records e).

(** [is_blocking] is evaluated first, and may panic. *)
Fixpoint filter_blocking (s : bytes * bytes * Z) (records : list SendRecord)
  : res Empty_set (list SendRecord) :=
  match records with
  | [] => Ok []
  | r :: records' =>
      let? b := is_blocking r in
      let? rest := filter_blocking s records' in
      Ok (if b && bool_decide (scope (rec_ticket r) = s) then r :: rest else rest)
  end.

Definition blocking_records_for_scope (e : JournalEnvelope) (sender_wallet_id sender_address : bytes)
    (network_global_id : Z) : res Empty_set (list SendRecord) :=
  filter_blocking (sender_wallet_id, sender_address, network_global_id) (env_records e).

(** [iter().max().unwrap_or(0)]. *)
Definition max_or_zero (l : list N) : N := foldr N.max 0 l.

Definition next_sequence_after (last : N) : res JournalError N :=
  ok_or (checked_add u64_max last 1) SequenceOverflow.

Section envelope.
Context `{Sha256}.

Definition env_validate (e : JournalEnvelope) : res JournalError unit :=
  validate_replay (env_records e) (env_risk_events e).

Definition next_sequence (e : JournalEnvelope) : res JournalError N :=
  let? _ := env_validate e in
  let last_delivery :=
    max_or_zero (concat ((fun r => de_journal_seq <$> rec_delivery_events r) <$> env_records e)) in
  let last_risk := max_or_zero (re_journal_seq <$> env_risk_events e) in
  next_sequence_after (N.max last_delivery last_risk).

(** [*self = candidate] happens only on success: the journal after the call and its
    result. *)
Definition commit (self : JournalEnvelope) (candidate : res JournalError JournalEnvelope)
  : JournalEnvelope * res JournalError unit :=
  match candidate with
  | Ok c => (c, Ok tt)
  | Err e => (self, Err e)
  | Panic => (self, Panic)
  end.

Definition append_prepared (self : JournalEnvelope) (prepared : PreparedRecord)
  : JournalEnvelope * res JournalError unit :=
  commit self (
    let? sequence := next_sequence self in
    let? record := prepared_record prepared sequence in
    let candidate := mkEnvelope (env_records self ++ [record]) (env_risk_events self) in
    let? _ := env_validate candidate in
    Ok candidate).

(** [iter_mut().find(_)]: the first record with the id is replaced by what the call
    leaves in it. *)
Fixpoint update_record (id : RecordId) (sequence : N) (evidence : DeliveryEvidence)
    (records : list SendRecord) : res JournalError (list SendRecord) :=
  match records with
  | [] => Err (InvalidDelivery "record id is not present")
  | r :: records' =>
      if bool_decide (record_id r = id) then
        let '(r', out) := append_delivery_event r sequence evidence in
        let? _ := out in
        Ok (r' :: records')
      else
        let? rest := update_record id sequence evidence records' in
        Ok (r :: rest)
  end.

Definition append_delivery (self : JournalEnvelope) (id : RecordId) (evidence : DeliveryEvidence)
  : JournalEnvelope * res JournalError unit :=
  commit self (
    let? sequence := next_sequence self in
    let? records := update_record id sequence evidence (env_records self) in
    let candidate := mkEnvelope records (env_risk_events self) in
    let? _ := env_validate candidate in
    Ok candidate).

Definition append_risk_grant (self : JournalEnvelope) (grant : RiskGrant)
  : JournalEnvelope * res JournalError unit :=
  commit self (
    let? sequence := next_sequence self in
    let? event := risk_grant_event sequence grant in
    let candidate := mkEnvelope (env_records self) (env_risk_events self ++ [event]) in
    let? _ := env_validate candidate in
    Ok candidate).

Definition append_consumption_and_prepared (self : JournalEnvelope) (consumption : RiskGrantConsumption)
    (prepared : PreparedRecord) : JournalEnvelope * res JournalError unit :=
  commit self (
    let? consumption_sequence := next_sequence self in
    let? prepared_sequence := ok_or (checked_add u64_max consumption_sequence 1) SequenceOverflow in
    let? event := risk_consumption_event consumption_sequence consumption in
    let? record := prepared_record prepared prepared_sequence in
    let candidate := mkEnvelope (env_records self ++ [record]) (env_risk_events self ++ [event]) in
    let? _ := env_validate candidate in
    Ok candidate).

(** The operations on a journal, as a step relation: the journals the wallet can hold
    are those reachable from the empty one. *)
Inductive env_step : JournalEnvelope -> JournalEnvelope -> Prop :=
| step_prepared e p e' out : append_prepared e p = (e', out) -> env_step e e'
| step_delivery e id ev e' out : append_delivery e id ev = (e', out) -> env_step e e'
| step_grant e g e' out : append_risk_grant e g = (e', out) -> env_step e e'
| step_consumption e c p e' out : append_consumption_and_prepared e c p = (e', out) -> env_step e e'.

Definition reachable : JournalEnvelope -> Prop := rtc env_step env_empty.
End envelope.

(** ** Validity *)
Section facts.
Context `{Sha256}.

Lemma commit_spec self candidate e' out :
  commit self candidate = (e', out) ->
  (candidate = Ok e' /\ out = Ok tt) \/ (e' = self /\ out <> Ok tt /\ forall c, candidate <> Ok c).
Proof. unfold commit. destruct candidate; intros [= <- <-]; [by left|by right..]. Qed.

Lemma next_sequence_Ok e s : next_sequence e = Ok s -> env_validate e = Ok tt.
Proof. unfold next_sequence. intros Hs. by apply rbind_Ok in Hs as ([] & Hv & _). Qed.

(** What a successful operation leaves is valid. *)
Lemma checked_candidate c e' :
  (let? _ := env_validate c in Ok c) = Ok e' -> e' = c /\ env_validate e' = Ok tt.
Proof. intros Hc. apply rbind_Ok in Hc as ([] & Hv & [= <-]). done. Qed.

Lemma env_step_valid e e' : env_step e e' -> e' = e \/ env_validate e = Ok tt /\ env_validate e' = Ok tt.
Proof.
  intros Hs. destruct Hs as [e p e' out Ha|e id ev e' out Ha|e g e' out Ha|e c p e' out Ha];
    (apply commit_spec in Ha as [[Hc _]|[-> _]]; [right|by left]);
    apply rbind_Ok in Hc as (s & Hs%next_sequence_Ok & Hc); (split; [done|]).
  - apply rbind_Ok in Hc as (r & _ & Hc). by apply checked_candidate in Hc as [_ ?].
  - apply rbind_Ok in Hc as (r & _ & Hc). by apply checked_candidate in Hc as [_ ?].
  - apply rbind_Ok in Hc as (r & _ & Hc). by apply checked_candidate in Hc as [_ ?].
  - apply rbind_Ok in Hc as (s2 & _ & Hc). apply rbind_Ok in Hc as (ev & _ & Hc).
    apply rbind_Ok in Hc as (r & _ & Hc). by apply checked_candidate in Hc as [_ ?].
Qed.

Lemma env_empty_valid : env_validate env_empty = Ok tt.
Proof. done. Qed.
End facts.

(** Every journal the wallet can reach from the empty one, by any sequence of the
    four operations and whatever their arguments, passes replay validation; so the
    guarantees of an accepted journal hold at every moment. *)
Lemma reachable_journals_valid `{Sha256} (e : JournalEnvelope) :
  reachable e -> env_validate e = Ok tt.
Proof.
  unfold reachable. intros Hr. assert (Hgen : forall a b, rtc env_step a b -> env_validate a = Ok tt -> env_validate b = Ok tt).
  { induction 1 as [a|a b c Hab _ IH]; [done|]. intros Ha. apply IH.
    by apply env_step_valid in Hab as [->|[_ Hb]]. }
  eapply Hgen; [exact Hr|apply env_empty_valid].
Qed.

Definition demo_prepared (rid : RecordId) : PreparedRecord :=
  {| pr_ticket := demo_ticket rid; pr_prepare_provenance := demo_provenance;
     pr_ext_msg_hash := pad32 [Byte.x99]; pr_expire_at := 100;
     pr_reservations := [mkReservation rid (NativeAmount 405) Transfer] |}.

Lemma reachable_journals_valid_witness :
  @env_validate toy_sha256 (mkEnvelope [demo_open id_a 1] []) = Ok tt.
Proof.
  apply (@reachable_journals_valid toy_sha256). apply rtc_once.
  eapply (@step_prepared toy_sha256 env_empty (demo_prepared id_a)). vm_compute. reflexivity.
Defined.

(** ** Numbering *)
Lemma max_or_zero_app l k : max_or_zero (l ++ k) = N.max (max_or_zero l) (max_or_zero k).
Proof. unfold max_or_zero. induction l as [|x l IH]; cbn [foldr app]; lia. Qed.

Lemma max_or_zero_perm l k : l ≡ₚ k -> max_or_zero l = max_or_zero k.
Proof. unfold max_or_zero. induction 1; cbn [foldr] in *; lia. Qed.

Lemma max_or_zero_seq k n : max_or_zero (N.of_nat <$> seq (S k) n) = match n with O => 0 | _ => N.of_nat (k + n) end.
Proof.
  revert k. induction n as [|n IH]; intros k; [done|]. cbn [seq]. rewrite fmap_cons. cbn [max_or_zero foldr].
  fold (max_or_zero (N.of_nat <$> seq (S (S k)) n)). rewrite IH. destruct n; lia.
Qed.

(** The next sequence number of a valid journal is one more than the number of its
    events, whatever their distribution over records and risk events; only a journal of
    2^64 - 1 events has none. *)
Lemma next_sequence_exact `{Sha256} (e : JournalEnvelope) :
  env_validate e = Ok tt ->
  let n := N.of_nat (length (all_seqs (env_records e) (env_risk_events e))) in
  next_sequence e = if n <? u64_max then Ok (n + 1) else Err SequenceOverflow.
Proof.
  intros Hv. cbv zeta. unfold next_sequence. rewrite Hv. cbn [rbind].
  pose proof Hv as (_ & Hs & _)%validate_replay_Ok. apply all_seqs_perm in Hs as [Hp Hm].
  rewrite <- max_or_zero_app. fold (all_seqs (env_records e) (env_risk_events e)).
  rewrite (max_or_zero_perm _ _ Hp), max_or_zero_seq. unfold next_sequence_after, checked_add.
  destruct (length (all_seqs (env_records e) (env_risk_events e))) as [|n]; [done|]. cbn [Nat.add].
  destruct (N.ltb_spec (N.of_nat (S n)) u64_max); destruct (N.leb_spec (N.of_nat (S n) + 1) u64_max);
    try lia; done.
Qed.

Lemma next_sequence_exact_witness :
  @next_sequence toy_sha256 (mkEnvelope demo_records demo_risks) = Ok (4 + 1).
Proof. apply (@next_sequence_exact toy_sha256 (mkEnvelope demo_records demo_risks)). by vm_compute. Defined.

(** ** The journal only grows *)
Definition extends (e e' : JournalEnvelope) : Prop :=
  (forall i r, env_records e !! i = Some r ->
     exists k, env_records e' !! i = Some (with_events r (rec_delivery_events r ++ k)))
  /\ env_risk_events e `prefix_of` env_risk_events e'.

Lemma extends_refl e : extends e e.
Proof. split; [|done]. intros i r Hr. exists []. by rewrite app_nil_r, with_events_id. Qed.

Lemma extends_trans e1 e2 e3 : extends e1 e2 -> extends e2 e3 -> extends e1 e3.
Proof.
  intros [H1 R1] [H2 R2]. split; [|by etrans]. intros i r Hr.
  apply H1 in Hr as (k1 & Hk1). apply H2 in Hk1 as (k2 & Hk2). exists (k1 ++ k2).
  rewrite Hk2. unfold with_events. cbn. by rewrite app_assoc.
Qed.

Lemma extends_push records risks more more_risks :
  extends (mkEnvelope records risks) (mkEnvelope (records ++ more) (risks ++ more_risks)).
Proof.
  split; [|by exists more_risks]. cbn. intros i r Hr. exists [].
  rewrite app_nil_r, with_events_id. by apply lookup_app_l_Some.
Qed.

Lemma update_record_Ok id s ev records records' :
  update_record id s ev records = Ok records' ->
  exists l r k, records = l ++ r :: k /\ record_id r = id /\ (forall x, x ∈ l -> record_id x <> id)
    /\ records' = l ++ with_events r (rec_delivery_events r ++ [mkDeliveryEvent s ev]) :: k.
Proof.
  revert records'. induction records as [|r records IH]; intros records'; [done|].
  cbn [update_record]. case_bool_decide as Hid.
  - destruct (append_delivery_event r s ev) as [r' out] eqn:Ha. intros Hu.
    apply rbind_Ok in Hu as (u & -> & [= <-]).
    apply append_delivery_event_cases in Ha as [(_ & -> & _)|[_ Ha]]; [|done].
    exists [], r, records. split; [done|]. split; [done|]. split; [by intros x ?%elem_of_nil|done].
  - intros Hu. apply rbind_Ok in Hu as (rest & Hrest & [= <-]).
    apply IH in Hrest as (l & r0 & k & -> & Hr0 & Hl & ->).
    exists (r :: l), r0, k. split; [done|]. split; [done|]. split; [|done].
    intros x [->|Hx]%elem_of_cons; [done|by apply Hl].
Qed.

Section grows.
Context `{Sha256}.

Lemma append_delivery_Ok e id ev e' :
  append_delivery e id ev = (e', Ok tt) ->
  exists s l r k, next_sequence e = Ok s /\ env_records e = l ++ r :: k /\ record_id r = id
    /\ (forall x, x ∈ l -> record_id x <> id)
    /\ e' = mkEnvelope (l ++ with_events r (rec_delivery_events r ++ [mkDeliveryEvent s ev]) :: k)
              (env_risk_events e)
    /\ env_validate e' = Ok tt.
Proof.
  intros Ha. apply commit_spec in Ha as [[Hc _]|(_ & Hne & _)]; [|done].
  apply rbind_Ok in Hc as (s & Hs & Hc). apply rbind_Ok in Hc as (records & Hu & Hc).
  apply checked_candidate in Hc as [-> Hv].
  apply update_record_Ok in Hu as (l & r & k & He & Hid & Hl & ->). by exists s, l, r, k.
Qed.

Lemma env_step_extends e e' : env_step e e' -> extends e e'.
Proof.
  intros Hs. destruct Hs as [e p e' out Ha|e id ev e' out Ha|e g e' out Ha|e c p e' out Ha].
  - apply commit_spec in Ha as [[Hc _]|[-> _]]; [|apply extends_refl].
    apply rbind_Ok in Hc as (s & _ & Hc). apply rbind_Ok in Hc as (r & _ & Hc).
    apply checked_candidate in Hc as [-> _]. destruct e as [records risks]. cbn.
    rewrite <- (app_nil_r risks) at 2. apply extends_push.
  - destruct out as [[]|x|]; [|apply commit_spec in Ha as [[_ ?]|[-> _]]; [done|apply extends_refl]..].
    destruct (append_delivery_Ok _ _ _ _ Ha) as (s & l & r & k & _ & He & _ & _ & -> & _).
    split; [|done]. cbn. rewrite He. intros i x Hx.
    destruct (decide (i = length l)) as [->|Hne].
    + rewrite list_lookup_middle in Hx by done. injection Hx as <-.
      exists [mkDeliveryEvent s ev]. by rewrite list_lookup_middle by done.
    + exists []. rewrite app_nil_r, with_events_id. rewrite <- Hx.
      destruct (decide (i < length l)%nat); [by rewrite !lookup_app_l|].
      rewrite !lookup_app_r by lia. by destruct (i - length l)%nat eqn:E; [lia|].
  - apply commit_spec in Ha as [[Hc _]|[-> _]]; [|apply extends_refl].
    apply rbind_Ok in Hc as (s & _ & Hc). apply rbind_Ok in Hc as (r & _ & Hc).
    apply checked_candidate in Hc as [-> _]. destruct e as [records risks]. cbn.
    rewrite <- (app_nil_r records) at 2. apply extends_push.
  - apply commit_spec in Ha as [[Hc _]|[-> _]]; [|apply extends_refl].
    apply rbind_Ok in Hc as (s & _ & Hc). apply rbind_Ok in Hc as (s2 & _ & Hc).
    apply rbind_Ok in Hc as (ev & _ & Hc). apply rbind_Ok in Hc as (r & _ & Hc).
    apply checked_candidate in Hc as [-> _]. destruct e as [records risks]. apply extends_push.
Qed.
End grows.

(** Whatever operations are applied, the journal only grows: no record or risk event
    disappears or moves, the ticket, provenance, hash, expiry and reservations of a
    record never change, and its events are only added to at the end. *)
Lemma journal_append_only `{Sha256} (e e' : JournalEnvelope) :
  rtc env_step e e' -> extends e e'.
Proof.
  induction 1 as [e|e1 e2 e3 Hs _ IH]; [apply extends_refl|].
  eapply extends_trans; [by apply env_step_extends|done].
Qed.

Lemma journal_append_only_witness :
  extends (mkEnvelope [demo_open id_a 1] [])
    (mkEnvelope [demo_record id_a [mkDeliveryEvent 1 Prepared; mkDeliveryEvent 2 (AttemptStarted 1 (bs "route"))]] []).
Proof.
  apply (@journal_append_only toy_sha256). apply rtc_once.
  eapply (@step_delivery toy_sha256 _ id_a (AttemptStarted 1 (bs "route"))). vm_compute. reflexivity.
Defined.

Lemma find_skip {A} (P : A -> bool) l x k :
  (forall y, y ∈ l -> P y = false) -> P x = true -> find P (l ++ x :: k) = Some x.
Proof.
  induction l as [|y l IH]; intros HP Hx; cbn; [by rewrite Hx|].
  rewrite (HP y) by left. apply IH; [|done]. intros z Hz. apply HP. by right.
Qed.

Lemma find_replace {A} (P : A -> bool) l x x' k :
  P x = false -> P x' = false -> find P (l ++ x :: k) = find P (l ++ x' :: k).
Proof. intros Hx Hx'. induction l as [|y l IH]; cbn; [by rewrite Hx, Hx'|]. by rewrite IH. Qed.

(** Appending evidence changes one record only: the one with the given id gets the
    event at its end, with the next sequence number; every other record and all risk
    events stay as they were. A failed call changes nothing at all. *)
Lemma append_delivery_effect `{Sha256} (e e' : JournalEnvelope) (id : RecordId)
    (evidence : DeliveryEvidence) (out : res JournalError unit) :
  append_delivery e id evidence = (e', out) ->
  (out = Ok tt
   /\ (exists s r, next_sequence e = Ok s /\ env_record e id = Some r
         /\ env_record e' id = Some (with_events r (rec_delivery_events r ++ [mkDeliveryEvent s evidence])))
   /\ (forall other, other <> id -> env_record e' other = env_record e other)
   /\ env_risk_events e' = env_risk_events e)
  \/ (e' = e /\ out <> Ok tt).
Proof.
  intros Ha. destruct out as [[]|x|];
    [left|right; apply commit_spec in Ha as [[_ ?]|(-> & ? & _)]; done..].
  destruct (append_delivery_Ok _ _ _ _ Ha) as (s & l & r & k & Hs & He & Hid & Hl & -> & _).
  assert (Hno : forall y, y ∈ l -> bool_decide (record_id y = id) = false).
  { intros y Hy. apply bool_decide_eq_false. by apply Hl. }
  unfold env_record. cbn [env_records env_risk_events]. rewrite He.
  split; [done|]. split; [|split; [|done]].
  - exists s, r. split; [done|]. split; apply find_skip; try done; by apply bool_decide_eq_true.
  - intros other Hne. apply find_replace; apply bool_decide_eq_false; [unfold record_id; cbn|]; unfold record_id in *; congruence.
Qed.

Lemma append_delivery_effect_witness :
  let e := mkEnvelope [demo_open id_a 1] [] in
  let e' := mkEnvelope [demo_record id_a [mkDeliveryEvent 1 Prepared; mkDeliveryEvent 2 (AttemptStarted 1 (bs "route"))]] [] in
  @append_delivery toy_sha256 e id_a (AttemptStarted 1 (bs "route")) = (e', Ok tt)
  /\ (exists s r, @next_sequence toy_sha256 e = Ok s /\ env_record e id_a = Some r
         /\ env_record e' id_a
            = Some (with_events r (rec_delivery_events r ++ [mkDeliveryEvent s (AttemptStarted 1 (bs "route"))]))).
Proof.
  cbv zeta. split; [vm_compute; reflexivity|].
  destruct (@append_delivery_effect toy_sha256 (mkEnvelope [demo_open id_a 1] [])
    (mkEnvelope [demo_record id_a [mkDeliveryEvent 1 Prepared; mkDeliveryEvent 2 (AttemptStarted 1 (bs "route"))]] [])
    id_a (AttemptStarted 1 (bs "route")) (Ok tt)) as [(_ & Hx & _)|[_ Hx]];
    [vm_compute; reflexivity|exact Hx|by destruct Hx].
Defined.

(** ** Queries *)
Lemma valid_record_blocks r : validate_static r = Ok tt -> @is_blocking Empty_set r = Ok (blocks r).
Proof.
  intros ((a & k & Hl & _) & _)%validate_static_Ok. unfold blocks, is_blocking, latest_evidence_tag, latest_evidence.
  destruct (last (rec_delivery_events r)) as [e|] eqn:E; [done|].
  apply last_None in E. by rewrite E in Hl.
Qed.

(** On a valid journal the query for the blocking records of a scope never panics
    and returns exactly the records of the scope whose last evidence blocks. *)
Lemma blocking_records_exact `{Sha256} (e : JournalEnvelope) (wallet address : bytes) (network : Z) :
  env_validate e = Ok tt ->
  exists l, blocking_records_for_scope e wallet address network = Ok l
    /\ forall r, r ∈ l <-> r ∈ env_records e /\ scope (rec_ticket r) = (wallet, address, network)
                         /\ blocks r = true.
Proof.
  intros Hv. pose proof (accepted_records _ _ Hv) as (Hf & _ & _).
  unfold blocking_records_for_scope. generalize (wallet, address, network). intros s.
  induction (env_records e) as [|r records IH]; cbn [filter_blocking].
  { exists []. split; [done|]. intros r. rewrite elem_of_nil. tauto. }
  apply Forall_cons in Hf as [Hr Hf]. destruct (IH Hf) as (l & -> & Hl).
  rewrite (valid_record_blocks r Hr). cbn [rbind]. eexists. split; [done|]. intros x.
  rewrite elem_of_cons. destruct (blocks r) eqn:Hb; cbn [andb]; [case_bool_decide as Hs|].
  - rewrite elem_of_cons, Hl. split; [intros [->|?]; tauto|]. intros ([->|?] & ? & ?); tauto.
  - rewrite Hl. split; [tauto|]. intros ([->|?] & ? & ?); [done|tauto].
  - rewrite Hl. split; [tauto|]. intros ([->|?] & ? & ?); [congruence|tauto].
Qed.

Lemma blocking_records_exact_witness :
  exists l, blocking_records_for_scope (mkEnvelope demo_records demo_risks) (bs "wallet-1") demo_dest 2000 = Ok l
    /\ forall r, r ∈ l <-> r ∈ demo_records
         /\ scope (rec_ticket r) = (bs "wallet-1", demo_dest, 2000%Z) /\ blocks r = true.
Proof.
  apply (@blocking_records_exact toy_sha256 (mkEnvelope demo_records demo_risks)). by vm_compute.
Defined.

(** ** Journals the operations work on *)
Section wf.
Context `{Sha256}.

Record journal_wf (e : JournalEnvelope) : Prop := {
  jw_valid : env_validate e = Ok tt;
  jw_records : Forall wf_send_record (env_records e)
}.

Definition wf_prepared (p : PreparedRecord) : Prop :=
  wf_send_ticket (pr_ticket p) /\ Forall in_domain (p_balances (pr_prepare_provenance p))
  /\ Forall in_domain (r_amount <$> pr_reservations p).

Lemma empty_wf : journal_wf env_empty.
Proof. by split. Qed.

Lemma env_validate_returns records risks :
  Forall wf_send_record records -> env_validate (mkEnvelope records risks) <> Panic.
Proof. by apply validate_replay_safe. Qed.

(** The last evidence of a record of a valid journal. *)
Lemma wf_latest e r :
  journal_wf e -> r ∈ env_records e ->
  exists ev, (forall E, @latest_evidence E r = Ok ev) /\ ev ∈ de_evidence <$> rec_delivery_events r
    /\ blocks r = tag_is_blocking (tag ev) /\ forall E, @is_blocking E r = Ok (blocks r).
Proof.
  intros [Hv _] Hr. apply accepted_records in Hv as (Hf & _). rewrite Forall_forall in Hf.
  apply Hf, validate_static_Ok in Hr as ((a & k & Hl & _) & _).
  unfold blocks, is_blocking, latest_evidence_tag, latest_evidence.
  destruct (last (rec_delivery_events r)) as [ev|] eqn:E.
  - exists (de_evidence ev). cbn. split_and!; try done. apply list_elem_of_fmap_2.
    apply last_Some in E as (l & E). rewrite E. apply elem_of_app. right. by left.
  - apply last_None in E. by rewrite E in Hl.
Qed.

Lemma update_record_wf id s ev records :
  Forall wf_send_record records -> update_record id s ev records <> Panic.
Proof.
  intros _. induction records as [|r l IH]; cbn [update_record]; [done|].
  case_bool_decide; [|by destruct (update_record id s ev l)].
  destruct (append_delivery_event r s ev) as [r' out] eqn:Ha.
  apply append_delivery_event_cases in Ha as [(-> & _)|[_ Ho]]; [done|]. by destruct out.
Qed.

Lemma next_sequence_returns e : journal_wf e -> next_sequence e <> Panic.
Proof. intros [Hv _]. rewrite next_sequence_exact by done. by destruct (_ <? _). Qed.

(** Whether a change is committed or refused, the journal stays one of these, and the call
    returns. *)
Lemma commit_wf e candidate e' out :
  journal_wf e -> commit e candidate = (e', out) -> candidate <> Panic ->
  (forall c, candidate = Ok c -> env_validate c = Ok tt /\ Forall wf_send_record (env_records c)) ->
  journal_wf e' /\ out <> Panic.
Proof.
  intros He Hc Hp Hok. destruct candidate as [c|err|]; [..|done]; injection Hc as <- <-; [|done].
  destruct (Hok c eq_refl). done.
Qed.

Lemma append_delivery_wf e id ev e' out :
  journal_wf e -> append_delivery e id ev = (e', out) -> journal_wf e' /\ out <> Panic.
Proof.
  intros He Ha. pose proof He as [Hv Hw]. eapply commit_wf; [done|exact Ha|..].
  - apply bind_no_panic; [by apply next_sequence_returns|intros s _].
    apply bind_no_panic; [by apply update_record_wf|intros records Hu].
    apply bind_no_panic; [|done]. apply env_validate_returns.
    apply update_record_Ok in Hu as (l & r & k & He' & _ & _ & ->). rewrite He', !Forall_app, !Forall_cons in *.
    tauto.
  - intros c Hc. apply rbind_Ok in Hc as (s & _ & Hc). apply rbind_Ok in Hc as (records & Hu & Hc).
    apply checked_candidate in Hc as [-> Hc]. split; [done|].
    apply update_record_Ok in Hu as (l & r & k & He' & _ & _ & ->). cbn. rewrite He', !Forall_app, !Forall_cons in *.
    tauto.
Qed.

Lemma prepared_record_wf p s r : wf_prepared p -> prepared_record p s = Ok r -> wf_send_record r.
Proof.
  intros (Ht & Hb & Hr) Hp. apply rbind_Ok in Hp as (ev & _ & [= <-]). split; [done|]. by split.
Qed.

Lemma append_prepared_wf e p e' out :
  journal_wf e -> wf_prepared p -> append_prepared e p = (e', out) -> journal_wf e' /\ out <> Panic.
Proof.
  intros He Hp Ha. pose proof He as [Hv Hw]. eapply commit_wf; [done|exact Ha|..].
  - apply bind_no_panic; [by apply next_sequence_returns|intros s _].
    apply bind_no_panic; [unfold prepared_record, DeliveryEvent_new; by destruct (s =? 0)|intros r Hr].
    apply bind_no_panic; [|done]. apply env_validate_returns, Forall_app. split; [done|].
    apply Forall_singleton. by eapply prepared_record_wf.
  - intros c Hc. apply rbind_Ok in Hc as (s & _ & Hc). apply rbind_Ok in Hc as (r & Hr & Hc).
    apply checked_candidate in Hc as [-> Hc]. split; [done|]. apply Forall_app. split; [done|].
    apply Forall_singleton. by eapply prepared_record_wf.
Qed.

Lemma append_consumption_wf e c p e' out :
  journal_wf e -> wf_prepared p -> append_consumption_and_prepared e c p = (e', out) ->
  journal_wf e' /\ out <> Panic.
Proof.
  intros He Hp Ha. pose proof He as [Hv Hw]. eapply commit_wf; [done|exact Ha|..].
  - apply bind_no_panic; [by apply next_sequence_returns|intros s _].
    apply bind_no_panic; [by destruct (checked_add u64_max s 1)|intros s' _].
    apply bind_no_panic; [unfold risk_consumption_event, RiskEvent_new; by destruct (s =? 0)|intros ev _].
    apply bind_no_panic; [unfold prepared_record, DeliveryEvent_new; by destruct (s' =? 0)|intros r Hr].
    apply bind_no_panic; [|done]. apply env_validate_returns, Forall_app. split; [done|].
    apply Forall_singleton. by eapply prepared_record_wf.
  - intros c' Hc. apply rbind_Ok in Hc as (s & _ & Hc). apply rbind_Ok in Hc as (s' & _ & Hc).
    apply rbind_Ok in Hc as (ev & _ & Hc). apply rbind_Ok in Hc as (r & Hr & Hc).
    apply checked_candidate in Hc as [-> Hc]. split; [done|]. apply Forall_app. split; [done|].
    apply Forall_singleton. by eapply prepared_record_wf.
Qed.

Lemma append_risk_grant_wf e g e' out :
  journal_wf e -> append_risk_grant e g = (e', out) -> journal_wf e' /\ out <> Panic.
Proof.
  intros He Ha. pose proof He as [Hv Hw]. eapply commit_wf; [done|exact Ha|..].
  - apply bind_no_panic; [by apply next_sequence_returns|intros s _].
    apply bind_no_panic; [unfold risk_grant_event, RiskEvent_new; by destruct (s =? 0)|intros ev _].
    apply bind_no_panic; [|done]. by apply env_validate_returns.
  - intros c Hc. apply rbind_Ok in Hc as (s & _ & Hc). apply rbind_Ok in Hc as (ev & _ & Hc).
    by apply checked_candidate in Hc as [-> Hc].
Qed.
End wf.
