(* ===== verification/Persist.v ===== *)
(** * The stored journal and activity (crates/cc-wallet-domain/src/envelope.rs)

    The envelopes as they are written to and read from storage: a strict object with the
    schema and writer stamps, the content, and for the journal a replay of the whole.  The
    texts serde writes for records, risk events and activity are parameters. *)

From Stdlib Require Import NArith ZArith Lia.
From stdpp Require Import relations.
From S2P Require Import Prelude Ord Bytes Text Decimal Ids Asset Amount Digest Affordability Send Risk Journal Replay Safety Envelope Strict.

Definition ENVELOPE_SCHEMA_VERSION : N := 1.
Definition ENVELOPE_WRITER_VERSION : N := 1.

Inductive EnvelopeError :=
| EnvMalformed
| EnvUnsupportedSchema (version : N)
| EnvNewerSchema (version : N)
| MissingWriterVersion
| IncompatibleWriter (version : N)
| EnvReplay (inner : JournalError).

Definition EnvelopeError_display (e : EnvelopeError) : string :=
  match e with
  | EnvMalformed => "stored record envelope is malformed"
  | EnvUnsupportedSchema v => message ["stored record envelope schema "; dec_string v; " is not a supported format"]
  | EnvNewerSchema v => message ["stored record envelope schema "; dec_string v; " is newer than this build"]
  | MissingWriterVersion => "stored record envelope has no writer_version stamp"
  | IncompatibleWriter v =>
      message ["stored record envelope writer "; dec_string v; " is incompatible with this build"]
  | EnvReplay inner => message ["stored journal failed replay validation: "; JournalError_display inner]
  end.

(** [impl From<StrictError> for EnvelopeError]. *)
Definition of_strict_error (e : StrictError) : EnvelopeError :=
  match e with
  | UnsupportedSchema v => EnvUnsupportedSchema v
  | NewerSchema v => EnvNewerSchema v
  | MissingWriterStamp => MissingWriterVersion
  | WrongWriterVersion _ found => IncompatibleWriter found
  | StrictMalformed | DuplicateKey _ | StrictMissingField _ | WrongType _ | UnknownFields _ => EnvMalformed
  end.

Definition strictly {A} (r : res StrictError A) : res EnvelopeError A := map_err of_strict_error r.

Section codec.
Context `{Sha256, SerdeJson}.
Context (slot_records : Slot (list SendRecord)) (slot_risk_events : Slot (list RiskEvent)).

Definition journal_members (e : JournalEnvelope) : members :=
  [(bs "schema_version", to_str slot_u32 ENVELOPE_SCHEMA_VERSION);
   (bs "writer_version", to_str slot_u32 ENVELOPE_WRITER_VERSION);
   (bs "records", to_str slot_records (env_records e));
   (bs "risk_events", to_str slot_risk_events (env_risk_events e))].

Definition journal_encode (e : JournalEnvelope) : bytes := write_map (journal_members e).

Definition journal_decode (input : bytes) : res EnvelopeError JournalEnvelope :=
  let? members := strictly (strict_parse input) in
  let? checked := strictly (require_schema EnvelopeSchemaV1 members) in
  let? content := strictly (require_writer EnvelopeSchemaV1 checked) in
  let? (records, content) := strictly (take_required slot_records content "records") in
  let? (risk_events, content) := strictly (take_required slot_risk_events content "risk_events") in
  let? _ := strictly (finish content) in
  let? _ := map_err EnvReplay (validate_replay records risk_events) in
  Ok (mkEnvelope records risk_events).

(** ** Activity *)

(** The events of an [ActivityEnvelope]; [write_events] fails where serializing an event
    does. *)
Context (write_events : list ActivityEvent -> option bytes) (slot_events : Slot (list ActivityEvent)).

Definition activity_encode (events : list ActivityEvent) : option bytes :=
  match write_events events with
  | Some raw =>
      Some (write_map [(bs "schema_version", to_str slot_u32 ENVELOPE_SCHEMA_VERSION);
                       (bs "writer_version", to_str slot_u32 ENVELOPE_WRITER_VERSION);
                       (bs "events", raw)])
  | None => None
  end.

Definition activity_decode (input : bytes) : res EnvelopeError (list ActivityEvent) :=
  let? members := strictly (strict_parse input) in
  let? checked := strictly (require_schema EnvelopeSchemaV1 members) in
  let? content := strictly (require_writer EnvelopeSchemaV1 checked) in
  let? (events, content) := strictly (take_required slot_events content "events") in
  let? _ := strictly (finish content) in
  Ok events.
End codec.

(** The journal of a run of the wallet: the four operations, and restarts, at which what is
    held is what was read from some stored text. *)
Inductive run_step `{Sha256, SerdeJson} (slot_records : Slot (list SendRecord))
    (slot_risk_events : Slot (list RiskEvent)) : JournalEnvelope -> JournalEnvelope -> Prop :=
| run_op e e' : env_step e e' -> run_step slot_records slot_risk_events e e'
| run_restart e e' input :
    journal_decode slot_records slot_risk_events input = Ok e' ->
    run_step slot_records slot_risk_events e e'.

(** ** Decoding *)
Definition journal_keys : list string := ["schema_version"; "writer_version"; "records"; "risk_events"].

Definition journal_reads `{SerdeJson} (slot_records : Slot (list SendRecord))
    (slot_risk_events : Slot (list RiskEvent)) (raw : string -> bytes) (e : JournalEnvelope) : Prop :=
  from_str slot_u32 (raw "schema_version") = Some ENVELOPE_SCHEMA_VERSION
  /\ from_str slot_u32 (raw "writer_version") = Some ENVELOPE_WRITER_VERSION
  /\ from_str slot_records (raw "records") = Some (env_records e)
  /\ from_str slot_risk_events (raw "risk_events") = Some (env_risk_events e).

Section decoding.
Context `{Sha256, SerdeJson}.
Context (slot_records : Slot (list SendRecord)) (slot_risk_events : Slot (list RiskEvent)).

Lemma strictly_Ok {A} (r : res StrictError A) a : strictly r = Ok a <-> r = Ok a.
Proof. apply map_err_Ok. Qed.

Lemma journal_decode_intro input ms raw e :
  read_map input = Some (ms, Closed) -> ms ≡ₚ with_keys journal_keys raw ->
  journal_reads slot_records slot_risk_events raw e -> env_validate e = Ok tt ->
  journal_decode slot_records slot_risk_events input = Ok e.
Proof.
  intros Hr Hp (R0 & R1 & R2 & R3) Hv. unfold journal_decode, strictly.
  rewrite (proj2 (strict_parse_Ok input ms)); cbn [rbind map_err].
  2:{ split; [done|]. eapply with_keys_nodup; [|exact Hp]. by vm_compute. }
  unfold journal_keys in Hp. next_schema EnvelopeSchemaV1. cbn [map_err rbind].
  next_writer EnvelopeSchemaV1. cbn [map_err rbind]. do 2 (next_field; cbn [map_err rbind]).
  apply Permutation_nil_r in Hp as ->. cbn [finish map_err rbind].
  unfold env_validate in Hv. rewrite Hv. by destruct e.
Qed.

Lemma journal_decode_elim input e :
  journal_decode slot_records slot_risk_events input = Ok e ->
  exists ms raw, read_map input = Some (ms, Closed) /\ ms ≡ₚ with_keys journal_keys raw
    /\ journal_reads slot_records slot_risk_events raw e /\ env_validate e = Ok tt.
Proof.
  unfold journal_decode. intros E. rinv E.
  repeat match goal with H : strictly _ = Ok _ |- _ => apply strictly_Ok in H end.
  apply strict_parse_Ok in Hm as [Hr Hn].
  assert (Hs : split_keys a [] a) by (unfold split_keys; reflexivity).
  took_schema. took_writer. do 2 took_field. destruct a4, a5. apply finish_Ok in Hm4 as ->.
  exists a, (raw_of a). split; [done|]. split; [|by repeat split].
  match goal with H : split_keys _ _ [] |- _ => unfold split_keys in H; by rewrite app_nil_r in H end.
Qed.

(** A reader of another version stops at the schema stamp, before any content. *)
Lemma journal_decode_schema_first input ms raw version :
  strict_parse input = Ok ms -> take_member ms (bs "schema_version") = Some (raw, version) ->
  forall v, from_str slot_u32 raw = Some v -> v <> ENVELOPE_SCHEMA_VERSION ->
  journal_decode slot_records slot_risk_events input
  = Err (if ENVELOPE_SCHEMA_VERSION <? v then EnvNewerSchema v else EnvUnsupportedSchema v).
Proof.
  intros Hp Ht v Hv Hne. unfold journal_decode, strictly. rewrite Hp. cbn [map_err rbind].
  unfold require_schema, take_u32_stamp. rewrite Ht, Hv. cbn [rbind].
  change (SCHEMA EnvelopeSchemaV1) with ENVELOPE_SCHEMA_VERSION.
  destruct (N.compare_spec v ENVELOPE_SCHEMA_VERSION) as [|Hl|Hg]; [done|..].
  - by rewrite (proj2 (N.ltb_ge _ _)) by lia.
  - by rewrite (proj2 (N.ltb_lt _ _)) by lia.
Qed.

Lemma run_step_valid e e' :
  run_step slot_records slot_risk_events e e' -> env_validate e = Ok tt -> env_validate e' = Ok tt.
Proof.
  intros [? ? Hs|? ? input Hd] He.
  - by apply env_step_valid in Hs as [->|[_ ?]].
  - by apply journal_decode_elim in Hd as (ms & raw & _ & _ & _ & Hv).
Qed.
End decoding.

(** Decoding a stored journal is exact: it succeeds on precisely the inputs that are one
    JSON object with the four fields once each, in any order, with this build's schema and
    writer stamps, whose contents read by their types and pass replay validation. *)
Lemma journal_decode_exact `{Sha256, SerdeJson} (slot_records : Slot (list SendRecord))
    (slot_risk_events : Slot (list RiskEvent)) (input : bytes) (e : JournalEnvelope) :
  journal_decode slot_records slot_risk_events input = Ok e <->
  exists ms raw, read_map input = Some (ms, Closed) /\ ms ≡ₚ with_keys journal_keys raw
    /\ journal_reads slot_records slot_risk_events raw e /\ env_validate e = Ok tt.
Proof.
  split; [apply journal_decode_elim|]. intros (ms & raw & Hr & Hp & Hreads & Hv).
  by eapply journal_decode_intro.
Qed.

(** C37: whatever the wallet does and whatever it is given to restart from, the journal it
    holds is valid; and a journal whose contents serde reads back is, once stored, read
    back as the same journal, so no restart loses or alters evidence. *)
Theorem journal_survives_restart `{Sha256, SerdeJsonLaws} (slot_records : Slot (list SendRecord))
    (slot_risk_events : Slot (list RiskEvent)) (e : JournalEnvelope) :
  rtc (run_step slot_records slot_risk_events) env_empty e ->
  env_validate e = Ok tt
  /\ (json_text (to_str slot_records (env_records e)) ->
      json_text (to_str slot_risk_events (env_risk_events e)) ->
      from_str slot_records (to_str slot_records (env_records e)) = Some (env_records e) ->
      from_str slot_risk_events (to_str slot_risk_events (env_risk_events e)) = Some (env_risk_events e) ->
      journal_decode slot_records slot_risk_events
        (journal_encode slot_records slot_risk_events e) = Ok e).
Proof.
  intros Hr. assert (Hv : env_validate e = Ok tt).
  { assert (Hgen : forall a b, rtc (run_step slot_records slot_risk_events) a b ->
      env_validate a = Ok tt -> env_validate b = Ok tt).
    { induction 1 as [a|a b c Hab _ IH]; [done|]. intros Ha. apply IH. by eapply run_step_valid. }
    eapply Hgen; [exact Hr|apply env_empty_valid]. }
  split; [done|]. intros T2 T3 R2 R3.
  pose proof (slot_u32_ok ENVELOPE_SCHEMA_VERSION ltac:(by vm_compute)) as [T0 R0].
  pose proof (slot_u32_ok ENVELOPE_WRITER_VERSION ltac:(by vm_compute)) as [T1 R1].
  set (ms := journal_members slot_records slot_risk_events e).
  apply (journal_decode_intro _ _ _ ms (raw_of ms)); [|done| |done].
  - apply read_write_map. repeat constructor; done.
  - by repeat split.
Qed.

Definition demo_slot_records : Slot (list SendRecord) :=
  {| to_str rs := match rs with [] => [] | _ => [Byte.x01] end;
     from_str s := match s with [] => Some [] | _ => Some [demo_open id_a 1] end |}.
Definition demo_slot_risks : Slot (list RiskEvent) := {| to_str _ := []; from_str _ := Some [] |}.

Lemma journal_survives_restart_witness :
  let e := mkEnvelope [demo_open id_a 1] [] in
  @env_validate toy_sha256 e = Ok tt
  /\ @journal_decode toy_sha256 toy_serde demo_slot_records demo_slot_risks
       (@journal_encode toy_serde demo_slot_records demo_slot_risks e) = Ok e.
Proof.
  intros e.
  edestruct (@journal_survives_restart toy_sha256 toy_serde toy_serde_laws demo_slot_records
    demo_slot_risks e) as [Hv Hd].
  - apply rtc_once. apply run_op.
    eapply (@step_prepared toy_sha256 env_empty (demo_prepared id_a)). vm_compute. reflexivity.
  - split; [exact Hv|]. apply Hd; [exact I|exact I|reflexivity|reflexivity].
Defined.
