(* ===== verification/Authorization.v ===== *)
(** * Send authorizations (crates/cc-wallet-domain/src/send.rs)

    What the user confirms: the inputs to sign with and the ticket that names the send. *)

From Stdlib Require Import NArith ZArith Lia.
From S2P Require Import Prelude Ord Bytes Text Ids Asset Amount Digest Send Risk Journal Profile.

Record SendAuthorization := mkAuthorization { sa_inputs : WalletInputs; sa_ticket : SendTicket }.

Definition SendAuthorization_new `{StdAddrLib} (record_id : RecordId)
    (sender_wallet_id sender_address : bytes) (inputs : WalletInputs) (request : SendRequest)
    (bounce : bool) (generation nonce : N) : res WalletError SendAuthorization :=
  if bool_decide (wi_endpoint inputs = [])
     || negb (bool_decide (trim (wi_endpoint inputs) = wi_endpoint inputs))
  then Err (Validation "authorization endpoint identity is empty or noncanonical") else
  let? _ := validate_workchain (wi_workchain inputs) in
  let? sender := canonicalize_recipient sender_address in
  let? fresh := SendRequest_new (sr_destination request) (sr_value request) in
  let? ticket := map_err (fun error => Validation (JournalError_display error))
    (SendTicket_new record_id sender_wallet_id sender (wi_network_id inputs) (wi_endpoint inputs)
       (sealed_to (with_comment fresh (sr_comment request)) (sr_encrypt_to request))
       bounce generation nonce) in
  Ok (mkAuthorization inputs ticket).

Definition sa_generation (a : SendAuthorization) : N := t_auth_generation (sa_ticket a).
Definition sa_nonce (a : SendAuthorization) : N := t_auth_nonce (sa_ticket a).
Definition sa_request (a : SendAuthorization) : SendRequest := t_request (sa_ticket a).

Definition sa_matches (a : SendAuthorization) (generation nonce : N) : bool :=
  (t_auth_generation (sa_ticket a) =? generation) && (t_auth_nonce (sa_ticket a) =? nonce).

(** An authorization binds its ticket to what is signed with. The ticket is well formed,
    names the network and endpoint of the inputs, the canonical form of the sender and the
    amount and recipient of the request with its comment normalised once more, on a
    workchain the wallet uses; and it matches only its own generation and nonce. *)
Lemma authorization_binds_ticket `{StdAddrLaws} (record_id : RecordId)
    (sender_wallet_id sender_address : bytes) (inputs : WalletInputs) (request : SendRequest)
    (bounce : bool) (generation nonce : N) (a : SendAuthorization) :
  wf_request request ->
  SendAuthorization_new record_id sender_wallet_id sender_address inputs request bounce generation nonce = Ok a ->
  let t := sa_ticket a in
  sa_inputs a = inputs /\ wf_send_ticket t /\ wf_request (t_request t)
  /\ (wi_workchain inputs = 0 \/ wi_workchain inputs = -1)%Z
  /\ t_record_id t = record_id /\ t_sender_wallet_id t = sender_wallet_id
  /\ t_network_global_id t = wi_network_id inputs /\ t_endpoint_identity t = wi_endpoint inputs
  /\ canonicalize_recipient sender_address = Ok (t_sender_address t)
  /\ t_request t = with_comment request (sr_comment request)
  /\ (forall g n, sa_matches a g n = true <-> g = generation /\ n = nonce).
Proof.
  intros Hw. unfold SendAuthorization_new. destruct (_ || _); [done|]. intros E. rinv E.
  apply SendTicket_new_Ok in Hm2 as [-> Ht]. cbn zeta. cbn [sa_inputs sa_ticket].
  assert (Hreq : sealed_to (with_comment a2 (sr_comment request)) (sr_encrypt_to request)
    = with_comment request (sr_comment request)).
  { rewrite SendRequest_new_wf in Hm1 by done. by injection Hm1 as <-. }
  rewrite Hreq in *.
  split; [done|]. split; [exact Ht|]. split.
  { apply wf_with_comment; [done|]. by destruct Hw as (_ & _ & _ & _ & _ & ?). }
  split. { revert Hm. unfold validate_workchain.
    destruct (Z.eqb_spec (wi_workchain inputs) 0), (Z.eqb_spec (wi_workchain inputs) (-1)); cbn; auto; done. }
  do 6 (split; [done|]). intros g n. unfold sa_matches. cbn.
  rewrite andb_true_iff, !N.eqb_eq. naive_solver.
Qed.

Definition demo_inputs : WalletInputs := mkInputs (bs "http://node/") 2000 (-1) (bs "seed") true.

Lemma authorization_binds_ticket_witness :
  exists a, @SendAuthorization_new toy_stdaddr (pad32 []) (bs "wallet-1") demo_text demo_inputs
      demo_request true 7 9 = Ok a
    /\ wf_send_ticket (sa_ticket a) /\ t_network_global_id (sa_ticket a) = 2000%Z
    /\ sa_matches a 7 9 = true.
Proof.
  eexists. split; [vm_compute; reflexivity|].
  edestruct (@authorization_binds_ticket toy_stdaddr toy_stdaddr_laws (pad32 []) (bs "wallet-1") demo_text
    demo_inputs demo_request true 7 9) as (_ & Ht & _ & _ & _ & _ & Hn & _ & _ & _ & Hm).
  2:{ vm_compute. reflexivity. }
  - unfold wf_request, demo_request. cbn [sr_destination sr_value sr_comment].
    split; [exists 0%Z, (pad32 [Byte.x11]); split; [by left|reflexivity]|].
    repeat split; try by vm_compute. apply Nat.le_0_l.
  - split; [exact Ht|]. split; [exact Hn|]. apply Hm. by split.
Defined.
