(* ===== verification/VaultKeys.v ===== *)
(** * Vault keys (crates/cc-wallet-vault/src/{error,params,aead,record,keyslot}.rs)

    The password-derived key, authenticated encryption, sealed records and the keyslot at
    the front of every vault file.  The cipher, Argon2id and the entropy source are
    parameters. *)

From Stdlib Require Import NArith Lia.
From S2P Require Import Prelude Ord Bytes Text Decimal.

Inductive VaultError :=
| WrongPassword
| InvalidDisplayName (what : string)
| Corrupt (what : string)
| Truncated
| UnsupportedFormat (what : string)
| ParamsRejected (what : string)
| Crypto (what : string)
| Rng.

Definition VaultError_display (e : VaultError) : string :=
  match e with
  | WrongPassword => "wrong password or damaged vault"
  | InvalidDisplayName what => message ["invalid wallet display name: "; what]
  | Corrupt what => message ["vault payload is corrupt: "; what]
  | Truncated => "vault file is truncated"
  | UnsupportedFormat what => message ["unsupported vault format: "; what]
  | ParamsRejected what => message ["vault KDF parameters rejected: "; what]
  | Crypto what => message ["vault cryptography failed: "; what]
  | Rng => "failed to read OS entropy"
  end.

Definition MAGIC : bytes := bs "CCWALLET".
Definition FORMAT_VERSION : N := 1.

(** ** params.rs *)
Record KdfParams := mkKdf { m_kib : N; t_cost : N; parallelism : N }.

#[export] Instance KdfParams_eq_dec : EqDecision KdfParams.
Proof. solve_decision. Defined.

Definition KDF_DEFAULT : KdfParams := mkKdf 262144 3 1.
Definition KDF_FLOOR : KdfParams := mkKdf 65536 3 1.
Definition MIN_M_KIB : N := 8.
Definition MAX_M_KIB : N := 1048576.
Definition MIN_T : N := 1.
Definition MAX_T : N := 16.

Definition kdf_validate (p : KdfParams) : res VaultError unit :=
  if (m_kib p <? MIN_M_KIB) || (MAX_M_KIB <? m_kib p)
  then Err (ParamsRejected "memory cost out of range") else
  if (t_cost p <? MIN_T) || (MAX_T <? t_cost p)
  then Err (ParamsRejected "time cost out of range") else
  if negb (parallelism p =? 1) then Err (ParamsRejected "parallelism must be 1") else
  Ok tt.

Definition weaker_than (p current : KdfParams) : bool :=
  (m_kib p <? m_kib current) || (t_cost p <? t_cost current).

Definition meets_floor (p : KdfParams) : bool := negb (weaker_than p KDF_FLOOR).

(** ** The primitives

    [argon2_params] is [Params::new(..).is_ok()]; [argon2_hash] is [None] where hashing
    fails; [xchacha_encrypt] and [xchacha_decrypt] take the key, the nonce, the associated
    data and the text. *)
Class VaultPrims := {
  argon2_params : KdfParams -> bool;
  argon2_hash : KdfParams -> bytes -> bytes -> option bytes32;
  xchacha_encrypt : bytes32 -> bytes -> bytes -> bytes -> option bytes;
  xchacha_decrypt : bytes32 -> bytes -> bytes -> bytes -> option bytes;
  blake3_derive_key : bytes -> bytes32 -> bytes32
}.

Definition NONCE_LEN : nat := 24.
Definition TAG_LEN : nat := 16.

(** What the cipher's documentation promises: a ciphertext is as long as its text and a
    tag, decrypts under the same key, nonce and data, and nothing shorter than a tag
    decrypts. *)
Class VaultPrimsLaws `{VaultPrims} : Prop := {
  xchacha_roundtrip : forall key nonce aad msg ct,
    xchacha_encrypt key nonce aad msg = Some ct -> xchacha_decrypt key nonce aad ct = Some msg;
  xchacha_length : forall key nonce aad msg ct,
    xchacha_decrypt key nonce aad ct = Some msg -> length ct = (length msg + TAG_LEN)%nat
}.

(** ** The entropy of the operating system

    What [getrandom] will still deliver; drawing more than that fails. *)
Definition entropy := bytes.

Definition draw (n : nat) (e : entropy) : res VaultError (bytes * entropy) :=
  if (n <=? length e)%nat then Ok (take n e, drop n e) else Err Rng.

Definition draw32 (e : entropy) : res VaultError (bytes32 * entropy) :=
  let? (raw, e) := draw 32 e in
  let? key := expect (try_into_32 raw) in
  Ok (key, e).

(** [&bytes[a..b]] within bounds, and [bytes.get(a..b)]. *)
Definition slice (l : bytes) (a b : nat) : bytes := take (b - a) (drop a l).
Definition get_range (l : bytes) (a b : nat) : option bytes :=
  if (a <=? b)%nat && (b <=? length l)%nat then Some (slice l a b) else None.

Section keys.
Context `{VaultPrims}.

Definition derive_kek (password salt : bytes) (params : KdfParams) : res VaultError bytes32 :=
  let? _ := kdf_validate params in
  check argon2_params params else ParamsRejected "invalid argon2 params" ;;
  ok_or (argon2_hash params password salt) (Crypto "argon2 hashing failed (out of memory?)").

(** ** aead.rs *)
Definition aead_seal (key : bytes32) (plaintext aad : bytes) (e : entropy)
  : res VaultError (bytes * entropy) :=
  let? (nonce, e) := draw NONCE_LEN e in
  let? ct := ok_or (xchacha_encrypt key nonce aad plaintext) (Crypto "AEAD encryption failed") in
  Ok (nonce ++ ct, e).

Definition aead_open (key : bytes32) (blob aad : bytes) (on_tag_fail : VaultError) : res VaultError bytes :=
  if (length blob <? NONCE_LEN + TAG_LEN)%nat then Err Truncated else
  let nonce := take NONCE_LEN blob in
  let ct := drop NONCE_LEN blob in
  ok_or (xchacha_decrypt key nonce aad ct) on_tag_fail.

(** ** record.rs *)
Definition RECORD_SEAL_OVERHEAD : nat := NONCE_LEN + TAG_LEN.

Definition seal_record (key : bytes32) (aad plaintext : bytes) (e : entropy)
  : res VaultError (bytes * entropy) := aead_seal key plaintext aad e.

Definition open_record (key : bytes32) (aad blob : bytes) : res VaultError bytes :=
  aead_open key blob aad (Corrupt "this record was not written by this wallet").

(** ** keyslot.rs *)
Definition KDF_ID_ARGON2ID : byte := Byte.x01.
Definition AEAD_ID_XCHACHA : byte := Byte.x01.
Definition PREFIX_LEN : nat := 40.
Definition KEYSLOT_LEN : nat := PREFIX_LEN + NONCE_LEN + 32 + TAG_LEN.

Definition encode_prefix (params : KdfParams) (salt : bytes) : bytes :=
  MAGIC ++ le_bytes 2 FORMAT_VERSION ++ [KDF_ID_ARGON2ID]
  ++ le_bytes 4 (m_kib params) ++ le_bytes 4 (t_cost params) ++ le_bytes 4 (parallelism params)
  ++ salt ++ [AEAD_ID_XCHACHA].

Definition keyslot_build (password : bytes) (params : KdfParams) (salt : bytes) (dek : bytes32)
    (e : entropy) : res VaultError (bytes * entropy) :=
  let prefix := encode_prefix params salt in
  let? kek := derive_kek password salt params in
  let? (wrap, e) := aead_seal kek (as_bytes dek) prefix e in
  Ok (prefix ++ wrap, e).

Record Opened := mkOpened { op_params : KdfParams; op_dek : bytes32 }.

(** Past the length check every index and slice of the prefix is in bounds. *)
Definition validate_header (input : bytes) : res VaultError KdfParams :=
  if (length input <? KEYSLOT_LEN)%nat then Err Truncated else
  if negb (bool_decide (slice input 0 8 = MAGIC))
  then Err (UnsupportedFormat "not a cc-wallet vault") else
  let version := of_le (slice input 8 10) in
  if negb (version =? FORMAT_VERSION) then
    Err (UnsupportedFormat
      (if version <? FORMAT_VERSION
       then "vault was created by an older version of CC Wallet"
       else "vault was created by a newer version of CC Wallet"))
  else
  if negb (bool_decide (slice input 10 11 = [KDF_ID_ARGON2ID]))
  then Err (UnsupportedFormat "unknown KDF id") else
  let params := mkKdf (of_le (slice input 11 15)) (of_le (slice input 15 19)) (of_le (slice input 19 23)) in
  let? _ := kdf_validate params in
  if negb (bool_decide (slice input 39 40 = [AEAD_ID_XCHACHA]))
  then Err (UnsupportedFormat "unknown AEAD id") else
  Ok params.

(** [copy_from_slice] panics on another length than 32. *)
Definition keyslot_open (input password : bytes) : res VaultError Opened :=
  let? params := validate_header input in
  let salt := slice input 23 39 in
  let prefix := slice input 0 PREFIX_LEN in
  let wrap := slice input PREFIX_LEN KEYSLOT_LEN in
  let? kek := derive_kek password salt params in
  let? dek_bytes := aead_open kek wrap prefix WrongPassword in
  let? dek := expect (try_into_32 dek_bytes) in
  Ok (mkOpened params dek).
End keys.

(** ** Slices *)
Lemma slice_app a b c i j :
  length a = i -> (i + length b = j)%nat -> slice (a ++ b ++ c) i j = b.
Proof.
  intros <- <-. unfold slice. rewrite drop_app_length.
  replace (length a + length b - length a)%nat with (length b) by lia. apply take_app_length.
Qed.

Lemma get_range_app a b c i j :
  length a = i -> (i + length b = j)%nat -> get_range (a ++ b ++ c) i j = Some b.
Proof.
  intros Ha Hb. unfold get_range. rewrite (slice_app a b c i j) by done.
  rewrite (proj2 (Nat.leb_le i j)) by lia. rewrite (proj2 (Nat.leb_le _ _)); [done|].
  rewrite !length_app. lia.
Qed.

Lemma length_slice l i j : (i <= j)%nat -> (j <= length l)%nat -> length (slice l i j) = (j - i)%nat.
Proof. intros Hi Hj. unfold slice. rewrite length_take, length_drop. lia. Qed.

Lemma slice_slice l a b i j :
  (a + j <= b)%nat -> slice (slice l a b) i j = slice l (a + i) (a + j).
Proof.
  intros Hb. unfold slice. rewrite skipn_firstn_comm, take_take, drop_drop.
  f_equal; lia.
Qed.

Lemma slice_concat l i j k : (i <= j)%nat -> (j <= k)%nat -> slice l i k = slice l i j ++ slice l j k.
Proof.
  intros Hij Hjk. unfold slice. rewrite <- (take_drop (j - i) (take (k - i) (drop i l))).
  rewrite take_take, Nat.min_l by lia. f_equal.
  rewrite skipn_firstn_comm, drop_drop. f_equal; try lia. f_equal; lia.
Qed.

(** ** Key derivation limits *)
Lemma kdf_validate_Ok p :
  kdf_validate p = Ok tt <->
  MIN_M_KIB <= m_kib p <= MAX_M_KIB /\ MIN_T <= t_cost p <= MAX_T /\ parallelism p = 1.
Proof.
  unfold kdf_validate.
  destruct (N.ltb_spec (m_kib p) MIN_M_KIB), (N.ltb_spec MAX_M_KIB (m_kib p)); cbn [orb];
    try (split; [done|lia]).
  destruct (N.ltb_spec (t_cost p) MIN_T), (N.ltb_spec MAX_T (t_cost p)); cbn [orb];
    try (split; [done|lia]).
  destruct (N.eqb_spec (parallelism p) 1); cbn [negb]; split; try done; lia.
Qed.

Lemma kdf_validate_unit p u : kdf_validate p = Ok u -> kdf_validate p = Ok tt.
Proof. by destruct u. Qed.

Lemma le_bytes_of_le l : le_bytes (length l) (of_le l) = l.
Proof. unfold le_bytes, of_le. by rewrite <- (length_rev l), be_bytes_of_be, rev_involutive. Qed.

Lemma of_le_le_bytes_small k n : n < 256 ^ N.of_nat k -> of_le (le_bytes k n) = n.
Proof. apply of_le_le_bytes. Qed.

(** The costs of accepted parameters fit their fields. *)
Lemma kdf_fields_fit p :
  kdf_validate p = Ok tt ->
  m_kib p < 256 ^ N.of_nat 4 /\ t_cost p < 256 ^ N.of_nat 4 /\ parallelism p < 256 ^ N.of_nat 4.
Proof.
  intros (Hm & Ht & Hp)%kdf_validate_Ok. change (256 ^ N.of_nat 4) with 4294967296.
  unfold MAX_M_KIB, MAX_T in *. lia.
Qed.

(** ** The prefix of a keyslot *)
Section prefix.
Context (params : KdfParams) (salt tail : bytes) (Hsalt : length salt = 16%nat).

Lemma length_encode_prefix : length (encode_prefix params salt) = PREFIX_LEN.
Proof using Hsalt. unfold encode_prefix. rewrite !length_app, !length_le_bytes, Hsalt. done. Qed.

(** A field of the prefix, by the lengths before it. *)
Lemma prefix_slice a b c i j :
  encode_prefix params salt = a ++ b ++ c -> length a = i -> (i + length b = j)%nat ->
  slice (encode_prefix params salt ++ tail) i j = b.
Proof. intros -> Ha Hb. rewrite <- !app_assoc. by apply slice_app. Qed.

Lemma validate_header_prefix :
  (KEYSLOT_LEN <= PREFIX_LEN + length tail)%nat -> kdf_validate params = Ok tt ->
  validate_header (encode_prefix params salt ++ tail) = Ok params
  /\ slice (encode_prefix params salt ++ tail) 23 39 = salt.
Proof using Hsalt.
  intros Hl Hv. destruct (kdf_fields_fit _ Hv) as (Hm & Ht & Hp). unfold validate_header.
  rewrite length_app, length_encode_prefix.
  destruct (Nat.ltb_spec (PREFIX_LEN + length tail) KEYSLOT_LEN) as [|_]; [lia|].
  set (m := le_bytes 4 (m_kib params)). set (t := le_bytes 4 (t_cost params)).
  set (p := le_bytes 4 (parallelism params)). set (v := le_bytes 2 FORMAT_VERSION).
  assert (Lm : length m = 4%nat) by apply length_le_bytes.
  assert (Lt : length t = 4%nat) by apply length_le_bytes.
  assert (Lp : length p = 4%nat) by apply length_le_bytes.
  assert (Lv : length v = 2%nat) by apply length_le_bytes.
  assert (E : encode_prefix params salt
    = MAGIC ++ v ++ [KDF_ID_ARGON2ID] ++ m ++ t ++ p ++ salt ++ [AEAD_ID_XCHACHA]) by done.
  rewrite (prefix_slice [] MAGIC _ 0 8 E) by done.
  rewrite bool_decide_eq_true_2 by done. cbn [negb].
  rewrite (prefix_slice MAGIC v _ 8 10 E) by (rewrite ?Lv; done).
  change (of_le v =? FORMAT_VERSION) with true. cbn [negb].
  rewrite (prefix_slice (MAGIC ++ v) [KDF_ID_ARGON2ID] (m ++ t ++ p ++ salt ++ [AEAD_ID_XCHACHA]) 10 11)
    by (rewrite ?length_app, ?Lv; done).
  rewrite bool_decide_eq_true_2 by done. cbn [negb].
  rewrite (prefix_slice (MAGIC ++ v ++ [KDF_ID_ARGON2ID]) m (t ++ p ++ salt ++ [AEAD_ID_XCHACHA]) 11 15)
    by (rewrite ?length_app, ?Lv, ?Lm; done).
  rewrite (prefix_slice (MAGIC ++ v ++ [KDF_ID_ARGON2ID] ++ m) t (p ++ salt ++ [AEAD_ID_XCHACHA]) 15 19)
    by (rewrite ?length_app, ?Lv, ?Lm, ?Lt; done || by rewrite E, <- !app_assoc).
  rewrite (prefix_slice (MAGIC ++ v ++ [KDF_ID_ARGON2ID] ++ m ++ t) p (salt ++ [AEAD_ID_XCHACHA]) 19 23)
    by (rewrite ?length_app, ?Lv, ?Lm, ?Lt, ?Lp; done || by rewrite E, <- !app_assoc).
  unfold m, t, p. rewrite !of_le_le_bytes by done.
  replace (mkKdf (m_kib params) (t_cost params) (parallelism params)) with params by by destruct params.
  rewrite Hv. cbn [rbind]. fold m t p.
  rewrite (prefix_slice (MAGIC ++ v ++ [KDF_ID_ARGON2ID] ++ m ++ t ++ p ++ salt) [AEAD_ID_XCHACHA] [] 39 40)
    by (rewrite ?length_app, ?Lv, ?Lm, ?Lt, ?Lp, ?Hsalt; done || by rewrite E, <- !app_assoc).
  rewrite bool_decide_eq_true_2 by done. split; [done|].
  apply (prefix_slice (MAGIC ++ v ++ [KDF_ID_ARGON2ID] ++ m ++ t ++ p) salt [AEAD_ID_XCHACHA] 23 39);
    rewrite ?length_app, ?Lv, ?Lm, ?Lt, ?Lp, ?Hsalt; done || by rewrite E, <- !app_assoc.
Qed.
End prefix.

(** What is accepted starts with the prefix of the parameters read. *)
Lemma validate_header_Ok input params :
  validate_header input = Ok params ->
  kdf_validate params = Ok tt /\ (KEYSLOT_LEN <= length input)%nat
  /\ slice input 0 PREFIX_LEN = encode_prefix params (slice input 23 39).
Proof.
  unfold validate_header. destruct (Nat.ltb_spec (length input) KEYSLOT_LEN) as [|Hl]; [done|].
  assert (Hl' : (112 <= length input)%nat) by exact Hl.
  case_bool_decide as Hmagic; [|done]. cbn [negb].
  destruct (N.eqb_spec (of_le (slice input 8 10)) FORMAT_VERSION) as [Hver|]; [|done]. cbn [negb].
  case_bool_decide as Hkdf; [|done]. cbn [negb].
  set (p := mkKdf _ _ _). destruct (kdf_validate p) as [[]| |] eqn:Hv; [|done|done]. cbn [rbind].
  case_bool_decide as Haead; [|done]. cbn [negb]. intros [= <-]. split; [done|]. split; [done|].
  assert (Hle : forall i j, (i <= j)%nat -> (j <= length input)%nat ->
    le_bytes (j - i) (of_le (slice input i j)) = slice input i j).
  { intros i j Hi Hj. rewrite <- (length_slice input i j Hi Hj) at 1. apply le_bytes_of_le. }
  unfold encode_prefix, p. cbn [m_kib t_cost parallelism]. unfold PREFIX_LEN.
  rewrite (slice_concat input 0 8 40), (slice_concat input 8 10 40), (slice_concat input 10 11 40),
    (slice_concat input 11 15 40), (slice_concat input 15 19 40), (slice_concat input 19 23 40),
    (slice_concat input 23 39 40) by lia.
  rewrite Hmagic, Hkdf, Haead, <- Hver.
  pose proof (Hle 8 10 ltac:(lia) ltac:(lia))%nat as H1.
  pose proof (Hle 11 15 ltac:(lia) ltac:(lia))%nat as H2.
  pose proof (Hle 15 19 ltac:(lia) ltac:(lia))%nat as H3.
  pose proof (Hle 19 23 ltac:(lia) ltac:(lia))%nat as H4.
  cbn [Nat.sub] in H1, H2, H3, H4. by rewrite H1, H2, H3, H4.
Qed.

(** ** Sealing and opening *)
Section sealing.
Context `{VaultPrimsLaws}.

Lemma aead_seal_open key pt aad e blob e' on_fail :
  aead_seal key pt aad e = Ok (blob, e') ->
  aead_open key blob aad on_fail = Ok pt /\ length blob = (NONCE_LEN + (length pt + TAG_LEN))%nat.
Proof.
  unfold aead_seal, draw. destruct (Nat.leb_spec NONCE_LEN (length e)) as [Hl|]; [|done]. cbn [rbind].
  destruct (xchacha_encrypt _ _ _ _) as [ct|] eqn:E; [|done]. cbn [ok_or rbind]. intros [= <- <-].
  apply xchacha_roundtrip in E as Hd. apply xchacha_length in Hd as Hlen.
  assert (Hn : length (take NONCE_LEN e) = NONCE_LEN) by by apply length_take_le.
  assert (Hb : length (take NONCE_LEN e ++ ct) = (NONCE_LEN + (length pt + TAG_LEN))%nat).
  { by rewrite length_app, Hn, Hlen. }
  split; [|done]. unfold aead_open. rewrite Hb.
  destruct (Nat.ltb_spec (NONCE_LEN + (length pt + TAG_LEN)) (NONCE_LEN + TAG_LEN)); [lia|].
  rewrite (take_app_length' _ _ NONCE_LEN), (drop_app_length' _ _ NONCE_LEN) by done. by rewrite Hd.
Qed.

Lemma keyslot_build_Ok password params salt dek e ks e' :
  keyslot_build password params salt dek e = Ok (ks, e') ->
  exists kek wrap, derive_kek password salt params = Ok kek
    /\ aead_seal kek (as_bytes dek) (encode_prefix params salt) e = Ok (wrap, e')
    /\ ks = encode_prefix params salt ++ wrap.
Proof.
  unfold keyslot_build. intros Hb. apply rbind_Ok in Hb as (kek & Hk & Hb).
  apply rbind_Ok in Hb as ([wrap e2] & Hw & Hb). exists kek, wrap. split; [done|]. split; congruence.
Qed.

Lemma keyslot_build_length password params salt dek e ks e' :
  length salt = 16%nat -> keyslot_build password params salt dek e = Ok (ks, e') ->
  length ks = KEYSLOT_LEN.
Proof.
  intros Hs (kek & wrap & _ & Hw & ->)%keyslot_build_Ok.
  apply (aead_seal_open _ _ _ _ _ _ Rng) in Hw as [_ Hl].
  rewrite length_app, length_encode_prefix by done. rewrite Hl, length_as_bytes. done.
Qed.

(** A keyslot opens with the password it was built with, wherever it heads a file. *)
Lemma keyslot_open_build password params salt dek e ks e' rest :
  length salt = 16%nat -> keyslot_build password params salt dek e = Ok (ks, e') ->
  validate_header (ks ++ rest) = Ok params
  /\ keyslot_open (ks ++ rest) password = Ok (mkOpened params dek).
Proof.
  intros Hs Hb. pose proof (keyslot_build_length _ _ _ _ _ _ _ Hs Hb) as Hlen.
  apply keyslot_build_Ok in Hb as (kek & wrap & Hkek & Hw & ->).
  assert (Hv : kdf_validate params = Ok tt).
  { unfold derive_kek in Hkek. apply rbind_Ok in Hkek as (u & Hu & _). by apply kdf_validate_unit in Hu. }
  pose proof (length_encode_prefix params salt Hs) as Hp.
  apply (aead_seal_open _ _ _ _ _ _ WrongPassword) in Hw as [Ho Hw].
  rewrite length_as_bytes in Hw. rewrite <- app_assoc.
  destruct (validate_header_prefix params salt (wrap ++ rest) Hs) as [Hh Hsalt]; [|done|].
  { rewrite length_app, Hw. unfold KEYSLOT_LEN, NONCE_LEN, TAG_LEN, PREFIX_LEN. lia. }
  split; [done|]. unfold keyslot_open. rewrite Hh. cbn [rbind]. rewrite Hsalt, Hkek. cbn [rbind].
  pose proof (slice_app [] (encode_prefix params salt) (wrap ++ rest) 0 PREFIX_LEN eq_refl Hp) as E.
  cbn [app] in E. rewrite E.
  rewrite (slice_app (encode_prefix params salt) wrap rest PREFIX_LEN KEYSLOT_LEN) by (done || by rewrite Hw).
  rewrite Ho. cbn [rbind]. by rewrite (proj2 (try_into_32_Some _ dek) eq_refl).
Qed.

Lemma keyslot_open_no_panic input password : keyslot_open input password <> Panic.
Proof.
  unfold keyslot_open. destruct (validate_header input) as [p|er|] eqn:Hh; cbn [rbind]; [|done|].
  - apply validate_header_Ok in Hh as (_ & Hl & _).
    destruct (derive_kek _ _ _) as [k|er|] eqn:Hk; cbn [rbind]; [|done|].
    + destruct (aead_open k _ _ _) as [d|er|] eqn:Hd; cbn [rbind]; [|done|].
      * unfold aead_open in Hd. destruct (_ <? _)%nat eqn:Hlt; [done|]. apply ok_or_Ok in Hd.
        apply xchacha_length in Hd. rewrite length_drop, length_slice in Hd by (done || unfold KEYSLOT_LEN; lia).
        assert (length d = 32%nat) as H32.
        { unfold KEYSLOT_LEN, NONCE_LEN, TAG_LEN, PREFIX_LEN in Hd. lia. }
        apply try_into_32_is_Some in H32 as [x Hx]. by rewrite Hx.
      * exfalso. revert Hd. unfold aead_open. destruct (_ <? _)%nat; [done|]. by destruct (xchacha_decrypt _ _ _ _).
    + exfalso. revert Hk. unfold derive_kek. destruct (kdf_validate p) as [[]| |] eqn:Hv; cbn; try done.
      * destruct (argon2_params p); [|done]. by destruct (argon2_hash _ _ _).
      * intros _. revert Hv. unfold kdf_validate. by repeat case_match.
  - exfalso. revert Hh. unfold validate_header. destruct (_ <? _)%nat; [done|].
    do 3 (destruct (negb _); [done|]). set (p := mkKdf _ _ _).
    destruct (kdf_validate p) as [[]| |] eqn:Hv; cbn; try done; [by destruct (negb _)|].
    intros _. revert Hv. unfold kdf_validate. by repeat case_match.
Qed.
End sealing.
