(* ===== verification/Vault.v ===== *)
(** * The vault container (crates/cc-wallet-vault/src/vault.rs)

    One file: the keyslot, a public header (display name, save id, save counter), a
    manifest, and one sealed body per section, each authenticated with everything before
    the bodies. *)

From Stdlib Require Import NArith Lia.
From S2P Require Import Prelude Ord Bytes Text Decimal VaultKeys.

Inductive Purpose := PWallet | PActivity | PJournal.

#[export] Instance Purpose_eq_dec : EqDecision Purpose.
Proof. solve_decision. Defined.

Definition purpose_id (p : Purpose) : byte :=
  match p with PWallet => Byte.x01 | PActivity => Byte.x02 | PJournal => Byte.x03 end.

Definition from_id (id : byte) : option Purpose :=
  if u8 id =? 1 then Some PWallet
  else if u8 id =? 2 then Some PActivity
  else if u8 id =? 3 then Some PJournal
  else None.

Definition context (p : Purpose) : bytes :=
  match p with
  | PWallet => bs "cc-wallet vault v1 2026 · wallet"
  | PActivity => bs "cc-wallet vault v1 2026 · activity"
  | PJournal => bs "cc-wallet vault v1 2026 · journal"
  end.

Definition MAX_SECTIONS : nat := 8.
Definition DIR_ENTRY_LEN : nat := 5.
Definition MAX_HEADER_PROBE_LEN : nat := 4096.
Definition MAX_DISPLAY_NAME_BYTES : nat := 192.
Definition DISPLAY_NAME_LEN_BYTES : nat := 2.
Definition DEFAULT_DISPLAY_NAME : bytes := bs "wallet".
Definition SAVE_ID_LEN : nat := 16.
Definition COUNTER_LEN : nat := 8.
Definition DISPLAY_NAME_LEN_OFFSET : nat := KEYSLOT_LEN.
Definition DISPLAY_NAME_OFFSET : nat := DISPLAY_NAME_LEN_OFFSET + DISPLAY_NAME_LEN_BYTES.

(** [usize::checked_add] on an offset. *)
Definition offset_add (a : nat) (n : N) : option nat :=
  if N.of_nat a + n <=? u64_max then Some (a + N.to_nat n)%nat else None.

Definition section_frame_len (payload_len : nat) : res VaultError N :=
  let n := N.of_nat NONCE_LEN + N.of_nat payload_len + N.of_nat TAG_LEN in
  if n <=? u32_max then Ok n else Err (Corrupt "section body length exceeds u32").

Record PublicHeader := mkHeader {
  h_display_name : bytes;
  h_display_header : bytes;
  h_save_id : bytes;
  h_counter : N;
  h_manifest_offset : nat
}.

Inductive ActivitySection := ActAbsent | ActPresent (payload : bytes) | ActCorrupt.

Record VaultKeyslot := mkSlot { sl_dek : bytes32; sl_params : KdfParams; sl_keyslot : bytes }.

Record Vault := mkVault {
  v_params : KdfParams;
  v_dek : bytes32;
  v_keyslot : bytes;
  v_display_name : bytes
}.

Record OpenedContainer := mkContainer {
  oc_vault : Vault;
  oc_wallet : bytes;
  oc_journal : bytes;
  oc_activity : ActivitySection;
  oc_save_counter : N;
  oc_has_unknown_sections : bool
}.

Definition validate_display_name (name : bytes) : res string unit :=
  if bool_decide (trim name = []) then Err "name must not be empty or whitespace-only" else
  if (MAX_DISPLAY_NAME_BYTES <? length name)%nat then Err "UTF-8 name is too long" else
  if has_control name then Err "name must not contain control characters" else
  Ok tt.

(** The assertion of debug builds, and the [expect] of the conversion to [u16]. *)
Definition encode_display_header (name : bytes) : res VaultError bytes :=
  if is_ok (validate_display_name name) && (N.of_nat (length name) <=? u16_max)
  then Ok (le_bytes 2 (N.of_nat (length name)) ++ name)
  else Panic.

(** The numbers of wallet, journal and activity sections. *)
Fixpoint count_sections (ids : list byte) (wallet journal activity : N) : res VaultError (N * N * N) :=
  match ids with
  | [] => Ok (wallet, journal, activity)
  | id :: ids' =>
      match from_id id with
      | Some PWallet => count_sections ids' (wallet + 1) journal activity
      | Some PJournal => count_sections ids' wallet (journal + 1) activity
      | Some PActivity => count_sections ids' wallet journal (activity + 1)
      | None => Err (Corrupt "unknown section purpose")
      end
  end.

Definition check_cardinality (ids : list byte) : res VaultError unit :=
  let? (wallet, journal, activity) := count_sections ids 0 0 0 in
  if negb (wallet =? 1) then Err (Corrupt "container must have exactly one wallet section") else
  if negb (journal =? 1) then Err (Corrupt "container must have exactly one journal section") else
  if 1 <? activity then Err (Corrupt "container has more than one activity section") else
  Ok tt.

(** ** Reading the header and the manifest *)
Definition parse_public_header (input : bytes) : res VaultError PublicHeader :=
  let? _ := validate_header input in
  let? raw_len := ok_or (get_range input DISPLAY_NAME_LEN_OFFSET DISPLAY_NAME_OFFSET) Truncated in
  let display_name_len := of_le raw_len in
  if N.of_nat MAX_DISPLAY_NAME_BYTES <? display_name_len then Err (Corrupt "display name is too long") else
  let? display_name_end :=
    ok_or (offset_add DISPLAY_NAME_OFFSET display_name_len) (Corrupt "display name length overflow") in
  let? display_name := ok_or (get_range input DISPLAY_NAME_OFFSET display_name_end) Truncated in
  if negb (utf8_valid display_name) then Err (Corrupt "display name is not valid UTF-8") else
  let? _ := map_err (fun _ => Corrupt "display name is invalid") (validate_display_name display_name) in
  let save_id_offset := display_name_end in
  let? counter_offset :=
    ok_or (offset_add save_id_offset (N.of_nat SAVE_ID_LEN)) (Corrupt "header offset overflow") in
  let? manifest_offset :=
    ok_or (offset_add counter_offset (N.of_nat COUNTER_LEN)) (Corrupt "header offset overflow") in
  let? save_id := ok_or (get_range input save_id_offset counter_offset) Truncated in
  let? raw_counter := ok_or (get_range input counter_offset manifest_offset) Truncated in
  let counter := of_le raw_counter in
  let? display_header := ok_or (get_range input DISPLAY_NAME_LEN_OFFSET display_name_end) Truncated in
  Ok (mkHeader display_name display_header save_id counter manifest_offset).

(** The entries after the count byte; the range has room for [count] of them. *)
Fixpoint read_entries (count : nat) (rest : bytes) : res VaultError (list (byte * N)) :=
  match count with
  | O => Ok []
  | S count' =>
      match take DIR_ENTRY_LEN rest with
      | id :: raw_len =>
          match from_id id with
          | None => Err (Corrupt "unknown section purpose")
          | Some _ =>
              let len := of_le raw_len in
              let? entries := read_entries count' (drop DIR_ENTRY_LEN rest) in
              Ok ((id, len) :: entries)
          end
      | [] => Panic
      end
  end.

Definition decode_manifest_directory (input : bytes) (manifest_offset : nat)
  : res VaultError (nat * list (byte * N)) :=
  match input !! manifest_offset with
  | None => Err Truncated
  | Some b =>
      let count := N.to_nat (u8 b) in
      if (MAX_SECTIONS <? count)%nat then Err (Corrupt "section count too large") else
      let? manifest_end :=
        ok_or (offset_add manifest_offset (N.of_nat (1 + count * DIR_ENTRY_LEN)))
          (Corrupt "manifest length overflow") in
      let? manifest := ok_or (get_range input manifest_offset manifest_end) Truncated in
      let? entries := read_entries count (drop 1 manifest) in
      Ok (manifest_end, entries)
  end.

(** The bodies of the entries from [body_off] on, and where they end. *)
Fixpoint take_bodies (input : bytes) (body_off : nat) (entries : list (byte * N))
  : res VaultError (list (byte * bytes) * nat) :=
  match entries with
  | [] => Ok ([], body_off)
  | (pid, len) :: entries' =>
      let? stop := ok_or (offset_add body_off len) (Corrupt "section length overflow") in
      let? body := ok_or (get_range input body_off stop) (Corrupt "section extent past end") in
      let? (sections, last) := take_bodies input stop entries' in
      Ok ((pid, body) :: sections, last)
  end.

Definition parse_manifest (input : bytes) (manifest_offset : nat)
  : res VaultError (bytes * list (byte * bytes)) :=
  let? (manifest_end, entries) := decode_manifest_directory input manifest_offset in
  let manifest := slice input manifest_offset manifest_end in
  let? (sections, body_off) := take_bodies input manifest_end entries in
  if negb (body_off =? length input)%nat then Err (Corrupt "trailing bytes after last section")
  else Ok (manifest, sections).

Definition read_display_name (input : bytes) : res VaultError bytes :=
  let? header := parse_public_header input in Ok (h_display_name header).

Definition read_save_counter (input : bytes) : res VaultError N :=
  let? header := parse_public_header input in Ok (h_counter header).

Definition looks_like_container (input : bytes) : bool :=
  match parse_public_header input with
  | Ok header =>
      match parse_manifest input (h_manifest_offset header) with
      | Ok (_, sections) => is_ok (check_cardinality (fst <$> sections))
      | _ => false
      end
  | _ => false
  end.

Definition keyslot_prefix (input : bytes) : option bytes := get_range input 0 KEYSLOT_LEN.

Definition container_declared_len (prefix : bytes) : option N :=
  match parse_public_header prefix with
  | Ok header =>
      match decode_manifest_directory prefix (h_manifest_offset header) with
      | Ok (manifest_end, entries) =>
          if is_ok (check_cardinality (fst <$> entries)) then
            fold_left
              (fun total entry => match total with
                                  | Some t => checked_add u64_max t (snd entry)
                                  | None => None
                                  end)
              entries (Some (N.of_nat manifest_end))
          else None
      | _ => None
      end
  | _ => None
  end.

(** ** Sealing and opening *)
Section vault.
Context `{VaultPrims}.

Definition create_named_with (password : bytes) (params : KdfParams) (display_name : bytes) (e : entropy)
  : res VaultError (Vault * entropy) :=
  let? _ := map_err InvalidDisplayName (validate_display_name display_name) in
  let? (salt, e) := draw 16 e in
  let? (dek, e) := draw32 e in
  let? (keyslot, e) := keyslot_build password params salt dek e in
  Ok (mkVault params dek keyslot display_name, e).

Definition create_with (password : bytes) (params : KdfParams) (e : entropy)
  : res VaultError (Vault * entropy) :=
  create_named_with password params DEFAULT_DISPLAY_NAME e.

Definition vault_create (password : bytes) (e : entropy) : res VaultError (Vault * entropy) :=
  create_named_with password KDF_DEFAULT DEFAULT_DISPLAY_NAME e.

Definition stream_key (v : Vault) (p : Purpose) : bytes32 := blake3_derive_key (context p) (v_dek v).

Definition section_aad (v : Vault) (p : Purpose) (display_header save_id : bytes) (counter : N)
    (manifest : bytes) : bytes :=
  v_keyslot v ++ display_header ++ save_id ++ le_bytes 8 counter ++ manifest ++ [purpose_id p].

Definition open_body (v : Vault) (p : Purpose) (header : PublicHeader) (manifest body : bytes)
    (on_fail : VaultError) : res VaultError bytes :=
  aead_open (stream_key v p) body
    (section_aad v p (h_display_header header) (h_save_id header) (h_counter header) manifest) on_fail.

Fixpoint manifest_entries (sections : list (Purpose * bytes)) : res VaultError bytes :=
  match sections with
  | [] => Ok []
  | (p, payload) :: sections' =>
      let? body_len := section_frame_len (length payload) in
      let? rest := manifest_entries sections' in
      Ok (purpose_id p :: le_bytes 4 body_len ++ rest)
  end.

Fixpoint seal_bodies (v : Vault) (display_header save_id : bytes) (counter : N) (manifest : bytes)
    (sections : list (Purpose * bytes)) (e : entropy) : res VaultError (bytes * entropy) :=
  match sections with
  | [] => Ok ([], e)
  | (p, payload) :: sections' =>
      let? (body, e) := aead_seal (stream_key v p) payload
        (section_aad v p display_header save_id counter manifest) e in
      let? (bodies, e) := seal_bodies v display_header save_id counter manifest sections' e in
      Ok (body ++ bodies, e)
  end.

Definition seal_container (v : Vault) (counter : N) (sections : list (Purpose * bytes)) (e : entropy)
  : res VaultError (bytes * entropy) :=
  let? _ := check_cardinality ((fun s => purpose_id (fst s)) <$> sections) in
  let? display_header := encode_display_header (v_display_name v) in
  let? (save_id, e) := draw SAVE_ID_LEN e in
  let? entries := manifest_entries sections in
  let manifest := byte_of (N.of_nat (length sections)) :: entries in
  let? (bodies, e) := seal_bodies v display_header save_id counter manifest sections e in
  Ok (v_keyslot v ++ display_header ++ save_id ++ le_bytes 8 counter ++ manifest ++ bodies, e).

Definition open_keyslot (input password : bytes) : res VaultError VaultKeyslot :=
  let? _ := parse_public_header input in
  let? opened := keyslot_open input password in
  Ok (mkSlot (op_dek opened) (op_params opened) (slice input 0 KEYSLOT_LEN)).

(** The loop over the sections; an activity section that does not open is reported, not
    fatal. *)
Fixpoint open_sections (v : Vault) (header : PublicHeader) (manifest : bytes)
    (sections : list (byte * bytes)) (wallet journal : option bytes) (activity : ActivitySection)
  : res VaultError (option bytes * option bytes * ActivitySection) :=
  match sections with
  | [] => Ok (wallet, journal, activity)
  | (pid, body) :: sections' =>
      match from_id pid with
      | Some PWallet =>
          let? pt := open_body v PWallet header manifest body (Corrupt "wallet payload") in
          open_sections v header manifest sections' (Some pt) journal activity
      | Some PJournal =>
          let? pt := open_body v PJournal header manifest body (Corrupt "journal payload") in
          open_sections v header manifest sections' wallet (Some pt) activity
      | Some PActivity =>
          match open_body v PActivity header manifest body (Corrupt "activity payload") with
          | Ok pt => open_sections v header manifest sections' wallet journal (ActPresent pt)
          | Err _ => open_sections v header manifest sections' wallet journal ActCorrupt
          | Panic => Panic
          end
      | None => Panic
      end
  end.

Definition open_container_with (input : bytes) (slot : VaultKeyslot) : res VaultError OpenedContainer :=
  let? header := parse_public_header input in
  if (length input <? KEYSLOT_LEN)%nat
     || negb (bool_decide (slice input 0 KEYSLOT_LEN = sl_keyslot slot))
  then Err WrongPassword else
  let? (manifest, sections) := parse_manifest input (h_manifest_offset header) in
  let? _ := check_cardinality (fst <$> sections) in
  let v := mkVault (sl_params slot) (sl_dek slot) (sl_keyslot slot) (h_display_name header) in
  let? (wallet, journal, activity) := open_sections v header manifest sections None None ActAbsent in
  let? wallet := ok_or wallet (Corrupt "missing wallet section") in
  let? journal := ok_or journal (Corrupt "missing journal section") in
  Ok (mkContainer v wallet journal activity (h_counter header) false).

Definition open_container (input password : bytes) : res VaultError OpenedContainer :=
  let? slot := open_keyslot input password in
  open_container_with input slot.

(** The first section of the purpose, opened. *)
Fixpoint find_section (v : Vault) (p : Purpose) (header : PublicHeader) (manifest : bytes)
    (sections : list (byte * bytes)) : res VaultError (option bytes) :=
  match sections with
  | [] => Ok None
  | (pid, body) :: sections' =>
      if bool_decide (pid = purpose_id p) then
        rmap Some (open_body v p header manifest body (Corrupt "section payload"))
      else find_section v p header manifest sections'
  end.

Definition read_section (v : Vault) (p : Purpose) (input : bytes) : res VaultError (option bytes) :=
  let? header := parse_public_header input in
  let? (manifest, sections) := parse_manifest input (h_manifest_offset header) in
  find_section v p header manifest sections.

Definition verify_password (v : Vault) (password : bytes) : bool :=
  is_ok (keyslot_open (v_keyslot v) password).
End vault.

(** ** Reading what was written *)
Lemma get_range_at f a b c i j :
  f = a ++ b ++ c -> length a = i -> (i + length b = j)%nat -> get_range f i j = Some b.
Proof. intros ->. apply get_range_app. Qed.

Lemma get_range_Some f i j l :
  get_range f i j = Some l -> (i <= j)%nat /\ (j <= length f)%nat /\ l = slice f i j.
Proof.
  unfold get_range. destruct (Nat.leb_spec i j); [|done]. destruct (Nat.leb_spec j (length f)); [|done].
  cbn [andb]. by intros [= <-].
Qed.

Lemma offset_add_Some a n b : offset_add a n = Some b -> b = (a + N.to_nat n)%nat.
Proof. unfold offset_add. destruct (_ <=? _); [|done]. by intros [= <-]. Qed.

Lemma offset_add_fits a n : N.of_nat a + n <= u64_max -> offset_add a n = Some (a + N.to_nat n)%nat.
Proof. intros Hn. unfold offset_add. by rewrite (proj2 (N.leb_le _ _)). Qed.

Lemma offset_add_nat a b : (a + b <= 1000)%nat -> offset_add a (N.of_nat b) = Some (a + b)%nat.
Proof. intros Hn. rewrite offset_add_fits, Nat2N.id; [done|]. unfold u64_max. lia. Qed.

Lemma validate_display_name_Ok name :
  validate_display_name name = Ok tt <->
  trim name <> [] /\ (length name <= MAX_DISPLAY_NAME_BYTES)%nat /\ has_control name = false.
Proof.
  unfold validate_display_name. case_bool_decide as Ht; [naive_solver|].
  destruct (Nat.ltb_spec MAX_DISPLAY_NAME_BYTES (length name)); [split; [done|lia]|].
  destruct (has_control name); naive_solver.
Qed.

Lemma purpose_id_inj p q : purpose_id p = purpose_id q -> p = q.
Proof. by destruct p, q. Qed.

Lemma from_id_purpose p : from_id (purpose_id p) = Some p.
Proof. by destruct p. Qed.

Lemma from_id_Some id p : from_id id = Some p -> id = purpose_id p.
Proof.
  unfold from_id. destruct (N.eqb_spec (u8 id) 1) as [E|]; [|destruct (N.eqb_spec (u8 id) 2) as [E|];
    [|destruct (N.eqb_spec (u8 id) 3) as [E|]; [|done]]]; intros [= <-]; by apply u8_inj.
Qed.

(** The bytes before the manifest. *)
Definition file_header (keyslot name save_id : bytes) (counter : N) : bytes :=
  keyslot ++ (le_bytes 2 (N.of_nat (length name)) ++ name) ++ save_id ++ le_bytes 8 counter.

Definition header_len (name : bytes) : nat :=
  (DISPLAY_NAME_OFFSET + length name + SAVE_ID_LEN + COUNTER_LEN)%nat.

Section reading.
Context (keyslot name save_id : bytes) (counter : N) (params : KdfParams).
Context (Hks : length keyslot = KEYSLOT_LEN) (Hsid : length save_id = SAVE_ID_LEN)
  (Hctr : counter <= u64_max) (Hutf : utf8_valid name = true)
  (Hname : validate_display_name name = Ok tt)
  (Hhead : forall rest, validate_header (keyslot ++ rest) = Ok params).

Let dh := le_bytes 2 (N.of_nat (length name)) ++ name.

Lemma length_file_header : length (file_header keyslot name save_id counter) = header_len name.
Proof using Hks Hsid Hctr.
  unfold file_header, header_len, DISPLAY_NAME_OFFSET, DISPLAY_NAME_LEN_OFFSET.
  rewrite !length_app, !length_le_bytes, Hks, Hsid. unfold COUNTER_LEN, DISPLAY_NAME_LEN_BYTES. lia.
Qed.

Lemma parse_public_header_file tail :
  parse_public_header (file_header keyslot name save_id counter ++ tail)
  = Ok (mkHeader name dh save_id counter (header_len name)).
Proof using All.
  pose proof Hname as (_ & Hl & _)%validate_display_name_Ok.
  assert (Hl2 : N.of_nat (length name) < 256 ^ N.of_nat 2).
  { change (256 ^ N.of_nat 2) with 65536. unfold MAX_DISPLAY_NAME_BYTES in Hl. lia. }
  set (n2 := le_bytes 2 (N.of_nat (length name))) in *.
  assert (Ln2 : length n2 = 2%nat) by apply length_le_bytes.
  assert (Lc : length (le_bytes 8 counter) = COUNTER_LEN) by apply length_le_bytes.
  assert (E : file_header keyslot name save_id counter ++ tail
    = keyslot ++ n2 ++ name ++ save_id ++ le_bytes 8 counter ++ tail).
  { unfold file_header. fold n2. by rewrite <- !app_assoc. }
  unfold parse_public_header. rewrite E, Hhead. cbn [rbind].
  rewrite (get_range_at _ keyslot n2 _ _ _ eq_refl) by (done || by rewrite Ln2). cbn [ok_or rbind].
  unfold n2 at 1 2. rewrite of_le_le_bytes by done.
  rewrite (proj2 (N.ltb_ge _ _)) by lia.
  unfold MAX_DISPLAY_NAME_BYTES in Hl.
  assert (Hd : (DISPLAY_NAME_OFFSET + length name <= 400)%nat).
  { unfold DISPLAY_NAME_OFFSET, DISPLAY_NAME_LEN_OFFSET, KEYSLOT_LEN, PREFIX_LEN, NONCE_LEN,
      TAG_LEN, DISPLAY_NAME_LEN_BYTES. lia. }
  rewrite offset_add_nat by lia. cbn [ok_or rbind].
  rewrite (get_range_at _ (keyslot ++ n2) name (save_id ++ le_bytes 8 counter ++ tail))
    by (by rewrite <- ?app_assoc || by rewrite length_app, Hks, Ln2 || done).
  cbn [ok_or rbind]. rewrite Hutf. cbn [negb]. rewrite Hname. cbn [map_err rbind].
  assert (Hs : (SAVE_ID_LEN + COUNTER_LEN <= 24)%nat) by (by vm_compute).
  rewrite offset_add_nat by lia. cbn [ok_or rbind]. rewrite offset_add_nat by lia. cbn [ok_or rbind].
  assert (Ln : length (keyslot ++ n2 ++ name) = (DISPLAY_NAME_OFFSET + length name)%nat).
  { rewrite !length_app, Hks, Ln2. unfold DISPLAY_NAME_OFFSET, DISPLAY_NAME_LEN_OFFSET, DISPLAY_NAME_LEN_BYTES. lia. }
  rewrite (get_range_at _ (keyslot ++ n2 ++ name) save_id (le_bytes 8 counter ++ tail))
    by (by rewrite <- ?app_assoc || by rewrite ?Ln, ?Hsid).
  cbn [ok_or rbind].
  rewrite (get_range_at _ (keyslot ++ n2 ++ name ++ save_id) (le_bytes 8 counter) tail);
    [|by rewrite <- ?app_assoc| |by rewrite Lc].
  2:{ rewrite !length_app in *. rewrite Hsid. lia. }
  cbn [ok_or rbind]. rewrite of_le_le_bytes by (apply N.le_lt_trans with u64_max; [done|by vm_compute]).
  rewrite (get_range_at _ keyslot (n2 ++ name) (save_id ++ le_bytes 8 counter ++ tail));
    [|by rewrite <- ?app_assoc|done|].
  2:{ rewrite !length_app, Hks in Ln. rewrite length_app. exact Ln. }
  done.
Qed.
End reading.

(** ** The manifest *)
Definition frame_len (payload : bytes) : N :=
  N.of_nat NONCE_LEN + N.of_nat (length payload) + N.of_nat TAG_LEN.

Definition directory (sections : list (Purpose * bytes)) : list (byte * N) :=
  (fun s => (purpose_id (fst s), frame_len (snd s))) <$> sections.

Lemma manifest_entries_Ok sections ents :
  manifest_entries sections = Ok ents ->
  length ents = (length sections * DIR_ENTRY_LEN)%nat
  /\ read_entries (length sections) ents = Ok (directory sections)
  /\ Forall (fun s => frame_len (snd s) <= u32_max) sections.
Proof.
  revert ents. induction sections as [|[p payload] sections IH]; intros ents; cbn [manifest_entries].
  { intros [= <-]. done. }
  intros Hm. apply rbind_Ok in Hm as (len & Hlen & Hm). apply rbind_Ok in Hm as (rest & Hrest & Hm).
  assert (ents = purpose_id p :: le_bytes 4 len ++ rest) as -> by congruence. clear Hm.
  destruct (IH _ Hrest) as (Hl & Hr & Hf).
  unfold section_frame_len in Hlen. fold (frame_len payload) in Hlen.
  destruct (N.leb_spec (frame_len payload) u32_max) as [Hb|]; [|done]. injection Hlen as <-.
  assert (L4 : length (le_bytes 4 (frame_len payload)) = 4%nat) by apply length_le_bytes.
  split; [cbn [length]; rewrite length_app, L4, Hl; unfold DIR_ENTRY_LEN; lia|].
  split; [|by constructor]. cbn [length read_entries]. unfold DIR_ENTRY_LEN at 1 2.
  change (take 5 (purpose_id p :: ?l)) with (purpose_id p :: take 4 l).
  change (drop 5 (purpose_id p :: ?l)) with (drop 4 l).
  rewrite (take_app_length' _ _ 4), (drop_app_length' _ _ 4) by done.
  rewrite from_id_purpose, Hr. cbn [rbind]. unfold directory. rewrite fmap_cons. cbn [fst snd].
  rewrite of_le_le_bytes; [done|]. apply N.le_lt_trans with u32_max; [done|by vm_compute].
Qed.

Definition count_of (p : Purpose) (sections : list (Purpose * bytes)) : N :=
  N.of_nat (length (List.filter (fun s => bool_decide (fst s = p)) sections)).

Lemma count_of_cons p s sections :
  count_of p (s :: sections) = (if bool_decide (fst s = p) then 1 else 0) + count_of p sections.
Proof. unfold count_of. cbn [List.filter]. case_bool_decide; cbn [length]; lia. Qed.

Lemma count_sections_Ok sections : forall w j a,
  count_sections ((fun s => purpose_id (fst s)) <$> sections) w j a
  = Ok (w + count_of PWallet sections, j + count_of PJournal sections, a + count_of PActivity sections).
Proof.
  induction sections as [|[p payload] sections IH]; intros w j a.
  { cbn. unfold count_of. cbn. by rewrite !N.add_0_r. }
  rewrite fmap_cons. cbn [count_sections fst]. rewrite from_id_purpose, !count_of_cons.
  destruct p; rewrite IH; repeat (case_bool_decide; try done);
    match goal with |- Ok (?x, ?y, ?z) = Ok (?x', ?y', ?z') =>
      replace x' with x by lia; replace y' with y by lia; replace z' with z by lia end; done.
Qed.

Lemma length_by_count sections :
  N.of_nat (length sections) = count_of PWallet sections + count_of PJournal sections + count_of PActivity sections.
Proof.
  induction sections as [|[p payload] sections IH]; [done|]. rewrite !count_of_cons. cbn [length fst].
  destruct p; repeat (case_bool_decide; try done); lia.
Qed.

Lemma check_cardinality_Ok sections u :
  check_cardinality ((fun s => purpose_id (fst s)) <$> sections) = Ok u ->
  count_of PWallet sections = 1 /\ count_of PJournal sections = 1 /\ count_of PActivity sections <= 1
  /\ (length sections <= 3)%nat.
Proof.
  unfold check_cardinality. rewrite count_sections_Ok. cbn [rbind]. rewrite !N.add_0_l.
  destruct (N.eqb_spec (count_of PWallet sections) 1); [|done]. cbn [negb].
  destruct (N.eqb_spec (count_of PJournal sections) 1); [|done]. cbn [negb].
  destruct (N.ltb_spec 1 (count_of PActivity sections)); [done|]. intros _.
  pose proof (length_by_count sections). repeat split; try done. lia.
Qed.

Lemma directory_ids sections : fst <$> directory sections = (fun s => purpose_id (fst s)) <$> sections.
Proof. unfold directory. by rewrite <- list_fmap_compose. Qed.

(** The manifest of up to eight sections, wherever it stands in a file. *)
Lemma decode_manifest_file pre sections ents tail :
  manifest_entries sections = Ok ents -> (length sections <= 3)%nat -> (length pre <= 400)%nat ->
  decode_manifest_directory (pre ++ (byte_of (N.of_nat (length sections)) :: ents) ++ tail) (length pre)
  = Ok ((length pre + (1 + length sections * DIR_ENTRY_LEN))%nat, directory sections).
Proof.
  intros Hm Hn Hp. destruct (manifest_entries_Ok _ _ Hm) as (Hl & Hr & _).
  unfold decode_manifest_directory. set (b := byte_of _).
  assert (Hb : N.to_nat (u8 b) = length sections).
  { unfold b. rewrite u8_byte_of, N.mod_small by lia. apply Nat2N.id. }
  rewrite lookup_app_r by done. rewrite Nat.sub_diag. cbn [app lookup list_lookup]. rewrite Hb.
  destruct (Nat.ltb_spec MAX_SECTIONS (length sections)) as [H8|_]; [unfold MAX_SECTIONS in H8; lia|].
  rewrite offset_add_nat by (unfold DIR_ENTRY_LEN; lia). cbn [ok_or rbind].
  change (pre ++ b :: ents ++ tail) with (pre ++ (b :: ents) ++ tail).
  rewrite (get_range_app pre (b :: ents) tail) by (done || cbn [length]; by rewrite Hl).
  cbn [ok_or rbind]. change (drop 1 (b :: ents)) with ents. by rewrite Hr.
Qed.

(** ** The bodies *)
Section bodies.
Context `{VaultPrimsLaws}.
Context (v : Vault) (dh save_id : bytes) (counter : N) (manifest : bytes).

(** A body opens to its payload. *)
Definition opens_to (s : Purpose * bytes) (body : bytes) : Prop :=
  N.of_nat (length body) = frame_len (snd s)
  /\ forall on_fail, aead_open (stream_key v (fst s)) body
       (section_aad v (fst s) dh save_id counter manifest) on_fail = Ok (snd s).

Lemma seal_bodies_Ok sections : forall e out e',
  seal_bodies v dh save_id counter manifest sections e = Ok (out, e') ->
  exists bodies, out = concat bodies /\ Forall2 opens_to sections bodies.
Proof.
  induction sections as [|[p payload] sections IH]; intros e out e'; cbn [seal_bodies].
  { intros [= <- _]. exists []. split; [done|constructor]. }
  intros Hs. apply rbind_Ok in Hs as ([body e1] & Hb & Hs).
  apply rbind_Ok in Hs as ([rest e2] & Hr & Hs). injection Hs as <- <-.
  destruct (IH _ _ _ Hr) as (bodies & -> & Hf). exists (body :: bodies). split; [done|].
  constructor; [|done]. split.
  - apply (aead_seal_open _ _ _ _ _ _ Rng) in Hb as [_ Hl]. cbn [snd]. unfold frame_len. lia.
  - intros on_fail. by apply (aead_seal_open _ _ _ _ _ _ on_fail) in Hb as [? _].
Qed.

Lemma take_bodies_file sections bodies : forall pre,
  Forall2 opens_to sections bodies ->
  N.of_nat (length pre + length (concat bodies)) <= u64_max ->
  take_bodies (pre ++ concat bodies) (length pre) (directory sections)
  = Ok (zip ((fun s => purpose_id (fst s)) <$> sections) bodies, (length pre + length (concat bodies))%nat).
Proof.
  intros pre Hf. revert pre. induction Hf as [|[p payload] body sections bodies [Hl _] _ IH]; intros pre Hb.
  { cbn. by rewrite Nat.add_0_r. }
  cbn [concat] in *. rewrite length_app in *. unfold directory. rewrite fmap_cons. cbn [take_bodies fst snd] in *.
  rewrite <- Hl. rewrite offset_add_fits by lia. rewrite Nat2N.id. cbn [ok_or rbind].
  rewrite (get_range_app pre body (concat bodies)) by done. cbn [ok_or rbind].
  specialize (IH (pre ++ body)). rewrite length_app, <- app_assoc in IH. unfold directory in IH.
  rewrite IH by lia. cbn [rbind]. rewrite fmap_cons. cbn [zip zip_with fst]. do 2 f_equal. lia.
Qed.

(** What the loop leaves: the last payload of each purpose. *)
Definition last_of (p : Purpose) (sections : list (Purpose * bytes)) (start : option bytes) : option bytes :=
  fold_left (fun acc s => if bool_decide (fst s = p) then Some (snd s) else acc) sections start.

Definition last_activity (sections : list (Purpose * bytes)) (start : ActivitySection) : ActivitySection :=
  fold_left (fun acc s => if bool_decide (fst s = PActivity) then ActPresent (snd s) else acc) sections start.

Lemma open_sections_file name offset sections bodies : forall w j a,
  Forall2 opens_to sections bodies ->
  open_sections v (mkHeader name dh save_id counter offset) manifest
    (zip ((fun s => purpose_id (fst s)) <$> sections) bodies) w j a
  = Ok (last_of PWallet sections w, last_of PJournal sections j, last_activity sections a).
Proof.
  intros w j a Hf. revert w j a. induction Hf as [|[p payload] body sections bodies [_ Ho] _ IH]; intros w j a; [done|].
  rewrite fmap_cons. cbn [zip zip_with open_sections fst snd] in *. rewrite from_id_purpose.
  unfold open_body. cbn [h_display_header h_save_id h_counter].
  destruct p; rewrite Ho; cbn [rbind]; apply IH.
Qed.
End bodies.

Lemma last_of_absent p sections start : count_of p sections = 0 -> last_of p sections start = start.
Proof.
  revert start. induction sections as [|s sections IH]; intros start; [done|].
  rewrite count_of_cons. cbn [last_of fold_left]. case_bool_decide; [lia|]. intros Hc. apply IH. lia.
Qed.

Lemma last_of_unique p sections start x :
  count_of p sections = 1 -> (p, x) ∈ sections -> last_of p sections start = Some x.
Proof.
  revert start. induction sections as [|s sections IH]; intros start; [by intros _ ?%elem_of_nil|].
  rewrite count_of_cons. cbn [last_of fold_left]. case_bool_decide as Hs; intros Hc Hin.
  - assert (H0 : count_of p sections = 0) by lia.
    apply elem_of_cons in Hin as [<-|Hin]; [by apply last_of_absent|exfalso].
    clear -H0 Hin. induction sections as [|s' sections IH]; [by apply elem_of_nil in Hin|].
    rewrite count_of_cons in H0. apply elem_of_cons in Hin as [<-|Hin].
    + rewrite bool_decide_eq_true_2 in H0 by done. lia.
    + apply N.eq_add_0 in H0 as [_ H0]. by apply IH.
  - apply elem_of_cons in Hin as [<-|Hin]; [done|]. apply IH; [lia|done].
Qed.

Lemma count_zero p sections x : count_of p sections = 0 -> (p, x) ∉ sections.
Proof.
  induction sections as [|s sections IH]; [intros _; apply not_elem_of_nil|].
  rewrite count_of_cons. intros [Hs Hc]%N.eq_add_0. rewrite not_elem_of_cons. split; [|by apply IH].
  intros <-. by rewrite bool_decide_eq_true_2 in Hs.
Qed.

Lemma last_of_cases p sections start :
  last_of p sections start = start \/ exists x, (p, x) ∈ sections /\ last_of p sections start = Some x.
Proof.
  revert start. induction sections as [|[q y] sections IH]; intros start; [by left|].
  unfold last_of in *. cbn [fold_left fst snd]. case_bool_decide as Hq.
  - subst q. right. destruct (IH (Some y)) as [->|(x & Hx & ->)].
    + exists y. split; [left|done].
    + exists x. split; [by right|done].
  - destruct (IH start) as [->|(x & Hx & ->)]; [by left|right]. exists x. split; [by right|done].
Qed.

Lemma last_of_some p sections start : count_of p sections = 1 -> exists x, last_of p sections start = Some x.
Proof.
  intros Hc. assert (Hin : exists x, (p, x) ∈ sections).
  { clear start. induction sections as [|[q y] sections IH]; [done|].
    rewrite count_of_cons in Hc. cbn [fst] in Hc. case_bool_decide as Hq.
    - subst q. exists y. left.
    - destruct IH as [x Hx]; [lia|]. exists x. by right. }
  destruct Hin as [x Hx]. exists x. by apply last_of_unique.
Qed.

Lemma last_of_elem p sections x : last_of p sections None = Some x -> (p, x) ∈ sections.
Proof. destruct (last_of_cases p sections None) as [->|(y & Hy & ->)]; [done|]. by intros [= <-]. Qed.

Lemma last_activity_of sections start :
  last_activity sections start
  = match last_of PActivity sections None with Some x => ActPresent x | None => start end.
Proof.
  assert (Hgen : forall l o, fold_left (fun acc s => if bool_decide (fst s = PActivity) then ActPresent (snd s) else acc) l
      (match o with Some x => ActPresent x | None => start end)
    = match fold_left (fun acc s => if bool_decide (fst s = PActivity) then Some (snd s) else acc) l o with
      | Some x => ActPresent x | None => start end).
  { induction l as [|s l IH]; intros o; [done|]. cbn [fold_left]. case_bool_decide.
    - apply (IH (Some (snd s))).
    - apply IH. }
  apply (Hgen sections None).
Qed.

(** ** The whole file *)
Section file.
Context `{VaultPrimsLaws}.

Lemma create_named_with_Ok password params name e v e1 :
  create_named_with password params name e = Ok (v, e1) ->
  v_params v = params /\ v_display_name v = name /\ validate_display_name name = Ok tt
  /\ length (v_keyslot v) = KEYSLOT_LEN
  /\ forall rest, validate_header (v_keyslot v ++ rest) = Ok params
       /\ keyslot_open (v_keyslot v ++ rest) password = Ok (mkOpened params (v_dek v)).
Proof.
  unfold create_named_with. intros Hc. apply rbind_Ok in Hc as ([] & Hn%map_err_Ok & Hc).
  apply rbind_Ok in Hc as ([salt e2] & Hs & Hc). apply rbind_Ok in Hc as ([dek e3] & _ & Hc).
  apply rbind_Ok in Hc as ([ks e4] & Hk & Hc). injection Hc as <- _. cbn.
  assert (Hsalt : length salt = 16%nat).
  { unfold draw in Hs. destruct (Nat.leb_spec 16 (length e)) as [Hl|]; [|done].
    assert (salt = take 16 e) as -> by congruence. by apply length_take_le. }
  do 3 (split; [done|]). split; [by eapply keyslot_build_length|].
  intros rest. by eapply keyslot_open_build.
Qed.

Lemma seal_container_Ok v counter sections e file e' :
  seal_container v counter sections e = Ok (file, e') ->
  exists save_id ents bodies,
    let dh := le_bytes 2 (N.of_nat (length (v_display_name v))) ++ v_display_name v in
    let manifest := byte_of (N.of_nat (length sections)) :: ents in
    check_cardinality ((fun s => purpose_id (fst s)) <$> sections) = Ok tt
    /\ length save_id = SAVE_ID_LEN /\ manifest_entries sections = Ok ents
    /\ Forall2 (opens_to v dh save_id counter manifest) sections bodies
    /\ file = file_header (v_keyslot v) (v_display_name v) save_id counter ++ manifest ++ concat bodies.
Proof.
  unfold seal_container. intros Hs. apply rbind_Ok in Hs as ([] & Hc & Hs).
  apply rbind_Ok in Hs as (dh & Hd & Hs). apply rbind_Ok in Hs as ([save_id e1] & Hi & Hs).
  apply rbind_Ok in Hs as (ents & Hm & Hs). apply rbind_Ok in Hs as ([out e2] & Hb & Hs).
  unfold encode_display_header in Hd. destruct (_ && _); [|done].
  assert (dh = le_bytes 2 (N.of_nat (length (v_display_name v))) ++ v_display_name v) as -> by congruence.
  apply seal_bodies_Ok in Hb as (bodies & -> & Hf).
  exists save_id, ents, bodies. cbv zeta. split; [done|]. split.
  { unfold draw in Hi. destruct (Nat.leb_spec SAVE_ID_LEN (length e)) as [Hl|]; [|done].
    assert (save_id = take SAVE_ID_LEN e) as -> by congruence. by apply length_take_le. }
  split; [done|]. split; [done|]. unfold file_header.
  rewrite <- !app_assoc in Hs |- *. injection Hs as Hs _. rewrite <- Hs. by rewrite <- !app_assoc.
Qed.

(** The bodies of at most three sections keep every offset within 64 bits. *)
Lemma bodies_bound v dh save_id counter manifest sections bodies :
  Forall2 (opens_to v dh save_id counter manifest) sections bodies ->
  Forall (fun s => frame_len (snd s) <= u32_max) sections ->
  N.of_nat (length (concat bodies)) <= N.of_nat (length sections) * u32_max.
Proof.
  induction 1 as [|s body sections bodies [Hl _] _ IH]; [cbn; lia|].
  intros [Hs Hf]%Forall_cons. cbn [concat length]. rewrite length_app. specialize (IH Hf). lia.
Qed.

Lemma declared_sum v dh save_id counter manifest sections bodies : forall base,
  Forall2 (opens_to v dh save_id counter manifest) sections bodies ->
  base + N.of_nat (length (concat bodies)) <= u64_max ->
  fold_left (fun total entry => match total with
                                | Some t => checked_add u64_max t (snd entry) | None => None end)
    (directory sections) (Some base) = Some (base + N.of_nat (length (concat bodies))).
Proof.
  intros base Hf. revert base. induction Hf as [|s body sections bodies [Hl _] _ IH]; intros base Hb.
  { cbn. by rewrite N.add_0_r. }
  unfold directory. rewrite fmap_cons. cbn [fold_left snd concat] in *. rewrite length_app in *.
  assert (checked_add u64_max base (frame_len (snd s)) = Some (base + frame_len (snd s))) as ->
    by (apply checked_add_Some; lia).
  unfold directory in IH. rewrite IH by lia. f_equal. lia.
Qed.

(** The facts of a sealed file, piece by piece. *)
Section layout.
Context (v : Vault) (params : KdfParams) (counter : N) (sections : list (Purpose * bytes))
  (save_id ents : bytes) (bodies : list bytes).
Let name := v_display_name v.
Let dh := le_bytes 2 (N.of_nat (length name)) ++ name.
Let manifest := byte_of (N.of_nat (length sections)) :: ents.
Let head := file_header (v_keyslot v) name save_id counter.
Let file := head ++ manifest ++ concat bodies.
Context (Hks : length (v_keyslot v) = KEYSLOT_LEN) (Hsid : length save_id = SAVE_ID_LEN)
  (Hctr : counter <= u64_max) (Hutf : utf8_valid name = true)
  (Hname : validate_display_name name = Ok tt)
  (Hhead : forall rest, validate_header (v_keyslot v ++ rest) = Ok params)
  (Hents : manifest_entries sections = Ok ents) (Hlen : (length sections <= 3)%nat)
  (Hbodies : Forall2 (opens_to v dh save_id counter manifest) sections bodies).

Lemma layout_header tail :
  parse_public_header (head ++ tail) = Ok (mkHeader name dh save_id counter (header_len name)).
Proof using All. by apply (parse_public_header_file _ _ _ _ params). Qed.

Lemma layout_head_length : length head = header_len name /\ (header_len name <= 400)%nat.
Proof using All.
  split; [by apply length_file_header|]. apply validate_display_name_Ok in Hname as (_ & Hln & _).
  unfold header_len, DISPLAY_NAME_OFFSET, DISPLAY_NAME_LEN_OFFSET, KEYSLOT_LEN, PREFIX_LEN, NONCE_LEN,
    TAG_LEN, DISPLAY_NAME_LEN_BYTES, SAVE_ID_LEN, COUNTER_LEN. unfold MAX_DISPLAY_NAME_BYTES in Hln. lia.
Qed.

Lemma layout_manifest_length : length manifest = (1 + length sections * DIR_ENTRY_LEN)%nat.
Proof using All. destruct (manifest_entries_Ok _ _ Hents) as (Hle & _). cbn [length manifest]. by rewrite Hle. Qed.

Lemma layout_fits :
  N.of_nat (header_len name + length manifest + length (concat bodies)) <= u64_max.
Proof using All.
  destruct layout_head_length as [_ Hl]. rewrite layout_manifest_length.
  destruct (manifest_entries_Ok _ _ Hents) as (_ & _ & Hfit).
  pose proof (bodies_bound _ _ _ _ _ _ _ Hbodies Hfit) as Hbound.
  unfold DIR_ENTRY_LEN. unfold u32_max in Hbound. unfold u64_max. nia.
Qed.

Lemma layout_directory tail :
  decode_manifest_directory (head ++ manifest ++ tail) (header_len name)
  = Ok ((header_len name + length manifest)%nat, directory sections).
Proof using All.
  destruct layout_head_length as [LH Hl]. rewrite layout_manifest_length, <- LH.
  apply decode_manifest_file; [done|done|]. rewrite LH. exact Hl.
Qed.

Lemma layout_manifest :
  parse_manifest file (header_len name)
  = Ok (manifest, zip ((fun s => purpose_id (fst s)) <$> sections) bodies).
Proof using All.
  destruct layout_head_length as [LH _]. unfold parse_manifest, file. rewrite layout_directory. cbn [rbind].
  rewrite (slice_app head manifest (concat bodies)) by (done || by rewrite LH).
  pose proof (take_bodies_file v dh save_id counter manifest sections bodies (head ++ manifest) Hbodies) as Ht.
  rewrite length_app, LH, <- app_assoc in Ht. rewrite Ht by exact layout_fits. cbn [rbind].
  by rewrite !length_app, LH, Nat.add_assoc, Nat.eqb_refl.
Qed.

Lemma layout_ids :
  fst <$> zip ((fun s => purpose_id (fst s)) <$> sections) bodies = (fun s => purpose_id (fst s)) <$> sections.
Proof using All. apply fst_zip. rewrite length_fmap. by rewrite (Forall2_length _ _ _ Hbodies). Qed.

Lemma layout_declared :
  check_cardinality ((fun s => purpose_id (fst s)) <$> sections) = Ok tt ->
  container_declared_len (take MAX_HEADER_PROBE_LEN file) = Some (N.of_nat (length file)).
Proof using All.
  intros Hcard. destruct layout_head_length as [LH Lh]. pose proof layout_manifest_length as LM.
  assert (Hpre : exists t, take MAX_HEADER_PROBE_LEN file = head ++ manifest ++ t).
  { exists (take (MAX_HEADER_PROBE_LEN - length (head ++ manifest)) (concat bodies)). unfold file.
    rewrite (app_assoc head), take_app_ge, <- app_assoc; [done|]. rewrite length_app, LH, LM.
    change MAX_HEADER_PROBE_LEN with 4096%nat. unfold DIR_ENTRY_LEN. lia. }
  destruct Hpre as [t ->]. unfold container_declared_len. rewrite layout_header. cbn [h_manifest_offset].
  rewrite layout_directory. cbn [fst snd]. rewrite directory_ids, Hcard. cbn [is_ok].
  pose proof layout_fits as Hfits.
  rewrite (declared_sum v dh save_id counter manifest sections bodies); [|done|lia].
  f_equal. unfold file. rewrite !length_app, LH. lia.
Qed.

Lemma layout_keyslot : slice file 0 KEYSLOT_LEN = v_keyslot v /\ (length file <? KEYSLOT_LEN)%nat = false.
Proof using All.
  split.
  - unfold file, head, file_header. rewrite <- !app_assoc.
    exact (slice_app [] (v_keyslot v) _ 0 KEYSLOT_LEN eq_refl Hks).
  - apply Nat.ltb_ge. unfold file, head, file_header. rewrite !length_app, Hks. lia.
Qed.

Lemma layout_opens :
  check_cardinality ((fun s => purpose_id (fst s)) <$> sections) = Ok tt ->
  open_container_with file (mkSlot (v_dek v) (v_params v) (slice file 0 KEYSLOT_LEN))
  = Ok (mkContainer v (default [] (last_of PWallet sections None)) (default [] (last_of PJournal sections None))
          (last_activity sections ActAbsent) counter false).
Proof using All.
  intros Hcard. destruct (check_cardinality_Ok _ _ Hcard) as (Cw & Cj & _).
  destruct (last_of_some PWallet sections None Cw) as [w Hw].
  destruct (last_of_some PJournal sections None Cj) as [j Hj]. destruct layout_keyslot as [Hslice Hbig].
  unfold open_container_with. rewrite (layout_header (manifest ++ concat bodies) : parse_public_header file = _).
  cbn [rbind sl_keyslot sl_params sl_dek h_manifest_offset h_display_name h_counter].
  rewrite Hbig, bool_decide_eq_true_2 by done. cbn [orb negb]. rewrite layout_manifest. cbn [rbind].
  rewrite layout_ids, Hcard, Hslice. cbn [rbind].
  replace (mkVault (v_params v) (v_dek v) (v_keyslot v) name) with v by by destruct v.
  rewrite (open_sections_file v dh save_id counter manifest name (header_len name) sections bodies) by done.
  cbn [rbind]. by rewrite Hw, Hj.
Qed.
End layout.

Lemma seal_open_container password params name e v e1 counter sections e2 file e3 :
  create_named_with password params name e = Ok (v, e1) ->
  utf8_valid name = true -> counter <= u64_max ->
  seal_container v counter sections e2 = Ok (file, e3) ->
  check_cardinality ((fun s => purpose_id (fst s)) <$> sections) = Ok tt
  /\ open_container file password
     = Ok (mkContainer v (default [] (last_of PWallet sections None)) (default [] (last_of PJournal sections None))
             (last_activity sections ActAbsent) counter false)
  /\ read_save_counter file = Ok counter /\ read_display_name file = Ok name
  /\ looks_like_container file = true
  /\ container_declared_len (take MAX_HEADER_PROBE_LEN file) = Some (N.of_nat (length file)).
Proof.
  intros Hv Hu Hctr Hs. apply create_named_with_Ok in Hv as (Hp & <- & Hvalid & Hks & Hopen).
  apply seal_container_Ok in Hs as (save_id & ents & bodies & Hcard & Hsid & Hm & Hf & ->).
  pose proof (check_cardinality_Ok _ _ Hcard) as (_ & _ & _ & Hlen).
  assert (Hhead : forall rest, validate_header (v_keyslot v ++ rest) = Ok params) by (intros rest; apply Hopen).
  set (name := v_display_name v) in *. set (manifest := byte_of _ :: ents) in *.
  set (file := file_header _ _ _ _ ++ manifest ++ _).
  assert (Hhdr : parse_public_header file = Ok (mkHeader name
    (le_bytes 2 (N.of_nat (length name)) ++ name) save_id counter (header_len name))).
  { exact (layout_header v params counter sections save_id ents bodies Hks Hsid Hctr Hu Hvalid Hhead Hm Hlen Hf _). }
  split; [done|]. split; [|split; [|split; [|split]]].
  - unfold open_container, open_keyslot. rewrite Hhdr. cbn [rbind].
    assert (keyslot_open file password = Ok (mkOpened params (v_dek v))) as ->.
    { unfold file, file_header. rewrite <- !app_assoc. apply Hopen. }
    cbn [rbind op_dek op_params]. rewrite <- Hp in Hhead |- *. by apply (layout_opens v (v_params v)).
  - unfold read_save_counter. by rewrite Hhdr.
  - unfold read_display_name. by rewrite Hhdr.
  - unfold looks_like_container. rewrite Hhdr. cbn [h_manifest_offset].
    assert (parse_manifest file (header_len name)
      = Ok (manifest, zip ((fun s => purpose_id (fst s)) <$> sections) bodies)) as ->
      by (by apply (layout_manifest v params)).
    assert (Hids : fst <$> zip ((fun s => purpose_id (fst s)) <$> sections) bodies
      = (fun s => purpose_id (fst s)) <$> sections)
      by (by apply (layout_ids v params counter sections save_id ents bodies)).
    by rewrite Hids, Hcard.
  - by apply (layout_declared v params).
Qed.
End file.

(** C38: what a vault seals it opens. A container sealed by a freshly created vault opens with
    its password to the same vault, the wallet and journal payloads, the activity payload if
    there is one, and the save counter; its public header reads back, and a probe of its
    first 4096 bytes declares the exact length of the file. *)
Theorem container_roundtrip `{VaultPrimsLaws} (password : bytes) (params : KdfParams) (name : bytes)
    (e : entropy) (v : Vault) (e1 : entropy) (counter : N) (sections : list (Purpose * bytes))
    (e2 : entropy) (file : bytes) (e3 : entropy) :
  create_named_with password params name e = Ok (v, e1) ->
  utf8_valid name = true -> counter <= u64_max ->
  seal_container v counter sections e2 = Ok (file, e3) ->
  (exists o, open_container file password = Ok o
     /\ oc_vault o = v /\ oc_save_counter o = counter
     /\ (PWallet, oc_wallet o) ∈ sections /\ (PJournal, oc_journal o) ∈ sections
     /\ (forall p x y, (p, x) ∈ sections -> (p, y) ∈ sections -> x = y)
     /\ (forall a, (PActivity, a) ∈ sections -> oc_activity o = ActPresent a)
     /\ (PActivity ∉ fst <$> sections -> oc_activity o = ActAbsent))
  /\ read_save_counter file = Ok counter /\ read_display_name file = Ok name
  /\ looks_like_container file = true
  /\ container_declared_len (take MAX_HEADER_PROBE_LEN file) = Some (N.of_nat (length file)).
Proof.
  intros Hv Hu Hctr Hs.
  destruct (seal_open_container _ _ _ _ _ _ _ _ _ _ _ Hv Hu Hctr Hs) as (Hcard & Ho & Hrest).
  split; [|done]. destruct (check_cardinality_Ok _ _ Hcard) as (Cw & Cj & Ca & _).
  eexists. split; [exact Ho|]. cbn. split; [done|]. split; [done|].
  destruct (last_of_some PWallet sections None Cw) as [w Hw]. rewrite Hw.
  destruct (last_of_some PJournal sections None Cj) as [j Hj]. rewrite Hj.
  assert (Hone : forall p, count_of p sections <= 1) by (intros []; lia).
  split; [by eapply last_of_elem|]. split; [by eapply last_of_elem|]. split.
  { intros p x y Hx Hy.
    assert (count_of p sections = 1) as Hc.
    { pose proof (Hone p). destruct (decide (count_of p sections = 0)) as [Hz|]; [|lia].
      by apply (count_zero p sections x) in Hz. }
    pose proof (last_of_unique p sections None x Hc Hx) as E1.
    pose proof (last_of_unique p sections None y Hc Hy) as E2. congruence. }
  rewrite last_activity_of. split.
  - intros a Ha. destruct (decide (count_of PActivity sections = 0)) as [Hz|Hz].
    + by apply (count_zero PActivity sections a) in Hz.
    + rewrite (last_of_unique PActivity sections None a); [done|lia|done].
  - intros Ha. rewrite last_of_absent; [done|].
    destruct (decide (count_of PActivity sections = 0)) as [|Hz]; [done|].
    destruct (last_of_some PActivity sections None ltac:(lia)) as [a Hl]. exfalso. apply Ha.
    apply last_of_elem in Hl. by apply (list_elem_of_fmap_2' _ _ (PActivity, a)).
Qed.

(** A cipher for the witnesses: the text followed by half of the key. *)
Definition toy_prims : VaultPrims := {|
  argon2_params _ := true;
  argon2_hash _ password _ := Some (pad32 password);
  xchacha_encrypt key _ _ msg := Some (msg ++ take 16 (as_bytes key));
  xchacha_decrypt key _ _ ct :=
    if (16 <=? length ct)%nat && bool_decide (drop (length ct - 16) ct = take 16 (as_bytes key))
    then Some (take (length ct - 16) ct) else None;
  blake3_derive_key _ key := key
|}.

Lemma toy_prims_laws : @VaultPrimsLaws toy_prims.
Proof.
  assert (Hk : forall key, length (take 16 (as_bytes key)) = 16%nat).
  { intros key. rewrite length_take, length_as_bytes. done. }
  split; cbn [xchacha_encrypt xchacha_decrypt toy_prims].
  - intros key _ _ msg ct [= <-]. rewrite length_app, Hk.
    replace (length msg + 16 - 16)%nat with (length msg) by lia.
    rewrite drop_app_length, take_app_length, bool_decide_eq_true_2 by done.
    by rewrite Nat.add_comm.
  - intros key _ _ msg ct. 
    destruct (Nat.leb_spec 16 (length ct)) as [Hl|]; cbn [andb]; [|done].
    case_bool_decide; [|done]. intros [= <-]. rewrite length_take. unfold TAG_LEN. lia.
Qed.

Definition demo_entropy : bytes := repeat Byte.x5a 200.
Definition demo_vault : Vault :=
  match @create_named_with toy_prims (bs "pw") KDF_FLOOR (bs "Main") demo_entropy with
  | Ok (v, _) => v
  | _ => mkVault KDF_FLOOR (pad32 []) [] []
  end.
Definition demo_sections : list (Purpose * bytes) :=
  [(PWallet, bs "wallet"); (PActivity, bs "history"); (PJournal, bs "journal")].
Definition demo_file : bytes :=
  match @seal_container toy_prims demo_vault 7 demo_sections demo_entropy with
  | Ok (f, _) => f
  | _ => []
  end.

Lemma container_roundtrip_witness :
  (exists o, @open_container toy_prims demo_file (bs "pw") = Ok o
     /\ oc_save_counter o = 7 /\ oc_activity o = ActPresent (bs "history"))
  /\ container_declared_len (take MAX_HEADER_PROBE_LEN demo_file) = Some (N.of_nat (length demo_file)).
Proof.
  edestruct (@container_roundtrip toy_prims toy_prims_laws (bs "pw") KDF_FLOOR (bs "Main") demo_entropy
    demo_vault (drop 72 demo_entropy) 7 demo_sections demo_entropy demo_file (drop 88 demo_entropy))
    as [(o & Ho & _ & Hc & _ & _ & _ & Ha & _) (_ & _ & _ & Hd)].
  - vm_compute. reflexivity.
  - vm_compute. reflexivity.
  - vm_compute. discriminate.
  - vm_compute. reflexivity.
  - split; [|exact Hd]. exists o. split; [exact Ho|]. split; [exact Hc|].
    apply Ha. right. left.
Defined.

(** ** Opening is total *)
Section total.
Context `{VaultPrimsLaws}.

Lemma ok_or_no_panic {E A} (o : option A) (e : E) : ok_or o e <> Panic.
Proof. by destruct o. Qed.

Lemma rbind_no_panic {E A B} (m : res E A) (k : A -> res E B) :
  m <> Panic -> (forall a, m = Ok a -> k a <> Panic) -> rbind m k <> Panic.
Proof. destruct m; cbn; auto. Qed.

Lemma validate_header_no_panic input : validate_header input <> Panic.
Proof.
  unfold validate_header, kdf_validate. destruct (_ <? _)%nat; [done|].
  do 3 (destruct (negb _); [done|]). destruct (_ || _); [done|]. destruct (_ || _); [done|].
  destruct (negb _); [done|]. cbn [rbind]. by destruct (negb _).
Qed.

Lemma parse_public_header_no_panic input : parse_public_header input <> Panic.
Proof.
  unfold parse_public_header. apply rbind_no_panic; [apply validate_header_no_panic|]. intros p _.
  apply rbind_no_panic; [apply ok_or_no_panic|]. intros raw _. destruct (_ <? _); [done|].
  do 2 (apply rbind_no_panic; [apply ok_or_no_panic|]; intros ? _).
  destruct (negb _); [done|]. apply rbind_no_panic.
  { unfold validate_display_name. case_bool_decide; [done|]. destruct (_ <? _)%nat; [done|].
    by destruct (has_control _). }
  intros ? _. do 5 (apply rbind_no_panic; [apply ok_or_no_panic|]; intros ? _). done.
Qed.

(** Enough bytes for the entries: no index is out of range, and what is read has known ids. *)
Lemma read_entries_ok count : forall rest,
  (count * DIR_ENTRY_LEN <= length rest)%nat ->
  read_entries count rest <> Panic
  /\ forall entries, read_entries count rest = Ok entries -> Forall (fun x => is_Some (from_id (fst x))) entries.
Proof.
  induction count as [|count IH]; intros rest Hl; cbn [read_entries].
  { split; [done|]. intros entries [= <-]. constructor. }
  unfold DIR_ENTRY_LEN in *. destruct (take 5 rest) as [|id raw] eqn:E.
  { apply (f_equal length) in E. rewrite length_take in E. cbn [length] in E. lia. }
  destruct (from_id id) as [p|] eqn:Hid; [|done].
  destruct (IH (drop 5 rest)) as [H1 H2]; [rewrite length_drop; lia|].
  destruct (read_entries count (drop 5 rest)) as [l|er|] eqn:Hr; cbn [rbind]; [|done|done].
  split; [done|]. intros entries [= <-]. constructor; [cbn; by rewrite Hid|by apply H2].
Qed.

Lemma decode_manifest_ok input offset :
  decode_manifest_directory input offset <> Panic
  /\ forall stop entries, decode_manifest_directory input offset = Ok (stop, entries) ->
       Forall (fun x => is_Some (from_id (fst x))) entries.
Proof.
  unfold decode_manifest_directory. destruct (input !! offset) as [b|]; [|done].
  destruct (_ <? _)%nat; [done|]. set (k := N.to_nat (u8 b)).
  destruct (offset_add offset (N.of_nat (1 + k * DIR_ENTRY_LEN))) as [stop|] eqn:Ho; [|done]. cbn [ok_or rbind].
  destruct (get_range input offset stop) as [m|] eqn:Hm; [|done]. cbn [ok_or rbind].
  assert (Hl : (k * DIR_ENTRY_LEN <= length (drop 1 m))%nat).
  { unfold offset_add in Ho. destruct (_ <=? _); [|done]. injection Ho as <-.
    apply get_range_Some in Hm as (Hle & Hle2 & ->).
    rewrite length_drop, length_slice by done.
    rewrite Nat2N.id. set (d := (k * DIR_ENTRY_LEN)%nat). lia. }
  destruct (read_entries_ok k (drop 1 m) Hl) as [H1 H2].
  destruct (read_entries k (drop 1 m)) as [l|er|] eqn:Hr; cbn [rbind]; [|done|done].
  split; [done|]. intros stop' entries [= <- <-]. by apply H2.
Qed.

Lemma take_bodies_ok input entries : forall off,
  take_bodies input off entries <> Panic
  /\ forall sections last, take_bodies input off entries = Ok (sections, last) -> fst <$> sections = fst <$> entries.
Proof.
  induction entries as [|[pid len] entries IH]; intros off; cbn [take_bodies].
  { split; [done|]. by intros sections last [= <- _]. }
  destruct (offset_add off len) as [stop|]; [|done]. cbn [ok_or rbind].
  destruct (get_range input off stop) as [body|]; [|done]. cbn [ok_or rbind].
  destruct (IH stop) as [H1 H2].
  destruct (take_bodies input stop entries) as [[l last]|er|]; cbn [rbind]; [|done|done].
  split; [done|]. intros sections last' [= <- _]. rewrite !fmap_cons. cbn. f_equal. by eapply H2.
Qed.

Lemma parse_manifest_ok input offset :
  parse_manifest input offset <> Panic
  /\ forall manifest sections, parse_manifest input offset = Ok (manifest, sections) ->
       Forall (fun x => is_Some (from_id (fst x))) sections.
Proof.
  unfold parse_manifest. destruct (decode_manifest_ok input offset) as [H1 H2].
  destruct (decode_manifest_directory input offset) as [[stop entries]|er|] eqn:Hd; cbn [rbind]; [|done|done].
  destruct (take_bodies_ok input entries stop) as [H3 H4].
  destruct (take_bodies input stop entries) as [[l last]|er|] eqn:Ht; cbn [rbind]; [|done|done].
  destruct (negb _); [done|]. split; [done|]. intros manifest sections [= _ <-].
  specialize (H2 _ _ eq_refl). specialize (H4 _ _ eq_refl).
  apply Forall_forall. intros x Hx. rewrite Forall_forall in H2.
  assert (Hin : fst x ∈ fst <$> entries) by (rewrite <- H4; by apply list_elem_of_fmap_2).
  apply list_elem_of_fmap in Hin as (y & -> & Hy). by apply H2.
Qed.

Lemma open_body_no_panic v p header manifest body on_fail : open_body v p header manifest body on_fail <> Panic.
Proof. unfold open_body, aead_open. destruct (_ <? _)%nat; [done|]. apply ok_or_no_panic. Qed.

Lemma open_sections_no_panic v header manifest sections : forall w j a,
  Forall (fun x => is_Some (from_id (fst x))) sections ->
  open_sections v header manifest sections w j a <> Panic.
Proof.
  induction sections as [|[pid body] sections IH]; intros w j a Hf; [done|].
  apply Forall_cons in Hf as [[p Hp] Hf]. cbn [fst] in Hp. cbn [open_sections]. rewrite Hp.
  destruct p.
  - apply rbind_no_panic; [apply open_body_no_panic|]. intros pt _. by apply IH.
  - pose proof (open_body_no_panic v PActivity header manifest body (Corrupt "activity payload")).
    destruct (open_body v PActivity _ _ _ _); [by apply IH|by apply IH|done].
  - apply rbind_no_panic; [apply open_body_no_panic|]. intros pt _. by apply IH.
Qed.

Lemma count_sections_no_panic ids : forall w j a, count_sections ids w j a <> Panic.
Proof.
  induction ids as [|id ids IH]; intros w j a; [done|]. cbn [count_sections].
  destruct (from_id id) as [[]|]; done || apply IH.
Qed.

Lemma check_cardinality_no_panic ids : check_cardinality ids <> Panic.
Proof.
  unfold check_cardinality. apply rbind_no_panic; [apply count_sections_no_panic|].
  intros [[w j] a] _. destruct (negb (w =? 1)); [done|]. destruct (negb (j =? 1)); [done|].
  by destruct (1 <? a).
Qed.

(** What opens has a parameters record the memory limits allow. *)
Lemma open_container_no_panic input password : open_container input password <> Panic.
Proof.
  unfold open_container. apply rbind_no_panic.
  { unfold open_keyslot. apply rbind_no_panic; [apply parse_public_header_no_panic|]. intros h _.
    apply rbind_no_panic; [apply keyslot_open_no_panic|]. done. }
  intros slot _. unfold open_container_with.
  apply rbind_no_panic; [apply parse_public_header_no_panic|]. intros h _.
  destruct (_ || _); [done|]. destruct (parse_manifest_ok input (h_manifest_offset h)) as [H1 H2].
  apply rbind_no_panic; [done|]. intros [manifest sections] Hp.
  apply rbind_no_panic; [apply check_cardinality_no_panic|]. intros _ _.
  apply rbind_no_panic; [apply open_sections_no_panic; by eapply H2|]. intros [[w j] a] _.
  do 2 (apply rbind_no_panic; [apply ok_or_no_panic|]; intros ? _). done.
Qed.
End total.

(** Whatever bytes it is given and whatever the password, opening a container returns a
    container or an error; no index, slice, conversion or copy of it can panic, and the
    cost parameters it hashes the password with are within the limits. *)
Lemma open_container_total `{VaultPrimsLaws} (input password : bytes) :
  open_container input password <> Panic
  /\ forall o, open_container input password = Ok o ->
       MIN_M_KIB <= m_kib (v_params (oc_vault o)) <= MAX_M_KIB
       /\ MIN_T <= t_cost (v_params (oc_vault o)) <= MAX_T /\ parallelism (v_params (oc_vault o)) = 1.
Proof.
  split; [apply open_container_no_panic|]. intros o Ho. apply kdf_validate_Ok.
  unfold open_container in Ho. apply rbind_Ok in Ho as (slot & Hs & Ho).
  assert (Hp : v_params (oc_vault o) = sl_params slot).
  { unfold open_container_with in Ho. apply rbind_Ok in Ho as (h & _ & Ho).
    destruct (_ || _) in Ho; [done|]. apply rbind_Ok in Ho as ([m s] & _ & Ho).
    apply rbind_Ok in Ho as (u & _ & Ho). apply rbind_Ok in Ho as ([[w j] a] & _ & Ho).
    apply rbind_Ok in Ho as (w' & _ & Ho). apply rbind_Ok in Ho as (j' & _ & Ho). by injection Ho as <-. }
  rewrite Hp. unfold open_keyslot in Hs. apply rbind_Ok in Hs as (h & _ & Hs).
  apply rbind_Ok in Hs as (op & Hop & Hs). injection Hs as <-. cbn.
  unfold keyslot_open in Hop. apply rbind_Ok in Hop as (p & Hh & Hop).
  apply rbind_Ok in Hop as (k & _ & Hop). apply rbind_Ok in Hop as (d & _ & Hop).
  apply rbind_Ok in Hop as (d' & _ & Hop). injection Hop as <-. cbn.
  by apply validate_header_Ok in Hh as [? _].
Qed.

Lemma open_container_total_witness :
  @open_container toy_prims demo_file (bs "pw") <> Panic
  /\ @open_container toy_prims (bs "not a vault") (bs "pw") <> Panic.
Proof.
  split; [apply (@open_container_total toy_prims toy_prims_laws demo_file (bs "pw"))|].
  apply (@open_container_total toy_prims toy_prims_laws (bs "not a vault") (bs "pw")).
Defined.

(** ** What the sections are bound to *)
Lemma parse_public_header_Ok input h :
  parse_public_header input = Ok h ->
  h_display_header h = le_bytes 2 (N.of_nat (length (h_display_name h))) ++ h_display_name h
  /\ (length (h_display_name h) <= MAX_DISPLAY_NAME_BYTES)%nat
  /\ length (h_save_id h) = SAVE_ID_LEN /\ h_counter h < 256 ^ N.of_nat 8.
Proof.
  unfold parse_public_header. intros Hp. apply rbind_Ok in Hp as (params & _ & Hp).
  apply rbind_Ok in Hp as (raw & (_ & Hb & Hraw)%ok_or_Ok%get_range_Some & Hp).
  destruct (N.ltb_spec (N.of_nat MAX_DISPLAY_NAME_BYTES) (of_le raw)) as [|Hlen]; [done|].
  apply rbind_Ok in Hp as (stop & ->%ok_or_Ok%offset_add_Some & Hp).
  apply rbind_Ok in Hp as (name & (Hi & Hj & Hname)%ok_or_Ok%get_range_Some & Hp).
  destruct (negb _); [done|]. apply rbind_Ok in Hp as (u & _ & Hp).
  apply rbind_Ok in Hp as (coff & ->%ok_or_Ok%offset_add_Some & Hp).
  apply rbind_Ok in Hp as (moff & ->%ok_or_Ok%offset_add_Some & Hp).
  apply rbind_Ok in Hp as (sid & (Hsi & Hsj & Hsid)%ok_or_Ok%get_range_Some & Hp).
  apply rbind_Ok in Hp as (rc & (Hci & Hcj & Hrc)%ok_or_Ok%get_range_Some & Hp).
  apply rbind_Ok in Hp as (dh & (Hdi & _ & Hdh)%ok_or_Ok%get_range_Some & Hp).
  injection Hp as <-. cbn [h_display_header h_display_name h_save_id h_counter].
  assert (Lraw : length raw = 2%nat) by (rewrite Hraw, length_slice; [done|by apply Nat.leb_le|done]).
  assert (Lname : length name = N.to_nat (of_le raw)).
  { rewrite Hname, length_slice by done. lia. }
  split; [|split; [|split]].
  - rewrite Hdh, (slice_concat input DISPLAY_NAME_LEN_OFFSET DISPLAY_NAME_OFFSET) by (done || by apply Nat.leb_le).
    rewrite <- Hraw, <- Hname. f_equal. rewrite Lname, N2Nat.id, <- Lraw. by rewrite le_bytes_of_le.
  - rewrite Lname. lia.
  - rewrite Hsid, length_slice by done. rewrite Nat2N.id. lia.
  - assert (Lrc : length rc = 8%nat).
    { rewrite Hrc, length_slice by done. rewrite !Nat2N.id. change COUNTER_LEN with 8%nat. lia. }
    unfold of_le. pose proof (of_be_bound (rev rc)) as Hbd. rewrite length_rev, Lrc in Hbd. exact Hbd.
Qed.

Lemma parse_manifest_shape input off m sections :
  parse_manifest input off = Ok (m, sections) ->
  exists b rest, m = b :: rest /\ length rest = (N.to_nat (u8 b) * DIR_ENTRY_LEN)%nat.
Proof.
  unfold parse_manifest. intros Hp. apply rbind_Ok in Hp as ([stop entries] & Hd & Hp).
  apply rbind_Ok in Hp as ([s last] & _ & Hp). destruct (negb _); [done|].
  assert (m = slice input off stop) as -> by congruence. clear Hp.
  unfold decode_manifest_directory in Hd. destruct (input !! off) as [b|] eqn:Hb; [|done].
  destruct (_ <? _)%nat; [done|]. apply rbind_Ok in Hd as (stop' & Hs%ok_or_Ok%offset_add_Some & Hd).
  apply rbind_Ok in Hd as (m & (Hi & Hj & _)%ok_or_Ok%get_range_Some & Hd).
  apply rbind_Ok in Hd as (es & _ & Hd). assert (stop' = stop) as -> by congruence.
  rewrite Nat2N.id in Hs. set (d := (N.to_nat (u8 b) * DIR_ENTRY_LEN)%nat) in *.
  assert (Hdrop : drop off input = b :: drop (S off) input) by by apply drop_S.
  exists b, (take d (drop (S off) input)). unfold slice. rewrite Hdrop.
  replace (stop - off)%nat with (S d) by lia. split; [done|].
  rewrite length_take, length_drop. lia.
Qed.

(** A self-delimiting prefix splits off. *)
Lemma app_inj_len {A} (a a' b b' : list A) : length a = length a' -> a ++ b = a' ++ b' -> a = a' /\ b = b'.
Proof. intros Hl E. by apply app_inj_1. Qed.

(** The associated data binds a section to its place. Two sections of containers that
    parse have the same associated data only if the keyslot, display name, save id, save
    counter, manifest and purpose are all the same, so a body cannot be moved to another
    file, save, name or section without failing to authenticate. *)
Lemma section_aad_binding (i1 i2 : bytes) (h1 h2 : PublicHeader) (m1 m2 : bytes)
    (s1 s2 : list (byte * bytes)) (v1 v2 : Vault) (p1 p2 : Purpose) :
  parse_public_header i1 = Ok h1 -> parse_public_header i2 = Ok h2 ->
  parse_manifest i1 (h_manifest_offset h1) = Ok (m1, s1) ->
  parse_manifest i2 (h_manifest_offset h2) = Ok (m2, s2) ->
  length (v_keyslot v1) = length (v_keyslot v2) ->
  section_aad v1 p1 (h_display_header h1) (h_save_id h1) (h_counter h1) m1
  = section_aad v2 p2 (h_display_header h2) (h_save_id h2) (h_counter h2) m2 ->
  v_keyslot v1 = v_keyslot v2 /\ h_display_name h1 = h_display_name h2 /\ h_save_id h1 = h_save_id h2
  /\ h_counter h1 = h_counter h2 /\ m1 = m2 /\ p1 = p2.
Proof.
  intros H1 H2 M1 M2 Hk. unfold section_aad.
  apply parse_public_header_Ok in H1 as (D1 & N1 & S1 & C1), H2 as (D2 & N2 & S2 & C2).
  apply parse_manifest_shape in M1 as (b1 & r1 & -> & L1), M2 as (b2 & r2 & -> & L2).
  rewrite D1, D2, <- !app_assoc. intros E.
  apply app_inj_len in E as [Ek E]; [|done].
  apply app_inj_len in E as [El E]; [|by rewrite !length_le_bytes].
  unfold MAX_DISPLAY_NAME_BYTES in N1, N2.
  apply le_bytes_inj in El; [|change (256 ^ N.of_nat 2) with 65536; lia..]. apply Nat2N.inj in El.
  apply app_inj_len in E as [En E]; [|done].
  apply app_inj_len in E as [Es E]; [|by rewrite S1, S2].
  apply app_inj_len in E as [Ec E]; [|by rewrite !length_le_bytes].
  apply le_bytes_inj in Ec; [|done..]. cbn [app] in E. injection E as Eb E. subst b2.
  apply app_inj_len in E as [Er E]; [|by rewrite L1, L2]. injection E as E.
  apply purpose_id_inj in E. by rewrite Er.
Qed.

Definition demo_header : PublicHeader :=
  match parse_public_header demo_file with Ok h => h | _ => mkHeader [] [] [] 0 0 end.
Definition demo_manifest : bytes * list (byte * bytes) :=
  match parse_manifest demo_file (h_manifest_offset demo_header) with Ok m => m | _ => ([], []) end.

Lemma section_aad_binding_witness :
  PWallet = PWallet /\
  (section_aad demo_vault PWallet (h_display_header demo_header) (h_save_id demo_header)
     (h_counter demo_header) (fst demo_manifest)
   = section_aad demo_vault PWallet (h_display_header demo_header) (h_save_id demo_header)
     (h_counter demo_header) (fst demo_manifest) ->
   v_keyslot demo_vault = v_keyslot demo_vault /\ h_counter demo_header = 7).
Proof.
  split; [reflexivity|]. intros E.
  edestruct (section_aad_binding demo_file demo_file demo_header demo_header (fst demo_manifest) (fst demo_manifest)
    (snd demo_manifest) (snd demo_manifest) demo_vault demo_vault PWallet PWallet) as (Hk & _ & _ & _ & _ & _);
    [vm_compute; reflexivity..|exact E|]. split; [exact Hk|vm_compute; reflexivity].
Defined.
