(* ===== verification/Fs.v ===== *)
(** * The file system the storage crate runs on

    What crates/cc-wallet-storage uses of [std::fs] on Linux: names and inodes, each call one
    step.  Before a step other processes may change anything and the step may fail, as the
    schedule of the world says; every state passed through is logged, and a crash may come
    at any of them.  [wp] is the program logic the storage files are verified in. *)

From Stdlib Require Import NArith Lia.
From stdpp Require Import gmap.
From S2P Require Import Prelude Ord Bytes Text Decimal.

#[export] Instance byte_countable : Countable byte.
Proof.
  refine (inj_countable Byte.to_N Byte.of_N _). intros b. apply Byte.of_to_N.
Defined.

(** A path is a directory and a name in it. *)
Record PathBuf := mkPath { p_dir : bytes; p_file : bytes }.

#[export] Instance PathBuf_eq_dec : EqDecision PathBuf.
Proof. solve_decision. Defined.

#[export] Instance PathBuf_countable : Countable PathBuf.
Proof.
  refine (inj_countable' (fun p => (p_dir p, p_file p)) (fun q => mkPath (fst q) (snd q)) _).
  by intros [].
Defined.

(** [Path::display]. *)
Definition display (p : PathBuf) : bytes := p_dir p ++ bs "/" ++ p_file p.

Inductive ErrorKind :=
| NotFound | AlreadyExists | PermissionDenied | InvalidData | InvalidInput
| UnexpectedEof | FilesystemLoop | IsADirectory | OtherError.

#[export] Instance ErrorKind_eq_dec : EqDecision ErrorKind.
Proof. solve_decision. Defined.

(** [io::Error]: a kind and a text. *)
Record io_Error := mkIo { io_kind : ErrorKind; io_text : bytes }.

#[export] Instance io_Error_eq_dec : EqDecision io_Error.
Proof. solve_decision. Defined.

(** [io::Error::other]. *)
Definition io_other (text : bytes) : io_Error := mkIo OtherError text.

Inductive FileKind := Regular | Symlink (target : PathBuf) | Directory | Special.

#[export] Instance FileKind_eq_dec : EqDecision FileKind.
Proof. solve_decision. Defined.

(** [i_synced]: the contents have reached the disk; [i_locked]: the open file that
    holds the lock [File::try_lock] takes. *)
Record Inode := mkInode {
  i_kind : FileKind;
  i_nlink : N;
  i_mode : N;
  i_data : bytes;
  i_synced : bool;
  i_locked : option N
}.

(** [names] is what processes see, [durable] the directory entries that have reached the
    disk; inodes are never reused. *)
Record FsState := mkFs {
  dirs : gset bytes;
  names : gmap PathBuf N;
  durable : gmap PathBuf N;
  inodes : gmap N Inode
}.

Definition set_names (m : gmap PathBuf N) (fs : FsState) : FsState :=
  mkFs (dirs fs) m (durable fs) (inodes fs).
Definition set_durable (m : gmap PathBuf N) (fs : FsState) : FsState :=
  mkFs (dirs fs) (names fs) m (inodes fs).
Definition set_inode (i : N) (ino : Inode) (fs : FsState) : FsState :=
  mkFs (dirs fs) (names fs) (durable fs) (<[i := ino]> (inodes fs)).

Definition set_data (d : bytes) (ino : Inode) : Inode :=
  mkInode (i_kind ino) (i_nlink ino) (i_mode ino) d false (i_locked ino).
Definition set_nlink (n : N) (ino : Inode) : Inode :=
  mkInode (i_kind ino) n (i_mode ino) (i_data ino) (i_synced ino) (i_locked ino).
Definition set_mode (m : N) (ino : Inode) : Inode :=
  mkInode (i_kind ino) (i_nlink ino) m (i_data ino) (i_synced ino) (i_locked ino).
Definition set_synced (ino : Inode) : Inode :=
  mkInode (i_kind ino) (i_nlink ino) (i_mode ino) (i_data ino) true (i_locked ino).
Definition set_locked (b : option N) (ino : Inode) : Inode :=
  mkInode (i_kind ino) (i_nlink ino) (i_mode ino) (i_data ino) (i_synced ino) b.

(** The file a name leads to, links not followed. *)
Definition entry (p : PathBuf) (fs : FsState) : option (N * Inode) :=
  match names fs !! p with
  | Some i => match inodes fs !! i with Some ino => Some (i, ino) | None => None end
  | None => None
  end.

(** The same with links followed, Linux gives up after forty. *)
Fixpoint resolve (fuel : nat) (p : PathBuf) (fs : FsState) : res io_Error (N * Inode) :=
  match entry p fs with
  | None => Err (mkIo NotFound [])
  | Some (i, ino) =>
      match i_kind ino, fuel with
      | Symlink q, S fuel' => resolve fuel' q fs
      | Symlink _, O => Err (mkIo FilesystemLoop [])
      | _, _ => Ok (i, ino)
      end
  end.

(** A name appears for a file, a name goes. *)
Definition link (p : PathBuf) (i : N) (ino : Inode) (fs : FsState) : FsState :=
  set_inode i ino (set_names (<[p := i]> (names fs)) fs).

Definition unlink (p : PathBuf) (fs : FsState) : FsState :=
  match entry p fs with
  | Some (i, ino) => set_inode i (set_nlink (i_nlink ino - 1) ino) (set_names (delete p (names fs)) fs)
  | None => fs
  end.

(** [rename]: the target's old file loses a link, the source's name moves. *)
Definition move (p q : PathBuf) (fs : FsState) : FsState :=
  match names fs !! p with
  | Some i =>
      if bool_decide (names fs !! q = Some i) then fs
      else let fs := unlink q fs in set_names (<[q := i]> (delete p (names fs))) fs
  | None => fs
  end.

(** [Metadata]: the inode's number and what it holds. *)
Record Metadata := mkMeta { m_ino : N; m_inode : Inode }.
Definition is_file (m : Metadata) : bool := bool_decide (i_kind (m_inode m) = Regular).
Definition is_dir (m : Metadata) : bool := bool_decide (i_kind (m_inode m) = Directory).
Definition is_symlink (m : Metadata) : bool :=
  match i_kind (m_inode m) with Symlink _ => true | _ => false end.
Definition m_len (m : Metadata) : N := N.of_nat (length (i_data (m_inode m))).

(** ** The world

    A tick of the schedule comes with every step: what others do just before, whether the
    step fails, how much of a failing write gets through, and in which order a directory
    lists its entries.  After the schedule all is quiet. *)
Record Tick := mkTick {
  t_change : FsState -> FsState;
  t_fault : option io_Error;
  t_short : nat;
  t_order : PathBuf -> N
}.

Definition quiet : Tick := mkTick (fun fs => fs) None 0 (fun _ => 0).

Record World := mkWorld { w_fs : FsState; w_env : list Tick; w_log : list FsState }.

(** A computation on the world that may fail. *)
Definition IO (E A : Type) : Type := World -> res E A * World.

Definition io_ret {E A} (r : res E A) : IO E A := fun w => (r, w).

Definition io_bind {E A B} (m : IO E A) (k : A -> IO E B) : IO E B := fun w =>
  match m w with
  | (Ok a, w') => k a w'
  | (Err e, w') => (Err e, w')
  | (Panic, w') => (Panic, w')
  end.

Definition io_map_err {E F A} (f : E -> F) (m : IO E A) : IO F A := fun w =>
  let '(r, w') := m w in (map_err f r, w').

(** [match m { r => k(r) }]: the outcome itself is looked at. *)
Definition io_match {E F A B} (m : IO E A) (k : res E A -> IO F B) : IO F B := fun w =>
  let '(r, w') := m w in k r w'.

Notation "'let!' x ':=' m 'in' k" := (io_bind m (fun x => k))
  (at level 10, x pattern, m at level 100, k at level 200) : rust_scope.
Notation "'check!' c 'else' e ';;' k" := (if c then k else io_ret (Err e))
  (at level 10, c at level 99, e at level 99, k at level 200) : rust_scope.
Notation "'match!' m 'with' r => k" := (io_match m (fun r => k))
  (at level 10, m at level 100, r name, k at level 200) : rust_scope.

Definition next_tick (env : list Tick) : Tick * list Tick :=
  match env with [] => (quiet, []) | t :: env' => (t, env') end.

(** One step: [op] where it works, [broken] what is left where it fails. *)
Definition syscall {A} (op : Tick -> FsState -> res io_Error A * FsState)
    (broken : Tick -> FsState -> FsState) : IO io_Error A := fun w =>
  let '(t, env) := next_tick (w_env w) in
  let fs := t_change t (w_fs w) in
  let '(r, fs') := match t_fault t with Some e => (Err e, broken t fs) | None => op t fs end in
  (r, mkWorld fs' env (fs' :: w_log w)).

(** A step that only looks. *)
Definition query {A} (f : FsState -> res io_Error A) : IO io_Error A :=
  syscall (fun _ fs => (f fs, fs)) (fun _ fs => fs).

(** A step that does all or nothing. *)
Definition update {A} (f : FsState -> res io_Error A * FsState) : IO io_Error A :=
  syscall (fun _ fs => f fs) (fun _ fs => fs).

(** ** The calls *)
Definition symlink_metadata (p : PathBuf) : IO io_Error Metadata :=
  query (fun fs => match entry p fs with
                   | Some (i, ino) => Ok (mkMeta i ino)
                   | None => Err (mkIo NotFound [])
                   end).

(** [open] with [O_NOFOLLOW]; a directory opens for reading only. *)
Definition open_nofollow (write : bool) (p : PathBuf) : IO io_Error N :=
  query (fun fs => match entry p fs with
                   | Some (i, ino) =>
                       match i_kind ino with
                       | Symlink _ => Err (mkIo FilesystemLoop [])
                       | Directory => if write then Err (mkIo IsADirectory []) else Ok i
                       | _ => Ok i
                       end
                   | None => Err (mkIo NotFound [])
                   end).

(** An inode that was opened is there for as long as the handle is. *)
Definition at_handle {A} (h : N) (k : Inode -> A) : FsState -> res io_Error A := fun fs =>
  match inodes fs !! h with Some ino => Ok (k ino) | None => Panic end.

(** [File::metadata]. *)
Definition file_metadata (h : N) : IO io_Error Metadata := query (at_handle h (mkMeta h)).

(** [read_to_end] from the start, and of at most [cap] bytes. *)
Definition read_to_end (h : N) : IO io_Error bytes := query (at_handle h i_data).
Definition read_take (h : N) (cap : nat) : IO io_Error bytes :=
  query (at_handle h (fun ino => take cap (i_data ino))).

(** [read_exact] of [n] bytes at an offset. *)
Definition read_exact_at (h : N) (off n : N) : IO io_Error bytes :=
  query (fun fs => match inodes fs !! h with
                   | Some ino =>
                       let got := take (N.to_nat n) (drop (N.to_nat off) (i_data ino)) in
                       if N.of_nat (length got) =? n then Ok got else Err (mkIo UnexpectedEof [])
                   | None => Panic
                   end).

(** What a write of [d] at [off] makes of the contents. *)
Definition overwrite_at (off : nat) (d old : bytes) : bytes :=
  let old := old ++ repeat Byte.x00 (off - length old) in
  take off old ++ d ++ drop (off + length d) old.

Definition on_inode (h : N) (f : Inode -> Inode) (fs : FsState) : res io_Error unit * FsState :=
  match inodes fs !! h with
  | Some ino => (Ok tt, set_inode h (f ino) fs)
  | None => (Panic, fs)
  end.

(** [write_all] at an offset; a failing one may have written some of it. *)
Definition write_all_at (h : N) (off : N) (d : bytes) : IO io_Error unit :=
  syscall (fun _ => on_inode h (fun ino => set_data (overwrite_at (N.to_nat off) d (i_data ino)) ino))
    (fun t fs => snd (on_inode h
       (fun ino => set_data (overwrite_at (N.to_nat off) (take (t_short t) d) (i_data ino)) ino) fs)).

(** [File::set_len(0)]. *)
Definition set_len_0 (h : N) : IO io_Error unit := update (on_inode h (set_data [])).

(** [File::sync_all] on a file. *)
Definition sync_all (h : N) : IO io_Error unit := update (on_inode h set_synced).

(** [set_permissions] through the handle. *)
Definition set_permissions (h : N) (mode : N) : IO io_Error unit := update (on_inode h (set_mode mode)).

(** [fs::read], following links. *)
Definition fs_read (p : PathBuf) : IO io_Error bytes :=
  query (fun fs => match resolve 40 p fs with
                   | Ok (_, ino) => match i_kind ino with
                                    | Regular => Ok (i_data ino)
                                    | Directory => Err (mkIo IsADirectory [])
                                    | _ => Ok (i_data ino)
                                    end
                   | Err e => Err e
                   | Panic => Panic
                   end).

(** [File::open(p)], following links. *)
Definition file_open (p : PathBuf) : IO io_Error N :=
  query (fun fs => rmap fst (resolve 40 p fs)).

(** [File::open(dir)] and [sync_all] on it: the directory's entries reach the disk. *)
Definition open_directory (d : bytes) : IO io_Error unit :=
  query (fun fs => if decide (d ∈ dirs fs) then Ok tt else Err (mkIo NotFound [])).

Definition flush_dir (d : bytes) (fs : FsState) : FsState :=
  set_durable (filter (fun e => p_dir (fst e) = d) (names fs)
               ∪ filter (fun e => p_dir (fst e) <> d) (durable fs)) fs.

Definition sync_directory_handle (d : bytes) : IO io_Error unit :=
  update (fun fs => (Ok tt, flush_dir d fs)).

(** [fs::remove_file]: links are removed, not followed. *)
Definition remove_file (p : PathBuf) : IO io_Error unit :=
  update (fun fs => match entry p fs with
                    | Some (_, ino) =>
                        if bool_decide (i_kind ino = Directory) then (Err (mkIo IsADirectory []), fs)
                        else (Ok tt, unlink p fs)
                    | None => (Err (mkIo NotFound []), fs)
                    end).

(** [fs::rename] of a file. *)
Definition rename (p q : PathBuf) : IO io_Error unit :=
  update (fun fs => match entry p fs with
                    | Some _ =>
                        match entry q fs with
                        | Some (_, ino) =>
                            if bool_decide (i_kind ino = Directory) then (Err (mkIo IsADirectory []), fs)
                            else (Ok tt, move p q fs)
                        | None => (Ok tt, move p q fs)
                        end
                    | None => (Err (mkIo NotFound []), fs)
                    end).

(** [fs::read_dir] and its iterator: the entries of the directory in the order of the tick,
    each delivered by a step of its own. *)
Definition entries_of (d : bytes) (order : PathBuf -> N) (fs : FsState) : list PathBuf :=
  sort_by_key order
    (filter (fun p => p_dir p = d) (fst <$> map_to_list (names fs))).

Definition open_dir (d : bytes) : IO io_Error (list PathBuf) :=
  syscall (fun t fs => (if decide (d ∈ dirs fs) then Ok (entries_of d (t_order t) fs)
                        else Err (mkIo NotFound []), fs)) (fun _ fs => fs).

Definition next_entry (p : PathBuf) : IO io_Error PathBuf := query (fun _ => Ok p).

(** ** New files and locks *)

(** A number no file has had. *)
Definition next_inode (fs : FsState) : N :=
  1 + N.max (map_fold (fun _ i n => N.max i n) 0 (names fs)) (map_fold (fun i _ n => N.max i n) 0 (inodes fs)).

Definition empty_file (mode : N) : Inode := mkInode Regular 1 mode [] false None.

Definition make_file (mode : N) (p : PathBuf) (fs : FsState) : res io_Error N * FsState :=
  if decide (p_dir p ∈ dirs fs)
  then (Ok (next_inode fs), link p (next_inode fs) (empty_file mode) fs)
  else (Err (mkIo NotFound []), fs).

(** [OpenOptions] with [create] and [O_NOFOLLOW]: an existing file opens, a missing one is
    made with the mode given; [create_new] wants there to be none. *)
Definition open_create_fs (mode : N) (p : PathBuf) (fs : FsState) : res io_Error N * FsState :=
  match names fs !! p, entry p fs with
  | None, _ => make_file mode p fs
  | Some _, Some (i, ino) =>
      match i_kind ino with
      | Symlink _ => (Err (mkIo FilesystemLoop []), fs)
      | Directory => (Err (mkIo IsADirectory []), fs)
      | _ => (Ok i, fs)
      end
  | Some _, None => (Err (mkIo NotFound []), fs)
  end.

Definition open_create (mode : N) (p : PathBuf) : IO io_Error N := update (open_create_fs mode p).

Definition open_create_new (mode : N) (p : PathBuf) : IO io_Error N :=
  update (fun fs => match names fs !! p with
                    | None => make_file mode p fs
                    | Some _ => (Err (mkIo AlreadyExists []), fs)
                    end).

(** [File::try_lock] by the open file [fd]: [false] is [WouldBlock]. *)
Definition try_lock (fd h : N) : IO io_Error bool :=
  update (fun fs => match inodes fs !! h with
                    | Some ino =>
                        match i_locked ino with
                        | None => (Ok true, set_inode h (set_locked (Some fd) ino) fs)
                        | Some other => (Ok (other =? fd), fs)
                        end
                    | None => (Panic, fs)
                    end).

(** Dropping the open file [fd] on [h]: its lock goes with it; nothing is reported. *)
Definition close_fs (fd h : N) (fs : FsState) : FsState :=
  match inodes fs !! h with
  | Some ino => if bool_decide (i_locked ino = Some fd) then set_inode h (set_locked None ino) fs else fs
  | None => fs
  end.

Definition close (fd h : N) : IO io_Error unit :=
  syscall (fun _ fs => (Ok tt, close_fs fd h fs)) (fun _ fs => close_fs fd h fs).

(** [rewind]. *)
Definition rewind (h : N) : IO io_Error unit := query (fun _ => Ok tt).

(** [fs::canonicalize] of a directory: directories are known by their canonical paths. *)
Definition canonicalize (d : bytes) : IO io_Error bytes :=
  query (fun fs => if decide (d ∈ dirs fs) then Ok d else Err (mkIo NotFound [])).

(** Splitting at the last of a byte. *)
Fixpoint rsplit_once (c : byte) (s : bytes) : option (bytes * bytes) :=
  match s with
  | [] => None
  | b :: s' =>
      match rsplit_once c s' with
      | Some (before, after) => Some (b :: before, after)
      | None => if Byte.eqb b c then Some ([], s') else None
      end
  end.

(** [fs::symlink_metadata] of a path that may be a directory: the type of the file. *)
Definition file_type_at (d : bytes) : IO io_Error FileKind :=
  query (fun fs =>
    if decide (d ∈ dirs fs) then Ok Directory
    else match rsplit_once (byte_of 47) d with
         | Some (parent, name) =>
             match entry (mkPath parent name) fs with
             | Some (_, ino) => Ok (i_kind ino)
             | None => Err (mkIo NotFound [])
             end
         | None => Err (mkIo NotFound [])
         end).

(** ** Crashes

    A crash keeps the contents that were synced; an entry comes back as it was last seen or
    as it last reached the disk; anything may be left of contents that were not synced. *)
Record crash (fs fs' : FsState) : Prop := {
  crash_names : forall p, names fs' !! p = names fs !! p \/ names fs' !! p = durable fs !! p;
  crash_inodes : forall i ino, inodes fs !! i = Some ino -> i_synced ino = true -> inodes fs' !! i = Some ino
}.

(** ** Weakest preconditions

    [wp T I m Q fs]: run from [fs] under any schedule of ticks [T] allows, [m] ends with an
    outcome and a state in [Q], and every state it logs on the way is in [I]. *)
Section wp.
Context (T : Tick -> Prop) (I : FsState -> Prop).

Definition wp {E A} (m : IO E A) (Q : res E A -> FsState -> Prop) (fs : FsState) : Prop :=
  forall env log, Forall T env ->
    exists r w', m (mkWorld fs env log) = (r, w') /\ Q r (w_fs w') /\ Forall T (w_env w') /\
      exists l, w_log w' = l ++ log /\ Forall I l.

Lemma wp_ret {E A} (r : res E A) Q fs : Q r fs -> wp (io_ret r) Q fs.
Proof. intros HQ env log HT. exists r, (mkWorld fs env log). split_and!; try done. by exists []. Qed.

Lemma wp_mono {E A} (m : IO E A) (Q Q' : res E A -> FsState -> Prop) fs :
  wp m Q fs -> (forall r fs', Q r fs' -> Q' r fs') -> wp m Q' fs.
Proof. intros Hm HQ env log HT. destruct (Hm env log HT) as (r & w' & ? & ? & ?). exists r, w'. eauto. Qed.

Lemma wp_match {E F A B} (m : IO E A) (k : res E A -> IO F B) Q fs :
  wp m (fun r => wp (k r) Q) fs -> wp (io_match m k) Q fs.
Proof.
  intros Hm env log HT. destruct (Hm env log HT) as (r & [fs1 env1 log1] & E1 & Hk & HT1 & l1 & El1 & Hl1).
  simpl in *. destruct (Hk env1 log1 HT1) as (r2 & w2 & E2 & HQ & HT2 & l2 & El2 & Hl2).
  exists r2, w2. unfold io_match. rewrite E1, E2. split; [done|]. split; [done|]. split; [done|].
  exists (l2 ++ l1). rewrite El2, El1, <- app_assoc. split; [done|]. by apply Forall_app.
Qed.

Lemma wp_bind {E A B} (m : IO E A) (k : A -> IO E B) Q fs :
  wp m (fun r => match r with
                 | Ok a => wp (k a) Q
                 | Err e => Q (Err e)
                 | Panic => Q Panic
                 end) fs -> wp (io_bind m k) Q fs.
Proof.
  intros Hm. cut (wp (io_match m (fun r => match r with
    | Ok a => k a | Err e => io_ret (Err e) | Panic => io_ret Panic end)) Q fs).
  { intros Hw env log HT. destruct (Hw env log HT) as (r & w' & Hr & rest).
    exists r, w'. split; [|done]. revert Hr. unfold io_match, io_bind.
    destruct (m (mkWorld fs env log)) as [[] ?]; done. }
  apply wp_match. eapply wp_mono; [exact Hm|]. intros [] ? ?; [done| |]; by apply wp_ret.
Qed.

Lemma wp_map_err {E F A} (f : E -> F) (m : IO E A) Q fs :
  wp m (fun r => Q (map_err f r)) fs -> wp (io_map_err f m) Q fs.
Proof.
  intros Hm env log HT. destruct (Hm env log HT) as (r & w' & Er & rest).
  exists (map_err f r), w'. unfold io_map_err. by rewrite Er.
Qed.

(** A step, whatever the tick. *)
Lemma wp_syscall {A} (op : Tick -> FsState -> res io_Error A * FsState) broken
    (Q : res io_Error A -> FsState -> Prop) fs :
  T quiet ->
  (forall t, T t ->
     let fs1 := t_change t fs in
     match t_fault t with
     | Some e => I (broken t fs1) /\ Q (Err e) (broken t fs1)
     | None => I (snd (op t fs1)) /\ Q (fst (op t fs1)) (snd (op t fs1))
     end) ->
  wp (syscall op broken) Q fs.
Proof.
  intros Hq Hop env log HT. unfold syscall. cbn [w_env w_fs w_log].
  assert (exists t env', next_tick env = (t, env') /\ T t /\ Forall T env') as (t & env' & -> & Ht & HT').
  { destruct HT as [|t env' Ht HT]; [exists quiet, []; by split_and!|].
    exists t, env'. by split_and!. }
  specialize (Hop t Ht). cbn zeta in Hop.
  destruct (t_fault t) as [e|].
  - destruct Hop as [HI HQ]. eexists _, _. split; [done|]. cbn. split; [done|]. split; [done|].
    exists [broken t (t_change t fs)]. by split; [|constructor].
  - destruct (op t (t_change t fs)) as [r fs']. destruct Hop as [HI HQ]. eexists _, _. split; [done|].
    cbn in *. split; [done|]. split; [done|]. exists [fs']. by split; [|constructor].
Qed.

(** A step under interference: what holds whatever others do ([J]) holds where the step is
    made. *)
Lemma wp_stable {A} (J : FsState -> Prop) (op : Tick -> FsState -> res io_Error A * FsState) broken
    (Q : res io_Error A -> FsState -> Prop) fs :
  T quiet -> (forall t f, T t -> J f -> J (t_change t f)) -> J fs ->
  (forall e t f, J f -> I (broken t f) /\ Q (Err e) (broken t f)) ->
  (forall t f, J f -> I (snd (op t f)) /\ Q (fst (op t f)) (snd (op t f))) ->
  wp (syscall op broken) Q fs.
Proof.
  intros Hq HJ Hfs Hb Hop. apply wp_syscall; [done|]. intros t Ht. cbn zeta.
  assert (J (t_change t fs)) as Hfs' by auto. destruct (t_fault t); auto.
Qed.
End wp.

Lemma wp_log_mono T (I I' : FsState -> Prop) {E A} (m : IO E A) Q fs :
  wp T I m Q fs -> (forall f, I f -> I' f) -> wp T I' m Q fs.
Proof.
  intros Hm HI env log HT. destruct (Hm env log HT) as (r & w' & Er & HQ & HT' & l & El & Hl).
  exists r, w'. split_and!; try done. exists l. split; [done|]. by eapply Forall_impl.
Qed.

(** ** Fresh numbers *)
Lemma max_value_spec (m : gmap PathBuf N) p i :
  m !! p = Some i -> i <= map_fold (fun _ i n => N.max i n) 0 m.
Proof.
  revert p i.
  apply (map_fold_weak_ind (fun n m => forall p i, m !! p = Some i -> i <= n)); [done|].
  intros q j m' n Hq IH p i. rewrite lookup_insert. case_decide; [intros [= ->]; lia|].
  intros Hp. specialize (IH _ _ Hp). lia.
Qed.

Lemma max_key_spec (m : gmap N Inode) i ino :
  m !! i = Some ino -> i <= map_fold (fun i _ n => N.max i n) 0 m.
Proof.
  revert i ino.
  apply (map_fold_weak_ind (fun n m => forall i ino, m !! i = Some ino -> i <= n)); [done|].
  intros j x m' n Hq IH i ino. rewrite lookup_insert. case_decide; [subst; intros _; lia|].
  intros Hp. specialize (IH _ _ Hp). lia.
Qed.

Lemma next_inode_free fs : inodes fs !! next_inode fs = None.
Proof.
  destruct (inodes fs !! next_inode fs) eqn:E; [|done]. apply max_key_spec in E. unfold next_inode in E. lia.
Qed.

Lemma next_inode_unnamed fs q : names fs !! q <> Some (next_inode fs).
Proof. intros E. apply max_value_spec in E. unfold next_inode in E. lia. Qed.

(** ** Which ticks

    [calm]: nobody else touches the files, steps may still fail, for a reason that is not
    the state of the files.  [smooth]: nor does anything fail. *)
Definition genuine (e : io_Error) : Prop := io_kind e <> NotFound /\ io_kind e <> AlreadyExists.
Definition calm (t : Tick) : Prop :=
  (forall fs, t_change t fs = fs) /\ forall e, t_fault t = Some e -> genuine e.
Definition smooth (t : Tick) : Prop := calm t /\ t_fault t = None.

(** A class of schedules under which only the program touches the files. *)
Class Calm (T : Tick -> Prop) : Prop := {
  calm_ticks : forall t, T t -> calm t;
  calm_has_quiet : T quiet
}.

#[export] Instance calm_calm : Calm calm.
Proof. by split; [|split]. Qed.

#[export] Instance smooth_calm : Calm smooth.
Proof. split; [by intros ? []|by split]. Qed.

(** [e] is a failure steps may report under [T]. *)
Definition faulty (T : Tick -> Prop) (e : io_Error) : Prop :=
  genuine e /\ exists t, T t /\ t_fault t = Some e.

Lemma smooth_never_fails e : ~ faulty smooth e.
Proof. intros (_ & t & [_ Hn] & He). congruence. Qed.

Section calm_steps.
Context (T : Tick -> Prop) `{Calm T} (I : FsState -> Prop).

(** A step that fails leaves what [broken] says, and only where [T] lets steps fail. *)
Lemma calm_syscall {A} (op : Tick -> FsState -> res io_Error A * FsState) broken
    (Q : res io_Error A -> FsState -> Prop) fs :
  (forall e, faulty T e -> forall t, I (broken t fs) /\ Q (Err e) (broken t fs)) ->
  (forall t, I (snd (op t fs)) /\ Q (fst (op t fs)) (snd (op t fs))) -> wp T I (syscall op broken) Q fs.
Proof.
  intros Hb Hop. apply wp_syscall; [apply calm_has_quiet|]. intros t Ht. cbn zeta.
  destruct (calm_ticks t Ht) as [Hc Hg]. rewrite Hc. destruct (t_fault t) as [e|] eqn:E; [|apply Hop].
  apply Hb. split; [by apply Hg|]. by exists t.
Qed.

Lemma calm_query {A} (f : FsState -> res io_Error A) (Q : res io_Error A -> FsState -> Prop) fs :
  I fs -> (forall e, faulty T e -> Q (Err e) fs) -> Q (f fs) fs -> wp T I (query f) Q fs.
Proof. intros HI He Hf. apply calm_syscall; auto. Qed.

Lemma calm_update {A} (f : FsState -> res io_Error A * FsState) (Q : res io_Error A -> FsState -> Prop) fs :
  I fs -> (forall e, faulty T e -> Q (Err e) fs) -> I (snd (f fs)) -> Q (fst (f fs)) (snd (f fs)) ->
  wp T I (update f) Q fs.
Proof. intros HI He HI' Hf. apply calm_syscall; auto. Qed.
End calm_steps.

(** One step of a walk through a program. *)
Ltac io_step :=
  lazymatch goal with
  | |- wp _ _ (io_bind _ _) _ _ => apply wp_bind
  | |- wp _ _ (io_map_err _ _) _ _ => apply wp_map_err
  | |- wp _ _ (io_match _ _) _ _ => apply wp_match
  | |- wp _ _ (io_ret _) _ _ => apply wp_ret
  | |- wp _ _ (query _) _ _ => apply calm_query; [apply _|auto..|]
  | |- wp _ _ (update _) _ _ => apply calm_update; [apply _|auto..| |]
  end.
