(* ===== verification/Atomic.v ===== *)
(** * Atomic installation of files (crates/cc-wallet-storage/src/atomic.rs, and the no-follow
    reads of vault_store.rs)

    A wallet file is replaced by writing a temporary file, syncing it, reading it back and
    renaming it over the old one.  The tempfile crate is a parameter. *)

From Stdlib Require Import NArith Lia.
From stdpp Require Import gmap.
From S2P Require Import Prelude Ord Bytes Text Decimal Fs.

(** ** vault_store.rs: reading *)
Definition io_at_path (operation : string) (p : PathBuf) (e : io_Error) : io_Error :=
  mkIo (io_kind e) (bs operation ++ bs " " ++ display p ++ bs " failed: " ++ io_text e).

(** [nlink != 1]. *)
Definition has_multiple_links (m : Metadata) : bool := negb (i_nlink (m_inode m) =? 1).

(** The inode numbers agree (one device). *)
Definition same_identity (l r : Metadata) : bool := m_ino l =? m_ino r.

Definition not_singly_linked (m : Metadata) : bool :=
  negb (is_file m) || is_symlink m || has_multiple_links m.

Definition changed (what : string) (p : PathBuf) : io_Error := mkIo InvalidData (bs what ++ display p).

(** What both reads below start with: the file is looked at, opened, and looked at again. *)
Definition open_singly_linked (p : PathBuf) : IO io_Error (N * Metadata) :=
  let! initial := io_map_err (io_at_path "reading wallet artifact metadata at" p) (symlink_metadata p) in
  check! negb (not_singly_linked initial)
    else changed "wallet artifact is not a singly-linked regular file: " p ;;
  let! file := io_map_err (io_at_path "opening wallet artifact without following links at" p)
                 (open_nofollow false p) in
  let! opened := io_map_err (io_at_path "reading opened wallet artifact metadata at" p)
                   (file_metadata file) in
  check! same_identity initial opened else changed "wallet artifact changed while opening: " p ;;
  io_ret (Ok (file, opened)).

Definition read_regular_nofollow (p : PathBuf) : IO io_Error bytes :=
  let! (file, opened) := open_singly_linked p in
  let! data := io_map_err (io_at_path "reading wallet artifact at" p) (read_to_end file) in
  let! final := io_map_err (io_at_path "rechecking wallet artifact metadata at" p) (symlink_metadata p) in
  check! same_identity opened final && (m_len opened =? N.of_nat (length data))
    else changed "wallet artifact changed while reading: " p ;;
  io_ret (Ok data).

Definition read_prefix_nofollow (p : PathBuf) (cap : nat) : IO io_Error (bytes * N) :=
  let! (file, opened) := open_singly_linked p in
  let! data := io_map_err (io_at_path "reading wallet artifact at" p) (read_take file cap) in
  let! final := io_map_err (io_at_path "rechecking wallet artifact metadata at" p) (symlink_metadata p) in
  check! same_identity opened final && (m_len opened =? m_len final)
    else changed "wallet artifact changed while reading: " p ;;
  io_ret (Ok (data, m_len opened)).

(** ** The tempfile crate

    [tf_create prefix suffix dir] makes a file of a random name, [tf_persist] renames it over
    a target, [tf_persist_noclobber] only where there is none, [tf_drop] is what dropping the
    handle does. *)
Class Tempfile := {
  tf_create : bytes -> bytes -> bytes -> FsState -> res io_Error (PathBuf * N) * FsState;
  tf_persist : PathBuf -> PathBuf -> FsState -> res io_Error unit * FsState;
  tf_persist_noclobber : PathBuf -> PathBuf -> FsState -> res io_Error unit * FsState;
  tf_drop : PathBuf -> FsState -> FsState
}.

(** A fresh temporary file: empty, owner-only, one name. *)
Definition temp_inode : Inode := mkInode Regular 1 384 [] false None.

(** Its documentation: creation is exclusive, a failed call leaves the files alone,
    persisting is one rename, an existing target is reported as such, dropping removes the
    file if it can. *)
Class TempfileLaws `{Tempfile} : Prop := {
  tf_create_ok : forall prefix suffix d fs p i fs',
    tf_create prefix suffix d fs = (Ok (p, i), fs') ->
    (exists random, p = mkPath d (prefix ++ random ++ suffix)) /\ names fs !! p = None /\
    inodes fs !! i = None /\ (forall q, names fs !! q <> Some i) /\ fs' = link p i temp_inode fs;
  tf_create_err : forall prefix suffix d fs r fs',
    tf_create prefix suffix d fs = (r, fs') -> is_ok r = false -> is_err r = true /\ fs' = fs;
  tf_persist_ok : forall p q fs fs', tf_persist p q fs = (Ok tt, fs') -> fs' = move p q fs;
  tf_persist_err : forall p q fs r fs',
    tf_persist p q fs = (r, fs') -> is_ok r = false -> is_err r = true /\ fs' = fs;
  tf_noclobber_ok : forall p q fs fs',
    tf_persist_noclobber p q fs = (Ok tt, fs') -> names fs !! q = None /\ fs' = move p q fs;
  tf_noclobber_err : forall p q fs r fs',
    tf_persist_noclobber p q fs = (r, fs') -> is_ok r = false -> is_err r = true /\ fs' = fs;
  tf_noclobber_exists : forall p q fs e fs',
    tf_persist_noclobber p q fs = (Err e, fs') -> is_Some (names fs !! p) ->
    io_kind e = AlreadyExists <-> is_Some (names fs !! q);
  tf_drop_cases : forall p fs, tf_drop p fs = fs \/ tf_drop p fs = unlink p fs
}.

(** It works where nothing stands in the way. *)
Class TempfileWorks `{Tempfile} : Prop := {
  tf_create_works : forall prefix suffix d fs, d ∈ dirs fs -> is_ok (fst (tf_create prefix suffix d fs)) = true;
  tf_persist_works : forall p q fs, is_Some (entry p fs) ->
    (forall i ino, entry q fs = Some (i, ino) -> i_kind ino = Regular) ->
    is_ok (fst (tf_persist p q fs)) = true;
  tf_noclobber_works : forall p q fs, is_Some (entry p fs) -> names fs !! q = None ->
    is_ok (fst (tf_persist_noclobber p q fs)) = true
}.

Section atomic.
Context `{Tempfile}.

(** Dropping a handle takes a step of its own and reports nothing. *)
Definition drop_temp (p : PathBuf) : IO io_Error unit :=
  syscall (fun _ fs => (Ok tt, tf_drop p fs)) (fun _ fs => tf_drop p fs).

Definition temp_prefix (target : PathBuf) : bytes := p_file target ++ bs ".".

(** A temporary file for the duration of [body]; when [body] fails the handle is dropped. *)
Definition with_tempfile {A} (prefix suffix d : bytes) (body : PathBuf -> N -> IO io_Error A) : IO io_Error A :=
  let! (p, h) := update (tf_create prefix suffix d) in
  match! body p h with r =>
  match r with
  | Ok a => io_ret (Ok a)
  | r => match! drop_temp p with _ => io_ret r
  end.

Definition set_owner_only (h : N) : IO io_Error unit := set_permissions h 384.

(** [before_temp_sync] and [after_rename] do nothing outside tests. *)
Definition sync_directory (d : bytes) : IO io_Error unit :=
  let! _ := open_directory d in sync_directory_handle d.

Definition write_atomic_impl (target : PathBuf) (data : bytes) (noclobber : bool) : IO io_Error unit :=
  let d := p_dir target in
  let! _ := with_tempfile (temp_prefix target) (bs ".tmp") d (fun tmp h =>
    let! _ := set_owner_only h in
    let! _ := write_all_at h 0 data in
    let! _ := sync_all h in
    let! readback := fs_read tmp in
    check! bool_decide (readback = data)
      else mkIo InvalidData (bs "wallet write readback mismatch, refusing to overwrite the previous file") ;;
    if noclobber then
      io_map_err (fun e => if bool_decide (io_kind e = AlreadyExists)
                           then mkIo AlreadyExists (bs "a wallet file already exists at this path; refusing to overwrite it")
                           else e)
        (update (tf_persist_noclobber tmp target))
    else update (tf_persist tmp target)) in
  sync_directory d.

Definition write_atomic (target : PathBuf) (data : bytes) : IO io_Error unit :=
  write_atomic_impl target data false.
Definition write_atomic_new (target : PathBuf) (data : bytes) : IO io_Error unit :=
  write_atomic_impl target data true.

(** [mode & 0o077 != 0] is refused. *)
Definition read_owner_only_orphan (p : PathBuf) : IO io_Error bytes :=
  let! data := read_regular_nofollow p in
  let! m := symlink_metadata p in
  check! N.land (i_mode (m_inode m)) 63 =? 0
    else mkIo PermissionDenied (bs "quarantine copy is not owner-only") ;;
  io_ret (Ok data).

(** [install_orphan_copy] once no copy was found. *)
Definition install_new_orphan (orphan : PathBuf) (source : bytes) : IO io_Error unit :=
  let d := p_dir orphan in
  let! _ := with_tempfile (temp_prefix orphan) (bs ".tmp") d (fun tmp h =>
    let! _ := set_owner_only h in
    let! _ := write_all_at h 0 source in
    let! _ := sync_all h in
    let! readback := fs_read tmp in
    check! bool_decide (readback = source)
      else mkIo InvalidData (bs "quarantine copy readback mismatch, refusing to install") ;;
    match! update (tf_persist_noclobber tmp orphan) with r =>
    match r with
    | Err e =>
        if bool_decide (io_kind e = AlreadyExists) then
          let! existing := read_owner_only_orphan orphan in
          check! bool_decide (existing = source)
            else mkIo AlreadyExists (bs "a different quarantine copy appeared at this counter") ;;
          match! drop_temp tmp with _ => io_ret (Ok tt)
        else io_ret (Err e)
    | r => io_ret r
    end) in
  sync_directory d.

Definition install_orphan_copy (orphan : PathBuf) (source : bytes) : IO io_Error unit :=
  match! read_owner_only_orphan orphan with r =>
  match r with
  | Ok existing =>
      if bool_decide (existing = source) then
        let! h := file_open orphan in
        let! _ := sync_all h in
        sync_directory (p_dir orphan)
      else io_ret (Err (mkIo AlreadyExists (bs "a different quarantine copy already exists at this counter")))
  | Err e => if bool_decide (io_kind e = NotFound) then install_new_orphan orphan source else io_ret (Err e)
  | Panic => io_ret Panic
  end.
End atomic.

(** The loop over a directory's entries; each [entry?] may fail. *)
Fixpoint collect_entries (keep : PathBuf -> bool) (l : list PathBuf) : IO io_Error (list PathBuf) :=
  match l with
  | [] => io_ret (Ok [])
  | p :: l' =>
      let! p := next_entry p in
      let! out := collect_entries keep l' in
      io_ret (Ok (if keep p then p :: out else out))
  end.

Definition is_residue (target : PathBuf) (suffix : string) (p : PathBuf) : bool :=
  utf8_valid (p_file p) && starts_with (temp_prefix target) (p_file p) && ends_with (bs suffix) (p_file p).

Definition try_list_residue (target : PathBuf) (suffix : string) : IO io_Error (list PathBuf) :=
  match! open_dir (p_dir target) with r =>
  match r with
  | Ok entries => collect_entries (is_residue target suffix) entries
  | Err e => if bool_decide (io_kind e = NotFound) then io_ret (Ok []) else io_ret (Err e)
  | Panic => io_ret Panic
  end.

Definition try_list_temps (target : PathBuf) : IO io_Error (list PathBuf) := try_list_residue target ".tmp".
Definition try_list_orphans (target : PathBuf) : IO io_Error (list PathBuf) := try_list_residue target ".orphan".

(** ** What the steps do to the files *)
Definition content (p : PathBuf) (fs : FsState) : option bytes := i_data ∘ snd <$> entry p fs.

Lemma entry_Some p fs i ino : entry p fs = Some (i, ino) <-> names fs !! p = Some i /\ inodes fs !! i = Some ino.
Proof.
  unfold entry. destruct (names fs !! p) as [j|]; [|naive_solver].
  destruct (inodes fs !! j) eqn:E; naive_solver.
Qed.

Lemma link_eq p i ino fs :
  link p i ino fs = mkFs (dirs fs) (<[p := i]> (names fs)) (durable fs) (<[i := ino]> (inodes fs)).
Proof. done. Qed.

Lemma entry_link p i ino fs : entry p (link p i ino fs) = Some (i, ino).
Proof. apply entry_Some. rewrite link_eq. cbn. by rewrite !lookup_insert_eq. Qed.

Lemma entry_link_ne p q i ino fs :
  p <> q -> (forall j, names fs !! q = Some j -> j <> i) -> entry q (link p i ino fs) = entry q fs.
Proof.
  intros Hpq Hi. unfold entry. rewrite link_eq. cbn. rewrite lookup_insert_ne by done.
  destruct (names fs !! q) as [j|] eqn:E; [|done]. rewrite lookup_insert_ne by (symmetry; eauto). done.
Qed.

Lemma on_inode_link h f p ino fs : on_inode h f (link p h ino fs) = (Ok tt, link p h (f ino) fs).
Proof.
  unfold on_inode. rewrite link_eq. cbn. rewrite lookup_insert_eq. unfold set_inode, link, set_inode, set_names.
  cbn. by rewrite insert_insert_eq.
Qed.

Lemma overwrite_empty d : overwrite_at 0 d [] = d.
Proof. unfold overwrite_at. cbn. by rewrite drop_nil, app_nil_r. Qed.

Lemma resolve_link fuel p h ino fs :
  i_kind ino = Regular -> resolve fuel p (link p h ino fs) = Ok (h, ino).
Proof. intros Hk. destruct fuel; cbn [resolve]; by rewrite entry_link, Hk. Qed.

(** The state after [unlink]. *)
Lemma unlink_eq p fs i ino :
  entry p fs = Some (i, ino) ->
  unlink p fs = mkFs (dirs fs) (delete p (names fs)) (durable fs) (<[i := set_nlink (i_nlink ino - 1) ino]> (inodes fs)).
Proof. intros E. unfold unlink. by rewrite E. Qed.

(** ** Atomic replacement

    [sound_at old new p fs]: the entry of [p], as seen and as on the disk, leads to nothing
    where [old] is nothing, and else to synced contents that are [old] or [new]. *)
Definition sound_file (old : option bytes) (new : bytes) (fs : FsState) (o : option N) : Prop :=
  match o with
  | None => old = None
  | Some i => exists ino, inodes fs !! i = Some ino /\ i_synced ino = true /\
                          (old = Some (i_data ino) \/ i_data ino = new)
  end.

Definition sound_at (old : option bytes) (new : bytes) (p : PathBuf) (fs : FsState) : Prop :=
  sound_file old new fs (names fs !! p) /\ sound_file old new fs (durable fs !! p).

Lemma sound_at_crash old new p fs fs' :
  sound_at old new p fs -> crash fs fs' -> content p fs' = old \/ content p fs' = Some new.
Proof.
  intros [Hn Hd] [Hnames Hinodes].
  assert (sound_file old new fs (names fs' !! p)) as Hs by (destruct (Hnames p) as [-> | ->]; done).
  unfold content, entry. destruct (names fs' !! p) as [i|]; [|by left; rewrite Hs].
  destruct Hs as (ino & Hino & Hsync & Hdata). rewrite (Hinodes _ _ Hino Hsync). cbn.
  destruct Hdata as [-> | ->]; auto.
Qed.

Lemma sound_file_insert old new fs fs' o i ino :
  sound_file old new fs o -> inodes fs' = <[i := ino]> (inodes fs) -> o <> Some i ->
  sound_file old new fs' o.
Proof.
  intros Hs Hi Ho. destruct o as [j|]; [|done]. destruct Hs as (ino' & Hj & rest).
  exists ino'. rewrite Hi, lookup_insert_ne by congruence. done.
Qed.

(** Changing the link count of a file changes nothing here. *)
Lemma sound_file_nlink old new fs fs' o i ino n :
  sound_file old new fs o -> inodes fs !! i = Some ino -> inodes fs' = <[i := set_nlink n ino]> (inodes fs) ->
  sound_file old new fs' o.
Proof.
  intros Hs Hino Hi. destruct o as [j|]; [|done]. destruct Hs as (ino' & Hj & Hsync & Hdata).
  unfold sound_file. rewrite Hi. destruct (decide (i = j)) as [->|].
  - rewrite lookup_insert_eq. exists (set_nlink n ino). simplify_eq. done.
  - rewrite lookup_insert_ne by done. eauto.
Qed.

Lemma durable_flush d fs q :
  durable (flush_dir d fs) !! q = if decide (p_dir q = d) then names fs !! q else durable fs !! q.
Proof.
  unfold flush_dir, set_durable. cbn. destruct (decide (p_dir q = d)) as [Hp|Hp].
  - rewrite lookup_union_l; [|by apply map_lookup_filter_None_2; right; intros ? ?; cbn; naive_solver].
    rewrite map_lookup_filter. destruct (names fs !! q); [|done]. cbn. by rewrite option_guard_True.
  - rewrite lookup_union_r; [|by apply map_lookup_filter_None_2; right; intros ? ?; cbn].
    rewrite map_lookup_filter. destruct (durable fs !! q); [|done]. cbn. by rewrite option_guard_True.
Qed.

Lemma sound_at_flush old new p d fs : sound_at old new p fs -> sound_at old new p (flush_dir d fs).
Proof. intros [Hn Hd]. split; [done|]. rewrite durable_flush. by destruct (decide _). Qed.

(** A temporary beside the target: fresh, and of a longer name. *)
Record fresh_temp (target tmp : PathBuf) (h : N) (fs : FsState) : Prop := {
  ft_dir : p_dir tmp = p_dir target;
  ft_name : exists random suffix, p_file tmp = temp_prefix target ++ random ++ suffix;
  ft_free : names fs !! tmp = None;
  ft_inode : inodes fs !! h = None;
  ft_unnamed : forall q, names fs !! q <> Some h
}.

Lemma fresh_temp_ne target tmp h fs : fresh_temp target tmp h fs -> tmp <> target.
Proof.
  intros [_ (random & suffix & Hn) _ _ _] ->. apply (f_equal length) in Hn.
  unfold temp_prefix in Hn. rewrite !length_app in Hn. cbn in Hn. lia.
Qed.

Lemma fresh_temp_create `{TempfileLaws} target suffix fs tmp h fs' :
  tf_create (temp_prefix target) suffix (p_dir target) fs = (Ok (tmp, h), fs') ->
  fresh_temp target tmp h fs /\ fs' = link tmp h temp_inode fs.
Proof.
  intros E. destruct (tf_create_ok _ _ _ _ _ _ _ E) as ([random ->] & Hn & Hi & Hu & ->).
  split; [|done]. split; eauto.
Qed.

Section replace.
Context (old : option bytes) (new : bytes) (target tmp : PathBuf) (h : N) (fs : FsState).
Context (Hft : fresh_temp target tmp h fs) (Hs : sound_at old new target fs).

Lemma durable_not_fresh : durable fs !! target <> Some h.
Proof.
  destruct Hs as [_ Hd]. intros E. rewrite E in Hd. destruct Hd as (ino & Hino & _).
  by rewrite (ft_inode _ _ _ _ Hft) in Hino.
Qed.

Lemma sound_at_link ino : sound_at old new target (link tmp h ino fs).
Proof.
  destruct Hs as [Hn Hd]. split.
  - assert (names (link tmp h ino fs) !! target = names fs !! target) as ->.
    { rewrite link_eq. cbn. by rewrite lookup_insert_ne by (by eapply fresh_temp_ne). }
    eapply sound_file_insert; [exact Hn|done|apply Hft].
  - eapply sound_file_insert; [exact Hd|done|exact durable_not_fresh].
Qed.

Lemma unlink_temp ino :
  unlink tmp (link tmp h ino fs) =
    mkFs (dirs fs) (names fs) (durable fs) (<[h := set_nlink (i_nlink ino - 1) ino]> (inodes fs)).
Proof.
  rewrite (unlink_eq _ _ h ino) by apply entry_link. rewrite link_eq. cbn.
  by rewrite insert_insert_eq, delete_insert_id by apply Hft.
Qed.

Lemma sound_at_unlink ino : sound_at old new target (unlink tmp (link tmp h ino fs)).
Proof.
  rewrite unlink_temp. destruct Hs as [Hn Hd].
  split; eapply sound_file_insert; try done; [apply Hft|exact durable_not_fresh].
Qed.

(** The rename, with the old file's link gone. *)
Lemma move_temp ino :
  move tmp target (link tmp h ino fs) =
    mkFs (dirs fs) (<[target := h]> (names fs)) (durable fs)
      (match entry target fs with
       | Some (i, x) => <[i := set_nlink (i_nlink x - 1) x]> (<[h := ino]> (inodes fs))
       | None => <[h := ino]> (inodes fs)
       end).
Proof.
  assert (entry target (link tmp h ino fs) = entry target fs) as Ee.
  { apply entry_link_ne; [by eapply fresh_temp_ne|]. intros j Hj ->. by apply (ft_unnamed _ _ _ _ Hft) in Hj. }
  unfold move. replace (names (link tmp h ino fs)) with (<[tmp := h]> (names fs)) by done.
  rewrite lookup_insert_eq, lookup_insert_ne by (by eapply fresh_temp_ne).
  rewrite bool_decide_eq_false_2 by apply Hft. unfold unlink. rewrite Ee.
  destruct (entry target fs) as [[i x]|]; unfold set_inode, set_names; cbn; f_equal.
  - rewrite delete_delete, delete_insert_id by apply Hft. by rewrite insert_delete_eq.
  - by rewrite delete_insert_id by apply Hft.
Qed.

Lemma inode_move_temp ino : inodes (move tmp target (link tmp h ino fs)) !! h = Some ino.
Proof.
  rewrite move_temp. cbn. destruct (entry target fs) as [[i x]|] eqn:E; [|by rewrite lookup_insert_eq].
  apply entry_Some in E as [Hi _].
  rewrite lookup_insert_ne by (intros ->; by apply (ft_unnamed _ _ _ _ Hft) in Hi). by rewrite lookup_insert_eq.
Qed.

Lemma inode_move_other ino i :
  i <> h -> let fs' := move tmp target (link tmp h ino fs) in
  inodes fs' !! i = inodes fs !! i \/
  exists x, inodes fs !! i = Some x /\ inodes fs' !! i = Some (set_nlink (i_nlink x - 1) x).
Proof.
  intros Hi. cbn zeta. rewrite move_temp. cbn. destruct (entry target fs) as [[j x]|] eqn:E.
  - apply entry_Some in E as [Hj Hx]. destruct (decide (j = i)) as [->|].
    + right. exists x. by rewrite lookup_insert_eq.
    + left. by rewrite !lookup_insert_ne by done.
  - left. by rewrite lookup_insert_ne by done.
Qed.

Lemma sound_at_move ino :
  i_synced ino = true -> i_data ino = new -> sound_at old new target (move tmp target (link tmp h ino fs)).
Proof.
  intros Hsync Hdata. split.
  - rewrite move_temp at 2. cbn. rewrite lookup_insert_eq. exists ino.
    rewrite inode_move_temp. auto.
  - rewrite move_temp at 2. cbn. destruct Hs as [_ Hd]. destruct (durable fs !! target) as [i|]; [|done].
    destruct Hd as (x & Hx & Hsx & Hdx).
    destruct (inode_move_other ino i) as [Hi|(y & Hy & Hi)]; [intros ->; by rewrite (ft_inode _ _ _ _ Hft) in Hx| |].
    + exists x. by rewrite Hi.
    + simplify_eq. by exists (set_nlink (i_nlink x - 1) x).
Qed.

(** The contents elsewhere are untouched: nothing appears, nothing changes. *)
Lemma content_move ino q :
  q <> target -> content q (move tmp target (link tmp h ino fs)) = content q fs.
Proof.
  intros Hq. unfold content, entry.
  replace (names (move tmp target (link tmp h ino fs))) with (<[target := h]> (names fs)) by (by rewrite move_temp).
  rewrite lookup_insert_ne by done. destruct (names fs !! q) as [i|] eqn:E; [|done].
  destruct (inode_move_other ino i) as [-> |(x & -> & ->)];
    [intros ->; by apply (ft_unnamed _ _ _ _ Hft) in E|done|done].
Qed.
End replace.

(** *** The walk through [write_atomic_impl] *)
Definition staged_inode (data : bytes) : Inode := mkInode Regular 1 384 data true None.

Section writing.
Context (T : Tick -> Prop) `{Calm T} (I : FsState -> Prop) `{TempfileLaws}.

(** Filling the temporary: rights, contents, sync, read back. *)
Lemma stage_wp tmp h data error (k : IO io_Error unit) Q fs :
  (forall ino, I (link tmp h ino fs)) ->
  (forall e, faulty T e -> forall ino, Q (Err e) (link tmp h ino fs)) ->
  wp T I k Q (link tmp h (staged_inode data) fs) ->
  wp T I (let! _ := set_owner_only h in
          let! _ := write_all_at h 0 data in
          let! _ := sync_all h in
          let! readback := fs_read tmp in
          check! bool_decide (readback = data) else error ;; k) Q (link tmp h temp_inode fs).
Proof.
  intros HI He Hk. unfold set_owner_only, set_permissions, sync_all, fs_read.
  io_step. io_step; rewrite ?on_inode_link; cbn [fst snd]; [apply HI|].
  io_step. apply calm_syscall; [done| |]; intros; rewrite on_inode_link; cbn [fst snd]; [by auto|].
  split; [apply HI|]. rewrite overwrite_empty.
  io_step. io_step; rewrite ?on_inode_link; cbn [fst snd]; [apply HI|].
  io_step. io_step. rewrite resolve_link by done. cbn.
  by rewrite bool_decide_eq_true_2.
Qed.

Lemma sync_directory_wp d (Q : res io_Error unit -> FsState -> Prop) fs :
  I fs -> I (flush_dir d fs) -> (d ∈ dirs fs -> Q (Ok tt) (flush_dir d fs)) ->
  (forall e, faulty T e \/ d ∉ dirs fs -> Q (Err e) fs) -> wp T I (sync_directory d) Q fs.
Proof.
  intros HI HI' Hok He. unfold sync_directory, open_directory, sync_directory_handle.
  io_step. io_step. destruct (decide (d ∈ dirs fs)); [|by auto]. io_step; auto.
Qed.
End writing.

Section installing.
Context (T : Tick -> Prop) `{Calm T} `{TempfileLaws}.

Lemma with_tempfile_wp {A} I target suffix (body : PathBuf -> N -> IO io_Error A) Q fs :
  I fs ->
  (forall e, faulty T e \/ (forall p i fs', tf_create (temp_prefix target) suffix (p_dir target) fs <> (Ok (p, i), fs')) ->
   Q (Err e) fs) ->
  (forall tmp h, fresh_temp target tmp h fs ->
     I (link tmp h temp_inode fs) /\
     wp T I (body tmp h) (fun r fs' => match r with
                                       | Ok a => Q (Ok a) fs'
                                       | Err e => (I fs' /\ Q (Err e) fs') /\ (I (unlink tmp fs') /\ Q (Err e) (unlink tmp fs'))
                                       | Panic => False
                                       end) (link tmp h temp_inode fs)) ->
  wp T I (with_tempfile (temp_prefix target) suffix (p_dir target) body) Q fs.
Proof.
  intros HI He Hbody. unfold with_tempfile. io_step.
  destruct (tf_create (temp_prefix target) suffix (p_dir target) fs) as [r fs1] eqn:E.
  apply calm_update; [done|done|by auto| |]; rewrite ?E; cbn [fst snd].
  { destruct r as [[p i]|e|]; [|by edestruct tf_create_err as [? ->]; eauto..].
    apply fresh_temp_create in E as [Hft ->]. by apply Hbody. }
  destruct r as [[tmp h]|e|].
  - apply fresh_temp_create in E as [Hft ->]. destruct (Hbody _ _ Hft) as [HI1 Hb].
    io_step. eapply wp_mono; [exact Hb|]. intros [a|e|] fs' Hr; [by io_step| |done].
    io_step. unfold drop_temp. apply calm_syscall; [done|intros e' _ t|intros t]; cbn [fst snd];
      destruct (tf_drop_cases tmp fs') as [-> | ->]; split; try apply Hr; io_step; apply Hr.
  - edestruct tf_create_err as [_ ->]; [exact E|done|]. apply He. right. intros p i fs'. congruence.
  - by edestruct tf_create_err as [? _]; [exact E| |].
Qed.

(** What an installed file is: of this one name, and on the disk. *)
Definition installed (p : PathBuf) (data : bytes) (fs : FsState) : Prop :=
  exists h, entry p fs = Some (h, staged_inode data) /\ durable fs !! p = Some h /\
            forall q, names fs !! q = Some h -> q = p.

(** The outcome of a write: the target holds the new contents or is as it was, the other
    files are as they were, and success means installed. *)
Record write_outcome (target : PathBuf) (data : bytes) (fs : FsState) (r : res io_Error unit) (fs' : FsState) : Prop := {
  wo_sound : sound_at (content target fs) data target fs';
  wo_kept : forall q c, q <> target -> content q fs = Some c -> content q fs' = Some c;
  wo_target : content target fs' = content target fs \/ content target fs' = Some data;
  wo_result : match r with
              | Ok _ => installed target data fs' /\
                        forall q, q <> target -> content q fs' = content q fs /\ names fs' !! q = names fs !! q
              | Err _ => True
              | Panic => False
              end;
  wo_dirs : dirs fs' = dirs fs
}.

Section outcome.
Context (target tmp : PathBuf) (data : bytes) (h : N) (fs : FsState).
Context (Hs : sound_at (content target fs) data target fs).

Lemma outcome_refl e : write_outcome target data fs (Err e) fs.
Proof. split; auto. Qed.

Context (Hft : fresh_temp target tmp h fs).

Lemma content_link ino q : q <> tmp -> content q (link tmp h ino fs) = content q fs.
Proof.
  intros Hq. unfold content. rewrite entry_link_ne; [done|done|].
  intros j Hj ->. by apply (ft_unnamed _ _ _ _ Hft) in Hj.
Qed.

Lemma content_not_temp q c : content q fs = Some c -> q <> tmp.
Proof. intros Hc ->. unfold content, entry in Hc. by rewrite (ft_free _ _ _ _ Hft) in Hc. Qed.

Lemma content_unlink ino q : content q (unlink tmp (link tmp h ino fs)) = content q fs.
Proof.
  rewrite (unlink_temp _ _ _ _ Hft). unfold content, entry. cbn.
  destruct (names fs !! q) as [i|] eqn:E; [|done].
  by rewrite lookup_insert_ne by (intros ->; by apply (ft_unnamed _ _ _ _ Hft) in E).
Qed.

Lemma outcome_link ino e : write_outcome target data fs (Err e) (link tmp h ino fs).
Proof.
  assert (target <> tmp) by (symmetry; by eapply fresh_temp_ne).
  split; [by apply sound_at_link| | |done|done].
  - intros q c _ Hc. rewrite content_link; [done|by eapply content_not_temp].
  - left. by apply content_link.
Qed.

Lemma outcome_unlink ino e : write_outcome target data fs (Err e) (unlink tmp (link tmp h ino fs)).
Proof.
  split; [by apply sound_at_unlink|intros; rewrite content_unlink; auto..|done|].
  by rewrite (unlink_temp _ _ _ _ Hft).
Qed.

Lemma entry_moved ino : entry target (move tmp target (link tmp h ino fs)) = Some (h, ino).
Proof.
  apply entry_Some. split; [rewrite (move_temp _ _ _ _ Hft); cbn; by rewrite lookup_insert_eq|].
  by apply inode_move_temp.
Qed.

Lemma outcome_moved e : write_outcome target data fs (Err e) (move tmp target (link tmp h (staged_inode data) fs)).
Proof.
  split; [by apply sound_at_move| | |done|by rewrite (move_temp _ _ _ _ Hft)].
  - intros q c Hq Hc. by rewrite content_move.
  - right. unfold content. by rewrite entry_moved.
Qed.

Lemma outcome_installed :
  write_outcome target data fs (Ok tt)
    (flush_dir (p_dir target) (move tmp target (link tmp h (staged_inode data) fs))).
Proof.
  split; [by apply sound_at_flush, sound_at_move| | |split|cbn; by rewrite (move_temp _ _ _ _ Hft)].
  - intros q c Hq Hc. unfold content, entry. cbn. fold (entry q (move tmp target (link tmp h (staged_inode data) fs))).
    fold (content q (move tmp target (link tmp h (staged_inode data) fs))). by rewrite content_move.
  - right. change (content target (move tmp target (link tmp h (staged_inode data) fs)) = Some data).
    unfold content. by rewrite entry_moved.
  - exists h. split; [exact (entry_moved _)|].
    assert (forall q, names (move tmp target (link tmp h (staged_inode data) fs)) !! q = Some h -> q = target) as Honly.
    { intros q. rewrite (move_temp _ _ _ _ Hft). cbn. destruct (decide (target = q)) as [->|]; [done|].
      rewrite lookup_insert_ne by done. intros Hq. by apply (ft_unnamed _ _ _ _ Hft) in Hq. }
    split; [|exact Honly]. cbn.
    rewrite lookup_union_l; [|by apply map_lookup_filter_None_2; right; intros ? ?; cbn; naive_solver].
    rewrite map_lookup_filter, (move_temp _ _ _ _ Hft). cbn. rewrite lookup_insert_eq. cbn.
    by rewrite option_guard_True.
  - intros q Hq. split; [by apply (content_move _ _ _ _ Hft)|]. cbn.
    rewrite (move_temp _ _ _ _ Hft). cbn. by rewrite lookup_insert_ne.
Qed.
End outcome.
End installing.

Section write_atomic.
Context (T : Tick -> Prop) `{Calm T} `{TempfileLaws}.

Lemma persist_wp I tmp h target ino (noclobber : bool) (Q : res io_Error unit -> FsState -> Prop) fs :
  I (link tmp h ino fs) -> I (move tmp target (link tmp h ino fs)) ->
  (forall e, Q (Err e) (link tmp h ino fs)) ->
  (noclobber = false \/ names (link tmp h ino fs) !! target = None -> Q (Ok tt) (move tmp target (link tmp h ino fs))) ->
  wp T I (if noclobber then
      io_map_err (fun e => if bool_decide (io_kind e = AlreadyExists)
                           then mkIo AlreadyExists (bs "a wallet file already exists at this path; refusing to overwrite it")
                           else e)
        (update (tf_persist_noclobber tmp target))
    else update (tf_persist tmp target)) Q (link tmp h ino fs).
Proof.
  intros HI HI' He Hok.
  assert (forall r fs', tf_persist_noclobber tmp target (link tmp h ino fs) = (r, fs') ->
    (r = Ok tt /\ names (link tmp h ino fs) !! target = None /\ fs' = move tmp target (link tmp h ino fs)) \/
    (exists e, r = Err e /\ fs' = link tmp h ino fs)) as Hn.
  { intros [[]|e|] fs' E; [left|right|right].
    - by apply tf_noclobber_ok in E.
    - exists e. by apply tf_noclobber_err in E as [_ ->].
    - by apply tf_noclobber_err in E as [? _]. }
  assert (forall r fs', tf_persist tmp target (link tmp h ino fs) = (r, fs') ->
    (r = Ok tt /\ fs' = move tmp target (link tmp h ino fs)) \/
    (exists e, r = Err e /\ fs' = link tmp h ino fs)) as Hp.
  { intros [[]|e|] fs' E; [left|right|right].
    - by apply tf_persist_ok in E.
    - exists e. by apply tf_persist_err in E as [_ ->].
    - by apply tf_persist_err in E as [? _]. }
  destruct noclobber; [io_step|].
  - destruct (tf_persist_noclobber tmp target (link tmp h ino fs)) as [r fs'] eqn:E.
    apply calm_update; [done|done|intros; apply He| |]; rewrite E; cbn [fst snd];
      destruct (Hn _ _ eq_refl) as [(-> & ? & ->)|(e & -> & ->)]; cbn; auto.
  - destruct (tf_persist tmp target (link tmp h ino fs)) as [r fs'] eqn:E.
    apply calm_update; [done|done|by auto| |]; rewrite E; cbn [fst snd];
      destruct (Hp _ _ eq_refl) as [(-> & ->)|(e & -> & ->)]; cbn; auto.
Qed.

Lemma write_atomic_impl_wp target data noclobber fs :
  sound_at (content target fs) data target fs ->
  wp T (sound_at (content target fs) data target) (write_atomic_impl target data noclobber)
    (fun r fs' => write_outcome target data fs r fs' /\
       (noclobber = true -> is_Some (names fs !! target) -> is_err r = true /\ content target fs' = content target fs)) fs.
Proof.
  intros Hs. unfold write_atomic_impl. io_step.
  apply with_tempfile_wp; [done|done|done| |].
  { intros e _. split; [by apply outcome_refl|done]. }
  intros tmp h Hft. split; [by apply sound_at_link|].
  assert (target <> tmp) as Hne by (symmetry; by eapply fresh_temp_ne).
  assert (forall ino e, (sound_at (content target fs) data target (link tmp h ino fs) /\
      write_outcome target data fs (Err e) (link tmp h ino fs) /\
      (noclobber = true -> is_Some (names fs !! target) -> true = true /\ content target (link tmp h ino fs) = content target fs)) /\
      sound_at (content target fs) data target (unlink tmp (link tmp h ino fs)) /\
      write_outcome target data fs (Err e) (unlink tmp (link tmp h ino fs)) /\
      (noclobber = true -> is_Some (names fs !! target) -> true = true /\ content target (unlink tmp (link tmp h ino fs)) = content target fs))
    as Herr.
  { intros ino e. split_and!; [by apply sound_at_link|by apply outcome_link| |
      by apply sound_at_unlink|by apply outcome_unlink|]; intros _ _; split; [done| |done|].
    - by eapply content_link.
    - by eapply content_unlink. }
  apply stage_wp; [done|intros; by apply sound_at_link|intros e _ ino; apply Herr|].
  apply persist_wp; [by apply sound_at_link|by apply sound_at_move|apply Herr|].
  intros Hfree. assert (noclobber = true -> is_Some (names fs !! target) -> False) as Hclash.
  { intros -> [x Hx]. destruct Hfree as [|Hfree]; [done|]. rewrite link_eq in Hfree. cbn in Hfree.
    rewrite lookup_insert_ne in Hfree by done. congruence. }
  apply sync_directory_wp; [done|by apply sound_at_move|by apply sound_at_flush, sound_at_move| |].
  - intros _. split; [by apply outcome_installed|]. intros; by exfalso; eauto.
  - intros e _. split; [by apply outcome_moved|]. intros; by exfalso; eauto.
Qed.

End write_atomic.

(** Where nothing fails, the write is done. *)
Lemma write_atomic_impl_works `{TempfileLaws} `{!TempfileWorks} target data noclobber fs :
  p_dir target ∈ dirs fs ->
  (forall i ino, entry target fs = Some (i, ino) -> noclobber = false /\ i_kind ino = Regular) ->
  (noclobber = true -> names fs !! target = None) ->
  sound_at (content target fs) data target fs ->
  wp smooth (fun _ => True) (write_atomic_impl target data noclobber)
    (fun r fs' => r = Ok tt /\ write_outcome target data fs (Ok tt) fs') fs.
Proof.
  intros Hdir Hreg Hfree Hs. unfold write_atomic_impl. io_step.
  apply with_tempfile_wp; [apply _|apply _|done| |].
  { intros e0 [[]%smooth_never_fails|Hno]. exfalso.
    pose proof (tf_create_works (temp_prefix target) (bs ".tmp") (p_dir target) fs Hdir) as Hok.
    destruct (tf_create _ _ _ fs) as [[[p i]|e|] fs'] eqn:E; [by eapply Hno|done|done]. }
  intros tmp h Hft. split; [done|].
  assert (target <> tmp) as Hne by (symmetry; by eapply fresh_temp_ne).
  apply stage_wp; [apply _|done|by intros ? []%smooth_never_fails|].
  assert (entry target (link tmp h (staged_inode data) fs) = entry target fs) as Ee.
  { apply entry_link_ne; [done|]. intros j Hj ->. by apply (ft_unnamed _ _ _ _ Hft) in Hj. }
  assert (wp smooth (fun _ => True) (sync_directory (p_dir target))
    (fun r fs' => r = Ok tt /\ write_outcome target data fs (Ok tt) fs') (move tmp target (link tmp h (staged_inode data) fs))) as Hsync.
  { apply sync_directory_wp; [apply _|done|done| |].
    - intros _. split; [done|]. by apply outcome_installed.
    - rewrite (move_temp _ _ _ _ Hft). cbn. intros ? [[]%smooth_never_fails|[]]; done. }
  assert (is_Some (entry tmp (link tmp h (staged_inode data) fs))) as Htmp by (rewrite entry_link; eauto).
  destruct noclobber; [io_step|]; (apply calm_update; [apply _|done|by intros ? []%smooth_never_fails|done|]).
  - pose proof (tf_noclobber_works tmp target _ Htmp) as Hw.
    destruct (tf_persist_noclobber tmp target _) as [[[]|e|] fs'] eqn:E; cbn [fst snd map_err] in *.
    + by apply tf_noclobber_ok in E as [_ ->].
    + discriminate Hw. rewrite link_eq. cbn. rewrite lookup_insert_ne by done. auto.
    + discriminate Hw. rewrite link_eq. cbn. rewrite lookup_insert_ne by done. auto.
  - pose proof (tf_persist_works tmp target _ Htmp) as Hw.
    destruct (tf_persist tmp target _) as [[[]|e|] fs'] eqn:E; cbn [fst snd] in *.
    + by apply tf_persist_ok in E as ->.
    + discriminate Hw. rewrite Ee. intros i ino Ei. by apply Hreg in Ei as [_ ?].
    + discriminate Hw. rewrite Ee. intros i ino Ei. by apply Hreg in Ei as [_ ?].
Qed.

(** ** Reading without following links *)
Definition plain (p : PathBuf) (fs : FsState) : option bytes :=
  match entry p fs with
  | Some (_, ino) =>
      if bool_decide (i_kind ino = Regular) && (i_nlink ino =? 1) then Some (i_data ino) else None
  | None => None
  end.

Lemma plain_Some p fs data :
  plain p fs = Some data <->
  exists i ino, entry p fs = Some (i, ino) /\ i_kind ino = Regular /\ i_nlink ino = 1 /\ i_data ino = data.
Proof.
  unfold plain. destruct (entry p fs) as [[i ino]|]; [|naive_solver].
  destruct (bool_decide_reflect (i_kind ino = Regular)) as [Hk|Hk]; cbn;
    destruct (N.eqb_spec (i_nlink ino) 1); naive_solver.
Qed.

(** An error of a read: a step failed, or there is no such file, and [NotFound] says there
    is nothing at all. *)
Definition read_error (T : Tick -> Prop) (p : PathBuf) (fs : FsState) (e : io_Error) : Prop :=
  (exists e', faulty T e' /\ io_kind e = io_kind e') \/
  (plain p fs = None /\ (io_kind e = NotFound <-> entry p fs = None)).

Lemma read_error_not_found T p fs e : read_error T p fs e -> io_kind e = NotFound -> entry p fs = None.
Proof. intros [(e' & [[Hg _] _] & Hk)|[_ Hiff]] He; [congruence|by apply Hiff]. Qed.

Lemma plain_link_count p fs i ino :
  entry p fs = Some (i, ino) -> not_singly_linked (mkMeta i ino) = negb (bool_decide (plain p fs = Some (i_data ino))).
Proof.
  intros E. unfold not_singly_linked, is_file, is_symlink, has_multiple_links. cbn.
  assert (plain p fs = Some (i_data ino) <-> i_kind ino = Regular /\ i_nlink ino = 1) as Hp.
  { rewrite plain_Some, E. split; [intros (? & ? & [= <- <-] & ? & ? & _); done|].
    intros []. by exists i, ino. }
  rewrite (bool_decide_ext _ _ Hp).
  destruct (decide (i_kind ino = Regular)) as [Hk|Hk].
  - rewrite Hk, bool_decide_eq_true_2 by done. cbn.
    destruct (N.eqb_spec (i_nlink ino) 1); by case_bool_decide; naive_solver.
  - rewrite (bool_decide_eq_false_2 _ Hk). cbn. by rewrite bool_decide_eq_false_2 by naive_solver.
Qed.

Section reading.
Context (T : Tick -> Prop) `{Calm T} (I : FsState -> Prop).

Ltac read_fails He := intros e' Hf; apply He; left; by exists e'.

Lemma open_singly_linked_wp p (Q : res io_Error (N * Metadata) -> FsState -> Prop) fs :
  I fs -> (forall e, read_error T p fs e -> Q (Err e) fs) ->
  (forall i ino, entry p fs = Some (i, ino) -> plain p fs = Some (i_data ino) -> Q (Ok (i, mkMeta i ino)) fs) ->
  wp T I (open_singly_linked p) Q fs.
Proof.
  intros HI He Hok. unfold open_singly_linked.
  io_step; io_step; unfold symlink_metadata; io_step; [read_fails He|].
  destruct (entry p fs) as [[i ino]|] eqn:E; cbn.
  2:{ apply He. right. unfold plain. by rewrite E. }
  rewrite (plain_link_count _ _ _ _ E), negb_involutive.
  case_bool_decide as Hp.
  2:{ io_step. apply He. right. split; [|by rewrite E]. unfold plain in *. rewrite E in *. by case_match. }
  pose proof Hp as (i' & ino' & E' & Hk & Hl & _)%plain_Some. rewrite E in E'. injection E' as <- <-.
  pose proof (proj1 (entry_Some _ _ _ _) E) as [_ Ei].
  io_step. io_step. unfold open_nofollow. io_step; [read_fails He|]. rewrite E, Hk. cbn.
  io_step. io_step. unfold file_metadata. io_step; [read_fails He|]. unfold at_handle. rewrite Ei. cbn.
  unfold same_identity. cbn. rewrite N.eqb_refl. io_step. by apply Hok.
Qed.

(** The reads: the file's contents, and its length with a prefix of them. *)
Lemma read_regular_wp p (Q : res io_Error bytes -> FsState -> Prop) fs :
  I fs -> (forall e, read_error T p fs e -> Q (Err e) fs) ->
  (forall data, plain p fs = Some data -> Q (Ok data) fs) -> wp T I (read_regular_nofollow p) Q fs.
Proof.
  intros HI He Hok. unfold read_regular_nofollow.
  io_step. apply open_singly_linked_wp; [done|done|]. intros i ino E Hp.
  pose proof (proj1 (entry_Some _ _ _ _) E) as [_ Ei].
  io_step. io_step. unfold read_to_end. io_step; [read_fails He|]. unfold at_handle. rewrite Ei. cbn.
  io_step. io_step. unfold symlink_metadata. io_step; [read_fails He|]. rewrite E. cbn.
  unfold same_identity, m_len. cbn. rewrite !N.eqb_refl. cbn. io_step. by apply Hok.
Qed.

Lemma read_prefix_wp p cap (Q : res io_Error (bytes * N) -> FsState -> Prop) fs :
  I fs -> (forall e, read_error T p fs e -> Q (Err e) fs) ->
  (forall data, plain p fs = Some data -> Q (Ok (take cap data, N.of_nat (length data))) fs) ->
  wp T I (read_prefix_nofollow p cap) Q fs.
Proof.
  intros HI He Hok. unfold read_prefix_nofollow.
  io_step. apply open_singly_linked_wp; [done|done|]. intros i ino E Hp.
  pose proof (proj1 (entry_Some _ _ _ _) E) as [_ Ei].
  io_step. io_step. unfold read_take. io_step; [read_fails He|]. unfold at_handle. rewrite Ei. cbn.
  io_step. io_step. unfold symlink_metadata. io_step; [read_fails He|]. rewrite E. cbn.
  unfold same_identity, m_len. cbn. rewrite !N.eqb_refl. cbn. io_step. by apply Hok.
Qed.
End reading.

(** ** Listing *)
Definition in_dirs (fs : FsState) : Prop := forall p i, names fs !! p = Some i -> p_dir p ∈ dirs fs.

Lemma entries_of_spec d order fs :
  NoDup (entries_of d order fs) /\
  forall p, p ∈ entries_of d order fs <-> p_dir p = d /\ is_Some (names fs !! p).
Proof.
  unfold entries_of. pose proof (sort_by_key_perm order (filter (fun p => p_dir p = d) (map_to_list (names fs)).*1)) as Hp.
  split.
  - rewrite Hp. apply NoDup_filter, NoDup_fst_map_to_list.
  - intros p. rewrite Hp, list_elem_of_filter. apply and_iff_compat_l. rewrite list_elem_of_fmap. split.
    + intros ([q i] & -> & Hin). apply elem_of_map_to_list in Hin. eauto.
    + intros [i Hi]. exists (p, i). split; [done|]. by apply elem_of_map_to_list.
Qed.

Section listing.
Context (T : Tick -> Prop) `{Calm T} (I : FsState -> Prop).

Lemma collect_entries_wp keep l (Q : res io_Error (list PathBuf) -> FsState -> Prop) fs :
  I fs -> (forall e, faulty T e -> Q (Err e) fs) -> Q (Ok (List.filter keep l)) fs ->
  wp T I (collect_entries keep l) Q fs.
Proof.
  intros HI. revert Q. induction l as [|p l IH]; intros Q He Hok; cbn [collect_entries List.filter] in *.
  - by io_step.
  - io_step. unfold next_entry. io_step. io_step. apply IH; [done|]. io_step. by destruct (keep p).
Qed.

Lemma open_dir_wp d (Q : res io_Error (list PathBuf) -> FsState -> Prop) fs :
  I fs -> (forall e, faulty T e -> Q (Err e) fs) ->
  (d ∉ dirs fs -> forall e, io_kind e = NotFound -> Q (Err e) fs) ->
  (forall l, NoDup l -> (forall p, p ∈ l <-> p_dir p = d /\ is_Some (names fs !! p)) -> Q (Ok l) fs) ->
  wp T I (open_dir d) Q fs.
Proof.
  intros HI He Hno Hok. apply calm_syscall; [done|intros e Hf t; split; [done|by apply He]|]. intros t. cbn [fst snd].
  split; [done|]. destruct (decide (d ∈ dirs fs)); [|by apply Hno].
  destruct (entries_of_spec d (t_order t) fs). by apply Hok.
Qed.

Lemma filter_bool_elem {A} (f : A -> bool) l x : x ∈ List.filter f l <-> x ∈ l /\ f x = true.
Proof. rewrite !list_elem_of_In, filter_In. done. Qed.

Lemma filter_bool_nodup {A} (f : A -> bool) l : NoDup l -> NoDup (List.filter f l).
Proof. rewrite !NoDup_ListNoDup. apply List.NoDup_filter. Qed.

(** The residue of one kind: every such name of the directory, each once. *)
Definition residues (target : PathBuf) (suffix : string) (fs : FsState) (l : list PathBuf) : Prop :=
  NoDup l /\ forall p, p ∈ l <-> p_dir p = p_dir target /\ is_residue target suffix p = true /\ is_Some (names fs !! p).

Lemma try_list_residue_wp target suffix (Q : res io_Error (list PathBuf) -> FsState -> Prop) fs :
  I fs -> (forall e, faulty T e -> Q (Err e) fs) ->
  (forall l, (in_dirs fs -> residues target suffix fs l) -> Q (Ok l) fs) ->
  wp T I (try_list_residue target suffix) Q fs.
Proof.
  intros HI He Hok. unfold try_list_residue. io_step. apply open_dir_wp; [done| | |].
  - intros e Hf. rewrite bool_decide_eq_false_2 by apply Hf. io_step. by apply He.
  - intros Hd e Hk. rewrite bool_decide_eq_true_2 by done. io_step. apply Hok. intros Hdirs. split; [constructor|].
    intros p. split; [by intros ?%elem_of_nil|]. intros (Hp & _ & [i Hi]). apply Hdirs in Hi.
    by rewrite Hp in Hi.
  - intros l Hl Hin. apply collect_entries_wp; [done|done|]. apply Hok. intros _.
    split; [by apply filter_bool_nodup|]. intros p. rewrite filter_bool_elem, Hin. naive_solver.
Qed.
End listing.

(** ** A tempfile crate for the witnesses

    Random names are as long as it takes to be new. *)
Definition longest (fs : FsState) : nat :=
  map_fold (fun p _ n => Nat.max (length (p_file p)) n) 0%nat (names fs).

Definition toy_tempfile : Tempfile := {|
  tf_create prefix suffix d fs :=
    if decide (d ∈ dirs fs) then
      let p := mkPath d (prefix ++ repeat Byte.x61 (S (longest fs)) ++ suffix) in
      (Ok (p, next_inode fs), link p (next_inode fs) temp_inode fs)
    else (Err (mkIo NotFound []), fs);
  tf_persist p q fs :=
    match entry p fs, entry q fs with
    | Some _, Some (_, ino) =>
        if bool_decide (i_kind ino = Directory) then (Err (mkIo IsADirectory []), fs) else (Ok tt, move p q fs)
    | Some _, None => (Ok tt, move p q fs)
    | None, _ => (Err (mkIo NotFound []), fs)
    end;
  tf_persist_noclobber p q fs :=
    match names fs !! q, entry p fs with
    | Some _, _ => (Err (mkIo AlreadyExists []), fs)
    | None, Some _ => (Ok tt, move p q fs)
    | None, None => (Err (mkIo NotFound []), fs)
    end;
  tf_drop p fs := unlink p fs
|}.

Lemma longest_spec fs p i : names fs !! p = Some i -> (length (p_file p) <= longest fs)%nat.
Proof.
  unfold longest. revert p i.
  apply (map_fold_weak_ind (fun n m => forall p i, m !! p = Some i -> (length (p_file p) <= n)%nat)); [done|].
  intros q j m n Hq IH p i. rewrite lookup_insert. case_decide as E; [subst; intros _; lia|].
  intros Hp. specialize (IH _ _ Hp). lia.
Qed.

Lemma toy_tempfile_laws : @TempfileLaws toy_tempfile.
Proof.
  split; cbn.
  - intros prefix suffix d fs p i fs'. case_decide; [|done]. intros [= <- <- <-].
    split_and!; [by exists (repeat Byte.x61 (S (longest fs)))| |by apply next_inode_free|by apply next_inode_unnamed|done].
    destruct (names fs !! _) eqn:E; [|done]. apply longest_spec in E. cbn in E.
    rewrite !length_app in E. cbn in E. rewrite length_app, repeat_length in E. lia.
  - intros prefix suffix d fs r fs'. case_decide; by intros [= <- <-].
  - intros p q fs fs'. destruct (entry p fs), (entry q fs) as [[]|]; try case_bool_decide; by intros [= <-].
  - intros p q fs r fs'. destruct (entry p fs), (entry q fs) as [[]|]; try case_bool_decide; by intros [= <- <-].
  - intros p q fs fs'. destruct (names fs !! q), (entry p fs); by intros [= <-].
  - intros p q fs r fs'. destruct (names fs !! q), (entry p fs); by intros [= <- <-].
  - intros p q fs e fs'. destruct (names fs !! q) eqn:Eq, (entry p fs) eqn:Ep; intros [= <- <-] _; cbn;
      (split; [by intros|by intros []] || done).
  - auto.
Qed.

Lemma toy_tempfile_works : @TempfileWorks toy_tempfile.
Proof.
  split; cbn.
  - intros prefix suffix d fs Hd. by rewrite decide_True.
  - intros p q fs [? ->] Hq. destruct (entry q fs) as [[i ino]|]; [|done].
    by rewrite (Hq i ino), bool_decide_eq_false_2.
  - intros p q fs [? ->] ->. done.
Qed.

(** ** What [write_atomic] promises *)

(** The entry of [p] on the disk is the one seen, and what it leads to is synced. *)
Definition settled (p : PathBuf) (fs : FsState) : Prop :=
  durable fs !! p = names fs !! p /\
  forall i, names fs !! p = Some i -> exists ino, inodes fs !! i = Some ino /\ i_synced ino = true.

Lemma settled_sound p data fs : settled p fs -> sound_at (content p fs) data p fs.
Proof.
  intros [Hd Hs]. unfold sound_at. rewrite Hd. cut (sound_file (content p fs) data fs (names fs !! p)); [done|].
  unfold content, entry. destruct (names fs !! p) as [i|]; [|done]. cbn.
  destruct (Hs i eq_refl) as (ino & Hi & Hsync). exists ino. rewrite Hi. auto.
Qed.

(** C25: a crash at any moment of [write_atomic], whatever step fails before it, leaves the
    target with its old contents or all of the new; success means the new contents are
    installed, owner-only and on the disk; the other files keep theirs. *)
Theorem write_atomic_crash_safe `{TempfileLaws} (target : PathBuf) (data : bytes) (fs : FsState)
    (Hs : settled target fs) :
  wp calm (fun f => forall f', crash f f' -> content target f' = content target fs \/ content target f' = Some data)
    (write_atomic target data)
    (fun r fs' => match r with
                  | Ok _ => installed target data fs' /\ forall q, q <> target -> content q fs' = content q fs
                  | Err _ => (content target fs' = content target fs \/ content target fs' = Some data) /\
                             forall q c, q <> target -> content q fs = Some c -> content q fs' = Some c
                  | Panic => False
                  end) fs.
Proof.
  eapply wp_log_mono; [|intros f Hf f'; exact (sound_at_crash _ _ _ _ _ Hf)].
  eapply wp_mono; [apply write_atomic_impl_wp; [apply _|apply _|by apply settled_sound]|].
  intros r fs' [Hw _]. pose proof (wo_result _ _ _ _ _ Hw) as Hr. destruct r; [|split; apply Hw|done].
  destruct Hr as [Hin Hrest]. split; [done|]. intros q Hq. by apply Hrest.
Qed.

Definition demo_target : PathBuf := mkPath (bs "w") (bs "bob.ccwallet").
Definition demo_disk : FsState :=
  let m := <[demo_target := 1]> ∅ in
  mkFs {[bs "w"]} m m (<[1 := staged_inode [Byte.x01]]> ∅).

Lemma demo_disk_settled : settled demo_target demo_disk.
Proof. split; [done|]. intros i [= <-]. by exists (staged_inode [Byte.x01]). Qed.

Lemma write_atomic_crash_safe_witness :
  settled demo_target demo_disk /\
  wp calm (fun f => forall f', crash f f' ->
      content demo_target f' = content demo_target demo_disk \/ content demo_target f' = Some [Byte.x02])
    (@write_atomic toy_tempfile demo_target [Byte.x02])
    (fun r fs' => match r with
                  | Ok _ => installed demo_target [Byte.x02] fs' /\
                            forall q, q <> demo_target -> content q fs' = content q demo_disk
                  | Err _ => (content demo_target fs' = content demo_target demo_disk \/
                              content demo_target fs' = Some [Byte.x02]) /\
                             forall q c, q <> demo_target -> content q demo_disk = Some c -> content q fs' = Some c
                  | Panic => False
                  end) demo_disk.
Proof.
  split; [exact demo_disk_settled|].
  exact (@write_atomic_crash_safe toy_tempfile toy_tempfile_laws demo_target [Byte.x02] demo_disk demo_disk_settled).
Defined.

(** ** Quarantine copies *)

(** Every readable file stays as it is, and what is settled stays settled. *)
Definition keeps (fs fs' : FsState) : Prop :=
  (forall q d, plain q fs = Some d -> plain q fs' = Some d) /\
  (forall q, is_Some (names fs !! q) -> settled q fs -> is_Some (names fs' !! q) /\ settled q fs').

Lemma keeps_refl fs : keeps fs fs. Proof. by split. Qed.

Lemma keeps_trans fs1 fs2 fs3 : keeps fs1 fs2 -> keeps fs2 fs3 -> keeps fs1 fs3.
Proof.
  intros [H1 S1] [H2 S2]. split; [auto|]. intros q Hq Hs. destruct (S1 q Hq Hs). auto.
Qed.

(** Where the names, what is durable and the inodes of old names stay, everything does. *)
Lemma keeps_same fs fs' :
  (forall q i, names fs !! q = Some i -> names fs' !! q = Some i /\ durable fs' !! q = durable fs !! q /\
                                         inodes fs' !! i = inodes fs !! i) -> keeps fs fs'.
Proof.
  intros Hn. split.
  - intros q d (i & ino & [En Ei]%entry_Some & Hrest)%plain_Some. apply plain_Some. exists i, ino.
    destruct (Hn q i En) as (Hq & _ & Hi). split; [|done]. apply entry_Some. by rewrite Hi.
  - intros q [i Hq] [Hd Hs]. destruct (Hn q i Hq) as (Hq' & Hdur & Hi). split; [by eexists|].
    split; [by rewrite Hdur, Hq', Hd|]. intros j Hj. rewrite Hq' in Hj. injection Hj as <-. rewrite Hi. by apply Hs.
Qed.

Lemma plain_entry_eq q fs fs' : entry q fs = entry q fs' -> plain q fs = plain q fs'.
Proof. intros E. unfold plain. by rewrite E. Qed.

Lemma keeps_synced h fs : keeps fs (snd (on_inode h set_synced fs)).
Proof.
  unfold on_inode. destruct (inodes fs !! h) as [x|] eqn:Ex; cbn; [|apply keeps_refl]. split.
  - intros q d (i & ino & [En Ei]%entry_Some & Hk & Hl & Hd)%plain_Some. apply plain_Some.
    destruct (decide (h = i)) as [->|].
    + simplify_eq. exists i, (set_synced x). split; [|done]. apply entry_Some. cbn.
      by rewrite lookup_insert_eq.
    + exists i, ino. split; [|done]. apply entry_Some. cbn. by rewrite lookup_insert_ne.
  - intros q Hq [Hd Hs]. split; [done|]. split; [done|]. intros i Hi. cbn in *.
    destruct (Hs i Hi) as (ino & Hi' & Hrest). destruct (decide (h = i)) as [->|].
    + rewrite lookup_insert_eq. by exists (set_synced x).
    + rewrite lookup_insert_ne by done. eauto.
Qed.

Section fresh_entries.
Context (target tmp : PathBuf) (h : N) (fs : FsState) (Hft : fresh_temp target tmp h fs).

Lemma name_not_temp q i : names fs !! q = Some i -> q <> tmp /\ i <> h.
Proof.
  intros En. split; intros ->; [by rewrite (ft_free _ _ _ _ Hft) in En|by apply (ft_unnamed _ _ _ _ Hft) in En].
Qed.

Lemma keeps_link ino : keeps fs (link tmp h ino fs).
Proof.
  apply keeps_same. intros q i En. destruct (name_not_temp _ _ En). rewrite link_eq. cbn.
  by rewrite !lookup_insert_ne by done.
Qed.

Lemma keeps_unlink ino : keeps fs (unlink tmp (link tmp h ino fs)).
Proof.
  rewrite (unlink_temp _ _ _ _ Hft). apply keeps_same. intros q i En. destruct (name_not_temp _ _ En). cbn.
  by rewrite lookup_insert_ne by done.
Qed.

Lemma keeps_move ino : names fs !! target = None -> keeps fs (move tmp target (link tmp h ino fs)).
Proof.
  intros Hno. rewrite (move_temp _ _ _ _ Hft).
  assert (entry target fs = None) as -> by (unfold entry; by rewrite Hno).
  apply keeps_same. intros q i En. destruct (name_not_temp _ _ En). cbn.
  by rewrite !lookup_insert_ne by congruence.
Qed.
End fresh_entries.

Lemma keeps_flush d fs fs' : keeps fs fs' -> keeps fs (flush_dir d fs').
Proof.
  intros Hk. apply (keeps_trans _ _ _ Hk). split; [by intros q e Hq|]. intros q Hq [Hd Hs]. split; [done|].
  split; [|done]. rewrite durable_flush. by case_decide.
Qed.

(** A temporary that was dropped leaves nothing behind that was not there. *)
Record copied (orphan : PathBuf) (source : bytes) (fs : FsState) (r : res io_Error unit) (fs' : FsState) : Prop := {
  cp_keeps : keeps fs fs';
  cp_orphan : plain orphan fs' = plain orphan fs \/ plain orphan fs' = Some source;
  cp_result : match r with Ok _ => plain orphan fs' = Some source | Err _ => True | Panic => False end
}.

Section orphans.
Context (T : Tick -> Prop) `{Calm T} `{TempfileLaws}.

Lemma install_new_orphan_wp orphan source fs :
  entry orphan fs = None ->
  wp T (fun _ => True) (install_new_orphan orphan source) (copied orphan source fs) fs.
Proof.
  intros Hno. unfold install_new_orphan. io_step.
  assert (plain orphan fs = None) as Hp by (unfold plain; by rewrite Hno).
  assert (forall e, copied orphan source fs (Err e) fs) as Hrefl
    by (intros e; split; [apply keeps_refl|auto|done]).
  apply with_tempfile_wp; [done|done|done|by auto|].
  intros tmp h Hft. split; [done|].
  assert (orphan <> tmp) as Hne by (symmetry; by eapply fresh_temp_ne).
  assert (forall ino, entry orphan (link tmp h ino fs) = None) as Hlink.
  { intros ino. rewrite entry_link_ne; [done|done|]. intros j Hj ->. by apply (ft_unnamed _ _ _ _ Hft) in Hj. }
  assert (forall ino e, copied orphan source fs (Err e) (link tmp h ino fs)) as Herr.
  { intros ino e. split; [by apply (keeps_link _ _ _ _ Hft)| |done]. left. rewrite Hp. unfold plain. by rewrite Hlink. }
  assert (forall ino e, copied orphan source fs (Err e) (unlink tmp (link tmp h ino fs))) as Herr'.
  { intros ino e. split; [by apply (keeps_unlink _ _ _ _ Hft)| |done]. left. apply plain_entry_eq.
    rewrite (unlink_temp _ _ _ _ Hft). unfold entry. cbn. destruct (names fs !! orphan) as [i|] eqn:E; [|done].
    by rewrite lookup_insert_ne by (intros ->; by apply (ft_unnamed _ _ _ _ Hft) in E). }
  apply stage_wp; [done|done|by intros; split; [split|split]; auto|].
  io_step. destruct (tf_persist_noclobber tmp orphan (link tmp h (staged_inode source) fs)) as [r fs'] eqn:E.
  apply calm_update; [done|done| |done|]; rewrite ?E; cbn [fst snd].
  { intros e [[_ Hg] _]. rewrite bool_decide_eq_false_2 by done. io_step. split; split; auto. }
  destruct r as [[]|e|].
  - apply tf_noclobber_ok in E as [Hfree ->]. rewrite link_eq in Hfree. cbn in Hfree.
    rewrite lookup_insert_ne in Hfree by done. io_step.
    assert (plain orphan (move tmp orphan (link tmp h (staged_inode source) fs)) = Some source) as Hdone.
    { apply plain_Some. exists h, (staged_inode source). split; [by eapply entry_moved|done]. }
    apply sync_directory_wp; [done|done|done| |].
    + intros _. split; [by apply keeps_flush, (keeps_move _ _ _ _ Hft)|by right|exact Hdone].
    + intros e _. split; [by apply (keeps_move _ _ _ _ Hft)|by right|done].
  - assert (fs' = link tmp h (staged_inode source) fs) as -> by (by apply tf_noclobber_err in E as [_ ?]).
    case_bool_decide; [|io_step; split; split; auto].
    (* the name is taken but leads nowhere *)
    io_step. unfold read_owner_only_orphan. io_step.
    apply read_regular_wp; [done|done| |].
    + intros e' _. split; split; auto.
    + intros d Hd. unfold plain in Hd. by rewrite Hlink in Hd.
  - by apply tf_noclobber_err in E as [? _].
Qed.

(** Installing a copy: what is there already is kept, success means the copy is there. *)
Lemma install_orphan_copy_wp orphan source fs :
  wp T (fun _ => True) (install_orphan_copy orphan source) (copied orphan source fs) fs.
Proof.
  assert (forall e, copied orphan source fs (Err e) fs) as Hrefl
    by (intros e; split; [apply keeps_refl|auto|done]).
  unfold install_orphan_copy. io_step. unfold read_owner_only_orphan. io_step.
  apply read_regular_wp; [done|done| |].
  { intros e He. case_bool_decide as Hk; [|by io_step].
    apply install_new_orphan_wp. by eapply read_error_not_found. }
  intros existing Hex. pose proof Hex as (i & ino & E & Hk & Hl & Hd)%plain_Some.
  io_step. unfold symlink_metadata. io_step.
  { intros e [[Hg _] _]. rewrite bool_decide_eq_false_2 by done. by io_step. }
  rewrite E. cbn. destruct (_ =? 0); [|io_step; case_bool_decide; [done|by io_step]].
  io_step. case_bool_decide as Hsame; [|by io_step]. subst existing.
  io_step. unfold file_open. io_step. cbn [resolve]. rewrite E, Hk. cbn.
  io_step. unfold sync_all. apply calm_update; [done|done|by auto|done|].
  pose proof (keeps_synced i fs) as Hkeep. apply entry_Some in E as [_ Ei].
  assert (on_inode i set_synced fs = (Ok tt, snd (on_inode i set_synced fs))) as Hon.
  { unfold on_inode. by rewrite Ei. }
  rewrite Hon. cbn [fst snd]. rewrite Hsame in Hex.
  apply sync_directory_wp; [done|done|done| |].
  - intros _. split; [by apply keeps_flush|right; exact (proj1 Hkeep _ _ Hex)|exact (proj1 Hkeep _ _ Hex)].
  - intros e _. split; [done|right; exact (proj1 Hkeep _ _ Hex)|done].
Qed.
End orphans.
