(* ===== verification/Wallets.v ===== *)
(** * Wallet files of a directory (crates/cc-wallet-storage/src/vault_store.rs, first part)

    Names of wallets, which files of a directory belong to which, listing them, their
    display names. *)

From Stdlib Require Import NArith Lia.
From stdpp Require Import gmap.
From S2P Require Import Prelude Ord Bytes Text Decimal Ids Digest VaultKeys Vault Fs Atomic.

Inductive VaultStoreError :=
| StoreWrongPassword
| StoreVault (e : VaultError)
| StoreIo (e : io_Error)
| WriterState (detail : bytes).

Definition from_vault (e : VaultError) : VaultStoreError :=
  match e with WrongPassword => StoreWrongPassword | other => StoreVault other end.

Definition is_wrong_password (e : VaultStoreError) : bool :=
  match e with StoreWrongPassword => true | _ => false end.

Definition is_unsupported_format (e : VaultStoreError) : bool :=
  match e with StoreVault (UnsupportedFormat _) => true | _ => false end.

Definition VaultStoreError_display (e : VaultStoreError) : bytes :=
  match e with
  | StoreWrongPassword => bs "wrong password or damaged wallet"
  | StoreVault e => bs (VaultError_display e)
  | StoreIo e => io_text e
  | WriterState detail => bs "wallet writer state error: " ++ detail
  end.

(** Errors of the lower layers, as [?] converts them. *)
Definition lift_io {A} (m : IO io_Error A) : IO VaultStoreError A := io_map_err StoreIo m.
Definition lift_vault {A} (r : res VaultError A) : IO VaultStoreError A := io_ret (map_err from_vault r).

Definition DEFAULT_WALLET_NAME : bytes := bs "wallet".
Definition WALLET_EXT : bytes := bs "ccwallet".
Definition MAX_CANDIDATE_CONTAINER_BYTES : N := 32 * 1024 * 1024.

Definition main_file (name : bytes) : bytes := name ++ bs "." ++ WALLET_EXT.

(** [str::to_lowercase], as far as it matters here: ".ccwallet" holds no letter that is
    the lower case of anything outside ASCII. *)
Definition ascii_lower (b : byte) : byte :=
  if (65 <=? u8 b) && (u8 b <=? 90) then byte_of (u8 b + 32) else b.

(** [s.contains(pat)] and [s.split_once(pat)]. *)
Fixpoint contains (pat s : bytes) : bool :=
  starts_with pat s || match s with [] => false | _ :: s' => contains pat s' end.

Fixpoint split_once_str (pat s : bytes) : option (bytes * bytes) :=
  if starts_with pat s then Some ([], drop (length pat) s) else
  match s with
  | [] => None
  | a :: s' => match split_once_str pat s' with Some (l, r) => Some (a :: l, r) | None => None end
  end.

Definition strip_suffix (suffix s : bytes) : option bytes :=
  if ends_with suffix s then Some (take (length s - length suffix) s) else None.

(** [{name:?}]: quotes, backslashes and the controls of ASCII escaped.  Characters outside
    ASCII that have no glyph, which Rust writes as [\u{..}] too, are left as they are. *)
Definition escape_debug (b : byte) : bytes :=
  if u8 b =? 0 then bs "\0" else
  if u8 b =? 9 then bs "\t" else
  if u8 b =? 10 then bs "\n" else
  if u8 b =? 13 then bs "\r" else
  if (u8 b =? 34) || (u8 b =? 92) then [Byte.x5c; b] else
  if is_ascii_control b then
    bs "\u{" ++ (if u8 b <? 16 then [] else [hex_digit (u8 b / 16)]) ++ [hex_digit (u8 b mod 16)] ++ bs "}"
  else [b].
Definition debug_str (s : bytes) : bytes := [Byte.x22] ++ mjoin (escape_debug <$> s) ++ [Byte.x22].

Definition invalid_name (name : bytes) (reason : string) : VaultStoreError :=
  WriterState (bs "invalid wallet name " ++ debug_str name ++ bs ": " ++ bs reason).

Definition validate_wallet_name (name : bytes) : res VaultStoreError unit :=
  if bool_decide (name = []) then Err (invalid_name name "empty") else
  if bool_decide (name = bs ".") || bool_decide (name = bs "..")
  then Err (invalid_name name "is a path component") else
  if existsb (fun b => (u8 b =? 47) || (u8 b =? 92)) name
  then Err (invalid_name name "contains a path separator") else
  if has_control name then Err (invalid_name name "contains a control character") else
  if contains (bs "." ++ WALLET_EXT) (ascii_lower <$> name)
  then Err (invalid_name name "contains the wallet extension") else
  Ok tt.

Definition is_container_by_header (p : PathBuf) : IO io_Error bool :=
  let! (prefix, file_len) := read_prefix_nofollow p MAX_HEADER_PROBE_LEN in
  io_ret (Ok (bool_decide (container_declared_len prefix = Some file_len))).

(** *** [list_wallets]: one entry *)
Definition nonempty_valid (stem : bytes) : bool :=
  negb (bool_decide (stem = [])) && is_ok (validate_wallet_name stem).

(** [Some stem] where the entry's name alone makes it a main file. *)
Definition main_stem (file_name : bytes) : option bytes :=
  match strip_suffix (bs "." ++ WALLET_EXT) file_name with
  | Some stem => if nonempty_valid stem then Some stem else None
  | None => None
  end.

(** [Some stem] where the name is that of a temporary or a quarantine copy. *)
Definition survivor_stem (file_name : bytes) : option bytes :=
  if ends_with (bs ".tmp") file_name || ends_with (bs ".orphan") file_name then
    match split_once_str (bs "." ++ WALLET_EXT ++ bs ".") file_name with
    | Some (stem, _) => if nonempty_valid stem then Some stem else None
    | None => None
    end
  else None.

(** Whether a survivor counts as a container: gone is no, unreadable is yes. *)
Definition survivor_counts (p : PathBuf) : IO io_Error bool :=
  match! is_container_by_header p with r =>
  match r with
  | Ok is_container => io_ret (Ok is_container)
  | Err e => io_ret (Ok (negb (bool_decide (io_kind e = NotFound))))
  | Panic => io_ret Panic
  end.

Definition listed_name (p : PathBuf) : IO io_Error (option bytes) :=
  if negb (utf8_valid (p_file p)) then io_ret (Ok None) else
  match main_stem (p_file p) with
  | Some stem => io_ret (Ok (Some stem))
  | None =>
      match survivor_stem (p_file p) with
      | Some stem => let! counts := survivor_counts p in io_ret (Ok (if counts then Some stem else None))
      | None => io_ret (Ok None)
      end
  end.

(** [io_at_path] for the directory itself. *)
Definition io_at_dir (operation : string) (d : bytes) (e : io_Error) : io_Error :=
  mkIo (io_kind e) (bs operation ++ bs " " ++ d ++ bs " failed: " ++ io_text e).

Fixpoint collect_names (d : bytes) (l : list PathBuf) : IO VaultStoreError (list bytes) :=
  match l with
  | [] => io_ret (Ok [])
  | p :: l' =>
      let! p := lift_io (io_map_err (io_at_dir "reading wallet directory entry" d) (next_entry p)) in
      let! name := lift_io (listed_name p) in
      let! names := collect_names d l' in
      io_ret (Ok (match name with Some n => n :: names | None => names end))
  end.

(** [Vec::dedup]. *)
Fixpoint dedup {A} `{EqDecision A} (l : list A) : list A :=
  match l with
  | x :: l' =>
      match dedup l' with
      | y :: r => if decide (x = y) then y :: r else x :: y :: r
      | [] => [x]
      end
  | [] => []
  end.

Definition list_wallets (d : bytes) : IO VaultStoreError (list bytes) :=
  match! open_dir d with r =>
  match r with
  | Ok entries =>
      let! names := collect_names d entries in
      io_ret (Ok (dedup (sort_by_key id names)))
  | Err e =>
      if bool_decide (io_kind e = NotFound) then io_ret (Ok [])
      else io_ret (Err (StoreIo (io_at_dir "reading wallet directory" d e)))
  | Panic => io_ret Panic
  end.

(** ** The store of one wallet *)
Record VaultStore := mkStore { st_dir : bytes; st_name : bytes }.

#[export] Instance VaultStore_eq_dec : EqDecision VaultStore.
Proof. solve_decision. Defined.

Definition main_path (s : VaultStore) : PathBuf := mkPath (st_dir s) (main_file (st_name s)).

Definition not_regular (what : string) (p : PathBuf) : VaultStoreError :=
  StoreIo (mkIo InvalidData (bs what ++ display p)).

(** [try_list_temps(&main)?.into_iter().chain(try_list_orphans(&main)?)]. *)
Definition list_survivors (main : PathBuf) : IO io_Error (list PathBuf) :=
  let! temps := try_list_temps main in
  let! orphans := try_list_orphans main in
  io_ret (Ok (temps ++ orphans)).

(** The loop over survivors in [read_display_name]. *)
Fixpoint survivors_display_name (l : list PathBuf) (known : option bytes) : IO VaultStoreError (option bytes) :=
  match l with
  | [] => io_ret (Ok known)
  | p :: l' =>
      match! read_prefix_nofollow p MAX_HEADER_PROBE_LEN with r =>
      match r with
      | Err e => if bool_decide (io_kind e = NotFound) then survivors_display_name l' known
                 else io_ret (Err (StoreIo e))
      | Panic => io_ret Panic
      | Ok (prefix, file_len) =>
          if negb (bool_decide (container_declared_len prefix = Some file_len))
          then survivors_display_name l' known else
          let! label := lift_vault (read_display_name prefix) in
          if bool_decide (known <> None /\ known <> Some label) then
            io_ret (Err (StoreVault (Corrupt "recovery candidates carry different wallet display names")))
          else survivors_display_name l' (Some label)
      end
  end.

Definition store_read_display_name (s : VaultStore) : IO VaultStoreError (option bytes) :=
  let! _ := io_ret (validate_wallet_name (st_name s)) in
  let main := main_path s in
  match! symlink_metadata main with r =>
  match r with
  | Ok m =>
      if not_singly_linked m
      then io_ret (Err (not_regular "wallet path is not a singly-linked regular file: " main)) else
      let! (prefix, _) := lift_io (read_prefix_nofollow main MAX_HEADER_PROBE_LEN) in
      io_ret (Ok (match read_display_name prefix with Ok n => Some n | _ => None end))
  | Err e =>
      if bool_decide (io_kind e = NotFound) then
        let! survivors := lift_io (list_survivors main) in
        survivors_display_name survivors None
      else io_ret (Err (StoreIo e))
  | Panic => io_ret Panic
  end.

Record WalletListing := mkListing { storage_id : bytes; display_name : bytes }.

Fixpoint listings (d : bytes) (ids : list bytes) : IO VaultStoreError (list WalletListing) :=
  match ids with
  | [] => io_ret (Ok [])
  | i :: ids' =>
      match! store_read_display_name (mkStore d i) with r =>
      match r with
      | Panic => io_ret Panic
      | _ =>
          let name := match r with Ok (Some n) => n | _ => i end in
          let! rest := listings d ids' in
          io_ret (Ok (mkListing i name :: rest))
      end
  end.

Definition list_wallet_entries (d : bytes) : IO VaultStoreError (list WalletListing) :=
  let! ids := list_wallets d in listings d ids.

(** [exists]: a main file, or a survivor that is a container. *)
Fixpoint any_container (l : list PathBuf) : IO VaultStoreError bool :=
  match l with
  | [] => io_ret (Ok false)
  | p :: l' =>
      match! is_container_by_header p with r =>
      match r with
      | Ok true => io_ret (Ok true)
      | Ok false => any_container l'
      | Err e => if bool_decide (io_kind e = NotFound) then any_container l' else io_ret (Err (StoreIo e))
      | Panic => io_ret Panic
      end
  end.

Definition store_exists (s : VaultStore) : IO VaultStoreError bool :=
  let! _ := io_ret (validate_wallet_name (st_name s)) in
  let main := main_path s in
  match! symlink_metadata main with r =>
  match r with
  | Ok m =>
      if is_file m && negb (is_symlink m) then io_ret (Ok true)
      else io_ret (Err (not_regular "wallet path is not a regular no-follow file: " main))
  | Err e =>
      if bool_decide (io_kind e = NotFound) then
        let! survivors := lift_io (list_survivors main) in
        any_container survivors
      else io_ret (Err (StoreIo (io_at_path "reading wallet metadata at" main e)))
  | Panic => io_ret Panic
  end.

(** ** Which files belong to which wallet *)
Lemma contains_iff pat s : contains pat s = true <-> exists l r, s = l ++ pat ++ r.
Proof.
  induction s as [|a s IH]; cbn [contains]; rewrite orb_true_iff, starts_with_iff.
  - split.
    + intros [[t Ht]|]; [|done]. by exists [], t.
    + intros ([|b l] & r & E); [|done]. left. by exists r.
  - rewrite IH. split.
    + intros [[t Ht]|(l & r & ->)]; [by exists [], t|by exists (a :: l), r].
    + intros ([|b l] & r & E); [left; by exists r|]. right. injection E as -> ->. eauto.
Qed.

Lemma strip_suffix_Some suffix s t : strip_suffix suffix s = Some t <-> s = t ++ suffix.
Proof.
  unfold strip_suffix. destruct (ends_with suffix s) eqn:E.
  - apply ends_with_iff in E as [u ->].
    rewrite length_app, Nat.add_sub, take_app_length. split; [by intros [= ->]|].
    intros Hu. by apply app_inv_tail in Hu as ->.
  - split; [done|]. intros ->. rewrite (proj2 (ends_with_iff suffix (t ++ suffix))) in E; [done|eauto].
Qed.

(** [split_once_str] cuts at the first occurrence. *)
Lemma split_once_str_Some pat s l r :
  pat <> [] ->
  split_once_str pat s = Some (l, r) <->
  s = l ++ pat ++ r /\ forall l' r', s = l' ++ pat ++ r' -> (length l <= length l')%nat.
Proof.
  intros Hpat. revert l. induction s as [|a s IH]; intros l; cbn [split_once_str].
  - destruct (starts_with pat []) eqn:E.
    { apply starts_with_iff in E as [t Ht]. by destruct pat. }
    split; [done|]. intros [Hs _]. destruct l, pat; done.
  - destruct (starts_with pat (a :: s)) eqn:E.
    + apply starts_with_iff in E as [t Ht]. rewrite Ht, drop_app_length. split.
      * intros [= <- <-]. cbn. split; [done|lia].
      * intros [Hl Hmin]. specialize (Hmin [] t eq_refl). destruct l; [|cbn in Hmin; lia].
        cbn in Hl. by apply app_inv_head in Hl as ->.
    + assert (forall r', a :: s <> pat ++ r') as Hno.
      { intros r' Hr. rewrite (proj2 (starts_with_iff pat (a :: s))) in E; [done|eauto]. }
      destruct l as [|b l].
      * split; [by destruct (split_once_str pat s) as [[]|]|]. intros [Hl _]. by apply Hno in Hl.
      * transitivity (a = b /\ split_once_str pat s = Some (l, r)).
        { destruct (split_once_str pat s) as [[]|]; naive_solver. }
        rewrite IH. split.
        -- intros (-> & -> & Hmin). split; [done|]. intros [|c l'] r' Hr; [by apply Hno in Hr|].
           injection Hr as <- Hr. cbn. apply le_n_S. by eapply Hmin.
        -- intros [[= <- ->] Hmin]. split_and!; [done|done|]. intros l' r' Hr.
           specialize (Hmin (a :: l') r'). cbn in Hmin. rewrite Hr in Hmin. specialize (Hmin eq_refl). lia.
Qed.

(** *** Valid names *)
Definition wallet_marker : bytes := bs "." ++ WALLET_EXT.

Lemma lower_marker_id b : b ∈ wallet_marker -> ascii_lower b = b.
Proof. apply (Forall_forall (fun b => ascii_lower b = b)). by vm_compute; repeat constructor. Qed.

Lemma fmap_lower_marker : ascii_lower <$> wallet_marker = wallet_marker.
Proof. by vm_compute. Qed.

(** What [validate_wallet_name] accepts. *)
Definition valid_name (name : bytes) : Prop :=
  name <> [] /\ name <> bs "." /\ name <> bs ".." /\
  (forall b, b ∈ name -> u8 b <> 47 /\ u8 b <> 92) /\ has_control name = false /\
  ~ exists l r, (ascii_lower <$> name) = l ++ wallet_marker ++ r.

Lemma validate_wallet_name_cases name :
  (validate_wallet_name name = Ok tt /\ valid_name name) \/
  (exists reason, validate_wallet_name name = Err (invalid_name name reason) /\ ~ valid_name name).
Proof.
  unfold validate_wallet_name, valid_name.
  case_bool_decide as H1; [right; eexists; split; [done|naive_solver]|].
  case_bool_decide as H2; cbn [orb]; [right; eexists; split; [done|naive_solver]|].
  case_bool_decide as H3; [right; eexists; split; [done|naive_solver]|].
  destruct (existsb _ name) eqn:H4.
  { right. eexists. split; [done|]. apply existsb_exists in H4 as (b & Hin & Hb).
    apply list_elem_of_In in Hin. intros (_ & _ & _ & Hs & _). destruct (Hs _ Hin).
    apply orb_true_iff in Hb. rewrite !N.eqb_eq in Hb. naive_solver. }
  destruct (has_control name) eqn:H5; [right; eexists; split; [done|naive_solver]|].
  destruct (contains _ (ascii_lower <$> name)) eqn:H6.
  { right. eexists. split; [done|]. apply contains_iff in H6. fold wallet_marker in H6. naive_solver. }
  left. split_and!; try done.
  - intros b Hb. split; intros Eb; (assert (existsb (fun b => (u8 b =? 47) || (u8 b =? 92)) name = true) as Hx;
      [apply existsb_exists; exists b; split; [by apply list_elem_of_In|by rewrite Eb]|by rewrite Hx in H4]).
  - rewrite <- contains_iff. unfold wallet_marker. by rewrite H6.
Qed.

Lemma is_ok_valid name : is_ok (validate_wallet_name name) = true <-> valid_name name.
Proof. destruct (validate_wallet_name_cases name) as [[-> ?]|(r & -> & ?)]; cbn; naive_solver. Qed.

(** No occurrence of the marker inside a valid name. *)
Lemma valid_name_marker name l r : valid_name name -> name <> l ++ wallet_marker ++ r.
Proof.
  intros (_ & _ & _ & _ & _ & Hno) ->. apply Hno.
  exists (ascii_lower <$> l), (ascii_lower <$> r). by rewrite !fmap_app, fmap_lower_marker.
Qed.

(** The first marker of a wallet's file is the one after its name. *)
Lemma first_marker name rest l r :
  valid_name name -> name ++ wallet_marker ++ rest = l ++ wallet_marker ++ r -> (length name <= length l)%nat.
Proof.
  intros Hv E. destruct (le_lt_dec (length name) (length l)) as [|Hlt]; [done|exfalso].
  assert (exists k, name = l ++ k) as [k ->].
  { apply (f_equal (take (length name))) in E. rewrite take_app_length in E.
    rewrite take_app_ge in E by lia. eauto. }
  rewrite length_app in Hlt. rewrite <- app_assoc in E. apply app_inv_head in E.
  destruct (le_lt_dec (length wallet_marker) (length k)) as [Hle|Hgt].
  - assert (exists k', k = wallet_marker ++ k') as [k' ->].
    { apply (f_equal (take (length wallet_marker))) in E. rewrite take_app_length, take_app_le in E by lia.
      exists (drop (length wallet_marker) k). by rewrite <- E at 1; rewrite take_drop. }
    by apply (valid_name_marker (l ++ wallet_marker ++ k') l k').
  - (* the two markers overlap, a dot inside the extension *)
    assert (length k <> 0%nat) as Hk by (destruct k; cbn in *; [rewrite Nat.add_0_r in Hlt|]; lia).
    apply (f_equal (fun s => s !! length k)) in E.
    rewrite lookup_app_r, Nat.sub_diag, lookup_app_l in E by lia.
    rewrite lookup_app_l in E by lia.
    assert (length k < 9)%nat as Hk9 by (cbn in Hgt; lia).
    destruct (length k) as [|[|[|[|[|[|[|[|[|]]]]]]]]]; try done; lia.
Qed.

(** A name shaped as that of a survivor of the wallet [name]. *)
Definition survivor_of (name f : bytes) : Prop :=
  starts_with (main_file name ++ bs ".") f = true /\
  (ends_with (bs ".tmp") f = true \/ ends_with (bs ".orphan") f = true).

(** Every survivor belongs to one wallet, and its name tells which. *)
Lemma survivor_stem_Some f name : survivor_stem f = Some name <-> valid_name name /\ survivor_of name f.
Proof.
  unfold survivor_stem, survivor_of. rewrite <- orb_true_iff.
  destruct (ends_with (bs ".tmp") f || ends_with (bs ".orphan") f); [|naive_solver].
  rewrite starts_with_iff. fold wallet_marker.
  assert (forall n, valid_name n <-> nonempty_valid n = true) as Hvalid.
  { intros n. unfold nonempty_valid. rewrite andb_true_iff, is_ok_valid, negb_true_iff, bool_decide_eq_false.
    split; [intros Hv; split; [apply Hv|done]|by intros []]. }
  assert (bs "." ++ WALLET_EXT ++ bs "." = wallet_marker ++ bs ".") as -> by done.
  unfold main_file. fold wallet_marker. split.
  - destruct (split_once_str _ f) as [[l r]|] eqn:E; [|done].
    apply split_once_str_Some in E as [-> _]; [|done].
    destruct (nonempty_valid l) eqn:Hn; [|done]. intros [= <-]. split; [by apply Hvalid|].
    split; [|done]. exists r. by rewrite <- !app_assoc.
  - intros (Hv & [t ->] & _).
    assert (split_once_str (wallet_marker ++ bs ".") (((name ++ wallet_marker) ++ bs ".") ++ t) = Some (name, t)) as E.
    { apply split_once_str_Some; [done|]. rewrite <- !app_assoc. split; [done|]. intros l r E.
      rewrite <- app_assoc in E. eapply (first_marker name _ l); [done|exact E]. }
    rewrite E. by rewrite (proj1 (Hvalid name) Hv).
Qed.

Lemma main_stem_Some f name : main_stem f = Some name <-> valid_name name /\ f = main_file name.
Proof.
  unfold main_stem, main_file. fold wallet_marker. split.
  - destruct (strip_suffix wallet_marker f) as [stem|] eqn:E; [|done]. apply strip_suffix_Some in E as ->.
    unfold nonempty_valid. rewrite (andb_comm (negb _)).
    destruct (is_ok (validate_wallet_name stem)) eqn:Hv; [|done]. apply is_ok_valid in Hv.
    rewrite bool_decide_eq_false_2 by apply Hv. by intros [= <-].
  - intros [Hv ->]. rewrite (proj2 (strip_suffix_Some wallet_marker (name ++ wallet_marker) name) eq_refl).
    unfold nonempty_valid. by rewrite bool_decide_eq_false_2, (proj2 (is_ok_valid name) Hv) by apply Hv.
Qed.

Lemma is_residue_survivor s suffix p :
  (suffix = ".tmp" \/ suffix = ".orphan") -> is_residue (main_path s) suffix p = true ->
  survivor_of (st_name s) (p_file p).
Proof.
  unfold is_residue, survivor_of, temp_prefix. cbn. rewrite !andb_true_iff.
  intros [-> | ->] [[_ H1] H2]; auto.
Qed.

Lemma main_not_survivor m n : ~ survivor_of n (main_file m).
Proof.
  intros [_ Hend]. change (main_file m) with (m ++ bs "." ++ WALLET_EXT) in Hend. rewrite !ends_with_iff in Hend.
  destruct Hend as [[t Ht]|[t Ht]]; apply (f_equal (@rev byte)) in Ht; rewrite !rev_app_distr in Ht; discriminate Ht.
Qed.

(** No file belongs to two wallets: what one store lists as its survivors, and so
    recovers from, shreds or destroys, is neither the main file nor a survivor of a wallet
    of another name. *)
Lemma survivors_disjoint (s1 s2 : VaultStore) (suffix1 suffix2 : string) (p : PathBuf)
    (H1 : valid_name (st_name s1)) (H2 : valid_name (st_name s2))
    (Hx1 : (suffix1 = ".tmp" \/ suffix1 = ".orphan")) (Hx2 : (suffix2 = ".tmp" \/ suffix2 = ".orphan"))
    (Hp1 : is_residue (main_path s1) suffix1 p = true)
    (Hne : st_name s1 <> st_name s2) :
  p <> main_path s2 /\ is_residue (main_path s2) suffix2 p = false.
Proof.
  pose proof (is_residue_survivor _ _ _ Hx1 Hp1) as Hs1. split.
  - intros ->. by apply main_not_survivor in Hs1.
  - destruct (is_residue (main_path s2) suffix2 p) eqn:Hp2; [|done].
    pose proof (is_residue_survivor _ _ _ Hx2 Hp2) as Hs2.
    pose proof (proj2 (survivor_stem_Some _ _) (conj H1 Hs1)) as E1.
    rewrite (proj2 (survivor_stem_Some _ _) (conj H2 Hs2)) in E1. congruence.
Qed.

Lemma survivors_disjoint_witness :
  valid_name (bs "alice") /\
  (mkPath (bs "w") (bs "alice.ccwallet.Ab12.tmp") <> main_path (mkStore (bs "w") (bs "bob")) /\
   is_residue (main_path (mkStore (bs "w") (bs "bob"))) ".tmp" (mkPath (bs "w") (bs "alice.ccwallet.Ab12.tmp")) = false).
Proof.
  assert (valid_name (bs "alice")) as Ha by (by apply is_ok_valid).
  split; [exact Ha|].
  refine (survivors_disjoint (mkStore (bs "w") (bs "alice")) (mkStore (bs "w") (bs "bob")) ".tmp" ".tmp" _ Ha _ _ _ _ _).
  - by apply is_ok_valid.
  - by left.
  - by left.
  - by vm_compute.
  - by vm_compute.
Defined.

(** ** What [list_wallets] lists *)
Lemma dedup_elem {A} `{EqDecision A} (l : list A) x : x ∈ dedup l <-> x ∈ l.
Proof.
  induction l as [|y l IH]; [done|]. cbn [dedup]. rewrite elem_of_cons, <- IH.
  destruct (dedup l) as [|z r]; [by rewrite elem_of_cons|]. case_decide; rewrite !elem_of_cons; naive_solver.
Qed.

Lemma dedup_names_sorted {A} `{OrdLaws A} `{EqDecision A} (l : list A) :
  StronglySorted (key_le id) l -> StronglySorted (fun x y => cmp x y = Lt) (dedup l).
Proof.
  induction l as [|x l IH]; [constructor|]. intros [Hl Hx]%StronglySorted_inv. specialize (IH Hl).
  cbn [dedup]. assert (forall y, y ∈ dedup l -> cmp x y <> Gt) as Hle.
  { intros y Hy. rewrite dedup_elem in Hy. exact (proj1 (Forall_forall _ _) Hx y Hy). }
  destruct (dedup l) as [|z r]; [by repeat constructor|]. case_decide as Hxz; [done|].
  constructor; [done|]. apply StronglySorted_inv in IH as [_ Hz].
  assert (cmp x z = Lt) as Hlt.
  { destruct (cmp x z) eqn:E; [by apply cmp_eq_iff in E|done|by exfalso; apply (Hle z); [left|]]. }
  constructor; [done|]. eapply Forall_impl; [exact Hz|]. intros y Hy. by eapply cmp_lt_trans.
Qed.

(** A survivor that counts: a whole container by its header, or unreadable. *)
Definition counts (p : PathBuf) (fs : FsState) : bool :=
  match plain p fs with
  | Some data => bool_decide (container_declared_len (take MAX_HEADER_PROBE_LEN data) = Some (N.of_nat (length data)))
  | None => bool_decide (entry p fs <> None)
  end.

Definition listed (fs : FsState) (p : PathBuf) : option bytes :=
  if negb (utf8_valid (p_file p)) then None else
  match main_stem (p_file p) with
  | Some stem => Some stem
  | None => match survivor_stem (p_file p) with
            | Some stem => if counts p fs then Some stem else None
            | None => None
            end
  end.

Lemma smooth_read_error p fs e :
  read_error smooth p fs e -> plain p fs = None /\ (io_kind e = NotFound <-> entry p fs = None).
Proof. intros [(e' & []%smooth_never_fails & _)|?]; done. Qed.

Section listing.
Context (I : FsState -> Prop) (fs : FsState) (HI : I fs).

Lemma listed_name_wp p (Q : res io_Error (option bytes) -> FsState -> Prop) :
  Q (Ok (listed fs p)) fs -> wp smooth I (listed_name p) Q fs.
Proof using HI.
  intros HQ. unfold listed_name, listed in *.
  destruct (negb (utf8_valid (p_file p))); [by io_step|].
  destruct (main_stem (p_file p)); [by io_step|]. destruct (survivor_stem (p_file p)); [|by io_step].
  io_step. unfold survivor_counts. io_step. unfold is_container_by_header. io_step.
  apply read_prefix_wp; [apply _|done| |].
  - intros e [Hp Hk]%smooth_read_error. io_step. io_step. unfold counts in HQ. rewrite Hp in HQ.
    by rewrite <- bool_decide_not, (bool_decide_ext _ _ (not_iff_compat Hk)).
  - intros data Hp. io_step. io_step. io_step. unfold counts in HQ. by rewrite Hp in HQ.
Qed.

Lemma collect_names_wp d l (Q : res VaultStoreError (list bytes) -> FsState -> Prop) :
  Q (Ok (omap (listed fs) l)) fs -> wp smooth I (collect_names d l) Q fs.
Proof using HI.
  revert Q. induction l as [|p l IH]; intros Q HQ; cbn [collect_names]; [by io_step|].
  io_step. unfold lift_io. io_step. io_step. unfold next_entry.
  apply calm_query; [apply _|done|by intros ? []%smooth_never_fails|]. cbn.
  io_step. io_step. apply listed_name_wp. cbn. io_step. apply IH. io_step.
  revert HQ. cbn [omap list_omap]. by destruct (listed fs p).
Qed.
End listing.

(** [list_wallets] names, each once and in order, exactly the wallets that have a main
    file or a survivor that counts in the directory, and changes nothing. *)
Lemma list_wallets_spec (d : bytes) (fs : FsState) (Hfs : in_dirs fs) :
  wp smooth (fun f => f = fs) (list_wallets d)
    (fun r fs' => fs' = fs /\ exists l, r = Ok l /\ StronglySorted (fun x y => cmp x y = Lt) l /\
       forall n, n ∈ l <-> exists p, p_dir p = d /\ is_Some (names fs !! p) /\ utf8_valid (p_file p) = true /\
         valid_name n /\ (p_file p = main_file n \/ (survivor_of n (p_file p) /\ counts p fs = true))) fs.
Proof.
  assert (forall p n, listed fs p = Some n <-> utf8_valid (p_file p) = true /\ valid_name n /\
    (p_file p = main_file n \/ (survivor_of n (p_file p) /\ counts p fs = true))) as Hlisted.
  { intros p n. unfold listed. destruct (utf8_valid (p_file p)); cbn [negb]; [|naive_solver].
    destruct (main_stem (p_file p)) as [m|] eqn:Em.
    - apply main_stem_Some in Em as [Hm Em]. rewrite Em. split; [by intros [= <-]; auto|].
      intros (_ & _ & [Hf|[Hs _]]); [|by apply main_not_survivor in Hs].
      unfold main_file in Hf. by apply app_inv_tail in Hf as ->.
    - pose proof (main_stem_Some (p_file p) n) as Hm. rewrite Em in Hm.
      pose proof (survivor_stem_Some (p_file p) n) as Hs.
      assert (~ (valid_name n /\ p_file p = main_file n)) as Hno by (intros Hx; by apply Hm in Hx).
      assert ((match survivor_stem (p_file p) with Some stem => if counts p fs then Some stem else None | None => None end) = Some n
        <-> survivor_stem (p_file p) = Some n /\ counts p fs = true) as ->
        by (destruct (survivor_stem (p_file p)), (counts p fs); intuition congruence).
      rewrite Hs. tauto. }
  unfold list_wallets. io_step. apply open_dir_wp; [apply _|done|by intros ? []%smooth_never_fails| |].
  - intros Hd e He. rewrite bool_decide_eq_true_2 by done. io_step. split; [done|]. exists [].
    split; [done|]. split; [constructor|]. intros n. split; [by intros ?%elem_of_nil|].
    intros (p & <- & [i Hi] & _). by apply Hfs in Hi.
  - intros l Hl Hin. io_step. apply collect_names_wp; [done|]. io_step. split; [done|].
    eexists. split; [done|]. split; [apply dedup_names_sorted, sort_by_key_sorted|].
    intros n. rewrite dedup_elem, sort_by_key_perm, list_elem_of_omap.
    split; intros (p & Hp); exists p; revert Hp; rewrite Hin, Hlisted; tauto.
Qed.

Definition demo_fs : FsState :=
  let file d := mkInode Regular 1 384 d true None in
  mkFs {[bs "w"]}
    (<[mkPath (bs "w") (bs "bob.ccwallet") := 1]> (<[mkPath (bs "w") (bs "notes.txt") := 2]> ∅))
    ∅ (<[1 := file [Byte.x01]]> (<[2 := file [Byte.x02]]> ∅)).

Lemma demo_fs_in_dirs : in_dirs demo_fs.
Proof.
  intros p i. cbn. rewrite !lookup_insert. intros Hp.
  repeat case_decide; subst; cbn; apply elem_of_singleton; done.
Qed.

Lemma list_wallets_spec_witness :
  in_dirs demo_fs /\
  wp smooth (fun f => f = demo_fs) (list_wallets (bs "w"))
    (fun r fs' => fs' = demo_fs /\ exists l, r = Ok l /\ StronglySorted (fun x y => cmp x y = Lt) l /\
       forall n, n ∈ l <-> exists p, p_dir p = bs "w" /\ is_Some (names demo_fs !! p) /\ utf8_valid (p_file p) = true /\
         valid_name n /\ (p_file p = main_file n \/ (survivor_of n (p_file p) /\ counts p demo_fs = true))) demo_fs.
Proof. split; [exact demo_fs_in_dirs|]. exact (list_wallets_spec (bs "w") demo_fs demo_fs_in_dirs). Defined.
