(* ===== verification/Writer.v ===== *)
(** * The writer of a wallet file (crates/cc-wallet-storage/src/vault_store.rs, second part)

    [VaultWriter] numbers the saves and owns the file: a save is prepared (sealed under the
    next counter after the installed file was checked), executed, and its receipt consumed
    before another may start; after any failure nothing is written any more. *)

From Stdlib Require Import NArith Lia.
From stdpp Require Import gmap.
From S2P Require Import Prelude Ord Bytes Text Decimal Ids Digest VaultKeys Vault Fs Atomic Wallets.

(** What unlocking chose. *)
Record SelectedCandidate := mkSelected {
  sc_owner_main : PathBuf;
  sc_path : PathBuf;
  sc_counter : N;
  sc_sha256 : bytes32
}.

Record WriteReceipt := mkReceipt { wr_counter : N; wr_exact_path : PathBuf; wr_file_sha256 : bytes32 }.

#[export] Instance WriteReceipt_eq_dec : EqDecision WriteReceipt.
Proof. solve_decision. Defined.

Record PreparedVaultWrite := mkPrepared {
  pw_counter : N;
  pw_target : PathBuf;
  pw_sealed : bytes;
  pw_sealed_sha256 : bytes32;
  pw_fresh : bool
}.

Record PendingWrite := mkPending { pe_counter : N; pe_exact_path : PathBuf; pe_file_sha256 : bytes32 }.

Record VaultWriter := mkWriter {
  vw_store : VaultStore;
  vw_committed_counter : N;
  vw_committed_sha256 : option bytes32;
  vw_pending : option PendingWrite;
  vw_healthy : bool
}.

Definition is_healthy (w : VaultWriter) : bool :=
  vw_healthy w && match vw_pending w with None => true | Some _ => false end.
Definition has_pending_write (w : VaultWriter) : bool :=
  match vw_pending w with Some _ => true | None => false end.

Definition set_pending (p : option PendingWrite) (w : VaultWriter) : VaultWriter :=
  mkWriter (vw_store w) (vw_committed_counter w) (vw_committed_sha256 w) p (vw_healthy w).
Definition set_unhealthy (w : VaultWriter) : VaultWriter :=
  mkWriter (vw_store w) (vw_committed_counter w) (vw_committed_sha256 w) (vw_pending w) false.
Definition set_committed (c : N) (h : bytes32) (w : VaultWriter) : VaultWriter :=
  mkWriter (vw_store w) c (Some h) (vw_pending w) (vw_healthy w).

Definition state_error (text : string) : VaultStoreError := WriterState (bs text).

Section writer.
Context `{Sha256} `{VaultPrims} `{Tempfile}.

(** [PreparedVaultWrite::execute]. *)
Definition execute (p : PreparedVaultWrite) : IO VaultStoreError WriteReceipt :=
  let! embedded := lift_vault (read_save_counter (pw_sealed p)) in
  check! embedded =? pw_counter p
    else state_error "sealed counter differs from the reserved counter" ;;
  let! _ := lift_io (if pw_fresh p then write_atomic_new (pw_target p) (pw_sealed p)
                     else write_atomic (pw_target p) (pw_sealed p)) in
  let! installed := lift_io (read_regular_nofollow (pw_target p)) in
  check! bool_decide (installed = pw_sealed p)
    else StoreIo (mkIo InvalidData (bs "installed wallet bytes differ from the reserved sealed write")) ;;
  io_ret (Ok (mkReceipt (pw_counter p) (pw_target p) (pw_sealed_sha256 p))).

(** Nothing may stand at the path: the three checks of a new wallet. *)
Definition nothing_at (main : PathBuf) (there : VaultStoreError) : IO VaultStoreError unit :=
  match! symlink_metadata main with r =>
  match r with
  | Ok _ => io_ret (Err there)
  | Err e => if bool_decide (io_kind e = NotFound) then io_ret (Ok tt) else io_ret (Err (StoreIo e))
  | Panic => io_ret Panic
  end.

Definition no_survivors (main : PathBuf) (there : VaultStoreError) : IO VaultStoreError unit :=
  let! temps := lift_io (try_list_temps main) in
  if negb (bool_decide (temps = [])) then io_ret (Err there) else
  let! orphans := lift_io (try_list_orphans main) in
  check! bool_decide (orphans = []) else there ;;
  io_ret (Ok tt).

(** [VaultWriter::fresh]. *)
Definition writer_fresh (s : VaultStore) : IO VaultStoreError VaultWriter :=
  let main := main_path s in
  let! _ := nothing_at main
              (StoreIo (mkIo AlreadyExists (bs "wallet already exists at " ++ display main))) in
  let! _ := no_survivors main
              (state_error "a fresh wallet cannot start while recovery candidates exist") in
  io_ret (Ok (mkWriter s 0 None None true)).

(** [VaultStore::writer_for_new]. *)
Definition writer_for_new (s : VaultStore) : IO VaultStoreError VaultWriter :=
  let! _ := io_ret (validate_wallet_name (st_name s)) in
  writer_fresh s.

(** [VaultWriter::authenticated]. *)
Definition writer_authenticated (s : VaultStore) (selected : SelectedCandidate) : IO VaultStoreError VaultWriter :=
  check! bool_decide (sc_owner_main selected = main_path s)
    else state_error "authenticated candidate belongs to a different wallet path" ;;
  let! data := lift_io (read_regular_nofollow (sc_path selected)) in
  let moved := state_error "authenticated selected-candidate binding changed before writer ownership" in
  if negb (bool_decide (sha256 data = sc_sha256 selected)) then io_ret (Err moved) else
  let! counter := lift_vault (read_save_counter data) in
  check! counter =? sc_counter selected else moved ;;
  io_ret (Ok (mkWriter s (sc_counter selected) (Some (sc_sha256 selected)) None true)).

(** [VaultWriter::poison]. *)
Definition poison (w : VaultWriter) : res VaultStoreError VaultWriter :=
  check negb (has_pending_write w)
    else state_error "cannot poison away a started write before consuming its result" ;;
  Ok (set_unhealthy w).

(** What [prepare] asks of the disk before it seals. *)
Definition check_installed (w : VaultWriter) : IO VaultStoreError unit :=
  let main := main_path (vw_store w) in
  match vw_committed_sha256 w with
  | Some expected_hash =>
      let! installed := lift_io (read_regular_nofollow main) in
      let! installed_counter := lift_vault (read_save_counter installed) in
      check! (installed_counter =? vw_committed_counter w) && bool_decide (sha256 installed = expected_hash)
        else state_error "the committed wallet changed outside its authenticated writer" ;;
      io_ret (Ok tt)
  | None =>
      let! _ := nothing_at main
        (state_error "a wallet file appeared at the new wallet's path; refusing to overwrite it") in
      no_survivors main (state_error "recovery candidates appeared before the first save")
  end.

(** The sections of a save. *)
Definition save_sections (wallet journal : bytes) (activity : option bytes) : list (Purpose * bytes) :=
  [(PWallet, wallet); (PJournal, journal)]
  ++ match activity with Some a => [(PActivity, a)] | None => [] end.

(** [VaultWriter::prepare]: the prepared write, the writer with it pending, the entropy
    left. *)
Definition prepare (w : VaultWriter) (v : Vault) (wallet journal : bytes) (activity : option bytes) (e : entropy)
  : IO VaultStoreError (PreparedVaultWrite * VaultWriter * entropy) :=
  check! vw_healthy w else state_error "writer is unhealthy after an earlier persistence failure" ;;
  check! negb (has_pending_write w) else state_error "a started write has not been synchronously consumed" ;;
  let! _ := check_installed w in
  let fresh := match vw_committed_sha256 w with None => true | Some _ => false end in
  let! counter := io_ret (ok_or (checked_add u64_max (vw_committed_counter w) 1)
                            (state_error "save counter overflow")) in
  let! (sealed, e) := lift_vault (seal_container v counter (save_sections wallet journal activity) e) in
  let target := main_path (vw_store w) in
  let sealed_sha256 := sha256 sealed in
  io_ret (Ok (mkPrepared counter target sealed sealed_sha256 fresh,
              set_pending (Some (mkPending counter target sealed_sha256)) w, e)).

(** [VaultWriter::consume]: the outcome and the writer after it. *)
Definition consume (w : VaultWriter) (result : res VaultStoreError WriteReceipt)
  : res VaultStoreError WriteReceipt * VaultWriter :=
  match vw_pending w with
  | None => (Err (state_error "no pending write receipt to consume"), w)
  | Some expected =>
      let w := set_pending None w in
      match result with
      | Ok receipt =>
          if (wr_counter receipt =? pe_counter expected)
             && bool_decide (wr_exact_path receipt = pe_exact_path expected)
             && bool_decide (wr_file_sha256 receipt = pe_file_sha256 expected)
          then (Ok receipt, set_committed (pe_counter expected) (wr_file_sha256 receipt) w)
          else (Err (state_error "write receipt does not match the reserved counter/path"), set_unhealthy w)
      | Err error => (Err error, set_unhealthy w)
      | Panic => (Panic, set_unhealthy w)
      end
  end.

Definition consume_join_failure (w : VaultWriter) (detail : bytes) : VaultStoreError * VaultWriter :=
  (WriterState (bs "started write did not return a receipt: " ++ detail), set_unhealthy (set_pending None w)).

(** [VaultWriter::save_sync]: the outcome, and the writer and the entropy after it. *)
Definition save_sync (w : VaultWriter) (v : Vault) (wallet journal : bytes) (activity : option bytes) (e : entropy)
  : IO Empty_set (res VaultStoreError WriteReceipt * VaultWriter * entropy) :=
  match! prepare w v wallet journal activity e with r =>
  match r with
  | Ok (prepared, w, e) =>
      match! execute prepared with result =>
      let '(r, w) := consume w result in io_ret (Ok (r, w, e))
  | Err error => io_ret (Ok (Err error, w, e))
  | Panic => io_ret Panic
  end.
End writer.

(** ** The checks before a save

    Each rule says when a check cannot fail: where no step does, and nothing is wrong. *)
Definition hazard (T : Tick -> Prop) : Prop := exists e, faulty T e.

Lemma smooth_no_hazard : ~ hazard smooth.
Proof. by intros [e []%smooth_never_fails]. Qed.

Definition no_residue (main : PathBuf) (fs : FsState) : Prop :=
  in_dirs fs /\ forall p, p_dir p = p_dir main ->
    is_residue main ".tmp" p = true \/ is_residue main ".orphan" p = true -> names fs !! p = None.

Section checks.
Context (T : Tick -> Prop) `{Calm T} (I : FsState -> Prop).

Lemma nothing_at_wp main there (Q : res VaultStoreError unit -> FsState -> Prop) fs :
  I fs -> (forall e, ~ (~ hazard T /\ entry main fs = None) -> Q (Err e) fs) ->
  (entry main fs = None -> Q (Ok tt) fs) -> wp T I (nothing_at main there) Q fs.
Proof.
  intros HI He Hok. unfold nothing_at. io_step. unfold symlink_metadata. io_step.
  - intros e Hf. pose proof Hf as [[Hg _] _]. rewrite bool_decide_eq_false_2 by done. io_step.
    apply He. intros [Hn _]. apply Hn. by exists e.
  - destruct (entry main fs) as [[]|]; cbn; [io_step; apply He; by intros []|].
    rewrite bool_decide_eq_true_2 by done. io_step. auto.
Qed.

Lemma residue_list_nil main suffix fs l :
  (suffix = ".tmp" \/ suffix = ".orphan") -> no_residue main fs -> (in_dirs fs -> residues main suffix fs l) -> l = [].
Proof.
  intros Hsuf [Hd Hno] Hl. destruct (Hl Hd) as [_ Hin]. destruct l as [|p l]; [done|exfalso].
  destruct (proj1 (Hin p)) as (Hp & Hr & [i Hi]); [by left|].
  rewrite (Hno p Hp) in Hi; [done|]. by destruct Hsuf as [-> | ->]; auto.
Qed.

Lemma no_survivors_wp main there (Q : res VaultStoreError unit -> FsState -> Prop) fs :
  I fs -> (forall e, ~ (~ hazard T /\ no_residue main fs) -> Q (Err e) fs) -> Q (Ok tt) fs ->
  wp T I (no_survivors main there) Q fs.
Proof.
  intros HI He Hok. unfold no_survivors.
  assert (forall e', faulty T e' -> forall e, Q (Err e) fs) as Hf
    by (intros e' Hf e; apply He; intros [Hn _]; apply Hn; by exists e').
  io_step. unfold lift_io. io_step.
  apply try_list_residue_wp; [done|done|intros e' He'; by eapply Hf|]. intros l Hl. cbn.
  case_bool_decide as El; cbn; [subst l|].
  2:{ io_step. apply He. intros [_ Hno]. apply El. apply (residue_list_nil main ".tmp" fs); auto. }
  io_step. io_step. apply try_list_residue_wp; [done|done|intros e' He'; by eapply Hf|]. intros l' Hl'. cbn.
  case_bool_decide as El'; [subst l'; by io_step|].
  io_step. apply He. intros [_ Hno]. apply El'. apply (residue_list_nil main ".orphan" fs); auto.
Qed.
End checks.

(** ** Sealing does not panic for a vault with a valid name *)
Section seal.
Context `{VaultPrims}.

Lemma aead_seal_no_panic key pt aad e : aead_seal key pt aad e <> Panic.
Proof.
  unfold aead_seal, draw. destruct (_ <=? _)%nat; cbn; [|done]. by destruct (xchacha_encrypt _ _ _ _).
Qed.

Lemma manifest_entries_no_panic sections : manifest_entries sections <> Panic.
Proof.
  induction sections as [|[p x] sections IH]; cbn [manifest_entries]; [done|].
  apply rbind_no_panic; [unfold section_frame_len; by case_match|]. intros. by apply rbind_no_panic.
Qed.

Lemma seal_bodies_no_panic v dh sid c m sections : forall e, seal_bodies v dh sid c m sections e <> Panic.
Proof.
  induction sections as [|[p x] sections IH]; intros e; cbn [seal_bodies]; [done|].
  apply rbind_no_panic; [apply aead_seal_no_panic|]. intros [b e1] _.
  apply rbind_no_panic; [apply IH|]. by intros [].
Qed.

Lemma seal_container_no_panic v c sections e :
  validate_display_name (v_display_name v) = Ok tt -> seal_container v c sections e <> Panic.
Proof.
  intros Hv. unfold seal_container. apply rbind_no_panic; [apply check_cardinality_no_panic|]. intros _ _.
  apply rbind_no_panic.
  { unfold encode_display_header. rewrite Hv. cbn. apply validate_display_name_Ok in Hv.
    rewrite (proj2 (N.leb_le _ _)); [done|]. unfold MAX_DISPLAY_NAME_BYTES, u16_max in *. lia. }
  intros dh _. apply rbind_no_panic; [unfold draw; by case_match|]. intros [sid e1] _.
  apply rbind_no_panic; [apply manifest_entries_no_panic|]. intros ents _.
  apply rbind_no_panic; [apply seal_bodies_no_panic|]. by intros [].
Qed.
End seal.

(** ** One save *)
Section save.
Context (T : Tick -> Prop) `{Calm T} `{Sha256} `{VaultPrims} `{TempfileLaws}.

(** What a writer that may save finds on the disk. *)
Definition installed_checked (w : VaultWriter) (fs : FsState) : Prop :=
  let main := main_path (vw_store w) in
  match vw_committed_sha256 w with
  | Some h => exists data, plain main fs = Some data /\ sha256 data = h /\
                           read_save_counter data = Ok (vw_committed_counter w)
  | None => entry main fs = None /\ no_residue main fs
  end.

Lemma read_save_counter_no_panic input : read_save_counter input <> Panic.
Proof. apply rbind_no_panic; [apply parse_public_header_no_panic|done]. Qed.

Lemma check_installed_wp I w (Q : res VaultStoreError unit -> FsState -> Prop) fs :
  I fs -> (forall e, ~ (~ hazard T /\ installed_checked w fs) -> Q (Err e) fs) -> Q (Ok tt) fs ->
  wp T I (check_installed w) Q fs.
Proof.
  intros HI He Hok. unfold check_installed, installed_checked in *.
  destruct (vw_committed_sha256 w) as [h|].
  - io_step. unfold lift_io. io_step. apply read_regular_wp; [done|done| |].
    { intros e Hr. apply He. intros [Hn (data & Hp & _)]. destruct Hr as [(e' & Hf & _)|[Hno _]].
      - apply Hn. by exists e'.
      - congruence. }
    intros data Hp. cbn. io_step. unfold lift_vault. io_step.
    assert (forall e, ~ (sha256 data = h /\ read_save_counter data = Ok (vw_committed_counter w)) -> Q (Err e) fs) as He'.
    { intros e Hno. apply He. intros [_ (d & Hd & Hx)]. apply Hno. rewrite Hp in Hd. by injection Hd as <-. }
    pose proof (read_save_counter_no_panic data).
    destruct (read_save_counter data) as [c|e|] eqn:Ec; [|by apply He'; intros []|done]. cbn.
    destruct (N.eqb_spec c (vw_committed_counter w)) as [->|]; cbn; [|io_step; apply He'; naive_solver].
    case_bool_decide; io_step; [done|]. apply He'. naive_solver.
  - io_step. apply nothing_at_wp; [done|done| |].
    { intros e Hno. apply He. naive_solver. }
    intros E. apply no_survivors_wp; [done|done| |done]. intros e Hno. apply He. naive_solver.
Qed.

(** What a save needs to be prepared. *)
Definition ready (w : VaultWriter) (v : Vault) (sections : list (Purpose * bytes)) (e : entropy) (fs : FsState) : Prop :=
  is_healthy w = true /\ installed_checked w fs /\ vw_committed_counter w < u64_max /\
  is_ok (seal_container v (vw_committed_counter w + 1) sections e) = true.

Lemma prepare_wp I w v wallet journal activity e (Q : res VaultStoreError _ -> FsState -> Prop) fs :
  let sections := save_sections wallet journal activity in
  I fs -> validate_display_name (v_display_name v) = Ok tt ->
  (forall err, ~ (~ hazard T /\ ready w v sections e fs) -> Q (Err err) fs) ->
  (forall sealed e', let c := vw_committed_counter w in
     is_healthy w = true -> c < u64_max -> seal_container v (c + 1) sections e = Ok (sealed, e') ->
     Q (Ok (mkPrepared (c + 1) (main_path (vw_store w)) sealed (sha256 sealed)
              (match vw_committed_sha256 w with None => true | Some _ => false end),
            set_pending (Some (mkPending (c + 1) (main_path (vw_store w)) (sha256 sealed))) w, e')) fs) ->
  wp T I (prepare w v wallet journal activity e) Q fs.
Proof.
  intros sections HI Hv He Hok. unfold prepare, ready, is_healthy, has_pending_write in *.
  destruct (vw_healthy w); [|io_step; apply He; by intros [_ []]].
  destruct (vw_pending w); cbn [negb]; [io_step; apply He; by intros [_ []]|].
  io_step. apply check_installed_wp; [done| |].
  { intros err Hno. apply He. naive_solver. }
  io_step. io_step. unfold ok_or.
  destruct (checked_add _ _ _) as [c|] eqn:Ec.
  2:{ apply He. intros (_ & _ & _ & Hlt & _). unfold checked_add in Ec.
      destruct (N.leb_spec (vw_committed_counter w + 1) u64_max); [done|lia]. }
  apply checked_add_Some in Ec as [-> Hle]. io_step. unfold lift_vault. io_step. fold sections.
  pose proof (seal_container_no_panic v (vw_committed_counter w + 1) sections e Hv).
  destruct (seal_container _ _ _ _) as [[sealed e']|err|] eqn:Es; cbn; [| |done].
  - io_step. apply Hok; try done. lia.
  - apply He. by intros (_ & _ & _ & _ & Hx).
Qed.

(** Executing a prepared write. *)
Lemma execute_wp p fs (Hs : settled (pw_target p) fs) :
  wp T (fun f => sound_at (content (pw_target p) fs) (pw_sealed p) (pw_target p) f /\
                 read_save_counter (pw_sealed p) = Ok (pw_counter p))
    (execute p)
    (fun r fs' => match r with
       | Ok receipt => receipt = mkReceipt (pw_counter p) (pw_target p) (pw_sealed_sha256 p) /\
                       installed (pw_target p) (pw_sealed p) fs' /\ read_save_counter (pw_sealed p) = Ok (pw_counter p)
       | Err _ => content (pw_target p) fs' = content (pw_target p) fs \/
                  (content (pw_target p) fs' = Some (pw_sealed p) /\
                   read_save_counter (pw_sealed p) = Ok (pw_counter p))
       | Panic => False
       end) fs.
Proof.
  unfold execute. io_step. unfold lift_vault. io_step.
  pose proof (read_save_counter_no_panic (pw_sealed p)).
  destruct (read_save_counter (pw_sealed p)) as [c|e|] eqn:Ec; cbn; [|by left|done].
  destruct (N.eqb_spec c (pw_counter p)) as [->|]; [|io_step; by left].
  io_step. unfold lift_io. io_step.
  assert (wp T (sound_at (content (pw_target p) fs) (pw_sealed p) (pw_target p))
    (if pw_fresh p then write_atomic_new (pw_target p) (pw_sealed p) else write_atomic (pw_target p) (pw_sealed p))
    (write_outcome (pw_target p) (pw_sealed p) fs) fs) as Hw.
  { destruct (pw_fresh p); (eapply wp_mono; [apply write_atomic_impl_wp; [done|done|by apply settled_sound]|]);
      by intros r fs' []. }
  eapply wp_log_mono; [eapply wp_mono; [exact Hw|]|by split].
  intros [[]|e|] fs' Ho; cbn; [|destruct (wo_target _ _ _ _ _ Ho); auto|exact (wo_result _ _ _ _ _ Ho)].
  destruct (wo_result _ _ _ _ _ Ho) as [Hin Hrest].
  assert (content (pw_target p) fs' = Some (pw_sealed p)) as Hc.
  { destruct Hin as (h & E & _). unfold content. by rewrite E. }
  io_step. io_step. apply read_regular_wp; [done|split; [exact (wo_sound _ _ _ _ _ Ho)|done]|intros e _; cbn; auto|].
  intros data Hp. cbn. case_bool_decide; io_step; [by split_and!|by auto].
Qed.
End save.

Section save_sync.
Context `{Sha256} `{VaultPrims} `{TempfileLaws}.

(** The states a crash may find during a save. *)
Definition save_log (w : VaultWriter) (fs f : FsState) : Prop :=
  let main := main_path (vw_store w) in
  f = fs \/ exists sealed, sound_at (content main fs) sealed main f /\
                           read_save_counter sealed = Ok (vw_committed_counter w + 1).

Definition save_outcome (w : VaultWriter) (v : Vault) (sections : list (Purpose * bytes)) (e : entropy) (fs : FsState)
    (r : res Empty_set (res VaultStoreError WriteReceipt * VaultWriter * entropy)) (fs' : FsState) : Prop :=
  let main := main_path (vw_store w) in
  let c := vw_committed_counter w in
  exists outcome w' e', r = Ok (outcome, w', e') /\
  match outcome with
  | Ok receipt =>
      is_healthy w = true /\ c < u64_max /\ exists sealed,
      seal_container v (c + 1) sections e = Ok (sealed, e') /\ read_save_counter sealed = Ok (c + 1) /\
      installed main sealed fs' /\ receipt = mkReceipt (c + 1) main (sha256 sealed) /\
      w' = mkWriter (vw_store w) (c + 1) (Some (sha256 sealed)) None true
  | Err _ =>
      (w' = w /\ fs' = fs) \/
      (is_healthy w = true /\ w' = set_unhealthy w /\
       (content main fs' = content main fs \/
        exists sealed, content main fs' = Some sealed /\ read_save_counter sealed = Ok (c + 1)))
  | Panic => False
  end.

Lemma save_sync_wp T `{Calm T} w v wallet journal activity e fs :
  (is_healthy w = true -> settled (main_path (vw_store w)) fs) ->
  validate_display_name (v_display_name v) = Ok tt ->
  wp T (save_log w fs) (save_sync w v wallet journal activity e)
    (save_outcome w v (save_sections wallet journal activity) e fs) fs.
Proof.
  intros Hs Hv. unfold save_sync. io_step.
  apply prepare_wp; [done|by left|done| |].
  { intros err _. io_step. exists (Err err), w, e. auto. }
  intros sealed e' c Hhealthy Hc Hseal. io_step.
  assert (vw_healthy w = true) as Hh by (unfold is_healthy in Hhealthy; by destruct (vw_healthy w)).
  set (p := mkPrepared _ _ _ _ _). set (w1 := set_pending _ w).
  eapply wp_log_mono; [eapply wp_mono; [apply (execute_wp T p fs (Hs Hhealthy))|]|]; cbn.
  - intros [receipt|err|] fs'; [|intros Hr|done].
    + intros (-> & Hin & Hcount). unfold consume. cbn. rewrite N.eqb_refl.
      rewrite !bool_decide_eq_true_2 by done. cbn. io_step.
      eexists (Ok _), _, e'. split; [done|]. split; [done|]. split; [done|]. exists sealed.
      split_and!; try done. unfold set_committed, set_pending. cbn. by rewrite Hh.
    + unfold consume. cbn. io_step. eexists (Err err), _, e'. split; [done|]. right.
      split; [done|]. split.
      * revert Hhealthy. clear. by destruct w as [? ? ? [] []].
      * destruct Hr as [|[]]; eauto.
  - intros f [Hf Hcount]. right. eauto.
Qed.


(** ** The contract of the store, and that saves implement it *)
Inductive SaveSpec := Open (n : N) (file : option bytes) | Closed (file : option bytes).

Definition spec_file (a : SaveSpec) : option bytes := match a with Open _ f | Closed f => f end.

(** A save is done and numbered, refused, given up, or given up when it may be on the disk;
    once given up nothing happens any more. *)
Inductive spec_step : SaveSpec -> option N -> SaveSpec -> Prop :=
| spec_saved n f d : n < u64_max -> read_save_counter d = Ok (n + 1) ->
    spec_step (Open n f) (Some (n + 1)) (Open (n + 1) (Some d))
| spec_refused n f : spec_step (Open n f) None (Open n f)
| spec_failed n f : spec_step (Open n f) None (Closed f)
| spec_uncertain n f d : read_save_counter d = Ok (n + 1) -> spec_step (Open n f) None (Closed (Some d))
| spec_silent f : spec_step (Closed f) None (Closed f).

Inductive spec_run : SaveSpec -> list (option N) -> SaveSpec -> Prop :=
| spec_nil a : spec_run a [] a
| spec_cons a l a' ls a'' : spec_step a l a' -> spec_run a' ls a'' -> spec_run a (l :: ls) a''.

Definition abstract (w : VaultWriter) (fs : FsState) : SaveSpec :=
  let file := content (main_path (vw_store w)) fs in
  if is_healthy w then Open (vw_committed_counter w) file else Closed file.

(** Saves one after the other; what is told of each is its number. *)
Fixpoint save_run (w : VaultWriter) (v : Vault) (saves : list (bytes * bytes * option bytes)) (e : entropy)
  : IO Empty_set (list (option N) * VaultWriter) :=
  match saves with
  | [] => io_ret (Ok ([], w))
  | (wallet, journal, activity) :: saves' =>
      let! (outcome, w, e) := save_sync w v wallet journal activity e in
      let! (numbers, w) := save_run w v saves' e in
      io_ret (Ok ((match outcome with Ok r => Some (wr_counter r) | _ => None end) :: numbers, w))
  end.

Lemma installed_settled p d fs : installed p d fs -> settled p fs.
Proof.
  intros (h & [En Ei]%entry_Some & Hd & _). split; [by rewrite Hd, En|].
  intros i Hi. rewrite En in Hi. injection Hi as <-. by exists (staged_inode d).
Qed.

Lemma installed_content p d fs : installed p d fs -> content p fs = Some d.
Proof. intros (h & E & _). unfold content. by rewrite E. Qed.

Lemma save_step_spec w v sections e fs outcome w' e' fs' :
  save_outcome w v sections e fs (Ok (outcome, w', e')) fs' ->
  (is_healthy w = true -> settled (main_path (vw_store w)) fs) ->
  spec_step (abstract w fs) (match outcome with Ok r => Some (wr_counter r) | _ => None end) (abstract w' fs') /\
  vw_store w' = vw_store w /\ (is_healthy w' = true -> settled (main_path (vw_store w')) fs').
Proof.
  intros (o & w1 & e1 & [= <- <- <-] & Ho) Hs. unfold abstract. destruct outcome as [receipt|err|]; [| |done].
  - destruct Ho as (Hh & Hc & sealed & _ & Hcount & Hin & -> & ->). cbn. rewrite Hh.
    rewrite (installed_content _ _ _ Hin). split; [by constructor|]. split; [done|].
    intros _. by eapply installed_settled.
  - destruct Ho as [[-> ->]|(Hh & -> & Hcont)].
    + split; [|done]. destruct (is_healthy w); [apply spec_refused|apply spec_silent].
    + rewrite Hh. cbn. split; [|by split]. destruct Hcont as [-> | (d & -> & Hd)]; by constructor.
Qed.

(** C23: any run of saves, under any failures, does what the abstract store allows: the
    numbers of the saves that succeed are consecutive, the file is always that of the last
    one or of the one being made, and after a failed write no save is made. *)
Theorem save_run_refines (w : VaultWriter) (v : Vault) (saves : list (bytes * bytes * option bytes)) (e : entropy)
    (fs : FsState) (Hs : settled (main_path (vw_store w)) fs) (Hv : validate_display_name (v_display_name v) = Ok tt) :
  wp calm (fun _ => True) (save_run w v saves e)
    (fun r fs' => exists numbers w', r = Ok (numbers, w') /\ spec_run (abstract w fs) numbers (abstract w' fs')) fs.
Proof.
  assert (is_healthy w = true -> settled (main_path (vw_store w)) fs) as Hs' by done. clear Hs.
  revert w e fs Hs'. induction saves as [|[[wallet journal] activity] saves IH]; intros w e fs Hs; cbn [save_run].
  { io_step. exists [], w. split; [done|constructor]. }
  io_step. eapply wp_log_mono; [eapply wp_mono; [by apply save_sync_wp; [apply _|..]|]|done].
  intros r fs1 Ho. pose proof Ho as (outcome & w1 & e1 & -> & _).
  apply save_step_spec in Ho as (Hstep & Hst & Hs1); [|done].
  io_step. eapply wp_mono; [apply (IH w1 e1 fs1 Hs1)|].
  intros r fs2 (numbers & w2 & -> & Hrun). io_step. eexists _, w2. split; [done|]. by econstructor.
Qed.
End save_sync.

(** An empty directory, and a writer for a new wallet in it. *)
Definition empty_disk : FsState := mkFs {[bs "w"]} ∅ ∅ ∅.
Definition demo_writer : VaultWriter := mkWriter (mkStore (bs "w") (bs "bob")) 0 None None true.

Lemma empty_disk_settled p : settled p empty_disk.
Proof. by split. Qed.


Lemma save_run_refines_witness :
  settled (main_path (vw_store demo_writer)) empty_disk /\
  wp calm (fun _ => True)
    (@save_run toy_sha256 toy_prims toy_tempfile demo_writer demo_vault
       [([Byte.x01], [Byte.x02], None); ([Byte.x03], [Byte.x04], Some [Byte.x05])] demo_entropy)
    (fun r fs' => exists numbers w', r = Ok (numbers, w') /\
       spec_run (abstract demo_writer empty_disk) numbers (abstract w' fs')) empty_disk.
Proof.
  split; [exact (empty_disk_settled _)|].
  refine (@save_run_refines toy_sha256 toy_prims toy_tempfile toy_tempfile_laws demo_writer demo_vault
    _ demo_entropy empty_disk (empty_disk_settled _) _).
  vm_compute. reflexivity.
Defined.
