(* ===== verification/Destroy.v ===== *)
(** * Destroying wallet files (crates/cc-wallet-storage/src/vault_store.rs, third part)

    An artifact is overwritten with zeros, synced, read back, and only then unlinked, all
    through one handle whose identity with the path is checked; symlinks are unlinked
    without touching what they lead to. *)

From Stdlib Require Import NArith Lia.
From stdpp Require Import gmap.
From S2P Require Import Prelude Ord Bytes Text Decimal VaultKeys Vault Fs Atomic Wallets.

Inductive DestroyArtifactKind := MainFile | Temporary | QuarantineOrphan.

#[export] Instance DestroyArtifactKind_eq_dec : EqDecision DestroyArtifactKind.
Proof. solve_decision. Defined.

Inductive OverwriteOutcome :=
| Completed (count : N)
| SkippedSymlink
| Incomplete (count : N)
| UnsupportedFileType.

Record DestroyArtifactOutcome := mkOutcome {
  ao_path : PathBuf;
  ao_kind : DestroyArtifactKind;
  ao_overwrite : OverwriteOutcome;
  ao_unlinked : bool;
  ao_directory_synced : bool
}.

Record DestroyReport := mkReport {
  dr_artifacts : list DestroyArtifactOutcome;
  dr_residues : list PathBuf;
  dr_active_lock : option PathBuf
}.

Record DestroyError := mkDestroyError {
  de_operation : string;
  de_path : PathBuf;
  de_source : io_Error;
  de_report : DestroyReport;
  de_residue_scan_error : option bytes
}.

Fixpoint join_paths (l : list PathBuf) : bytes :=
  match l with
  | [] => []
  | [p] => display p
  | p :: l' => display p ++ bs ", " ++ join_paths l'
  end.

Definition DestroyError_display (e : DestroyError) : bytes :=
  bs (de_operation e) ++ bs " " ++ display (de_path e) ++ bs " failed: " ++ io_text (de_source e)
  ++ (match dr_residues (de_report e) with
      | [] => bs "; no ciphertext residue was visible after the failure"
      | residues => bs "; ciphertext residues: " ++ join_paths residues
      end)
  ++ (match de_residue_scan_error e with
      | Some scan => bs "; residue scan also failed: " ++ scan
      | None => []
      end).

(** [File::open(parent)?.sync_all()]. *)
Definition sync_parent (p : PathBuf) : IO io_Error unit :=
  let! _ := open_directory (p_dir p) in sync_directory_handle (p_dir p).

(** An error of [destroy_artifact]: what was being done, why it failed, how far it got. *)
Definition DestroyArtifactError : Type := string * io_Error * DestroyArtifactOutcome.

Definition during {A} (operation : string) (outcome : DestroyArtifactOutcome) (m : IO io_Error A)
  : IO DestroyArtifactError A := io_map_err (fun e => (operation, e, outcome)) m.

Definition ZEROS : N := 4096.

(** The overwriting loop; [fuel] bounds its rounds. *)
Fixpoint overwrite_zeros (fuel : nat) (file len written : N) (at_error : N -> DestroyArtifactOutcome)
  : IO DestroyArtifactError N :=
  if written <? len then
    match fuel with
    | O => io_ret Panic
    | S fuel' =>
        let chunk := N.min (len - written) ZEROS in
        let! _ := during "overwriting wallet artifact at" (at_error written)
                    (write_all_at file written (repeat Byte.x00 (N.to_nat chunk))) in
        overwrite_zeros fuel' file len (written + chunk) at_error
    end
  else io_ret (Ok written).

(** The verifying loop. *)
Fixpoint verify_zeros (fuel : nat) (file len remaining : N) (incomplete : DestroyArtifactOutcome)
  : IO DestroyArtifactError unit :=
  if 0 <? remaining then
    match fuel with
    | O => io_ret Panic
    | S fuel' =>
        let chunk := N.min remaining ZEROS in
        let! got := during "verifying overwritten wallet artifact at" incomplete
                      (read_exact_at file (len - remaining) chunk) in
        check! forallb (fun b => u8 b =? 0) got
          else ("verifying overwritten wallet artifact at",
                io_other (bs "overwrite readback was not all zero"), incomplete) ;;
        verify_zeros fuel' file len (remaining - chunk) incomplete
    end
  else io_ret (Ok tt).

(** Rounds enough for a file of [len] bytes. *)
Definition rounds (len : N) : nat := S (N.to_nat (len / ZEROS)).

(** The symlink branch. *)
Definition destroy_symlink (p : PathBuf) (kind : DestroyArtifactKind) (initial : Metadata)
  : IO DestroyArtifactError DestroyArtifactOutcome :=
  let outcome := mkOutcome p kind SkippedSymlink false false in
  let! current := during "rechecking wallet symlink at" outcome (symlink_metadata p) in
  check! is_symlink current && same_identity initial current
    else ("validating wallet symlink identity at",
          io_other (bs "artifact changed during destruction"), outcome) ;;
  let! _ := during "unlinking wallet symlink at" outcome (remove_file p) in
  let outcome := mkOutcome p kind SkippedSymlink true false in
  let! _ := during "syncing wallet directory after unlink at" outcome (sync_parent p) in
  io_ret (Ok (mkOutcome p kind SkippedSymlink true true)).

Definition destroy_artifact (p : PathBuf) (kind : DestroyArtifactKind)
  : IO DestroyArtifactError DestroyArtifactOutcome :=
  let untouched := mkOutcome p kind (Incomplete 0) false false in
  let! initial := during "reading wallet artifact metadata at" untouched (symlink_metadata p) in
  if is_symlink initial then destroy_symlink p kind initial else
  check! negb (negb (is_file initial) || has_multiple_links initial)
    else ("refusing non-regular or hard-linked wallet artifact at",
          io_other (bs "artifact is not a singly-linked regular file"),
          mkOutcome p kind UnsupportedFileType false false) ;;
  let! file := during "opening wallet artifact without following links at" untouched (open_nofollow true p) in
  let! opened := during "reading opened wallet artifact metadata at" untouched (file_metadata file) in
  check! same_identity initial opened
    else ("validating opened wallet artifact identity at",
          io_other (bs "artifact changed before no-follow open"), untouched) ;;
  let len := m_len opened in
  let! written := overwrite_zeros (rounds len) file len 0
                    (fun n => mkOutcome p kind (Incomplete n) false false) in
  let incomplete := mkOutcome p kind (Incomplete written) false false in
  let! _ := during "syncing overwritten wallet artifact at" incomplete (sync_all file) in
  let! _ := during "seeking overwritten wallet artifact at" incomplete (query (fun _ => Ok tt)) in
  let! _ := verify_zeros (rounds len) file len len incomplete in
  let! current := during "rechecking overwritten wallet artifact at" incomplete (symlink_metadata p) in
  check! same_identity opened current
    else ("validating overwritten wallet artifact identity at",
          io_other (bs "artifact changed before unlink"), incomplete) ;;
  let outcome := mkOutcome p kind (Completed len) false false in
  let! _ := during "unlinking overwritten wallet artifact at" outcome (remove_file p) in
  let outcome := mkOutcome p kind (Completed len) true false in
  let! _ := during "syncing wallet directory after unlink at" outcome (sync_parent p) in
  io_ret (Ok (mkOutcome p kind (Completed len) true true)).

(** ** [VaultStore::destroy] *)
#[export] Instance PathBuf_ord : Ord PathBuf := ord_by (fun p => (p_dir p, p_file p)).

#[export] Instance PathBuf_ord_laws : OrdLaws PathBuf.
Proof. apply ord_by_laws. by intros [] [] [= -> ->]. Qed.

(** [dedup_by] on the path: the first of equal neighbours stays. *)
Fixpoint dedup_paths (l : list (PathBuf * DestroyArtifactKind)) : list (PathBuf * DestroyArtifactKind) :=
  match l with
  | x :: l' =>
      x :: match dedup_paths l' with
           | y :: r => if decide (fst x = fst y) then r else y :: r
           | [] => []
           end
  | [] => []
  end.

Definition LOCK_FILE : bytes := bs ".ccwallet.lock".

Definition visible_lock (d : bytes) : IO io_Error (option PathBuf) :=
  let p := mkPath d LOCK_FILE in
  match! symlink_metadata p with r =>
  match r with
  | Ok _ => io_ret (Ok (Some p))
  | Err e => if bool_decide (io_kind e = NotFound) then io_ret (Ok None) else io_ret (Err e)
  | Panic => io_ret Panic
  end.

Definition destroy_candidates (s : VaultStore) : IO io_Error (list (PathBuf * DestroyArtifactKind)) :=
  let main := main_path s in
  let! mains := match! symlink_metadata main with r =>
                match r with
                | Ok _ => io_ret (Ok [(main, MainFile)])
                | Err e => if bool_decide (io_kind e = NotFound) then io_ret (Ok []) else io_ret (Err e)
                | Panic => io_ret Panic
                end in
  let! temps := try_list_temps main in
  let! orphans := try_list_orphans main in
  io_ret (Ok (dedup_paths (sort_by_key fst
    (mains ++ ((fun p => (p, Temporary)) <$> temps) ++ ((fun p => (p, QuarantineOrphan)) <$> orphans))))).

Definition visible_ciphertext (s : VaultStore) : IO io_Error (list PathBuf) :=
  let! candidates := destroy_candidates s in io_ret (Ok (fst <$> candidates)).

(** The report of a failure names what is still there, as far as that can be told. *)
Definition destroy_error (s : VaultStore) (operation : string) (p : PathBuf) (source : io_Error)
    (artifacts : list DestroyArtifactOutcome) (active_lock : option PathBuf) : IO Empty_set DestroyError :=
  match! visible_ciphertext s with r =>
  match r with
  | Ok residues => io_ret (Ok (mkDestroyError operation p source (mkReport artifacts residues active_lock) None))
  | Err error =>
      match! destroy_candidates s with known =>
      let known := match known with Ok l => fst <$> l | _ => [] end in
      io_ret (Ok (mkDestroyError operation p source (mkReport artifacts known active_lock) (Some (io_text error))))
  | Panic => io_ret Panic
  end.

(** Ends with the error a failure is reported by. *)
Definition fail_with {A} (m : IO Empty_set DestroyError) : IO DestroyError A :=
  match! m with r => io_ret (match r with Ok e => Err e | _ => Panic end).

Fixpoint destroy_all (s : VaultStore) (l : list (PathBuf * DestroyArtifactKind))
    (artifacts : list DestroyArtifactOutcome) (active_lock : option PathBuf)
  : IO DestroyError (list DestroyArtifactOutcome) :=
  match l with
  | [] => io_ret (Ok artifacts)
  | (p, kind) :: l' =>
      match! destroy_artifact p kind with r =>
      match r with
      | Ok outcome => destroy_all s l' (artifacts ++ [outcome]) active_lock
      | Err (operation, source, outcome) =>
          fail_with (destroy_error s operation p source (artifacts ++ [outcome]) active_lock)
      | Panic => io_ret Panic
      end
  end.

Definition destroy (s : VaultStore) : IO DestroyError DestroyReport :=
  let main := main_path s in
  match validate_wallet_name (st_name s) with
  | Err error =>
      io_ret (Err (mkDestroyError "validating the wallet name for" (mkPath (st_dir s) [])
        (mkIo InvalidInput (VaultStoreError_display error)) (mkReport [] [main] None) None))
  | Panic => io_ret Panic
  | Ok _ =>
      let! active_lock := io_map_err (fun source =>
          mkDestroyError "enumerating directory lock at" (mkPath (st_dir s) LOCK_FILE) source
            (mkReport [] [main] None) None) (visible_lock (st_dir s)) in
      let! candidates := io_map_err (fun source =>
          mkDestroyError "enumerating wallet ciphertext at" main source
            (mkReport [] [main] active_lock) None) (destroy_candidates s) in
      let! artifacts := destroy_all s candidates [] active_lock in
      match! visible_ciphertext s with r =>
      match r with
      | Err source =>
          fail_with (destroy_error s "verifying wallet ciphertext removal at" main source artifacts active_lock)
      | Panic => io_ret Panic
      | Ok residues =>
          let report := mkReport artifacts residues active_lock in
          if bool_decide (residues = []) then io_ret (Ok report) else
          io_ret (Err (mkDestroyError "verifying wallet ciphertext removal at" main
            (io_other (bs "one or more encrypted wallet artifacts remain")) report None))
      end
  end.

(** ** [shred_foreign_keyslot_residue] *)

(** [Path::extension]. *)
Definition extension (p : PathBuf) : option bytes :=
  match split_once Byte.x2e (rev (p_file p)) with
  | Some (ext, stem) => if bool_decide (stem = []) then None else Some (rev ext)
  | None => None
  end.

Definition residue_kind (p : PathBuf) : DestroyArtifactKind :=
  if bool_decide (extension p = Some (bs "orphan")) then QuarantineOrphan else Temporary.

Fixpoint shred_all (main_keyslot : bytes) (l shredded : list PathBuf) : IO VaultStoreError (list PathBuf) :=
  match l with
  | [] => io_ret (Ok shredded)
  | p :: l' =>
      match! read_prefix_nofollow p MAX_HEADER_PROBE_LEN with r =>
      match r with
      | Err e => if bool_decide (io_kind e = NotFound) then shred_all main_keyslot l' shredded
                 else io_ret (Err (StoreIo e))
      | Panic => io_ret Panic
      | Ok (prefix, _) =>
          if bool_decide (container_declared_len prefix = None) then shred_all main_keyslot l' shredded else
          match keyslot_prefix prefix with
          | Some candidate =>
              if bool_decide (candidate = main_keyslot) then shred_all main_keyslot l' shredded else
              match! destroy_artifact p (residue_kind p) with r =>
              match r with
              | Ok _ => shred_all main_keyslot l' (shredded ++ [p])
              | Err (operation, source, _) => io_ret (Err (StoreIo (io_at_path operation p source)))
              | Panic => io_ret Panic
              end
          | None => shred_all main_keyslot l' shredded
          end
      end
  end.

Definition shred_foreign_keyslot_residue (s : VaultStore) : IO VaultStoreError (list PathBuf) :=
  let! _ := io_ret (validate_wallet_name (st_name s)) in
  let main := main_path s in
  let! (main_prefix, _) := lift_io (read_prefix_nofollow main MAX_HEADER_PROBE_LEN) in
  let! main_keyslot := io_ret (ok_or (keyslot_prefix main_prefix)
    (WriterState (bs "current wallet keyslot is unreadable; refusing to scope residue shredding"))) in
  let! survivors := lift_io (list_survivors main) in
  shred_all main_keyslot survivors [].

(** ** Overwriting *)

(** Only the inode [i] differs, and it keeps its kind and its links. *)
Record only_data (i : N) (fs fs' : FsState) : Prop := {
  od_dirs : dirs fs' = dirs fs;
  od_names : names fs' = names fs;
  od_durable : durable fs' = durable fs;
  od_others : forall j, j <> i -> inodes fs' !! j = inodes fs !! j;
  od_inode : forall ino, inodes fs !! i = Some ino -> exists ino', inodes fs' !! i = Some ino' /\
    i_kind ino' = i_kind ino /\ i_nlink ino' = i_nlink ino
}.

Lemma only_data_refl i fs : only_data i fs fs.
Proof. split; eauto. Qed.

Lemma only_data_set i fs f ino ino' :
  only_data i fs f -> inodes f !! i = Some ino -> i_kind ino' = i_kind ino -> i_nlink ino' = i_nlink ino ->
  only_data i fs (set_inode i ino' f).
Proof.
  intros [Hd Hn Hu Ho Hi] Ei Hk Hl. split; cbn; try done.
  - intros j Hj. rewrite lookup_insert_ne by done. by apply Ho.
  - intros x Hx. destruct (Hi x Hx) as (y & Hy & Hky & Hly). rewrite Ei in Hy. injection Hy as <-.
    exists ino'. rewrite lookup_insert_eq. split; [done|]. by rewrite Hk, Hl.
Qed.

Definition zeros (n : N) : bytes := repeat Byte.x00 (N.to_nat n).

Lemma drop_repeat {A} (x : A) n k : drop n (repeat x k) = repeat x (k - n).
Proof. revert k. induction n; intros [|k]; cbn; auto. Qed.

Lemma take_repeat {A} (x : A) n k : take n (repeat x k) = repeat x (Nat.min n k).
Proof. revert k. induction n; intros [|k]; cbn; try done. by f_equal. Qed.

Lemma overwrite_prefix (a b : nat) old :
  (a + b <= length old)%nat ->
  overwrite_at a (repeat Byte.x00 b) (repeat Byte.x00 a ++ drop a old) = repeat Byte.x00 (a + b) ++ drop (a + b) old.
Proof.
  intros Hle. unfold overwrite_at.
  replace (a - length (repeat Byte.x00 a ++ drop a old))%nat with 0%nat
    by (rewrite length_app, repeat_length; lia).
  cbn [repeat]. rewrite app_nil_r, repeat_length.
  rewrite take_app_le, take_ge by (rewrite repeat_length; lia).
  rewrite drop_app_ge, repeat_length, drop_drop by (rewrite repeat_length; lia).
  rewrite repeat_app, <- app_assoc. do 3 f_equal. lia.
Qed.

Section overwriting.
Context (T : Tick -> Prop) `{Calm T} (I : FsState -> Prop) (i : N) (ino0 : Inode) (fs : FsState).
Context (Hino : inodes fs !! i = Some ino0) (HI : forall f, only_data i fs f -> I f).

(** The file with its first [n] bytes overwritten. *)
Definition zeroed (n : N) (f : FsState) : Prop :=
  only_data i fs f /\ exists ino, inodes f !! i = Some ino /\ i_kind ino = i_kind ino0 /\ i_nlink ino = i_nlink ino0 /\
    i_data ino = zeros n ++ drop (N.to_nat n) (i_data ino0).

Lemma overwrite_zeros_wp at_error (Q : res DestroyArtifactError N -> FsState -> Prop) :
  let len := N.of_nat (length (i_data ino0)) in
  (forall n e f, only_data i fs f -> Q (Err ("overwriting wallet artifact at", e, at_error n)) f) ->
  (forall f, zeroed len f -> Q (Ok len) f) ->
  forall fuel written f, (N.to_nat (len - written) <= fuel * N.to_nat ZEROS)%nat -> written <= len -> zeroed written f ->
  wp T I (overwrite_zeros fuel i len written at_error) Q f.
Proof.
  intros len He Hok. induction fuel as [|fuel IH]; intros written f Hfuel Hle Hz; cbn [overwrite_zeros];
    destruct (N.ltb_spec written len) as [Hlt|Hge]; try (io_step; assert (written = len) as -> by lia; by apply Hok).
  { exfalso. lia. }
  destruct Hz as [Hod (ino & Ei & Hk & Hl & Hd)].
  set (chunk := N.min (len - written) ZEROS). io_step. unfold during. io_step.
  apply calm_syscall; [done| |].
  - intros e _ t. unfold on_inode. rewrite Ei. cbn [snd fst].
    assert (only_data i fs (set_inode i (set_data (overwrite_at (N.to_nat written)
      (take (t_short t) (repeat Byte.x00 (N.to_nat chunk))) (i_data ino)) ino) f)) as Hod'
      by (by eapply only_data_set). split; [by apply HI|by apply He].
  - intros t. unfold on_inode. rewrite Ei. cbn [snd fst map_err].
    assert (zeroed (written + chunk) (set_inode i (set_data (overwrite_at (N.to_nat written)
      (repeat Byte.x00 (N.to_nat chunk)) (i_data ino)) ino) f)) as Hz'.
    { split; [by eapply only_data_set|]. eexists. cbn. rewrite lookup_insert_eq. split; [done|].
      cbn. split; [done|]. split; [done|]. rewrite Hd. unfold zeros.
      rewrite overwrite_prefix by (subst chunk len; lia). by rewrite N2Nat.inj_add. }
    split; [by apply HI, Hz'|]. apply IH; [|subst chunk; lia|done].
    assert (chunk = len - written \/ chunk = ZEROS) as [->| ->] by (subst chunk; lia); lia.
Qed.

Lemma verify_zeros_wp incomplete (Q : res DestroyArtifactError unit -> FsState -> Prop) f :
  let len := N.of_nat (length (i_data ino0)) in
  zeroed len f -> (forall e, Q (Err ("verifying overwritten wallet artifact at", e, incomplete)) f) -> Q (Ok tt) f ->
  forall fuel remaining, (N.to_nat remaining <= fuel * N.to_nat ZEROS)%nat -> remaining <= len ->
  wp T I (verify_zeros fuel i len remaining incomplete) Q f.
Proof.
  intros len Hz He Hok. assert (I f) as HIf by (by apply HI, Hz).
  destruct Hz as [_ (ino & Ei & _ & _ & Hd)].
  assert (i_data ino = zeros len) as Hdata.
  { rewrite Hd. subst len. rewrite Nat2N.id, drop_all, app_nil_r. done. }
  induction fuel as [|fuel IH]; intros remaining Hfuel Hle; cbn [verify_zeros];
    destruct (N.ltb_spec 0 remaining) as [Hlt|Hge]; try (by io_step).
  { exfalso. lia. }
  set (chunk := N.min remaining ZEROS). io_step. unfold during. io_step. unfold read_exact_at.
  apply calm_query; [done|done|intros; by apply He|]. rewrite Ei, Hdata.
  assert (take (N.to_nat chunk) (drop (N.to_nat (len - remaining)) (zeros len)) = zeros chunk) as ->.
  { unfold zeros. rewrite drop_repeat, take_repeat. f_equal. subst chunk. lia. }
  unfold zeros. rewrite repeat_length, N2Nat.id, N.eqb_refl. cbn [map_err].
  assert (forallb (fun b => u8 b =? 0) (repeat Byte.x00 (N.to_nat chunk)) = true) as ->
    by (apply forallb_forall; intros b Hb; by apply repeat_spec in Hb as ->).
  apply IH; [|lia].
  assert (chunk = remaining \/ chunk = ZEROS) as [->| ->] by (subst chunk; lia); lia.
Qed.
End overwriting.

Lemma rounds_enough len : (N.to_nat len <= rounds len * N.to_nat ZEROS)%nat.
Proof.
  unfold rounds. pose proof (N.mul_succ_div_gt len ZEROS ltac:(done)) as Hgt.
  apply Nat.lt_le_incl. rewrite <- N2Nat.inj_succ, <- N2Nat.inj_mul. rewrite N.mul_comm in Hgt. lia.
Qed.

(** ** What destroying an artifact does *)

(** Names outside [l] stay, and so do the files none of [l] leads to. *)
Record frame (l : list PathBuf) (fs fs' : FsState) : Prop := {
  fr_dirs : dirs fs' = dirs fs;
  fr_names : forall q, q ∉ l -> names fs' !! q = names fs !! q;
  fr_gone : forall q, names fs' !! q = names fs !! q \/ names fs' !! q = None;
  fr_inodes : forall j, (forall p, p ∈ l -> names fs !! p <> Some j) -> inodes fs' !! j = inodes fs !! j;
  fr_alive : forall j, is_Some (inodes fs !! j) -> is_Some (inodes fs' !! j)
}.

Lemma frame_refl l fs : frame l fs fs.
Proof. split; auto. Qed.

Lemma frame_trans l fs1 fs2 fs3 : frame l fs1 fs2 -> frame l fs2 fs3 -> frame l fs1 fs3.
Proof.
  intros [d1 n1 g1 i1 a1] [d2 n2 g2 i2 a2]. split; [| | | |by auto].
  - congruence.
  - intros q Hq. by rewrite n2, n1.
  - intros q. destruct (g2 q) as [-> | ->]; auto.
  - intros j Hj. rewrite i2; [by apply i1|]. intros p Hp. destruct (g1 p) as [-> | ->]; auto.
Qed.

Lemma frame_weaken l l' fs fs' : (forall q, q ∈ l -> q ∈ l') -> frame l fs fs' -> frame l' fs fs'.
Proof. intros Hl [d n g i a]. split; auto. Qed.

Lemma frame_flush l d fs fs' : frame l fs fs' -> frame l fs (flush_dir d fs').
Proof. by intros []. Qed.

Lemma only_data_frame p i fs f : names fs !! p = Some i -> only_data i fs f -> frame [p] fs f.
Proof.
  intros Hp [Hd Hn Hu Ho Hi]. split; [done|by rewrite Hn|rewrite Hn; auto| |].
  - intros j Hj. apply Ho. intros ->. by apply (Hj p); [apply list_elem_of_singleton|].
  - intros j [x Hx]. destruct (decide (j = i)) as [->|Hj]; [|rewrite (Ho j Hj); eauto].
    destruct (Hi x Hx) as (y & -> & _). eauto.
Qed.

Lemma frame_unlink p i ino fs f :
  names fs !! p = Some i -> frame [p] fs f -> entry p f = Some (i, ino) -> frame [p] fs (unlink p f).
Proof.
  intros Hp Hf E. rewrite (unlink_eq _ _ _ _ E). eapply frame_trans; [exact Hf|]. split; cbn.
  - done.
  - intros q Hq. rewrite lookup_delete_ne; [done|]. intros ->. by apply Hq, list_elem_of_singleton.
  - intros q. rewrite lookup_delete. case_decide; auto.
  - intros j Hj. rewrite lookup_insert_ne; [done|]. intros ->. apply entry_Some in E as [En _].
    by apply (Hj p); [apply list_elem_of_singleton|].
  - intros j Hj. rewrite lookup_insert. case_decide; eauto.
Qed.

Lemma unlinked_gone p f i ino :
  entry p f = Some (i, ino) ->
  names (unlink p f) !! p = None /\ inodes (unlink p f) !! i = Some (set_nlink (i_nlink ino - 1) ino).
Proof.
  intros E. rewrite (unlink_eq _ _ _ _ E). cbn. by rewrite lookup_delete_eq, lookup_insert_eq.
Qed.

Lemma durable_gone p f : names f !! p = None -> durable (flush_dir (p_dir p) f) !! p = None.
Proof.
  intros Hn. cbn. apply lookup_union_None. split; apply map_lookup_filter_None_2.
  - by left.
  - right. intros ? _. cbn. naive_solver.
Qed.

(** How a file that was destroyed was destroyed. *)
Definition overwritten (p : PathBuf) (ow : OverwriteOutcome) (fs fs' : FsState) : Prop :=
  exists i ino, entry p fs = Some (i, ino) /\
  ((exists target, i_kind ino = Symlink target /\ ow = SkippedSymlink) \/
   (i_kind ino = Regular /\ i_nlink ino = 1 /\ ow = Completed (N.of_nat (length (i_data ino))) /\
    exists ino', inodes fs' !! i = Some ino' /\ i_data ino' = zeros (N.of_nat (length (i_data ino))) /\ i_synced ino' = true)).

Definition artifact_post (p : PathBuf) (kind : DestroyArtifactKind) (fs : FsState)
    (r : res DestroyArtifactError DestroyArtifactOutcome) (fs' : FsState) : Prop :=
  frame [p] fs fs' /\
  match r with
  | Ok o => (exists ow, o = mkOutcome p kind ow true true /\ overwritten p ow fs fs') /\
            names fs' !! p = None /\ durable fs' !! p = None
  | Err (_, _, o) => ao_path o = p /\ names fs' !! p = if ao_unlinked o then None else names fs !! p
  | Panic => False
  end.

Section artifact.
Context (T : Tick -> Prop) `{Calm T}.

(** The last two steps of either branch. *)
Lemma unlink_and_sync_wp I p kind ow what fs f i ino :
  names fs !! p = Some i -> (forall f', frame [p] fs f' -> I f') -> frame [p] fs f ->
  entry p f = Some (i, ino) -> i_kind ino <> Directory ->
  (forall f', inodes f' !! i = Some (set_nlink (i_nlink ino - 1) ino) -> overwritten p ow fs f') ->
  wp T I (let! _ := during what (mkOutcome p kind ow false false) (remove_file p) in
          let! _ := during "syncing wallet directory after unlink at" (mkOutcome p kind ow true false) (sync_parent p) in
          io_ret (Ok (mkOutcome p kind ow true true))) (artifact_post p kind fs) f.
Proof.
  intros Hp HI Hf E Hk How. destruct (unlinked_gone _ _ _ _ E) as [Hgone Hinode].
  pose proof (frame_unlink _ _ _ _ _ Hp Hf E) as Hf'. pose proof E as [En _]%entry_Some.
  io_step. unfold during. io_step. unfold remove_file.
  apply calm_update; [done|by apply HI| | |]; cbv beta; rewrite ?E, ?(bool_decide_eq_false_2 _ Hk); cbn [fst snd map_err].
  - intros e _. split; [done|]. cbn. split; [done|]. by rewrite En, Hp.
  - by apply HI.
  - io_step. io_step.
    change (sync_parent p) with (sync_directory (p_dir p)).
    apply sync_directory_wp; [done|by apply HI|by apply HI, frame_flush| |].
    + intros _. cbn [map_err]. io_step. split; [by apply frame_flush|]. split; [|by split; [|by apply durable_gone]].
      exists ow. split; [done|]. by apply How.
    + intros e _. cbn. split; [done|]. by split.
Qed.

(** The regular branch, from the open on. *)
Lemma destroy_regular_wp I p kind fs i ino :
  (forall f, frame [p] fs f -> I f) -> entry p fs = Some (i, ino) -> i_kind ino = Regular -> i_nlink ino = 1 ->
  wp T I
    (let untouched := mkOutcome p kind (Incomplete 0) false false in
     let! file := during "opening wallet artifact without following links at" untouched (open_nofollow true p) in
     let! opened := during "reading opened wallet artifact metadata at" untouched (file_metadata file) in
     check! same_identity (mkMeta i ino) opened
       else ("validating opened wallet artifact identity at",
             io_other (bs "artifact changed before no-follow open"), untouched) ;;
     let len := m_len opened in
     let! written := overwrite_zeros (rounds len) file len 0 (fun n => mkOutcome p kind (Incomplete n) false false) in
     let incomplete := mkOutcome p kind (Incomplete written) false false in
     let! _ := during "syncing overwritten wallet artifact at" incomplete (sync_all file) in
     let! _ := during "seeking overwritten wallet artifact at" incomplete (query (fun _ => Ok tt)) in
     let! _ := verify_zeros (rounds len) file len len incomplete in
     let! current := during "rechecking overwritten wallet artifact at" incomplete (symlink_metadata p) in
     check! same_identity opened current
       else ("validating overwritten wallet artifact identity at",
             io_other (bs "artifact changed before unlink"), incomplete) ;;
     let! _ := during "unlinking overwritten wallet artifact at" (mkOutcome p kind (Completed len) false false) (remove_file p) in
     let! _ := during "syncing wallet directory after unlink at" (mkOutcome p kind (Completed len) true false) (sync_parent p) in
     io_ret (Ok (mkOutcome p kind (Completed len) true true))) (artifact_post p kind fs) fs.
Proof.
  intros HI E Hreg Hl. pose proof E as [En Ei]%entry_Some.
  assert (forall what e o f, ao_path o = p -> ao_unlinked o = false -> only_data i fs f ->
    artifact_post p kind fs (Err (what, e, o)) f) as Herr.
  { intros what e o f Hp Ho Hod. split; [by eapply only_data_frame|]. split; [done|].
    by rewrite Ho, (od_names _ _ _ Hod). }
  pose proof (only_data_refl i fs) as Hrefl.
  assert (forall f, only_data i fs f -> I f) as HI' by (intros f Hod; apply HI; by eapply only_data_frame).
  cbv zeta. io_step. unfold during at 1. io_step. unfold open_nofollow.
  apply calm_query; [done|by apply HI'|by intros; apply Herr|]. rewrite E, Hreg. cbn [map_err].
  io_step. unfold during at 1. io_step. unfold file_metadata, at_handle.
  apply calm_query; [done|by apply HI'|by intros; apply Herr|]. rewrite Ei. cbn [map_err].
  unfold same_identity at 1. cbn [m_ino]. rewrite N.eqb_refl. unfold m_len. cbn [m_inode].
  set (len := N.of_nat (length (i_data ino))). io_step.
  apply (overwrite_zeros_wp T I i ino fs HI').
  { intros n e f Hod. by apply Herr. }
  2:{ rewrite N.sub_0_r. apply rounds_enough. }
  2:{ apply N.le_0_l. }
  2:{ split; [done|]. exists ino. by rewrite drop_0. }
  intros f Hz. io_step. unfold during at 1. io_step. unfold sync_all.
  pose proof Hz as [Hod (ino1 & Ei1 & Hk1 & Hl1 & Hd1)].
  assert (only_data i fs (set_inode i (set_synced ino1) f)) as Hod2 by (by eapply only_data_set).
  assert (zeroed i ino fs len (set_inode i (set_synced ino1) f)) as Hz2.
  { split; [done|]. exists (set_synced ino1). cbn. by rewrite lookup_insert_eq. }
  apply calm_update; [done|by apply HI'|by intros; apply Herr| |]; unfold on_inode; rewrite Ei1; cbn [fst snd map_err];
    [by apply HI'|].
  set (f2 := set_inode i (set_synced ino1) f) in *.
  io_step. unfold during at 1. io_step. apply calm_query; [done|by apply HI'|by intros; apply Herr|]. cbn [map_err].
  io_step. apply (verify_zeros_wp T I i ino fs HI'); [exact Hz2|by intros; apply Herr| |apply rounds_enough|done].
  assert (entry p f2 = Some (i, set_synced ino1)) as E2.
  { apply entry_Some. split; [by rewrite (od_names _ _ _ Hod2)|]. cbn. by rewrite lookup_insert_eq. }
  io_step. unfold during at 1. io_step. unfold symlink_metadata.
  apply calm_query; [done|by apply HI'|by intros; apply Herr|]. rewrite E2. cbn [map_err].
  unfold same_identity. cbn [m_ino]. rewrite N.eqb_refl.
  eapply unlink_and_sync_wp; [done|done|by eapply only_data_frame|exact E2|cbn; by rewrite Hk1, Hreg|].
  intros f' Hf'. exists i, ino. split; [done|]. right. split; [done|]. split; [done|]. split; [done|].
  eexists. split; [exact Hf'|]. split; [|done]. cbn. rewrite Hd1.
  unfold len. by rewrite Nat2N.id, drop_all, app_nil_r.
Qed.

Lemma destroy_artifact_wp I p kind fs :
  (forall f, frame [p] fs f -> I f) -> wp T I (destroy_artifact p kind) (artifact_post p kind fs) fs.
Proof.
  intros HI. pose proof (frame_refl [p] fs) as Hrefl.
  assert (forall what e o, ao_path o = p -> ao_unlinked o = false ->
    artifact_post p kind fs (Err (what, e, o)) fs) as Herr.
  { intros what e o Hp Ho. split; [done|]. split; [done|]. by rewrite Ho. }
  unfold destroy_artifact. io_step. unfold during at 1. io_step. unfold symlink_metadata at 1.
  apply calm_query; [done|by apply HI|by intros; apply Herr|].
  destruct (entry p fs) as [[i ino]|] eqn:E; cbn [map_err]; [|by apply Herr].
  pose proof E as [En Ei]%entry_Some. unfold is_symlink at 1, is_file at 1, has_multiple_links at 1. cbn [m_inode].
  assert ((exists target, i_kind ino = Symlink target) \/ forall target, i_kind ino <> Symlink target) as [[target Hk]|Hk]
    by (destruct (i_kind ino); eauto).
  - rewrite Hk. unfold destroy_symlink. io_step. unfold during at 1. io_step. unfold symlink_metadata.
    apply calm_query; [done|by apply HI|by intros; apply Herr|]. rewrite E. cbn [map_err].
    unfold is_symlink, same_identity. cbn [m_inode m_ino]. rewrite Hk, N.eqb_refl. cbn [andb].
    eapply unlink_and_sync_wp; [done|done|done|done|by rewrite Hk|].
    intros f' _. exists i, ino. split; [done|]. left. eauto.
  - replace (match i_kind ino with Symlink _ => true | _ => false end) with false
      by (destruct (i_kind ino); try done; by edestruct Hk).
    destruct (bool_decide_reflect (i_kind ino = Regular)) as [Hreg|]; cbn [negb orb]; [|io_step; by apply Herr].
    destruct (N.eqb_spec (i_nlink ino) 1) as [Hl|]; cbn [negb]; [|io_step; by apply Herr].
    by eapply destroy_regular_wp.
Qed.
End artifact.

(** ** [destroy] *)

(** The files of a wallet: the main file, the temporaries and the quarantine copies. *)
Definition belongs (s : VaultStore) (p : PathBuf) : Prop :=
  p = main_path s \/ (p_dir p = p_dir (main_path s) /\
    (is_residue (main_path s) ".tmp" p = true \/ is_residue (main_path s) ".orphan" p = true)).

(** A consistent file system: directories and inodes of names exist, and a file of one link
    has one name. *)
Record consistent (fs : FsState) : Prop := {
  cs_dirs : in_dirs fs;
  cs_inodes : forall p i, names fs !! p = Some i -> is_Some (inodes fs !! i);
  cs_links : forall p q i ino, names fs !! p = Some i -> names fs !! q = Some i ->
    inodes fs !! i = Some ino -> i_kind ino = Regular -> i_nlink ino = 1 -> p = q
}.

Lemma frame_in_dirs l fs fs' : frame l fs fs' -> in_dirs fs -> in_dirs fs'.
Proof.
  intros [Hd Hn Hg Hi Ha] Hdirs p i Hp. rewrite Hd. destruct (Hg p) as [E|E]; [|congruence].
  rewrite E in Hp. by eapply Hdirs.
Qed.

Lemma frame_inodes_exist l fs fs' :
  frame l fs fs' -> (forall p i, names fs !! p = Some i -> is_Some (inodes fs !! i)) ->
  forall p i, names fs' !! p = Some i -> is_Some (inodes fs' !! i).
Proof.
  intros [Hd Hn Hg Hi Ha] Hex p i Hp. destruct (Hg p) as [E|E]; [|congruence].
  rewrite E in Hp. apply Ha. by eapply Hex.
Qed.

Lemma dedup_paths_spec l :
  (forall p, p ∈ fst <$> dedup_paths l <-> p ∈ fst <$> l) /\
  (StronglySorted (key_le fst) l -> NoDup (fst <$> dedup_paths l)).
Proof.
  assert (forall l p, p ∈ fst <$> dedup_paths l <-> p ∈ fst <$> l) as Hin.
  { clear l. induction l as [|x l IH]; intros p; [done|]. cbn [dedup_paths fmap list_fmap]. rewrite !elem_of_cons, <- IH.
    destruct (dedup_paths l) as [|y r]; [done|]. case_decide as E; cbn [fmap list_fmap]; rewrite !elem_of_cons; [rewrite E|]; tauto. }
  split; [apply Hin|]. induction l as [|x l IH]; intros Hs; [constructor|].
  apply StronglySorted_inv in Hs as [Hs Hx]. specialize (IH Hs). cbn [dedup_paths].
  assert (forall p, p ∈ fst <$> dedup_paths l -> cmp (fst x) p <> Gt) as Hle.
  { intros p Hp. rewrite Hin in Hp. apply list_elem_of_fmap in Hp as (y & -> & Hy).
    exact (proj1 (Forall_forall _ _) Hx y Hy). }
  assert (StronglySorted (key_le fst) (dedup_paths l)) as Hsd.
  { clear -Hs. induction l as [|y l IH]; [constructor|]. apply StronglySorted_inv in Hs as [Hs Hy].
    specialize (IH Hs). cbn [dedup_paths].
    assert (Forall (key_le fst y) (dedup_paths l)) as Hall.
    { clear -Hy. induction l as [|z l IH]; [constructor|]. apply Forall_cons in Hy as [Hz Hy]. cbn [dedup_paths].
      constructor; [done|]. specialize (IH Hy). destruct (dedup_paths l); [done|].
      case_decide; [by apply Forall_cons in IH as []|done]. }
    destruct (dedup_paths l) as [|z r]; [by repeat constructor|]. case_decide; [|by constructor].
    apply StronglySorted_inv in IH as [Hr _]. apply Forall_cons in Hall as [_ Hall]. by constructor. }
  destruct (dedup_paths l) as [|y r]; [repeat constructor; by intros ?%elem_of_nil|]. cbn [fmap list_fmap] in *.
  apply NoDup_cons in IH as [Hy Hr]. case_decide as E; cbn; [by rewrite E; constructor|].
  constructor; [|by constructor]. intros [|Hxr]%elem_of_cons; [done|].
  apply list_elem_of_fmap in Hxr as (z & Ez & Hz). apply StronglySorted_inv in Hsd as [_ Hyr].
  pose proof (proj1 (Forall_forall _ _) Hyr z Hz) as Hyz. unfold key_le in Hyz. rewrite <- Ez in Hyz.
  assert (cmp (fst x) (fst y) <> Gt) as Hxy by (apply Hle; left).
  apply E. apply cmp_eq_iff. destruct (cmp (fst x) (fst y)) eqn:Ec; [done| |done].
  rewrite cmp_antisym, Ec in Hyz. done.
Qed.

Section destroy.
Context (T : Tick -> Prop) `{Calm T} (I : FsState -> Prop) (s : VaultStore).

Lemma destroy_candidates_wp (Q : res io_Error (list (PathBuf * DestroyArtifactKind)) -> FsState -> Prop) fs :
  I fs -> in_dirs fs -> (forall p i, names fs !! p = Some i -> is_Some (inodes fs !! i)) ->
  (forall e, Q (Err e) fs) ->
  (forall l, NoDup (fst <$> l) -> (forall p, p ∈ fst <$> l <-> belongs s p /\ is_Some (names fs !! p)) -> Q (Ok l) fs) ->
  wp T I (destroy_candidates s) Q fs.
Proof.
  intros HI Hd Hex He Hok. unfold destroy_candidates. io_step. io_step. unfold symlink_metadata. io_step.
  { intros e [[Hg _] _]. rewrite bool_decide_eq_false_2 by done. by io_step. }
  assert (forall mains, (forall p, p ∈ fst <$> mains <-> p = main_path s /\ is_Some (names fs !! p)) ->
    wp T I (let! temps := try_list_temps (main_path s) in
            let! orphans := try_list_orphans (main_path s) in
            io_ret (Ok (dedup_paths (sort_by_key fst
              (mains ++ ((fun p => (p, Temporary)) <$> temps) ++ ((fun p => (p, QuarantineOrphan)) <$> orphans)))))) Q fs) as Hrest.
  { intros mains Hm. io_step. apply try_list_residue_wp; [done|done|by intros|]. intros temps Ht.
    destruct (Ht Hd) as [_ Ht']. io_step. apply try_list_residue_wp; [done|done|by intros|]. intros orphans Ho.
    destruct (Ho Hd) as [_ Ho']. io_step.
    set (l := mains ++ _). destruct (dedup_paths_spec (sort_by_key fst l)) as [Hin Hnd].
    apply Hok; [apply Hnd, sort_by_key_sorted|]. intros p. rewrite Hin.
    rewrite (fmap_Permutation fst _ _ (sort_by_key_perm fst l)). subst l.
    rewrite !fmap_app, !elem_of_app, Hm, <- !list_fmap_compose.
    assert (forall k (q : PathBuf) (ps : list PathBuf), q ∈ (fst ∘ (fun p => (p, k : DestroyArtifactKind))) <$> ps <-> q ∈ ps) as Hk.
    { intros k q ps. rewrite list_elem_of_fmap. naive_solver. }
    rewrite !Hk, Ht', Ho'. unfold belongs. naive_solver. }
  destruct (entry (main_path s) fs) as [[i ino]|] eqn:E.
  - io_step. apply Hrest. intros p. cbn. rewrite list_elem_of_singleton. apply entry_Some in E as [E _].
    split; [intros ->; eauto|by intros []].
  - cbn [io_kind]. rewrite bool_decide_eq_true_2 by done. io_step. apply Hrest. intros p. cbn. rewrite elem_of_nil.
    split; [done|]. intros [-> [i Hi]]. destruct (Hex _ _ Hi) as [ino Hino].
    by rewrite (proj2 (entry_Some _ _ _ _) (conj Hi Hino)) in E.
Qed.
End destroy.

Section destroy_theorem.
Context (T : Tick -> Prop) `{Calm T} (s : VaultStore) (fs : FsState) (Hfs : consistent fs) (L : list PathBuf).

Lemma fail_with_wp {A} operation p source artifacts lock (Q : res DestroyError A -> FsState -> Prop) f :
  in_dirs f -> (forall p i, names f !! p = Some i -> is_Some (inodes f !! i)) ->
  (forall e, Q (Err e) f) -> wp T (fun _ => True) (fail_with (destroy_error s operation p source artifacts lock)) Q f.
Proof.
  intros Hd Hex He. unfold fail_with. io_step. unfold destroy_error. io_step. unfold visible_ciphertext. io_step.
  apply destroy_candidates_wp; [done|done|done|done| |].
  - intros e. io_step. apply destroy_candidates_wp; [done|done|done|done| |].
    + intros e'. io_step. by io_step.
    + intros l _ _. io_step. by io_step.
  - intros l _ _. io_step. io_step. by io_step.
Qed.

(** A regular file that is gone: it had one link, and its contents were overwritten. *)
Definition wiped (p : PathBuf) (f : FsState) : Prop :=
  names f !! p = None /\ forall i ino, entry p fs = Some (i, ino) -> i_kind ino = Regular ->
    i_nlink ino = 1 /\ exists ino', inodes f !! i = Some ino' /\
      i_data ino' = zeros (N.of_nat (length (i_data ino))) /\ i_synced ino' = true.

(** While the list is worked off: [l] is still there, the rest of [L] is wiped. *)
Record progress (l : list PathBuf) (f : FsState) : Prop := {
  pg_frame : frame L fs f;
  pg_left : forall p, p ∈ l -> p ∈ L /\ names f !! p = names fs !! p /\
    forall i ino, entry p fs = Some (i, ino) -> i_kind ino = Regular -> inodes f !! i = Some ino;
  pg_done : forall p, p ∈ L -> p ∉ l -> wiped p f
}.

Lemma progress_step p l f f' kind o :
  p ∉ l -> progress (p :: l) f -> artifact_post p kind f (Ok o) f' -> progress l f'.
Proof.
  intros Hpl [Hf Hleft Hdone] [Hfr ((ow & -> & Hov) & Hgone & _)].
  destruct (Hleft p ltac:(left)) as (HpL & Hnp & Hip).
  assert (frame L fs f') as Hf'.
  { eapply frame_trans; [exact Hf|]. eapply frame_weaken; [|exact Hfr]. by intros q ->%list_elem_of_singleton. }
  destruct Hov as (i0 & ino0 & E0 & Hcase). pose proof E0 as [En0 Ei0]%entry_Some.
  (* the inode of another regular file is not touched *)
  assert (forall q i ino, names fs !! q = Some i -> inodes fs !! i = Some ino -> i_kind ino = Regular -> q <> p ->
    inodes f !! i = Some ino \/ i <> i0 -> inodes f' !! i = inodes f !! i) as Hother.
  { intros q i ino Hq Hi Hk Hqp Hor. apply (fr_inodes _ _ _ Hfr).
    intros p' ->%list_elem_of_singleton Hp'. rewrite En0 in Hp'. injection Hp' as ->.
    destruct Hor as [Hor|]; [|done]. rewrite Ei0 in Hor. injection Hor as ->.
    destruct Hcase as [(target & Hs & _)|(_ & Hl & _)]; [congruence|].
    rewrite Hnp in En0. by apply Hqp, (cs_links _ Hfs q p i ino). }
  split; [done| |].
  - intros q Hq. destruct (Hleft q ltac:(by right)) as (HqL & Hnq & Hiq). assert (q <> p) as Hne by (by intros ->).
    split; [done|]. split.
    + rewrite (fr_names _ _ _ Hfr); [done|]. by intros ->%list_elem_of_singleton.
    + intros i ino E Hk. pose proof E as [En Ei]%entry_Some. specialize (Hiq i ino E Hk).
      rewrite (Hother q i ino En Ei Hk Hne); auto.
  - intros q HqL Hq. destruct (decide (q = p)) as [->|Hne].
    + split; [done|]. intros i ino E Hk. specialize (Hip i ino E Hk). pose proof E as [En Ei]%entry_Some.
      rewrite Hnp, En in En0. injection En0 as ->. rewrite Hip in Ei0. injection Ei0 as ->.
      destruct Hcase as [(target & Hs & _)|(_ & Hl & _ & Hx)]; [congruence|]. by split.
    + destruct (Hdone q HqL) as [Hnone Hw]; [by intros [?|?]%elem_of_cons|]. split.
      * rewrite (fr_names _ _ _ Hfr); [done|]. by intros ->%list_elem_of_singleton.
      * intros i ino E Hk. pose proof E as [En Ei]%entry_Some. destruct (Hw i ino E Hk) as [Hl (x & Hx & Hd & Hy)].
        split; [done|]. exists x. split; [|done]. rewrite (Hother q i ino En Ei Hk Hne); [done|]. right.
        intros ->. apply Hne. rewrite Hnp in En0. by apply (cs_links _ Hfs q p i0 ino).
Qed.

(** The file is gone and the directory without it is on the disk. *)
Definition removed (o : DestroyArtifactOutcome) : Prop :=
  ao_unlinked o = true /\ ao_directory_synced o = true.

Lemma destroy_all_wp l : forall artifacts lock f (Q : res DestroyError (list DestroyArtifactOutcome) -> FsState -> Prop),
  NoDup (fst <$> l) -> progress (fst <$> l) f ->
  (forall e f', frame L fs f' -> Q (Err e) f') ->
  (forall out f', progress [] f' -> ao_path <$> out = (ao_path <$> artifacts) ++ (fst <$> l) ->
     (Forall removed artifacts -> Forall removed out) ->
     Q (Ok out) f') ->
  wp T (fun _ => True) (destroy_all s l artifacts lock) Q f.
Proof.
  induction l as [|[p kind] l IH]; intros artifacts lock f Q Hnd Hp He Hok; cbn [destroy_all].
  { io_step. apply Hok; [done|by rewrite app_nil_r|done]. }
  cbn [fmap list_fmap fst] in *. apply NoDup_cons in Hnd as [Hpl Hnd].
  io_step. eapply wp_mono; [by apply destroy_artifact_wp|].
  intros [o|[[operation source] o]|] f' Hpost; [| |by destruct Hpost].
  - apply IH; [done|by eapply progress_step|done|]. intros out f2 Hp2 Hpaths Hall. apply Hok; [done| |].
    + destruct Hpost as [_ ((ow & -> & _) & _)]. rewrite Hpaths, fmap_app. by rewrite <- app_assoc.
    + intros Hx. apply Hall, Forall_app. split; [done|].
      destruct Hpost as [_ ((ow & -> & _) & _)]. by repeat constructor.
  - destruct Hpost as [Hfr _]. assert (frame L fs f') as Hf'.
    { eapply frame_trans; [apply Hp|]. eapply frame_weaken; [|exact Hfr]. intros q ->%list_elem_of_singleton.
      by apply Hp; left. }
    apply fail_with_wp; [by eapply frame_in_dirs; [exact Hf'|apply Hfs]| |by intros; apply He].
    eapply frame_inodes_exist; [exact Hf'|apply Hfs].
Qed.
End destroy_theorem.

(** What [destroy] comes to. *)
Definition destroy_outcome (s : VaultStore) (fs : FsState) (r : res DestroyError DestroyReport) (fs' : FsState) : Prop :=
  (forall q, ~ belongs s q -> names fs' !! q = names fs !! q) /\
  match r with
  | Ok report =>
      (forall p, belongs s p -> wiped fs p fs') /\ dr_residues report = [] /\ Forall removed (dr_artifacts report) /\
      forall p, p ∈ ao_path <$> dr_artifacts report <-> belongs s p /\ is_Some (names fs !! p)
  | Err _ => True
  | Panic => False
  end.

(** The verification at the end. *)
Lemma destroy_verify_wp T `{Calm T} s fs L artifacts lock f :
  consistent fs -> progress fs L [] f -> (forall p, p ∈ L <-> belongs s p /\ is_Some (names fs !! p)) ->
  ao_path <$> artifacts = L -> Forall removed artifacts ->
  wp T (fun _ => True)
    (match! visible_ciphertext s with r =>
     match r with
     | Err source =>
         fail_with (destroy_error s "verifying wallet ciphertext removal at" (main_path s) source artifacts lock)
     | Panic => io_ret Panic
     | Ok residues =>
         let report := mkReport artifacts residues lock in
         if bool_decide (residues = []) then io_ret (Ok report) else
         io_ret (Err (mkDestroyError "verifying wallet ciphertext removal at" (main_path s)
           (io_other (bs "one or more encrypted wallet artifacts remain")) report None))
     end) (destroy_outcome s fs) f.
Proof.
  intros Hfs Hp HL Hpaths Hall. pose proof (cs_dirs _ Hfs) as Hd. pose proof (cs_inodes _ Hfs) as Hex.
  pose proof (pg_frame _ _ _ _ Hp) as Hf.
  assert (forall q, ~ belongs s q -> names f !! q = names fs !! q) as Hothers.
  { intros q Hq. apply (fr_names _ _ _ Hf). rewrite HL. by intros []. }
  io_step. unfold visible_ciphertext. io_step.
  apply destroy_candidates_wp; [done|done|by eapply frame_in_dirs|by eapply frame_inodes_exist| |].
  { intros e. apply fail_with_wp; [done|by eapply frame_in_dirs|by eapply frame_inodes_exist|by intros]. }
  intros l' _ Hl'. io_step. case_bool_decide as Enil; io_step; [|by split].
  split; [done|]. split; [|split; [done|split; [done|cbn [dr_artifacts]; rewrite Hpaths; exact HL]]].
  intros p Hb. destruct (decide (p ∈ L)) as [Hin|Hnin].
  - by apply (pg_done _ _ _ _ Hp); [|apply not_elem_of_nil].
  - assert (names fs !! p = None) as Hn.
    { destruct (names fs !! p) eqn:E; [|done]. exfalso. apply Hnin, HL. eauto. }
    split; [by rewrite (fr_names _ _ _ Hf)|]. intros i ino [E _]%entry_Some. congruence.
Qed.


Definition demo_store : VaultStore := mkStore (bs "w") (bs "bob").

Lemma demo_fs_consistent : consistent demo_fs.
Proof.
  assert (forall p i, names demo_fs !! p = Some i ->
    (p = mkPath (bs "w") (bs "bob.ccwallet") /\ i = 1) \/ (p = mkPath (bs "w") (bs "notes.txt") /\ i = 2)) as Hn.
  { intros p i. cbn. rewrite !lookup_insert. repeat case_decide; try done; intros [= <-]; auto. }
  split; [exact demo_fs_in_dirs| |].
  - intros p i [[-> ->]|[-> ->]]%Hn; vm_compute; eauto.
  - intros p q i ino [[-> ->]|[-> ->]]%Hn [[-> ?]|[-> ?]]%Hn; done.
Qed.


(** *** The loops end *)

(** C27: the overwriting and the verifying loop end within the rounds given to them, whatever
    the steps do: more rounds change nothing, so running out of them cannot happen. *)
Theorem destroy_loops_terminate (file len : N) (at_error : N -> DestroyArtifactOutcome) (incomplete : DestroyArtifactOutcome)
    (more : nat) (w : World) :
  overwrite_zeros (rounds len + more) file len 0 at_error w = overwrite_zeros (rounds len) file len 0 at_error w /\
  verify_zeros (rounds len + more) file len len incomplete w = verify_zeros (rounds len) file len len incomplete w.
Proof.
  split.
  - assert (forall fuel written w, (N.to_nat (len - written) <= fuel * N.to_nat ZEROS)%nat ->
      overwrite_zeros (fuel + more) file len written at_error w = overwrite_zeros fuel file len written at_error w) as Hgo.
    { clear w. induction fuel as [|fuel IH]; intros written w Hle; cbn [Nat.add overwrite_zeros].
      - assert (written <? len = false) as E by (apply N.ltb_ge; lia).
        destruct more; cbn [overwrite_zeros]; by rewrite E.
      - destruct (N.ltb_spec written len); [|done]. unfold io_bind. destruct (during _ _ _ w) as [[[]|e|] w']; [|done..].
        apply IH. lia. }
    apply Hgo. rewrite N.sub_0_r. apply rounds_enough.
  - assert (forall fuel remaining w, (N.to_nat remaining <= fuel * N.to_nat ZEROS)%nat ->
      verify_zeros (fuel + more) file len remaining incomplete w = verify_zeros fuel file len remaining incomplete w) as Hgo.
    { clear w. induction fuel as [|fuel IH]; intros remaining w Hle; cbn [Nat.add verify_zeros].
      - assert (0 <? remaining = false) as E by (apply N.ltb_ge; lia).
        destruct more; cbn [verify_zeros]; by rewrite E.
      - destruct (N.ltb_spec 0 remaining); [|done]. unfold io_bind.
        destruct (during _ _ _ w) as [[got|e|] w']; [|done..].
        destruct (forallb _ got); [|done]. apply IH. lia. }
    apply Hgo, rounds_enough.
Qed.
