(* ===== verification/Unlock.v ===== *)
(** * Unlocking a wallet (crates/cc-wallet-storage/src/vault_store.rs, fourth part)

    The main file and what survived of earlier saves are candidates; of those the password
    opens, the newest save wins and becomes the main file.  Also here: quarantine copies
    and reading the wallet section. *)

From Stdlib Require Import NArith Lia.
From stdpp Require Import gmap.
From S2P Require Import Prelude Ord Bytes Text Decimal Ids Digest VaultKeys Vault Fs Atomic Wallets Writer Destroy.

Record Candidate := mkCandidate {
  cd_path : PathBuf;
  cd_counter : N;
  cd_bytes : bytes;
  cd_container : OpenedContainer
}.

Record UnlockedVault := mkUnlocked {
  ul_vault : Vault;
  ul_wallet : bytes;
  ul_journal : bytes;
  ul_activity : ActivitySection;
  ul_from_newer_container : bool;
  ul_selected : SelectedCandidate;
  ul_writer : VaultWriter
}.

(** [read_kdf_params] (vault.rs). *)
Definition read_kdf_params (input : bytes) : res VaultError KdfParams := validate_header input.

Section unlock.
Context `{Sha256} `{VaultPrims} `{Tempfile}.

(** The loop over the keyslots already opened: the container, or [None] when none fits. *)
Fixpoint try_cached (input : bytes) (cached : list VaultKeyslot) : res VaultError (option OpenedContainer) :=
  match cached with
  | [] => Ok None
  | slot :: cached' =>
      match open_container_with input slot with
      | Ok container => Ok (Some container)
      | Err WrongPassword => try_cached input cached'
      | Err other => Err other
      | Panic => Panic
      end
  end.

(** The container and the cache after it. *)
Definition open_candidate_reusing_keyslot (input password : bytes) (cached : list VaultKeyslot)
  : res VaultError (OpenedContainer * list VaultKeyslot) :=
  let? hit := try_cached input cached in
  match hit with
  | Some container => Ok (container, cached)
  | None =>
      let? slot := open_keyslot input password in
      let? container := open_container_with input slot in
      Ok (container, cached ++ [slot])
  end.

(** What the scan of the candidates has found so far. *)
Record Scan := mkScan {
  sn_opened : list Candidate;
  sn_first_err : option VaultError;
  sn_main_authenticated : bool;
  sn_plausible_keyslots : list bytes;
  sn_cached : list VaultKeyslot
}.

Definition scan_start : Scan := mkScan [] None false [] [].

(** One candidate that could be read. *)
Definition scan_bytes (password : bytes) (main p : PathBuf) (data : bytes) (sn : Scan) : res VaultStoreError Scan :=
  let plausible :=
    if looks_like_container data then
      match keyslot_prefix data with
      | Some keyslot => sn_plausible_keyslots sn ++ [keyslot]
      | None => sn_plausible_keyslots sn
      end
    else sn_plausible_keyslots sn in
  match open_candidate_reusing_keyslot data password (sn_cached sn) with
  | Ok (container, cached) =>
      Ok (mkScan (sn_opened sn ++ [mkCandidate p (oc_save_counter container) data container])
            (sn_first_err sn) (sn_main_authenticated sn || bool_decide (p = main)) plausible cached)
  | Err error =>
      Ok (mkScan (sn_opened sn) (match sn_first_err sn with Some e => Some e | None => Some error end)
            (sn_main_authenticated sn) plausible (sn_cached sn))
  | Panic => Panic
  end.

(** A survivor is passed over when it is too large or its key derivation dearer than the
    default. *)
Definition survivor_too_dear (prefix : bytes) (file_len : N) : bool :=
  (MAX_CANDIDATE_CONTAINER_BYTES <? file_len)
  || match read_kdf_params prefix with Ok params => weaker_than KDF_DEFAULT params | _ => false end.

Definition read_candidate (password : bytes) (main p : PathBuf) (sn : Scan) : IO VaultStoreError Scan :=
  match! read_regular_nofollow p with r =>
  match r with
  | Ok data => io_ret (scan_bytes password main p data sn)
  | Err e => if bool_decide (io_kind e = NotFound) then io_ret (Ok sn) else io_ret (Err (StoreIo e))
  | Panic => io_ret Panic
  end.

Definition scan_candidate (password : bytes) (main p : PathBuf) (sn : Scan) : IO VaultStoreError Scan :=
  if bool_decide (p = main) then read_candidate password main p sn else
  match! read_prefix_nofollow p MAX_HEADER_PROBE_LEN with r =>
  match r with
  | Ok (prefix, file_len) =>
      if survivor_too_dear prefix file_len then io_ret (Ok sn) else read_candidate password main p sn
  | Err e => if bool_decide (io_kind e = NotFound) then io_ret (Ok sn) else io_ret (Err (StoreIo e))
  | Panic => io_ret Panic
  end.

Fixpoint scan_candidates (password : bytes) (main : PathBuf) (l : list PathBuf) (sn : Scan) : IO VaultStoreError Scan :=
  match l with
  | [] => io_ret (Ok sn)
  | p :: l' => let! sn := scan_candidate password main p sn in scan_candidates password main l' sn
  end.

(** [windows(2).any(|pair| pair[0] != pair[1])]. *)
Fixpoint any_differ (l : list bytes) : bool :=
  match l with
  | x :: (y :: _) as l' => negb (bool_decide (x = y)) || any_differ l'
  | _ => false
  end.

(** [retain]: with an authenticated main file only its own key generation counts. *)
Definition retain_generation (main : PathBuf) (opened : list Candidate) : list Candidate :=
  match List.find (fun c => bool_decide (cd_path c = main)) opened with
  | Some c =>
      match keyslot_prefix (cd_bytes c) with
      | Some main_keyslot =>
          List.filter (fun c => bool_decide (cd_path c = main)
                                || bool_decide (keyslot_prefix (cd_bytes c) = Some main_keyslot)) opened
      | None => opened
      end
  | None => opened
  end.

(** [max] of the counters, and [position] of the first candidate that has it. *)
Definition top_counter (opened : list Candidate) : N := fold_right (fun c m => N.max (cd_counter c) m) 0 opened.

Fixpoint first_at (top : N) (opened : list Candidate) : option Candidate :=
  match opened with
  | c :: opened' => if cd_counter c =? top then Some c else first_at top opened'
  | [] => None
  end.

(** Whom the candidates make the winner. *)
Definition select (main : PathBuf) (main_present : bool) (sn : Scan) : res VaultStoreError Candidate :=
  if main_present && negb (sn_main_authenticated sn)
  then Err (from_vault (default WrongPassword (sn_first_err sn))) else
  if negb (sn_main_authenticated sn) && any_differ (sn_plausible_keyslots sn)
  then Err (StoreVault (Corrupt "ambiguous recovery: candidates span different key generations")) else
  let opened := if sn_main_authenticated sn then retain_generation main (sn_opened sn) else sn_opened sn in
  if bool_decide (length opened = 0%nat) then
    Err (match sn_first_err sn with
         | Some error => from_vault error
         | None => StoreIo (mkIo NotFound (bs "no wallet file to open"))
         end)
  else
  let top := top_counter opened in
  let? winner := expect (first_at top opened) in
  (* any candidate at the top with other bytes than the winner's *)
  check negb (existsb (fun c => (cd_counter c =? top) && negb (bool_decide (cd_bytes c = cd_bytes winner))) opened)
    else StoreVault (Corrupt "ambiguous recovery: two authenticated saves share the newest counter") ;;
  Ok winner.

(** The winner becomes the main file, and its writer the owner. *)
Definition install_winner (s : VaultStore) (winner : Candidate) : IO VaultStoreError UnlockedVault :=
  let main := main_path s in
  let promoted := negb (bool_decide (cd_path winner = main)) in
  let! _ := lift_io (if promoted then write_atomic main (cd_bytes winner) else io_ret (Ok tt)) in
  let selected := mkSelected main (if promoted then main else cd_path winner)
                    (cd_counter winner) (sha256 (cd_bytes winner)) in
  let! writer := writer_authenticated s selected in
  match! (if promoted && bool_decide (extension (cd_path winner) = Some (bs "tmp"))
          then remove_file (cd_path winner) else io_ret (Ok tt)) with _ =>
  let container := cd_container winner in
  io_ret (Ok (mkUnlocked (oc_vault container) (oc_wallet container) (oc_journal container)
                (oc_activity container) (oc_has_unknown_sections container) selected writer)).

Definition unlock (s : VaultStore) (password : bytes) : IO VaultStoreError UnlockedVault :=
  let! _ := io_ret (validate_wallet_name (st_name s)) in
  let main := main_path s in
  let! main_present := match! symlink_metadata main with r =>
                       match r with
                       | Ok _ => io_ret (Ok true)
                       | Err e => if bool_decide (io_kind e = NotFound) then io_ret (Ok false)
                                  else io_ret (Err (StoreIo e))
                       | Panic => io_ret Panic
                       end in
  let! survivors := lift_io (list_survivors main) in
  let! sn := scan_candidates password main ((if main_present : bool then [main] else []) ++ survivors) scan_start in
  let! winner := io_ret (select main main_present sn) in
  install_winner s winner.

(** ** Quarantine *)
Definition orphan_path (s : VaultStore) (counter : N) : PathBuf :=
  mkPath (st_dir s) (main_file (st_name s) ++ bs ".v1." ++ print_dec counter ++ bs ".orphan").

Definition quarantine_selected (s : VaultStore) (selected : SelectedCandidate) : IO VaultStoreError PathBuf :=
  check! bool_decide (sc_owner_main selected = main_path s)
    else state_error "selected quarantine candidate belongs to a different wallet path" ;;
  let! source := lift_io (read_regular_nofollow (sc_path selected)) in
  check! bool_decide (sha256 source = sc_sha256 selected)
    else StoreVault (Corrupt "selected candidate changed before quarantine") ;;
  let orphan := orphan_path s (sc_counter selected) in
  let! _ := lift_io (install_orphan_copy orphan source) in
  let! installed := lift_io (read_regular_nofollow orphan) in
  let! source_after := lift_io (read_regular_nofollow (sc_path selected)) in
  check! bool_decide (installed = source) && bool_decide (source_after = source)
         && bool_decide (sha256 source_after = sc_sha256 selected)
    else StoreVault (Corrupt "selected candidate changed while its quarantine copy was installed") ;;
  io_ret (Ok orphan).

(** [read_wallet]. *)
Definition read_wallet (s : VaultStore) (v : Vault) : IO VaultStoreError bytes :=
  let! data := lift_io (read_regular_nofollow (main_path s)) in
  let! section := lift_vault (read_section v PWallet data) in
  io_ret (ok_or section (StoreVault (Corrupt "wallet section missing"))).
End unlock.

(** ** Reusing keyslots changes nothing *)
Section reuse.
Context `{Sha256} `{VaultPrims}.

Lemma keyslot_open_prefix a b password :
  (KEYSLOT_LEN <= length a)%nat -> (KEYSLOT_LEN <= length b)%nat ->
  slice a 0 KEYSLOT_LEN = slice b 0 KEYSLOT_LEN -> keyslot_open a password = keyslot_open b password.
Proof.
  intros Ha Hb E.
  assert (forall i j, (i <= j)%nat -> (j <= KEYSLOT_LEN)%nat -> slice a i j = slice b i j) as Es.
  { intros i j Hij Hj. transitivity (slice (slice a 0 KEYSLOT_LEN) i j); [symmetry; exact (slice_slice a 0 KEYSLOT_LEN i j Hj)|].
    rewrite E. exact (slice_slice b 0 KEYSLOT_LEN i j Hj). }
  assert (validate_header a = validate_header b) as Ev.
  { unfold validate_header. rewrite (proj2 (Nat.ltb_ge _ _) Ha), (proj2 (Nat.ltb_ge _ _) Hb).
    by rewrite !(Es _ _) by (cbv; lia). }
  unfold keyslot_open. rewrite Ev, !(Es _ _) by (cbv; lia). done.
Qed.

Definition valid_cache (password : bytes) (cached : list VaultKeyslot) : Prop :=
  Forall (fun slot => exists input, open_keyslot input password = Ok slot) cached.

Lemma open_keyslot_Ok input password slot :
  open_keyslot input password = Ok slot ->
  exists op, keyslot_open input password = Ok op /\ slot = mkSlot (op_dek op) (op_params op) (slice input 0 KEYSLOT_LEN).
Proof. unfold open_keyslot. intros E. rinv E. eauto. Qed.

Lemma keyslot_open_length input password op : keyslot_open input password = Ok op -> (KEYSLOT_LEN <= length input)%nat.
Proof.
  unfold keyslot_open. intros E. rinv E. unfold validate_header in Hm.
  destruct (Nat.ltb_spec (length input) KEYSLOT_LEN); [done|lia].
Qed.

(** A cached slot with the file's keyslot is the one the password opens. *)
Lemma cached_slot_opens password slot input :
  (exists other, open_keyslot other password = Ok slot) -> is_ok (parse_public_header input) = true ->
  (KEYSLOT_LEN <= length input)%nat -> slice input 0 KEYSLOT_LEN = sl_keyslot slot ->
  open_keyslot input password = Ok slot.
Proof.
  intros [other Ho] Hp Hl Hk. apply open_keyslot_Ok in Ho as (op & Ho & ->). cbn in Hk.
  unfold open_keyslot. destruct (parse_public_header input); try done. cbn.
  rewrite (keyslot_open_prefix input other) by (try done; by eapply keyslot_open_length).
  rewrite Ho. cbn. by rewrite Hk.
Qed.

Lemma open_container_with_cases password slot input :
  (exists other, open_keyslot other password = Ok slot) ->
  open_container_with input slot = Err WrongPassword \/
  open_container input password = open_container_with input slot.
Proof.
  intros Hslot. unfold open_container_with at 1.
  destruct (parse_public_header input) as [h|e|] eqn:Ep; cbn [rbind].
  - destruct (Nat.ltb_spec (length input) KEYSLOT_LEN); [by left|].
    cbn [orb]. case_bool_decide as Hk; [|by left]. right. unfold open_container.
    rewrite (cached_slot_opens password slot input Hslot); [done|by rewrite Ep|lia|done].
  - right. unfold open_container, open_keyslot, open_container_with. by rewrite Ep.
  - by apply parse_public_header_no_panic in Ep.
Qed.

Lemma try_cached_sound password input cached :
  valid_cache password cached ->
  match try_cached input cached with
  | Ok (Some c) => open_container input password = Ok c
  | Ok None => True
  | Err e => open_container input password = Err e
  | Panic => open_container input password = Panic
  end.
Proof.
  induction 1 as [|slot cached Hslot _ IH]; cbn [try_cached]; [done|].
  destruct (open_container_with_cases password slot input Hslot) as [-> |E]; [done|].
  destruct (open_container_with input slot) as [c|[]|]; done.
Qed.

Lemma reuse_equiv (input password : bytes) (cached : list VaultKeyslot) :
  valid_cache password cached ->
  rmap fst (open_candidate_reusing_keyslot input password cached) = open_container input password /\
  forall container cached', open_candidate_reusing_keyslot input password cached = Ok (container, cached') ->
    valid_cache password cached'.
Proof.
  intros Hc. pose proof (try_cached_sound password input cached Hc) as Hs. unfold open_candidate_reusing_keyslot.
  destruct (try_cached input cached) as [[c|]|e|]; cbn in *; [|clear Hs|split; congruence..].
  - split; [done|]. by intros ? ? [= <- <-].
  - unfold open_container. destruct (open_keyslot input password) as [slot|e|] eqn:Ek; cbn; [|done..].
    destruct (open_container_with input slot) as [c|e|]; cbn; [|done..]. split; [done|].
    intros ? ? [= <- <-]. apply Forall_app. split; [done|]. constructor; [eauto|constructor].
Qed.

(** The cache of opened keyslots is transparent: with slots the password opened, a
    candidate opens, or fails, exactly as it does alone, and the cache stays of that kind. *)
Lemma keyslot_reuse_equivalent (input password : bytes) (cached : list VaultKeyslot)
    (Hc : valid_cache password cached) :
  rmap fst (open_candidate_reusing_keyslot input password cached) = open_container input password /\
  forall container cached', open_candidate_reusing_keyslot input password cached = Ok (container, cached') ->
    valid_cache password cached'.
Proof. by apply reuse_equiv. Qed.
End reuse.

(** ** Who wins *)
Lemma top_counter_max opened c : c ∈ opened -> cd_counter c <= top_counter opened.
Proof.
  unfold top_counter. induction opened as [|d opened IH]; [by intros ?%elem_of_nil|].
  cbn. intros [->|Hin]%elem_of_cons; [lia|]. specialize (IH Hin). lia.
Qed.

Lemma first_at_Some top opened c : first_at top opened = Some c -> c ∈ opened /\ cd_counter c = top.
Proof.
  induction opened as [|d opened IH]; cbn; [done|]. destruct (N.eqb_spec (cd_counter d) top) as [E|E].
  - intros [= <-]. split; [by left|done].
  - intros Hc. destruct (IH Hc). split; [by right|done].
Qed.

Lemma first_at_top opened : opened <> [] -> is_Some (first_at (top_counter opened) opened).
Proof.
  intros Hne. assert (exists c, c ∈ opened /\ cd_counter c = top_counter opened) as (c & Hin & Hc).
  { clear -Hne. induction opened as [|d opened IH]; [done|]. unfold top_counter. cbn. fold (top_counter opened).
    destruct opened as [|d' opened]; [exists d; split; [by left|cbn; lia]|].
    destruct IH as (c & Hin & Hc); [done|].
    destruct (N.max_spec (cd_counter d) (top_counter (d' :: opened))) as [[_ ->]|[_ ->]].
    - exists c. split; [by right|done].
    - exists d. split; [by left|done]. }
  revert Hin. generalize (top_counter opened) as top, Hc. clear. intros top Hc Hin.
  induction opened as [|d opened IH]; [by apply elem_of_nil in Hin|]. cbn.
  destruct (N.eqb_spec (cd_counter d) top); [eauto|].
  apply elem_of_cons in Hin as [->|Hin]; [done|auto].
Qed.

(** The candidates that count: with an authenticated main file those of its keyslot. *)
Definition considered (main : PathBuf) (sn : Scan) : list Candidate :=
  if sn_main_authenticated sn then retain_generation main (sn_opened sn) else sn_opened sn.

Lemma retain_generation_elem main opened c :
  c ∈ retain_generation main opened -> c ∈ opened.
Proof.
  unfold retain_generation. destruct (List.find _ _); [|done]. destruct (keyslot_prefix _); [|done].
  rewrite filter_bool_elem. by intros [].
Qed.

Lemma select_Ok main main_present sn winner :
  select main main_present sn = Ok winner ->
  (main_present = true -> sn_main_authenticated sn = true) /\ winner ∈ considered main sn /\
  forall c, c ∈ considered main sn ->
    cd_counter c <= cd_counter winner /\ (cd_counter c = cd_counter winner -> cd_bytes c = cd_bytes winner).
Proof.
  unfold select. fold (considered main sn).
  destruct (main_present && negb (sn_main_authenticated sn)) eqn:Hm; [done|].
  destruct (negb (sn_main_authenticated sn) && any_differ _); [done|].
  case_bool_decide; [done|]. destruct (first_at _ _) as [w|] eqn:Ew; cbn; [|done].
  destruct (existsb _ _) eqn:Hx; cbn; [done|]. intros [= <-]. apply first_at_Some in Ew as [Hin Htop].
  split; [|split; [done|]].
  - intros ->. by destruct (sn_main_authenticated sn).
  - intros c Hc. rewrite Htop. split; [by apply top_counter_max|]. intros Ec.
    destruct (decide (cd_bytes c = cd_bytes w)) as [|Hne]; [done|]. exfalso.
    assert (existsb (fun c => (cd_counter c =? top_counter (considered main sn))
              && negb (bool_decide (cd_bytes c = cd_bytes w))) (considered main sn) = true) as Htrue.
    { apply existsb_exists. exists c. split; [by apply list_elem_of_In|].
      by rewrite Ec, N.eqb_refl, bool_decide_eq_false_2. }
    by rewrite Htrue in Hx.
Qed.

Lemma select_no_panic main main_present sn : select main main_present sn <> Panic.
Proof.
  unfold select. fold (considered main sn). destruct (_ && _); [done|]. destruct (_ && _); [done|].
  case_bool_decide as Hl; [done|].
  destruct (first_at_top (considered main sn)) as [w ->]; [by intros E; rewrite E in Hl|].
  cbn. by destruct (existsb _ _).
Qed.

(** ** The scan *)
Section scan.
Context `{Sha256} `{VaultPrimsLaws} `{TempfileLaws} (password : bytes) (main : PathBuf) (fs : FsState).

(** A file unlocking would read: the main file, or a survivor that is not too dear. *)
Definition readable (p : PathBuf) (data : bytes) : Prop :=
  plain p fs = Some data /\
  (p <> main -> survivor_too_dear (take MAX_HEADER_PROBE_LEN data) (N.of_nat (length data)) = false).

(** What has been found is what is on the disk and opens, and nothing of [seen] that opens
    was left out. *)
Record scanned (seen : list PathBuf) (sn : Scan) : Prop := {
  sc_cache : valid_cache password (sn_cached sn);
  sc_sound : forall c, c ∈ sn_opened sn -> cd_path c ∈ seen /\ readable (cd_path c) (cd_bytes c) /\
    open_container (cd_bytes c) password = Ok (cd_container c) /\ cd_counter c = oc_save_counter (cd_container c);
  sc_complete : forall p data cont, p ∈ seen -> readable p data -> open_container data password = Ok cont ->
    mkCandidate p (oc_save_counter cont) data cont ∈ sn_opened sn;
  sc_main : sn_main_authenticated sn = true <-> exists c, c ∈ sn_opened sn /\ cd_path c = main
}.

Lemma scanned_start : scanned [] scan_start.
Proof.
  split; cbn; [constructor|by intros ? ?%elem_of_nil|by intros ? ? ? ?%elem_of_nil|].
  split; [done|by intros (? & ?%elem_of_nil & _)].
Qed.

(** A path with nothing to open. *)
Lemma scanned_skip seen sn p :
  scanned seen sn -> (forall data cont, readable p data -> open_container data password <> Ok cont) ->
  scanned (seen ++ [p]) sn.
Proof.
  intros [Hc Hs Hk Hm] Hp. split; [done| | |done].
  - intros c Hin. destruct (Hs c Hin). split; [by apply elem_of_app; left|done].
  - intros q data cont [Hq| ->%list_elem_of_singleton]%elem_of_app Hr Ho; [by apply Hk|by apply Hp in Ho].
Qed.

Lemma scanned_bytes seen sn p data :
  scanned seen sn -> readable p data ->
  match scan_bytes password main p data sn with
  | Ok sn' => scanned (seen ++ [p]) sn'
  | Err _ => True
  | Panic => False
  end.
Proof.
  intros Hsn Hr. pose proof Hsn as [Hc Hs Hk Hm]. unfold scan_bytes.
  destruct (reuse_equiv data password (sn_cached sn) Hc) as [He Hc'].
  destruct (open_candidate_reusing_keyslot data password (sn_cached sn)) as [[cont cached']|e|] eqn:Eo; cbn in He.
  - specialize (Hc' _ _ eq_refl). split; cbn; [done| | |].
    + intros c [Hin| ->%list_elem_of_singleton]%elem_of_app; [|cbn; by rewrite elem_of_app, list_elem_of_singleton; auto].
      destruct (Hs c Hin). split; [by apply elem_of_app; left|done].
    + intros q d ct [Hq| ->%list_elem_of_singleton]%elem_of_app Hrq Ho; apply elem_of_app; [left; by apply Hk|right].
      destruct Hr as [Hr _], Hrq as [Hrq _]. rewrite Hr in Hrq. injection Hrq as <-.
      rewrite <- He in Ho. injection Ho as <-. by apply list_elem_of_singleton.
    + rewrite orb_true_iff, Hm, bool_decide_eq_true. split.
      * intros [(c & Hin & Hp)| ->]; [exists c|eexists]; (split; [apply elem_of_app|]); [by left|done|right; by apply list_elem_of_singleton|done].
      * intros (c & [Hin| ->%list_elem_of_singleton]%elem_of_app & Hp); [left; eauto|by right].
  - eapply (scanned_skip _ (mkScan _ _ _ _ _)); [by split|].
    intros d ct [Hd _] Ho. destruct Hr as [Hr _]. rewrite Hr in Hd. injection Hd as <-. congruence.
  - symmetry in He. by apply open_container_no_panic in He.
Qed.

Context (T : Tick -> Prop) `{Calm T} (I : FsState -> Prop) (HI : I fs).

Lemma read_candidate_wp seen p sn (Q : res VaultStoreError Scan -> FsState -> Prop) :
  scanned seen sn -> (forall e, Q (Err e) fs) -> (forall sn', scanned (seen ++ [p]) sn' -> Q (Ok sn') fs) ->
  (forall data, plain p fs = Some data -> readable p data) ->
  wp T I (read_candidate password main p sn) Q fs.
Proof using All.
  intros Hsn He Hok Hr. unfold read_candidate. io_step. apply read_regular_wp; [done|done| |].
  - intros e Hre. case_bool_decide as Hk; io_step; [|done]. apply Hok, scanned_skip; [done|].
    apply (read_error_not_found _ _ _ _ Hre) in Hk. intros d ct [Hd _]. unfold plain in Hd. by rewrite Hk in Hd.
  - intros data Hd. io_step. pose proof (scanned_bytes seen sn p data Hsn (Hr _ Hd)) as Hb.
    destruct (scan_bytes _ _ _ _ _); [by apply Hok|done|done].
Qed.

Lemma scan_candidate_wp seen p sn (Q : res VaultStoreError Scan -> FsState -> Prop) :
  scanned seen sn -> (forall e, Q (Err e) fs) -> (forall sn', scanned (seen ++ [p]) sn' -> Q (Ok sn') fs) ->
  wp T I (scan_candidate password main p sn) Q fs.
Proof using All.
  intros Hsn He Hok. unfold scan_candidate. case_bool_decide as Hp.
  { eapply read_candidate_wp; eauto. intros data Hd. by split. }
  io_step. apply read_prefix_wp; [done|done| |].
  - intros e Hre. case_bool_decide as Hk; io_step; [|done]. apply Hok, scanned_skip; [done|].
    apply (read_error_not_found _ _ _ _ Hre) in Hk. intros d ct [Hd _]. unfold plain in Hd. by rewrite Hk in Hd.
  - intros data Hd. destruct (survivor_too_dear _ _) eqn:Ed.
    + io_step. apply Hok, scanned_skip; [done|]. intros d ct [Hd' Hdear]. rewrite Hd in Hd'. injection Hd' as <-.
      by rewrite Hdear in Ed.
    + eapply read_candidate_wp; eauto. intros d Hd'. rewrite Hd in Hd'. injection Hd' as <-. by split.
Qed.

Lemma scan_candidates_wp l : forall seen sn (Q : res VaultStoreError Scan -> FsState -> Prop),
  scanned seen sn -> (forall e, Q (Err e) fs) -> (forall sn', scanned (seen ++ l) sn' -> Q (Ok sn') fs) ->
  wp T I (scan_candidates password main l sn) Q fs.
Proof using All.
  induction l as [|p l IH]; intros seen sn Q Hsn He Hok; cbn [scan_candidates].
  - io_step. apply Hok. by rewrite app_nil_r.
  - io_step. eapply scan_candidate_wp; [exact Hsn|done|]. intros sn' Hsn'.
    apply (IH (seen ++ [p])); [done|done|]. by rewrite <- app_assoc.
Qed.
End scan.

(** ** Installing the winner *)
Section install.
Context (T : Tick -> Prop) `{Calm T} `{Sha256} `{VaultPrimsLaws} `{TempfileLaws}.

Lemma plain_content p fs data : plain p fs = Some data -> content p fs = Some data.
Proof. intros (i & ino & E & _ & _ & Hd)%plain_Some. unfold content. rewrite E. cbn. by rewrite Hd. Qed.

Lemma installed_plain p data fs : installed p data fs -> plain p fs = Some data.
Proof. intros (h & E & _). apply plain_Some. by exists h, (staged_inode data). Qed.

(** Removing another name leaves an installed file alone. *)
Lemma plain_unlink_other p q data fs :
  installed p data fs -> q <> p -> plain p (unlink q fs) = Some data.
Proof.
  intros (h & E & _ & Honly) Hq. apply entry_Some in E as [En Ei].
  apply plain_Some. exists h, (staged_inode data). split; [|done]. apply entry_Some.
  unfold unlink. destruct (entry q fs) as [[i ino]|] eqn:Eq; [|done]. apply entry_Some in Eq as [Eqn _]. cbn.
  rewrite lookup_delete_ne by done. split; [done|].
  rewrite lookup_insert_ne; [done|]. intros ->. by apply Hq, Honly.
Qed.

(** The selected file, still as it was selected. *)
Definition still_selected (s : VaultStore) (selected : SelectedCandidate) (fs : FsState) : Prop :=
  sc_owner_main selected = main_path s /\ exists data, plain (sc_path selected) fs = Some data /\
    sha256 data = sc_sha256 selected /\ read_save_counter data = Ok (sc_counter selected).

Lemma writer_authenticated_wp I s selected (Q : res VaultStoreError VaultWriter -> FsState -> Prop) fs :
  I fs -> (forall e, ~ (~ hazard T /\ still_selected s selected fs) -> Q (Err e) fs) ->
  Q (Ok (mkWriter s (sc_counter selected) (Some (sc_sha256 selected)) None true)) fs ->
  wp T I (writer_authenticated s selected) Q fs.
Proof.
  intros HI He Hok. unfold writer_authenticated, still_selected in *.
  case_bool_decide as Ho; [|io_step; apply He; naive_solver].
  io_step. unfold lift_io. io_step. apply read_regular_wp; [done|done| |].
  { intros e [(e' & Hf & _)|[Hno _]]; apply He; intros [Hn (_ & d & Hd & _)]; [apply Hn; by exists e'|congruence]. }
  intros data Hp.
  assert (forall e, ~ (sha256 data = sc_sha256 selected /\ read_save_counter data = Ok (sc_counter selected)) ->
    Q (Err e) fs) as He'.
  { intros e Hno. apply He. intros [_ (_ & d & Hd & Hx)]. apply Hno. rewrite Hp in Hd. by injection Hd as <-. }
  cbn. case_bool_decide as Hsha; cbn; [|io_step; apply He'; naive_solver].
  io_step. unfold lift_vault. io_step. pose proof (read_save_counter_no_panic data).
  destruct (read_save_counter data) as [c|e|] eqn:Ec; [|by apply He'; intros []|done]. cbn.
  destruct (N.eqb_spec c (sc_counter selected)) as [->|]; io_step; [done|]. apply He'. naive_solver.
Qed.

(** What unlocking hands out for the winner. *)
Definition unlocked_as (s : VaultStore) (winner : Candidate) (u : UnlockedVault) : Prop :=
  let c := cd_container winner in
  ul_vault u = oc_vault c /\ ul_wallet u = oc_wallet c /\ ul_journal u = oc_journal c /\
  ul_activity u = oc_activity c /\
  ul_selected u = mkSelected (main_path s) (main_path s) (cd_counter winner) (sha256 (cd_bytes winner)) /\
  ul_writer u = mkWriter s (cd_counter winner) (Some (sha256 (cd_bytes winner))) None true.

Definition unlocked_post (s : VaultStore) (winner : Candidate) (r : res VaultStoreError UnlockedVault) (fs' : FsState) : Prop :=
  match r with
  | Ok u => unlocked_as s winner u /\ plain (main_path s) fs' = Some (cd_bytes winner)
  | Err _ => True
  | Panic => False
  end.

Lemma sound_at_unlink_other old new p q fs : sound_at old new p fs -> q <> p -> sound_at old new p (unlink q fs).
Proof.
  intros [Hn Hd] Hq. unfold unlink. destruct (entry q fs) as [[i ino]|] eqn:E; [|done].
  apply entry_Some in E as [_ Ei]. split; cbn.
  - rewrite lookup_delete_ne by done. by eapply sound_file_nlink.
  - by eapply sound_file_nlink.
Qed.

(** The last steps: a promoted temporary is removed, if that works. *)
Lemma finish_unlock_wp s winner (promoted : bool) u fs :
  let I := sound_at (content (main_path s) fs) (cd_bytes winner) (main_path s) in
  forall fs2, I fs2 -> unlocked_as s winner u -> plain (main_path s) fs2 = Some (cd_bytes winner) ->
  (promoted = true -> cd_path winner <> main_path s /\ installed (main_path s) (cd_bytes winner) fs2) ->
  wp T I (match! (if promoted && bool_decide (extension (cd_path winner) = Some (bs "tmp"))
                  then remove_file (cd_path winner) else io_ret (Ok tt)) with _ => io_ret (Ok u))
    (unlocked_post s winner) fs2.
Proof.
  cbn zeta. intros fs2 HI Hu Hp Hpro. io_step.
  destruct (promoted && _) eqn:E; [|by io_step; io_step]. apply andb_true_iff in E as [-> _].
  destruct (Hpro eq_refl) as [Hne Hin]. unfold remove_file.
  apply calm_update; [done|done|by intros; io_step| |];
    (destruct (entry (cd_path winner) fs2) as [[i ino]|]; [case_bool_decide|]); cbn [fst snd];
    try done; try (by io_step).
  - by apply sound_at_unlink_other.
  - io_step. split; [done|]. by apply plain_unlink_other.
Qed.

Lemma install_winner_wp s winner fs :
  settled (main_path s) fs -> (cd_path winner = main_path s -> plain (main_path s) fs = Some (cd_bytes winner)) ->
  wp T (sound_at (content (main_path s) fs) (cd_bytes winner) (main_path s)) (install_winner s winner)
    (unlocked_post s winner) fs.
Proof.
  intros Hs Hmain. unfold install_winner. io_step. unfold lift_io. io_step.
  pose proof (settled_sound _ (cd_bytes winner) _ Hs) as Hsound.
  assert (forall fs2 (promoted : bool), sound_at (content (main_path s) fs) (cd_bytes winner) (main_path s) fs2 ->
    plain (main_path s) fs2 = Some (cd_bytes winner) ->
    (if promoted then main_path s else cd_path winner) = main_path s ->
    (promoted = true -> cd_path winner <> main_path s /\ installed (main_path s) (cd_bytes winner) fs2) ->
    let selected := mkSelected (main_path s) (if promoted then main_path s else cd_path winner)
                      (cd_counter winner) (sha256 (cd_bytes winner)) in
    wp T (sound_at (content (main_path s) fs) (cd_bytes winner) (main_path s))
      (let! writer := writer_authenticated s selected in
       match! (if promoted && bool_decide (extension (cd_path winner) = Some (bs "tmp"))
               then remove_file (cd_path winner) else io_ret (Ok tt)) with _ =>
       io_ret (Ok (mkUnlocked (oc_vault (cd_container winner)) (oc_wallet (cd_container winner))
         (oc_journal (cd_container winner)) (oc_activity (cd_container winner))
         (oc_has_unknown_sections (cd_container winner)) selected writer))) (unlocked_post s winner) fs2) as Hrest.
  { intros fs2 promoted HI Hp Hpath Hpro selected. io_step. apply writer_authenticated_wp; [done|done|].
    apply finish_unlock_wp; [done| |done|done].
    subst selected. cbn [sc_counter sc_sha256]. rewrite Hpath. by repeat split. }
  destruct (bool_decide_reflect (cd_path winner = main_path s)) as [Hp|Hp]; cbn [negb].
  - io_step. cbn [map_err]. by apply (Hrest fs false); auto.
  - eapply wp_mono; [apply write_atomic_impl_wp; [done|done|exact Hsound]|].
    intros [[]|e|] fs' [Hw _]; cbn [map_err]; [|done|exact (wo_result _ _ _ _ _ Hw)].
    destruct (wo_result _ _ _ _ _ Hw) as [Hin _].
    apply (Hrest fs' true); [exact (wo_sound _ _ _ _ _ Hw)|by apply installed_plain|done|done].
Qed.
End install.

(** ** What unlocking promises *)
Section promise.
Context `{Sha256} `{VaultPrimsLaws} `{TempfileLaws}.

(** The files unlocking looks at: the main file and the survivors. *)
Definition candidate (s : VaultStore) (fs : FsState) (p : PathBuf) : Prop :=
  is_Some (names fs !! p) /\ (p = main_path s \/ (p_dir p = p_dir (main_path s) /\
    (is_residue (main_path s) ".tmp" p = true \/ is_residue (main_path s) ".orphan" p = true))).

Lemma open_container_keyslot data password cont :
  open_container data password = Ok cont -> keyslot_prefix data = Some (slice data 0 KEYSLOT_LEN).
Proof.
  intros E. unfold open_container in E. rinv E. apply open_keyslot_Ok in Hm as (op & Ho & _).
  apply keyslot_open_length in Ho. unfold keyslot_prefix, get_range.
  by rewrite (proj2 (Nat.leb_le 0 KEYSLOT_LEN)), (proj2 (Nat.leb_le KEYSLOT_LEN (length data))) by lia.
Qed.

(** With an authenticated main file the candidates considered are those of its keyslot. *)
Lemma considered_generation password main fs seen sn mdata :
  scanned password main fs seen sn -> sn_main_authenticated sn = true -> plain main fs = Some mdata ->
  (exists mcont, open_container mdata password = Ok mcont) /\
  forall c, c ∈ considered main sn <-> c ∈ sn_opened sn /\ keyslot_prefix (cd_bytes c) = keyslot_prefix mdata.
Proof.
  intros Hsn Hauth Hm. pose proof (proj1 (sc_main _ _ _ _ _ Hsn) Hauth) as (c0 & Hc0 & Hp0).
  assert (forall c, c ∈ sn_opened sn -> cd_path c = main ->
    cd_bytes c = mdata /\ open_container mdata password = Ok (cd_container c)) as Hmain.
  { intros c Hin Hp. destruct (sc_sound _ _ _ _ _ Hsn c Hin) as (_ & [Hr _] & Ho & _).
    rewrite Hp, Hm in Hr. injection Hr as Hr. by rewrite <- Hr in Ho. }
  destruct (Hmain c0 Hc0 Hp0) as [Hb0 Ho0]. split; [eauto|].
  unfold considered. rewrite Hauth. unfold retain_generation.
  destruct (List.find _ (sn_opened sn)) as [c1|] eqn:Ef.
  2:{ exfalso. pose proof (List.find_none _ _ Ef c0 (proj1 (list_elem_of_In _ _) Hc0)) as Hf. cbn in Hf.
      by rewrite bool_decide_eq_true_2 in Hf. }
  apply List.find_some in Ef as [Hin1 Hp1]. apply list_elem_of_In in Hin1. apply bool_decide_eq_true in Hp1.
  destruct (Hmain c1 Hin1 Hp1) as [-> Ho1]. rewrite (open_container_keyslot _ _ _ Ho1).
  intros c. rewrite filter_bool_elem, orb_true_iff, !bool_decide_eq_true. split.
  - intros [Hin [Hp|Hk]]; [|by split]. split; [done|]. destruct (Hmain c Hin Hp) as [-> _].
    by eapply open_container_keyslot.
  - intros [Hin Hk]. split; [done|by right].
Qed.

(** What an unlocked wallet is: the newest readable save among the candidates the password
    opens, of the main file's keyslot where there is a main file, which must open. *)
Record newest (s : VaultStore) (password : bytes) (fs : FsState) (p : PathBuf) (data : bytes) (cont : OpenedContainer) : Prop := {
  nw_candidate : candidate s fs p;
  nw_readable : readable (main_path s) fs p data;
  nw_opens : open_container data password = Ok cont;
  nw_main : is_Some (names fs !! main_path s) -> exists mdata, plain (main_path s) fs = Some mdata /\
    (exists mcont, open_container mdata password = Ok mcont) /\ keyslot_prefix data = keyslot_prefix mdata;
  nw_newest : forall q d c, candidate s fs q -> readable (main_path s) fs q d -> open_container d password = Ok c ->
    (forall mdata, plain (main_path s) fs = Some mdata -> keyslot_prefix d = keyslot_prefix mdata) ->
    oc_save_counter c <= oc_save_counter cont /\ (oc_save_counter c = oc_save_counter cont -> d = data)
}.

Lemma select_newest s password fs seen sn winner (present : bool) :
  scanned password (main_path s) fs seen sn -> (forall p, p ∈ seen <-> candidate s fs p) ->
  (present = true <-> is_Some (names fs !! main_path s)) -> select (main_path s) present sn = Ok winner ->
  newest s password fs (cd_path winner) (cd_bytes winner) (cd_container winner) /\
  cd_counter winner = oc_save_counter (cd_container winner).
Proof.
  intros Hsn Hseen Hpresent Hsel. apply select_Ok in Hsel as (Hauth & Hin & Hmax).
  assert (winner ∈ sn_opened sn) as Hop.
  { unfold considered in Hin. destruct (sn_main_authenticated sn); [by eapply retain_generation_elem|done]. }
  destruct (sc_sound _ _ _ _ _ Hsn winner Hop) as (Hs & Hr & Ho & Hc). split; [|done].
  assert (sn_main_authenticated sn = true -> exists mdata, plain (main_path s) fs = Some mdata) as Hmain.
  { intros Ha. apply (sc_main _ _ _ _ _ Hsn) in Ha as (c & Hcin & Hp).
    destruct (sc_sound _ _ _ _ _ Hsn c Hcin) as (_ & [Hpl _] & _). rewrite Hp in Hpl. eauto. }
  split; [by apply Hseen|done|done| |].
  - intros Hsome. specialize (Hauth (proj2 Hpresent Hsome)). destruct (Hmain Hauth) as [mdata Hmd].
    destruct (considered_generation _ _ _ _ _ _ Hsn Hauth Hmd) as [Hm Hcons].
    exists mdata. split; [done|]. split; [done|]. by apply Hcons.
  - intros q d c Hq Hrq Hoq Hkey. rewrite <- Hc.
    apply (Hmax (mkCandidate q (oc_save_counter c) d c)).
    pose proof (sc_complete _ _ _ _ _ Hsn q d c (proj2 (Hseen q) Hq) Hrq Hoq) as Hcin.
    destruct (sn_main_authenticated sn) eqn:Ea.
    + destruct (Hmain eq_refl) as [mdata Hmd]. apply (considered_generation _ _ _ _ _ _ Hsn Ea Hmd).
      split; [done|]. by apply Hkey.
    + unfold considered. by rewrite Ea.
Qed.

Definition unlock_post (s : VaultStore) (password : bytes) (fs : FsState) (r : res VaultStoreError UnlockedVault) (fs' : FsState) : Prop :=
  match r with
  | Ok u => exists p data cont, newest s password fs p data cont /\
      unlocked_as s (mkCandidate p (oc_save_counter cont) data cont) u /\ plain (main_path s) fs' = Some data
  | Err _ => True
  | Panic => False
  end.

(** Once it is known whether there is a main file. *)
Lemma unlock_rest_wp T `{Calm T} s password fs (present : bool) :
  settled (main_path s) fs -> in_dirs fs -> (present = true <-> is_Some (names fs !! main_path s)) ->
  wp T (fun _ => True)
    (let! survivors := lift_io (list_survivors (main_path s)) in
     let! sn := scan_candidates password (main_path s) ((if present then [main_path s] else []) ++ survivors) scan_start in
     let! winner := io_ret (select (main_path s) present sn) in
     install_winner s winner) (unlock_post s password fs) fs.
Proof.
  intros Hs Hd Hpresent. io_step. unfold lift_io. io_step. unfold list_survivors. io_step.
  apply try_list_residue_wp; [done|done|done|]. intros temps Ht. specialize (Ht Hd) as [_ Ht].
  io_step. apply try_list_residue_wp; [done|done|done|]. intros orphans Ho. specialize (Ho Hd) as [_ Ho].
  io_step. cbn [map_err]. io_step.
  apply (scan_candidates_wp _ _ fs T _ I _ [] scan_start); [by apply scanned_start|done|].
  cbn [app]. set (seen := _ ++ _). intros sn Hsn.
  assert (forall p, p ∈ seen <-> candidate s fs p) as Hseen.
  { intros p. subst seen. unfold candidate. rewrite !elem_of_app, Ht, Ho.
    destruct present; [rewrite list_elem_of_singleton|rewrite elem_of_nil].
    - pose proof (proj1 Hpresent eq_refl). intuition (subst; auto).
    - assert (p = main_path s -> ~ is_Some (names fs !! p)) as Hno
        by (intros -> Hsome; by apply Hpresent in Hsome). intuition. }
  io_step. io_step. pose proof (select_no_panic (main_path s) present sn).
  destruct (select (main_path s) present sn) as [winner|e|] eqn:Esel; [|done|done].
  destruct (select_newest _ _ _ _ _ _ _ Hsn Hseen Hpresent Esel) as [Hnew Hc].
  eapply wp_log_mono; [|done]. eapply wp_mono; [apply install_winner_wp; [done|done|done|]|].
  - intros Hp. rewrite <- Hp. apply (nw_readable _ _ _ _ _ _ Hnew).
  - intros [u|e|] fs' Hpost; [|done|done]. destruct Hpost as [Hu Hpl].
    exists (cd_path winner), (cd_bytes winner), (cd_container winner). split; [done|]. split; [|done].
    rewrite <- Hc. by destruct winner.
Qed.

Lemma unlock_wp T `{Calm T} s password fs :
  settled (main_path s) fs -> in_dirs fs ->
  wp T (fun _ => True) (unlock s password) (unlock_post s password fs) fs.
Proof.
  intros Hs Hd. unfold unlock. io_step. io_step.
  destruct (validate_wallet_name_cases (st_name s)) as [[-> _]|(? & -> & _)]; [|done].
  io_step. io_step. unfold symlink_metadata. io_step.
  { intros e [[Hg _] _]. rewrite bool_decide_eq_false_2 by done. by io_step. }
  destruct (entry (main_path s) fs) as [[i ino]|] eqn:E.
  - io_step. apply (unlock_rest_wp T s password fs true); [done|done|].
    apply entry_Some in E as [-> _]. split; eauto.
  - cbn [io_kind]. rewrite bool_decide_eq_true_2 by done. io_step.
    apply (unlock_rest_wp T s password fs false); [done|done|]. split; [done|]. intros [i Hi]. exfalso.
    destruct Hs as [_ Hino]. destruct (Hino i Hi) as (ino & Hx & _).
    by rewrite (proj2 (entry_Some _ _ _ _) (conj Hi Hx)) in E.
Qed.

(** C24: unlocking picks the newest save: of the main file and its survivors, those the
    password opens, with the main file's keyslot where there is a main file, none has a
    higher counter than what is handed out, and any with the same counter is the same file;
    a main file that is there must open; and what was picked is then the main file, owned
    by the writer. *)
Theorem unlock_picks_newest (s : VaultStore) (password : bytes) (fs : FsState)
    (Hs : settled (main_path s) fs) (Hd : in_dirs fs) :
  wp calm (fun _ => True) (unlock s password)
    (fun r fs' => match r with
       | Ok u => exists p data cont, newest s password fs p data cont /\
           unlocked_as s (mkCandidate p (oc_save_counter cont) data cont) u /\ plain (main_path s) fs' = Some data
       | Err _ => True
       | Panic => False
       end) fs.
Proof. apply unlock_wp; [apply _|done|done]. Qed.
End promise.

(** ** Quarantine *)

Lemma quarantine_selected_wp `{Sha256} `{TempfileLaws} s selected fs :
  wp calm (fun _ => True) (quarantine_selected s selected)
    (fun r fs' => keeps fs fs' /\
       match r with
       | Ok p => p = orphan_path s (sc_counter selected) /\ exists data,
           plain (sc_path selected) fs = Some data /\ sha256 data = sc_sha256 selected /\
           plain p fs' = Some data /\ plain (sc_path selected) fs' = Some data
       | Err _ => True
       | Panic => False
       end) fs.
Proof.
  pose proof (keeps_refl fs) as Hrefl. unfold quarantine_selected.
  case_bool_decide; [|by io_step]. io_step. unfold lift_io. io_step.
  apply read_regular_wp; [apply _|done|by intros|]. intros data Hp. cbn [map_err].
  case_bool_decide as Hsha; [|by io_step]. io_step. io_step.
  eapply wp_mono; [apply install_orphan_copy_wp; apply _|].
  intros [[]|e|] fs' Hc; cbn [map_err]; [|by split; [apply (cp_keeps _ _ _ _ _ Hc)|]|by destruct Hc].
  pose proof (cp_keeps _ _ _ _ _ Hc) as Hk. pose proof (cp_result _ _ _ _ _ Hc) as Ho.
  io_step. io_step. apply read_regular_wp; [apply _|done|by intros|]. intros installed Hi. cbn [map_err].
  io_step. io_step. apply read_regular_wp; [apply _|done|by intros|]. intros after Ha. cbn [map_err].
  destruct (bool_decide (installed = data) && _ && _); io_step; [|by split].
  split; [done|]. split; [done|]. exists data. split; [done|]. split; [done|]. split; [done|]. by apply (proj1 Hk).
Qed.

(** Quarantining never costs a file: whatever fails, every file that could be read still
    reads the same, and what is safely on the disk stays there; and success means that the copy at the returned path, and the selected
    file itself, hold exactly the contents that were selected. *)
Lemma quarantine_keeps `{Sha256} `{TempfileLaws} (s : VaultStore) (selected : SelectedCandidate) (fs : FsState) :
  wp calm (fun _ => True) (quarantine_selected s selected)
    (fun r fs' => keeps fs fs' /\
       match r with
       | Ok p => p = orphan_path s (sc_counter selected) /\ exists data,
           plain (sc_path selected) fs = Some data /\ sha256 data = sc_sha256 selected /\
           plain p fs' = Some data /\ plain (sc_path selected) fs' = Some data
       | Err _ => True
       | Panic => False
       end) fs.
Proof. apply quarantine_selected_wp. Qed.

Lemma keyslot_reuse_equivalent_witness :
  valid_cache (H0 := toy_prims) (bs "pw") [] /\
  rmap fst (@open_candidate_reusing_keyslot toy_prims demo_file (bs "pw") []) = @open_container toy_prims demo_file (bs "pw").
Proof.
  split; [constructor|]. exact (proj1 (@keyslot_reuse_equivalent toy_prims demo_file (bs "pw") [] (Forall_nil_2 _))).
Defined.

Lemma unlock_picks_newest_witness :
  settled demo_target demo_disk /\ in_dirs demo_disk /\
  wp calm (fun _ => True) (@unlock toy_sha256 toy_prims toy_tempfile (mkStore (bs "w") (bs "bob")) (bs "pw"))
    (fun r fs' => match r with
       | Ok u => exists p data cont, @newest toy_prims (mkStore (bs "w") (bs "bob")) (bs "pw") demo_disk p data cont /\
           @unlocked_as toy_sha256 (mkStore (bs "w") (bs "bob")) (mkCandidate p (oc_save_counter cont) data cont) u /\
           plain (main_path (mkStore (bs "w") (bs "bob"))) fs' = Some data
       | Err _ => True
       | Panic => False
       end) demo_disk.
Proof.
  assert (in_dirs demo_disk) as Hd.
  { intros p i Hp. cbn in Hp. rewrite lookup_insert in Hp. case_decide; [subst|done]. cbn. by apply elem_of_singleton. }
  split; [exact demo_disk_settled|]. split; [exact Hd|].
  exact (@unlock_picks_newest toy_sha256 toy_prims toy_prims_laws toy_tempfile toy_tempfile_laws
    (mkStore (bs "w") (bs "bob")) (bs "pw") demo_disk demo_disk_settled Hd).
Defined.

Lemma quarantine_keeps_witness :
  let s := mkStore (bs "w") (bs "bob") in
  let selected := mkSelected demo_target demo_target 7 (@sha256 toy_sha256 [Byte.x6f]) in
  TempfileLaws (H := toy_tempfile) /\
  wp calm (fun _ => True) (@quarantine_selected toy_sha256 toy_tempfile s selected)
    (fun r fs' => keeps demo_disk fs' /\
       match r with
       | Ok p => p = orphan_path s (sc_counter selected) /\ exists data,
           plain (sc_path selected) demo_disk = Some data /\ @sha256 toy_sha256 data = sc_sha256 selected /\
           plain p fs' = Some data /\ plain (sc_path selected) fs' = Some data
       | Err _ => True
       | Panic => False
       end) demo_disk.
Proof.
  split; [exact toy_tempfile_laws|].
  exact (@quarantine_keeps toy_sha256 toy_tempfile toy_tempfile_laws (mkStore (bs "w") (bs "bob")) _ demo_disk).
Defined.
