(* ===== verification/Store.v ===== *)
(** * The store as a whole

    No code here: what the writer and the unlocking of a wallet achieve together when no
    step fails. *)

From Stdlib Require Import NArith Lia.
From stdpp Require Import gmap.
From S2P Require Import Prelude Ord Bytes Text Decimal Ids Digest VaultKeys Vault Fs Atomic Wallets Writer Destroy Unlock.

Section store.
Context `{Sha256} `{VaultPrimsLaws} `{TempfileLaws} `{!TempfileWorks}.

(** What a vault made from the password seals. *)
Definition made_from (password : bytes) (v : Vault) : Prop :=
  exists params e e1, create_named_with password params (v_display_name v) e = Ok (v, e1) /\
                      utf8_valid (v_display_name v) = true.

Lemma made_from_valid password v : made_from password v -> validate_display_name (v_display_name v) = Ok tt.
Proof. intros (params & e & e1 & Hc & _). by apply create_named_with_Ok in Hc as (_ & _ & ? & _). Qed.

Lemma save_sections_last wallet journal activity :
  let sections := save_sections wallet journal activity in
  default [] (last_of PWallet sections None) = wallet /\ default [] (last_of PJournal sections None) = journal /\
  last_activity sections ActAbsent = match activity with Some a => ActPresent a | None => ActAbsent end.
Proof. by destruct activity. Qed.

Lemma sealed_opens password v c wallet journal activity e sealed e' :
  made_from password v -> c <= u64_max ->
  seal_container v c (save_sections wallet journal activity) e = Ok (sealed, e') ->
  read_save_counter sealed = Ok c /\
  open_container sealed password = Ok (mkContainer v wallet journal
    (match activity with Some a => ActPresent a | None => ActAbsent end) c false).
Proof.
  intros (params & e0 & e1 & Hc & Hu) Hle Hs.
  destruct (seal_open_container _ _ _ _ _ _ _ _ _ _ _ Hc Hu Hle Hs) as (_ & Ho & Hr & _).
  split; [done|]. rewrite Ho. by destruct (save_sections_last wallet journal activity) as (-> & -> & ->).
Qed.

Lemma smooth_read p (Q : res io_Error bytes -> FsState -> Prop) data fs :
  plain p fs = Some data -> Q (Ok data) fs -> wp smooth (fun _ => True) (read_regular_nofollow p) Q fs.
Proof.
  intros Hp HQ. apply read_regular_wp; [apply _|done| |].
  - intros e [Hno _]%smooth_read_error. congruence.
  - intros d Hd. rewrite Hp in Hd. by injection Hd as <-.
Qed.

(** The outcome of a save where nothing fails. *)
Definition saved (w : VaultWriter) (v : Vault) (sections : list (Purpose * bytes)) (e : entropy) (fs : FsState)
    (r : res Empty_set (res VaultStoreError WriteReceipt * VaultWriter * entropy)) (fs' : FsState) : Prop :=
  let main := main_path (vw_store w) in
  let c := vw_committed_counter w + 1 in
  exists sealed e', seal_container v c sections e = Ok (sealed, e') /\
    r = Ok (Ok (mkReceipt c main (sha256 sealed)), mkWriter (vw_store w) c (Some (sha256 sealed)) None true, e') /\
    installed main sealed fs' /\ dirs fs' = dirs fs /\ forall q, q <> main -> names fs' !! q = names fs !! q.

Lemma save_sync_works_wp password w v wallet journal activity e fs :
  let sections := save_sections wallet journal activity in
  made_from password v -> p_dir (main_path (vw_store w)) ∈ dirs fs -> settled (main_path (vw_store w)) fs ->
  ready w v sections e fs ->
  wp smooth (fun _ => True) (save_sync w v wallet journal activity e) (saved w v sections e fs) fs.
Proof.
  intros sections Hv Hdir Hs Hready. unfold save_sync. io_step.
  apply prepare_wp; [apply _|done|by eapply made_from_valid| |].
  { intros err []. split; [apply smooth_no_hazard|done]. }
  cbn zeta. fold sections. intros sealed e' Hh Hc Hseal.
  assert (vw_committed_counter w + 1 <= u64_max) as Hle by lia.
  destruct (sealed_opens password v _ _ _ _ _ _ _ Hv Hle Hseal) as [Hcount _].
  io_step. unfold execute. cbn. io_step. unfold lift_vault. io_step. rewrite Hcount. cbn. rewrite N.eqb_refl.
  io_step. unfold lift_io. io_step.
  set (fresh := match vw_committed_sha256 w with Some _ => false | None => true end).
  assert (wp smooth (fun _ => True)
    (if fresh then write_atomic_new (main_path (vw_store w)) sealed else write_atomic (main_path (vw_store w)) sealed)
    (fun r fs' => r = Ok tt /\ write_outcome (main_path (vw_store w)) sealed fs (Ok tt) fs') fs) as Hw.
  { replace (if fresh then _ else _) with (write_atomic_impl (main_path (vw_store w)) sealed fresh)
      by (by destruct fresh).
    destruct Hready as (_ & Hinst & _). unfold installed_checked in Hinst.
    apply write_atomic_impl_works; [done| | |by apply settled_sound].
    - intros i ino E. subst fresh. destruct (vw_committed_sha256 w).
      + split; [done|]. destruct Hinst as (d & Hd & _). apply plain_Some in Hd as (j & x & E' & Hk & _). congruence.
      + destruct Hinst as [Hno _]. congruence.
    - intros Hfresh. subst fresh. destruct (vw_committed_sha256 w); [done|]. destruct Hinst as [Hno _].
      destruct (names fs !! _) as [i|] eqn:En; [|done]. destruct Hs as [_ Hi].
      destruct (Hi i En) as (ino & Ei & _). by rewrite (proj2 (entry_Some _ _ _ _) (conj En Ei)) in Hno. }
  eapply wp_mono; [exact Hw|]. intros r fs' [-> Ho]. cbn.
  destruct (wo_result _ _ _ _ _ Ho) as [Hin Hrest].
  io_step. io_step. apply (smooth_read _ _ sealed); [by apply installed_plain|]. cbn.
  rewrite bool_decide_eq_true_2 by done. io_step.
  unfold consume. cbn. rewrite N.eqb_refl, !bool_decide_eq_true_2 by done. cbn. io_step.
  exists sealed, e'. split; [done|]. split.
  { revert Hh. unfold is_healthy, set_committed, set_pending. cbn. by destruct (vw_healthy w). }
  split; [done|]. split; [apply (wo_dirs _ _ _ _ _ Ho)|]. intros q Hq. by apply Hrest.
Qed.

(** Where no step fails every save of a ready writer is made, and leaves the writer
    ready for the next one for as long as there are numbers and sealing works. *)
Lemma save_always_succeeds (password : bytes) (w : VaultWriter) (v : Vault) (wallet journal : bytes)
    (activity : option bytes) (e : entropy) (fs : FsState) (Hv : made_from password v)
    (Hdir : p_dir (main_path (vw_store w)) ∈ dirs fs) (Hs : settled (main_path (vw_store w)) fs)
    (Hready : ready w v (save_sections wallet journal activity) e fs) :
  wp smooth (fun _ => True) (save_sync w v wallet journal activity e)
    (fun r fs' => exists receipt w' e', r = Ok (Ok receipt, w', e') /\
       wr_counter receipt = vw_committed_counter w + 1 /\
       p_dir (main_path (vw_store w')) ∈ dirs fs' /\ settled (main_path (vw_store w')) fs' /\
       forall sections' e2, vw_committed_counter w' < u64_max ->
         is_ok (seal_container v (vw_committed_counter w' + 1) sections' e2) = true -> ready w' v sections' e2 fs') fs.
Proof.
  eapply wp_mono; [by eapply save_sync_works_wp|].
  intros r fs' (sealed & e' & Hseal & -> & Hin & Hdirs & Hnames).
  eexists _, _, e'. split; [done|]. cbn. split; [done|]. split; [by rewrite Hdirs|].
  split; [by eapply installed_settled|]. intros sections' e2 Hlt Hok. split; [done|]. split; [|by split].
  exists sealed. split; [by apply installed_plain|]. split; [done|].
  destruct Hready as (_ & _ & Hlt' & _). assert (vw_committed_counter w + 1 <= u64_max) as Hle by lia.
  by destruct (sealed_opens password v _ _ _ _ _ _ _ Hv Hle Hseal).
Qed.

(** A wallet is made: a writer for it, and the first save. *)
Definition create_wallet (s : VaultStore) (v : Vault) (wallet journal : bytes) (activity : option bytes) (e : entropy)
  : IO VaultStoreError (WriteReceipt * VaultWriter) :=
  let! w := writer_for_new s in
  match! save_sync w v wallet journal activity e with r =>
  io_ret (match r with Ok (Ok receipt, w, _) => Ok (receipt, w) | Ok (Err err, _, _) => Err err | _ => Panic end).

(** The main file alone wins. *)
Lemma select_alone main data cont first_err plausible cached :
  is_Some (keyslot_prefix data) ->
  select main true (mkScan [mkCandidate main (oc_save_counter cont) data cont] first_err true plausible cached)
  = Ok (mkCandidate main (oc_save_counter cont) data cont).
Proof.
  intros [k Hk]. set (c := mkCandidate main (oc_save_counter cont) data cont).
  assert (retain_generation main [c] = [c]) as Hr.
  { unfold retain_generation. cbn. rewrite !(bool_decide_eq_true_2 (main = main)) by done. cbn. by rewrite Hk. }
  unfold select. cbn [sn_main_authenticated sn_opened negb andb]. rewrite Hr. cbn [length].
  rewrite bool_decide_eq_false_2 by done. unfold top_counter. cbn [fold_right first_at existsb].
  rewrite N.max_0_r, N.eqb_refl. cbn [expect rbind andb]. by rewrite (bool_decide_eq_true_2 (cd_bytes c = cd_bytes c)).
Qed.

(** Unlocking where the main file stands alone. *)
Lemma unlock_alone_wp s password data cont fs :
  valid_name (st_name s) -> plain (main_path s) fs = Some data -> no_residue (main_path s) fs ->
  open_container data password = Ok cont -> read_save_counter data = Ok (oc_save_counter cont) ->
  wp smooth (fun _ => True) (unlock s password)
    (fun r fs' => exists u, r = Ok u /\ unlocked_as s (mkCandidate (main_path s) (oc_save_counter cont) data cont) u) fs.
Proof.
  intros Hname Hp Hno Ho Hcount. unfold unlock. io_step. io_step.
  destruct (validate_wallet_name_cases (st_name s)) as [[-> _]|(? & _ & Hbad)]; [|done].
  pose proof Hp as (i & ino & E & _)%plain_Some.
  io_step. io_step. unfold symlink_metadata. apply calm_query; [apply _|done|by intros ? []%smooth_never_fails|].
  rewrite E. io_step. io_step. unfold lift_io. io_step. unfold list_survivors. io_step.
  apply try_list_residue_wp; [apply _|done|by intros ? []%smooth_never_fails|]. intros temps Ht.
  rewrite (residue_list_nil (main_path s) ".tmp" fs temps) by auto.
  io_step. apply try_list_residue_wp; [apply _|done|by intros ? []%smooth_never_fails|]. intros orphans Hor.
  rewrite (residue_list_nil (main_path s) ".orphan" fs orphans) by auto.
  io_step. cbn [map_err app]. io_step. cbn [scan_candidates]. io_step. unfold scan_candidate.
  rewrite bool_decide_eq_true_2 by done. unfold read_candidate. io_step.
  apply (smooth_read _ _ data); [done|]. io_step. unfold scan_bytes. cbn [sn_cached scan_start].
  unfold open_candidate_reusing_keyslot. cbn [try_cached rbind]. pose proof (open_container_keyslot _ _ _ Ho) as Hk. unfold open_container in Ho. rinv Ho.
  rewrite Hm. cbn [rbind]. rewrite Ho. cbn [rbind sn_opened app sn_main_authenticated orb].
  rewrite (bool_decide_eq_true_2 (main_path s = main_path s)) by done. io_step.
  cbn [scan_start sn_opened sn_main_authenticated app orb]. rewrite select_alone by (rewrite Hk; eauto).
  io_step. io_step. unfold install_winner. cbn [cd_path]. rewrite bool_decide_eq_true_2 by done. cbn [negb].
  io_step. unfold lift_io. io_step. io_step. cbn [map_err andb]. io_step.
  apply writer_authenticated_wp; [apply _|done| |].
  { intros e []. split; [apply smooth_no_hazard|]. split; [done|]. by exists data. }
  io_step. io_step. io_step. eexists. split; [done|]. by repeat split.
Qed.

(** C22: a new wallet opens: where no step fails, making a wallet in an empty place and then
    unlocking it with the same password gives back the sections saved, the vault, and a
    writer that goes on from the first save. *)
Theorem create_then_unlock (s : VaultStore) (password : bytes) (v : Vault) (wallet journal : bytes)
    (activity : option bytes) (e : entropy) (fs : FsState)
    (Hv : made_from password v) (Hname : valid_name (st_name s)) (Hdir : st_dir s ∈ dirs fs)
    (Hs : settled (main_path s) fs) (Hnone : entry (main_path s) fs = None) (Hno : no_residue (main_path s) fs)
    (Hseal : is_ok (seal_container v 1 (save_sections wallet journal activity) e) = true) :
  wp smooth (fun _ => True)
    (let! (receipt, _) := create_wallet s v wallet journal activity e in
     let! u := unlock s password in
     io_ret (Ok (receipt, u)))
    (fun r fs' => exists receipt u, r = Ok (receipt, u) /\ wr_counter receipt = 1 /\
       ul_vault u = v /\ ul_wallet u = wallet /\ ul_journal u = journal /\
       ul_activity u = match activity with Some a => ActPresent a | None => ActAbsent end /\
       ul_writer u = mkWriter s 1 (Some (wr_file_sha256 receipt)) None true) fs.
Proof.
  io_step. unfold create_wallet. io_step. unfold writer_for_new. io_step. io_step.
  destruct (validate_wallet_name_cases (st_name s)) as [[-> _]|(? & _ & Hbad)]; [|done].
  unfold writer_fresh. io_step. apply nothing_at_wp; [apply _|done| |intros _].
  { intros err []. by split; [apply smooth_no_hazard|]. }
  io_step. apply no_survivors_wp; [apply _|done| |].
  { intros err []. by split; [apply smooth_no_hazard|]. }
  io_step. io_step. eapply wp_mono; [apply (save_sync_works_wp password); [done|done|done|]|].
  { split; [done|]. split; [by split|]. by split. }
  intros r fs' (sealed & e' & Hsl & -> & Hin & Hdirs & Hnames). io_step. io_step. cbn [vw_committed_counter] in Hsl.
  destruct (sealed_opens password v 1 _ _ _ _ _ _ Hv ltac:(done) Hsl) as [Hcount Ho].
  pose proof (installed_plain _ _ _ Hin) as Hp. cbn [main_path vw_store] in *.
  eapply wp_mono; [eapply (unlock_alone_wp s password sealed); [done|exact Hp| |exact Ho|exact Hcount]|].
  - destruct Hno as [Hd Hno]. split.
    + intros p i Hi. rewrite Hdirs. destruct (decide (p = main_path s)) as [->|Hne]; [done|].
      rewrite Hnames in Hi by done. by eapply Hd.
    + intros p Hpd Hr. rewrite Hnames; [by apply Hno|]. intros ->.
      destruct Hr as [Hr|Hr]; apply is_residue_survivor in Hr; auto; by apply main_not_survivor in Hr.
  - intros r fs2 (u & -> & Hu & Hw & Hj & Ha & _ & Hwr). io_step. eexists _, u. split; [done|]. by cbn in *.
Qed.
End store.

Lemma demo_made_from : @made_from toy_prims (bs "pw") demo_vault.
Proof. exists KDF_FLOOR, demo_entropy, (drop 72 demo_entropy). by vm_compute. Qed.

Lemma empty_disk_no_residue main : no_residue main empty_disk.
Proof. by split. Qed.

Lemma save_always_succeeds_witness :
  @ready toy_sha256 toy_prims demo_writer demo_vault (save_sections [Byte.x01] [Byte.x02] None) demo_entropy empty_disk /\
  wp smooth (fun _ => True)
    (@save_sync toy_sha256 toy_prims toy_tempfile demo_writer demo_vault [Byte.x01] [Byte.x02] None demo_entropy)
    (fun r fs' => exists receipt w' e', r = Ok (Ok receipt, w', e') /\
       wr_counter receipt = vw_committed_counter demo_writer + 1 /\
       p_dir (main_path (vw_store w')) ∈ dirs fs' /\ settled (main_path (vw_store w')) fs' /\
       forall sections' e2, vw_committed_counter w' < u64_max ->
         is_ok (@seal_container toy_prims demo_vault (vw_committed_counter w' + 1) sections' e2) = true ->
         @ready toy_sha256 toy_prims w' demo_vault sections' e2 fs') empty_disk.
Proof.
  assert (@ready toy_sha256 toy_prims demo_writer demo_vault (save_sections [Byte.x01] [Byte.x02] None)
    demo_entropy empty_disk) as Hr.
  { split; [done|]. split; [split; [done|apply empty_disk_no_residue]|]. split; [done|]. vm_compute. reflexivity. }
  split; [exact Hr|].
  refine (@save_always_succeeds toy_sha256 toy_prims toy_prims_laws toy_tempfile toy_tempfile_laws toy_tempfile_works
    (bs "pw") demo_writer demo_vault [Byte.x01] [Byte.x02] None demo_entropy empty_disk demo_made_from _
    (empty_disk_settled _) Hr).
  by change (bs "w" ∈ ({[bs "w"]} : gset bytes)); apply elem_of_singleton.
Defined.

Lemma create_then_unlock_witness :
  valid_name (bs "bob") /\
  wp smooth (fun _ => True)
    (let! (receipt, _) := @create_wallet toy_sha256 toy_prims toy_tempfile (mkStore (bs "w") (bs "bob")) demo_vault
        [Byte.x01] [Byte.x02] None demo_entropy in
     let! u := @unlock toy_sha256 toy_prims toy_tempfile (mkStore (bs "w") (bs "bob")) (bs "pw") in
     io_ret (Ok (receipt, u)))
    (fun r fs' => exists receipt u, r = Ok (receipt, u) /\ wr_counter receipt = 1 /\
       ul_vault u = demo_vault /\ ul_wallet u = [Byte.x01] /\ ul_journal u = [Byte.x02] /\
       ul_activity u = ActAbsent /\
       ul_writer u = mkWriter (mkStore (bs "w") (bs "bob")) 1 (Some (wr_file_sha256 receipt)) None true) empty_disk.
Proof.
  assert (valid_name (bs "bob")) as Hn by (by apply is_ok_valid).
  split; [exact Hn|].
  refine (@create_then_unlock toy_sha256 toy_prims toy_prims_laws toy_tempfile toy_tempfile_laws toy_tempfile_works
    (mkStore (bs "w") (bs "bob")) (bs "pw") demo_vault [Byte.x01] [Byte.x02] None demo_entropy empty_disk
    demo_made_from Hn _ (empty_disk_settled _) _ (empty_disk_no_residue _) _).
  - by change (bs "w" ∈ ({[bs "w"]} : gset bytes)); apply elem_of_singleton.
  - done.
  - vm_compute. reflexivity.
Defined.
