(* ===== verification/Lock.v ===== *)
(** * The launch folder and its lock (crates/cc-wallet-storage/src/paths.rs and error.rs)

    The folder the wallet is started from is checked, locked for one instance of the program
    and probed before anything is stored in it. *)

From Stdlib Require Import NArith Lia.
From stdpp Require Import gmap.
From S2P Require Import Prelude Ord Bytes Text Decimal Ids VaultKeys Fs Atomic Destroy.

(** ** error.rs *)
Inductive StorageError :=
| CurrentDirectory (e : io_Error)
| InvalidStartupRoot (path : bytes) (reason : bytes).

Definition StorageError_display (e : StorageError) : bytes :=
  match e with
  | CurrentDirectory error => bs "Could not access the folder CC Wallet was started from: " ++ io_text error
  | InvalidStartupRoot _ reason => bs "CC Wallet cannot use the folder it was started from: " ++ reason
  end.

(** ** The launch folder *)
Definition is_absolute (d : bytes) : bool := starts_with (bs "/") d.

Definition invalid_root (d : bytes) (reason : string) : StorageError := InvalidStartupRoot d (bs reason).

Definition validate_startup_cwd (d : bytes) : IO StorageError bytes :=
  check! is_absolute d
    else invalid_root d "the operating system returned a non-absolute current directory" ;;
  check! utf8_valid d
    else invalid_root d "the path contains non-UTF-8 bytes and cannot be shown exactly in the wallet UI" ;;
  check! negb (has_control d)
    else invalid_root d "the path contains control characters and cannot be shown safely in the wallet UI" ;;
  let! kind := io_map_err (fun error => InvalidStartupRoot d
                 (bs "could not inspect the existing directory: " ++ io_text error)) (file_type_at d) in
  check! bool_decide (kind = Directory) else invalid_root d "the path is not an existing real directory" ;;
  io_ret (Ok d).

(** [current] is what the operating system says the current directory is. *)
Definition resolve_startup_cwd (current : res io_Error bytes) : IO StorageError bytes :=
  let! d := io_ret (map_err CurrentDirectory current) in
  validate_startup_cwd d.

(** ** The process

    Its number, what reading /proc/self/stat gives, and the open file it locks with. *)
Record Process := mkProcess { pr_id : N; pr_stat : res io_Error bytes; pr_fd : N }.

Definition process_start_token (stat : res io_Error bytes) : res io_Error bytes :=
  let? stat := stat in
  let? (_, rest) := ok_or (rsplit_once (byte_of 41) stat) (mkIo InvalidData (bs "malformed /proc/self/stat")) in
  ok_or (nth_error (split_whitespace rest) 19) (mkIo InvalidData (bs "missing process start token")).

Definition owner_record (pr : Process) : res io_Error bytes :=
  let? token := process_start_token (pr_stat pr) in
  Ok (bs "pid=" ++ print_dec (pr_id pr) ++ [Byte.x0a] ++ bs "start_ticks=" ++ token ++ [Byte.x0a]).

(** ** Identity checks *)
Definition io_at (operation : string) (p : bytes) (e : io_Error) : io_Error :=
  mkIo (io_kind e) (bs operation ++ bs " " ++ p ++ bs " failed: " ++ io_text e).

Definition at_path {A} (operation : string) (p : PathBuf) (m : IO io_Error A) : IO io_Error A :=
  io_map_err (io_at operation (display p)) m.
Definition at_dir {A} (operation : string) (d : bytes) (m : IO io_Error A) : IO io_Error A :=
  io_map_err (io_at operation d) m.

(** The metadata of the name and of the open file; [false] where either cannot be read. *)
Definition compare_metadata (p : PathBuf) (h : N) (agree : Metadata -> Metadata -> bool) : IO io_Error bool :=
  match! symlink_metadata p with r =>
  match r with
  | Ok path_meta =>
      match! file_metadata h with r =>
      match r with
      | Ok file_meta => io_ret (Ok (agree path_meta file_meta))
      | Err _ => io_ret (Ok false)
      | Panic => io_ret Panic
      end
  | Err _ => io_ret (Ok false)
  | Panic => io_ret Panic
  end.

Definition same_file (p : PathBuf) (h : N) : IO io_Error bool := compare_metadata p h same_identity.

Definition safe_lock_identity (p : PathBuf) (h : N) : IO io_Error bool :=
  compare_metadata p h (fun path_meta file_meta =>
    is_file path_meta && negb (is_symlink path_meta) && negb (has_multiple_links path_meta)
    && is_file file_meta && negb (has_multiple_links file_meta) && same_identity path_meta file_meta).

(** ** The lock *)
Record InstanceLock := mkLock {
  il_file : option N;
  il_fd : N;
  il_path : PathBuf;
  il_dir : bytes;
  il_owner_record : bytes
}.

Inductive LockOutcome := Acquired (l : InstanceLock) | AlreadyRunning.

(** What happens once the lock file is open as [h] and locked. *)
Definition record_owner (pr : Process) (d : bytes) (p : PathBuf) (h : N) : IO io_Error LockOutcome :=
  let! safe := safe_lock_identity p h in
  check! safe else io_at "validating mandatory instance lock at" (display p)
    (mkIo InvalidData (bs "lock path is not the exact singly-linked regular file opened")) ;;
  let! _ := at_path "setting owner-only lock permissions at" p (set_permissions h 384) in
  let! record := at_path "creating lock owner record for" p (io_ret (owner_record pr)) in
  let! _ := at_path "truncating stale lock owner record at" p (set_len_0 h) in
  let! _ := at_path "seeking lock owner record at" p (rewind h) in
  let! _ := at_path "writing lock owner record at" p (write_all_at h 0 record) in
  let! _ := at_path "syncing lock owner record at" p (sync_all h) in
  let! safe := safe_lock_identity p h in
  check! safe else io_at "revalidating mandatory instance lock at" (display p)
    (mkIo InvalidData (bs "lock path changed while its owner record was written")) ;;
  let! _ := at_dir "syncing lock directory" d (sync_directory d) in
  io_ret (Ok (Acquired (mkLock (Some h) (pr_fd pr) p d record))).

Definition lock_and_record (pr : Process) (d : bytes) (p : PathBuf) (h : N) : IO io_Error LockOutcome :=
  let! locked := at_path "acquiring mandatory instance lock at" p (try_lock (pr_fd pr) h) in
  if negb locked then io_ret (Ok AlreadyRunning) else record_owner pr d p h.

(** [acquire_single_instance_lock]: unless the lock is handed out the file is dropped. *)
Definition acquire_single_instance_lock (pr : Process) (dir : bytes) : IO io_Error LockOutcome :=
  let! d := at_dir "resolving instance-lock directory" dir (canonicalize dir) in
  let p := mkPath d LOCK_FILE in
  let! h := at_path "opening instance lock at" p (open_create 384 p) in
  match! lock_and_record pr d p h with r =>
  match r with
  | Ok (Acquired l) => io_ret (Ok (Acquired l))
  | r => match! close (pr_fd pr) h with _ => io_ret r
  end.

(** [release_inner] on the open file [h]; [Ok tt] is where the file is dropped. *)
Definition release_file (l : InstanceLock) (h : N) : IO io_Error unit :=
  let p := il_path l in
  let! _ := at_path "seeking lock owner record at" p (rewind h) in
  let! held_record := at_path "reading lock owner record at" p (read_to_end h) in
  let! same := same_file p h in
  let! path_matches :=
    if same then
      match! fs_read p with r =>
      match r with
      | Ok data => io_ret (Ok (bool_decide (data = il_owner_record l) && bool_decide (held_record = il_owner_record l)))
      | Err _ => io_ret (Ok false)
      | Panic => io_ret Panic
      end
    else io_ret (Ok false) in
  check! path_matches else io_at "validating owned instance lock before release at" (display p)
    (mkIo InvalidData (bs "lock pathname, inode, or owner token changed")) ;;
  let! _ := at_dir "opening lock directory" (il_dir l) (open_directory (il_dir l)) in
  let! _ := at_dir "preflighting lock-directory sync" (il_dir l) (sync_directory_handle (il_dir l)) in
  let! _ := at_path "unlinking owned instance lock at" p (remove_file p) in
  match! sync_directory_handle (il_dir l) with _ =>
  match! close (il_fd l) h with _ =>
  io_ret (Ok tt).

(** [InstanceLock::release]: the outcome and the lock after it. *)
Definition release (l : InstanceLock) : IO Empty_set (res io_Error unit * InstanceLock) :=
  match il_file l with
  | None => io_ret (Ok (Ok tt, l))
  | Some h =>
      match! release_file l h with r =>
      match r with
      | Ok _ => io_ret (Ok (Ok tt, mkLock None (il_fd l) (il_path l) (il_dir l) (il_owner_record l)))
      | r => io_ret (Ok (r, l))
      end
  end.

(** Dropping the lock: a release that may fail, then the file goes if it is still there. *)
Definition drop_lock (l : InstanceLock) : IO Empty_set unit :=
  let! (_, l) := release l in
  match il_file l with
  | None => io_ret (Ok tt)
  | Some h => match! close (il_fd l) h with _ => io_ret (Ok tt)
  end.

(** ** The startup probe *)
Definition PROBE_PREFIX : bytes := bs ".ccwallet-storage-probe-".
Definition PROBE_BYTES : nat := 64.

(** [problems.join("; ")]. *)
Fixpoint join_problems (l : list bytes) : bytes :=
  match l with
  | [] => []
  | [x] => x
  | x :: l' => x ++ bs "; " ++ join_problems l'
  end.

(** [ProbeCleanup::cleanup] of one name; [file] is the probe file, once it was made. *)
Definition cleanup_path (file : option N) (p : PathBuf) : IO Empty_set (list bytes) :=
  match! symlink_metadata p with r =>
  match r with
  | Err error =>
      io_ret (Ok (if bool_decide (io_kind error = NotFound) then []
                  else [bs "could not inspect " ++ display p ++ bs ": " ++ io_text error]))
  | Ok _ =>
      match! (match file with Some h => safe_lock_identity p h | None => io_ret (Ok false) end) with owned =>
      match owned with
      | Ok true =>
          match! remove_file p with r =>
          match r with
          | Ok _ => io_ret (Ok [])
          | Err error => io_ret (Ok [bs "could not remove " ++ display p ++ bs ": " ++ io_text error])
          | Panic => io_ret Panic
          end
      | Panic => io_ret Panic
      | _ => io_ret (Ok [bs "refused to remove probe pathname whose inode changed: " ++ display p])
      end
  | Panic => io_ret Panic
  end.

(** [ProbeCleanup::cleanup]: the error, where there were problems. *)
Definition probe_cleanup (d : bytes) (first second : PathBuf) (file : option N) : IO Empty_set (option io_Error) :=
  let! problems1 := cleanup_path file first in
  let! problems2 := cleanup_path file second in
  match! sync_directory d with r =>
  let problems3 := match r with
                   | Err error => [bs "could not persist probe cleanup in " ++ d ++ bs ": " ++ io_text error]
                   | _ => []
                   end in
  let problems := problems1 ++ problems2 ++ problems3 in
  io_ret (match r with
          | Panic => Panic
          | _ => Ok (match problems with [] => None | _ => Some (io_other (join_problems problems)) end)
          end).

(** The verification that a name of the probe is gone. *)
Definition probe_gone (p : PathBuf) : IO io_Error unit :=
  match! symlink_metadata p with r =>
  match r with
  | Err error =>
      if bool_decide (io_kind error = NotFound) then io_ret (Ok tt)
      else io_ret (Err (io_at "verifying startup probe cleanup at" (display p) error))
  | Ok _ => io_ret (Err (io_at "verifying startup probe cleanup at" (display p)
                           (io_other (bs "probe residue remains after successful unlink"))))
  | Panic => io_ret Panic
  end.

(** The steps of the probe on its file [h]; [file.metadata()?] is passed on as it is. *)
Definition probe_steps (l : InstanceLock) (lock_file : N) (first second : PathBuf) (payload : bytes) (h : N)
  : IO io_Error unit :=
  let d := il_dir l in
  let! _ := at_path "setting startup probe owner-only at" first (set_permissions h 384) in
  let! safe := safe_lock_identity first h in
  check! safe else io_at "validating owner-only startup probe at" (display first)
    (mkIo InvalidData (bs "probe is not the exact singly-linked regular file opened")) ;;
  let! m := file_metadata h in
  check! N.land (i_mode (m_inode m)) 63 =? 0 else io_at "validating startup probe permissions at" (display first)
    (mkIo PermissionDenied (bs "probe permissions are not owner-only")) ;;
  let! _ := at_path "writing startup probe at" first (write_all_at h 0 payload) in
  let! _ := at_path "syncing startup probe at" first (sync_all h) in
  let! readback := at_path "reading back startup probe at" first (read_regular_nofollow first) in
  check! bool_decide (readback = payload) else io_at "comparing startup probe readback at" (display first)
    (mkIo InvalidData (bs "probe readback mismatch")) ;;
  match! symlink_metadata second with target =>
  match target with
  | Err error =>
      if bool_decide (io_kind error = NotFound) then
        let! _ := at_path "renaming startup probe to" second (rename first second) in
        let! safe := safe_lock_identity second h in
        check! safe else io_at "validating renamed startup probe at" (display second)
          (mkIo InvalidData (bs "renamed probe pathname does not identify the opened file")) ;;
        let! _ := at_dir "opening launch folder" d (open_directory d) in
        let! _ := at_dir "syncing renamed startup probe in" d (sync_directory_handle d) in
        let! _ := at_path "unlinking startup probe at" second (remove_file second) in
        let! _ := at_dir "syncing startup probe removal in" d (sync_directory_handle d) in
        let! _ := probe_gone first in
        let! _ := probe_gone second in
        let! safe := safe_lock_identity (il_path l) lock_file in
        check! safe else io_at "revalidating the held lock after startup storage probe at" (display (il_path l))
          (mkIo InvalidData (bs "lock pathname or inode changed during the probe")) ;;
        io_ret (Ok tt)
      else io_ret (Err (io_at "checking startup probe rename target at" (display second) error))
  | Ok _ => io_ret (Err (io_at "checking startup probe rename target at" (display second)
                           (mkIo AlreadyExists (bs "unpredictable probe target already exists"))))
  | Panic => io_ret Panic
  end.

(** The closure of [probe_storage_root], with what [cleanup.file] holds after it. *)
Definition probe_body (l : InstanceLock) (lock_file : N) (first second : PathBuf) (payload : bytes)
  : IO Empty_set (res io_Error unit * option N) :=
  match! at_path "creating owner-only startup probe at" first (open_create_new 384 first) with r =>
  match r with
  | Ok h => match! probe_steps l lock_file first second payload h with r => io_ret (Ok (r, Some h))
  | Err e => io_ret (Ok (Err e, None))
  | Panic => io_ret Panic
  end.

Section probe.
(** What [getrandom] says when it fails. *)
Variable rng_error : bytes.

Definition random_probe_bytes (n : nat) (e : entropy) : res io_Error (bytes * entropy) :=
  map_err (fun _ => io_other (bs "operating-system randomness failed: " ++ rng_error)) (draw n e).

Definition probe_token (e : entropy) : res io_Error (bytes * entropy) :=
  let? (raw, e) := random_probe_bytes 16 e in Ok (hex_lower_encode raw, e).

(** [InstanceLock::probe_storage_root]; [e] is the randomness left, on success. *)
Definition probe_storage_root (l : InstanceLock) (e : entropy) : IO io_Error entropy :=
  let d := il_dir l in
  let! lock_file := io_ret (ok_or (il_file l) (io_at "running startup storage probe without a held lock at" d
    (io_other (bs "the instance lock was already released")))) in
  let! safe := safe_lock_identity (il_path l) lock_file in
  check! safe else io_at "validating the held lock before startup storage probe at" (display (il_path l))
    (mkIo InvalidData (bs "lock pathname or inode changed before the probe")) ;;
  let! (first_token, e) := at_dir "creating an unpredictable probe name in" d (io_ret (probe_token e)) in
  let! (second_token, e) := at_dir "creating an unpredictable rename target in" d (io_ret (probe_token e)) in
  check! negb (bool_decide (first_token = second_token))
    else io_at "creating independent startup probe names in" d
      (io_other (bs "operating-system randomness repeated a probe token")) ;;
  let first := mkPath d (PROBE_PREFIX ++ first_token ++ bs ".written") in
  let second := mkPath d (PROBE_PREFIX ++ second_token ++ bs ".renamed") in
  let! (payload, e) := at_dir "creating random probe bytes in" d (io_ret (random_probe_bytes PROBE_BYTES e)) in
  match! probe_body l lock_file first second payload with r =>
  match r with
  | Ok (Ok tt, _) => io_ret (Ok e)
  | Ok (Err error, file) =>
      match! probe_cleanup d first second file with c =>
      match c with
      | Ok None => io_ret (Err error)
      | Ok (Some cleanup_error) =>
          io_ret (Err (mkIo (io_kind error) (io_text error ++ bs "; startup probe cleanup in " ++ d
                                             ++ bs " also failed: " ++ io_text cleanup_error)))
      | _ => io_ret Panic
      end
  | _ => io_ret Panic
  end.
End probe.

(** ** Exclusion

    The processes of the machine that lock the folder run this code: what one of them does
    between two steps of another respects the lock the other holds.  [held fd p record fs]:
    the open file [fd] holds the lock of the file named [p], which is as the lock's owner
    made it. *)
Record held (fd : N) (p : PathBuf) (record : bytes) (i : N) (fs : FsState) : Prop := {
  held_name : names fs !! p = Some i;
  held_file : exists ino, inodes fs !! i = Some ino /\ i_locked ino = Some fd /\ i_kind ino = Regular /\
                          i_nlink ino = 1 /\ i_data ino = record
}.

Record respects (fd : N) (p : PathBuf) (fs fs' : FsState) : Prop := {
  rs_files : forall i, is_Some (inodes fs !! i) -> is_Some (inodes fs' !! i);
  rs_locks : forall i ino, inodes fs !! i = Some ino -> i_locked ino = Some fd ->
    exists ino', inodes fs' !! i = Some ino' /\ i_locked ino' = Some fd;
  rs_named : forall i ino, inodes fs !! i = Some ino -> i_locked ino = Some fd -> names fs !! p = Some i ->
    names fs' !! p = Some i /\ inodes fs' !! i = Some ino
}.

(** Ticks at which others respect the locks of the open files [fds]. *)
Definition respectful (p : PathBuf) (fds : list N) (t : Tick) : Prop :=
  forall fd fs, fd ∈ fds -> respects fd p fs (t_change t fs).

Lemma respects_refl fd p fs : respects fd p fs fs.
Proof. split; eauto. Qed.

Lemma respectful_quiet p fds : respectful p fds quiet.
Proof. intros fd fs _. apply respects_refl. Qed.

Lemma held_stable fd p record i fs fs' : respects fd p fs fs' -> held fd p record i fs -> held fd p record i fs'.
Proof.
  intros [_ _ Hr] [Hn (ino & Hi & Hl & rest)]. destruct (Hr i ino Hi Hl Hn) as [Hn' Hi'].
  split; [done|]. by exists ino.
Qed.

(** Walking through a program under interference that keeps [J]. *)
Section stable.
Context (T : Tick -> Prop) (I J : FsState -> Prop).
Context (Hquiet : T quiet) (HJ : forall t f, T t -> J f -> J (t_change t f)) (HJI : forall f, J f -> I f).

Lemma stable_query {A} (f : FsState -> res io_Error A) (Q : res io_Error A -> FsState -> Prop) fs :
  J fs -> (forall f', J f' -> (forall e, Q (Err e) f') /\ Q (f f') f') -> wp T I (query f) Q fs.
Proof.
  intros Hfs HQ. apply (wp_stable T I J); [done|done|done|intros e t f' Hf|intros t f' Hf];
    destruct (HQ f' Hf); auto.
Qed.

Lemma stable_update {A} (f : FsState -> res io_Error A * FsState) (Q : res io_Error A -> FsState -> Prop) fs :
  J fs -> (forall f', J f' -> (forall e, Q (Err e) f') /\ I (snd (f f')) /\ Q (fst (f f')) (snd (f f'))) ->
  wp T I (update f) Q fs.
Proof.
  intros Hfs HQ. apply (wp_stable T I J); [done|done|done|intros e t f' Hf|intros t f' Hf];
    destruct (HQ f' Hf) as (? & ? & ?); auto.
Qed.
End stable.

Section exclusion.
Context (p : PathBuf) (fds : list N) (I : FsState -> Prop).
Notation T := (respectful p fds).

(** Both looks succeed or the answer is no. *)
Lemma compare_metadata_wp (J : FsState -> Prop) (h : N) (q : PathBuf) agree (Q : res io_Error bool -> FsState -> Prop) fs :
  (forall t f, T t -> J f -> J (t_change t f)) -> (forall f, J f -> I f) -> (forall f, J f -> is_Some (inodes f !! h)) ->
  J fs ->
  (forall f, J f -> Q (Ok false) f) ->
  (forall f1 i ino, J f1 -> entry q f1 = Some (i, ino) ->
     exists J2 : FsState -> Prop, (forall t f, T t -> J2 f -> J2 (t_change t f)) /\ (forall f, J2 f -> J f) /\ J2 f1 /\
       forall f2 ino2, J2 f2 -> inodes f2 !! h = Some ino2 -> Q (Ok (agree (mkMeta i ino) (mkMeta h ino2))) f2) ->
  wp T I (compare_metadata q h agree) Q fs.
Proof.
  intros HJ HI Hh Hfs Hno Hyes. unfold compare_metadata. apply wp_match.
  apply (stable_query T I J); [apply respectful_quiet|done|done|done|]. intros f1 Hf1.
  split; [intros e; apply wp_ret; auto|].
  destruct (entry q f1) as [[i ino]|] eqn:E; [|by apply wp_ret; auto].
  destruct (Hyes f1 i ino Hf1 E) as (J2 & HJ2 & HJ2J & Hf1' & HQ).
  apply wp_match. apply (stable_query T I J2); [apply respectful_quiet|done|auto|done|]. intros f2 Hf2.
  split; [intros e; apply wp_ret; auto|]. unfold at_handle.
  destruct (Hh f2 (HJ2J _ Hf2)) as [ino2 E2]. rewrite E2. apply wp_ret. auto.
Qed.

(** [h] is locked by [fd]; nobody takes that away. *)
Definition locked (fd h : N) (fs : FsState) : Prop := exists ino, inodes fs !! h = Some ino /\ i_locked ino = Some fd.
Definition owned (fd h : N) (fs : FsState) : Prop := exists record, held fd p record h fs.

Lemma locked_stable fd h t f : fd ∈ fds -> T t -> locked fd h f -> locked fd h (t_change t f).
Proof. intros Hfd Ht (ino & Hi & Hl). by apply (rs_locks _ _ _ _ (Ht fd f Hfd) h ino). Qed.

Lemma held_kept fd record h t f : fd ∈ fds -> T t -> held fd p record h f -> held fd p record h (t_change t f).
Proof. intros Hfd Ht. apply held_stable. by apply Ht. Qed.

Lemma owned_stable fd h t f : fd ∈ fds -> T t -> owned fd h f -> owned fd h (t_change t f).
Proof. intros Hfd Ht [record Hh]. exists record. by apply held_kept. Qed.

Lemma held_locked fd record h f : held fd p record h f -> locked fd h f.
Proof. intros [_ (ino & Hi & Hl & _)]. by exists ino. Qed.

Lemma locked_opened fd h f : locked fd h f -> is_Some (inodes f !! h).
Proof. intros (ino & -> & _). by eexists. Qed.

(** A lock on a file the name still leads to is the lock of the name. *)
Lemma safe_lock_identity_wp fd h (Q : res io_Error bool -> FsState -> Prop) fs :
  fd ∈ fds -> (forall f, locked fd h f -> I f) -> locked fd h fs ->
  (forall f, locked fd h f -> Q (Ok false) f) -> (forall f, owned fd h f -> Q (Ok true) f) ->
  wp T I (safe_lock_identity p h) Q fs.
Proof.
  intros Hfd HI Hfs Hno Hyes. apply (compare_metadata_wp (locked fd h));
    [intros t f Ht; by apply locked_stable|done|intros f; apply locked_opened|done|done|].
  intros f1 i ino Hf1 Hp. rewrite entry_Some in Hp. destruct Hp as [Hp Hi].
  exists (fun f => locked fd h f /\ (i = h -> i_kind ino = Regular -> i_nlink ino = 1 -> owned fd h f)).
  split; [|split; [by intros f []|split]].
  - intros t f Ht [Hl Ho]. split; [by apply locked_stable|]. intros. apply owned_stable; auto.
  - split; [done|]. intros -> Hk Hl1. exists (i_data ino). split; [done|]. destruct Hf1 as (ino' & Hi' & Hl').
    exists ino. simplify_eq. by split_and!.
  - intros f2 ino2 [Hl Ho] _. destruct (is_file _ && _ && _ && _ && _ && _) eqn:E; [|by apply Hno].
    apply andb_prop in E as [[[[[Hk _]%andb_prop Hn]%andb_prop _]%andb_prop _]%andb_prop Hid].
    apply Hyes, Ho.
    + by apply N.eqb_eq in Hid.
    + by apply bool_decide_eq_true in Hk.
    + unfold has_multiple_links in Hn. by apply negb_true_iff, negb_false_iff, N.eqb_eq in Hn.
Qed.
End exclusion.

Definition flushed_ok (d : bytes) fd p record h f : held fd p record h f -> held fd p record h (flush_dir d f).
Proof. intros [Hn Hi]. by split. Qed.

(** Rewriting the locked file through its handle keeps the name and the lock. *)
Lemma held_on_inode fd p record record' h (g : Inode -> Inode) f :
  held fd p record h f ->
  (forall ino, i_data ino = record -> i_kind (g ino) = i_kind ino /\ i_nlink (g ino) = i_nlink ino /\
               i_locked (g ino) = i_locked ino /\ i_data (g ino) = record') ->
  fst (on_inode h g f) = Ok tt /\ held fd p record' h (snd (on_inode h g f)).
Proof.
  intros [Hn (ino & Hi & Hl & Hk & Hln & Hd)] Hg. unfold on_inode. rewrite Hi. split; [done|].
  destruct (Hg ino Hd) as (E1 & E2 & E3 & E4). split; [done|]. exists (g ino). cbn. rewrite lookup_insert_eq.
  by split_and!; try congruence.
Qed.

Lemma written_record record ino :
  i_data ino = [] ->
  let g := set_data (overwrite_at (N.to_nat 0) record (i_data ino)) ino in
  i_kind g = i_kind ino /\ i_nlink g = i_nlink ino /\ i_locked g = i_locked ino /\ i_data g = record.
Proof. intros Hd. split_and!; try done. unfold overwrite_at. cbn. rewrite Hd. cbn. destruct (length record); by rewrite app_nil_r. Qed.

Ltac lock_step :=
  unfold at_path, at_dir in *; cbn [map_err]; cbv iota beta;
  lazymatch goal with
  | |- wp _ _ (io_bind _ _) _ _ => apply wp_bind
  | |- wp _ _ (io_map_err _ _) _ _ => apply wp_map_err
  | |- wp _ _ (io_match _ _) _ _ => apply wp_match
  | |- wp _ _ (io_ret _) _ _ => apply wp_ret
  end.

Section acquire.
Context (p : PathBuf) (fds : list N).
Notation T := (respectful p fds).
Notation every := (fun _ : FsState => True).

(** What acquiring answers, for the process that asks. *)
Definition acquired (fd : N) (r : res io_Error LockOutcome) (f : FsState) : Prop :=
  match r with
  | Ok (Acquired l) => exists h, il_file l = Some h /\ il_fd l = fd /\ il_path l = p /\
                                 held fd p (il_owner_record l) h f
  | _ => True
  end.

Lemma held_update fd record record' h (g : Inode -> Inode) (Q : res io_Error unit -> FsState -> Prop) fs :
  fd ∈ fds -> held fd p record h fs ->
  (forall ino, i_data ino = record -> i_kind (g ino) = i_kind ino /\ i_nlink (g ino) = i_nlink ino /\
               i_locked (g ino) = i_locked ino /\ i_data (g ino) = record') ->
  (forall e f, Q (Err e) f) -> (forall f, held fd p record' h f -> Q (Ok tt) f) ->
  wp T every (update (on_inode h g)) Q fs.
Proof.
  intros Hfd Hfs Hg He HQ. apply (stable_update T every (held fd p record h)); [apply respectful_quiet| |done|done|].
  { intros t f Ht. by apply (held_kept p fds). }
  intros f Hf. split; [done|]. split; [done|]. destruct (held_on_inode _ _ _ record' _ g _ Hf Hg) as [-> Hf'].
  by apply HQ.
Qed.

Lemma write_new_record fd record h (Q : res io_Error unit -> FsState -> Prop) fs :
  fd ∈ fds -> held fd p [] h fs -> (forall e f, Q (Err e) f) -> (forall f, held fd p record h f -> Q (Ok tt) f) ->
  wp T every (write_all_at h 0 record) Q fs.
Proof.
  intros Hfd Hfs He HQ. apply (wp_stable T every (held fd p [] h)); [apply respectful_quiet| |done|done|].
  { intros t f Ht. by apply (held_kept p fds). }
  intros _ f Hf. split; [done|].
  destruct (held_on_inode _ _ _ record _ (fun ino => set_data (overwrite_at (N.to_nat 0) record (i_data ino)) ino) _ Hf)
    as [-> Hf']; [by apply written_record|by apply HQ].
Qed.

Lemma held_query {A} fd record h (f : FsState -> res io_Error A) (Q : res io_Error A -> FsState -> Prop) fs :
  fd ∈ fds -> held fd p record h fs -> (forall e g, Q (Err e) g) -> (forall g, held fd p record h g -> Q (f g) g) ->
  wp T every (query f) Q fs.
Proof.
  intros Hfd Hfs He HQ. apply (stable_query T every (held fd p record h)); [apply respectful_quiet| |done|done|auto].
  intros t g Ht. by apply (held_kept p fds).
Qed.

Lemma record_owner_wp pr d h fs :
  pr_fd pr ∈ fds -> locked (pr_fd pr) h fs -> wp T every (record_owner pr d p h) (acquired (pr_fd pr)) fs.
Proof.
  intros Hfd Hf. unfold record_owner. lock_step. apply (safe_lock_identity_wp p fds every (pr_fd pr)); try done; [by intros; apply wp_ret|].
  intros f2 [old Hold]. do 2 lock_step. apply (held_update (pr_fd pr) old old); [done|done|by intros|done|].
  intros f3 H3. lock_step. lock_step. lock_step. destruct (owner_record pr) as [record| |]; [|done|done]. cbn [map_err].
  do 2 lock_step. apply (held_update (pr_fd pr) old []); [done|done|by intros|done|].
  intros f4 H4. do 2 lock_step. apply (held_query (pr_fd pr) [] h); [done|done|done|].
  intros f5 H5. do 2 lock_step. apply (write_new_record (pr_fd pr)); [done|done|done|].
  intros f6 H6. do 2 lock_step. apply (held_update (pr_fd pr) record record); [done|done|by intros|done|].
  intros f7 H7. lock_step.
  apply (compare_metadata_wp p fds every (held (pr_fd pr) p record h)); [intros t f8 Ht; by apply (held_kept p fds)|done| |done| |].
  { intros f8 H8. by apply (locked_opened (pr_fd pr)), (held_locked p _ record). }
  { intros. by apply wp_ret. }
  intros f8 i ino' H8 _. exists (held (pr_fd pr) p record h).
  split; [intros t f9 Ht; by apply (held_kept p fds)|]. split; [done|]. split; [done|].
  intros f9 ino2 H9 _. destruct (_ && _); [|by apply wp_ret]. do 2 lock_step. unfold sync_directory. lock_step.
  apply (held_query (pr_fd pr) record h); [done|done|done|]. intros f10 H10. case_decide; [|done].
  apply (stable_update T every (held (pr_fd pr) p record h)); [apply respectful_quiet| |done|done|].
  { intros t f11 Ht. by apply (held_kept p fds). }
  intros f11 H11. split; [done|]. split; [done|]. cbn. lock_step. exists h. split_and!; try done. by apply flushed_ok.
Qed.

Lemma lock_and_record_wp pr d h fs :
  pr_fd pr ∈ fds -> is_Some (inodes fs !! h) ->
  wp T every (lock_and_record pr d p h) (acquired (pr_fd pr)) fs.
Proof.
  intros Hfd Hfs. unfold lock_and_record. lock_step. lock_step.
  apply (stable_update T every (fun f => is_Some (inodes f !! h))); [apply respectful_quiet| |done|done|].
  { intros t f Ht. apply (rs_files _ _ _ _ (Ht _ f Hfd)). }
  intros f1 [ino Hi]. split; [done|]. split; [done|]. rewrite Hi.
  destruct (i_locked ino) as [other|] eqn:El; cbn.
  - destruct (N.eqb_spec other (pr_fd pr)) as [->|]; cbn; [|by apply wp_ret]. apply record_owner_wp; [done|]. by exists ino.
  - apply record_owner_wp; [done|]. exists (set_locked (Some (pr_fd pr)) ino). cbn. by rewrite lookup_insert_eq.
Qed.
End acquire.

Section exclusive.
Context (dir : bytes) (me other : N) (Hne : me <> other).
Notation p := (mkPath dir LOCK_FILE).
Notation T := (respectful (mkPath dir LOCK_FILE) [me; other]).
Notation every := (fun _ : FsState => True).

Lemma me_watched : me ∈ [me; other].
Proof. by left. Qed.
Lemma other_watched : other ∈ [me; other].
Proof. by right; left. Qed.

(** Steps whose outcome does not matter. *)
Lemma any_step {A} (m : IO io_Error A) op broken (Q : res io_Error A -> FsState -> Prop) fs :
  m = syscall op broken -> (forall r f, Q r f) -> wp T every m Q fs.
Proof. intros -> HQ. apply (wp_stable T every every); [apply respectful_quiet|done|done| |]; by intros. Qed.

Lemma open_create_opened f :
  match fst (open_create_fs 384 p f) with
  | Ok h => is_Some (inodes (snd (open_create_fs 384 p f)) !! h)
  | _ => True
  end.
Proof.
  unfold open_create_fs, make_file. destruct (names f !! p) as [i|] eqn:En.
  - destruct (entry p f) as [[i' ino]|] eqn:E; [|done]. rewrite entry_Some in E. destruct E as [_ E].
    by destruct (i_kind ino); cbn; rewrite ?E.
  - case_decide; [|done]. cbn. by rewrite lookup_insert_eq.
Qed.

Lemma acquire_wp pr fs :
  pr_fd pr = me -> wp T every (acquire_single_instance_lock pr dir) (acquired p me) fs.
Proof.
  intros Hpr. unfold acquire_single_instance_lock. do 2 lock_step.
  apply (stable_query T every every); [apply respectful_quiet|done|done|done|]. intros f1 _. split; [done|].
  case_decide; [|done]. do 2 lock_step.
  apply (stable_update T every every); [apply respectful_quiet|done|done|done|]. intros f2 _. split; [done|]. split; [done|].
  pose proof (open_create_opened f2) as Ho. destruct (open_create_fs 384 p f2) as [[h| |] f3]; cbn [fst snd] in *;
    [|done|done]. lock_step.
  eapply wp_mono; [apply (lock_and_record_wp p [me; other]); [rewrite Hpr; by apply me_watched|done]|].
  intros r f4 Hr. rewrite Hpr in *. destruct r as [[l|]| |]; [by apply wp_ret| | |];
    (lock_step; eapply any_step; [reflexivity|]; intros; by apply wp_ret).
Qed.

(** What the other holds stays as it is. *)
Section guarded.
Context (record : bytes) (i : N).
Notation guarded := (held other p record i).

Lemma guarded_stable t f : T t -> guarded f -> guarded (t_change t f).
Proof. intros Ht. apply (held_kept p [me; other]); [apply other_watched|done]. Qed.

Lemma close_guarded h f : guarded f -> guarded (close_fs me h f).
Proof.
  intros [Hn (ino & Hi & Hl & rest)]. unfold close_fs. destruct (inodes f !! h) as [ino'|] eqn:E; [|by split; [|exists ino]].
  case_bool_decide as Hm; [|by split; [|exists ino]]. split; [done|]. exists ino.
  destruct (decide (h = i)) as [->|]; [congruence|]. cbn. by rewrite lookup_insert_ne.
Qed.

Lemma close_wp h (Q : res io_Error unit -> FsState -> Prop) fs :
  guarded fs -> (forall r f, guarded f -> Q r f) -> wp T guarded (close me h) Q fs.
Proof.
  intros Hfs HQ. apply (wp_stable T guarded guarded);
    [apply respectful_quiet|intros *; apply guarded_stable|done| |].
  - intros e t f Hf. split; [by apply close_guarded|]. by apply HQ, close_guarded.
  - intros t f Hf. split; [by apply close_guarded|]. by apply HQ, close_guarded.
Qed.

Lemma acquire_refused pr fs :
  pr_fd pr = me -> guarded fs ->
  wp T guarded (acquire_single_instance_lock pr dir) (fun r _ => match r with Ok (Acquired _) | Panic => False | _ => True end) fs.
Proof.
  intros Hpr Hfs. unfold acquire_single_instance_lock. do 2 lock_step.
  apply (stable_query T guarded guarded); [apply respectful_quiet|intros *; apply guarded_stable|done|done|].
  intros f1 H1. split; [done|]. case_decide; [|done]. do 2 lock_step.
  apply (stable_update T guarded guarded); [apply respectful_quiet|intros *; apply guarded_stable|done|done|].
  intros f2 H2. split; [done|]. destruct H2 as [Hn (ino & Hi & Hl & Hk & rest)] eqn:E2. clear E2.
  assert (entry p f2 = Some (i, ino)) as He by by rewrite entry_Some. unfold open_create_fs. rewrite Hn, He, Hk. split; [done|].
  cbn [fst snd]. lock_step. unfold lock_and_record. do 2 lock_step.
  apply (stable_update T guarded guarded); [apply respectful_quiet|intros *; apply guarded_stable|done|done|].
  intros f3 H3. split.
  { intros e. lock_step. rewrite Hpr. apply close_wp; [done|]. intros. by apply wp_ret. }
  destruct H3 as [Hn3 (ino3 & Hi3 & Hl3 & rest3)] eqn:E3. clear E3. rewrite Hi3, Hl3. split; [done|]. cbn [fst snd].
  assert (other =? pr_fd pr = false) as -> by (apply N.eqb_neq; congruence). cbn [map_err negb]. lock_step.
  lock_step. rewrite Hpr. apply close_wp; [done|]. intros. by apply wp_ret.
Qed.

(** A release by somebody else finds that the name is not its own. *)
Lemma release_file_refused l h (Q : res io_Error unit -> FsState -> Prop) fs :
  il_path l = p -> guarded fs -> locked me h fs ->
  (forall e f, guarded f -> Q (Err e) f) -> wp T guarded (release_file l h) Q fs.
Proof.
  intros Hp Hfs Hl HQ. unfold release_file. rewrite Hp.
  set (J := fun f => guarded f /\ locked me h f).
  assert (forall t f, T t -> J f -> J (t_change t f)) as HJ.
  { intros t f Ht [Hg Hh]. split; [by apply guarded_stable|]. apply (locked_stable p [me; other]); [apply me_watched|done|done]. }
  do 2 lock_step. apply (stable_query T guarded J); [apply respectful_quiet|done|by intros f []|done|].
  intros f1 [H1 L1]. split; [intros e; cbn; by apply HQ|]. do 2 lock_step.
  apply (stable_query T guarded J); [apply respectful_quiet|done|by intros f []|done|].
  intros f2 [H2 L2]. split; [intros e; cbn; by apply HQ|]. unfold at_handle. destruct L2 as (ino & Hi & Hlk) eqn:E. clear E.
  rewrite Hi. lock_step.
  assert (forall f, J f -> wp T guarded
    (let! path_matches := io_ret (Ok false) in
     check! path_matches else io_at "validating owned instance lock before release at" (display p)
       (mkIo InvalidData (bs "lock pathname, inode, or owner token changed")) ;;
     let! _ := at_dir "opening lock directory" (il_dir l) (open_directory (il_dir l)) in
     let! _ := at_dir "preflighting lock-directory sync" (il_dir l) (sync_directory_handle (il_dir l)) in
     let! _ := at_path "unlinking owned instance lock at" p (remove_file p) in
     match! sync_directory_handle (il_dir l) with _ =>
     match! close (il_fd l) h with _ => io_ret (Ok tt)) Q f) as Hno.
  { intros f [Hg _]. do 3 lock_step. by apply HQ. }
  apply (compare_metadata_wp p [me; other] guarded J); [done|by intros f []| |by split; [|exists ino]|done|].
  { intros f [_ Hf]. by apply (locked_opened me). }
  intros f3 i' ino' H3 He. exists J. split; [done|]. split; [done|]. split; [done|]. intros f4 ino4 H4 _.
  assert (same_identity (mkMeta i' ino') (mkMeta h ino4) = false) as ->; [|by apply Hno].
  unfold same_identity. cbn. apply N.eqb_neq. intros ->. rewrite entry_Some in He. destruct He as [Hn Hi'].
  destruct H3 as [[Hn3 (ino3 & Hi3 & Hl3 & _)] (ino5 & Hi5 & Hl5)]. congruence.
Qed.

Lemma release_refused l fs :
  il_path l = p -> guarded fs -> (forall h, il_file l = Some h -> locked me h fs) ->
  wp T guarded (release l) (fun r f => guarded f /\ exists r', r = Ok (r', l) /\ is_ok r' = bool_decide (il_file l = None)) fs.
Proof.
  intros Hp Hfs Hl. unfold release. destruct (il_file l) as [h|] eqn:E; lock_step.
  - apply release_file_refused; [done|done|by apply Hl|]. intros e f Hf. lock_step. split; [done|]. by exists (Err e).
  - split; [done|]. by exists (Ok tt).
Qed.
End guarded.
End exclusive.

(** ** Where no step fails *)
Section works.
Notation every := (fun _ : FsState => True).

Ltac smooth_step :=
  unfold at_path, at_dir in *; cbn [map_err fst snd]; cbv iota beta;
  lazymatch goal with
  | |- wp _ _ (query _) _ _ => apply calm_query; [apply _|done|by intros ? []%smooth_never_fails|]
  | |- wp _ _ (update _) _ _ => apply calm_update; [apply _|done|by intros ? []%smooth_never_fails|done|]
  | |- wp _ _ (syscall _ _) _ _ => apply calm_syscall; [apply _|by intros ? []%smooth_never_fails|intros ?; split; [done|]]
  | |- _ => lock_step
  end.

Lemma compare_metadata_smooth p h ino agree (Q : res io_Error bool -> FsState -> Prop) fs :
  entry p fs = Some (h, ino) -> Q (Ok (agree (mkMeta h ino) (mkMeta h ino))) fs ->
  wp smooth every (compare_metadata p h agree) Q fs.
Proof.
  intros He HQ. unfold compare_metadata, symlink_metadata, file_metadata. repeat smooth_step. rewrite He. repeat smooth_step.
  unfold at_handle. rewrite entry_Some in He. destruct He as [_ ->]. by smooth_step.
Qed.

Lemma held_safe fd p record h (Q : res io_Error bool -> FsState -> Prop) fs :
  held fd p record h fs -> Q (Ok true) fs -> wp smooth every (safe_lock_identity p h) Q fs.
Proof.
  intros [Hn (ino & Hi & Hl & Hk & Hln & Hd)] HQ. apply (compare_metadata_smooth p h ino); [by rewrite entry_Some|].
  unfold is_file, is_symlink, has_multiple_links, same_identity. cbn. rewrite Hk, Hln, bool_decide_eq_true_2 by done.
  cbn. by rewrite N.eqb_refl.
Qed.

Lemma held_update_smooth fd p record record' h (g : Inode -> Inode) (Q : res io_Error unit -> FsState -> Prop) fs :
  held fd p record h fs ->
  (forall ino, i_data ino = record -> i_kind (g ino) = i_kind ino /\ i_nlink (g ino) = i_nlink ino /\
               i_locked (g ino) = i_locked ino /\ i_data (g ino) = record') ->
  (forall f, dirs f = dirs fs -> held fd p record' h f -> Q (Ok tt) f) -> wp smooth every (update (on_inode h g)) Q fs.
Proof.
  intros Hfs Hg HQ. smooth_step. destruct (held_on_inode _ _ _ record' _ g _ Hfs Hg) as [-> Hf']. apply HQ; [|done].
  unfold on_inode. by destruct (inodes fs !! h).
Qed.

(** The lock file can be taken: there is none, or one nobody holds. *)
Definition lock_free (p : PathBuf) (fs : FsState) : Prop :=
  names fs !! p = None \/
  exists i ino, entry p fs = Some (i, ino) /\ i_kind ino = Regular /\ i_nlink ino = 1 /\ i_locked ino = None.

Lemma record_owner_works pr dir record old h fs :
  let p := mkPath dir LOCK_FILE in
  owner_record pr = Ok record -> held (pr_fd pr) p old h fs -> dir ∈ dirs fs ->
  wp smooth every (record_owner pr dir p h) (fun r f =>
    r = Ok (Acquired (mkLock (Some h) (pr_fd pr) p dir record)) /\ held (pr_fd pr) p record h f /\ dir ∈ dirs f) fs.
Proof.
  intros p Hrec H1 Hd. unfold record_owner. rewrite Hrec. repeat smooth_step. eapply held_safe; [done|]. repeat smooth_step.
  eapply held_update_smooth; [done|by intros|]. intros f1 D1 H2. repeat smooth_step.
  apply (held_update_smooth (pr_fd pr) p old []); [done|by intros|]. intros f2 D2 H3. unfold rewind. repeat smooth_step.
  unfold write_all_at. repeat smooth_step.
  destruct (held_on_inode _ _ _ record _ (fun ino => set_data (overwrite_at (N.to_nat 0) record (i_data ino)) ino) _ H3)
    as [-> H4]; [by apply written_record|].
  assert (dir ∈ dirs (snd (on_inode h (fun ino => set_data (overwrite_at (N.to_nat 0) record (i_data ino)) ino) f2))) as D4.
  { unfold on_inode. destruct (inodes f2 !! h); cbn; congruence. }
  revert H4 D4. generalize (snd (on_inode h (fun ino => set_data (overwrite_at (N.to_nat 0) record (i_data ino)) ino) f2)).
  intros f3 H4 D4. repeat smooth_step. eapply held_update_smooth; [done|by intros|]. intros f4 D5 H5. repeat smooth_step.
  eapply held_safe; [done|]. repeat smooth_step. unfold sync_directory, open_directory, sync_directory_handle.
  repeat smooth_step. rewrite decide_True by congruence. repeat smooth_step.
  split; [done|]. split; [by apply flushed_ok|]. cbn. congruence.
Qed.

Lemma acquire_works pr dir record fs :
  dir ∈ dirs fs -> lock_free (mkPath dir LOCK_FILE) fs -> owner_record pr = Ok record ->
  wp smooth every (acquire_single_instance_lock pr dir) (fun r f => exists h,
    r = Ok (Acquired (mkLock (Some h) (pr_fd pr) (mkPath dir LOCK_FILE) dir record)) /\
    held (pr_fd pr) (mkPath dir LOCK_FILE) record h f /\ dir ∈ dirs f) fs.
Proof.
  intros Hd Hfree Hrec. set (p := mkPath dir LOCK_FILE) in *. unfold acquire_single_instance_lock, canonicalize. fold p.
  repeat smooth_step. rewrite decide_True by done. repeat smooth_step. fold p. unfold open_create. smooth_step.
  assert (exists h ino f, open_create_fs 384 p fs = (Ok h, f) /\ names f !! p = Some h /\ inodes f !! h = Some ino /\
    i_kind ino = Regular /\ i_nlink ino = 1 /\ i_locked ino = None /\ dir ∈ dirs f) as (h & ino & f & -> & Hn & Hi & Hk & Hln & Hl & Hdf).
  { unfold open_create_fs, make_file. destruct Hfree as [Hn|(i & ino & He & Hk & Hln & Hl)].
    - rewrite Hn, decide_True by done. exists (next_inode fs), (empty_file 384), (link p (next_inode fs) (empty_file 384) fs).
      cbn. rewrite !lookup_insert_eq. by split_and!.
    - rewrite He, Hk. rewrite entry_Some in He. destruct He as [Hn Hi]. rewrite Hn. by exists i, ino, fs. }
  smooth_step. unfold lock_and_record, try_lock. repeat smooth_step. rewrite Hi, Hl. cbn [map_err negb fst snd]. cbv iota beta.
  set (g := set_inode h (set_locked (Some (pr_fd pr)) ino) f).
  assert (held (pr_fd pr) p (i_data ino) h g) as H1.
  { split; [done|]. exists (set_locked (Some (pr_fd pr)) ino). cbn. by rewrite lookup_insert_eq. }
  assert (dir ∈ dirs g) as Hdg by done. clearbody g. clear Hn Hi Hk Hln Hl.
  eapply wp_mono; [by apply (record_owner_works pr dir record (i_data ino))|]. intros r f' (-> & H2 & H3). apply wp_ret. exists h. by split.
Qed.

Lemma release_works l h fs :
  il_file l = Some h -> held (il_fd l) (il_path l) (il_owner_record l) h fs -> il_dir l ∈ dirs fs ->
  wp smooth every (release l) (fun r f =>
    r = Ok (Ok tt, mkLock None (il_fd l) (il_path l) (il_dir l) (il_owner_record l)) /\
    names f !! il_path l = None /\ dirs f = dirs fs) fs.
Proof.
  intros Hl [Hn (ino & Hi & Hlk & Hk & Hln & Hdata)] Hd. unfold release. rewrite Hl.
  assert (entry (il_path l) fs = Some (h, ino)) as He by by rewrite entry_Some.
  assert (resolve 40 (il_path l) fs = Ok (h, ino)) as Hr by (cbn [resolve]; by rewrite He, Hk).
  unfold release_file, rewind, read_to_end, fs_read, open_directory, sync_directory_handle, remove_file, close.
  repeat smooth_step. unfold at_handle. rewrite Hi, Hdata. repeat smooth_step.
  eapply compare_metadata_smooth; [done|]. unfold same_identity. cbn [m_ino]. rewrite N.eqb_refl. repeat smooth_step.
  rewrite Hr, Hk, Hdata. repeat smooth_step. rewrite !bool_decide_eq_true_2 by done. cbn [andb]. repeat smooth_step.
  rewrite decide_True by done. repeat smooth_step.
  unfold unlink, entry. cbn [names inodes flush_dir set_durable]. rewrite Hn, Hi, Hk, bool_decide_eq_false_2 by done.
  repeat smooth_step. split; [done|]. unfold close_fs. cbn. rewrite lookup_insert_eq. cbn.
  case_bool_decide; cbn; by rewrite lookup_delete_eq.
Qed.
End works.

(** C28: one instance at a time. Whatever the other processes do that respects the locks held,
    nobody holds the lock of the folder together with another; who is told that it acquired
    the lock holds it, with its owner record in the file; and while another holds it, every
    step of an acquisition or of a stale release leaves the lock with its holder, and the
    acquisition is not granted. *)
Theorem lock_exclusive (dir : bytes) (me other : N) (pr : Process) (record : bytes) (i : N) (fs : FsState)
    (Hne : me <> other) (Hpr : pr_fd pr = me) :
  let p := mkPath dir LOCK_FILE in
  let T := respectful p [me; other] in
  (forall f record' i', held me p record' i' f -> ~ held other p record i f) /\
  wp T (fun _ => True) (acquire_single_instance_lock pr dir)
    (fun r f => match r with
                | Ok (Acquired l) => exists h, il_file l = Some h /\ il_fd l = me /\ il_path l = p /\
                                               held me p (il_owner_record l) h f
                | _ => True
                end) fs /\
  (held other p record i fs ->
     wp T (held other p record i) (acquire_single_instance_lock pr dir)
       (fun r _ => match r with Ok (Acquired _) | Panic => False | _ => True end) fs /\
     forall l, il_path l = p -> (forall h, il_file l = Some h -> locked me h fs) ->
       wp T (held other p record i) (release l)
         (fun r f => held other p record i f /\ exists r', r = Ok (r', l) /\ is_ok r' = bool_decide (il_file l = None)) fs).
Proof.
  intros p T. split; [|split; [by apply acquire_wp|intros Hheld; split]].
  - intros f record' i' [Hn (ino & Hi & Hl & _)] [Hn' (ino' & Hi' & Hl' & _)]. congruence.
  - by apply acquire_refused.
  - intros l Hp Hlocked. by apply release_refused.
Qed.

(** Where no step fails and nobody holds it, the lock is granted, and its release takes the
    lock file away, so that the next instance can start. *)
Lemma lock_cycle (pr : Process) (dir record : bytes) (fs : FsState) (Hd : dir ∈ dirs fs)
    (Hfree : lock_free (mkPath dir LOCK_FILE) fs) (Hrec : owner_record pr = Ok record) :
  wp smooth (fun _ => True)
    (match! acquire_single_instance_lock pr dir with r =>
     match r with Ok (Acquired l) => release l | _ => io_ret Panic end)
    (fun r f => exists l, r = Ok (Ok tt, l) /\ il_file l = None /\
                          lock_free (mkPath dir LOCK_FILE) f /\ dir ∈ dirs f) fs.
Proof.
  apply wp_match. eapply wp_mono; [by apply acquire_works|]. intros r f (h & -> & Hheld & Hdf).
  eapply wp_mono; [by apply (release_works _ h)|]. cbn. intros r f' (-> & Hn & Hdirs). eexists. split; [done|].
  split; [done|]. split; [by left|congruence].
Qed.

Definition demo_process (fd : N) : Process :=
  mkProcess 42 (Ok (bs "42 (cc wallet) S 1 1 1 0 -1 4194560 1 0 0 0 1 1 0 0 20 0 9 0 8675309 1 1")) fd.

(** The file of [demo_process 1], the lock taken. *)
Definition demo_locked : FsState :=
  mkFs {[bs "/w"]} {[mkPath (bs "/w") LOCK_FILE := 5]} ∅
    {[5 := mkInode Regular 1 384 (bs "pid=42") true (Some 1)]}.

Lemma lock_exclusive_witness :
  held 1 (mkPath (bs "/w") LOCK_FILE) (bs "pid=42") 5 demo_locked /\
  wp (respectful (mkPath (bs "/w") LOCK_FILE) [2; 1]) (held 1 (mkPath (bs "/w") LOCK_FILE) (bs "pid=42") 5)
    (acquire_single_instance_lock (demo_process 2) (bs "/w"))
    (fun r _ => match r with Ok (Acquired _) | Panic => False | _ => True end) demo_locked.
Proof.
  assert (held 1 (mkPath (bs "/w") LOCK_FILE) (bs "pid=42") 5 demo_locked) as Hh.
  { split; [by vm_compute|]. eexists. split; [by vm_compute|done]. }
  split; [exact Hh|].
  refine (proj1 (proj2 (proj2 (lock_exclusive (bs "/w") 2 1 (demo_process 2) (bs "pid=42") 5 demo_locked _ eq_refl)) Hh)).
  discriminate.
Defined.

Lemma lock_cycle_witness :
  exists record, owner_record (demo_process 1) = Ok record /\
  wp smooth (fun _ => True)
    (match! acquire_single_instance_lock (demo_process 1) (bs "/w") with r =>
     match r with Ok (Acquired l) => release l | _ => io_ret Panic end)
    (fun r f => exists l, r = Ok (Ok tt, l) /\ il_file l = None /\
                          lock_free (mkPath (bs "/w") LOCK_FILE) f /\ bs "/w" ∈ dirs f)
    (mkFs {[bs "/w"]} ∅ ∅ ∅).
Proof.
  eexists. split; [by vm_compute|]. eapply (lock_cycle (demo_process 1) (bs "/w")).
  - change (bs "/w" ∈ ({[bs "/w"]} : gset bytes)). by apply elem_of_singleton.
  - by left.
  - by vm_compute.
Defined.
