(* ===== verification/Probe.v ===== *)
(** * The startup probe leaves no trace (about [probe_storage_root] of Lock)

    The probe writes, renames and removes a file of its own in the launch folder; what was
    there before is never touched, whichever step fails. *)

From Stdlib Require Import NArith Lia.
From stdpp Require Import gmap.
From S2P Require Import Prelude Ord Bytes Text Decimal Ids VaultKeys Fs Atomic Destroy Lock.

(** Every file of [fs] is still there and as it was. *)
Record untouched (fs f : FsState) : Prop := {
  un_entries : forall q i ino, entry q fs = Some (i, ino) -> entry q f = Some (i, ino);
  un_inodes : forall i ino, inodes fs !! i = Some ino -> inodes f !! i = Some ino;
  un_dirs : dirs f = dirs fs
}.

Lemma untouched_refl fs : untouched fs fs.
Proof. by split. Qed.

Section probing.
Context (fs : FsState) (first second : PathBuf) (h : N).
Context (Hfirst : names fs !! first = None) (Hnew : inodes fs !! h = None) (Hunnamed : forall q, names fs !! q <> Some h).

(** What the probe may have made of [fs]: the file [h] and its one name. *)
Record debris (f : FsState) : Prop := {
  db_names : forall q, names f !! q = names fs !! q \/
                       ((q = first \/ q = second) /\ entry q fs = None /\ (names f !! q = Some h \/ names f !! q = None));
  db_inodes : forall i, i <> h -> inodes f !! i = inodes fs !! i;
  db_probe : is_Some (inodes f !! h);
  db_dirs : dirs f = dirs fs
}.

Lemma debris_untouched f : debris f -> untouched fs f.
Proof.
  intros [Hn Hi _ Hd]. split; [|intros i ino E|done].
  - intros q i ino E. assert (i <> h) as Hih by (rewrite entry_Some in E; destruct E; congruence).
    destruct (Hn q) as [Hq|(_ & Hnone & _)]; [|congruence]. rewrite entry_Some in *. rewrite Hq, Hi by done. done.
  - rewrite Hi; congruence.
Qed.

(** A name that leads to the probe is one of the two, where there was no file. *)
Lemma debris_probe q f : debris f -> names f !! q = Some h -> (q = first \/ q = second) /\ entry q fs = None.
Proof. intros [Hn _ _ _] Hq. destruct (Hn q) as [Hq'|(? & ? & _)]; [|done]. rewrite Hq' in Hq. by destruct (Hunnamed q). Qed.

Lemma debris_set g f : debris f -> debris (snd (on_inode h g f)).
Proof.
  intros [Hn Hi [ino Hh] Hd]. unfold on_inode. rewrite Hh. split; [done| | |done]; cbn.
  - intros i Hih. rewrite lookup_insert_ne by done. by apply Hi.
  - by rewrite lookup_insert_eq.
Qed.

Lemma debris_flush d f : debris f -> debris (flush_dir d f).
Proof. by intros []. Qed.

Lemma debris_unlink q f : debris f -> names f !! q = Some h -> debris (unlink q f).
Proof.
  intros Hf Hq. destruct (debris_probe q f Hf Hq) as [Hq1 Hq2]. destruct Hf as [Hn Hi [ino Hh] Hd].
  unfold unlink, entry. rewrite Hq, Hh. split; [| | |done]; cbn.
  - intros q'. rewrite lookup_delete. case_decide as E; [subst q'|apply Hn]. right. by split_and!; [| |right].
  - intros i Hih. rewrite lookup_insert_ne by done. by apply Hi.
  - by rewrite lookup_insert_eq.
Qed.

(** The name before the renaming. *)
Lemma debris_first f : debris f -> names f !! first = Some h \/ names f !! first = None.
Proof. intros [Hn _ _ _]. destruct (Hn first) as [->|(_ & _ & ?)]; [by right|done]. Qed.

Lemma debris_move f : debris f -> entry second f = None -> entry second fs = None -> debris (move first second f).
Proof.
  intros Hf E2 E2'. unfold move. destruct (debris_first f Hf) as [->| ->]; [|done]. case_bool_decide; [done|].
  unfold unlink. rewrite E2. destruct Hf as [Hn Hi Hh Hd]. split; [|done|done|done]. cbn. intros q.
  rewrite lookup_insert. case_decide as Eq; [subst q; right; by split_and!; [right| |left]|].
  rewrite lookup_delete. case_decide as Eq'; [subst q|apply Hn]. right. split_and!; [by left| |by right].
  unfold entry. by rewrite Hfirst.
Qed.

(** With both names gone everything is as it was. *)
Lemma debris_gone f :
  debris f -> entry first f = None -> entry second f = None -> entry second fs = None ->
  forall q, entry q f = entry q fs.
Proof.
  intros [Hn Hi [ino Hh] Hd] E1 E2 E2' q. destruct (decide (q = first)) as [->|].
  { rewrite E1. unfold entry. by rewrite Hfirst. }
  destruct (decide (q = second)) as [->|]; [congruence|]. destruct (Hn q) as [Hq|([] & _)]; [|done..].
  unfold entry. rewrite Hq. destruct (names fs !! q) as [i|] eqn:E; [|done]. rewrite Hi; [done|]. intros ->. by destruct (Hunnamed q).
Qed.

(** ** The steps of the probe *)
Context (T : Tick -> Prop) `{Calm T}.
Notation J := (untouched fs).

Lemma compare_metadata_calm p x agree (Q : res io_Error bool -> FsState -> Prop) f :
  J f -> is_Some (inodes f !! x) -> Q (Ok false) f ->
  (forall i ino ino', entry p f = Some (i, ino) -> inodes f !! x = Some ino' ->
     Q (Ok (agree (mkMeta i ino) (mkMeta x ino'))) f) ->
  wp T J (compare_metadata p x agree) Q f.
Proof.
  intros Hf [ino' Hx] Hno Hyes. unfold compare_metadata, symlink_metadata, file_metadata. apply wp_match.
  apply calm_query; [done|done|by intros; apply wp_ret|].
  destruct (entry p f) as [[i ino]|] eqn:E; [|by apply wp_ret]. apply wp_match.
  apply calm_query; [done|done|by intros; apply wp_ret|]. unfold at_handle. rewrite Hx. by apply wp_ret, Hyes.
Qed.

(** A safe identity means that the name leads to the file. *)
Lemma safe_lock_identity_calm p x (Q : res io_Error bool -> FsState -> Prop) f :
  J f -> is_Some (inodes f !! x) -> Q (Ok false) f -> (names f !! p = Some x -> Q (Ok true) f) ->
  wp T J (safe_lock_identity p x) Q f.
Proof.
  intros Hf Hx Hno Hyes. apply compare_metadata_calm; [done|done|done|]. intros i ino ino' E _.
  destruct (_ && _) eqn:Es; [|done]. apply Hyes. apply andb_prop in Es as [_ Es]. apply N.eqb_eq in Es. cbn in Es. subst.
  rewrite entry_Some in E. by destruct E.
Qed.

Lemma on_probe g (Q : res io_Error unit -> FsState -> Prop) f :
  debris f -> (forall e, Q (Err e) f) -> (forall f', debris f' -> Q (Ok tt) f') -> wp T J (update (on_inode h g)) Q f.
Proof.
  intros Hf He HQ. pose proof (debris_set g f Hf) as Hf'. destruct (db_probe _ Hf) as [ino Hh].
  assert (fst (on_inode h g f) = Ok tt) as Eo by (unfold on_inode; by rewrite Hh).
  apply calm_update; [done|by apply debris_untouched|intros; apply He|by apply debris_untouched|]. rewrite Eo. by apply HQ.
Qed.

Lemma write_probe payload (Q : res io_Error unit -> FsState -> Prop) f :
  debris f -> (forall e f', debris f' -> Q (Err e) f') -> (forall f', debris f' -> Q (Ok tt) f') ->
  wp T J (write_all_at h 0 payload) Q f.
Proof.
  intros Hf He HQ. apply calm_syscall; [done| |].
  - intros e _ t. pose proof (debris_set (fun ino => set_data (overwrite_at (N.to_nat 0) (take (t_short t) payload) (i_data ino)) ino) f Hf) as Hd.
    split; [by apply debris_untouched|by apply He].
  - intros t. pose proof (debris_set (fun ino => set_data (overwrite_at (N.to_nat 0) payload (i_data ino)) ino) f Hf) as Hd.
    destruct (db_probe _ Hf) as [ino Hh]. split; [by apply debris_untouched|].
    unfold on_inode in *. rewrite Hh in *. by apply HQ.
Qed.

(** What the steps answer: debris at worst, nothing on success. *)
Definition probed (r : res io_Error unit) (f : FsState) : Prop :=
  debris f /\ match r with
              | Ok _ => entry first f = None /\ entry second f = None /\ entry second fs = None
              | Err _ => True
              | Panic => False
              end.

Ltac probe_step :=
  unfold at_path, at_dir in *; cbn [map_err fst snd]; cbv iota beta;
  lazymatch goal with
  | |- probed (Err _) _ => by split
  | |- wp _ _ (query _) _ _ => apply calm_query; [done|by apply debris_untouched|intros ? ?|]
  | |- wp _ _ (io_bind _ _) _ _ => apply wp_bind
  | |- wp _ _ (io_map_err _ _) _ _ => apply wp_map_err
  | |- wp _ _ (io_match _ _) _ _ => apply wp_match
  | |- wp _ _ (io_ret _) _ _ => apply wp_ret
  end.

Lemma flush_probe d (Q : res io_Error unit -> FsState -> Prop) f :
  debris f -> (forall e, Q (Err e) f) -> (forall f', debris f' -> names f' = names f -> inodes f' = inodes f -> Q (Ok tt) f') ->
  wp T J (sync_directory_handle d) Q f.
Proof.
  intros Hf He HQ. apply calm_update; [done|by apply debris_untouched|intros; apply He|by apply debris_untouched, debris_flush|].
  by apply HQ; [apply debris_flush| |].
Qed.

Lemma probe_gone_wp q (Q : res io_Error unit -> FsState -> Prop) f :
  debris f -> (forall e, Q (Err e) f) -> (entry q f = None -> Q (Ok tt) f) -> wp T J (probe_gone q) Q f.
Proof.
  intros Hf He HQ. unfold probe_gone, symlink_metadata. probe_step. probe_step.
  - destruct H0 as [[Hg _] _]. rewrite bool_decide_eq_false_2 by done. probe_step. apply He.
  - destruct (entry q f) as [[i ino]|] eqn:E; [probe_step; apply He|].
    cbn [io_kind]. rewrite bool_decide_eq_true_2 by done. probe_step. by apply HQ.
Qed.

(** Removing a name that leads to the probe. *)
Lemma remove_probe q (Q : res io_Error unit -> FsState -> Prop) f :
  debris f -> entry q fs = None -> (forall e, Q (Err e) f) ->
  (forall f', debris f' -> entry q f' = None -> Q (Ok tt) f') -> wp T J (remove_file q) Q f.
Proof.
  intros Hf Hq He HQ. unfold remove_file.
  destruct (entry q f) as [[i ino]|] eqn:E.
  - assert (names f !! q = Some h) as Hqh.
    { rewrite entry_Some in E. destruct E as [En Ei]. destruct (db_names _ Hf q) as [Hn|(_ & _ & [?|?])]; [|done|congruence].
      rewrite Hn in En. assert (i <> h) as Hih by (intros ->; by apply (Hunnamed q)).
      rewrite (db_inodes _ Hf i Hih) in Ei. unfold entry in Hq. by rewrite En, Ei in Hq. }
    apply calm_update; [done|by apply debris_untouched|intros; apply He| |]; rewrite E;
      (destruct (bool_decide _); [by first [apply debris_untouched|apply He]|]).
    + by apply debris_untouched, debris_unlink.
    + apply HQ; [by apply debris_unlink|]. unfold unlink. rewrite E. unfold entry. cbn. by rewrite lookup_delete_eq.
  - apply calm_update; [done|by apply debris_untouched|intros; apply He| |]; rewrite E; [by apply debris_untouched|apply He].
Qed.

Lemma rename_probe (Q : res io_Error unit -> FsState -> Prop) f :
  debris f -> entry second f = None -> entry second fs = None -> (forall e, Q (Err e) f) ->
  (forall f', debris f' -> Q (Ok tt) f') -> wp T J (rename first second) Q f.
Proof.
  intros Hf E2 E2' He HQ. apply calm_update; [done|by apply debris_untouched|intros; apply He| |];
    (destruct (entry first f) as [[i ino]|]; [rewrite E2|]).
  - by apply debris_untouched, debris_move.
  - by apply debris_untouched.
  - by apply HQ, debris_move.
  - apply He.
Qed.

Ltac probe_end := repeat probe_step; done.

Lemma probe_steps_wp l x payload f :
  debris f -> is_Some (inodes fs !! x) -> wp T J (probe_steps l x first second payload h) probed f.
Proof.
  intros Hf Hx. unfold probe_steps. probe_step. probe_step. apply on_probe; [done|intros; probe_end|].
  clear f Hf. intros f Hf. probe_step. apply safe_lock_identity_calm; [by apply debris_untouched|apply Hf|probe_end|].
  intros _. probe_step. unfold file_metadata. probe_step; [probe_end|]. destruct (db_probe _ Hf) as [ino Hh].
  unfold at_handle. rewrite Hh. cbv iota beta. destruct (_ =? _); [|probe_end].
  probe_step. probe_step. apply write_probe; [done|intros; probe_end|]. clear f Hf Hh. intros f Hf.
  probe_step. probe_step. apply on_probe; [done|intros; probe_end|]. clear f Hf. intros f Hf.
  probe_step. probe_step. apply read_regular_wp; [done|by apply debris_untouched|intros; probe_end|]. intros data _.
  cbn [map_err]. cbv iota beta. case_bool_decide; [|probe_end]. probe_step. unfold symlink_metadata. probe_step.
  { destruct H1 as [[Hg _] _]. rewrite bool_decide_eq_false_2 by done. probe_end. }
  destruct (entry second f) as [[i ino']|] eqn:E2; [probe_end|]. cbn [io_kind].
  rewrite bool_decide_eq_true_2 by done.
  assert (entry second fs = None) as E2'.
  { destruct (entry second fs) as [[i ino']|] eqn:E; [|done].
    by rewrite (un_entries _ _ (debris_untouched _ Hf) _ _ _ E) in E2. }
  probe_step. probe_step. apply rename_probe; [done|done|done|intros; probe_end|]. clear f Hf E2. intros f Hf.
  probe_step. apply safe_lock_identity_calm; [by apply debris_untouched|apply Hf|probe_end|]. intros _.
  probe_step. probe_step. unfold open_directory. probe_step; [probe_end|]. case_decide; [|probe_end].
  probe_step. probe_step. apply flush_probe; [done|intros; probe_end|]. intros f3 Hf3 _ _. clear f Hf H1. rename f3 into f, Hf3 into Hf.
  probe_step. probe_step. apply remove_probe; [done|done|intros; probe_end|]. clear f Hf. intros f Hf E2.
  probe_step. probe_step. apply flush_probe; [done|intros; probe_end|]. intros f2 Hf2 En Ei.
  probe_step. apply probe_gone_wp; [done|intros; probe_end|]. intros E1.
  probe_step. apply probe_gone_wp; [done|intros; probe_end|]. intros E3.
  probe_step. apply safe_lock_identity_calm; [by apply debris_untouched| |probe_end|].
  { destruct Hx as [ino2 Hx]. exists ino2. by apply (un_inodes _ _ (debris_untouched _ Hf2)). }
  intros _. probe_step. by split.
Qed.

Lemma cleanup_path_wp q (Q : res Empty_set (list bytes) -> FsState -> Prop) f :
  debris f -> (forall l f', debris f' -> Q (Ok l) f') -> wp T J (cleanup_path (Some h) q) Q f.
Proof.
  intros Hf HQ. unfold cleanup_path, symlink_metadata. probe_step. probe_step; [probe_step; by apply HQ|].
  destruct (entry q f) as [[i ino]|] eqn:E; [|probe_step; by apply HQ]. probe_step.
  apply safe_lock_identity_calm; [by apply debris_untouched|apply Hf|probe_step; by apply HQ|]. intros Hq. probe_step.
  destruct (debris_probe q f Hf Hq) as [_ Hnone].
  apply remove_probe; [done|done|intros e; probe_step; by apply HQ|]. intros f' Hf' _. probe_step. by apply HQ.
Qed.

Lemma sync_probe d (Q : res io_Error unit -> FsState -> Prop) f :
  debris f -> (forall r f', debris f' -> r <> Panic -> Q r f') -> wp T J (sync_directory d) Q f.
Proof.
  intros Hf HQ. unfold sync_directory, open_directory. probe_step. probe_step; [by apply HQ|].
  case_decide; [|by apply HQ]. apply flush_probe; [done|by intros; apply HQ|]. intros. by apply HQ.
Qed.

Lemma probe_cleanup_wp d (Q : res Empty_set (option io_Error) -> FsState -> Prop) f :
  debris f -> (forall c f', debris f' -> Q (Ok c) f') -> wp T J (probe_cleanup d first second (Some h)) Q f.
Proof.
  intros Hf HQ. unfold probe_cleanup. probe_step. apply cleanup_path_wp; [done|]. intros l1 f1 H1. probe_step.
  apply cleanup_path_wp; [done|]. intros l2 f2 H2. probe_step. apply sync_probe; [done|]. intros r f3 H3 Hr.
  probe_step. destruct r; [by apply HQ..|done].
Qed.
End probing.

(** Cleaning up where the probe was never made. *)
Section no_probe.
Context (T : Tick -> Prop) `{Calm T} (fs : FsState).
Notation J := (untouched fs).

Lemma cleanup_path_none q (Q : res Empty_set (list bytes) -> FsState -> Prop) f :
  J f -> (forall l, Q (Ok l) f) -> wp T J (cleanup_path None q) Q f.
Proof.
  intros Hf HQ. unfold cleanup_path, symlink_metadata. apply wp_match.
  apply calm_query; [done|done|intros; apply wp_ret, HQ|].
  destruct (entry q f) as [[i ino]|]; [|apply wp_ret, HQ]. apply wp_match, wp_ret, wp_ret, HQ.
Qed.

Lemma probe_cleanup_none d first second (Q : res Empty_set (option io_Error) -> FsState -> Prop) f :
  J f -> (forall c f', J f' -> Q (Ok c) f') -> wp T J (probe_cleanup d first second None) Q f.
Proof.
  intros Hf HQ. unfold probe_cleanup. apply wp_bind, cleanup_path_none; [done|]. intros l1.
  apply wp_bind, cleanup_path_none; [done|]. intros l2. apply wp_match, wp_bind. unfold open_directory.
  apply calm_query; [done|done|intros; by apply wp_ret, HQ|]. case_decide; [|by apply wp_ret, HQ].
  assert (J (flush_dir d f)) as Hfl by (by destruct Hf).
  apply calm_update; [done|done|intros; by apply wp_ret, HQ|done|]. by apply wp_ret, HQ.
Qed.
End no_probe.

(** ** The whole probe *)
Lemma new_file_debris first second mode fs :
  names fs !! first = None ->
  debris fs first second (next_inode fs) (link first (next_inode fs) (empty_file mode) fs).
Proof.
  intros Hn. split; [| | |done]; cbn.
  - intros q. rewrite lookup_insert. case_decide as E; [subst q|by left]. right. split; [by left|].
    split; [|by left]. unfold entry. by rewrite Hn.
  - intros i Hi. by rewrite lookup_insert_ne.
  - by rewrite lookup_insert_eq.
Qed.

(** What the probe answers: all is as it was after a success, nothing is lost otherwise. *)
Definition no_trace (fs : FsState) (r : res io_Error entropy) (f : FsState) : Prop :=
  untouched fs f /\ match r with
                    | Ok _ => forall q, entry q f = entry q fs
                    | Err _ => True
                    | Panic => False
                    end.

Lemma probe_run (T : Tick -> Prop) `{Calm T} l x first second payload e fs :
  is_Some (inodes fs !! x) ->
  wp T (untouched fs)
    (match! probe_body l x first second payload with r =>
     match r with
     | Ok (Ok tt, _) => io_ret (Ok e)
     | Ok (Err error, file) =>
         match! probe_cleanup (il_dir l) first second file with c =>
         match c with
         | Ok None => io_ret (Err error)
         | Ok (Some cleanup_error) =>
             io_ret (Err (mkIo (io_kind error) (io_text error ++ bs "; startup probe cleanup in " ++ il_dir l
                                                ++ bs " also failed: " ++ io_text cleanup_error)))
         | _ => io_ret Panic
         end
     | _ => io_ret Panic
     end) (no_trace fs) fs.
Proof.
  intros Hx. assert (forall error, wp T (untouched fs)
      (match! probe_cleanup (il_dir l) first second None with c =>
       match c with
       | Ok None => io_ret (Err error)
       | Ok (Some cleanup_error) =>
           io_ret (Err (mkIo (io_kind error) (io_text error ++ bs "; startup probe cleanup in " ++ il_dir l
                                              ++ bs " also failed: " ++ io_text cleanup_error)))
       | _ => io_ret Panic
       end) (no_trace fs) fs) as Hnone.
  { intros error. apply wp_match, probe_cleanup_none; [done|apply untouched_refl|].
    intros [ce|] f' Hf'; apply wp_ret; by split. }
  apply wp_match. unfold probe_body, at_path. apply wp_match, wp_map_err.
  apply calm_update; [done|apply untouched_refl|intros; apply wp_ret, Hnone| |];
    (destruct (names fs !! first) as [i|] eqn:En; [by first [apply untouched_refl|apply wp_ret, Hnone]|];
     unfold make_file; case_decide; [|by first [apply untouched_refl|apply wp_ret, Hnone]]).
  - apply (debris_untouched fs first second (next_inode fs)); [apply next_inode_free|by apply new_file_debris].
  - pose proof (next_inode_free fs) as Hnew. pose proof (next_inode_unnamed fs) as Hun.
    cbn [fst snd map_err]. apply wp_match. eapply wp_mono; [apply (probe_steps_wp fs first second (next_inode fs)); try done|].
    { by apply new_file_debris. }
    intros r f [Hf Hr]. apply wp_ret. destruct r as [[]|error|]; [| |done].
    + destruct Hr as (E1 & E2 & E2'). apply wp_ret. split; [by apply (debris_untouched fs first second (next_inode fs))|]. intros q. by apply (debris_gone fs first second (next_inode fs)).
    + apply wp_match. apply (probe_cleanup_wp fs first second (next_inode fs)); try done.
      intros [ce|] f' Hf'; apply wp_ret; (split; [by apply (debris_untouched fs first second (next_inode fs))|done]).
Qed.

Lemma random_bytes_total rng_error n e : random_probe_bytes rng_error n e <> Panic.
Proof. unfold random_probe_bytes, draw. by destruct (n <=? length e)%nat. Qed.

Lemma probe_token_total rng_error e : probe_token rng_error e <> Panic.
Proof.
  unfold probe_token. pose proof (random_bytes_total rng_error 16 e).
  by destruct (random_probe_bytes rng_error 16 e) as [[]| |].
Qed.

(** The startup probe leaves no trace: at every moment, whichever step fails and whenever
    the machine stops, every file of before is there and as it was; after a success nothing
    else is; and the probe never panics. *)
Lemma probe_leaves_no_trace (rng_error : bytes) (l : InstanceLock) (e : entropy) (fs : FsState)
    (Hlock : forall x, il_file l = Some x -> is_Some (inodes fs !! x)) :
  wp calm (untouched fs) (probe_storage_root rng_error l e)
    (fun r f => untouched fs f /\ match r with
                                  | Ok _ => forall q, entry q f = entry q fs
                                  | Err _ => True
                                  | Panic => False
                                  end) fs.
Proof.
  assert (forall e, no_trace fs (Err e) fs) as Herr by (split; [apply untouched_refl|done]).
  unfold probe_storage_root, at_dir. apply wp_bind, wp_ret. destruct (il_file l) as [x|]; [|done]. cbn [ok_or].
  specialize (Hlock x eq_refl). apply wp_bind, safe_lock_identity_calm; [apply _|apply untouched_refl|done|by apply wp_ret|].
  intros _. apply wp_bind, wp_map_err, wp_ret.
  pose proof (probe_token_total rng_error e) as H1. destruct (probe_token rng_error e) as [[first_token e1]|err|]; [|split; [apply untouched_refl|done]|done].
  apply wp_bind, wp_map_err, wp_ret.
  pose proof (probe_token_total rng_error e1) as H2. destruct (probe_token rng_error e1) as [[second_token e2]|err|]; [|split; [apply untouched_refl|done]|done].
  cbv iota beta. cbn [map_err]. case_bool_decide; [by apply wp_ret|]. cbn [negb]. apply wp_bind, wp_map_err, wp_ret.
  pose proof (random_bytes_total rng_error PROBE_BYTES e2) as H3.
  destruct (random_probe_bytes rng_error PROBE_BYTES e2) as [[payload e3]|err|]; [|split; [apply untouched_refl|done]|done]. by apply probe_run.
Qed.

Lemma probe_leaves_no_trace_witness :
  let l := mkLock (Some 5) 1 (mkPath (bs "/w") LOCK_FILE) (bs "/w") (bs "pid=42") in
  (forall x, il_file l = Some x -> is_Some (inodes demo_locked !! x)) /\
  wp calm (untouched demo_locked) (probe_storage_root (bs "closed") l (byte_of <$> (N.of_nat <$> seq 0 96)))
    (fun r f => untouched demo_locked f /\ match r with
                                           | Ok _ => forall q, entry q f = entry q demo_locked
                                           | Err _ => True
                                           | Panic => False
                                           end) demo_locked.
Proof.
  assert (forall x, Some 5 = Some x -> is_Some (inodes demo_locked !! x)) as Hl by (intros x [= <-]; by eexists).
  split; [exact Hl|].
  exact (probe_leaves_no_trace (bs "closed") (mkLock (Some 5) 1 (mkPath (bs "/w") LOCK_FILE) (bs "/w") (bs "pid=42")) _ demo_locked Hl).
Defined.
