(* ===== verification/Update.v ===== *)
(** * Updates of record fields

    [r <| f := v |>] is [r] with [v] for its field [f], what [r.f = v] does in the code.  A
    record takes part by one instance of [Fields], its eta expansion. *)

From S2P Require Import Prelude.

Class Update {R A : Type} (f : R -> A) : Type := update : (A -> A) -> R -> R.
Class Fields (R : Type) : Type := fields : R -> R.

(** The update of [f] is the eta expansion with the occurrence of [f] abstracted. *)
Ltac field_update f :=
  match type of f with
  | ?R -> ?A =>
      let e := constr:(fields : R -> R) in
      let e := eval cbv [fields] in e in
      let e := eval hnf in e in
      let e := eval pattern f in e in
      match e with ?s _ => exact (fun g : A -> A => s (fun r : R => g (f r))) end
  end.
#[export] Hint Extern 1 (Update ?f) => field_update f : typeclass_instances.

Notation "r '<|' f ':=' v '|>'" := (update (f := f) (fun _ => v) r)
  (at level 12, left associativity, f at level 0) : rust_scope.
Notation "r '<|' f '::=' g '|>'" := (update (f := f) g r)
  (at level 12, left associativity, f at level 0) : rust_scope.

(** Updates of the same fields: computing first keeps conversion from comparing the records
    that fields are read from. *)
Ltac same_fields := vm_compute; reflexivity.
