(* ===== verification/ChainData.v ===== *)
(** * What the chain service hands to the application

    The data types of crates/cc-wallet-chain/src/wallet_service.rs that the state and the
    controllers of the application hold: fee estimates, destination reports, the pool of the
    DEX, a prepared send and what became of one broadcast attempt. *)

From Stdlib Require Import NArith ZArith Lia.
From S2P Require Import Prelude Ord Bytes Ids Asset Amount Digest Send Journal.

Inductive DestinationAccountStatus := NonExist | Uninit | Frozen | Active.

#[export] Instance DestinationAccountStatus_eq_dec : EqDecision DestinationAccountStatus.
Proof. solve_decision. Defined.

(** [DestinationAccountStatus::is_active]. *)
Definition status_is_active (s : DestinationAccountStatus) : bool :=
  match s with Active => true | _ => false end.

Record FeeEstimate := mkFeeEstimate { fee_nanos : N; fee_deploy : bool }.

Record DestinationReport := mkReport {
  dr_status : DestinationAccountStatus;
  dr_encrypt_key : option bytes32
}.

Record PoolSnapshot := mkPool {
  po_address : bytes;
  po_owner : bytes;
  po_fee_bps : N;
  po_paused : bool;
  po_native_reserve : N;
  po_cc_reserves : btree N N
}.

Definition reserve_units (p : PoolSnapshot) (asset : AssetId) : N :=
  match asset with
  | Native => po_native_reserve p
  | CurrencyCollection id => default 0 (bt_get id (po_cc_reserves p))
  end.

Definition supports (p : PoolSnapshot) (asset : AssetId) : bool := 0 <? reserve_units p asset.

(** A send that is signed and may be broadcast over [candidate_count] routes.  The route
    and the signed message themselves stay with the chain service. *)
Record PreparedChainSend := mkPreparedSend {
  ps_prepared_record : PreparedRecord;
  ps_created_at_ms : N;
  ps_candidate_count : N
}.

Definition ps_record_id (p : PreparedChainSend) : RecordId := t_record_id (pr_ticket (ps_prepared_record p)).
Definition ps_external_hash (p : PreparedChainSend) : Digest32 := pr_ext_msg_hash (ps_prepared_record p).
Definition ps_expire_at (p : PreparedChainSend) : N := pr_expire_at (ps_prepared_record p).
Definition ps_route_id (p : PreparedChainSend) : bytes :=
  p_route_id (pr_prepare_provenance (ps_prepared_record p)).
Definition ps_request (p : PreparedChainSend) : SendRequest := t_request (pr_ticket (ps_prepared_record p)).

Inductive CandidateBroadcastOutcome :=
| NotTransmitted (detail : bytes) (retry_next_candidate : bool)
| OutcomeMayHaveBroadcast (detail : bytes)
| OutcomeNodeResponseObserved (request_id : bytes) (response : NodeResponseKind) (detail : bytes).

(** [DEFAULT_TTL_SECS] and [RISK_OVERRIDE_COOLING_SECS], with the margin of 10 seconds
    [CLOCK_SKEW_MARGIN_SECS] of cc-wallet-tycho. *)
Definition DEFAULT_TTL_SECS : N := 60.
Definition CLOCK_SKEW_MARGIN_SECS : N := 10.
Definition RISK_OVERRIDE_COOLING_SECS : N := DEFAULT_TTL_SECS + 2 * CLOCK_SKEW_MARGIN_SECS.

Inductive ChainError :=
| ChainInvalidInput (message : bytes) | ChainInsufficientFunds (message : bytes) | ChainWallet (message : bytes).

Definition ChainError_display (e : ChainError) : bytes :=
  match e with ChainInvalidInput message | ChainInsufficientFunds message | ChainWallet message => message end.

(** How a swap or a storage request was sent (crates/cc-wallet-app/src/event.rs). *)
Record BroadcastDispatch := mkDispatch {
  bd_outcome : CandidateBroadcastOutcome;
  bd_ext_msg_hash : Digest32;
  bd_broadcast_started_at : N
}.
