(* ===== verification/AppState.v ===== *)
(** * The state of the application

    crates/cc-wallet-app/src/state.rs: what the user interface shows and the controllers
    change, and the questions the interface asks of it: whether a send or swap may be
    started, what it would be, and what is wrong with it.  The fields of the explorer and of
    network statistics, which nothing here reads, are left out. *)

From Stdlib Require Import NArith ZArith Lia.
From S2P Require Import Prelude Ord Bytes Text Decimal Ids Asset Amount Digest Affordability Send Swap.
From S2P Require Import StorageRecord Profile Clock Risk Journal ChainData Update.

(** ** Time

    What [Instant::now] and [SystemTime::now] return, in nanoseconds: monotonic time since
    some start, and wall time since the Unix epoch. *)
Record Reading := mkReading { r_mono : N; r_wall : Z }.

Definition NANOS : N := 1000000000.

(** [now_unix] (controller/mod.rs). *)
Definition now_unix (r : Reading) : N := Z.to_N (r_wall r / Z.of_N NANOS).

Record Deadline := mkDeadline { d_monotonic : N; d_wall : Z }.

(** [Deadline::after]. *)
Definition deadline_after (r : Reading) (nanos : N) : Deadline :=
  mkDeadline (r_mono r + nanos) (r_wall r + Z.of_N nanos)%Z.

Definition expired (r : Reading) (d : Deadline) : bool :=
  (d_monotonic d <=? r_mono r) || (d_wall d <=? r_wall r)%Z.

Definition remaining_secs (r : Reading) (d : Deadline) : N :=
  let monotonic := saturating_sub (d_monotonic d) (r_mono r) in
  let wall := Z.to_N (d_wall d - r_wall r) in
  let remaining := N.min monotonic wall in
  N.min u32_max ((remaining / 1000000 + 999) / 1000).

(** ** Data *)
Definition HARDCODED_SEND_FEE_NANOS : N := 7400000.
Definition SWAP_NATIVE_CUSHION : N := 300000000.
Definition SWAP_MAX_NATIVE_RESERVE : N := 1000000000.
Definition CHAT_ATTACH_NANOS : N := 1.
Definition MAX_STORAGE_RECORDS : N := 512.

Inductive AppTab := TabWallet | TabSwap | TabContacts | TabExplorer | TabStorage | TabSettings.

Inductive RecipientCheck := Unchecked | CheckPending | CheckFailed | Known (status : DestinationAccountStatus).

Inductive AppPhase := Selecting | Onboarding | Locked | Unlocked.

Inductive LiveStatus := Offline | Connecting | Live | LiveError.

Inductive PersistenceHealth := Unavailable | QuarantineRequired | WritePending | Ready | HealthFailed.

Inductive AuthMode := AuthCreate | AuthEnter | AuthConfirm.

Inductive AuthPurpose :=
| ForSend | ForSwap | ForStorage | ForRevealRecords | ForChangePassword | ForRevealSeed | ForDeleteWallet
| ForChangeSecuritySetting.

#[export] Instance AppPhase_eq_dec : EqDecision AppPhase.
Proof. solve_decision. Defined.
#[export] Instance PersistenceHealth_eq_dec : EqDecision PersistenceHealth.
Proof. solve_decision. Defined.
#[export] Instance AuthPurpose_eq_dec : EqDecision AuthPurpose.
Proof. solve_decision. Defined.

Record AuthModal := mkAuthModal {
  am_open : bool;
  am_mode : AuthMode;
  am_purpose : AuthPurpose;
  am_send_options_editable : bool;
  am_error : bytes
}.
#[export] Instance AuthModal_fields : Fields AuthModal := fun a =>
  mkAuthModal (am_open a) (am_mode a) (am_purpose a) (am_send_options_editable a) (am_error a).

Definition AuthModal_default : AuthModal := mkAuthModal false AuthEnter ForSend false [].

Record SwapFigures := mkFigures { fg_sent : AssetAmount; fg_out_asset : AssetId; fg_out_units : N }.

Record SwapReceipt := mkSwapReceipt {
  rc_sent : AssetAmount;
  rc_out_asset : AssetId;
  rc_expected_out_units : N;
  rc_min_out_units : N;
  rc_slippage_bps : N;
  rc_pool : bytes;
  rc_ext_msg_hash : option Digest32;
  rc_submitted_unix : N;
  rc_received_units : option N;
  rc_returned_units : option N;
  rc_fee_native : N
}.
#[export] Instance SwapReceipt_fields : Fields SwapReceipt := fun r =>
  mkSwapReceipt (rc_sent r) (rc_out_asset r) (rc_expected_out_units r) (rc_min_out_units r) (rc_slippage_bps r)
    (rc_pool r) (rc_ext_msg_hash r) (rc_submitted_unix r) (rc_received_units r) (rc_returned_units r)
    (rc_fee_native r).

Definition is_some {A} (o : option A) : bool := match o with Some _ => true | None => false end.
Definition is_none {A} (o : option A) : bool := match o with Some _ => false | None => true end.

Definition receipt_settled (r : SwapReceipt) : bool := is_some (rc_received_units r) || is_some (rc_returned_units r).
Definition receipt_returned (r : SwapReceipt) : bool := is_none (rc_received_units r) && is_some (rc_returned_units r).

Record SwapUi := mkSwapUi {
  sw_form : SwapForm;
  sw_pool : option PoolSnapshot;
  sw_pool_loading : bool;
  sw_pool_error : bytes;
  sw_quote : option SwapQuote;
  sw_swapping : bool;
  sw_confirm : option SwapFigures;
  sw_slippage_input : bytes;
  sw_receipt : option SwapReceipt
}.
#[export] Instance SwapUi_fields : Fields SwapUi := fun s =>
  mkSwapUi (sw_form s) (sw_pool s) (sw_pool_loading s) (sw_pool_error s) (sw_quote s) (sw_swapping s)
    (sw_confirm s) (sw_slippage_input s) (sw_receipt s).

Definition SwapUi_default : SwapUi :=
  mkSwapUi SwapForm_default None false [] None false None
    (format_slippage_percent (swap_slippage_bps SwapForm_default)) None.

Record ChatLine := mkChatLine {
  cl_outgoing : bool;
  cl_time_unix : N;
  cl_lt : N;
  cl_text : bytes;
  cl_sealed : bool;
  cl_locked : bool;
  cl_pending : bool
}.

Record ChatUi := mkChatUi {
  ch_open : bool;
  ch_peer : bytes;
  ch_lines : list ChatLine;
  ch_error : bytes;
  ch_peer_key_known : bool;
  ch_peer_active : bool;
  ch_loading : bool;
  ch_draft : bytes;
  ch_sending : bool
}.
#[export] Instance ChatUi_fields : Fields ChatUi := fun c =>
  mkChatUi (ch_open c) (ch_peer c) (ch_lines c) (ch_error c) (ch_peer_key_known c) (ch_peer_active c)
    (ch_loading c) (ch_draft c) (ch_sending c).

Definition ChatUi_default : ChatUi := mkChatUi false [] [] [] false false false [] false.

Definition draft_limit : nat := MAX_ENCRYPTED_COMMENT_BYTES.

(** [ChatUi::can_send]. *)
Definition chat_can_send (c : ChatUi) : bool :=
  ch_open c && ch_peer_key_known c && ch_peer_active c && negb (ch_sending c)
  && negb (bool_decide (trim (ch_draft c) = [])) && (length (ch_draft c) <=? draft_limit)%nat.

Record StorageUi := mkStorageUi {
  su_address : bytes;
  su_exists : bool;
  su_balance : N;
  su_records : list StorageRecord;
  su_unreadable : N;
  su_loading : bool;
  su_loaded : bool;
  su_error : bytes;
  su_busy : bool;
  su_pending_label : bytes;
  su_title_input : bytes;
  su_data_input : bytes;
  su_form_error : bytes;
  su_notice : bytes;
  su_revealed : bool;
  su_reveal_ttl_secs : N;
  su_pending_danger : bool
}.
#[export] Instance StorageUi_fields : Fields StorageUi := fun s =>
  mkStorageUi (su_address s) (su_exists s) (su_balance s) (su_records s) (su_unreadable s) (su_loading s)
    (su_loaded s) (su_error s) (su_busy s) (su_pending_label s) (su_title_input s) (su_data_input s)
    (su_form_error s) (su_notice s) (su_revealed s) (su_reveal_ttl_secs s) (su_pending_danger s).

Definition StorageUi_default : StorageUi :=
  mkStorageUi [] false 0 [] 0 false false [] false [] [] [] [] [] false 0 false.

Definition taken_ids (s : StorageUi) : list N := st_id <$> su_records s.

(** [StorageUi::is_full]. *)
Definition storage_is_full (s : StorageUi) : bool :=
  MAX_STORAGE_RECORDS <=? N.of_nat (length (su_records s)).

Definition add_enabled (s : StorageUi) : bool :=
  su_exists s && negb (su_busy s) && negb (su_loading s)
  && is_ok (validate_record (su_title_input s) (su_data_input s)) && negb (storage_is_full s).

Definition form_message (s : StorageUi) : bytes :=
  if negb (bool_decide (su_form_error s = [])) then su_form_error s else
  if bool_decide (trim (su_title_input s) = []) && bool_decide (su_data_input s = []) then [] else
  match validate_record (su_title_input s) (su_data_input s) with
  | Ok _ => if storage_is_full s
            then bs "The storage already holds " ++ print_dec MAX_STORAGE_RECORDS ++ bs " records"
            else []
  | Err error => bs (StorageError_display error)
  | Panic => []
  end.

(** [s_seed] and [s_confirmed_seed] are the phrases; [SeedPhrase] is shared, never changed. *)
Record AppState := mkAppState {
  s_phase : AppPhase;
  s_key_busy : bool;
  s_lock_error : bytes;
  s_selected_tab : AppTab;
  s_network_id : Z;
  s_workchain : Z;
  s_network_mismatch : bool;
  s_network_name : bytes;
  s_default_endpoint : option bytes;
  s_custom_endpoints : list bytes;
  s_selected_endpoint : N;
  s_endpoint_test_result : bytes;
  s_seed : bytes;
  s_confirmed_seed : bytes;
  s_seed_saved : bool;
  s_seed_editing : bool;
  s_show_seed : bool;
  s_seed_reveal_deadline : option Deadline;
  s_seed_unsaved : bool;
  s_seed_backup_confirmed : bool;
  s_clipboard_notice : bytes;
  s_seed_copy_ttl_secs : N;
  s_onboard_import_valid : bool;
  s_autosign_mins : N;
  s_screen_lock_mins : N;
  s_autosign_until : option Deadline;
  s_wallet_names : list bytes;
  s_active_wallet : bytes;
  s_auth : AuthModal;
  s_derived_wallet_address : bytes;
  s_wallet : option WalletSnapshot;
  s_selected_asset : AssetId;
  s_send_form : SendForm;
  s_fee_estimate : option FeeEstimate;
  s_fee_estimating : bool;
  s_fee_estimate_stale : bool;
  s_max_refining : bool;
  s_recipient_check : RecipientCheck;
  s_recipient_encrypt_key : option bytes32;
  s_allow_unbounced : bool;
  s_journal_blocking : bool;
  s_active_reservations : list Reservation;
  s_risk_override_eligible : bool;
  s_journal_status : bytes;
  s_risk_review_open : bool;
  s_risk_review_details : bytes;
  s_risk_overlap_labels : list bytes;
  s_risk_overlap_selected : list bool;
  s_risk_requires_duplicate_confirmation : bool;
  s_contacts : list AddressBookEntry;
  s_visible_cc_assets : list N;
  s_activity : list ActivityEvent;
  s_busy : bool;
  s_sending : bool;
  s_auto_refreshing : bool;
  s_history_incomplete : bool;
  s_snapshot_refresh_error : option bytes;
  s_history_integrity_error : option bytes;
  s_history_corrupt : bool;
  s_persistence_health : PersistenceHealth;
  s_kdf_weak : bool;
  s_persistence_error : option bytes;
  s_send_form_error : bool;
  s_send_form_prior_error : option bytes;
  s_send_form_prior_status : option bytes;
  s_send_form_error_message : option bytes;
  s_error : option bytes;
  s_status : bytes;
  s_live_status : LiveStatus;
  s_subscription_status : bytes;
  s_swap : SwapUi;
  s_storage : StorageUi;
  s_chat : ChatUi;
  s_pending_transfer : option SendRequest;
  s_records_reveal_deadline : option Deadline
}.
#[export] Instance AppState_fields : Fields AppState := fun s =>
  mkAppState (s_phase s) (s_key_busy s) (s_lock_error s) (s_selected_tab s) (s_network_id s) (s_workchain s)
    (s_network_mismatch s) (s_network_name s) (s_default_endpoint s) (s_custom_endpoints s)
    (s_selected_endpoint s) (s_endpoint_test_result s) (s_seed s) (s_confirmed_seed s) (s_seed_saved s)
    (s_seed_editing s) (s_show_seed s) (s_seed_reveal_deadline s) (s_seed_unsaved s)
    (s_seed_backup_confirmed s) (s_clipboard_notice s) (s_seed_copy_ttl_secs s) (s_onboard_import_valid s)
    (s_autosign_mins s) (s_screen_lock_mins s) (s_autosign_until s) (s_wallet_names s) (s_active_wallet s)
    (s_auth s) (s_derived_wallet_address s) (s_wallet s) (s_selected_asset s) (s_send_form s)
    (s_fee_estimate s) (s_fee_estimating s) (s_fee_estimate_stale s) (s_max_refining s)
    (s_recipient_check s) (s_recipient_encrypt_key s) (s_allow_unbounced s) (s_journal_blocking s)
    (s_active_reservations s) (s_risk_override_eligible s) (s_journal_status s) (s_risk_review_open s)
    (s_risk_review_details s) (s_risk_overlap_labels s) (s_risk_overlap_selected s)
    (s_risk_requires_duplicate_confirmation s) (s_contacts s) (s_visible_cc_assets s) (s_activity s)
    (s_busy s) (s_sending s) (s_auto_refreshing s) (s_history_incomplete s) (s_snapshot_refresh_error s)
    (s_history_integrity_error s) (s_history_corrupt s) (s_persistence_health s) (s_kdf_weak s)
    (s_persistence_error s) (s_send_form_error s) (s_send_form_prior_error s) (s_send_form_prior_status s)
    (s_send_form_error_message s) (s_error s) (s_status s) (s_live_status s) (s_subscription_status s)
    (s_swap s) (s_storage s) (s_chat s) (s_pending_transfer s) (s_records_reveal_deadline s).

(** [AppState::default]. *)
Definition AppState_default : AppState := {|
  s_phase := Onboarding; s_key_busy := false; s_lock_error := []; s_selected_tab := TabSettings;
  s_network_id := DEFAULT_NETWORK_ID; s_workchain := DEFAULT_WORKCHAIN; s_network_mismatch := false;
  s_network_name := []; s_default_endpoint := None; s_custom_endpoints := []; s_selected_endpoint := 0;
  s_endpoint_test_result := []; s_seed := []; s_confirmed_seed := []; s_seed_saved := false;
  s_seed_editing := false; s_show_seed := false; s_seed_reveal_deadline := None; s_seed_unsaved := false;
  s_seed_backup_confirmed := false; s_clipboard_notice := []; s_seed_copy_ttl_secs := 0;
  s_onboard_import_valid := false; s_autosign_mins := DEFAULT_AUTOSIGN_MINS;
  s_screen_lock_mins := DEFAULT_SCREEN_LOCK_MINS; s_autosign_until := None; s_wallet_names := [];
  s_active_wallet := []; s_auth := AuthModal_default; s_derived_wallet_address := []; s_wallet := None;
  s_selected_asset := Native; s_send_form := SendForm_default; s_fee_estimate := None;
  s_fee_estimating := false; s_fee_estimate_stale := false; s_max_refining := false;
  s_recipient_check := Unchecked; s_recipient_encrypt_key := None; s_allow_unbounced := false;
  s_journal_blocking := false; s_active_reservations := []; s_risk_override_eligible := false;
  s_journal_status := []; s_risk_review_open := false; s_risk_review_details := [];
  s_risk_overlap_labels := []; s_risk_overlap_selected := [];
  s_risk_requires_duplicate_confirmation := false; s_contacts := []; s_visible_cc_assets := [];
  s_activity := []; s_busy := false; s_sending := false; s_auto_refreshing := false;
  s_history_incomplete := false; s_snapshot_refresh_error := None; s_history_integrity_error := None;
  s_history_corrupt := false; s_persistence_health := Unavailable; s_kdf_weak := false;
  s_persistence_error := None; s_send_form_error := false; s_send_form_prior_error := None;
  s_send_form_prior_status := None; s_send_form_error_message := None; s_error := None;
  s_status := bs "Settings required"; s_live_status := Offline;
  s_subscription_status := bs "not subscribed"; s_swap := SwapUi_default; s_storage := StorageUi_default;
  s_chat := ChatUi_default; s_pending_transfer := None; s_records_reveal_deadline := None
|}.

#[export] Instance SendForm_fields : Fields SendForm := fun f =>
  Build_SendForm (form_token f) (form_destination f) (form_amount f) (form_comment f) (form_encrypt f).

(** ** Swaps *)
Section state.
Context `{StdAddrLib}.

Definition swap_request (s : AppState) : res Empty_set (option SwapRequest) :=
  let form := sw_form (s_swap s) in
  let? input := ok (swap_input form) in
  match input with
  | None => Ok None
  | Some input =>
      let min_out := match sw_quote (s_swap s) with Some quote => q_min_out_units quote | None => 0 end in
      ok (SwapRequest_new input (to_asset form) min_out (clamped_slippage_bps form))
  end.

Definition swap_pool_assets (s : AppState) : list AssetId :=
  match sw_pool (s_swap s) with
  | None => []
  | Some pool => List.filter (supports pool) (meta_id <$> all_supported_assets)
  end.

Definition swap_slippage_typed_ok (s : AppState) : bool :=
  is_some (parse_slippage_percent (sw_slippage_input (s_swap s))).

Definition can_afford_swap (s : AppState) (request : SwapRequest) : res Empty_set bool :=
  match s_wallet s with
  | None => Ok false
  | Some wallet =>
      let? units := in_units request in
      let? balance := balance_for wallet (in_asset request) in
      let? balance := base_units_u128 balance in
      let have_input := match balance with Some b => units <=? b | None => false end in
      let? native := balance_for wallet Native in
      let native := default 0 (native_units native) in
      let native_needed := if is_native (in_asset request)
                           then saturating_add u128_max units SWAP_NATIVE_CUSHION
                           else SWAP_NATIVE_CUSHION in
      Ok (have_input && (native_needed <=? native))
  end.

Definition swap_button_enabled (s : AppState) : res Empty_set bool :=
  if sw_swapping (s_swap s) || is_none (s_wallet s) then Ok false else
  if negb (swap_slippage_typed_ok s) then Ok false else
  match sw_pool (s_swap s) with
  | None => Ok false
  | Some pool =>
      if po_paused pool then Ok false else
      let? request := swap_request s in
      match request with
      | Some request => can_afford_swap s request
      | None => Ok false
      end
  end.

(** ** Endpoints *)
Definition endpoint_display_list (s : AppState) : list bytes :=
  match s_default_endpoint s with Some default => [default] | None => [] end ++ s_custom_endpoints s.

Definition selected_endpoint_index (s : AppState) : N :=
  match N.of_nat (length (endpoint_display_list s)) with
  | 0 => 0
  | len => N.min (s_selected_endpoint s) (len - 1)
  end.

Definition resolved_endpoint (s : AppState) : res Empty_set bytes :=
  let list := endpoint_display_list s in
  if bool_decide (list = []) then Ok [] else
  expect (list !! N.to_nat (N.min (s_selected_endpoint s) (N.of_nat (length list) - 1))).

(** ** What blocks sending *)
Inductive SendBlockReason :=
| PersistenceNotReady | RefreshInvalid | NetworkMismatch | NetworkTimeUnavailable | JournalBlocking.

Definition SendBlockReason_message (r : SendBlockReason) : string :=
  match r with
  | PersistenceNotReady => "Sending is blocked until the wallet journal is durably writable again"
  | RefreshInvalid => "Sending is blocked until balances and transaction history complete a valid refresh"
  | NetworkMismatch => "Sending is blocked because this endpoint serves a different network than the wallet"
  | NetworkTimeUnavailable =>
      "Sending is blocked until the wallet has a valid network time from the current endpoint"
  | JournalBlocking =>
      "An earlier transfer is unresolved. Ordinary signing remains blocked; use only the explicit duplicate-risk flow after its cooling period."
  end.

Definition send_safety_block_reason (s : AppState) : res Empty_set (option SendBlockReason) :=
  if negb (bool_decide (s_persistence_health s = Ready)) then Ok (Some PersistenceNotReady) else
  if is_some (s_snapshot_refresh_error s) || is_some (s_history_integrity_error s)
  then Ok (Some RefreshInvalid) else
  if s_network_mismatch s then Ok (Some NetworkMismatch) else
  let? endpoint := resolved_endpoint s in
  let network_time_ok :=
    match s_wallet s ≫= ws_observed_network_time with
    | Some observation => bool_decide (ont_source_endpoint observation = endpoint)
    | None => false
    end in
  if negb network_time_ok then Ok (Some NetworkTimeUnavailable) else
  if s_journal_blocking s then Ok (Some JournalBlocking) else
  Ok None.

(** ** Errors and the overlay of the send form *)
Definition set_error (error : bytes) (s : AppState) : AppState :=
  s <| s_status := bs "Error" |> <| s_send_form_error := false |> <| s_send_form_prior_error := None |>
    <| s_send_form_prior_status := None |> <| s_send_form_error_message := None |>
    <| s_error := Some error |>.

Definition set_send_form_error (error : bytes) (s : AppState) : AppState :=
  let s := if s_send_form_error s then s else
             s <| s_send_form_prior_error := s_error s |> <| s_error := None |>
               <| s_send_form_prior_status := Some (s_status s) |> in
  s <| s_status := bs "Error" |> <| s_send_form_error := true |>
    <| s_send_form_error_message := Some error |> <| s_error := Some error |>.

(** [Option::or]. *)
Definition option_or {A} (a b : option A) : option A := match a with Some _ => a | None => b end.

Definition clear_send_form_error (s : AppState) : AppState :=
  if s_send_form_error s then
    let overlay_is_current := bool_decide (s_error s = s_send_form_error_message s) in
    let prior_error := s_send_form_prior_error s in
    let prior_status := s_send_form_prior_status s in
    let s := s <| s_send_form_error := false |> <| s_send_form_error_message := None |>
               <| s_send_form_prior_error := None |> <| s_send_form_prior_status := None |> in
    if overlay_is_current then
      s <| s_error := option_or (s_persistence_error s) prior_error |>
        <| s_status := if is_some (s_persistence_error s) then bs "Error"
                       else default (s_status s) prior_status |>
    else s
  else s.

Definition clear_error (s : AppState) : AppState :=
  s <| s_send_form_error := false |> <| s_send_form_prior_error := None |>
    <| s_send_form_prior_status := None |> <| s_send_form_error_message := None |>
    <| s_error := s_persistence_error s |>.

(** ** Visible assets *)

(** [BTreeSet::insert] and [remove] on the ascending list. *)
Fixpoint bset_insert (x : N) (l : list N) : list N :=
  match l with
  | [] => [x]
  | y :: l' => match x ?= y with Lt => x :: l | Eq => l | Gt => y :: bset_insert x l' end
  end.

Definition bset_remove (x : N) (l : list N) : list N := List.filter (fun y => negb (y =? x)) l.

Definition bset_contains (x : N) (l : list N) : bool := existsb (N.eqb x) l.

Definition asset_is_visible (s : AppState) (asset : AssetId) : bool :=
  match asset with
  | Native => true
  | CurrencyCollection id => is_known_cc asset && bset_contains id (s_visible_cc_assets s)
  end.

Definition ensure_selected_asset_visible (s : AppState) : AppState :=
  let to_native (s : AppState) := s <| s_selected_asset := Native |>
                                    <| s_send_form := s_send_form s <| form_token := TokenNative |> |> in
  let s := if asset_is_visible s (s_selected_asset s) then s else to_native s in
  match form_token (s_send_form s) with
  | TokenCc id => if bset_contains id (s_visible_cc_assets s) then s else to_native s
  | TokenNative => s
  end.

Definition set_asset_visibility (id : N) (visible : bool) (s : AppState) : AppState :=
  if negb (existsb (fun asset => bool_decide (cc_id (meta_id asset) = Some id)) known_cc_assets) then s else
  let s := s <| s_visible_cc_assets := (if visible then bset_insert else bset_remove) id (s_visible_cc_assets s) |> in
  ensure_selected_asset_visible s.

Definition select_asset (asset : AssetId) (s : AppState) : AppState :=
  if asset_is_visible s asset then
    s <| s_selected_asset := asset |>
      <| s_send_form := s_send_form s
           <| form_token := match asset with Native => TokenNative | CurrencyCollection id => TokenCc id end |> |>
  else s.

(** ** Profiles *)
Definition apply_profile (profile : WalletProfile) (s : AppState) : AppState :=
  let profile := normalized profile in
  let saved := negb (bool_decide (wp_seed profile = [])) in
  ensure_selected_asset_visible (
    s <| s_network_id := wp_network_id profile |> <| s_workchain := wp_workchain profile |>
      <| s_network_mismatch := false |> <| s_seed := wp_seed profile |>
      <| s_confirmed_seed := wp_seed profile |> <| s_derived_wallet_address := [] |>
      <| s_seed_saved := saved |> <| s_contacts := wp_address_book profile |>
      <| s_visible_cc_assets := wp_visible_cc_assets profile |>
      <| s_autosign_mins := wp_autosign_mins profile |>
      <| s_screen_lock_mins := wp_screen_lock_mins profile |>
      <| s_custom_endpoints := wp_custom_endpoints profile |>
      <| s_selected_endpoint := wp_selected_endpoint profile |>
      <| s_selected_tab := if saved then TabWallet else TabSettings |>
      <| s_status := if saved then bs "Profile loaded" else bs "Settings required" |>).

Definition to_profile (s : AppState) : WalletProfile :=
  let seed := if s_seed_unsaved s then s_confirmed_seed s else s_seed s in
  mkProfile (s_network_id s) (s_workchain s) seed (s_visible_cc_assets s) (s_contacts s) (s_autosign_mins s)
    (s_screen_lock_mins s) (s_custom_endpoints s) (s_selected_endpoint s).

Definition wallet_address (s : AppState) : option bytes :=
  if bool_decide (s_derived_wallet_address s = []) then ws_address <$> s_wallet s
  else Some (s_derived_wallet_address s).

Definition balance_or_zero (s : AppState) (asset : AssetId) : res Empty_set AssetAmount :=
  match s_wallet s with
  | Some wallet => balance_for wallet asset
  | None => match asset with
            | Native => rexpect (amount_native 0)
            | CurrencyCollection id => Ok (currency_collection id cc_zero)
            end
  end.

(** ** Contacts *)
#[export] Instance AddressBookEntry_fields : Fields AddressBookEntry := fun e =>
  Build_AddressBookEntry (ab_name e) (ab_address e) (ab_tag e).

(** The entries but the one at [index], counted from [i]. *)
Fixpoint other_contacts (i : nat) (index : option nat) (l : list AddressBookEntry) : list AddressBookEntry :=
  match l with
  | [] => []
  | e :: l' => if bool_decide (Some i = index) then other_contacts (S i) index l' else e :: other_contacts (S i) index l'
  end.

Fixpoint first_conflict (name address : bytes) (l : list AddressBookEntry) : option string :=
  match l with
  | [] => None
  | entry :: l' =>
      if bool_decide (ab_address entry = address) then Some "A contact with this address already exists." else
      if bool_decide (ab_name entry = name) then Some "A contact with this name already exists." else
      first_conflict name address l'
  end.

Definition contact_conflict (s : AppState) (index : option nat) (name address : bytes) : option string :=
  first_conflict name address (other_contacts 0 index (s_contacts s)).

Definition save_contact_entry (index : option nat) (name address tag : bytes) (s : AppState)
  : res bytes AppState :=
  let name := trim name in
  let address := trim address in
  let tag := trim tag in
  if bool_decide (name = []) then Err (bs "contact name is empty") else
  let? address := map_err (fun e => bs (WalletError_display e)) (canonicalize_recipient address) in
  match contact_conflict s index name address with
  | Some conflict => Err (bs conflict)
  | None =>
      let entry := Build_AddressBookEntry name address tag in
      match index with
      | Some i => if (i <? length (s_contacts s))%nat
                  then Ok (s <| s_contacts := <[i := entry]> (s_contacts s) |>)
                  else Ok (s <| s_contacts := s_contacts s ++ [entry] |>)
      | None => Ok (s <| s_contacts := s_contacts s ++ [entry] |>)
      end
  end.

Definition delete_contact (index : nat) (s : AppState) : AppState :=
  if (index <? length (s_contacts s))%nat then s <| s_contacts := delete index (s_contacts s) |> else s.

(** [Vec::remove] and [Vec::insert]. *)
Definition reorder_contact (from to : nat) (s : AppState) : AppState :=
  let n := length (s_contacts s) in
  if bool_decide (from = to) || (n <=? from)%nat || (n <=? to)%nat then s else
  match s_contacts s !! from with
  | Some entry =>
      let rest := delete from (s_contacts s) in
      s <| s_contacts := take to rest ++ entry :: drop to rest |>
  | None => s
  end.

(** ** The signing window *)
Definition within_autosign (r : Reading) (s : AppState) : bool :=
  match s_autosign_until s with Some deadline => negb (expired r deadline) | None => false end.

Definition extend_autosign (r : Reading) (s : AppState) : AppState :=
  s <| s_autosign_until := Some (deadline_after r (s_autosign_mins s * 60 * NANOS)) |>.

(** ** The recipient *)
Definition recipient_valid (s : AppState) : bool := recipient_is_valid (form_destination (s_send_form s)).

Definition recipient_known_inactive (s : AppState) : bool :=
  match s_recipient_check s with Known status => negb (status_is_active status) | _ => false end.

Definition send_bounce (s : AppState) : bool := negb (s_allow_unbounced s && recipient_known_inactive s).

Definition recipient_inactive (s : AppState) : bool := recipient_valid s && recipient_known_inactive s.

Definition verified_chat_peer (s : AppState) : option bytes :=
  if ch_open (s_chat s) && ch_peer_active (s_chat s) && ch_peer_key_known (s_chat s)
  then Some (ch_peer (s_chat s)) else None.

Definition pending_transfer_is_verified_chat_reply (s : AppState) : bool :=
  match s_pending_transfer s, verified_chat_peer s with
  | Some request, Some peer => bool_decide (sr_destination request = peer)
  | _, _ => false
  end.

Definition recipient_send_permitted (s : AppState) (risk_override : bool) : bool :=
  match s_recipient_check s with
  | Known status => if status_is_active status then true else s_allow_unbounced s || risk_override
  | _ => false
  end.

Definition signing_recipient_permitted (s : AppState) (risk_override : bool) : bool :=
  pending_transfer_is_verified_chat_reply s || recipient_send_permitted s risk_override.

Definition reset_recipient_status (s : AppState) : AppState :=
  s <| s_recipient_check := Unchecked |> <| s_allow_unbounced := false |> <| s_recipient_encrypt_key := None |>
    <| s_send_form := s_send_form s <| form_encrypt := false |> |>.

(** ** The request of the send form *)
Definition sealing_key_for_comment (s : AppState) : option bytes32 :=
  if negb (form_encrypt (s_send_form s)) || bool_decide (form_comment (s_send_form s) = []) then None
  else s_recipient_encrypt_key s.

Definition send_request (s : AppState) : res WalletError SendRequest :=
  let? request := form_request (s_send_form s) in
  Ok (sealed_to request (sealing_key_for_comment s)).

Definition native_request_of (s : AppState) (destination : bytes) (units : N) : res WalletError SendRequest :=
  let? request := request_native destination units in
  Ok (sealed_to (with_comment request (form_comment (s_send_form s))) (sealing_key_for_comment s)).

Definition comment_limit (s : AppState) : nat :=
  if form_encrypt (s_send_form s) then MAX_ENCRYPTED_COMMENT_BYTES else MAX_COMMENT_BYTES.

Definition encrypt_available (s : AppState) : bool := recipient_valid s && is_some (s_recipient_encrypt_key s).

Definition encrypt_hint (s : AppState) : string :=
  if encrypt_available s || negb (recipient_valid s) then "" else
  match s_recipient_check s with
  | Unchecked | CheckPending => ""
  | CheckFailed => "could not read this recipient's account"
  | Known _ => "this recipient publishes no key to encrypt to"
  end.

(** [parse_send_amount] on the form's token and amount. *)
Definition form_send_amount (s : AppState) : res WalletError AssetAmount :=
  parse_send_amount (token_asset_id (form_token (s_send_form s))) (form_amount (s_send_form s)).

Definition amount_positive (s : AppState) : res Empty_set bool := is_ok_and (form_send_amount s) (fun _ => true).

Definition risk_override_form_ready (s : AppState) : res Empty_set bool :=
  is_ok_and (form_request (s_send_form s)) (fun _ => true).

(** ** Fees and balances *)
Definition effective_send_fee (s : AppState) : N :=
  match s_fee_estimate s with Some estimate => fee_nanos estimate | None => HARDCODED_SEND_FEE_NANOS end.

Definition pending_send_fee_bound (s : AppState) : N :=
  saturating_add u128_max (N.max (effective_send_fee s) HARDCODED_SEND_FEE_NANOS) LOCAL_SEND_FEE_HEADROOM_NANOS.

Definition affordable_send_fee (s : AppState) : option N :=
  let fee := effective_send_fee s in
  if fee <=? LOCAL_SEND_FEE_CEILING_NANOS then Some fee else None.

(** The balances of the snapshot, the native one first. *)
Fixpoint balances_for (wallet : WalletSnapshot) (assets : list AssetId) : res Empty_set (list AssetAmount) :=
  match assets with
  | [] => Ok []
  | asset :: assets' =>
      let? balance := balance_for wallet asset in
      let? balances := balances_for wallet assets' in
      Ok (balance :: balances)
  end.

Definition snapshot_balances (wallet : WalletSnapshot) : res Empty_set (list AssetAmount) :=
  balances_for wallet (Native :: (CurrencyCollection <$> bt_keys (ws_extra_balance wallet))).

Definition can_afford_amount_at_fee (s : AppState) (amount : AssetAmount) (overlap : list Reservation)
    (fee_units : N) : res Empty_set bool :=
  match s_wallet s with
  | None => Ok false
  | Some wallet =>
      let? fee := ok (amount_native fee_units) in
      match fee with
      | None => Ok false
      | Some fee =>
          let? balances := snapshot_balances wallet in
          let? requested := match asset_id amount with
                            | Native => let? total := ok (checked_add_same_asset amount fee) in
                                        Ok ((fun total => [total]) <$> total)
                            | CurrencyCollection _ => Ok (Some [amount; fee])
                            end in
          match requested with
          | None => Ok false
          | Some requested =>
              is_ok_and (evaluate_affordability balances (s_active_reservations s) overlap requested) is_affordable
          end
      end
  end.

Definition can_afford_amount (s : AppState) (amount : AssetAmount) (overlap : list Reservation)
  : res Empty_set bool :=
  match affordable_send_fee s with
  | None => Ok false
  | Some fee_units => can_afford_amount_at_fee s amount overlap fee_units
  end.

Definition can_afford_send (s : AppState) : res Empty_set bool :=
  let? amount := ok (form_send_amount s) in
  match amount with
  | None => Ok false
  | Some amount => can_afford_amount s amount []
  end.

Definition can_afford_request_with_overlap (s : AppState) (request : SendRequest) (overlap : list Reservation)
  : res Empty_set bool := can_afford_amount s (sr_value request) overlap.

(** [&&] of the code: the second operand is only evaluated when the first holds. *)
Definition and_then (a b : res Empty_set bool) : res Empty_set bool :=
  let? x := a in if x : bool then b else Ok false.

Definition amount_exceeds_balance (s : AppState) : res Empty_set bool :=
  and_then (Ok (negb (s_sending s) && is_some (s_wallet s)))
    (and_then (amount_positive s) (rmap negb (can_afford_send s))).

Definition comment_fits (s : AppState) : bool := (length (form_comment (s_send_form s)) <=? comment_limit s)%nat.

(** [send_safety_block_reason().is_none()]. *)
Definition not_blocked (s : AppState) : res Empty_set bool := rmap is_none (send_safety_block_reason s).

Definition send_enabled (s : AppState) : res Empty_set bool :=
  and_then (not_blocked s)
  (and_then (Ok (negb (s_busy s) && negb (s_sending s) && negb (s_max_refining s) && recipient_valid s))
  (and_then (amount_positive s)
  (and_then (Ok (comment_fits s)) (can_afford_send s)))).

Definition send_ready (s : AppState) : res Empty_set bool :=
  if negb (s_fee_estimate_stale s) then send_enabled s else
  let? amount := ok (form_send_amount s) in
  match amount with
  | None => Ok false
  | Some amount =>
      and_then (not_blocked s)
      (and_then (Ok (negb (s_busy s) && negb (s_sending s) && negb (s_max_refining s) && recipient_valid s))
        (can_afford_amount_at_fee s amount [] (pending_send_fee_bound s)))
  end.
End state.

(** ** The overlay of the send form *)

(** The error and status the send form's errors are laid over. *)
Definition underlying (s : AppState) : option bytes * bytes :=
  (option_or (s_persistence_error s) (s_error s),
   if is_some (s_persistence_error s) then bs "Error" else s_status s).

(** The state while the overlay lies over [base]. *)
Definition overlaid (base s : AppState) : Prop :=
  exists error, s = base <| s_send_form_error := true |> <| s_send_form_prior_error := s_error base |>
                        <| s_send_form_prior_status := Some (s_status base) |>
                        <| s_send_form_error_message := Some error |> <| s_status := bs "Error" |>
                        <| s_error := Some error |>.

Lemma set_send_form_error_overlaid base error :
  s_send_form_error base = false -> overlaid base (set_send_form_error error base).
Proof. intros H. exists error. unfold set_send_form_error. by rewrite H. Qed.

Lemma overlaid_again base s error : overlaid base s -> overlaid base (set_send_form_error error s).
Proof. intros [e ->]. by exists error. Qed.

Lemma overlaid_clear base s :
  s_send_form_error base = false -> s_send_form_error_message base = None -> s_send_form_prior_error base = None ->
  s_send_form_prior_status base = None -> overlaid base s ->
  clear_send_form_error s = base <| s_error := fst (underlying base) |> <| s_status := snd (underlying base) |>.
Proof.
  intros H1 H2 H3 H4 [error ->]. unfold clear_send_form_error.
  cbn [update s_send_form_error s_error s_send_form_error_message].
  rewrite bool_decide_eq_true_2 by done. destruct base; cbn in *; subst. by destruct s_persistence_error0.
Qed.

(** Errors of the send form never lose what they cover. However many are shown after
    one another, clearing them brings back the error and the status from before the first,
    or the persistence failure where there is one, and leaves everything else as it was. *)
Lemma send_form_overlay_restores (base : AppState) (errors : list bytes) :
  s_send_form_error base = false -> s_send_form_error_message base = None -> s_send_form_prior_error base = None ->
  s_send_form_prior_status base = None -> errors <> [] ->
  clear_send_form_error (fold_left (fun s error => set_send_form_error error s) errors base)
  = base <| s_error := fst (underlying base) |> <| s_status := snd (underlying base) |>.
Proof.
  intros H1 H2 H3 H4 Hne. apply overlaid_clear; [done..|].
  destruct errors as [|e errors]; [done|]. cbn [fold_left].
  assert (overlaid base (set_send_form_error e base)) as Ho by by apply set_send_form_error_overlaid.
  revert Ho. generalize (set_send_form_error e base) as s.
  induction errors as [|e' errors IH]; intros s Ho; [done|]. by apply IH, overlaid_again.
Qed.

Lemma send_form_overlay_restores_witness :
  let base := AppState_default <| s_error := Some (bs "offline") |> <| s_status := bs "Live" |> in
  clear_send_form_error (fold_left (fun s error => set_send_form_error error s) [bs "a"; bs "b"] base) = base.
Proof.
  intros base. rewrite (send_form_overlay_restores base [bs "a"; bs "b"]); [reflexivity|reflexivity..|discriminate].
Defined.

(** ** Well-formed states

    What the operations above keep: the profile the state stands for is typed and already
    in normal form, so that storing and reading it changes nothing, and the asset shown and
    the token of the form are ones that can be seen. *)
Record wf_state (s : AppState) : Prop := {
  wfs_profile : wf_profile (to_profile s);
  wfs_normal : normalized (to_profile s) = to_profile s;
  wfs_asset : asset_is_visible s (s_selected_asset s) = true;
  wfs_token : asset_is_visible s (token_asset_id (form_token (s_send_form s))) = true
}.

(** The operations of the interface on the state. *)
Inductive StateOp :=
| OpSetError (error : bytes) | OpSetSendFormError (error : bytes) | OpClearSendFormError | OpClearError
| OpSetAssetVisibility (id : N) (visible : bool) | OpSelectAsset (asset : AssetId)
| OpApplyProfile (profile : WalletProfile)
| OpSaveContact (index : option nat) (name address tag : bytes) | OpDeleteContact (index : nat)
| OpReorderContact (from to : nat)
| OpExtendAutosign (now : Reading) | OpResetRecipientStatus.

Section operations.
Context `{StdAddrLib}.

Definition apply_op (o : StateOp) (s : AppState) : AppState :=
  match o with
  | OpSetError error => set_error error s
  | OpSetSendFormError error => set_send_form_error error s
  | OpClearSendFormError => clear_send_form_error s
  | OpClearError => clear_error s
  | OpSetAssetVisibility id visible => set_asset_visibility id visible s
  | OpSelectAsset asset => select_asset asset s
  | OpApplyProfile profile => apply_profile profile s
  | OpSaveContact index name address tag =>
      match save_contact_entry index name address tag s with Ok s' => s' | _ => s end
  | OpDeleteContact index => delete_contact index s
  | OpReorderContact from to => reorder_contact from to s
  | OpExtendAutosign now => extend_autosign now s
  | OpResetRecipientStatus => reset_recipient_status s
  end.

(** The only input that has to be typed is a profile. *)
Definition op_typed (o : StateOp) : Prop :=
  match o with
  | OpApplyProfile p => wf_profile p /\ N.of_nat (length (wp_custom_endpoints p)) <= u64_max
  | _ => True
  end.
End operations.

(** What [wf_state] looks at. *)
Definition wf_view (s : AppState) := (to_profile s, s_selected_asset s, form_token (s_send_form s)).

Lemma wf_view_state s s' : wf_view s' = wf_view s -> wf_state s -> wf_state s'.
Proof.
  intros Hv [Hp Hn Ha Ht].
  pose proof (f_equal (fun v => fst (fst v)) Hv) as H1. pose proof (f_equal (fun v => snd (fst v)) Hv) as H2.
  pose proof (f_equal snd Hv) as H3. pose proof (f_equal wp_visible_cc_assets H1) as H4. clear Hv.
  cbn [wf_view fst snd] in *. change (s_visible_cc_assets s' = s_visible_cc_assets s) in H4.
  constructor; [by rewrite H1..| |].
  - rewrite H2. destruct (s_selected_asset s); [done|]. cbn in *. by rewrite H4.
  - rewrite H3. destruct (form_token (s_send_form s)); [done|]. cbn in *. by rewrite H4.
Qed.

Lemma ensure_visible_wf s :
  wf_profile (to_profile s) -> normalized (to_profile s) = to_profile s ->
  (forall id, form_token (s_send_form s) = TokenCc id -> is_known_cc (CurrencyCollection id) = true) ->
  wf_state (ensure_selected_asset_visible s).
Proof.
  intros Hp Hn Hk. unfold ensure_selected_asset_visible. cbv zeta.
  destruct (asset_is_visible s (s_selected_asset s)) eqn:Ha; [|by split].
  destruct (form_token (s_send_form s)) as [|id] eqn:Ht; [constructor; [done..|by rewrite Ht]|].
  destruct (bset_contains id (s_visible_cc_assets s)) eqn:Hc; [|by split].
  constructor; [done..|]. rewrite Ht. cbn. by rewrite Hk, Hc.
Qed.

Lemma bset_insert_spec x l y : y ∈ bset_insert x l <-> y = x \/ y ∈ l.
Proof.
  induction l as [|z l IH]; cbn; [by rewrite elem_of_cons|].
  destruct (N.compare_spec x z) as [->| |]; rewrite ?elem_of_cons, ?IH; tauto.
Qed.

Lemma bset_insert_sorted x l : StronglySorted N.lt l -> StronglySorted N.lt (bset_insert x l).
Proof.
  induction 1 as [|z l Hl IH Hz]; cbn; [repeat constructor|].
  destruct (N.compare_spec x z) as [->|Hlt|Hgt]; [by constructor| |].
  - constructor; [by constructor|]. constructor; [done|]. eapply Forall_impl; [done|]. cbn. lia.
  - constructor; [done|]. apply Forall_forall. intros y [->|Hy]%bset_insert_spec; [done|].
    rewrite Forall_forall in Hz. by apply Hz.
Qed.

Lemma bset_contains_spec x l : bset_contains x l = true <-> x ∈ l.
Proof.
  unfold bset_contains. rewrite existsb_exists. setoid_rewrite <- list_elem_of_In. setoid_rewrite N.eqb_eq.
  naive_solver.
Qed.

Lemma known_cc_id id : is_known_cc (CurrencyCollection id) = true <-> is_known_cc_id id = true.
Proof. done. Qed.

Lemma is_known_cc_id_bound id : is_known_cc_id id = true -> id <= u32_max.
Proof.
  unfold is_known_cc_id. cbn. intros H. unfold u32_max.
  repeat (apply orb_true_iff in H as [H|H]); try done; bprop; injection H as <-; lia.
Qed.

(** The visible assets and the contacts of a profile in normal form, changed. *)
Definition with_lists (p : WalletProfile) (visible : list N) (book : list AddressBookEntry) : WalletProfile :=
  mkProfile (wp_network_id p) (wp_workchain p) (wp_seed p) visible book (wp_autosign_mins p)
    (wp_screen_lock_mins p) (wp_custom_endpoints p) (wp_selected_endpoint p).

Lemma normalized_with_lists p visible book :
  normalized p = p -> Forall (fun id => is_known_cc_id id = true) visible ->
  Forall (fun e => normalized_entry e = Some e) book ->
  normalized (with_lists p visible book) = with_lists p visible book.
Proof.
  intros Hp Hv Hb.
  assert (normalized (with_lists p visible book) = with_lists (normalized p)
    (List.filter is_known_cc_id visible) (omap normalized_entry book)) as -> by done.
  by rewrite Hp, filter_fixed, omap_fixed.
Qed.

Lemma normal_visible p : normalized p = p -> Forall (fun id => is_known_cc_id id = true) (wp_visible_cc_assets p).
Proof.
  intros Hp. apply Forall_forall. intros id Hin. rewrite <- Hp in Hin. cbn in Hin.
  by apply elem_of_filter_bool in Hin as [_ Hin].
Qed.

Lemma normal_book p : normalized p = p -> Forall (fun e => normalized_entry e = Some e) (wp_address_book p).
Proof.
  intros Hp. apply Forall_forall. intros e Hin. rewrite <- Hp in Hin. cbn in Hin.
  apply list_elem_of_omap in Hin as (e0 & _ & He). by apply normalized_entry_Some in He as [He _].
Qed.

Lemma wf_with_contacts s book :
  Forall (fun e => normalized_entry e = Some e) book -> wf_state s -> wf_state (s <| s_contacts := book |>).
Proof.
  intros Hb [Hp Hn Ha Ht]. constructor; [done| |done|done].
  apply (normalized_with_lists _ (s_visible_cc_assets s) book Hn); [exact (normal_visible _ Hn)|done].
Qed.

Lemma set_asset_visibility_wf id visible s : wf_state s -> wf_state (set_asset_visibility id visible s).
Proof.
  intros [Hp Hn Ha Ht]. unfold set_asset_visibility. destruct (existsb _ _) eqn:Hk; [|by split]. cbn [negb].
  destruct Hp as (H1 & H2 & H3 & [H4 H5] & Hp). pose proof (normal_visible _ Hn) as Hv. rewrite Forall_forall in Hv, H5.
  assert (Hin : forall y, y ∈ (if visible then bset_insert else bset_remove) id (s_visible_cc_assets s) ->
    y = id \/ y ∈ s_visible_cc_assets s).
  { destruct visible; intros y Hy; [by apply bset_insert_spec|].
    apply elem_of_filter_bool in Hy as [Hy _]. by right. }
  assert (Hsort : StronglySorted N.lt ((if visible then bset_insert else bset_remove) id (s_visible_cc_assets s))).
  { destruct visible; [by apply bset_insert_sorted|by apply StronglySorted_filter_bool]. }
  revert Hin Hsort. generalize ((if visible then bset_insert else bset_remove) id (s_visible_cc_assets s)) as v.
  intros v Hin Hsort. apply ensure_visible_wf.
  - split; [done|]. split; [done|]. split; [done|]. split; [|done]. split; [done|]. apply Forall_forall. intros y [->|Hy]%Hin; [by apply is_known_cc_id_bound|by apply H5].
  - apply (normalized_with_lists _ v _ Hn); [|exact (normal_book _ Hn)].
    apply Forall_forall. intros y [->|Hy]%Hin; [done|by apply Hv].
  - intros id' Heq. cbn in Heq. rewrite Heq in Ht. cbn in Ht. by apply andb_true_iff in Ht as [Ht _].
Qed.

Lemma apply_profile_wf p s :
  wf_profile p -> N.of_nat (length (wp_custom_endpoints p)) <= u64_max ->
  (forall id, form_token (s_send_form s) = TokenCc id -> is_known_cc (CurrencyCollection id) = true) ->
  wf_state (apply_profile p s).
Proof.
  intros Hp Hl Ht. unfold apply_profile. cbv zeta. 
  assert (forall x : AppState, to_profile x = normalized p -> form_token (s_send_form x) = form_token (s_send_form s) ->
    wf_state (ensure_selected_asset_visible x)) as Hx; [|apply Hx].
  - intros x Hq Hf. apply ensure_visible_wf; rewrite ?Hq, ?Hf; [by apply normalized_wf|apply normalized_idemp|done].
  - unfold to_profile. destruct s, s_seed_unsaved0; cbn; by destruct p.
  - done.
Qed.

Section contacts.
Context `{StdAddrLaws}.

Lemma entry_normal name address tag :
  trim name <> [] -> (exists a, canonicalize_recipient a = Ok address) ->
  normalized_entry (Build_AddressBookEntry (trim name) address (trim tag))
  = Some (Build_AddressBookEntry (trim name) address (trim tag)).
Proof.
  intros Hn [a Ha]. apply canonicalize_Ok in Ha as (w & h & Hw & -> & _).
  unfold normalized_entry. cbn [ab_name ab_address ab_tag]. rewrite !trim_idemp.
  rewrite (trim_graphic (raw_address w h)) by apply raw_address_graphic.
  rewrite bool_decide_eq_false_2 by done. rewrite bool_decide_eq_false_2; [done|].
  unfold raw_address. intros E. by destruct (print_z w).
Qed.

(** What saving a contact does: the entry, without conflict, in its place or at the end. *)
Lemma save_contact_entry_Ok index name address tag s s' :
  save_contact_entry index name address tag s = Ok s' ->
  exists address', canonicalize_recipient (trim address) = Ok address' /\ trim name <> [] /\
    contact_conflict s index (trim name) address' = None /\
    let entry := Build_AddressBookEntry (trim name) address' (trim tag) in
    (exists i, index = Some i /\ (i < length (s_contacts s))%nat /\
       s' = s <| s_contacts := <[i := entry]> (s_contacts s) |>) \/
    ((forall i, index = Some i -> (length (s_contacts s) <= i)%nat) /\
       s' = s <| s_contacts := s_contacts s ++ [entry] |>).
Proof.
  unfold save_contact_entry. intros Hs. case_bool_decide as Hn; [done|].
  apply rbind_Ok in Hs as (a & Ha%map_err_Ok & Hs).
  destruct (contact_conflict s index (trim name) a) eqn:Hc; [done|]. exists a.
  split; [done|]. split; [done|]. split; [done|]. cbv zeta.
  destruct index as [i|]; [|injection Hs as <-; right; by split].
  destruct (Nat.ltb_spec i (length (s_contacts s))) as [Hlt|Hge]; injection Hs as <-.
  - left. by exists i.
  - right. split; [|done]. by intros ? [= <-].
Qed.

Lemma save_contact_wf index name address tag s s' :
  save_contact_entry index name address tag s = Ok s' -> wf_state s -> wf_state s'.
Proof.
  intros (address' & Hc & Hn & _ & Hs)%save_contact_entry_Ok Hwf.
  pose proof (normal_book _ (wfs_normal _ Hwf)) as Hb. change (wp_address_book (to_profile s)) with (s_contacts s) in Hb.
  pose proof (entry_normal name address' tag Hn (ex_intro _ _ Hc)) as He.
  destruct Hs as [(i & _ & Hlt & ->)|[_ ->]]; apply wf_with_contacts; [|done| |done].
  - by apply Forall_insert.
  - apply Forall_app. split; [done|by constructor].
Qed.
End contacts.

Lemma reorder_contact_cases from to s :
  reorder_contact from to s = s \/
  exists entry, s_contacts s !! from = Some entry /\ (to < length (s_contacts s))%nat /\
    reorder_contact from to s
    = s <| s_contacts := take to (delete from (s_contacts s)) ++ entry :: drop to (delete from (s_contacts s)) |>.
Proof.
  unfold reorder_contact. destruct (bool_decide (from = to)) eqn:E1; [by left|].
  destruct (Nat.leb_spec (length (s_contacts s)) from) as [|Hf]; [by left|].
  destruct (Nat.leb_spec (length (s_contacts s)) to) as [|Ht]; [by left|]. right. cbn [orb].
  destruct (lookup_lt_is_Some_2 _ _ Hf) as [entry He]. exists entry. by rewrite He.
Qed.

Lemma reorder_contact_perm from to s : s_contacts (reorder_contact from to s) ≡ₚ s_contacts s.
Proof.
  destruct (reorder_contact_cases from to s) as [->|(entry & He & _ & ->)]; [done|].
  cbn [update s_contacts]. rewrite <- Permutation_middle, take_drop. symmetry. by apply delete_Permutation.
Qed.

Lemma reorder_contact_at from to s :
  (from < length (s_contacts s))%nat -> (to < length (s_contacts s))%nat ->
  s_contacts (reorder_contact from to s) !! to = s_contacts s !! from.
Proof.
  intros Hf Ht. unfold reorder_contact. case_bool_decide as Heq; [by rewrite Heq|].
  rewrite (proj2 (Nat.leb_gt _ _)), (proj2 (Nat.leb_gt _ _)) by done. cbn [orb].
  destruct (lookup_lt_is_Some_2 _ _ Hf) as [entry He]. rewrite He. cbn [update s_contacts].
  assert (length (take to (delete from (s_contacts s))) = to) as Hl.
  { rewrite length_take, length_delete by (by exists entry). lia. }
  by apply list_lookup_middle.
Qed.

Lemma ensure_visible_contacts s : s_contacts (ensure_selected_asset_visible s) = s_contacts s.
Proof.
  unfold ensure_selected_asset_visible. cbv zeta. destruct (asset_is_visible s (s_selected_asset s)); [|done].
  destruct (form_token _); [done|]. by destruct (bset_contains _ _).
Qed.

Section typed.
Context `{StdAddrLaws}.

Lemma token_known s id :
  wf_state s -> form_token (s_send_form s) = TokenCc id -> is_known_cc (CurrencyCollection id) = true.
Proof. intros Hw Heq. pose proof (wfs_token _ Hw) as Ht. rewrite Heq in Ht. by apply andb_true_iff in Ht as [Ht _]. Qed.

Lemma select_asset_wf asset s : wf_state s -> wf_state (select_asset asset s).
Proof.
  intros [Hp Hn Ha Ht]. unfold select_asset. destruct (asset_is_visible s asset) eqn:Hv; [|by split].
  constructor; [done..|]. by destruct asset.
Qed.

(** C32: the state stays well typed: whatever operation is applied, the profile the state
    stands for is within the widths of its fields and in normal form, and the selected
    asset and the token of the form are visible ones. *)
Theorem apply_op_wf (o : StateOp) (s : AppState) :
  op_typed o -> wf_state s -> wf_state (apply_op o s).
Proof.
  intros Ho Hw. destruct o; cbn [apply_op op_typed] in *.
  - by apply (wf_view_state s).
  - apply (wf_view_state s); [|done]. unfold set_send_form_error. by destruct (s_send_form_error s).
  - apply (wf_view_state s); [|done]. unfold clear_send_form_error.
    destruct (s_send_form_error s); [|done]. cbv zeta. by destruct (bool_decide (s_error s = _)).
  - by apply (wf_view_state s).
  - by apply set_asset_visibility_wf.
  - by apply select_asset_wf.
  - destruct Ho. apply apply_profile_wf; [done..|]. intros id. by apply token_known.
  - destruct (save_contact_entry _ _ _ _ _) eqn:Hs; [by eapply save_contact_wf|done..].
  - unfold delete_contact. destruct (_ <? _)%nat; [|done]. apply wf_with_contacts; [|done].
    by apply Forall_delete, (normal_book _ (wfs_normal _ Hw)).
  - destruct (reorder_contact_cases from to s) as [->|(entry & He & _ & Hr)]; [done|].
    pose proof (reorder_contact_perm from to s) as Hperm. rewrite Hr in Hperm |- *. cbn [update s_contacts] in Hperm.
    apply wf_with_contacts; [|done]. rewrite Hperm. exact (normal_book _ (wfs_normal _ Hw)).
  - by apply (wf_view_state s).
  - by apply (wf_view_state s).
Qed.

(** ** Contacts *)

(** No two contacts share a name or an address. *)
Definition contacts_distinct (s : AppState) : Prop :=
  NoDup (ab_name <$> s_contacts s) /\ NoDup (ab_address <$> s_contacts s).

Lemma first_conflict_None name address l :
  first_conflict name address l = None <-> Forall (fun e => ab_address e <> address /\ ab_name e <> name) l.
Proof.
  induction l as [|e l IH]; cbn; [by split|]. rewrite Forall_cons, <- IH.
  repeat case_bool_decide; naive_solver.
Qed.

Lemma other_contacts_spec l : forall i index e,
  e ∈ other_contacts i index l <-> exists j, l !! j = Some e /\ Some (i + j)%nat <> index.
Proof.
  induction l as [|x l IH]; intros i index e; cbn [other_contacts].
  { rewrite elem_of_nil. split; [done|]. by intros (j & ? & _). }
  assert (Hs : (exists j, (x :: l) !! j = Some e /\ Some (i + j)%nat <> index) <->
    (x = e /\ Some i <> index) \/ exists j, l !! j = Some e /\ Some (S i + j)%nat <> index).
  { split.
    - intros ([|j] & Hl & Hi); [left; rewrite Nat.add_0_r in Hi; by injection Hl as ->|right].
      exists j. by rewrite Nat.add_succ_l, <- Nat.add_succ_r.
    - intros [[-> Hi]|(j & Hl & Hi)]; [exists 0%nat; by rewrite Nat.add_0_r|].
      exists (S j). by rewrite Nat.add_succ_r. }
  rewrite Hs. case_bool_decide as E; rewrite ?elem_of_cons, IH; naive_solver.
Qed.

Lemma contact_conflict_None s index name address :
  contact_conflict s index name address = None <->
  forall j e, s_contacts s !! j = Some e -> Some j <> index -> ab_address e <> address /\ ab_name e <> name.
Proof.
  unfold contact_conflict. rewrite first_conflict_None, Forall_forall.
  setoid_rewrite other_contacts_spec. cbn. split; intros Hall.
  - intros j e He Hj. apply Hall. by exists j.
  - intros e (j & He & Hj). by apply (Hall j e).
Qed.

(** Putting a value where no other entry has it keeps a list duplicate free. *)
Lemma NoDup_insert_fresh {A B} (f : A -> B) (l : list A) i x :
  NoDup (f <$> l) -> (forall j e, l !! j = Some e -> j <> i -> f e <> f x) -> NoDup (f <$> <[i := x]> l).
Proof.
  intros Hnd Hx. rewrite list_fmap_insert. apply NoDup_alt. rewrite NoDup_alt in Hnd. intros j k v Hj Hk.
  apply list_lookup_insert_Some in Hj as [(-> & <- & _)|[Hji Hj]];
    apply list_lookup_insert_Some in Hk as [(-> & Hv & _)|[Hki Hk]]; [done| | |by eapply Hnd].
  - apply list_lookup_fmap_Some in Hk as (e & Hv & He). exfalso. by apply (Hx k e).
  - apply list_lookup_fmap_Some in Hj as (e & Hv' & He). exfalso. apply (Hx j e); congruence.
Qed.

Lemma save_contact_distinct index name address tag s s' :
  save_contact_entry index name address tag s = Ok s' -> contacts_distinct s -> contacts_distinct s'.
Proof.
  intros (a & _ & _ & Hc & Hs)%save_contact_entry_Ok [Hn Ha]. rewrite contact_conflict_None in Hc.
  destruct Hs as [(i & -> & _ & ->)|[Hi ->]]; unfold contacts_distinct; cbn [update s_contacts].
  - split; apply NoDup_insert_fresh; try done; intros j e He Hj; apply (Hc j e He); congruence.
  - assert (Hall : forall e, e ∈ s_contacts s -> ab_address e <> a /\ ab_name e <> trim name).
    { intros e [j Hj]%list_elem_of_lookup. apply (Hc j e Hj). intros <-.
      apply lookup_lt_Some in Hj. specialize (Hi j eq_refl). lia. }
    rewrite !fmap_app, !NoDup_app. cbn. split; (split; [done|]); (split; [|apply NoDup_singleton]);
      intros x (e & -> & He)%list_elem_of_fmap Heq%list_elem_of_singleton; by apply Hall in He as [].
Qed.

Lemma contacts_distinct_perm s s' :
  s_contacts s' ≡ₚ s_contacts s -> contacts_distinct s -> contacts_distinct s'.
Proof. intros Hp [Hn Ha]. split; by rewrite Hp. Qed.

Lemma contacts_distinct_sub s s' :
  s_contacts s' `sublist_of` s_contacts s -> contacts_distinct s -> contacts_distinct s'.
Proof.
  intros Hp [Hn Ha]. split; [apply (sublist_NoDup _ (ab_name <$> s_contacts s))|
    apply (sublist_NoDup _ (ab_address <$> s_contacts s))]; try done; by apply fmap_sublist.
Qed.

(** Contacts stay distinct: whatever operation of the interface is applied, no two
    contacts get the same name or the same address; a contact that is saved is a trimmed
    name with a canonical address that stands in its place or at the end; and reordering
    moves one contact and drops none. *)
Lemma contacts_stay_distinct (o : StateOp) (s : AppState) (Ho : forall p, o <> OpApplyProfile p)
    (Hs : contacts_distinct s) :
  contacts_distinct (apply_op o s) /\
  match o with
  | OpSaveContact index name address tag =>
      forall s', save_contact_entry index name address tag s = Ok s' ->
        exists a, canonical_recipient a /\ canonicalize_recipient (trim address) = Ok a /\
          let entry := Build_AddressBookEntry (trim name) a (trim tag) in
          s_contacts s' = match index with
                          | Some i => if (i <? length (s_contacts s))%nat then <[i := entry]> (s_contacts s)
                                      else s_contacts s ++ [entry]
                          | None => s_contacts s ++ [entry]
                          end
  | OpReorderContact from to =>
      s_contacts (apply_op o s) ≡ₚ s_contacts s /\
      ((from < length (s_contacts s))%nat -> (to < length (s_contacts s))%nat ->
       s_contacts (apply_op o s) !! to = s_contacts s !! from)
  | _ => True
  end.
Proof.
  destruct o; cbn [apply_op]; try (split; [done|done]).
  - unfold set_send_form_error. by destruct (s_send_form_error s).
  - unfold clear_send_form_error. destruct (s_send_form_error s); [|done]. cbv zeta.
    by destruct (bool_decide (s_error s = _)).
  - split; [|done]. unfold set_asset_visibility. destruct (negb _); [done|]. cbv zeta.
    apply (contacts_distinct_perm s); [|done]. by rewrite ensure_visible_contacts.
  - split; [|done]. unfold select_asset. by destruct (asset_is_visible s asset).
  - by destruct (Ho profile).
  - split.
    + destruct (save_contact_entry _ _ _ _ _) eqn:E; [by eapply save_contact_distinct|done..].
    + intros s' (a & Ha & _ & _ & Hs')%save_contact_entry_Ok. exists a. split; [|split; [done|]].
      { apply canonicalize_Ok in Ha as (w & h & Hw & -> & _). by exists w, h. }
      cbv zeta in *. destruct Hs' as [(i & -> & Hlt & ->)|[Hi ->]]; [by rewrite (proj2 (Nat.ltb_lt _ _))|].
      destruct index as [i|]; [|done]. by rewrite (proj2 (Nat.ltb_ge _ _)) by auto.
  - split; [|done]. unfold delete_contact. destruct (_ <? _)%nat; [|done].
    apply (contacts_distinct_sub s); [|done]. by apply sublist_delete.
  - split; [apply (contacts_distinct_perm s); [apply reorder_contact_perm|done]|].
    split; [apply reorder_contact_perm|]. apply reorder_contact_at.
Qed.
End typed.

(** ** What an enabled send button promises *)

(** The units of an asset in the snapshot. *)
Definition held_units (w : WalletSnapshot) (asset : AssetId) : N :=
  match asset with
  | Native => ws_native_balance w
  | CurrencyCollection id => match bt_get id (ws_extra_balance w) with Some u => cc_value u | None => 0 end
  end.

Lemma balances_for_spec w assets : wf_snapshot w ->
  exists l, balances_for w assets = Ok l /\ Forall in_domain l /\
    l = (fun asset => match asset with
                      | Native => NativeAmount (ws_native_balance w)
                      | CurrencyCollection id => CcAssetAmount id (default cc_zero (bt_get id (ws_extra_balance w)))
                      end) <$> assets.
Proof.
  intros Hw. induction assets as [|asset assets (l & Hl & Hd & ->)]; [by exists []|]. cbn [balances_for].
  destruct (balance_for_ok w asset Hw) as (a & Ha & Hda & _). rewrite Ha, Hl. eexists. split; [done|].
  split; [by constructor|]. cbn [fmap list_fmap]. f_equal. destruct Hw as [Hn _]. destruct asset; cbn in Ha.
  - unfold amount_native in Ha. rewrite (proj2 (N.ltb_ge _ _)) in Ha by done. by injection Ha as <-.
  - injection Ha as <-. by destruct (bt_get id _).
Qed.

Lemma units_for_map asset (f : AssetId -> AssetAmount) assets :
  (forall a, asset_id (f a) = a) -> NoDup assets ->
  units_for asset (f <$> assets) = if bool_decide (asset ∈ assets) then units_of (f asset) else 0.
Proof.
  intros Hf. induction 1 as [|a assets Ha _ IH]; [done|]. cbn [fmap list_fmap units_for foldr].
  change (foldr _ 0 _) with (units_for asset (f <$> assets)). rewrite Hf, IH.
  destruct (decide (a = asset)) as [->|Hne].
  - rewrite (bool_decide_eq_true_2 (asset = asset)), (bool_decide_eq_false_2 (asset ∈ assets)),
      (bool_decide_eq_true_2 (asset ∈ asset :: assets)) by (rewrite ?elem_of_cons; tauto). lia.
  - rewrite (bool_decide_eq_false_2 (a = asset)) by done. rewrite N.add_0_l.
    rewrite (bool_decide_ext (asset ∈ a :: assets) (asset ∈ assets)); [done|].
    rewrite elem_of_cons. naive_solver.
Qed.

Lemma snapshot_balances_units w : wf_snapshot w -> bt_wf (ws_extra_balance w) ->
  exists l, snapshot_balances w = Ok l /\ Forall in_domain l /\ forall asset, units_for asset l = held_units w asset.
Proof.
  intros Hw Hb. unfold snapshot_balances.
  destruct (balances_for_spec w (Native :: (CurrencyCollection <$> bt_keys (ws_extra_balance w))) Hw) as (l & Hl & Hd & ->).
  eexists. split; [done|]. split; [done|]. intros asset. rewrite units_for_map; [|by intros []|].
  - case_bool_decide as Hin.
    + destruct asset; [done|]. cbn. by destruct (bt_get id (ws_extra_balance w)).
    + destruct asset as [|id]; [by destruct Hin; left|]. cbn. destruct (bt_get id (ws_extra_balance w)) eqn:E; [|done].
      destruct Hin. right. apply list_elem_of_fmap_2. by apply bt_contains_true; unfold bt_contains; rewrite E.
  - constructor; [by intros (? & ? & _)%list_elem_of_fmap|].
    apply NoDup_fmap_2; [by intros ?? [=]|]. by apply bt_wf_nodup.
Qed.

(** The units a send of [amount] at [fee] takes of an asset. *)
Definition needed_units (amount : AssetAmount) (fee : N) (asset : AssetId) : N :=
  (if bool_decide (asset_id amount = asset) then units_of amount else 0)
  + (if bool_decide (asset = Native) then fee else 0).

Definition typed_state (s : AppState) : Prop :=
  (forall w, s_wallet s = Some w -> wf_snapshot w /\ bt_wf (ws_extra_balance w)) /\
  Forall in_domain (r_amount <$> s_active_reservations s).

Lemma outstanding_all l : outstanding [] l = r_amount <$> l.
Proof.
  unfold outstanding. f_equal. induction l as [|r l IH]; [done|]. rewrite filter_cons_True; [by rewrite IH|].
  apply not_elem_of_nil.
Qed.

Lemma can_afford_at_fee_sound s amount fee :
  typed_state s -> in_domain amount -> can_afford_amount_at_fee s amount [] fee = Ok true ->
  exists w, s_wallet s = Some w /\ forall asset,
    needed_units amount fee asset + units_for asset (r_amount <$> s_active_reservations s) <= held_units w asset.
Proof.
  intros [Hw Hr] Hd H. unfold can_afford_amount_at_fee in H. destruct (s_wallet s) as [w|] eqn:E; [|done].
  exists w. split; [done|]. destruct (Hw w eq_refl) as [Hwf Hbt].
  apply rbind_Ok in H as ([feea|] & Hfee & H); [|done]. rewrite ok_Some in Hfee.
  assert (Hfa : feea = NativeAmount fee /\ in_domain feea).
  { unfold amount_native in Hfee. destruct (N.ltb_spec NATIVE_MAX_UNITS fee); [done|]. injection Hfee as <-. done. }
  destruct Hfa as [-> Hfd].
  destruct (snapshot_balances_units w Hwf Hbt) as (l & Hl & Hld & Hlu). rewrite Hl in H. cbn [rbind] in H.
  apply rbind_Ok in H as ([requested|] & Hreq & H); [|done]. rewrite is_ok_and_true in H.
  destruct H as (report & Hrep & Haff).
  assert (Hq : Forall in_domain requested /\ forall asset, units_for asset requested = needed_units amount fee asset).
  { destruct amount as [u|id u]; cbn [asset_id] in Hreq.
    - apply rbind_Ok in Hreq as ([total|] & Ht & [= <-]). rewrite ok_Some in Ht.
      apply checked_add_exact in Ht as (_ & -> & Htd); [|done..].
      split; [by constructor|]. intros asset. cbn in *. unfold needed_units. cbn.
      destruct asset; repeat case_bool_decide; try done; cbn; lia.
    - injection Hreq as <-. split; [by repeat constructor|]. intros asset. unfold needed_units. cbn.
      repeat case_bool_decide; simplify_eq; lia. }
  destruct Hq as [Hqd Hqu]. pose proof (proj1 (affordable_all_assets _ _ _ _ _ Hld Hqd Hr Hrep) Haff) as Hall.
  intros asset. specialize (Hall asset). by rewrite Hqu, Hlu, outstanding_all in Hall.
Qed.

Lemma and_then_true a b : and_then a b = Ok true <-> a = Ok true /\ b = Ok true.
Proof. unfold and_then. destruct a as [[]|[]|]; cbn; naive_solver. Qed.

Section send.
Context `{StdAddrLaws}.

Lemma not_blocked_true s :
  not_blocked s = Ok true ->
  s_persistence_health s = Ready /\ s_snapshot_refresh_error s = None /\ s_history_integrity_error s = None /\
  s_network_mismatch s = false /\ s_journal_blocking s = false /\
  exists w t, s_wallet s = Some w /\ ws_observed_network_time w = Some t /\
    resolved_endpoint s = Ok (ont_source_endpoint t).
Proof.
  unfold not_blocked, send_safety_block_reason. intros Hb.
  apply rbind_Ok in Hb as ([r|] & Hb & Hr); [done|]. clear Hr. case_bool_decide as Hh; [|done]. cbn [negb] in Hb.
  destruct (s_snapshot_refresh_error s), (s_history_integrity_error s), (s_network_mismatch s); try done.
  cbn [is_some orb] in Hb. apply rbind_Ok in Hb as (endpoint & He & Hb). cbv zeta in Hb.
  destruct (s_wallet s) as [w|]; [|done]. cbn [mbind option_bind] in Hb.
  destruct (ws_observed_network_time w) as [t|] eqn:Ht; [|done]. case_bool_decide as Heq; [|done].
  destruct (s_journal_blocking s); [done|]. do 5 (split; [done|]). exists w, t. by rewrite Heq.
Qed.

Lemma form_request_of s amount :
  recipient_valid s = true -> form_send_amount s = Ok amount ->
  exists r, send_request s = Ok r /\ sr_value r = amount /\
    canonicalize_recipient (form_destination (s_send_form s)) = Ok (sr_destination r).
Proof.
  intros Hr Ha. unfold recipient_valid, recipient_is_valid in Hr. apply is_ok_true in Hr as [c Hc].
  pose proof Ha as Ha'. unfold form_send_amount in Ha'. apply parse_send_amount_ok in Ha' as (Hs & Hid & _ & Hz & _).
  unfold send_request, form_request. fold (form_send_amount s). rewrite Ha. cbn [rbind].
  unfold SendRequest_new. rewrite Hc. cbn [rbind].
  assert (is_zero amount = false) as ->.
  { destruct amount as [u|id u]; cbn in *; [by apply N.eqb_neq|]. apply N.eqb_neq. unfold biguint_bits.
    intros Hsz. apply Hz. by destruct (cc_value u). }
  rewrite Hid. rewrite <- Hid in Hs. destruct (token_asset_id _) as [|id] eqn:Ht; [by eexists|].
  rewrite Hid in Hs. cbn [is_sendable is_native orb] in Hs. unfold is_sendable in Hs. cbn in Hs. rewrite Hs. by eexists.
Qed.

End send.

(** A wallet with five coins at an endpoint that told the time. *)
Definition demo_endpoint : bytes := bs "http://node/".
Definition demo_snapshot : WalletSnapshot :=
  mkSnapshot demo_dest 2000 (bs "Active") 5000000000 [] 7 0 (Some (mkObservedTime 1700000000 demo_endpoint (bs "r") 0)).
Definition demo_state (comment : bytes) : AppState :=
  AppState_default <| s_persistence_health := Ready |> <| s_default_endpoint := Some demo_endpoint |>
    <| s_wallet := Some demo_snapshot |> <| s_send_form := demo_form comment |>.

Lemma demo_state_typed comment : typed_state (demo_state comment).
Proof.
  split; [|constructor]. intros w [= <-]. split; [split; [by vm_compute|done]|constructor].
Qed.


(** While the fee estimate is stale the button asks less: a comment that is too long does
    not disable it, although sending is refused then. *)
Lemma send_ready_ignores_comment :
  exists s, @send_ready toy_stdaddr s = Ok true /\ @send_enabled toy_stdaddr s = Ok false /\
            comment_fits s = false /\
            @send_ready toy_stdaddr (s <| s_fee_estimate_stale := false |>) = Ok false.
Proof.
  exists (demo_state (repeat Byte.x61 1025) <| s_fee_estimate_stale := true |>). by vm_compute.
Qed.

Lemma apply_op_wf_witness : wf_state (@apply_op toy_stdaddr (OpSetAssetVisibility 2 true) AppState_default).
Proof.
  apply (@apply_op_wf toy_stdaddr toy_stdaddr_laws (OpSetAssetVisibility 2 true) AppState_default); [done|].
  constructor; [|reflexivity..]. split; [done|]. split; [done|]. split; [done|].
  split; [split; constructor|]. split; [done|]. split; [done|]. by split.
Defined.

Lemma contacts_stay_distinct_witness :
  exists s', @save_contact_entry toy_stdaddr None (bs " ann ") demo_text [] AppState_default = Ok s'
    /\ contacts_distinct (@apply_op toy_stdaddr (OpSaveContact None (bs " ann ") demo_text []) AppState_default).
Proof.
  eexists. split; [vm_compute; reflexivity|].
  apply (@contacts_stay_distinct toy_stdaddr toy_stdaddr_laws
           (OpSaveContact None (bs " ann ") demo_text []) AppState_default); [done|]. by split; constructor.
Defined.
