(* ===== verification/Controller.v ===== *)
(** * The controller: its state and the monad its handlers run in

    crates/cc-wallet-app/src/controller/mod.rs: [AppController] and what it holds.  A handler
    is a computation on the controller, the clocks and the entropy of the system, and the
    world of files; what it spawns is left in a list of tasks.  [cwp] is the program logic
    the handlers are verified in, over that of the file system. *)

From Stdlib Require Import NArith ZArith Lia.
From stdpp Require Import gmap.
From S2P Require Import Prelude Ord Bytes Text Ids Asset Amount Digest Affordability Send Swap StorageRecord Profile.
From S2P Require Import Network.
From S2P Require Import Risk Journal Envelope Persist Strict Authorization VaultKeys Vault Fs Atomic Wallets Writer.
From S2P Require Import ChainData Update AppState.

(** [Duration] constants, in nanoseconds. *)
Definition MILLIS : N := 1000000.
Definition JOURNAL_RECONCILE_MIN_DELAY : N := 250 * MILLIS.
Definition JOURNAL_RECONCILE_MAX_DELAY : N := 30 * NANOS.
Definition JOURNAL_RECONCILE_POST_EXPIRY_SECS : N := RISK_OVERRIDE_COOLING_SECS.
Definition DEST_CHECK_RETRY_DELAY : N := 3 * NANOS.
Definition MAX_HISTORY : nat := 1000.
Definition MAX_AUTOMATIC_HISTORY_CONTINUATIONS : N := 1.
Definition HISTORY_MAX_AGE_SECS : N := 30 * 24 * 60 * 60.
Definition HISTORY_MIN_KEEP : nat := 10.

(** ** What the controller holds *)
Record PendingRiskReview := mkRiskReview {
  rr_authorization : SendAuthorization;
  rr_blocker_digest : Digest32;
  rr_reservation_digest : Digest32;
  rr_reservations : list Reservation;
  rr_broad_duplicate : bool
}.

Record PendingRiskConsumption := mkRiskConsumption {
  rp_consumption : RiskGrantConsumption;
  rp_overlap : list Reservation
}.

Record HistoryReconciliationScan := mkScanState {
  hs_next_before_lt : N;
  hs_stop_at : option N;
  hs_age_cutoff : option N;
  hs_deepest_lt : option N;
  hs_observations : list EndpointTransactionEvidence;
  hs_automatic_continuations_remaining : N
}.
#[export] Instance HistoryReconciliationScan_fields : Fields HistoryReconciliationScan := fun h =>
  mkScanState (hs_next_before_lt h) (hs_stop_at h) (hs_age_cutoff h) (hs_deepest_lt h) (hs_observations h)
    (hs_automatic_continuations_remaining h).

Record LoadRuntime := mkLoad {
  lr_wallet_load_id : option N;
  lr_wallet_auto_refresh_id : option N;
  lr_wallet_auto_refresh_again : bool;
  lr_history_reconciliation_scan : option HistoryReconciliationScan;
  lr_fetch_in_flight : bool;
  lr_fetch_in_flight_id : option N;
  lr_fetch_again : bool;
  lr_fetch_head_after_history_scan : bool
}.
#[export] Instance LoadRuntime_fields : Fields LoadRuntime := fun l =>
  mkLoad (lr_wallet_load_id l) (lr_wallet_auto_refresh_id l) (lr_wallet_auto_refresh_again l)
    (lr_history_reconciliation_scan l) (lr_fetch_in_flight l) (lr_fetch_in_flight_id l) (lr_fetch_again l)
    (lr_fetch_head_after_history_scan l).

Definition LoadRuntime_default : LoadRuntime := mkLoad None None false None false None false false.

(** Instants are monotonic nanoseconds. *)
Record PendingExternal := mkExternal { px_hash : Digest32; px_started_at : N; px_settled_ms : option N }.

Record SessionRuntime := mkSession {
  se_pending_sends : list (N * option N);
  se_pending_externals : list PendingExternal;
  se_awaiting_send_lt : option N;
  se_in_flight_record_id : option RecordId;
  se_awaiting_replay : option (RecordId * N);
  se_dest_check_retry_at : option Deadline;
  se_risk_cooling_started_at : option N;
  se_journal_reconcile_floor : option N;
  se_journal_reconcile_time_floor : option N;
  se_history_synced_floor : option N;
  se_history_has_gap : bool;
  se_fee_reestimate_at : option N;
  se_activity_quarantine_pending : option SelectedCandidate;
  se_chat_peer_key : option bytes32
}.
#[export] Instance SessionRuntime_fields : Fields SessionRuntime := fun s =>
  mkSession (se_pending_sends s) (se_pending_externals s) (se_awaiting_send_lt s) (se_in_flight_record_id s)
    (se_awaiting_replay s) (se_dest_check_retry_at s) (se_risk_cooling_started_at s)
    (se_journal_reconcile_floor s) (se_journal_reconcile_time_floor s) (se_history_synced_floor s)
    (se_history_has_gap s) (se_fee_reestimate_at s) (se_activity_quarantine_pending s) (se_chat_peer_key s).

Definition SessionRuntime_default : SessionRuntime :=
  mkSession [] [] None None None None None None None None false None None None.

(** The three sections to be saved. *)
Record CurrentPayloads := mkPayloads { cp_profile : bytes; cp_journal : bytes; cp_activity : option bytes }.

(** A save on its own thread: not run yet, or with its outcome, an [Err] of the outer
    result being a task that did not return. *)
Inductive SaveTask :=
| SaveStarted (w : VaultWriter) (v : Vault) (p : CurrentPayloads)
| SaveFinished (r : res unit (VaultWriter * res VaultStoreError WriteReceipt)).

(** [JoinHandle::is_finished]. *)
Definition is_finished (t : SaveTask) : bool := match t with SaveFinished _ => true | _ => false end.

(** The requests of one fetch of transactions. *)
Record FetchRequest := mkFetch {
  fr_inputs : EndpointAddressInputs;
  fr_generation : N;
  fr_fetch_id : N;
  fr_head_refresh_only : bool;
  fr_initial_before_lt : option N;
  fr_stop_at : option N;
  fr_initial_age_cutoff : option N;
  fr_hard_age_cutoff : option N;
  fr_local_now : N
}.

(** What a password was asked for. *)
Inductive SecuritySetting := AutoSign (mins : N) | ScreenLock (mins : N).

Inductive KeyAction :=
| KeyUnlock | KeyCreate
| KeyConfirmSend (remember : bool) (auth_generation auth_nonce : N)
| KeyConfirmSwap (remember : bool) (generation : N)
| KeyConfirmStorage (remember : bool) (generation : N)
| KeyRevealRecords | KeyVerifyForChangePassword | KeyChangePassword | KeyRevealSeed | KeyDeleteWallet
| KeyApplySecuritySetting (setting : SecuritySetting)
| KeyDeleteWalletFromPicker.

Definition is_reauth (a : KeyAction) : bool :=
  match a with
  | KeyConfirmSend _ _ _ | KeyConfirmSwap _ _ | KeyConfirmStorage _ _ | KeyRevealRecords
  | KeyVerifyForChangePassword | KeyRevealSeed | KeyDeleteWallet | KeyApplySecuritySetting _ => true
  | _ => false
  end.

Record PickerDeleteTarget := mkPickerDelete { pd_name : bytes; pd_storage_id : bytes }.

Inductive LockFollowUp := FollowNone | FollowPicker | FollowSwitchTo (name : bytes) | FollowDeleteWallet.

Record PendingLock := mkPendingLock { pl_deadline : N; pl_follow_up : LockFollowUp }.

(** A swap that waits for the password, and one that was sent (controller/swap.rs). *)
Record PendingSwap := mkPendingSwap {
  pw_request : SwapRequest;
  pw_inputs : WalletInputs;
  pw_pool : bytes;
  pw_generation : N
}.

Record SwapIntent := mkSwapIntent {
  si_sent : AssetAmount;
  si_out_asset : AssetId;
  si_expected_out_units : N;
  si_min_out_units : N;
  si_slippage_bps : N;
  si_pool : bytes
}.

(** The same of the on-chain storage (controller/storage.rs). *)
Record PendingStorage := mkPendingStorage {
  pg_op : StorageOp;
  pg_inputs : WalletInputs;
  pg_generation : N
}.

Inductive StorageExpectation := Exists | Holds (id : N) | Lacks (id : N).

Record StorageWatch := mkWatch {
  sw_expectation : StorageExpectation;
  sw_next_poll : N;
  sw_give_up_at : N
}.
#[export] Instance StorageWatch_fields : Fields StorageWatch := fun w =>
  mkWatch (sw_expectation w) (sw_next_poll w) (sw_give_up_at w).

(** What handlers ask of the chain service and of threads of their own, besides saves; what
    comes of it are the events and messages of other handlers. *)
Inductive Task :=
| TaskBroadcast (generation : N) (prepared : PreparedChainSend) (candidate_index : N)
| TaskPrepare (generation : N) (expected_ticket_digest : Digest32) (risk_grant_required : bool)
    (inputs : WalletInputs) (ticket : SendTicket) (active_reservations authorized_overlap : list Reservation)
| TaskFetch (request : FetchRequest)
| TaskRiskContext (generation : N) (expected_digest : Digest32) (inputs : EndpointAddressInputs)
| TaskFeeEstimate (generation seq : N) (is_max : bool) (inputs : WalletInputs) (request : SendRequest)
    (bounce : bool)
| TaskCheckDestination (generation seq : N) (inputs : EndpointAddressInputs) (address : bytes)
| TaskAbortDestinationCheck
| TaskLoadWallet (generation request_id : N) (manual : bool) (inputs : EndpointAddressInputs)
| TaskSubscribe (generation : N) (inputs : EndpointAddressInputs)
| TaskAbortSubscription
| TaskChatPeerKey (seq : N) (inputs : EndpointAddressInputs) (peer : bytes)
| TaskLoadPool (generation seq : N) (endpoint pool : bytes)
| TaskSwap (generation : N) (inputs : WalletInputs) (pool : bytes) (request : SwapRequest)
| TaskLoadStorage (generation seq : N) (inputs : WalletInputs)
| TaskStorageOp (generation : N) (inputs : WalletInputs) (op : StorageOp)
| TaskProbeEndpoint (for_network : Z) (url : bytes)
| TaskVerifyPassword (generation : N) (vault : Vault) (password : bytes) (action : KeyAction)
| TaskUnlockStore (generation : N) (store : VaultStore) (password : bytes) (action : KeyAction)
| TaskCreateVault (generation : N) (store : VaultStore) (password : bytes) (params : KdfParams)
    (display_name : bytes) (profile : WalletProfile)
| TaskChangePassword (generation : N) (password : bytes) (params : KdfParams) (display_name : bytes)
    (profile : WalletProfile)
| TaskClearConfigCache
| TaskSealKeyOps
| TaskUnsealKeyOps.

(** The controller, less the channels, the runtime and the explorer. A background task is
    held as whether it has finished. *)
Record AppController := mkController {
  c_state : AppState;
  c_data_dir : bytes;
  c_networks : NetworkRegistry;
  c_wallet_entries : list WalletListing;
  c_store : VaultStore;
  c_vault : option Vault;
  c_writer : option VaultWriter;
  c_kdf_params : KdfParams;
  c_key_generation : N;
  c_auth_generation : N;
  c_pending_authorization : option SendAuthorization;
  c_pending_swap : option PendingSwap;
  c_swap_in_flight : option SwapIntent;
  c_swap_pool_seq : N;
  c_pending_storage : option PendingStorage;
  c_storage_seq : N;
  c_storage_watch : option StorageWatch;
  c_pending_security_setting : option SecuritySetting;
  c_pending_picker_delete : option PickerDeleteTarget;
  c_pending_risk_reconciliation : bool;
  c_pending_risk_context : option Digest32;
  c_pending_risk_review : option PendingRiskReview;
  c_pending_risk_consumption : option PendingRiskConsumption;
  c_subscription_task : option bool;
  c_subscription_key : option bytes;
  c_subscription_generation : N;
  c_session_generation : N;
  c_subscription_addr : option bytes;
  c_subscription_retry_at : option N;
  c_subscription_backoff_secs : N;
  c_wallet_load_seq : N;
  c_load : LoadRuntime;
  c_session : SessionRuntime;
  c_pending_teardown : option PendingLock;
  c_clipboard_secret : option bytes;
  c_clipboard_deadline : option Deadline;
  c_clipboard_retries : N;
  c_clipboard_copy_explicit : bool;
  c_pending_seq : N;
  c_last_tick : option Reading;
  c_journal_reconcile_at : option N;
  c_journal_reconcile_delay : N;
  c_endpoint_test_url : option bytes;
  c_fee_request_seq : N;
  c_dest_check_seq : N;
  c_chat_key_seq : N;
  c_pending_max_seq : option N;
  c_queued_max_request : option SendRequest;
  c_pending_max_balance : option N;
  c_max_filled : bool;
  c_last_activity : Reading;
  c_dirty : bool;
  c_save_deadline : option N;
  c_save_task : option SaveTask;
  c_activity_payload_cache : option (N * option bytes);
  c_fetch_seq : N;
  c_journal : JournalEnvelope
}.
#[export] Instance AppController_fields : Fields AppController := fun c =>
  mkController (c_state c) (c_data_dir c) (c_networks c) (c_wallet_entries c) (c_store c) (c_vault c)
    (c_writer c) (c_kdf_params c) (c_key_generation c) (c_auth_generation c) (c_pending_authorization c)
    (c_pending_swap c) (c_swap_in_flight c) (c_swap_pool_seq c) (c_pending_storage c) (c_storage_seq c)
    (c_storage_watch c) (c_pending_security_setting c) (c_pending_picker_delete c)
    (c_pending_risk_reconciliation c) (c_pending_risk_context c) (c_pending_risk_review c)
    (c_pending_risk_consumption c) (c_subscription_task c) (c_subscription_key c) (c_subscription_generation c)
    (c_session_generation c) (c_subscription_addr c) (c_subscription_retry_at c) (c_subscription_backoff_secs c)
    (c_wallet_load_seq c) (c_load c) (c_session c) (c_pending_teardown c) (c_clipboard_secret c)
    (c_clipboard_deadline c) (c_clipboard_retries c) (c_clipboard_copy_explicit c) (c_pending_seq c)
    (c_last_tick c) (c_journal_reconcile_at c) (c_journal_reconcile_delay c) (c_endpoint_test_url c)
    (c_fee_request_seq c) (c_dest_check_seq c) (c_chat_key_seq c) (c_pending_max_seq c) (c_queued_max_request c)
    (c_pending_max_balance c) (c_max_filled c) (c_last_activity c) (c_dirty c) (c_save_deadline c)
    (c_save_task c) (c_activity_payload_cache c) (c_fetch_seq c) (c_journal c).

(** ** The monad *)

(** What is outside answers in its own order: [o_clock n] is the n-th reading of the clocks,
    [o_seed n] the n-th fresh seed phrase, [o_drain n] whether at the n-th wait no fee
    emulation runs any more, [o_clip n] the error of the n-th clipboard call, if any. *)
Record Outside := mkOutside {
  o_clock : nat -> Reading;
  o_seed : nat -> res bytes bytes;
  o_drain : nat -> bool;
  o_clip : nat -> option bytes
}.

(** [y_asked] is how much was asked of it so far; [y_clipboard] and [y_primary] are the texts of
    the two selections. *)
Record Sys := mkSys {
  y_ctl : AppController;
  y_outside : Outside;
  y_asked : nat;
  y_clipboard : bytes;
  y_primary : bytes;
  y_entropy : entropy;
  y_tasks : list Task
}.
#[export] Instance Sys_fields : Fields Sys := fun y =>
  mkSys (y_ctl y) (y_outside y) (y_asked y) (y_clipboard y) (y_primary y) (y_entropy y) (y_tasks y).

Definition Ctl (A : Type) : Type := Sys -> IO Empty_set (A * Sys).

#[export] Instance ctl_ret : MRet Ctl := fun A a y => io_ret (Ok (a, y)).
#[export] Instance ctl_bind : MBind Ctl := fun A B k m y => io_bind (m y) (fun x => k (fst x) (snd x)).

(** Reading and changing the controller, and its [AppState]. *)
Definition gets {A} (f : AppController -> A) : Ctl A := fun y => io_ret (Ok (f (y_ctl y), y)).
Definition modify (f : AppController -> AppController) : Ctl unit := fun y =>
  io_ret (Ok (tt, y <| y_ctl := f (y_ctl y) |>)).
Definition get_state {A} (f : AppState -> A) : Ctl A := gets (fun c => f (c_state c)).
Definition mod_state (f : AppState -> AppState) : Ctl unit := modify (fun c => c <| c_state := f (c_state c) |>).
Definition mod_session (f : SessionRuntime -> SessionRuntime) : Ctl unit :=
  modify (fun c => c <| c_session := f (c_session c) |>).
Definition mod_load (f : LoadRuntime -> LoadRuntime) : Ctl unit :=
  modify (fun c => c <| c_load := f (c_load c) |>).

(** [Instant::now] and [SystemTime::now]. *)
Definition ask {A} (f : Outside -> nat -> A) : Ctl A := fun y =>
  io_ret (Ok (f (y_outside y) (y_asked y), y <| y_asked := S (y_asked y) |>)).
Definition now : Ctl Reading := ask o_clock.

Definition spawn (t : Task) : Ctl unit := fun y => io_ret (Ok (tt, y <| y_tasks := y_tasks y ++ [t] |>)).

(** A computation on files that reports its errors as values, and one that may panic. *)
Definition on_files {A} (m : IO Empty_set A) : Ctl A := fun y => let! a := m in io_ret (Ok (a, y)).
Definition pure {A} (r : res Empty_set A) : Ctl A := fun y => io_ret (rbind r (fun a => Ok (a, y))).

(** [fallible m] looks at the outcome of [m], a panic of [m] remaining one. *)
Definition fallible {E A} (m : IO E A) : Ctl (res E A) := fun y =>
  match! m with r => io_ret (match r with Panic => Panic | r => Ok (r, y) end).

(** [attempt r] looks at a result that is there already. *)
Definition attempt {E A} (r : res E A) : Ctl (res E A) := fun y =>
  io_ret (match r with Panic => Panic | r => Ok (r, y) end).

(** [n + 1] on [u64]: [wrapping_add], and [+=] with its overflow check. *)
Definition wrapping_inc (n : N) : N := (n + 1) mod (u64_max + 1).
Definition checked_inc (n : N) : Ctl N := pure (expect (checked_add u64_max n 1)).

(** ** Its weakest precondition

    [P] is what a panic would prove: [False] where there is to be none. *)
Section cwp.
Context (T : Tick -> Prop) (I : FsState -> Prop) (P : Prop).

Definition cwp {A} (m : Ctl A) (Q : A -> Sys -> FsState -> Prop) (y : Sys) (fs : FsState) : Prop :=
  wp T I (m y) (fun r f => match r with Ok (a, y') => Q a y' f | Err e => False | Panic => P end) fs.

Lemma cwp_mono {A} (m : Ctl A) (Q Q' : A -> Sys -> FsState -> Prop) y fs :
  cwp m Q y fs -> (forall a y' f, Q a y' f -> Q' a y' f) -> cwp m Q' y fs.
Proof. intros Hm HQ. eapply wp_mono; [exact Hm|]. intros [[a y']| |] f; auto. Qed.

Lemma cwp_ret {A} (a : A) Q y fs : Q a y fs -> cwp (mret a) Q y fs.
Proof. intros HQ. by apply wp_ret. Qed.

Lemma cwp_bind {A B} (m : Ctl A) (k : A -> Ctl B) Q y fs :
  cwp m (fun a y' f => cwp (k a) Q y' f) y fs -> cwp (m ≫= k) Q y fs.
Proof. intros Hm. apply wp_bind. eapply wp_mono; [exact Hm|]. by intros [[a y']| |] f. Qed.

Lemma cwp_gets {A} (f : AppController -> A) Q y fs : Q (f (y_ctl y)) y fs -> cwp (gets f) Q y fs.
Proof. intros HQ. by apply wp_ret. Qed.

Lemma cwp_get_state {A} (f : AppState -> A) Q y fs : Q (f (c_state (y_ctl y))) y fs -> cwp (get_state f) Q y fs.
Proof. intros HQ. by apply wp_ret. Qed.

Lemma cwp_modify f Q y fs : Q tt (y <| y_ctl := f (y_ctl y) |>) fs -> cwp (modify f) Q y fs.
Proof. intros HQ. by apply wp_ret. Qed.

Lemma cwp_ask {A} (f : Outside -> nat -> A) Q y fs :
  Q (f (y_outside y) (y_asked y)) (y <| y_asked := S (y_asked y) |>) fs -> cwp (ask f) Q y fs.
Proof. intros HQ. by apply wp_ret. Qed.

Lemma cwp_spawn t Q y fs : Q tt (y <| y_tasks := y_tasks y ++ [t] |>) fs -> cwp (spawn t) Q y fs.
Proof. intros HQ. by apply wp_ret. Qed.

Lemma cwp_pure {A} (r : res Empty_set A) Q y fs :
  match r with Ok a => Q a y fs | Err _ => True | Panic => P end -> cwp (pure r) Q y fs.
Proof. intros HQ. apply wp_ret. by destruct r as [a|[]|]. Qed.

Lemma cwp_on_files {A} (m : IO Empty_set A) Q y fs :
  wp T I m (fun r f => match r with Ok a => Q a y f | Err _ => True | Panic => P end) fs -> cwp (on_files m) Q y fs.
Proof.
  intros Hm. apply wp_bind. eapply wp_mono; [exact Hm|]. intros [a|[]|] f HQ; [by apply wp_ret|done].
Qed.

Lemma cwp_fallible {E A} (m : IO E A) Q y fs :
  wp T I m (fun r f => match r with Panic => P | _ => Q r y f end) fs -> cwp (fallible m) Q y fs.
Proof.
  intros Hm. apply wp_match. eapply wp_mono; [exact Hm|]. intros r f HQ. apply wp_ret. by destruct r.
Qed.

Lemma cwp_attempt {E A} (r : res E A) Q y fs :
  match r with Panic => P | _ => Q r y fs end -> cwp (attempt r) Q y fs.
Proof. intros HQ. apply wp_ret. by destruct r. Qed.

Lemma cwp_checked_inc n Q y fs :
  (n < u64_max -> Q (n + 1) y fs) -> (u64_max <= n -> P) -> cwp (checked_inc n) Q y fs.
Proof.
  intros HQ HP. apply cwp_pure. unfold checked_add. destruct (N.leb_spec (n + 1) u64_max); cbn; [apply HQ|apply HP]; lia.
Qed.
End cwp.

Lemma cwp_panic_mono T I (P P' : Prop) {A} (m : Ctl A) Q y fs :
  (P -> P') -> cwp T I P m Q y fs -> cwp T I P' m Q y fs.
Proof. intros HP Hm. eapply wp_mono; [exact Hm|]. intros [[a y']|e|] f; auto. Qed.

(** One step of a walk through a handler. *)
Ltac cstep :=
  lazymatch goal with
  | |- cwp _ _ _ (_ ≫= _) _ _ _ => apply cwp_bind
  | |- cwp _ _ _ (mret _) _ _ _ => apply cwp_ret
  | |- cwp _ _ _ (gets _) _ _ _ => apply cwp_gets
  | |- cwp _ _ _ (get_state _) _ _ _ => apply cwp_get_state
  | |- cwp _ _ _ (modify _) _ _ _ => apply cwp_modify
  | |- cwp _ _ _ (mod_state _) _ _ _ => apply cwp_modify
  | |- cwp _ _ _ (mod_session _) _ _ _ => apply cwp_modify
  | |- cwp _ _ _ (mod_load _) _ _ _ => apply cwp_modify
  | |- cwp _ _ _ now _ _ _ => apply cwp_ask
  | |- cwp _ _ _ (ask _) _ _ _ => apply cwp_ask
  | |- cwp _ _ _ (spawn _) _ _ _ => apply cwp_spawn
  end; cbv beta.
