(* ===== verification/Save.v ===== *)
(** * Saving (crates/cc-wallet-app/src/controller/save.rs)

    Changes mark the controller dirty and are saved later on a thread of their own, or, where
    something must be on the disk before the next step may be taken, at once
    ([persist_journal_barrier]).  A failure is final: from then on nothing is written and the
    state says so. *)

From Stdlib Require Import NArith ZArith Lia.
From stdpp Require Import gmap.
From S2P Require Import Prelude Ord Bytes Text Ids Asset Amount Digest Affordability Send Profile Network.
From S2P Require Import Risk Journal Envelope Persist Strict Authorization VaultKeys Vault Fs Atomic Wallets Writer.
From S2P Require Import Unlock ChainData Update AppState Controller.

(** How the sections are written: the slots of serde, the text of an error of serde_json,
    and the hash a [DefaultHasher] makes of events. *)
Class WalletCodec `{SerdeJson} := {
  slot_address_book : Slot (list AddressBookEntry);
  slot_records : Slot (list SendRecord);
  slot_risk_events : Slot (list RiskEvent);
  write_events : list ActivityEvent -> option bytes;
  activity_error : bytes;
  event_hash : list ActivityEvent -> N
}.

Section save.
Context `{Sha256} `{VaultPrims} `{Tempfile} `{WalletCodec}.

Definition SAVE_DELAY : N := 600 * MILLIS.

Definition mark_dirty : Ctl unit :=
  blocked ← gets (fun c => is_none (c_vault c) || bool_decide (s_persistence_health (c_state c) = HealthFailed));
  if blocked : bool then mret tt else
  modify (fun c => c <| c_dirty := true |>);;
  unset ← gets (fun c => is_none (c_save_deadline c));
  if unset : bool then r ← now; modify (fun c => c <| c_save_deadline := Some (r_mono r + SAVE_DELAY) |>)
  else mret tt.

Definition save_profile : Ctl unit := mark_dirty.
Definition save_history : Ctl unit := mark_dirty.

(** The events the chain confirmed. *)
Definition confirmed (events : list ActivityEvent) : list ActivityEvent :=
  List.filter (fun event => is_some (ae_tx_hash event)) events.

Definition encoded_activity : Ctl (res bytes (option bytes)) :=
  persisted ← get_state (fun s => confirmed (s_activity s));
  let hash := event_hash persisted in
  cached ← gets (fun c => match c_activity_payload_cache c with
                          | Some (cached, encoded) => if cached =? hash then Some encoded else None
                          | None => None
                          end);
  match cached with
  | Some encoded => mret (Ok encoded)
  | None =>
      match (match persisted with
             | [] => Ok None
             | _ => match activity_encode write_events persisted with
                    | Some encoded => Ok (Some encoded)
                    | None => Err (bs "could not encode Activity: " ++ activity_error)
                    end
             end) with
      | Ok encoded => modify (fun c => c <| c_activity_payload_cache := Some (hash, encoded) |>);; mret (Ok encoded)
      | r => mret r
      end
  end.

Definition current_payloads : Ctl (res bytes CurrentPayloads) :=
  profile ← get_state (fun s => profile_encode slot_address_book (to_profile s));
  activity ← encoded_activity;
  journal ← gets (fun c => journal_encode slot_records slot_risk_events (c_journal c));
  mret (rmap (fun activity => mkPayloads profile journal activity) activity).

(** [let _ = writer.poison()]: a writer with a pending write stays as it is. *)
Definition poisoned (w : VaultWriter) : VaultWriter := match poison w with Ok w' => w' | _ => w end.

Definition failure_message (detail : bytes) : bytes :=
  bs "Wallet persistence failed; signing and lifecycle transitions are blocked: " ++ detail.

Definition persistence_failed (detail : bytes) : Ctl unit :=
  modify (fun c => c <| c_writer := (fun w => if has_pending_write w then w else poisoned w) <$> c_writer c |>);;
  mod_state (fun s => s <| s_persistence_health := HealthFailed |>);;
  modify (fun c => c <| c_dirty := true |> <| c_save_deadline := None |>);;
  let message := failure_message detail in
  mod_state (fun s => set_error message (s <| s_persistence_error := Some message |>)).

Definition health_ok : Ctl bool :=
  get_state (fun s => negb (bool_decide (s_persistence_health s = HealthFailed))).

Definition ensure_activity_quarantined : Ctl bool :=
  pending ← gets (fun c => se_activity_quarantine_pending (c_session c));
  match pending with
  | None => health_ok
  | Some selected =>
      busy ← gets (fun c => is_some (c_save_task c)
                            || match c_writer c with Some w => has_pending_write w | None => false end);
      if busy : bool then mret false else
      store ← gets c_store;
      r ← fallible (quarantine_selected store selected);
      match r with
      | Ok _ =>
          mod_session (fun s => s <| se_activity_quarantine_pending := None |>);;
          mod_state (fun s => s <| s_persistence_health := Ready |>);;
          mret true
      | Err error =>
          persistence_failed (bs "could not preserve the damaged history before saving: "
                              ++ VaultStoreError_display error);;
          mret false
      | Panic => pure Panic
      end
  end.

(** The body of the save thread, with the entropy it draws. *)
Definition save_body (w : VaultWriter) (v : Vault) (p : CurrentPayloads) (e : entropy)
  : IO Empty_set (res unit (VaultWriter * res VaultStoreError WriteReceipt) * entropy) :=
  match! save_sync w v (cp_profile p) (cp_journal p) (cp_activity p) e with r =>
  io_ret (Ok (match r with
              | Ok (Panic, _, e') => (Err tt, e')
              | Ok (result, w', e') => (Ok (w', result), e')
              | _ => (Err tt, e)
              end)).

Definition run_started (w : VaultWriter) (v : Vault) (p : CurrentPayloads) : Ctl unit := fun y =>
  let! (r, e) := save_body w v p (y_entropy y) in
  io_ret (Ok (tt, y <| y_ctl := y_ctl y <| c_save_task := Some (SaveFinished r) |> |> <| y_entropy := e |>)).

(** A save that was started gets to run. *)
Definition run_save_task : Ctl unit :=
  task ← gets c_save_task;
  match task with Some (SaveStarted w v p) => run_started w v p | _ => mret tt end.

(** [runtime.block_on(handle)] waits for it. *)
Definition drain_save_task : Ctl bool :=
  run_save_task;;
  task ← gets c_save_task;
  modify (fun c => c <| c_save_task := None |>);;
  match task with
  | Some (SaveFinished (Ok (writer, result))) =>
      modify (fun c => c <| c_writer := Some writer |>);;
      match result with
      | Ok _ =>
          failed ← get_state (fun s => bool_decide (s_persistence_health s = HealthFailed));
          if failed : bool then modify (fun c => c <| c_writer := poisoned <$> c_writer c |>);; mret false else
          mod_state (fun s => let s := s <| s_persistence_health := Ready |> in
                              if is_none (s_error s) then s <| s_status := bs "Saved" |> else s);;
          again ← gets (fun c => c_dirty c && is_none (c_save_deadline c));
          (if again : bool then r ← now; modify (fun c => c <| c_save_deadline := Some (r_mono r) |>) else mret tt);;
          mret true
      | Err error => persistence_failed (VaultStoreError_display error);; mret false
      | Panic => pure Panic
      end
  | Some (SaveFinished _) =>
      persistence_failed (bs "a started write lost its authenticated writer");; mret false
  | Some (SaveStarted _ _ _) => pure Panic
  | None => health_ok
  end.

Definition unavailable : bytes := bs "the authenticated vault writer is unavailable".

(** [flush_save] once a finished save is out of the way. *)
Definition start_save : Ctl unit :=
  skip ← gets (fun c => negb (c_dirty c) || negb (bool_decide (s_phase (c_state c) = Unlocked))
                        || s_key_busy (c_state c)
                        || bool_decide (s_persistence_health (c_state c) = HealthFailed)
                        || is_some (c_save_task c));
  if skip : bool then mret tt else
  quarantined ← ensure_activity_quarantined;
  if negb quarantined then mret tt else
  payloads ← current_payloads;
  match payloads with
  | Err error => persistence_failed error
  | Panic => pure Panic
  | Ok payloads =>
      vault ← gets c_vault;
      match vault with
      | None => persistence_failed unavailable
      | Some vault =>
          writer ← gets c_writer;
          modify (fun c => c <| c_writer := None |>);;
          match writer with
          | None => persistence_failed unavailable
          | Some writer =>
              modify (fun c => c <| c_dirty := false |> <| c_save_deadline := None |>);;
              mod_state (fun s => s <| s_persistence_health := WritePending |>);;
              modify (fun c => c <| c_save_task := Some (SaveStarted writer vault payloads) |>)
          end
      end
  end.

Definition flush_save : Ctl unit :=
  finished ← gets (fun c => match c_save_task c with Some t => is_finished t | None => false end);
  drained ← (if finished : bool then drain_save_task else mret true);
  if negb drained then mret tt else
  start_save.

(** [writer.save_sync(..)] on the controller's own writer. *)
Definition save_now (w : VaultWriter) (v : Vault) (p : CurrentPayloads) : Ctl (res VaultStoreError WriteReceipt) :=
  fun y =>
    let! (result, w, e) := save_sync w v (cp_profile p) (cp_journal p) (cp_activity p) (y_entropy y) in
    io_ret (Ok (result, y <| y_ctl := y_ctl y <| c_writer := Some w |> |> <| y_entropy := e |>)).

Definition flush_save_blocking : Ctl bool :=
  drained ← drain_save_task;
  if negb drained then mret false else
  nothing ← gets (fun c => negb (c_dirty c) || is_none (c_vault c));
  if nothing : bool then health_ok else
  quarantined ← ensure_activity_quarantined;
  if negb quarantined then mret false else
  payloads ← current_payloads;
  match payloads with
  | Err error => persistence_failed error;; mret false
  | Panic => pure Panic
  | Ok payloads =>
      vault ← gets c_vault;
      writer ← gets c_writer;
      match vault, writer with
      | Some vault, Some writer =>
          result ← save_now writer vault payloads;
          match result with
          | Ok _ =>
              modify (fun c => c <| c_dirty := false |> <| c_save_deadline := None |>);;
              mod_state (fun s => s <| s_persistence_health := Ready |>);;
              mret true
          | Err error => persistence_failed (VaultStoreError_display error);; mret false
          | Panic => pure Panic
          end
      | _, _ => persistence_failed unavailable;; mret false
      end
  end.

Definition persist_journal_barrier : Ctl bool :=
  blocked ← gets (fun c => is_none (c_vault c) || bool_decide (s_persistence_health (c_state c) = HealthFailed));
  if blocked : bool then mret false else
  modify (fun c => c <| c_dirty := true |> <| c_save_deadline := None |>);;
  flush_save_blocking.

Definition persist_new_container : Ctl unit :=
  modify (fun c => c <| c_dirty := true |> <| c_save_deadline := None |>);;
  flush_save.
End save.

(** ** What saving changes and what it leaves *)

(** The controller without what a save may change. *)
Definition unsaved (c : AppController) : AppController :=
  c <| c_writer := None |> <| c_dirty := false |> <| c_save_deadline := None |> <| c_save_task := None |>
    <| c_activity_payload_cache := None |>
    <| c_state ::= fun s => s <| s_persistence_health := Ready |> <| s_persistence_error := None |>
                              <| s_status := [] |> <| s_error := None |> <| s_send_form_error := false |>
                              <| s_send_form_prior_error := None |> <| s_send_form_prior_status := None |>
                              <| s_send_form_error_message := None |> |>
    <| c_session ::= fun s => s <| se_activity_quarantine_pending := None |> |>.

Record same_but_saved (y y' : Sys) : Prop := {
  sb_ctl : unsaved (y_ctl y') = unsaved (y_ctl y);
  sb_outside : y_outside y' = y_outside y;
  sb_asked : (y_asked y <= y_asked y')%nat;
  sb_clip : y_clipboard y' = y_clipboard y /\ y_primary y' = y_primary y;
  sb_tasks : y_tasks y' = y_tasks y
}.

#[export] Instance same_but_saved_refl : Reflexive same_but_saved.
Proof. by split. Qed.
#[export] Instance same_but_saved_trans : Transitive same_but_saved.
Proof. intros x y z [C1 O1 ? [] T1] [C2 O2 ? [] T2].
  split; [by rewrite C2|by rewrite O2|lia|split; congruence|by rewrite T2]. Qed.

Ltac same_saved := split; [same_fields|reflexivity|cbn; lia|split; reflexivity|reflexivity].

(** No save succeeded and the controller says so. *)
Definition failed (c : AppController) : Prop := s_persistence_health (c_state c) = HealthFailed.

Section promises.
Context `{Sha256} `{VaultPrims} `{TempfileLaws} `{WalletCodec}.

Definition quarantining (c : AppController) : bool := is_some (se_activity_quarantine_pending (c_session c)).

(** A writer that may write owns the main file of the controller's store. *)
Definition writer_ok (c : AppController) (fs : FsState) (w : VaultWriter) : Prop :=
  vw_store w = c_store c /\
  (is_healthy w = true -> settled (main_path (c_store c)) fs /\
                          (quarantining c = true -> is_Some (names fs !! main_path (c_store c)))).

Definition valid_vault (v : Vault) : Prop := validate_display_name (v_display_name v) = Ok tt.

(** The payload of these events, [None] where they cannot be written. *)
Definition activity_payload (events : list ActivityEvent) : option (option bytes) :=
  match events with [] => Some None | _ => Some <$> activity_encode write_events events end.

Record saves_ok (c : AppController) (fs : FsState) : Prop := {
  sv_vault : forall v, c_vault c = Some v -> valid_vault v;
  sv_writer : forall w, c_writer c = Some w -> writer_ok c fs w;
  sv_task : match c_save_task c with
            | None => True
            | Some (SaveStarted w v _) => c_writer c = None /\ writer_ok c fs w /\ valid_vault v
            | Some (SaveFinished (Ok (w, r))) => c_writer c = None /\ writer_ok c fs w /\ r <> Panic
            | Some (SaveFinished _) => c_writer c = None
            end;
  sv_cache : forall h encoded, c_activity_payload_cache c = Some (h, encoded) ->
             exists events, event_hash events = h /\ activity_payload events = Some encoded
}.

(** The main file is a save of what the controller holds, the activity up to its hash. *)
Definition on_disk (c : AppController) (fs : FsState) : Prop :=
  exists v n activity events e e' sealed,
    c_vault c = Some v /\
    event_hash events = event_hash (confirmed (s_activity (c_state c))) /\
    activity_payload events = Some activity /\
    seal_container v n (save_sections (profile_encode slot_address_book (to_profile (c_state c)))
                          (journal_encode slot_records slot_risk_events (c_journal c)) activity) e = Ok (sealed, e') /\
    installed (main_path (c_store c)) sealed fs.
End promises.

Section steps.
Context `{Sha256} `{VaultPrims} `{TempfileLaws} `{WalletCodec}.
Local Notation cwp := (cwp calm (fun _ => True) False).

(** A step that keeps the discipline: what it promises besides is [P]. *)
Definition kept {A} (y : Sys) (P : A -> Sys -> FsState -> Prop) (a : A) (y' : Sys) (f : FsState) : Prop :=
  saves_ok (y_ctl y') f /\ same_but_saved y y' /\ P a y' f.

Lemma kept_trans {A} (y1 y2 : Sys) (P : A -> Sys -> FsState -> Prop) a y' f :
  same_but_saved y1 y2 -> kept y2 P a y' f -> kept y1 P a y' f.
Proof. intros Hs (Hk & Hs' & HP). split; [done|]. split; [by etrans|done]. Qed.

Lemma unhealthy_ok c fs w : vw_store w = c_store c -> is_healthy w = false -> writer_ok c fs w.
Proof. intros Hs Hh. split; [done|]. by rewrite Hh. Qed.

Lemma poisoned_ok c fs w :
  vw_store w = c_store c -> writer_ok c fs (if has_pending_write w then w else poisoned w).
Proof. intros Hs. apply unhealthy_ok; destruct w as [? ? ? [] []]; done. Qed.

Lemma poisoned_ok' c fs w : writer_ok c fs w -> writer_ok c fs (poisoned w).
Proof.
  intros Hw. pose proof (poisoned_ok c fs w (proj1 Hw)) as Hp. destruct w as [? ? ? [] []]; done.
Qed.

Lemma writer_ok_keeps c fs fs' w :
  keeps fs fs' -> quarantining c = true -> writer_ok c fs w -> writer_ok c fs' w.
Proof.
  intros [_ Hk] Hq [Hs Hw]. split; [done|]. intros Hh. destruct (Hw Hh) as [Hset Hn]. specialize (Hn Hq).
  destruct (Hk _ Hn Hset). by split.
Qed.

(** Only the writer, the task, the store, the vault, the cache and the quarantine matter. *)
Lemma saves_ok_same c c' fs :
  saves_ok c fs -> c_writer c' = c_writer c -> c_save_task c' = c_save_task c -> c_store c' = c_store c ->
  c_vault c' = c_vault c -> c_activity_payload_cache c' = c_activity_payload_cache c ->
  (quarantining c' = true -> quarantining c = true) -> saves_ok c' fs.
Proof.
  intros [Hv Hw Ht Hc] Ew Et Es Ev Ec Hq.
  assert (forall w, writer_ok c fs w -> writer_ok c' fs w) as Hok.
  { intros w [Hst Hx]. unfold writer_ok. rewrite Es. split; [done|]. intros Hh. destruct (Hx Hh). auto. }
  split; rewrite ?Ew, ?Et, ?Ev, ?Ec; auto. destruct (c_save_task c) as [[w v p|[[w r]| |]]|]; naive_solver.
Qed.

Lemma persistence_failed_wp detail y fs :
  saves_ok (y_ctl y) fs ->
  cwp (persistence_failed detail) (kept y (fun _ y' f => failed (y_ctl y') /\ c_save_task (y_ctl y') = c_save_task (y_ctl y) /\
     c_dirty (y_ctl y') = true /\ f = fs)) y fs.
Proof.
  intros [Hv Hw Ht Hc]. unfold persistence_failed. repeat cstep. split; [|split; [same_saved|done]].
  split; cbn; try done.
  - intros w. destruct (c_writer (y_ctl y)) as [w0|]; [|done]. cbn. intros [= <-].
    apply poisoned_ok. by apply Hw.
  - destruct (c_save_task (y_ctl y)) as [[w v p|[[w r]| |]]|]; cbn; [destruct Ht as (-> & ?)..| | |];
      try by rewrite Ht. all: done.
Qed.

(** One save with a writer that is in order. *)
Definition save_done (c : AppController) (v : Vault) (p : CurrentPayloads) (fs' : FsState)
    (r : res Empty_set (res VaultStoreError WriteReceipt * VaultWriter * entropy)) : Prop :=
  exists outcome w' e', r = Ok (outcome, w', e') /\ writer_ok c fs' w' /\ outcome <> Panic /\
    (is_ok outcome = true -> exists n e sealed,
       seal_container v n (save_sections (cp_profile p) (cp_journal p) (cp_activity p)) e = Ok (sealed, e') /\
       installed (main_path (c_store c)) sealed fs').

Lemma save_wp c w v p e fs :
  writer_ok c fs w -> valid_vault v ->
  wp calm (fun _ => True) (save_sync w v (cp_profile p) (cp_journal p) (cp_activity p) e)
    (fun r fs' => save_done c v p fs' r) fs.
Proof.
  intros Hw Hv. pose proof Hw as [Hst Hset]. eapply wp_log_mono; [eapply wp_mono|].
  - apply (save_sync_wp calm); [|done]. rewrite Hst. intros Hh. by apply Hset.
  - intros r fs' (outcome & w' & e' & -> & Ho). exists outcome, w', e'. split; [done|].
    destruct outcome as [receipt|err|]; [| |done].
    + destruct Ho as (Hh & Hc & sealed & Hseal & _ & Hin & _ & ->). rewrite Hst in Hin. split_and!; [|done|].
      * split; [done|]. intros _. split; [by eapply installed_settled|]. intros _.
        destruct Hin as (h & [En _]%entry_Some & _). by rewrite En.
      * intros _. eauto.
    + split_and!; [|done|done]. destruct Ho as [[-> ->]|(Hh & -> & _)]; [done|].
      apply unhealthy_ok; [done|]. by destruct w as [? ? ? [] ?].
  - done.
Qed.

Lemma run_save_task_wp y fs :
  saves_ok (y_ctl y) fs ->
  cwp run_save_task (kept y (fun _ y' _ =>
    y_ctl y' = y_ctl y <| c_save_task := c_save_task (y_ctl y') |> /\
    match c_save_task (y_ctl y') with Some (SaveStarted _ _ _) => False | _ => True end /\
    (c_save_task (y_ctl y') = None <-> c_save_task (y_ctl y) = None))) y fs.
Proof.
  intros Hok. pose proof Hok as [Hv Hw Ht Hc]. unfold run_save_task. repeat cstep.
  destruct (c_save_task (y_ctl y)) as [[w v p|r]|] eqn:Etask.
  2,3: cstep; split; [done|split; [done|rewrite Etask]]; by destruct (y_ctl y); cbn in Etask; subst.
  destruct Ht as (Hnone & Hwok & Hvalid). unfold cwp, run_started, save_body. repeat io_step.
  eapply wp_mono; [by apply (save_wp (y_ctl y) w v p)|].
  intros r fs' (outcome & w' & e' & -> & Hw' & Hp & _). io_step. destruct outcome as [rc|err|]; [| |done].
  all: io_step; split; [|split; [same_saved|done]]; split; cbn; try done; intros ?; by rewrite Hnone.
Qed.

Lemma poison_writer_wp y fs :
  saves_ok (y_ctl y) fs ->
  saves_ok (y_ctl y <| c_writer := poisoned <$> c_writer (y_ctl y) |>) fs.
Proof.
  intros [Hv Hw Ht Hc]. split; cbn; try done.
  - intros w. destruct (c_writer (y_ctl y)) as [w0|]; [|done]. cbn. intros [= <-].
    apply poisoned_ok'. by apply Hw.
  - destruct (c_save_task (y_ctl y)) as [[w v p|[[w r]| |]]|]; cbn; [destruct Ht as (-> & ?)..| | |];
      try by rewrite Ht. all: done.
Qed.

(** What a started save leaves when it is done: it counts as good only where nothing failed. *)
Lemma drain_save_task_wp y fs :
  saves_ok (y_ctl y) fs ->
  cwp drain_save_task (kept y (fun (b : bool) y' _ => c_save_task (y_ctl y') = None /\
    (b = true -> ~ failed (y_ctl y')) /\ (failed (y_ctl y) -> failed (y_ctl y')) /\
    (c_dirty (y_ctl y) = true -> c_dirty (y_ctl y') = true))) y fs.
Proof.
  intros Hok. unfold drain_save_task. cstep. eapply cwp_mono; [by apply run_save_task_wp|].
  intros _ y1 f (Hok1 & Hs1 & Hst & Ht & _).
  assert (c_dirty (y_ctl y1) = c_dirty (y_ctl y) /\ failed (y_ctl y1) = failed (y_ctl y)) as [Hd Hf] by (by rewrite Hst).
  clear Hst. unfold failed in *. rewrite <- Hd, <- Hf. clear Hd Hf. eapply cwp_mono; [|intros ???; by apply kept_trans].
  pose proof Hok1 as [Hv Hw Htask Hc]. repeat cstep.
  assert (forall detail y2, saves_ok (y_ctl y2) f -> same_but_saved y1 y2 -> c_save_task (y_ctl y2) = None ->
    cwp (persistence_failed detail;; mret false)
      (kept y1 (fun (b : bool) y' _ => c_save_task (y_ctl y') = None /\
         (b = true -> ~ failed (y_ctl y')) /\ (failed (y_ctl y1) -> failed (y_ctl y')) /\
         (c_dirty (y_ctl y1) = true -> c_dirty (y_ctl y') = true))) y2 f) as Hfail.
  { intros detail y2 Hok2 Hs2 Ht2. cstep. eapply cwp_mono; [by apply persistence_failed_wp|].
    intros _ y3 f3 (Hok3 & Hs3 & Hfl & Htk & Hdt & ->). cstep. split; [done|]. split; [by etrans|].
    by rewrite Htk. }
  destruct (c_save_task (y_ctl y1)) as [[w v p|[[w r]| |]]|] eqn:Et; [done|..].
  - destruct Htask as (Hnone & Hwok & Hp).
    assert (forall w', writer_ok (y_ctl y1) f w' ->
      saves_ok (y_ctl y1 <| c_save_task := None |> <| c_writer := Some w' |>) f) as Hok2.
    { intros w' Hw'. split; cbn; try done. by intros ? [= <-]. }
    repeat cstep. destruct r as [rc|err|]; [|by apply Hfail; [by apply Hok2|..]|done]. repeat cstep.
    + cbn. case_bool_decide as Hh.
      * repeat cstep. split; [|split; [same_saved|done]]. cbn. by apply Hok2, poisoned_ok'.
      * repeat cstep. match goal with |- cwp (if ?b then _ else _) _ _ _ => destruct b end; repeat cstep.
        all: cbn; destruct (is_none _); (split; [|split; [same_saved|done]]).
        all: by eapply saves_ok_same; [by apply Hok2|..].
  - apply Hfail; [|done..]. by split.
  - apply Hfail; [|done..]. by split.
  - unfold health_ok. cstep. split; [by split|]. split; [same_saved|]. split; [done|]. cbn. unfold failed. split; [|done].
    by case_bool_decide.
Qed.

Lemma ensure_activity_quarantined_wp y fs :
  saves_ok (y_ctl y) fs -> c_save_task (y_ctl y) = None -> ~ failed (y_ctl y) ->
  cwp ensure_activity_quarantined (kept y (fun (b : bool) y' _ => c_save_task (y_ctl y') = None /\
    (b = true -> ~ failed (y_ctl y')) /\ (c_dirty (y_ctl y) = true -> c_dirty (y_ctl y') = true))) y fs.
Proof.
  intros Hok Ht Hnf. unfold ensure_activity_quarantined. repeat cstep.
  destruct (se_activity_quarantine_pending _) as [selected|] eqn:Eq.
  2:{ unfold health_ok. cstep. by split. }
  repeat cstep. match goal with |- cwp (if ?b then _ else _) _ _ _ => destruct b end; [by cstep; split|].
  repeat cstep. apply cwp_fallible. eapply wp_mono; [apply quarantine_selected_wp|].
  intros r fs' [Hk Hr]. destruct r as [p|err|]; [..|done].
  - assert (saves_ok (y_ctl y) fs') as Hok'.
    { pose proof Hok as [Hv Hw Htask Hc]. split; try done; [|by rewrite Ht]. intros w Ew.
      apply (writer_ok_keeps _ fs); [done|by unfold quarantining; rewrite Eq|by apply Hw]. }
    repeat cstep. split; [|split; [same_saved|done]]. by eapply saves_ok_same.
  - repeat cstep. assert (saves_ok (y_ctl y) fs') as Hok'.
    { pose proof Hok as [Hv Hw Htask Hc]. split; try done; [|by rewrite Ht]. intros w Ew.
      apply (writer_ok_keeps _ fs); [done|by unfold quarantining; rewrite Eq|by apply Hw]. }
    eapply cwp_mono; [by apply persistence_failed_wp|].
    intros _ y3 f3 (Hok3 & Hs3 & _ & Htk & Hd & ->). cstep. split; [done|]. split; [done|]. by rewrite Htk.
Qed.

(** The payloads are those of the controller; only the cache may change. *)
Lemma current_payloads_wp y fs :
  saves_ok (y_ctl y) fs ->
  cwp current_payloads (kept y (fun r y' f => f = fs /\ r <> Panic /\
    (exists cache, y' = y <| y_ctl ::= fun c => c <| c_activity_payload_cache := cache |> |>) /\
    forall p, r = Ok p ->
      cp_profile p = profile_encode slot_address_book (to_profile (c_state (y_ctl y))) /\
      cp_journal p = journal_encode slot_records slot_risk_events (c_journal (y_ctl y)) /\
      exists events, event_hash events = event_hash (confirmed (s_activity (c_state (y_ctl y)))) /\
                     activity_payload events = Some (cp_activity p))) y fs.
Proof.
  intros Hok. unfold current_payloads, encoded_activity. repeat cstep.
  set (events := confirmed _).
  assert (exists cache, y = y <| y_ctl ::= fun c => c <| c_activity_payload_cache := cache |> |>) as Hy.
  { exists (c_activity_payload_cache (y_ctl y)). by destruct y as [[] ? ? ? ?]. }
  match goal with |- cwp (match ?m with _ => _ end) _ _ _ => destruct m as [encoded|] eqn:Em end.
  - repeat cstep. split; [done|]. split; [done|]. split_and!; try done. intros p [= <-]. cbn. split_and!; try done.
    destruct (c_activity_payload_cache (y_ctl y)) as [[h e]|] eqn:Ec; [|done].
    destruct (N.eqb_spec h (event_hash events)) as [->|]; [|done]. injection Em as ->. by apply (sv_cache _ _ Hok).
  - clear Em.
    match goal with |- cwp (match ?m with _ => _ end) _ _ _ => destruct m as [encoded|err|] eqn:Ee end; repeat cstep.
    + assert (activity_payload events = Some encoded) as He.
      { unfold activity_payload. destruct events; [by injection Ee as <-|].
        destruct (activity_encode _ _); [by injection Ee as <-|done]. }
      split; [|split; [same_saved|]].
      { destruct Hok as [Hv Hw Ht Hc]. split; cbn; try done. intros h' e' [= <- <-]. eauto. }
      split_and!; try done; [by eexists|]. intros p [= <-]. cbn. split_and!; eauto.
    + by split; [|split; [|split_and!]].
    + destruct events; [done|]. by destruct (activity_encode _ _).
Qed.

Lemma health_ok_wp (y : Sys) fs Q : Q (negb (bool_decide (failed (y_ctl y)))) y fs -> cwp health_ok Q y fs.
Proof. intros HQ. unfold health_ok. cstep. exact HQ. Qed.

(** A failure inside a step. *)
Lemma fails_wp (y y1 : Sys) detail fs (P : bool -> Sys -> FsState -> Prop) :
  saves_ok (y_ctl y1) fs -> same_but_saved y y1 ->
  (forall y' f, failed (y_ctl y') -> c_save_task (y_ctl y') = c_save_task (y_ctl y1) -> P false y' f) ->
  cwp (persistence_failed detail;; mret false) (kept y P) y1 fs.
Proof.
  intros Hok Hs HP. cstep. eapply cwp_mono; [by apply persistence_failed_wp|].
  intros _ y2 f (Hok2 & Hs2 & Hf & Ht & _ & ->). cstep. split; [done|]. split; [by etrans|auto].
Qed.

Definition barrier_post (y : Sys) (b : bool) (y' : Sys) (f : FsState) : Prop :=
  (failed (y_ctl y) -> b = false /\ failed (y_ctl y')) /\
  (b = true -> ~ failed (y_ctl y')) /\
  (b = true -> c_dirty (y_ctl y) = true -> c_vault (y_ctl y) <> None ->
     on_disk (y_ctl y') f /\ s_persistence_health (c_state (y_ctl y')) = Ready).

Lemma save_now_wp w v p y fs (Q : res VaultStoreError WriteReceipt -> Sys -> FsState -> Prop) :
  writer_ok (y_ctl y) fs w -> valid_vault v ->
  (forall outcome w' e' f, writer_ok (y_ctl y) f w' -> outcome <> Panic ->
     (is_ok outcome = true -> exists n e sealed,
        seal_container v n (save_sections (cp_profile p) (cp_journal p) (cp_activity p)) e = Ok (sealed, e') /\
        installed (main_path (c_store (y_ctl y))) sealed f) ->
     Q outcome (y <| y_ctl := y_ctl y <| c_writer := Some w' |> |> <| y_entropy := e' |>) f) ->
  cwp (save_now w v p) Q y fs.
Proof.
  intros Hw Hv HQ. unfold cwp, save_now. io_step. eapply wp_mono; [by apply (save_wp (y_ctl y))|].
  intros r f (outcome & w' & e' & -> & Hw' & Hnp & Hdone). io_step. by apply HQ.
Qed.

Lemma flush_save_blocking_wp y fs :
  saves_ok (y_ctl y) fs -> cwp flush_save_blocking (kept y (barrier_post y)) y fs.
Proof.
  intros Hok. unfold flush_save_blocking. cstep. eapply cwp_mono; [by apply drain_save_task_wp|].
  intros b y1 f1 (Hok1 & Hs1 & Ht1 & Hb & Hfl & Hd1).
  assert (c_vault (y_ctl y1) = c_vault (y_ctl y)) as Hvault by (exact (f_equal c_vault (sb_ctl _ _ Hs1))).
  destruct b; cbn [negb].
  2:{ cstep. split; [done|]. split; [done|]. split; [by auto|done]. }
  assert (~ failed (y_ctl y1)) as Hnf1 by auto. clear Hb.
  assert (~ failed (y_ctl y)) as Hnf by auto.
  repeat cstep. destruct (negb (c_dirty (y_ctl y1)) || is_none (c_vault (y_ctl y1))) eqn:En.
  { apply health_ok_wp. rewrite bool_decide_eq_false_2 by done. split; [done|]. split; [done|]. split; [done|]. split; [done|].
    intros _ Hd Hv. exfalso. apply orb_true_iff in En as [En|En]; [by rewrite Hd1 in En|].
    rewrite <- Hvault in Hv. by destruct (c_vault (y_ctl y1)). }
  cstep. eapply cwp_mono; [by apply ensure_activity_quarantined_wp|].
  intros b y2 f2 (Hok2 & Hs2 & Ht2 & Hb & Hd2). assert (same_but_saved y y2) as Hs02 by (by etrans).
  destruct b; cbn [negb].
  2:{ cstep. split; [done|]. split; [done|]. split; [done|]. by split. }
  assert (~ failed (y_ctl y2)) as Hnf2 by auto. clear Hb.
  cstep. eapply cwp_mono; [by apply current_payloads_wp|].
  intros r y3 f3 (Hok3 & Hs3 & -> & Hnp & (cache & ->) & Hr). assert (same_but_saved y (y2 <| y_ctl ::= fun c => c <| c_activity_payload_cache := cache |> |>)) as Hs03 by (by etrans).
  set (y3 := y2 <| _ ::= _ |>) in *.
  destruct r as [p|err|]; [..|done].
  2:{ apply fails_wp; [done|done|]. intros. split; [done|by split]. }
  destruct (Hr p eq_refl) as (Hp & Hj & events & Hev & Ha). clear Hr Hnp. repeat cstep.
  assert (forall detail, cwp (persistence_failed detail;; mret false) (kept y (barrier_post y)) y3 f2) as Hfail.
  { intros detail. apply fails_wp; [done|done|]. intros. split; [done|by split]. }
  destruct (c_vault (y_ctl y3)) as [v|] eqn:Ev; [|by apply Hfail].
  destruct (c_writer (y_ctl y3)) as [w|] eqn:Ew; [|by apply Hfail].
  cstep. apply save_now_wp; [by apply (sv_writer _ _ Hok3)|by apply (sv_vault _ _ Hok3)|].
  intros outcome w' e' f4 Hw' Hnp Hdone.
  assert (saves_ok (y_ctl y3 <| c_writer := Some w' |>) f4) as Hok4.
  { pose proof Hok3 as [Hv3 Hw3 Ht3 Hc3]. split; cbn; try done; [by intros ? [= <-]|].
    cbn in Ht2. by rewrite Ht2. }
  set (y4 := y3 <| _ := _ |> <| _ := _ |>).
  assert (same_but_saved y y4) as Hs04 by (etrans; [exact Hs03|same_saved]).
  destruct outcome as [rc|err|]; [..|done].
  2:{ apply fails_wp; [done|done|]. intros. split; [done|by split]. }
  repeat cstep. split; [by eapply saves_ok_same; [exact Hok4|..]|].
  split; [etrans; [exact Hs04|same_saved]|]. split; [done|]. split; [done|].
  intros _ _ _. split; [|done]. destruct (Hdone eq_refl) as (n & e & sealed & Hseal & Hin).
  exists v, n, (cp_activity p), events, e, e', sealed. rewrite Hp, Hj in Hseal.
  split; [exact Ev|]. split; [exact Hev|]. split; [exact Ha|]. split; [exact Hseal|exact Hin].
Qed.

(** The barrier: it answers yes only when the main file is a save of the controller's own
    profile, journal and activity, and never again after a failure. *)
Lemma persist_journal_barrier_wp y fs :
  saves_ok (y_ctl y) fs ->
  cwp persist_journal_barrier (kept y (fun b y' f =>
    (failed (y_ctl y) -> b = false /\ failed (y_ctl y')) /\
    (b = true -> on_disk (y_ctl y') f /\ s_persistence_health (c_state (y_ctl y')) = Ready))) y fs.
Proof.
  intros Hok. unfold persist_journal_barrier. repeat cstep.
  destruct (is_none (c_vault (y_ctl y)) || _) eqn:Eb.
  { cstep. split; [done|]. by split. }
  apply orb_false_iff in Eb as [Hv Hh]. repeat cstep.
  eapply cwp_mono; [apply flush_save_blocking_wp; by eapply saves_ok_same|].
  intros b y' f (Hok' & Hs & Hf & _ & Hb). split; [done|]. split; [etrans; [|exact Hs]; same_saved|].
  split; [done|]. intros ->. apply Hb; [done|done|]. cbn. intros E. by rewrite E in Hv.
Qed.

Lemma flush_save_wp y fs :
  saves_ok (y_ctl y) fs -> cwp flush_save (kept y (fun _ y' _ => failed (y_ctl y) -> failed (y_ctl y'))) y fs.
Proof.
  intros Hok. unfold flush_save. repeat cstep.
  assert (forall y1 f, saves_ok (y_ctl y1) f -> same_but_saved y y1 -> (failed (y_ctl y) -> failed (y_ctl y1)) ->
    cwp start_save (kept y (fun _ y' _ => failed (y_ctl y) -> failed (y_ctl y'))) y1 f) as Hstart.
  { clear Hok. intros y1 f Hok Hs Hf. unfold start_save. repeat cstep.
    match goal with |- cwp (if ?b then _ else _) _ _ _ => destruct b eqn:Es end; [by cstep; split|].
    apply orb_false_iff in Es as [Es Ht]. apply orb_false_iff in Es as [_ Hnf].
    assert (~ failed (y_ctl y1)) as Hnf1 by (by apply bool_decide_eq_false in Hnf).
    assert (~ failed (y_ctl y)) as Hnf0 by auto. clear Hf Hnf. assert (c_save_task (y_ctl y1) = None) as Ht1
      by (by destruct (c_save_task (y_ctl y1))). clear Ht.
    cstep. eapply cwp_mono; [by apply ensure_activity_quarantined_wp|].
    intros b y2 f2 (Hok2 & Hs2 & Ht2 & _). assert (same_but_saved y y2) as Hs02 by (by etrans).
    destruct b; cbn [negb]; [|by cstep; split]. cstep. eapply cwp_mono; [by apply current_payloads_wp|].
    intros r y3 f3 (Hok3 & Hs3 & -> & Hnp & (cache & ->) & Hr).
    assert (same_but_saved y (y2 <| y_ctl ::= fun c => c <| c_activity_payload_cache := cache |> |>)) as Hs03 by (by etrans).
    set (y3 := y2 <| _ ::= _ |>) in *.
    assert (c_save_task (y_ctl y3) = None) as Ht3 by exact Ht2.
    assert (forall detail y4, saves_ok (y_ctl y4) f2 -> same_but_saved y y4 -> cwp (persistence_failed detail)
      (kept y (fun _ y' _ => failed (y_ctl y) -> failed (y_ctl y'))) y4 f2) as Hfail.
    { intros detail y4 Hok4 Hs4. eapply cwp_mono; [by apply persistence_failed_wp|]. intros u y5 f5 (Hok5 & Hs5 & Hf5 & _).
      split; [done|]. split; [by etrans|done]. }
    destruct r as [p|err|]; [|by apply Hfail|done]. repeat cstep.
    destruct (c_vault (y_ctl y3)) as [v|] eqn:Ev; [|by apply Hfail]. repeat cstep.
    pose proof Hok3 as [Hv3 Hw3 Htask3 Hc3]. destruct (c_writer (y_ctl y3)) as [w|] eqn:Ew.
    - repeat cstep. split; [|split; [etrans; [exact Hs03|same_saved]|done]]. split; cbn; try done.
      split; [done|]. split; [by apply Hw3|by apply Hv3].
    - apply Hfail; [|etrans; [exact Hs03|same_saved]]. by split; cbn; rewrite ?Ht3. }
  match goal with |- cwp (if ?b then _ else _) _ _ _ => destruct b end.
  - eapply cwp_mono; [by apply drain_save_task_wp|]. intros b y1 f1 (Hok1 & Hs1 & _ & _ & Hf & _).
    destruct b; cbn [negb]; [by apply Hstart|]. by cstep; split.
  - cstep. cbn [negb]. by apply Hstart.
Qed.
End steps.

(** ** What the handlers may rely on *)

(** The saving operations, as handlers and the event loop call them. *)
Inductive SaveOp := OpMarkDirty | OpFlushSave | OpFlushBlocking | OpBarrier | OpNewContainer | OpRunTask.

Section operations.
Context `{Sha256} `{VaultPrims} `{Tempfile} `{WalletCodec}.

(** Those that answer no answer counts as [false]. *)
Definition save_op (op : SaveOp) : Ctl bool :=
  match op with
  | OpMarkDirty => mark_dirty;; mret false
  | OpFlushSave => flush_save;; mret false
  | OpFlushBlocking => flush_save_blocking
  | OpBarrier => persist_journal_barrier
  | OpNewContainer => persist_new_container;; mret false
  | OpRunTask => run_save_task;; mret false
  end.

Fixpoint save_ops (ops : list SaveOp) : Ctl (list bool) :=
  match ops with
  | [] => mret []
  | op :: ops => b ← save_op op; bs ← save_ops ops; mret (b :: bs)
  end.
End operations.

Section promised.
Context `{Sha256} `{VaultPrims} `{TempfileLaws} `{WalletCodec}.
Local Notation cwp := (cwp calm (fun _ => True) False).

(** C29: the barrier of write-ahead: whatever fails on the disk, it answers yes only when the
    wallet's main file, safely on the disk, is a save of the profile and the journal the
    controller holds and of its confirmed activity; it changes nothing but what saving is
    about, and once persistence has failed it never answers yes again. *)
Theorem barrier_is_durable (y : Sys) (fs : FsState) (Hok : saves_ok (y_ctl y) fs) :
  cwp persist_journal_barrier
    (fun b y' fs' => saves_ok (y_ctl y') fs' /\ same_but_saved y y' /\
       (failed (y_ctl y) -> b = false /\ failed (y_ctl y')) /\
       (b = true -> on_disk (y_ctl y') fs' /\ s_persistence_health (c_state (y_ctl y')) = Ready)) y fs.
Proof. by apply persist_journal_barrier_wp. Qed.

(** The discipline is kept by every saving operation. *)
Lemma save_op_wp op y fs :
  saves_ok (y_ctl y) fs ->
  cwp (save_op op) (kept y (fun _ y' _ => failed (y_ctl y) -> failed (y_ctl y'))) y fs.
Proof.
  intros Hok. destruct op; cbn [save_op].
  - cstep. unfold mark_dirty. repeat cstep. destruct (_ || _); repeat cstep; [by split|].
    destruct (is_none _); repeat cstep.
    + split; [by eapply saves_ok_same|]. split; [|done]. split; cbn; try done. lia.
    + split; [by eapply saves_ok_same|]. by split; [split|].
  - cstep. eapply cwp_mono; [by apply flush_save_wp|]. intros u y' f Hk. cstep. exact Hk.
  - eapply cwp_mono; [by apply flush_save_blocking_wp|]. intros b y' f (Hk & Hs & Hf & _).
    split; [done|]. split; [done|]. intros Hx. by apply Hf.
  - eapply cwp_mono; [by apply persist_journal_barrier_wp|]. intros b y' f (Hk & Hs & Hf & _).
    split; [done|]. split; [done|]. intros Hx. by apply Hf.
  - cstep. unfold persist_new_container. repeat cstep.
    eapply cwp_mono; [apply flush_save_wp; by eapply saves_ok_same|]. intros u y' f (Hk & Hs & Hf). cstep.
    split; [done|]. split; [etrans; [|exact Hs]; same_saved|exact Hf].
  - cstep. eapply cwp_mono; [by apply run_save_task_wp|]. intros u y' f (Hk & Hs & E & _). cstep.
    split; [done|]. split; [done|]. unfold failed. by rewrite E.
Qed.

(** C30: whatever the order in which saves are asked for, run and awaited, and whatever fails
    on the disk, there is one owner of the main file at a time and it finds it settled; and
    saving never touches what the program is about: profile, journal, activity and tasks. *)
Theorem saving_keeps_ownership (ops : list SaveOp) (y : Sys) (fs : FsState) (Hok : saves_ok (y_ctl y) fs) :
  cwp (save_ops ops)
    (fun _ y' fs' => saves_ok (y_ctl y') fs' /\ same_but_saved y y' /\ (failed (y_ctl y) -> failed (y_ctl y'))) y fs.
Proof.
  revert y fs Hok. induction ops as [|op ops IH]; intros y fs Hok; cbn [save_ops]; [by cstep|].
  cstep. eapply cwp_mono; [by apply save_op_wp|]. intros b y1 f1 (Hok1 & Hs1 & Hf1).
  cstep. eapply cwp_mono; [by apply IH|]. intros l y2 f2 (Hok2 & Hs2 & Hf2). cstep.
  split; [done|]. split; [by etrans|auto].
Qed.

(** A failure is final: with no save under way, no operation on a controller whose
    persistence has failed writes anything or reports a success. *)
Lemma failure_is_final (ops : list SaveOp) (y : Sys) (fs : FsState)
    (Hf : failed (y_ctl y)) (Ht : c_save_task (y_ctl y) = None) :
  wp (fun _ => True) (fun f => f = fs) (save_ops ops y)
    (fun r fs' => fs' = fs /\ exists bs y', r = Ok (bs, y') /\ failed (y_ctl y') /\
       c_save_task (y_ctl y') = None /\ Forall (fun b => b = false) bs) fs.
Proof.
  assert (forall op y1, failed (y_ctl y1) -> c_save_task (y_ctl y1) = None ->
    Controller.cwp (fun _ => True) (fun f => f = fs) False (save_op op) (fun b y' f => f = fs /\ b = false /\
      failed (y_ctl y') /\ c_save_task (y_ctl y') = None) y1 fs) as Hop.
  { clear. intros op y Hf Ht.
    assert (Controller.cwp (fun _ => True) (fun f => f = fs) False drain_save_task
      (fun b y' f => f = fs /\ b = false /\ failed (y_ctl y') /\ c_save_task (y_ctl y') = None /\
                     s_persistence_health (c_state (y_ctl y')) = HealthFailed) y fs) as Hdrain.
    { unfold drain_save_task, run_save_task, health_ok. repeat cstep. rewrite Ht. repeat cstep. rewrite Ht.
      repeat cstep. split; [done|]. split; [|done]. unfold failed in Hf. cbn. by rewrite Hf. }
    assert (forall y1, failed (y_ctl y1) -> c_save_task (y_ctl y1) = None ->
      Controller.cwp (fun _ => True) (fun f => f = fs) False flush_save (fun b y' f => f = fs /\
        failed (y_ctl y') /\ c_save_task (y_ctl y') = None) y1 fs) as Hflush.
    { intros y1 Hf1 Ht1. unfold flush_save, start_save. repeat cstep. rewrite Ht1. repeat cstep. cbn [negb]. repeat cstep. unfold failed in Hf1. rewrite Hf1, Ht1.
      rewrite (bool_decide_eq_true_2 (HealthFailed = HealthFailed)) by done. rewrite orb_true_r. cbn [orb]. by repeat cstep. }
    destruct op; cbn [save_op].
    - cstep. unfold mark_dirty. repeat cstep. unfold failed in Hf. rewrite Hf. rewrite bool_decide_eq_true_2, orb_true_r by done. by repeat cstep.
    - cstep. eapply cwp_mono; [by apply Hflush|]. intros u y' f (? & ? & ?). by repeat cstep.
    - unfold flush_save_blocking. cstep. eapply cwp_mono; [exact Hdrain|]. intros b y' f (-> & -> & ? & ? & _). cbn [negb]. by repeat cstep.
    - unfold persist_journal_barrier. repeat cstep. unfold failed in Hf. rewrite Hf. rewrite bool_decide_eq_true_2, orb_true_r by done. by repeat cstep.
    - cstep. unfold persist_new_container. repeat cstep. eapply cwp_mono; [by apply Hflush|].
      intros u y' f (? & ? & ?). by repeat cstep.
    - cstep. unfold run_save_task. repeat cstep. rewrite Ht. by repeat cstep. }
  cut (Controller.cwp (fun _ => True) (fun f => f = fs) False (save_ops ops) (fun bs y' f => f = fs /\
    failed (y_ctl y') /\ c_save_task (y_ctl y') = None /\ Forall (fun b => b = false) bs) y fs).
  { intros Hc. eapply wp_mono; [exact Hc|]. intros [[bs y']| |] f; [|done..]. intros (-> & ? & ? & ?).
    split; [done|]. by exists bs, y'. }
  revert y Hf Ht. induction ops as [|op ops IH]; intros y Hf Ht; cbn [save_ops]; [by cstep; split_and!|].
  cstep. eapply cwp_mono; [by apply Hop|]. intros b y1 f1 (-> & -> & Hf1 & Ht1).
  cstep. eapply cwp_mono; [by apply IH|]. intros bs y2 f2 (-> & Hf2 & Ht2 & Hb). cstep.
  by split_and!; [..|constructor].
Qed.
End promised.

(** A controller that just made a wallet. *)
Definition demo_codec : @WalletCodec toy_serde := {|
  slot_address_book := {| to_str _ := []; from_str _ := Some [] |};
  slot_records := demo_slot_records;
  slot_risk_events := demo_slot_risks;
  write_events _ := Some [];
  activity_error := [];
  event_hash events := N.of_nat (length events)
|}.

Definition demo_controller : AppController :=
  let fresh := mkController (demo_state [] <| s_phase := Unlocked |>) (bs "w") registry_defaults []
    (mkStore (bs "w") (bs "bob")) (Some demo_vault) (Some demo_writer) (v_params demo_vault)
    0 0 None None None 0 None 0 None None None false None None None None None 0 0 None None 1 0
    LoadRuntime_default SessionRuntime_default None None None 0 false 0 None None JOURNAL_RECONCILE_MIN_DELAY None
    0 0 0 None None None false (mkReading 0 0) true None None None 0 (mkEnvelope [] []) in
  fresh.
Definition demo_sys : Sys :=
  mkSys demo_controller
    (mkOutside (fun n => mkReading (N.of_nat n) (1700000000 * Z.of_N NANOS)) (fun _ => Err []) (fun _ => true)
       (fun _ => None)) 0 [] [] demo_entropy [].

Lemma demo_saves_ok : @saves_ok toy_serde demo_codec demo_controller empty_disk.
Proof.
  split; [|..|done|done].
  - intros v [= <-]. vm_compute. reflexivity.
  - intros w [= <-]. split; [done|]. intros _. split; [apply empty_disk_settled|done].
Qed.

Lemma barrier_is_durable_witness :
  @saves_ok toy_serde demo_codec demo_controller empty_disk /\
  cwp calm (fun _ => True) False (@persist_journal_barrier toy_sha256 toy_prims toy_tempfile toy_serde demo_codec)
    (fun b y' fs' => @saves_ok toy_serde demo_codec (y_ctl y') fs' /\ same_but_saved demo_sys y' /\
       (failed demo_controller -> b = false /\ failed (y_ctl y')) /\
       (b = true -> @on_disk toy_prims toy_serde demo_codec (y_ctl y') fs' /\
                    s_persistence_health (c_state (y_ctl y')) = Ready)) demo_sys empty_disk.
Proof.
  split; [exact demo_saves_ok|].
  exact (@barrier_is_durable toy_sha256 toy_prims toy_tempfile toy_tempfile_laws toy_serde demo_codec
           demo_sys empty_disk demo_saves_ok).
Defined.

Lemma saving_keeps_ownership_witness :
  @saves_ok toy_serde demo_codec demo_controller empty_disk /\
  cwp calm (fun _ => True) False
    (@save_ops toy_sha256 toy_prims toy_tempfile toy_serde demo_codec [OpFlushSave; OpMarkDirty; OpRunTask; OpBarrier])
    (fun _ y' fs' => @saves_ok toy_serde demo_codec (y_ctl y') fs' /\ same_but_saved demo_sys y' /\
       (failed demo_controller -> failed (y_ctl y'))) demo_sys empty_disk.
Proof.
  split; [exact demo_saves_ok|].
  exact (@saving_keeps_ownership toy_sha256 toy_prims toy_tempfile toy_tempfile_laws toy_serde demo_codec
           [OpFlushSave; OpMarkDirty; OpRunTask; OpBarrier] demo_sys empty_disk demo_saves_ok).
Defined.

(** The same controller after a write failed. *)
Definition demo_failed : Sys :=
  demo_sys <| y_ctl ::= fun c => c <| c_state ::= fun s => s <| s_persistence_health := HealthFailed |> |> |>.

Lemma failure_is_final_witness :
  failed (y_ctl demo_failed) /\ c_save_task (y_ctl demo_failed) = None /\
  wp (fun _ => True) (fun f => f = empty_disk)
    (@save_ops toy_sha256 toy_prims toy_tempfile toy_serde demo_codec [OpBarrier; OpNewContainer] demo_failed)
    (fun r fs' => fs' = empty_disk /\ exists bs y', r = Ok (bs, y') /\ failed (y_ctl y') /\
       c_save_task (y_ctl y') = None /\ Forall (fun b => b = false) bs) empty_disk.
Proof.
  split; [reflexivity|]. split; [reflexivity|].
  exact (@failure_is_final toy_sha256 toy_prims toy_tempfile toy_serde demo_codec
           [OpBarrier; OpNewContainer] demo_failed empty_disk eq_refl eq_refl).
Defined.
