(* ===== verification/Service.v ===== *)
(** * What the controllers ask of the chain service at once

    The [ChainService] the controllers hold is an interface; what of it answers at once is a
    class here, the rest are tasks.  And the inputs handlers give to it: the endpoint, the
    wallet and the address in use (crates/cc-wallet-app/src/controller/mod.rs, endpoints.rs).
    And what handlers leave alone that change nothing a save is about. *)

From Stdlib Require Import NArith ZArith Lia.
From stdpp Require Import gmap.
From S2P Require Import Prelude Ord Bytes Text Decimal Ids Asset Amount Digest Send Profile Network.
From S2P Require Import Risk Journal Envelope Strict VaultKeys Vault Fs Atomic Wallets Writer Update AppState Controller Save.

(** A sealed comment of a conversation. *)
Record SealedComment := mkSealedComment { sc_outgoing : bool; sc_sender_key : PublicKey32; sc_blob : bytes }.

(** An error is its text. *)
Class ChainService := {
  derive_wallet_address : WalletInputs -> res bytes bytes;
  storage_address_for : WalletInputs -> res bytes bytes;
  open_conversation : WalletInputs -> bytes -> option bytes32 -> list SealedComment -> res bytes (list (option bytes));
  canonical_endpoint : bytes -> res bytes bytes;
  seed_phrase_is_valid : bytes -> bool
}.

Definition wallet_error_text (e : WalletError) : bytes := bs (WalletError_display e).

Section service.
Context `{StdAddrLib} `{ChainService}.

Definition current_endpoint : Ctl bytes := endpoint ← get_state resolved_endpoint; pure endpoint.

Definition wallet_inputs : Ctl (res bytes WalletInputs) :=
  endpoint ← current_endpoint;
  if bool_decide (endpoint = []) then
    network_id ← get_state s_network_id;
    mret (Err (bs "no endpoint configured for network " ++ print_z network_id ++ bs ", add one in Settings"))
  else
  endpoint ← attempt (canonical_endpoint endpoint);
  match endpoint with
  | Ok endpoint =>
      network_id ← get_state s_network_id;
      networks ← gets c_networks;
      profile ← get_state to_profile;
      attempt (map_err wallet_error_text
                 (Profile.wallet_inputs profile endpoint (require_signature_id networks network_id)))
  | Err error => mret (Err error)
  | Panic => pure Panic
  end.

Definition endpoint_address_inputs : Ctl (res bytes EndpointAddressInputs) :=
  endpoint ← current_endpoint;
  endpoint ← attempt (canonical_endpoint endpoint);
  match endpoint with
  | Ok endpoint =>
      address ← get_state wallet_address;
      match address with
      | Some address => attempt (map_err wallet_error_text (EndpointAddressInputs_new endpoint address))
      | None => mret (Err (bs "wallet address is unavailable"))
      end
  | Err error => mret (Err error)
  | Panic => pure Panic
  end.

Definition wallet_load_inputs : Ctl (res bytes EndpointAddressInputs) :=
  known ← get_state (fun s => is_some (wallet_address s));
  if known : bool then endpoint_address_inputs else
  inputs ← wallet_inputs;
  match inputs with
  | Ok inputs =>
      address ← attempt (derive_wallet_address inputs);
      match address with
      | Ok address =>
          made ← attempt (map_err wallet_error_text (EndpointAddressInputs_new (wi_endpoint inputs) address));
          match made with
          | Ok made => mod_state (fun s => s <| s_derived_wallet_address := address |>);; mret (Ok made)
          | r => mret r
          end
      | Err error => mret (Err error)
      | Panic => pure Panic
      end
  | Err error => mret (Err error)
  | Panic => pure Panic
  end.

Definition verify_network_id (gid : Z) : Ctl bool :=
  network_id ← get_state s_network_id;
  if (gid =? network_id)%Z then mod_state (fun s => s <| s_network_mismatch := false |>);; mret true else
  mod_state (fun s => set_error (bs "This endpoint serves network " ++ print_z gid
      ++ bs ", but this wallet is on network " ++ print_z network_id
      ++ bs ". Choose an endpoint for the wallet's network in Settings — sending is blocked.")
    (s <| s_network_mismatch := true |>));;
  mret false.
End service.

(** None of what is called panics. *)
Class AddressesReturn `{StdAddrLib} : Prop := { from_str_returns : forall a, from_str_ext a <> Panic }.

Class CallsReturn `{ChainService} : Prop := {
  derive_returns : forall i, derive_wallet_address i <> Panic;
  storage_address_returns : forall i, storage_address_for i <> Panic;
  open_conversation_returns : forall i peer key sealed, open_conversation i peer key sealed <> Panic;
  canonical_endpoint_returns : forall e, canonical_endpoint e <> Panic
}.

(** ** Handlers that touch nothing a save is about

    [core]: the journal, and what saving holds; [written]: what else a save writes. *)
Record Core := mkCore {
  k_journal : JournalEnvelope;
  k_store : VaultStore;
  k_vault : option Vault;
  k_writer : option VaultWriter;
  k_task : option SaveTask;
  k_cache : option (N * option bytes);
  k_quarantining : bool;
  k_health : PersistenceHealth
}.

Definition core (c : AppController) : Core :=
  mkCore (c_journal c) (c_store c) (c_vault c) (c_writer c) (c_save_task c) (c_activity_payload_cache c)
    (quarantining c) (s_persistence_health (c_state c)).

Definition written (c : AppController) := (to_profile (c_state c), confirmed (s_activity (c_state c))).

Definition is_broadcast (t : Task) : bool := match t with TaskBroadcast _ _ _ => true | _ => false end.

(** Whatever else it spawned, it broadcast nothing; and it numbered no row. *)
Record aside (y y' : Sys) : Prop := {
  as_core : core (y_ctl y') = core (y_ctl y);
  as_rows : c_pending_seq (y_ctl y') = c_pending_seq (y_ctl y);
  as_tasks : exists l, y_tasks y' = y_tasks y ++ l /\ Forall (fun t => is_broadcast t = false) l
}.

#[export] Instance aside_refl : Reflexive aside.
Proof. split; [done..|]. exists []. by rewrite app_nil_r. Qed.
#[export] Instance aside_trans : Transitive aside.
Proof.
  intros x y z [C1 R1 (l1 & T1 & F1)] [C2 R2 (l2 & T2 & F2)]. split; [by rewrite C2|by rewrite R2|]. exists (l1 ++ l2).
  rewrite T2, T1, app_assoc. split; [done|]. by apply Forall_app.
Qed.

(** An update of fields that are not about saving. *)
Ltac is_aside := split; [same_fields|vm_compute; reflexivity|exists []; by rewrite app_nil_r].

Lemma aside_journal y y' : aside y y' -> c_journal (y_ctl y') = c_journal (y_ctl y).
Proof. intros [C _ _]. exact (f_equal k_journal C). Qed.

Lemma aside_failed y y' : aside y y' -> failed (y_ctl y') <-> failed (y_ctl y).
Proof. intros [C _ _]. pose proof (f_equal k_health C) as E. cbn in E. unfold failed. by rewrite E. Qed.

Section aside.
Context `{Sha256} `{VaultPrims} `{TempfileLaws} `{WalletCodec}.

Lemma aside_saves_ok y y' fs : aside y y' -> saves_ok (y_ctl y) fs -> saves_ok (y_ctl y') fs.
Proof.
  intros [C _ _] Hok. eapply saves_ok_same; [exact Hok|exact (f_equal k_writer C)|exact (f_equal k_task C)
    |exact (f_equal k_store C)|exact (f_equal k_vault C)|exact (f_equal k_cache C)|].
  pose proof (f_equal k_quarantining C) as E. cbn in E. by rewrite E.
Qed.

Lemma aside_on_disk y y' fs :
  aside y y' -> written (y_ctl y') = written (y_ctl y) -> on_disk (y_ctl y) fs -> on_disk (y_ctl y') fs.
Proof.
  intros [C _ _] W. pose proof (f_equal k_journal C) as Ej. pose proof (f_equal k_store C) as Es.
  pose proof (f_equal k_vault C) as Ev. pose proof (f_equal fst W) as Ep. pose proof (f_equal snd W) as Ea.
  cbn [core written k_journal k_store k_vault fst snd] in Ej, Es, Ev, Ep, Ea. unfold on_disk. by rewrite Ej, Es, Ev, Ep, Ea.
Qed.
End aside.

(** A handler that stays aside, whatever the files, and what it does besides. *)
Section quiet.
Context (T : Tick -> Prop) (I : FsState -> Prop) (P : Prop).

Definition quiet {A} (m : Ctl A) (y : Sys) (fs : FsState) (Q : A -> Sys -> Prop) : Prop :=
  cwp T I P m (fun a y' f => f = fs /\ aside y y' /\ Q a y') y fs.

Lemma quiet_use {A} (m : Ctl A) y0 y fs Q (R : A -> Sys -> FsState -> Prop) :
  quiet m y fs Q -> aside y0 y -> (forall a y', Q a y' -> aside y0 y' -> R a y' fs) -> cwp T I P m R y fs.
Proof.
  intros Hm Ha Hk. eapply cwp_mono; [exact Hm|]. intros a y' f (-> & Ha' & HQ).
  apply Hk; [done|]. by etrans.
Qed.
End quiet.

Section calls.
Context (T : Tick -> Prop) (I : FsState -> Prop) (P : Prop).
Context `{AddressesReturn} `{CallsReturn}.
Local Notation quiet := (quiet T I P).

Lemma resolved_endpoint_returns s : resolved_endpoint s <> Panic.
Proof.
  unfold resolved_endpoint. cbv zeta. case_bool_decide as Hl; [done|].
  destruct (endpoint_display_list s !! _) eqn:E; [done|]. apply lookup_ge_None in E. exfalso.
  destruct (endpoint_display_list s); [done|]. cbn [length] in E. lia.
Qed.

Lemma current_endpoint_quiet y fs : quiet current_endpoint y fs (fun _ y' => y' = y).
Proof.
  unfold quiet, current_endpoint. repeat cstep. apply cwp_pure. pose proof (resolved_endpoint_returns (c_state (y_ctl y))).
  destruct (resolved_endpoint _) as [e|[]|]; [|done]. by split.
Qed.

Lemma aside_here {A} (a : A) (y : Sys) (f fs : FsState) (Q : A -> Sys -> Prop) :
  f = fs -> Q a y -> f = fs /\ aside y y /\ Q a y.
Proof. intros -> HQ. split_and!; [done|done|exact HQ]. Qed.

Lemma recipient_returns a : canonicalize_recipient a <> Panic.
Proof.
  unfold canonicalize_recipient. cbv zeta. case_bool_decide; [done|].
  pose proof (from_str_returns (trim a)). destruct (from_str_ext _) as [p|e|]; cbn; [|done..].
  destruct (sa_anycast p); [done|]. by destruct (_ || _).
Qed.

Lemma address_inputs_return e a : EndpointAddressInputs_new e a <> Panic.
Proof.
  unfold EndpointAddressInputs_new. destruct (_ || _); [done|].
  pose proof (recipient_returns a). by destruct (canonicalize_recipient a).
Qed.

Lemma map_err_returns {E F A} (f : E -> F) (m : res E A) : m <> Panic -> map_err f m <> Panic.
Proof. by destruct m. Qed.

Lemma profile_inputs_return p e sig : Profile.wallet_inputs p e sig <> Panic.
Proof.
  unfold Profile.wallet_inputs, validate_seed, validate_workchain. cbv zeta.
  repeat match goal with |- context [if ?b then _ else _] => destruct b end; done.
Qed.

Lemma attempt_quiet {E A} (r : res E A) y fs (R : res E A -> Sys -> FsState -> Prop) :
  r <> Panic -> R r y fs -> cwp T I P (attempt r) R y fs.
Proof. intros Hr HR. apply cwp_attempt. by destruct r. Qed.

(** The inputs change nothing, and are there or are not. *)
Definition answered {A} (y : Sys) (r : res bytes A) (y' : Sys) : Prop := y' = y /\ r <> Panic.

Lemma wallet_inputs_quiet y fs : quiet wallet_inputs y fs (answered y).
Proof.
  unfold wallet_inputs, quiet. cstep; eapply quiet_use; [by apply current_endpoint_quiet|done|]. intros e y' -> _.
  case_bool_decide; repeat cstep; [by apply aside_here|].
  apply attempt_quiet; [apply canonical_endpoint_returns|].
  pose proof (canonical_endpoint_returns e). destruct (canonical_endpoint e) as [c|err|]; repeat cstep; [|by apply aside_here|done].
  apply attempt_quiet; [apply map_err_returns, profile_inputs_return|]. apply aside_here; [done|]. split; [done|].
  apply map_err_returns, profile_inputs_return.
Qed.

Lemma endpoint_address_inputs_quiet y fs : quiet endpoint_address_inputs y fs (answered y).
Proof.
  unfold endpoint_address_inputs, quiet. cstep; eapply quiet_use; [by apply current_endpoint_quiet|done|]. intros e y' -> _.
  cstep. apply attempt_quiet; [apply canonical_endpoint_returns|].
  pose proof (canonical_endpoint_returns e). destruct (canonical_endpoint e) as [c|err|]; repeat cstep; [|by apply aside_here|done].
  destruct (wallet_address _); [|by cstep; apply aside_here].
  apply attempt_quiet; [apply map_err_returns, address_inputs_return|]. apply aside_here; [done|]. split; [done|].
  apply map_err_returns, address_inputs_return.
Qed.
End calls.
