(* ===== verification/Rows.v ===== *)
(** * Rows of the history, lines of the chat and the receipt of a swap

    crates/cc-wallet-app/src/controller/live.rs (the optimistic rows and the merging of what
    the chain reports), chat.rs, and the parts of swap.rs that follow the history. *)

From Stdlib Require Import NArith ZArith Lia.
From stdpp Require Import gmap.
From S2P Require Import Prelude Ord Bytes Text Decimal Ids Asset Amount Digest Affordability Send Swap Profile Network.
From S2P Require Import Risk Journal Envelope Strict VaultKeys Vault Fs Atomic Wallets Writer.
From S2P Require Import ChainData Update AppState Controller Save Service.

#[export] Instance ActivityEvent_fields : Fields ActivityEvent := fun e =>
  Build_ActivityEvent (ae_direction e) (ae_lt e) (ae_time_unix e) (ae_tx_hash e) (ae_counterparty e) (ae_movements e)
    (ae_fee_native e) (ae_success e) (ae_bounced e) (ae_exit_code e) (ae_ext_msg_hash e) (ae_int_msg_hash e)
    (ae_finality_ms e) (ae_pending e) (ae_message e).
#[export] Instance PendingExternal_fields : Fields PendingExternal := fun p =>
  mkExternal (px_hash p) (px_started_at p) (px_settled_ms p).

(** [u64::try_from(instant.elapsed().as_millis()).ok()]. *)
Definition elapsed_ms (now started_at : N) : option N :=
  let ms := saturating_sub now started_at / MILLIS in if ms <=? u64_max then Some ms else None.

(** The rows of our own sends the chain has not reported yet. *)
Definition is_optimistic (e : ActivityEvent) : bool := is_none (ae_tx_hash e).
Definition has_ext_hash (hash : Digest32) (e : ActivityEvent) : bool := bool_decide (ae_ext_msg_hash e = Some hash).
Definition optimistic_of (hash : Digest32) (e : ActivityEvent) : bool := is_optimistic e && has_ext_hash hash e.

Definition activity_key (e : ActivityEvent) : bool * Reverse N := (is_some (ae_tx_hash e), mkReverse (ae_lt e)).

(** ** Chat lines (chat.rs) *)
Record Said := mkSaid {
  sd_awaiting_chain : bool;
  sd_lt : N;
  sd_time_unix : N;
  sd_outgoing : bool;
  sd_pending : bool;
  sd_message : ActivityMessage
}.

Definition said_of (peer : bytes) (e : ActivityEvent) : option Said :=
  match ae_message e with
  | None => None
  | Some message =>
      if bool_decide (ae_counterparty e = peer) then
        Some (mkSaid (is_none (ae_tx_hash e)) (ae_lt e) (ae_time_unix e)
                (match ae_direction e with Out => true | In => false end) (ae_pending e) message)
      else None
  end.

Definition carried (peer : bytes) (activity : list ActivityEvent) : list Said :=
  sort_by_key (fun said => (sd_awaiting_chain said, sd_lt said)) (omap (said_of peer) activity).

Definition sealed_of (said : Said) : option SealedComment :=
  match sd_message said with
  | Sealed sender_key blob => Some (mkSealedComment (sd_outgoing said) sender_key blob)
  | Plain _ => None
  end.

(** [opened] yields one answer per sealed message, in order, and nothing once it is used up. *)
Fixpoint chat_lines (l : list Said) (opened : list (option bytes)) : list ChatLine :=
  match l with
  | [] => []
  | said :: l =>
      match sd_message said with
      | Plain text =>
          mkChatLine (sd_outgoing said) (sd_time_unix said) (sd_lt said) text false false (sd_pending said)
          :: chat_lines l opened
      | Sealed _ _ =>
          let text := match opened with Some text :: _ => Some text | _ => None end in
          mkChatLine (sd_outgoing said) (sd_time_unix said) (sd_lt said) (default [] text) true (is_none text)
            (sd_pending said)
          :: chat_lines l (tail opened)
      end
  end.

Definition mod_chat (f : ChatUi -> ChatUi) : Ctl unit := mod_state (fun s => s <| s_chat := f (s_chat s) |>).
Definition mod_swap (f : SwapUi -> SwapUi) : Ctl unit := mod_state (fun s => s <| s_swap := f (s_swap s) |>).

Definition clear_chat_draft_after_send : Ctl unit :=
  mod_chat (fun c => c <| ch_draft := [] |> <| ch_sending := false |>).

Section chat.
Context `{StdAddrLib} `{ChainService}.

Definition open_sealed (peer : bytes) (sealed : list SealedComment) : Ctl (list (option bytes)) :=
  if bool_decide (sealed = []) then mret [] else
  inputs ← wallet_inputs;
  match inputs with
  | Ok inputs =>
      peer_key ← gets (fun c => se_chat_peer_key (c_session c));
      opened ← attempt (open_conversation inputs peer peer_key sealed);
      match opened with
      | Ok opened => mret opened
      | Err error => mod_chat (fun c => c <| ch_error := error |>);; mret (repeat None (length sealed))
      | Panic => pure Panic
      end
  | Err _ => mret (repeat None (length sealed))
  | Panic => pure Panic
  end.

Definition rebuild_chat : Ctl unit :=
  chat ← get_state s_chat;
  if negb (ch_open chat) then mret tt else
  let peer := ch_peer chat in
  said ← get_state (fun s => carried peer (s_activity s));
  opened ← open_sealed peer (omap sealed_of said);
  mod_chat (fun c => c <| ch_lines := chat_lines said opened |>).

(** ** Optimistic rows (live.rs) *)
Definition sort_activity : Ctl unit :=
  mod_state (fun s => s <| s_activity := sort_by_key activity_key (s_activity s) |>);;
  rebuild_chat.

Definition pending_row (request : SendRequest) (lt time_unix : N) : ActivityEvent :=
  {| ae_direction := Out;
     ae_lt := lt;
     ae_time_unix := time_unix;
     ae_tx_hash := None;
     ae_counterparty := sr_destination request;
     ae_movements := [mkMovement (sr_value request)];
     ae_fee_native := 0;
     ae_success := true;
     ae_bounced := false;
     ae_exit_code := 0;
     ae_ext_msg_hash := None;
     ae_int_msg_hash := None;
     ae_finality_ms := None;
     ae_pending := true;
     ae_message := if bool_decide (sr_comment request = []) then None else Some (Plain (sr_comment request)) |}.

Definition push_pending_send (request : SendRequest) : Ctl N :=
  seq ← gets c_pending_seq;
  lt ← checked_inc seq;
  modify (fun c => c <| c_pending_seq := lt |>);;
  r ← now;
  mod_state (fun s => s <| s_activity ::= fun l => l ++ [pending_row request lt (now_unix r)] |>);;
  mod_session (fun s => s <| se_pending_sends ::= fun l => l ++ [(lt, None)] |>);;
  sort_activity;;
  mret lt.

Definition begin_pending_send (request : SendRequest) : Ctl N :=
  awaiting ← gets (fun c =>
    match se_awaiting_send_lt (c_session c) with
    | Some lt => if existsb (fun e => is_optimistic e && (ae_lt e =? lt)) (s_activity (c_state c)) then Some lt else None
    | None => None
    end);
  match awaiting with
  | Some lt => mret lt
  | None =>
      lt ← push_pending_send request;
      mod_session (fun s => s <| se_awaiting_send_lt := Some lt |>);;
      mret lt
  end.

(** The first pending send of this row is armed, once. *)
Fixpoint arm_first (lt now : N) (l : list (N * option N)) : list (N * option N) :=
  match l with
  | [] => []
  | (pending_lt, started_at) :: l =>
      if pending_lt =? lt then (pending_lt, match started_at with None => Some now | s => s end) :: l
      else (pending_lt, started_at) :: arm_first lt now l
  end.

Definition arm_awaiting_send_finality : Ctl unit :=
  awaiting ← gets (fun c => se_awaiting_send_lt (c_session c));
  match awaiting with
  | None => mret tt
  | Some lt => r ← now; mod_session (fun s => s <| se_pending_sends ::= arm_first lt (r_mono r) |>)
  end.

(** Each wait reads the clock for itself; one reading stands for them all. *)
Definition end_external_waits : Ctl unit :=
  r ← now;
  mod_session (fun s => s <| se_pending_externals ::= fmap (fun p =>
    if is_none (px_settled_ms p) then p <| px_settled_ms := elapsed_ms (r_mono r) (px_started_at p) |> else p) |>).

Definition settled_wait_for (hash : Digest32) (s : SessionRuntime) : option N :=
  match find (fun p => bool_decide (px_hash p = hash)) (se_pending_externals s) with
  | Some pending => px_settled_ms pending
  | None => None
  end.

(** When the sends of these rows were first broadcast. *)
Definition first_started (lts : list N) (pending_sends : list (N * option N)) : option N :=
  min_of (omap snd (List.filter (fun p => existsb (N.eqb (fst p)) lts) pending_sends)).

Definition broadcast_started_at (hash : Digest32) (lts : list N) (s : SessionRuntime) : option N :=
  match find (fun p => bool_decide (px_hash p = hash)) (se_pending_externals s) with
  | Some pending => Some (px_started_at pending)
  | None => first_started lts (se_pending_sends s)
  end.

Definition settle_row (hash : Digest32) (finality : option N) (e : ActivityEvent) : ActivityEvent :=
  if optimistic_of hash e
  then e <| ae_pending := false |> <| ae_finality_ms ::= fun f => match f with None => finality | f => f end |>
  else e.

Definition settle_optimistic_row (ext_msg_hash : Digest32) : Ctl unit :=
  ours ← get_state (fun s => ae_lt <$> List.filter (optimistic_of ext_msg_hash) (s_activity s));
  started ← gets (fun c => first_started ours (se_pending_sends (c_session c)));
  r ← now;
  let finality := started ≫= elapsed_ms (r_mono r) in
  mod_state (fun s => s <| s_activity ::= fmap (settle_row ext_msg_hash finality) |>);;
  sort_activity.

Definition discard_awaiting_send : Ctl unit :=
  awaiting ← gets (fun c => se_awaiting_send_lt (c_session c));
  match awaiting with
  | None => mret tt
  | Some lt =>
      mod_session (fun s => s <| se_awaiting_send_lt := None |>);;
      mod_state (fun s => s <| s_activity ::= List.filter (fun e => negb (is_optimistic e && (ae_lt e =? lt))) |>);;
      mod_session (fun s => s <| se_pending_sends ::= List.filter (fun p => negb (fst p =? lt)) |>)
  end.
End chat.

(** ** The receipt of a swap (swap.rs) *)
Definition settled_direction (e : ActivityEvent) (outgoing : bool) : bool :=
  is_some (ae_tx_hash e) && match ae_direction e with Out => outgoing | In => negb outgoing end.

(** The first positive amount of the wanted asset. *)
Fixpoint first_units (wanted : AssetId) (l : list AssetMovement) : res Empty_set (option N) :=
  match l with
  | [] => Ok None
  | movement :: l =>
      if bool_decide (asset_id (mv_amount movement) = wanted) then
        let? units := base_units_u128 (mv_amount movement) in
        match units with
        | Some units => if 0 <? units then Ok (Some units) else first_units wanted l
        | None => first_units wanted l
        end
      else first_units wanted l
  end.

(** What came back of a swap: what was received, what was returned, and the fees. *)
Fixpoint swap_answers (in_asset out_asset : AssetId) (l : list ActivityEvent)
    (received returned : option N) (fee : N) : res Empty_set (option N * option N * N) :=
  match l with
  | [] => Ok (received, returned, fee)
  | event :: l =>
      let? units := first_units (if ae_bounced event then in_asset else out_asset) (ae_movements event) in
      match units with
      | None => swap_answers in_asset out_asset l received returned fee
      | Some units =>
          let fee := saturating_add u128_max fee (ae_fee_native event) in
          if ae_bounced event then swap_answers in_asset out_asset l received (Some units) fee
          else swap_answers in_asset out_asset l (Some units) returned fee
      end
  end.

Section receipts.
Context `{ChainService}.

Definition refresh_swap_pool : Ctl unit :=
  pool ← gets (fun c => dex_pool_for (c_networks c) (s_network_id (c_state c)));
  match pool with
  | None =>
      mod_swap (fun s => s <| sw_pool := None |> <| sw_quote := None |> <| sw_pool_loading := false |>
                           <| sw_pool_error := bs "No swap pool is configured for this network" |>)
  | Some pool =>
      endpoint ← current_endpoint;
      if bool_decide (endpoint = []) then
        mod_swap (fun s => s <| sw_pool_error := bs "No endpoint configured for this network" |>)
      else
      endpoint ← attempt (canonical_endpoint endpoint);
      match endpoint with
      | Ok endpoint =>
          mod_swap (fun s => s <| sw_pool_loading := true |> <| sw_pool_error := [] |>);;
          generation ← gets c_subscription_generation;
          modify (fun c => c <| c_swap_pool_seq ::= wrapping_inc |>);;
          seq ← gets c_swap_pool_seq;
          spawn (TaskLoadPool generation seq endpoint pool)
      | Err error => mod_swap (fun s => s <| sw_pool_error := error |>)
      | Panic => pure Panic
      end
  end.

Definition reconcile_swap_receipt : Ctl unit :=
  receipt ← get_state (fun s => sw_receipt (s_swap s));
  match receipt with
  | None => mret tt
  | Some receipt =>
      if receipt_settled receipt then mret tt else
      match rc_ext_msg_hash receipt with
      | None => mret tt
      | Some hash =>
          activity ← get_state s_activity;
          match find (has_ext_hash hash) (List.filter (fun e => settled_direction e true) activity) with
          | None => mret tt
          | Some sent =>
              let answers := List.filter (fun e => (ae_lt sent <? ae_lt e) && bool_decide (ae_counterparty e = rc_pool receipt))
                               (List.filter (fun e => settled_direction e false) activity) in
              found ← pure (swap_answers (asset_id (rc_sent receipt)) (rc_out_asset receipt) answers None None
                              (ae_fee_native sent));
              let '(received, returned, fee) := found in
              let receipt := receipt <| rc_received_units := received |> <| rc_returned_units := returned |>
                                     <| rc_fee_native := fee |> in
              mod_swap (fun s => s <| sw_receipt := Some receipt |>);;
              if receipt_settled receipt then refresh_swap_pool else mret tt
          end
      end
  end.
End receipts.

(** ** The history (live.rs) *)
Definition conservative_history_age_anchor (local_now : N) (newest_chain : option N) : option N :=
  match newest_chain with
  | None => None
  | Some newest_chain =>
      if newest_chain =? 0 then None
      else if saturating_add u64_max local_now (10 * 60) <? newest_chain then None
      else Some (N.min local_now newest_chain)
  end.

Definition newest_unambiguous_chain_time (events : list ActivityEvent) : option N :=
  match max_of (ae_lt <$> List.filter (fun e => is_some (ae_tx_hash e)) events) with
  | None => None
  | Some newest_lt =>
      match ae_time_unix <$> List.filter (fun e => is_some (ae_tx_hash e) && (ae_lt e =? newest_lt)) events with
      | [] => None
      | first :: times => if forallb (N.eqb first) times then Some first else None
      end
  end.

(** How often each asset moved so far: the assets, one by one. *)
Definition moved (asset : AssetId) (seen : list AssetId) : nat :=
  length (List.filter (fun a => bool_decide (a = asset)) seen).

Fixpoint cap_rows (min_time : option N) (kept : nat) (boundary : option N) (seen : list AssetId)
    (l : list ActivityEvent) : list ActivityEvent :=
  match l with
  | [] => []
  | event :: l =>
      if is_optimistic event then event :: cap_rows min_time kept boundary seen l
      else if (MAX_HISTORY <=? kept)%nat && negb (bool_decide (boundary = Some (ae_lt event)))
      then cap_rows min_time kept boundary seen l
      else
        let young := match min_time with None => true | Some cutoff => cutoff <=? ae_time_unix event end in
        let within_global_floor := (kept <? HISTORY_MIN_KEEP)%nat in
        let within_per_asset :=
          existsb (fun m => (moved (asset_id (mv_amount m)) seen <? HISTORY_MIN_KEEP)%nat) (ae_movements event) in
        if young || within_global_floor || within_per_asset then
          let kept := S kept in
          event :: cap_rows min_time kept (if (kept =? MAX_HISTORY)%nat then Some (ae_lt event) else boundary)
                     (((fun m => asset_id (mv_amount m)) <$> ae_movements event) ++ seen) l
        else cap_rows min_time kept boundary seen l
  end.

Definition cap_history_at (local_now_unix : N) : Ctl unit :=
  mod_state (fun s => s <| s_activity ::= fun activity =>
    let age_anchor := conservative_history_age_anchor local_now_unix (newest_unambiguous_chain_time activity) in
    cap_rows ((fun anchor => saturating_sub anchor HISTORY_MAX_AGE_SECS) <$> age_anchor) 0 None [] activity |>).

Definition cap_history : Ctl unit := r ← now; cap_history_at (now_unix r).

(** A row that is already held. *)
Definition held_already (activity : list ActivityEvent) (event : ActivityEvent) : bool :=
  existsb (fun held => is_some (ae_tx_hash held) && (ae_lt held =? ae_lt event)
                       && bool_decide (ae_int_msg_hash held = ae_int_msg_hash event)) activity.

Section merge.
Context `{Sha256} `{VaultPrims} `{Tempfile} `{WalletCodec} `{StdAddrLib} `{ChainService}.

(** A confirmed row takes the place of the optimistic rows of its message, with the time
    they waited; whether there were any. *)
Definition replace_optimistic (hash : Digest32) (event : ActivityEvent) : Ctl (ActivityEvent * bool) :=
  removed ← get_state (fun s => List.filter (optimistic_of hash) (s_activity s));
  let lts := ae_lt <$> removed in
  finality ← (match ae_finality_ms event with
              | Some finality => mret (Some finality)
              | None =>
                  match min_of (omap ae_finality_ms removed) with
                  | Some finality => mret (Some finality)
                  | None =>
                      settled ← gets (fun c => settled_wait_for hash (c_session c));
                      match settled with
                      | Some finality => mret (Some finality)
                      | None =>
                          started ← gets (fun c => broadcast_started_at hash lts (c_session c));
                          match started with
                          | Some started => r ← now; mret (elapsed_ms (r_mono r) started)
                          | None => mret None
                          end
                      end
                  end
              end);
  mod_state (fun s => s <| s_activity ::= List.filter (fun held => negb (optimistic_of hash held)) |>);;
  mod_session (fun s => s <| se_pending_sends ::= List.filter (fun p => negb (existsb (N.eqb (fst p)) lts)) |>
                          <| se_pending_externals ::= List.filter (fun p => negb (bool_decide (px_hash p = hash))) |>);;
  mret (event <| ae_finality_ms := finality |>, negb (bool_decide (removed = []))).

(** Whether anything changed, and whether an optimistic row was confirmed. *)
Fixpoint merge_events (incoming : list ActivityEvent) (changed confirmed : bool) : Ctl (bool * bool) :=
  match incoming with
  | [] => mret (changed, confirmed)
  | event :: incoming =>
      held ← get_state (fun s => held_already (s_activity s) event);
      if held : bool then merge_events incoming changed confirmed else
      replaced ← (match ae_ext_msg_hash event with
                  | Some hash => replace_optimistic hash event
                  | None => mret (event, false)
                  end);
      mod_state (fun s => s <| s_activity ::= fun l => l ++ [fst replaced] |>);;
      merge_events incoming true (confirmed || snd replaced)
  end.

Definition merge_activity (incoming : list ActivityEvent) : Ctl unit :=
  merged ← merge_events incoming false false;
  let '(changed, optimistic_confirmation_merged) := merged : bool * bool in
  if negb changed then mret tt else
  reconcile_swap_receipt;;
  sort_activity;;
  cap_history;;
  if optimistic_confirmation_merged then persist_journal_barrier;; mret tt else save_history.

(** ** The chat window (chat.rs) *)
Definition fetch_chat_peer_key : Ctl unit :=
  mod_session (fun s => s <| se_chat_peer_key := None |>);;
  modify (fun c => c <| c_chat_key_seq ::= wrapping_inc |>);;
  seq ← gets c_chat_key_seq;
  peer ← get_state (fun s => ch_peer (s_chat s));
  inputs ← endpoint_address_inputs;
  match inputs with
  | Ok inputs => mod_chat (fun c => c <| ch_loading := true |>);; spawn (TaskChatPeerKey seq inputs peer)
  | Err _ => mret tt
  | Panic => pure Panic
  end.

Definition open_chat (peer : bytes) : Ctl unit :=
  match canonicalize_recipient peer with
  | Ok peer =>
      mod_chat (fun _ => ChatUi_default <| ch_open := true |> <| ch_peer := peer |>);;
      rebuild_chat;;
      fetch_chat_peer_key
  | Err _ => mret tt
  | Panic => pure Panic
  end.

Definition close_chat : Ctl unit :=
  mod_chat (fun _ => ChatUi_default);;
  modify (fun c => c <| c_chat_key_seq ::= wrapping_inc |>).

Definition apply_chat_peer_key (seq : N) (peer : bytes) (report : option DestinationReport) : Ctl unit :=
  current ← gets (fun c => (c_chat_key_seq c, ch_peer (s_chat (c_state c))));
  if negb (seq =? fst current) || negb (bool_decide (snd current = peer)) then mret tt else
  mod_chat (fun c => c <| ch_loading := false |>
    <| ch_peer_active := match report with Some r => status_is_active (dr_status r) | None => false end |>
    <| ch_peer_key_known := match report with Some r => is_some (dr_encrypt_key r) | None => false end |>);;
  mod_session (fun s => s <| se_chat_peer_key := report ≫= dr_encrypt_key |>);;
  rebuild_chat.

Definition set_chat_draft (text : bytes) : Ctl unit :=
  mod_chat (fun c => c <| ch_error := [] |> <| ch_draft := truncate_comment_to text draft_limit |>).
End merge.

(** ** What these handlers leave alone *)
Section rows_quiet.
Context (T : Tick -> Prop) (I : FsState -> Prop) (P : Prop).
Context `{CallsReturn}.
Local Notation quiet := (quiet T I P).
Local Notation cwp := (cwp T I P).

(** What is sent to the history, and the profile, stay. *)
Definition same_rows (y y' : Sys) : Prop :=
  s_activity (c_state (y_ctl y')) = s_activity (c_state (y_ctl y)) /\
  to_profile (c_state (y_ctl y')) = to_profile (c_state (y_ctl y)).

Lemma same_rows_written y y' : same_rows y y' -> written (y_ctl y') = written (y_ctl y).
Proof. intros [Ea Ep]. unfold written. by rewrite Ea, Ep. Qed.

#[export] Instance same_rows_refl : Reflexive same_rows.
Proof. by split. Qed.
#[export] Instance same_rows_trans : Transitive same_rows.
Proof. intros x y z [A1 P1] [A2 P2]. split; congruence. Qed.

Lemma open_sealed_quiet peer sealed y fs : quiet (open_sealed peer sealed) y fs (fun _ y' => same_rows y y').
Proof.
  unfold open_sealed, Service.quiet. case_bool_decide; [by cstep; split_and!|].
  cstep; eapply quiet_use; [by apply wallet_inputs_quiet|done|]. intros r y' [-> Hr] _.
  destruct r as [inputs|e|]; [|by cstep; split_and!|done]. repeat cstep.
  apply attempt_quiet; [by apply open_conversation_returns|].
  pose proof (open_conversation_returns inputs peer (se_chat_peer_key (c_session (y_ctl y))) sealed).
  destruct (open_conversation _ _ _ _); [by cstep; split_and!| |done].
  unfold mod_chat. repeat cstep. split_and!; [done|is_aside|split; vm_compute; reflexivity].
Qed.

Lemma rebuild_chat_quiet y fs : quiet rebuild_chat y fs (fun _ y' => same_rows y y').
Proof.
  unfold rebuild_chat, Service.quiet. repeat cstep. destruct (negb _); [by cstep; split_and!|]. repeat cstep.
  eapply quiet_use; [by apply open_sealed_quiet|done|]. intros opened y1 Hs Ha. unfold mod_chat. cstep.
  split_and!; [done|etrans; [exact Ha|is_aside]|etrans; [exact Hs|split; vm_compute; reflexivity]].
Qed.

Lemma sort_activity_quiet y fs :
  quiet sort_activity y fs (fun _ y' =>
    s_activity (c_state (y_ctl y')) = sort_by_key activity_key (s_activity (c_state (y_ctl y)))).
Proof.
  unfold sort_activity, Service.quiet. repeat cstep. eapply cwp_mono; [by apply rebuild_chat_quiet|].
  intros u y' f (-> & Ha & [Hr _]). split_and!; [done|etrans; [|exact Ha]; is_aside|exact Hr].
Qed.

Lemma arm_awaiting_send_finality_quiet y fs : quiet arm_awaiting_send_finality y fs (fun _ y' => same_rows y y').
Proof.
  unfold arm_awaiting_send_finality, Service.quiet. repeat cstep.
  destruct (se_awaiting_send_lt _); repeat cstep; [|by split_and!].
  split_and!; [done|is_aside|split; vm_compute; reflexivity].
Qed.

Lemma end_external_waits_quiet y fs : quiet end_external_waits y fs (fun _ y' => same_rows y y').
Proof.
  unfold end_external_waits, Service.quiet. repeat cstep.
  split_and!; [done|is_aside|split; vm_compute; reflexivity].
Qed.

Lemma settle_optimistic_row_quiet hash y fs : quiet (settle_optimistic_row hash) y fs (fun _ _ => True).
Proof.
  unfold settle_optimistic_row, Service.quiet. repeat cstep. eapply cwp_mono; [by apply sort_activity_quiet|].
  intros u y' f (-> & Ha & _). split_and!; [done|etrans; [|exact Ha]; is_aside|done].
Qed.

Lemma discard_awaiting_send_quiet y fs : quiet discard_awaiting_send y fs (fun _ _ => True).
Proof.
  unfold discard_awaiting_send, Service.quiet. repeat cstep.
  destruct (se_awaiting_send_lt _); repeat cstep; [|by split_and!]. split_and!; [done|is_aside|done].
Qed.

(** The only panic is the overflow of the counter of pending rows. *)
Lemma begin_pending_send_aside request y fs :
  (u64_max <= c_pending_seq (y_ctl y) -> P) ->
  cwp (begin_pending_send request) (fun _ y' f => f = fs /\
    exists n, aside (y <| y_ctl ::= fun c => c <| c_pending_seq := n |> |>) y') y fs.
Proof.
  intros HP. unfold begin_pending_send, push_pending_send. repeat cstep.
  match goal with |- context [match ?m with Some lt => mret lt | None => _ end] => destruct m end.
  { cstep. split; [done|]. exists (c_pending_seq (y_ctl y)). is_aside. }
  repeat cstep. apply cwp_checked_inc; [intros Hlt|exact HP]. repeat cstep.
  eapply cwp_mono; [apply sort_activity_quiet|]. intros u y' f (-> & Ha & _). repeat cstep.
  split; [done|]. exists (c_pending_seq (y_ctl y) + 1). etrans; [|is_aside]. etrans; [|exact Ha]. is_aside.
Qed.
End rows_quiet.
