(* ===== verification/Policy.v ===== *)
(** * What the journal means for the rest of the controller

    The part of crates/cc-wallet-app/src/controller/journal.rs that reads the journal: which
    records of the open wallet block sending, what is reserved, when the history is asked
    again, and whether the duplicate-risk review may be opened.  With it the fetching of the
    history and the subscription of live.rs, and the cancelling of a review (risk.rs), which
    those handlers call. *)

From Stdlib Require Import NArith ZArith Lia.
From stdpp Require Import gmap.
From S2P Require Import Prelude Ord Bytes Text Decimal Ids Asset Amount Digest Affordability Send Profile Network.
From S2P Require Import Risk Journal Replay Safety Envelope Strict VaultKeys Vault Fs Atomic Wallets Writer.
From S2P Require Import ChainData Update AppState Controller Save Service Rows.

Definition SUBSCRIPTION_BACKOFF_MIN_SECS : N := 1.

(** [iter().filter(p)] and [iter().any(p)] with a [p] that may panic; [any] stops at the
    first that holds. *)
Fixpoint filter_res {A E} (p : A -> res E bool) (l : list A) : res E (list A) :=
  match l with
  | [] => Ok []
  | a :: l => let? b := p a in let? rest := filter_res p l in Ok (if b : bool then a :: rest else rest)
  end.

Fixpoint any_res {A E} (p : A -> res E bool) (l : list A) : res E bool :=
  match l with
  | [] => Ok false
  | a :: l => let? b := p a in if b : bool then Ok true else any_res p l
  end.

(** ** Evidence *)
Definition delivery_label (e : DeliveryEvidence) : bytes :=
  match e with
  | Prepared => bs "Unconfirmed — prepared/recovery pending"
  | AttemptStarted _ _ | MayHaveBroadcast _ _ => bs "Unknown — transmission or outcome unknown"
  | NodeResponseObserved _ _ _ Acknowledged => bs "Unconfirmed — node response observed"
  | NodeResponseObserved _ _ _ _ => bs "Unknown — response observed, delivery unresolved"
  | EndpointReportedSuccess _ => bs "Success — confirmed in RPC transaction history"
  | EndpointReportedFailedOnChain _ => bs "FailedOnChain — confirmed in RPC transaction history"
  | VerifiedTerminal Success proof_ref =>
      if starts_with (bs "rpc-history:") proof_ref then bs "Success — confirmed in RPC transaction history" else
      if starts_with (bs "ever-wallet-replay:") proof_ref then bs "Success — the wallet's own replay guard advanced"
      else bs "Success — independently verified terminal evidence"
  | VerifiedTerminal FailedOnChain proof_ref =>
      if starts_with (bs "rpc-history:") proof_ref then bs "FailedOnChain — confirmed in RPC transaction history"
      else bs "FailedOnChain — independently verified terminal evidence"
  | NotBroadcast _ _ => bs "NotTransmitted — locally proven"
  end.

Definition rpc_history_terminal (tx : EndpointTransactionEvidence) : DeliveryEvidence :=
  VerifiedTerminal (if tx_success tx then Success else FailedOnChain)
    (bs "rpc-history:" ++ to_hex (tx_tx_hash tx)).

Definition message_expired (r : Reading) (expire_at : N) : bool := expire_at <=? now_unix r.

Definition recent_reconciliation_floor (expire_at now : N) : option N :=
  let sent_at := saturating_sub expire_at DEFAULT_TTL_SECS in
  let grace := JOURNAL_RECONCILE_POST_EXPIRY_SECS in
  if (saturating_add u64_max now grace <? sent_at) || (saturating_add u64_max expire_at grace <? now) then None
  else Some (saturating_sub sent_at grace).

Definition same_endpoint_message (left right : EndpointTransactionEvidence) : bool :=
  bool_decide (tx_sender_address left = tx_sender_address right)
  && bool_decide (tx_ext_msg_hash left = tx_ext_msg_hash right).

Definition same_endpoint_transaction (left right : EndpointTransactionEvidence) : bool :=
  same_endpoint_message left right
  && bool_decide (tx_tx_hash left = tx_tx_hash right)
  && (tx_lt left =? tx_lt right)
  && eqb (tx_success left) (tx_success right)
  && (tx_exit_code left =? tx_exit_code right)%Z
  && bool_decide (tx_effects left = tx_effects right).

Definition observation_matches_record (record : SendRecord) (observation : EndpointTransactionEvidence)
  : res Empty_set bool :=
  let? blocking := is_blocking record in
  Ok (blocking
      && bool_decide (rec_ext_msg_hash record = tx_ext_msg_hash observation)
      && bool_decide (t_sender_address (rec_ticket record) = tx_sender_address observation)
      && bool_decide (t_endpoint_identity (rec_ticket record) = tx_source_endpoint observation)).

(** ** What blocks *)
Definition blocks_wallet (wallet_id : bytes) (r : SendRecord) : res Empty_set bool :=
  let? blocking := is_blocking r in
  Ok (blocking && bool_decide (t_sender_wallet_id (rec_ticket r) = wallet_id)).

Definition reset_journal_reconciliation : Ctl unit :=
  modify (fun c => c <| c_journal_reconcile_at := None |>
                     <| c_journal_reconcile_delay := JOURNAL_RECONCILE_MIN_DELAY |>).

(** A recent record is asked for again after the delay; without one there is no schedule. *)
Definition schedule_reconciliation (has_recent : bool) : Ctl unit :=
  unset ← gets (fun c => is_none (c_journal_reconcile_at c));
  if has_recent && unset then
    r ← now; modify (fun c => c <| c_journal_reconcile_at := Some (r_mono r + c_journal_reconcile_delay c) |>)
  else if negb has_recent then reset_journal_reconciliation
  else mret tt.

(** [get_or_insert_with(Instant::now)] of the start of the cooling period. *)
Definition cooling_started : Ctl N :=
  started ← gets (fun c => se_risk_cooling_started_at (c_session c));
  match started with
  | Some started => mret started
  | None =>
      r ← now;
      mod_session (fun s => s <| se_risk_cooling_started_at := Some (r_mono r) |>);;
      mret (r_mono r)
  end.

Definition refresh_journal_policy : Ctl unit :=
  wallet_id ← gets (fun c => st_name (c_store c));
  records ← gets (fun c => env_records (c_journal c));
  blocking ← pure (filter_res (blocks_wallet wallet_id) records);
  first_label ← pure (match blocking with
                      | [] => Ok None
                      | record :: _ => rmap (fun e => Some (delivery_label e)) (latest_evidence record)
                      end);
  r ← now;
  let floor := min_of (omap (fun record => recent_reconciliation_floor (rec_expire_at record) (now_unix r)) blocking) in
  mod_state (fun s => s <| s_journal_blocking := (0 <? length blocking)%nat |>
                        <| s_active_reservations := concat (rec_reservations <$> blocking) |>);;
  match first_label with
  | None =>
      mod_session (fun s => s <| se_risk_cooling_started_at := None |>);;
      mod_state (fun s => s <| s_risk_override_eligible := false |> <| s_journal_status := [] |>);;
      reset_journal_reconciliation;;
      mod_session (fun s => s <| se_journal_reconcile_floor := None |> <| se_journal_reconcile_time_floor := None |>)
  | Some label =>
      mod_session (fun s => s <| se_journal_reconcile_time_floor := floor |>);;
      schedule_reconciliation (is_some floor);;
      started ← cooling_started;
      r ← now;
      mod_state (fun s => s
        <| s_risk_override_eligible := RISK_OVERRIDE_COOLING_SECS * NANOS <=? saturating_sub (r_mono r) started |>
        <| s_journal_status :=
             if (length blocking =? 1)%nat then label
             else label ++ bs " (" ++ print_dec (N.of_nat (length blocking)) ++ bs " unresolved records)" |>)
  end.

Definition chain_head (s : AppState) : option N :=
  max_of (ae_lt <$> List.filter (fun e => is_some (ae_tx_hash e)) (s_activity s)).

Definition snapshot_head (s : AppState) : option N :=
  match s_wallet s with
  | Some wallet => if ws_last_trans_lt wallet =? 0 then None else Some (ws_last_trans_lt wallet)
  | None => None
  end.

Definition capture_live_journal_reconcile_floor : Ctl unit :=
  wallet_id ← gets (fun c => st_name (c_store c));
  records ← gets (fun c => env_records (c_journal c));
  blocked ← pure (any_res (blocks_wallet wallet_id) records);
  if blocked : bool then mret tt else
  floor ← get_state (fun s => max_of (option_list (chain_head s) ++ option_list (snapshot_head s)));
  mod_session (fun s => s <| se_journal_reconcile_floor := floor |>).

Definition has_recent_blocking_record : Ctl bool :=
  wallet_id ← gets (fun c => st_name (c_store c));
  r ← now;
  records ← gets (fun c => env_records (c_journal c));
  pure (any_res (fun record => let? blocks := blocks_wallet wallet_id record in
                   Ok (blocks && is_some (recent_reconciliation_floor (rec_expire_at record) (now_unix r)))) records).

(** [!self.state.journal_blocking || !self.has_recent_blocking_record()], negated. *)
Definition awaits_reconciliation : Ctl bool :=
  blocking ← get_state s_journal_blocking;
  if blocking : bool then has_recent_blocking_record else mret false.

Definition expedite_journal_reconciliation : Ctl unit :=
  recent ← awaits_reconciliation;
  if negb recent then mret tt else
  modify (fun c => c <| c_journal_reconcile_delay := JOURNAL_RECONCILE_MIN_DELAY |>);;
  r ← now;
  modify (fun c => c <| c_journal_reconcile_at := Some (r_mono r + c_journal_reconcile_delay c) |>).

(** ** Fetching the history (live.rs) *)
Definition reset_stranded_destination_check : Ctl unit :=
  mod_state (fun s => match s_recipient_check s with
                      | CheckPending => s <| s_recipient_check := Unchecked |>
                      | _ => s
                      end).

(** [task.abort()] of the subscription, if there is one. *)
Definition abort_subscription : Ctl unit :=
  task ← gets c_subscription_task;
  modify (fun c => c <| c_subscription_task := None |>);;
  match task with Some _ => spawn TaskAbortSubscription | None => mret tt end.

Definition stop_subscription : Ctl unit :=
  abort_subscription;;
  modify (fun c => c <| c_subscription_generation ::= wrapping_inc |>);;
  reset_stranded_destination_check;;
  modify (fun c => c <| c_subscription_key := None |> <| c_subscription_addr := None |>
                     <| c_subscription_retry_at := None |>
                     <| c_subscription_backoff_secs := SUBSCRIPTION_BACKOFF_MIN_SECS |>
                     <| c_load := LoadRuntime_default <| lr_wallet_load_id := lr_wallet_load_id (c_load c) |> |>);;
  mod_state (fun s => s <| s_live_status := Offline |> <| s_subscription_status := bs "not subscribed" |>
                        <| s_auto_refreshing := false |>);;
  reset_journal_reconciliation.

(** Where a fetch starts, where it may stop, and the age below which it does. *)
Definition fetch_range (head_refresh_only : bool) (c : AppController) : option N * option N * option N :=
  let s := c_state c in
  let newest := max_of (ae_lt <$> s_activity s) in
  if head_refresh_only then (None, newest, None) else
  match lr_history_reconciliation_scan (c_load c) with
  | Some scan => (Some (hs_next_before_lt scan), hs_stop_at scan, hs_age_cutoff scan)
  | None =>
      let time_floor := se_journal_reconcile_time_floor (c_session c) in
      if se_history_has_gap (c_session c) || s_history_incomplete s then
        (None, se_history_synced_floor (c_session c), if s_journal_blocking s then time_floor else None)
      else if s_journal_blocking s then
        (None, if c_pending_risk_reconciliation c then None else se_journal_reconcile_floor (c_session c), time_floor)
      else (None, newest, None)
  end.

(** [wrapping_add(1)], skipping zero. *)
Definition next_nonzero (seq : N) : N := if wrapping_inc seq =? 0 then 1 else wrapping_inc seq.

Section fetch.
Context `{StdAddrLib} `{ChainService}.

Definition ensure_subscription (address : bytes) : Ctl unit :=
  mismatch ← get_state s_network_mismatch;
  if mismatch : bool then mret tt else
  endpoint ← current_endpoint;
  made ← attempt (EndpointAddressInputs_new (trim endpoint) address);
  match made with
  | Err error =>
      mod_state (fun s => s <| s_subscription_status := wallet_error_text error |> <| s_live_status := LiveError |>)
  | Panic => pure Panic
  | Ok inputs =>
      modify (fun c => c <| c_subscription_addr := Some (ea_address inputs) |>);;
      let key := ea_endpoint inputs ++ bs "|" ++ ea_address inputs in
      current ← gets (fun c => bool_decide (c_subscription_key c = Some key)
                               && match c_subscription_task c with Some finished => negb finished | None => false end);
      if current : bool then mret tt else
      abort_subscription;;
      modify (fun c => c <| c_subscription_generation ::= wrapping_inc |>);;
      reset_stranded_destination_check;;
      generation ← gets c_subscription_generation;
      modify (fun c => c <| c_subscription_key := Some key |>);;
      mod_state (fun s => s <| s_live_status := Connecting |> <| s_subscription_status := bs "connecting subscription" |>);;
      spawn (TaskSubscribe generation inputs);;
      modify (fun c => c <| c_subscription_task := Some false |>)
  end.

Definition fetch_transactions_inner (generation : N) (head_refresh_only : bool) : Ctl unit :=
  mismatch ← get_state s_network_mismatch;
  if mismatch : bool then mret tt else
  busy ← gets (fun c => lr_fetch_in_flight (c_load c));
  if busy : bool then mod_load (fun l => l <| lr_fetch_again := true |>) else
  inputs ← endpoint_address_inputs;
  match inputs with
  | Err _ => mret tt
  | Panic => pure Panic
  | Ok inputs =>
      range ← gets (fetch_range head_refresh_only);
      let '(initial_before_lt, stop_at, initial_age_cutoff) := range : option N * option N * option N in
      hard_age_cutoff ← gets (fun c => if s_journal_blocking (c_state c)
                                       then se_journal_reconcile_time_floor (c_session c) else None);
      r ← now;
      modify (fun c => c <| c_fetch_seq ::= next_nonzero |>);;
      fetch_id ← gets c_fetch_seq;
      mod_load (fun l => l <| lr_fetch_in_flight := true |> <| lr_fetch_in_flight_id := Some fetch_id |>);;
      spawn (TaskFetch {| fr_inputs := inputs; fr_generation := generation; fr_fetch_id := fetch_id;
                          fr_head_refresh_only := head_refresh_only; fr_initial_before_lt := initial_before_lt;
                          fr_stop_at := stop_at; fr_initial_age_cutoff := initial_age_cutoff;
                          fr_hard_age_cutoff := hard_age_cutoff; fr_local_now := now_unix r |})
  end.

Definition fetch_transactions (generation : N) : Ctl unit :=
  mod_load (fun l => if negb (lr_fetch_in_flight l) && is_some (lr_history_reconciliation_scan l)
                     then l <| lr_fetch_head_after_history_scan := true |> else l);;
  fetch_transactions_inner generation false.

Definition continue_history_scan (generation : N) : Ctl unit := fetch_transactions_inner generation false.
Definition fetch_history_head (generation : N) : Ctl unit := fetch_transactions_inner generation true.

Definition poll_journal_reconciliation (now : N) : Ctl unit :=
  recent ← awaits_reconciliation;
  if negb recent then reset_journal_reconciliation else
  wait ← gets (fun c => lr_fetch_in_flight (c_load c)
                        || match c_journal_reconcile_at c with None => true | Some retry_at => now <? retry_at end);
  if wait : bool then mret tt else
  generation ← gets c_subscription_generation;
  fetch_transactions generation;;
  modify (fun c => c <| c_journal_reconcile_delay ::= fun d => N.min (d * 2) JOURNAL_RECONCILE_MAX_DELAY |>);;
  modify (fun c => c <| c_journal_reconcile_at := Some (now + c_journal_reconcile_delay c) |>).
End fetch.

(** ** Clearing what a send left (journal.rs, risk.rs, mod.rs) *)
Definition clear_pending_max : Ctl unit :=
  modify (fun c => c <| c_pending_max_seq := None |> <| c_queued_max_request := None |>
                     <| c_pending_max_balance := None |>);;
  mod_state (fun s => s <| s_max_refining := false |>).

(** Whether the send of this record was in flight, after which it is not. *)
Definition clear_in_flight_send (record_id : RecordId) : Ctl bool :=
  other ← gets (fun c => negb (bool_decide (se_in_flight_record_id (c_session c) = Some record_id)));
  if other : bool then mret false else
  mod_session (fun s => s <| se_in_flight_record_id := None |>);;
  mod_state (fun s => s <| s_sending := false |> <| s_busy := false |>);;
  mod_session (fun s => s <| se_awaiting_send_lt := None |>);;
  mret true.

Definition clear_broadcast_send_form : Ctl unit :=
  clear_pending_max;;
  modify (fun c => c <| c_max_filled := false |>);;
  mod_session (fun s => s <| se_fee_reestimate_at := None |>);;
  mod_state (fun s => s <| s_send_form ::= fun f => f <| form_destination := [] |> <| form_amount := [] |>
                                                     <| form_comment := [] |> |>);;
  clear_chat_draft_after_send;;
  mod_state (fun s => clear_send_form_error (reset_recipient_status s)).

Definition cancel_risk_override : Ctl unit :=
  background_load ← gets (fun c => c_pending_risk_reconciliation c || is_some (c_pending_risk_context c));
  modify (fun c => c <| c_pending_authorization := None |> <| c_pending_risk_reconciliation := false |>
                     <| c_pending_risk_context := None |> <| c_pending_risk_review := None |>
                     <| c_pending_risk_consumption := None |>);;
  mod_state (fun s => if bool_decide (am_purpose (s_auth s) = ForSend)
                      then s <| s_auth ::= fun a => a <| am_open := false |> <| am_error := [] |> |> else s);;
  mod_state (fun s => s <| s_risk_review_open := false |> <| s_risk_review_details := [] |>
                        <| s_risk_overlap_labels := [] |> <| s_risk_overlap_selected := [] |>
                        <| s_risk_requires_duplicate_confirmation := false |>);;
  mod_state (fun s => if background_load && negb (s_sending s) then s <| s_busy := false |> else s).

Definition invalidate_pending_risk_after_journal_change : Ctl unit :=
  context_load_was_busy ← gets (fun c => c_pending_risk_reconciliation c || is_some (c_pending_risk_context c));
  rest ← gets (fun c => is_some (c_pending_risk_review c) || is_some (c_pending_risk_consumption c));
  if negb (context_load_was_busy || rest) then mret tt else
  key_busy ← get_state (fun s => s_key_busy s && bool_decide (am_purpose (s_auth s) = ForSend));
  (if key_busy : bool then
     modify (fun c => c <| c_key_generation ::= wrapping_inc |>);; mod_state (fun s => s <| s_key_busy := false |>)
   else mret tt);;
  cancel_risk_override;;
  mod_state (fun s => if context_load_was_busy && negb (s_sending s) then s <| s_busy := false |> else s).

(** ** What the policy says *)
Lemma filter_res_total {A E} (p : A -> res E bool) (f : A -> bool) l :
  Forall (fun a => p a = Ok (f a)) l -> filter_res p l = Ok (List.filter f l).
Proof. induction 1 as [|a l Ha _ IH]; [done|]. cbn. rewrite Ha, IH. cbn. by destruct (f a). Qed.

Lemma any_res_total {A E} (p : A -> res E bool) (f : A -> bool) l :
  Forall (fun a => p a = Ok (f a)) l -> any_res p l = Ok (existsb f l).
Proof. induction 1 as [|a l Ha _ IH]; [done|]. cbn. rewrite Ha. cbn. by destruct (f a). Qed.

Definition blocking_for (wallet_id : bytes) (r : SendRecord) : bool :=
  blocks r && bool_decide (t_sender_wallet_id (rec_ticket r) = wallet_id).

(** The unresolved sends of the open wallet. *)
Definition unresolved (c : AppController) : list SendRecord :=
  List.filter (blocking_for (st_name (c_store c))) (env_records (c_journal c)).

(** What the state shows of the journal. *)
Record policy_shown (c : AppController) : Prop := {
  sp_blocking : s_journal_blocking (c_state c) = negb (bool_decide (unresolved c = []));
  sp_reserved : s_active_reservations (c_state c) = concat (rec_reservations <$> unresolved c);
  sp_idle : unresolved c = [] ->
    s_risk_override_eligible (c_state c) = false /\ s_journal_status (c_state c) = [] /\
    se_risk_cooling_started_at (c_session c) = None /\ c_journal_reconcile_at c = None /\
    se_journal_reconcile_floor (c_session c) = None /\ se_journal_reconcile_time_floor (c_session c) = None
}.

(** A reading of the clock made on the way from [y] to [y']. *)
Definition read_between (y y' : Sys) (r : Reading) : Prop :=
  exists k, (y_asked y <= k < y_asked y')%nat /\ r = o_clock (y_outside y) k.

(** The duplicate-risk review is open only a cooling period after it began. *)
Definition cooled (y y' : Sys) : Prop :=
  s_risk_override_eligible (c_state (y_ctl y')) = true ->
  exists started r, se_risk_cooling_started_at (c_session (y_ctl y')) = Some started /\ read_between y y' r /\
    started + RISK_OVERRIDE_COOLING_SECS * NANOS <= r_mono r /\
    (se_risk_cooling_started_at (c_session (y_ctl y)) = Some started \/
     exists r0, read_between y y' r0 /\ started = r_mono r0).

Section policy_facts.
Context (T : Tick -> Prop) (I : FsState -> Prop) (P : Prop).
Context `{Sha256}.
Local Notation quiet := (quiet T I P).

Lemma blocks_wallet_total j wallet_id :
  journal_wf j -> Forall (fun r => blocks_wallet wallet_id r = Ok (blocking_for wallet_id r)) (env_records j).
Proof.
  intros Hj. apply Forall_forall. intros r Hr. destruct (wf_latest j r Hj Hr) as (ev & _ & _ & _ & Hb).
  unfold blocks_wallet. by rewrite Hb.
Qed.

Lemma unresolved_record j wallet_id r :
  r ∈ List.filter (blocking_for wallet_id) (env_records j) -> r ∈ env_records j.
Proof. rewrite !list_elem_of_In, filter_In. tauto. Qed.

Lemma reset_quiet y fs : quiet reset_journal_reconciliation y fs (fun _ y' =>
  y' = y <| y_ctl ::= fun c => c <| c_journal_reconcile_at := None |>
                     <| c_journal_reconcile_delay := JOURNAL_RECONCILE_MIN_DELAY |> |>).
Proof. unfold reset_journal_reconciliation, Service.quiet. cstep. split_and!; [done|is_aside|done]. Qed.

Lemma schedule_quiet recent y fs : quiet (schedule_reconciliation recent) y fs (fun _ y' =>
  exists due delay n, y' = y <| y_ctl ::= fun c => c <| c_journal_reconcile_at := due |>
                       <| c_journal_reconcile_delay := delay |> |> <| y_asked := (n + y_asked y)%nat |>).
Proof.
  unfold schedule_reconciliation, Service.quiet. repeat cstep. destruct (recent && _); repeat cstep.
  - split_and!; [done|is_aside|]. exists (Some (r_mono (o_clock (y_outside y) (y_asked y)) + c_journal_reconcile_delay (y_ctl y))).
    by exists (c_journal_reconcile_delay (y_ctl y)), 1%nat.
  - destruct (negb recent).
    + eapply cwp_mono; [apply reset_quiet|]. intros _ y' f (-> & Ha & ->). split_and!; [done..|].
      by exists None, JOURNAL_RECONCILE_MIN_DELAY, 0%nat.
    + cstep. split_and!; [done..|].
      exists (c_journal_reconcile_at (y_ctl y)), (c_journal_reconcile_delay (y_ctl y)), 0%nat. by destruct y as [[] ? ? ? ? ? ?].
Qed.

Lemma cooling_quiet y fs : quiet cooling_started y fs (fun started y' =>
  exists n, y' = y <| y_ctl ::= fun c => c <| c_session ::= fun s => s <| se_risk_cooling_started_at := Some started |> |> |>
    <| y_asked := (n + y_asked y)%nat |> /\
  (se_risk_cooling_started_at (c_session (y_ctl y)) = Some started \/ (n = 1)%nat /\ started = r_mono (o_clock (y_outside y) (y_asked y)))).
Proof.
  unfold cooling_started, Service.quiet. repeat cstep.
  destruct (se_risk_cooling_started_at _) as [started|] eqn:E; repeat cstep.
  - split_and!; [done..|]. exists 0%nat. split; [|by left].
    destruct y as [[] ? ? ? ? ? ?]. cbn in E. by destruct c_session; cbn in E; subst.
  - split_and!; [done|is_aside|]. exists 1%nat. split; [done|]. right. by split.
Qed.

Lemma refresh_journal_policy_quiet y fs :
  journal_wf (c_journal (y_ctl y)) ->
  quiet refresh_journal_policy y fs (fun _ y' => same_rows y y' /\ y_outside y' = y_outside y /\
    policy_shown (y_ctl y') /\ cooled y y').
Proof.
  intros Hj. unfold refresh_journal_policy, Service.quiet. repeat cstep.
  apply cwp_pure. rewrite (filter_res_total _ _ _ (blocks_wallet_total _ _ Hj)). fold (unresolved (y_ctl y)).
  pose proof (unresolved_record (c_journal (y_ctl y)) (st_name (c_store (y_ctl y)))) as Hin.
  fold (unresolved (y_ctl y)) in Hin.
  cstep. apply cwp_pure. destruct (unresolved (y_ctl y)) as [|r0 l] eqn:Eu.
  - repeat cstep. eapply quiet_use; [apply reset_quiet|is_aside|]. intros [] y' -> Ha. cstep.
    split_and!; [done|is_aside|split; vm_compute; reflexivity|reflexivity|..].
    + split; change (unresolved (y_ctl _)) with (unresolved (y_ctl y)); rewrite Eu; [vm_compute; reflexivity..|].
      intros _. split_and!; vm_compute; reflexivity.
    + intros Hx. vm_compute in Hx. done.
  - destruct (wf_latest _ r0 Hj (Hin r0 ltac:(left))) as (ev & Hl & _). rewrite Hl. cbv beta iota delta [rmap rbind].
    repeat cstep. eapply quiet_use; [apply schedule_quiet|is_aside|].
    intros [] y1 (due & delay & n & ->) Ha1. cstep. eapply quiet_use; [apply cooling_quiet|exact Ha1|].
    intros started y2 (m & -> & Hs) Ha2. repeat cstep.
    split_and!; [done|etrans; [exact Ha2|is_aside]|split; vm_compute; reflexivity|reflexivity|..].
    + split; change (unresolved (y_ctl _)) with (unresolved (y_ctl y)); rewrite Eu; [done..|]. done.
    + intros Hx. change (RISK_OVERRIDE_COOLING_SECS * NANOS <=? saturating_sub (r_mono (o_clock (y_outside y) (m + (n + S (y_asked y))))) started = true) in Hx.
      apply N.leb_le in Hx. exists started, (o_clock (y_outside y) (m + (n + S (y_asked y)))).
      split; [reflexivity|]. split; [exists (m + (n + S (y_asked y)))%nat; split; [cbn; lia|done]|].
      split.
      { assert (0 < RISK_OVERRIDE_COOLING_SECS * NANOS) as Hc by done. revert Hx Hc.
        generalize (RISK_OVERRIDE_COOLING_SECS * NANOS) (r_mono (o_clock (y_outside y) (m + (n + S (y_asked y))))).
        unfold saturating_sub. lia. }
      destruct Hs as [Hs|[-> Hs]]; [left; exact Hs|right]. exists (o_clock (y_outside y) (n + S (y_asked y))).
      split; [|exact Hs]. exists (n + S (y_asked y))%nat. split; [cbn; lia|done].
Qed.

Lemma capture_quiet y fs :
  journal_wf (c_journal (y_ctl y)) -> quiet capture_live_journal_reconcile_floor y fs (fun _ y' => same_rows y y').
Proof.
  intros Hj. unfold capture_live_journal_reconcile_floor, Service.quiet. repeat cstep. apply cwp_pure.
  rewrite (any_res_total _ _ _ (blocks_wallet_total _ _ Hj)). destruct (existsb _ _); repeat cstep; [by split_and!|].
  split_and!; [done|is_aside|split; vm_compute; reflexivity].
Qed.

Lemma awaits_quiet y fs :
  journal_wf (c_journal (y_ctl y)) -> quiet awaits_reconciliation y fs (fun _ y' => same_rows y y').
Proof.
  intros Hj. unfold awaits_reconciliation, has_recent_blocking_record, Service.quiet. repeat cstep.
  destruct (s_journal_blocking _); repeat cstep; [|by split_and!]. apply cwp_pure.
  rewrite (any_res_total _ (fun record => blocking_for (st_name (c_store (y_ctl y))) record
    && is_some (recent_reconciliation_floor (rec_expire_at record) (now_unix (o_clock (y_outside y) (y_asked y)))))).
  - split_and!; [done|is_aside|split; vm_compute; reflexivity].
  - eapply Forall_impl; [by apply blocks_wallet_total|]. intros r Hr. cbv beta in *. by rewrite Hr.
Qed.

Lemma expedite_quiet y fs :
  journal_wf (c_journal (y_ctl y)) -> quiet expedite_journal_reconciliation y fs (fun _ y' => same_rows y y').
Proof.
  intros Hj. unfold expedite_journal_reconciliation, Service.quiet. cstep.
  eapply quiet_use; [by apply awaits_quiet|done|]. intros b y1 Hs Ha. destruct (negb b); repeat cstep; [by split_and!|].
  split_and!; [done|etrans; [exact Ha|is_aside]|etrans; [exact Hs|split; vm_compute; reflexivity]].
Qed.

Lemma clear_in_flight_quiet id y fs : quiet (clear_in_flight_send id) y fs (fun _ y' => same_rows y y').
Proof.
  unfold clear_in_flight_send, Service.quiet. repeat cstep. destruct (negb _); repeat cstep; [by split_and!|].
  split_and!; [done|is_aside|split; vm_compute; reflexivity].
Qed.

(** A step that shows something else, and one that changes what no save is about. *)
Definition view (s : AppState) := (to_profile s, s_activity s, s_persistence_health s).

Definition quietly (y y' : Sys) : Prop := aside y y' /\ same_rows y y'.

Lemma view_step f y0 y fs (R : unit -> Sys -> FsState -> Prop) :
  (forall s, view (f s) = view s) -> quietly y0 y ->
  (forall y', quietly y0 y' -> R tt y' fs) -> cwp T I P (mod_state f) R y fs.
Proof.
  intros Hv [Ha Hs] HR. cstep. apply HR. specialize (Hv (c_state (y_ctl y))). unfold view in Hv.
  pose proof (f_equal fst (f_equal fst Hv)) as Hp. pose proof (f_equal snd (f_equal fst Hv)) as Hr.
  pose proof (f_equal snd Hv) as Hh. cbn [fst snd] in Hp, Hr, Hh. clear Hv. split.
  - etrans; [exact Ha|]. split; [|done|exists []; by rewrite app_nil_r].
    change (core (y_ctl (y <| y_ctl := y_ctl y <| c_state := f (c_state (y_ctl y)) |> |>)))
      with (mkCore (c_journal (y_ctl y)) (c_store (y_ctl y)) (c_vault (y_ctl y)) (c_writer (y_ctl y))
              (c_save_task (y_ctl y)) (c_activity_payload_cache (y_ctl y)) (quarantining (y_ctl y))
              (s_persistence_health (f (c_state (y_ctl y))))). by rewrite Hh.
  - etrans; [exact Hs|]. by split.
Qed.

Lemma aside_step f y0 y fs (R : unit -> Sys -> FsState -> Prop) :
  (forall c, core (f c) = core c /\ c_pending_seq (f c) = c_pending_seq c /\ c_state (f c) = c_state c) -> quietly y0 y ->
  (forall y', quietly y0 y' -> R tt y' fs) -> cwp T I P (modify f) R y fs.
Proof.
  intros Hc [Ha Hs] HR. cstep. apply HR. destruct (Hc (y_ctl y)) as (Hc' & Hr & Hst). split.
  - etrans; [exact Ha|]. split; [exact Hc'|exact Hr|]. exists []. by rewrite app_nil_r.
  - etrans; [exact Hs|]. unfold same_rows. change (y_ctl (y <| y_ctl := f (y_ctl y) |>)) with (f (y_ctl y)). by rewrite Hst.
Qed.

Lemma quietly_use {A} (m : Ctl A) y0 y fs (R : A -> Sys -> FsState -> Prop) :
  quiet m y fs (fun _ y' => same_rows y y') -> quietly y0 y -> (forall a y', quietly y0 y' -> R a y' fs) ->
  cwp T I P m R y fs.
Proof.
  intros Hm [Ha Hs] HR. eapply quiet_use; [exact Hm|exact Ha|]. intros a y' Hs' Ha'. apply HR. split; [done|by etrans].
Qed.

Lemma quietly_done {A} (a : A) y0 y fs :
  quietly y0 y -> cwp T I P (mret a) (fun _ y' f => f = fs /\ aside y0 y' /\ same_rows y0 y') y fs.
Proof. intros [Ha Hs]. by cstep. Qed.
End policy_facts.

#[export] Instance quietly_refl : Reflexive quietly.
Proof. by split. Qed.
#[export] Instance quietly_trans : Transitive quietly.
Proof. intros x y z [A1 S1] [A2 S2]. split; [etrans; [exact A1|exact A2]|etrans; [exact S1|exact S2]]. Qed.

(** The updates of one step, whatever they depend on. *)
Ltac same_view :=
  intros ?; cbv beta zeta;
  repeat match goal with |- context [if ?b then _ else _] => destruct b end;
  vm_compute; reflexivity.

(** One step of a handler that changes nothing a save is about; [H] says so of the steps before. *)
Ltac qstep H :=
  lazymatch goal with
  | |- cwp _ _ _ (_ ≫= _) _ _ _ => cstep
  | |- cwp _ _ _ (gets _) _ _ _ => cstep
  | |- cwp _ _ _ (get_state _) _ _ _ => cstep
  | |- cwp _ _ _ (mret _) _ _ _ => first [apply quietly_done; exact H|cstep]
  | |- cwp _ _ _ (mod_state _) _ _ _ => eapply view_step; [same_view|exact H|]; clear H; intros ? H
  | |- cwp _ _ _ (modify _) _ _ _ => eapply aside_step; [intros ?; split_and!; vm_compute; reflexivity|exact H|]; clear H; intros ? H
  | |- cwp _ _ _ (mod_session _) _ _ _ => eapply aside_step; [intros ?; split_and!; vm_compute; reflexivity|exact H|]; clear H; intros ? H
  | |- cwp _ _ _ (mod_load _) _ _ _ => eapply aside_step; [intros ?; split_and!; vm_compute; reflexivity|exact H|]; clear H; intros ? H
  | |- cwp _ _ _ (if ?b then _ else _) _ _ _ => destruct b
  end; cbv beta.

Section clearing.
Context (T : Tick -> Prop) (I : FsState -> Prop) (P : Prop).
Local Notation quiet := (quiet T I P).

Lemma clear_form_quiet y fs : quiet clear_broadcast_send_form y fs (fun _ y' => same_rows y y').
Proof.
  unfold clear_broadcast_send_form, clear_pending_max, clear_chat_draft_after_send, mod_chat, Service.quiet.
  unfold clear_send_form_error, reset_recipient_status. assert (quietly y y) as Hq by done.
  repeat qstep Hq. by destruct Hq.
Qed.

Lemma cancel_risk_quiet y fs : quiet cancel_risk_override y fs (fun _ y' => same_rows y y').
Proof.
  unfold cancel_risk_override, Service.quiet. assert (quietly y y) as Hq by done. repeat qstep Hq. by destruct Hq.
Qed.

Lemma invalidate_quiet y fs : quiet invalidate_pending_risk_after_journal_change y fs (fun _ y' => same_rows y y').
Proof.
  unfold invalidate_pending_risk_after_journal_change, Service.quiet. assert (quietly y y) as Hq by done.
  repeat qstep Hq.
  all: eapply quietly_use; [apply cancel_risk_quiet|exact Hq|]; clear Hq; intros [] ? Hq; repeat qstep Hq; by destruct Hq.
Qed.
End clearing.

Section fetch_quiet.
Context (T : Tick -> Prop) (I : FsState -> Prop) (P : Prop).
Context `{AddressesReturn} `{CallsReturn}.
Local Notation quiet := (quiet T I P).

Lemma spawn_step t y0 y fs (R : unit -> Sys -> FsState -> Prop) :
  is_broadcast t = false -> quietly y0 y -> (forall y', quietly y0 y' -> R tt y' fs) -> cwp T I P (spawn t) R y fs.
Proof.
  intros Ht [Ha Hs] HR. cstep. apply HR. split; [|exact Hs]. etrans; [exact Ha|]. split; [done..|].
  exists [t]. split; [done|]. by apply Forall_singleton.
Qed.

Lemma fetch_inner_quiet generation head y fs :
  quiet (fetch_transactions_inner generation head) y fs (fun _ y' => same_rows y y').
Proof.
  unfold fetch_transactions_inner, Service.quiet. assert (quietly y y) as Hq by done. repeat qstep Hq; [by destruct Hq|].
  eapply quiet_use; [by apply endpoint_address_inputs_quiet|done|]. intros r y' [-> Hr] _.
  destruct r as [inputs|e|]; [|by repeat qstep Hq|done]. repeat qstep Hq.
  destruct (fetch_range head (y_ctl y)) as [[start stop] age]. cbv beta iota. repeat qstep Hq.
  cstep. assert (quietly y (y <| y_asked := S (y_asked y) |>)) as Hq' by (split; [is_aside|by split]).
  repeat qstep Hq'. eapply spawn_step; [done|exact Hq'|]. intros ? Hq1. by destruct Hq1.
Qed.

Lemma fetch_quiet generation y fs : quiet (fetch_transactions generation) y fs (fun _ y' => same_rows y y').
Proof.
  unfold fetch_transactions, Service.quiet. assert (quietly y y) as Hq by done. repeat qstep Hq.
  eapply quietly_use; [by apply fetch_inner_quiet|exact Hq|]. intros [] ? Hq'. by destruct Hq'.
Qed.
End fetch_quiet.

(** ** What is shown *)
Definition with_journal (j : JournalEnvelope) (y : Sys) : Sys := y <| y_ctl ::= fun c => c <| c_journal := j |> |>.

(** The wallet with one send under way. *)
Definition demo_record_sent : SendRecord :=
  demo_record id_a [mkDeliveryEvent 1 Prepared; mkDeliveryEvent 2 (AttemptStarted 1 (bs "route"))].
Definition demo_sending : Sys := with_journal (mkEnvelope [demo_record_sent] []) demo_sys.

Lemma demo_ticket_wf id : wf_send_ticket (demo_ticket id).
Proof.
  split; [by vm_compute|]. split; [by vm_compute|]. split; exists 0%Z, (pad32 [Byte.x11]); (split; [by left|done]).
Qed.

Lemma demo_sending_wf : @journal_wf toy_sha256 (c_journal (y_ctl demo_sending)).
Proof.
  split; [by vm_compute|]. constructor; [|constructor]. split; [apply demo_ticket_wf|].
  split; repeat constructor; by vm_compute.
Qed.

(** What the state shows is what the journal says: after a refresh sending is blocked
    exactly while a record of the open wallet is unresolved, the reservations shown are those
    of the unresolved records, and the duplicate-risk review is only opened once a whole
    cooling period has passed since a reading of the clock; the journal, the saved data and
    the files are as before. *)
Lemma policy_shows_the_journal `{Sha256} (y : Sys) (fs : FsState) (Hj : journal_wf (c_journal (y_ctl y))) :
  cwp (fun _ => True) (fun _ => True) False refresh_journal_policy (fun _ y' f =>
    f = fs /\ policy_shown (y_ctl y') /\ cooled y y' /\
    core (y_ctl y') = core (y_ctl y) /\ written (y_ctl y') = written (y_ctl y)) y fs.
Proof.
  eapply cwp_mono; [by eapply refresh_journal_policy_quiet|]. intros [] y' f (-> & Ha & Hs & _ & Hp & Hc).
  split; [done|]. split; [done|]. split; [done|]. split; [apply Ha|by apply same_rows_written].
Qed.

Lemma policy_shows_the_journal_witness :
  @journal_wf toy_sha256 (c_journal (y_ctl demo_sending)) /\
  cwp (fun _ => True) (fun _ => True) False refresh_journal_policy (fun _ y' f =>
    f = empty_disk /\ policy_shown (y_ctl y') /\ cooled demo_sending y' /\
    core (y_ctl y') = core (y_ctl demo_sending) /\ written (y_ctl y') = written (y_ctl demo_sending)) demo_sending empty_disk.
Proof.
  split; [exact demo_sending_wf|].
  exact (@policy_shows_the_journal toy_sha256 demo_sending empty_disk demo_sending_wf).
Defined.
