(* ===== verification/Delivery.v ===== *)
(** * Delivering a signed transfer (crates/cc-wallet-app/src/controller/journal.rs)

    A prepared send is written to the journal before it is broadcast, every attempt before
    its socket call, and every outcome after it; a restart turns what was under way into
    what may have happened; and what the chain reports closes the record. *)

From Stdlib Require Import NArith ZArith Lia.
From stdpp Require Import gmap.
From S2P Require Import Prelude Ord Bytes Text Decimal Ids Asset Amount Digest Affordability Send Profile Network.
From S2P Require Import Risk Journal Replay Safety Envelope Persist Strict VaultKeys Vault Fs Atomic Wallets Writer.
From S2P Require Import ChainData Update AppState Controller Save Service Rows Policy.

Definition ENDPOINT_BATCH_CONFLICT_ERROR : bytes :=
  bs "The endpoint returned conflicting details for the same external message; ordinary sending remains blocked".
Definition ENDPOINT_STORED_CONFLICT_ERROR : bytes :=
  bs "The endpoint returned conflicting details for a previously matched transaction; ordinary sending remains blocked".

(** An operation on the controller's journal. *)
Definition journal_op (f : JournalEnvelope -> JournalEnvelope * res JournalError unit) : Ctl (res JournalError unit) :=
  outcome ← gets (fun c => f (c_journal c));
  modify (fun c => c <| c_journal := fst outcome |>);;
  attempt (snd outcome).

Definition error_text (e : JournalError) : bytes := bs (JournalError_display e).

(** [u32::try_from(candidate_index + 1)]. *)
Definition attempt_number (candidate_index : N) : option N :=
  if candidate_index + 1 <=? u32_max then Some (candidate_index + 1) else None.

(** ** Restart *)
Definition RESTARTED : bytes :=
  bs "application restarted before any signed-body attempt; runtime-only BOC was discarded".

Definition recovery_evidence (record : SendRecord) (latest : DeliveryEvidence) : option (RecordId * DeliveryEvidence) :=
  match latest with
  | Prepared => Some (record_id record, NotBroadcast (p_route_id (rec_prepare_provenance record)) RESTARTED)
  | AttemptStarted attempt_no route_id => Some (record_id record, MayHaveBroadcast attempt_no route_id)
  | EndpointReportedSuccess tx | EndpointReportedFailedOnChain tx => Some (record_id record, rpc_history_terminal tx)
  | _ => None
  end.

Definition recovery_of (record : SendRecord) : res Empty_set (option (RecordId * DeliveryEvidence)) :=
  rmap (recovery_evidence record) (latest_evidence record).

Fixpoint recoveries (records : list SendRecord) : res Empty_set (list (RecordId * DeliveryEvidence)) :=
  match records with
  | [] => Ok []
  | record :: records =>
      let? recovery := recovery_of record in
      let? rest := recoveries records in
      Ok (match recovery with Some r => r :: rest | None => rest end)
  end.

Section delivery.
Context `{Sha256}.

Fixpoint append_deliveries (journal : JournalEnvelope) (l : list (RecordId * DeliveryEvidence))
  : res JournalError JournalEnvelope :=
  match l with
  | [] => Ok journal
  | (record_id, evidence) :: l =>
      let '(journal, out) := append_delivery journal record_id evidence in
      let? _ := out in
      append_deliveries journal l
  end.

(** What one observation adds to the candidate journal: nothing, or the record it closes;
    a conflict with what is stored; or an error, with what failed. *)
Inductive Observed :=
| NoRecord
| Closed (journal : JournalEnvelope) (record_id : RecordId)
| StoredConflict
| NotAppended (what : bytes) (error : JournalError).

Definition append_then (journal : JournalEnvelope) (record_id : RecordId) (evidence : DeliveryEvidence) (what : bytes)
    (k : JournalEnvelope -> res Empty_set Observed) : res Empty_set Observed :=
  let '(journal, out) := append_delivery journal record_id evidence in
  match out with
  | Ok _ => k journal
  | Err error => Ok (NotAppended what error)
  | Panic => Panic
  end.

Fixpoint find_matching (observation : EndpointTransactionEvidence) (records : list SendRecord)
  : res Empty_set (option RecordId) :=
  match records with
  | [] => Ok None
  | record :: records =>
      let? matches := observation_matches_record record observation in
      if matches : bool then Ok (Some (record_id record)) else find_matching observation records
  end.

Definition COULD_NOT_FINALIZE : bytes := bs "could not finalize the RPC-confirmed transaction: ".
Definition COULD_NOT_APPEND_TX : bytes := bs "could not append endpoint-qualified transaction evidence: ".

Definition observe (journal : JournalEnvelope) (observation : EndpointTransactionEvidence) : res Empty_set Observed :=
  let? found := find_matching observation (env_records journal) in
  match found with
  | None => Ok NoRecord
  | Some record_id =>
      let? record := expect (env_record journal record_id) in
      let? latest := latest_evidence record in
      let close journal := append_then journal record_id (rpc_history_terminal observation) COULD_NOT_FINALIZE
                             (fun journal => Ok (Closed journal record_id)) in
      match latest with
      | EndpointReportedSuccess tx | EndpointReportedFailedOnChain tx =>
          if negb (same_endpoint_transaction tx observation) then Ok StoredConflict else close journal
      | _ =>
          append_then journal record_id
            (if tx_success observation then EndpointReportedSuccess observation
             else EndpointReportedFailedOnChain observation) COULD_NOT_APPEND_TX close
      end
  end.

Definition observation_status (observation : EndpointTransactionEvidence) : bytes :=
  if tx_success observation then bs "Success — confirmed in RPC transaction history"
  else bs "Failed on-chain — confirmed in RPC transaction history".

(** All of them, in order: the journal, the records closed and the last status; or what
    ended it. *)
Fixpoint observe_all (journal : JournalEnvelope) (closed : list RecordId) (status : option bytes)
    (l : list EndpointTransactionEvidence)
  : res Empty_set (JournalEnvelope * list RecordId * option bytes + Observed) :=
  match l with
  | [] => Ok (inl (journal, closed, status))
  | observation :: l =>
      let? observed := observe journal observation in
      match observed with
      | NoRecord => observe_all journal closed status l
      | Closed journal record_id =>
          observe_all journal (closed ++ [record_id]) (Some (observation_status observation)) l
      | observed => Ok (inr observed)
      end
  end.

(** Whether two observations of one message disagree. *)
Fixpoint batch_conflict (l : list EndpointTransactionEvidence) : bool :=
  match l with
  | [] => false
  | first :: l =>
      existsb (fun later => same_endpoint_message first later && negb (same_endpoint_transaction first later)) l
      || batch_conflict l
  end.
End delivery.

Section handlers.
Context `{Sha256} `{VaultPrims} `{Tempfile} `{WalletCodec} `{StdAddrLib} `{ChainService}.

Definition recover_restored_delivery_state : Ctl bool :=
  records ← gets (fun c => env_records (c_journal c));
  recoveries ← pure (recoveries records);
  if bool_decide (length recoveries = 0%nat) then refresh_journal_policy;; mret true else
  candidate ← gets (fun c => append_deliveries (c_journal c) recoveries);
  candidate ← attempt candidate;
  match candidate with
  | Ok candidate =>
      modify (fun c => c <| c_journal := candidate |>);;
      saved ← persist_journal_barrier;
      refresh_journal_policy;;
      mret saved
  | Err error =>
      persistence_failed (bs "could not normalize restored send state: " ++ error_text error);;
      refresh_journal_policy;;
      mret false
  | Panic => pure Panic
  end.

(** ** One attempt after the other *)

(** The optimistic rows of a record that reached no socket go. *)
Definition drop_optimistic_rows (hash : Digest32) : Ctl unit :=
  removed ← get_state (fun s => ae_lt <$> List.filter (optimistic_of hash) (s_activity s));
  mod_state (fun s => s <| s_activity ::= List.filter (fun e => negb (optimistic_of hash e)) |>);;
  mod_session (fun s => s <| se_pending_sends ::= List.filter (fun p => negb (existsb (N.eqb (fst p)) removed)) |>).

Definition finish_locally_not_broadcast (record_id : RecordId) (route_id detail : bytes) : Ctl unit :=
  appended ← journal_op (fun j => append_delivery j record_id (NotBroadcast route_id detail));
  match appended with
  | Err error => persistence_failed (bs "could not append NotBroadcast evidence: " ++ error_text error)
  | Panic => pure Panic
  | Ok _ =>
      saved ← persist_journal_barrier;
      if negb saved then refresh_journal_policy else
      record ← gets (fun c => env_record (c_journal c) record_id);
      match record with Some record => drop_optimistic_rows (rec_ext_msg_hash record) | None => mret tt end;;
      clear_in_flight_send record_id;;
      mod_state (fun s => s <| s_status := bs "NotTransmitted — locally proven" |>
        <| s_error := Some (bs "The signed transfer was locally proven not to have reached any socket; it is safe to prepare a new ticket.") |>);;
      refresh_journal_policy
  end.

Definition finish_blocking_delivery (record_id : RecordId) (evidence : DeliveryEvidence) (status : bytes) : Ctl unit :=
  appended ← journal_op (fun j => append_delivery j record_id evidence);
  match appended with
  | Err error => persistence_failed (bs "could not append delivery evidence: " ++ error_text error)
  | Panic => pure Panic
  | Ok _ =>
      saved ← persist_journal_barrier;
      if negb saved then refresh_journal_policy else
      cleared ← clear_in_flight_send record_id;
      (if cleared : bool then clear_broadcast_send_form else mret tt);;
      mod_state (fun s => s <| s_status := status |> <| s_error := None |>);;
      refresh_journal_policy;;
      expedite_journal_reconciliation;;
      generation ← gets c_subscription_generation;
      fetch_transactions generation
  end.

Definition start_prepared_candidate (generation : N) (prepared : PreparedChainSend) (candidate_index : N) : Ctl unit :=
  current ← gets c_session_generation;
  if negb (generation =? current) then mret tt else
  if ps_candidate_count prepared <=? candidate_index then
    finish_locally_not_broadcast (ps_record_id prepared) (ps_route_id prepared)
      (bs "no pre-resolved send route candidate accepted a socket attempt")
  else
  r ← now;
  if message_expired r (ps_expire_at prepared) then
    finish_locally_not_broadcast (ps_record_id prepared) (ps_route_id prepared)
      (bs "signed transfer expired before the next socket call; nothing further was broadcast")
  else
  match attempt_number candidate_index with
  | None => persistence_failed (bs "send route has more candidates than the Journal attempt counter can represent")
  | Some attempt_no =>
      appended ← journal_op (fun j =>
        append_delivery j (ps_record_id prepared) (AttemptStarted attempt_no (ps_route_id prepared)));
      match appended with
      | Err error => persistence_failed (bs "could not append AttemptStarted evidence: " ++ error_text error)
      | Panic => pure Panic
      | Ok _ =>
          saved ← persist_journal_barrier;
          if negb saved then refresh_journal_policy else
          refresh_journal_policy;;
          arm_awaiting_send_finality;;
          mod_session (fun s => s <| se_awaiting_replay := Some (ps_record_id prepared, ps_created_at_ms prepared) |>);;
          spawn (TaskBroadcast generation prepared candidate_index)
      end
  end.

Definition reject_unbound_prepared (error : bytes) : Ctl unit :=
  modify (fun c => c <| c_pending_risk_consumption := None |>);;
  discard_awaiting_send;;
  mod_state (fun s => set_error error (s <| s_sending := false |> <| s_busy := false |>));;
  refresh_journal_policy.

(** The first row of this time is bound to the message. *)
Fixpoint bind_row (lt : N) (hash : Digest32) (l : list ActivityEvent) : list ActivityEvent :=
  match l with
  | [] => []
  | e :: l => if ae_lt e =? lt then e <| ae_ext_msg_hash := Some hash |> :: l else e :: bind_row lt hash l
  end.

Definition end_failed_send : Ctl unit :=
  discard_awaiting_send;;
  mod_state (fun s => s <| s_sending := false |> <| s_busy := false |>).

Definition apply_bound_prepared (generation : N) (prepared : PreparedChainSend)
    (risk_consumption : option PendingRiskConsumption) : Ctl unit :=
  capture_live_journal_reconcile_floor;;
  appended ← journal_op (fun j =>
    match risk_consumption with
    | Some pending => append_consumption_and_prepared j (rp_consumption pending) (ps_prepared_record prepared)
    | None => append_prepared j (ps_prepared_record prepared)
    end);
  match appended with
  | Err error =>
      end_failed_send;;
      persistence_failed (bs "could not append Prepared evidence: " ++ error_text error)
  | Panic => pure Panic
  | Ok _ =>
      (if is_some risk_consumption then modify (fun c => c <| c_pending_risk_consumption := None |>) else mret tt);;
      saved ← persist_journal_barrier;
      if negb saved then end_failed_send;; refresh_journal_policy else
      mod_session (fun s => s <| se_in_flight_record_id := Some (ps_record_id prepared) |>);;
      r ← now;
      mod_session (fun s => s <| se_risk_cooling_started_at := Some (r_mono r) |>);;
      refresh_journal_policy;;
      lt ← begin_pending_send (ps_request prepared);
      mod_state (fun s => s <| s_activity ::= bind_row lt (ps_external_hash prepared) |>
        <| s_status := bs "Transfer prepared durably; recording the first delivery attempt…" |>);;
      start_prepared_candidate generation prepared 0
  end.

(** A pending consumption counts only for its own ticket. *)
Definition matching_consumption (prepared : PreparedChainSend) (ticket_digest : Digest32)
    (pending : option PendingRiskConsumption) : option PendingRiskConsumption :=
  match pending with
  | Some p => if bool_decide (c_new_record_id (rp_consumption p) = ps_record_id prepared)
                 && bool_decide (c_new_ticket_digest (rp_consumption p) = ticket_digest)
              then Some p else None
  | None => None
  end.

Definition apply_prepared_send (generation : N) (expected_ticket_digest : Digest32) (risk_grant_required : bool)
    (prepared : PreparedChainSend) : Ctl unit :=
  current ← gets c_session_generation;
  if negb (generation =? current) then mret tt else
  digest ← attempt (SendTicket_digest (pr_ticket (ps_prepared_record prepared)));
  match digest with
  | Panic => pure Panic
  | Err error =>
      reject_unbound_prepared (bs "The chain service returned an unbindable Prepared ticket: " ++ bs (DigestError_display error))
  | Ok ticket_digest =>
      if negb (bool_decide (ticket_digest = expected_ticket_digest)) then
        reject_unbound_prepared (bs "The chain service returned a Prepared value for a different immutable ticket")
      else
      risk_consumption ← gets (fun c => matching_consumption prepared ticket_digest (c_pending_risk_consumption c));
      if risk_grant_required && is_none risk_consumption then
        reject_unbound_prepared (bs "The duplicate-risk Prepared value no longer matches its durable one-use grant")
      else apply_bound_prepared generation prepared risk_consumption
  end.

(** Whether this very attempt is what the journal says last of the record. *)
Definition is_current_attempt (journal : JournalEnvelope) (prepared : PreparedChainSend) (attempt_no : N)
  : res Empty_set bool :=
  match env_record journal (ps_record_id prepared) with
  | None => Ok false
  | Some record =>
      let? latest := latest_evidence record in
      Ok (match latest with
          | AttemptStarted current route_id => (current =? attempt_no) && bool_decide (route_id = ps_route_id prepared)
          | _ => false
          end)
  end.

Definition apply_candidate_outcome (generation : N) (prepared : PreparedChainSend) (candidate_index : N)
    (outcome : CandidateBroadcastOutcome) : Ctl unit :=
  current ← gets c_session_generation;
  if negb (generation =? current) then mret tt else
  match attempt_number candidate_index with
  | None => persistence_failed (bs "candidate result does not fit the Journal attempt counter")
  | Some attempt_no =>
      journal ← gets c_journal;
      current ← pure (is_current_attempt journal prepared attempt_no);
      if negb current then clear_in_flight_send (ps_record_id prepared);; refresh_journal_policy else
      match outcome with
      | NotTransmitted detail retry_next_candidate =>
          if retry_next_candidate && (candidate_index + 1 <? ps_candidate_count prepared) then
            mod_state (fun s => s <| s_status := bs "A route failed before connection; recording the next attempt…" |>);;
            start_prepared_candidate generation prepared (candidate_index + 1)
          else finish_locally_not_broadcast (ps_record_id prepared) (ps_route_id prepared) detail
      | OutcomeMayHaveBroadcast detail =>
          finish_blocking_delivery (ps_record_id prepared) (MayHaveBroadcast attempt_no (ps_route_id prepared))
            (bs "Unknown — transmission or outcome unknown. " ++ detail)
      | OutcomeNodeResponseObserved request_id response detail =>
          let status := match response with
                        | Acknowledged => bs "Unconfirmed — node response observed. " ++ detail
                        | _ => bs "Unknown — response observed, delivery unresolved. " ++ detail
                        end in
          finish_blocking_delivery (ps_record_id prepared)
            (NodeResponseObserved attempt_no (ps_route_id prepared) request_id response) status
      end
  end.

(** ** What the chain reports *)
Definition is_conflict_error (error : option bytes) : bool :=
  bool_decide (error = Some ENDPOINT_BATCH_CONFLICT_ERROR) || bool_decide (error = Some ENDPOINT_STORED_CONFLICT_ERROR).

(** [iter().any(clear_in_flight_send)], which stops at the first. *)
Fixpoint clear_any_in_flight (l : list RecordId) : Ctl bool :=
  match l with
  | [] => mret false
  | record_id :: l =>
      cleared ← clear_in_flight_send record_id;
      if cleared : bool then mret true else clear_any_in_flight l
  end.

(** What remains once the candidate journal is there. *)
Definition accept_observations (journal : JournalEnvelope) (closed : list RecordId) (status : option bytes) : Ctl bool :=
  if bool_decide (length closed = 0%nat) then refresh_journal_policy;; mret false else
  modify (fun c => c <| c_journal := journal |>);;
  saved ← persist_journal_barrier;
  if negb saved then invalidate_pending_risk_after_journal_change;; refresh_journal_policy;; mret false else
  invalidate_pending_risk_after_journal_change;;
  mod_state (fun s => if is_conflict_error (s_error s) then clear_error s else s);;
  resolved_in_flight ← clear_any_in_flight closed;
  (if resolved_in_flight : bool then clear_broadcast_send_form else mret tt);;
  mod_state (fun s => match status with
                      | Some status => if resolved_in_flight || (negb (s_sending s) && negb (s_busy s))
                                       then s <| s_status := status |> else s
                      | None => s
                      end);;
  refresh_journal_policy;;
  mret true.

Definition reconcile_endpoint_observations (generation : N) (observations : list EndpointTransactionEvidence) : Ctl bool :=
  current ← gets c_subscription_generation;
  if negb (generation =? current) then mret false else
  if batch_conflict observations then
    mod_state (set_error ENDPOINT_BATCH_CONFLICT_ERROR);; refresh_journal_policy;; mret false
  else
  journal ← gets c_journal;
  seen ← pure (observe_all journal [] None observations);
  match seen with
  | inl (journal, closed, status) => accept_observations journal closed status
  | inr (NotAppended what error) =>
      persistence_failed (what ++ error_text error);; refresh_journal_policy;; mret false
  | inr _ => mod_state (set_error ENDPOINT_STORED_CONFLICT_ERROR);; refresh_journal_policy;; mret false
  end.

Definition confirm_in_flight_from_announcement : Ctl unit :=
  awaiting ← gets (fun c => se_awaiting_replay (c_session c));
  match awaiting with
  | None => mret tt
  | Some (record_id, _) =>
      record ← gets (fun c => env_record (c_journal c) record_id);
      match record with
      | None => mret tt
      | Some record =>
          blocking ← pure (is_blocking record);
          if negb blocking then mret tt else settle_optimistic_row (rec_ext_msg_hash record)
      end
  end.

Definition end_waits_on_announcement : Ctl unit := confirm_in_flight_from_announcement;; end_external_waits.

Definition replay_proof (record : SendRecord) (sent_ms account_lt : N) : bytes :=
  bs "ever-wallet-replay:" ++ print_dec sent_ms ++ bs "@" ++ t_endpoint_identity (rec_ticket record)
  ++ bs "#" ++ print_dec account_lt.

Definition drop_awaiting_replay : Ctl unit := mod_session (fun s => s <| se_awaiting_replay := None |>).

(** The wallet's own replay guard has advanced to the message: it was executed. *)
Definition confirm_replay (record_id : RecordId) (record : SendRecord) (sent_ms account_lt : N) : Ctl unit :=
  appended ← journal_op (fun j =>
    append_delivery j record_id (VerifiedTerminal Success (replay_proof record sent_ms account_lt)));
  match appended with
  | Err error => persistence_failed (bs "could not record the wallet's own confirmation: " ++ error_text error)
  | Panic => pure Panic
  | Ok _ =>
      drop_awaiting_replay;;
      persisted ← persist_journal_barrier;
      invalidate_pending_risk_after_journal_change;;
      if negb persisted then refresh_journal_policy else
      cleared ← clear_in_flight_send record_id;
      (if cleared : bool then clear_broadcast_send_form else mret tt);;
      settle_optimistic_row (rec_ext_msg_hash record);;
      mod_state (fun s => s <| s_status := bs "Success — the wallet's own replay guard advanced" |>
                            <| s_error := None |>);;
      refresh_journal_policy
  end.

Definition reconcile_from_replay_guard : Ctl unit :=
  awaiting ← gets (fun c => se_awaiting_replay (c_session c));
  match awaiting with
  | None => mret tt
  | Some (record_id, sent_ms) =>
      record ← gets (fun c => env_record (c_journal c) record_id);
      match record with
      | None => drop_awaiting_replay
      | Some record =>
          blocking ← pure (is_blocking record);
          if negb blocking then drop_awaiting_replay else
          wallet ← get_state s_wallet;
          match wallet with
          | None => mret tt
          | Some snapshot =>
              if (sent_ms =? 0) || (ws_last_message_ms snapshot <? sent_ms) then mret tt
              else confirm_replay record_id record sent_ms (ws_last_trans_lt snapshot)
          end
      end
  end.
End handlers.
