(* ===== verification/DeliveryFacts.v ===== *)
(** * What delivery guarantees

    For the handlers of Delivery.v, whatever fails on the disk and whatever the chain
    service answers: nothing is broadcast that the wallet's main file does not already hold as
    an attempt, no attempt of a record is made twice, a restart leaves nothing under way, and
    only what the chain reported of a record, or the wallet's own replay guard, closes it. *)

From Stdlib Require Import NArith ZArith Lia.
From stdpp Require Import gmap.
From S2P Require Import Prelude Ord Bytes Text Decimal Ids Asset Amount Digest Affordability Send Profile Network.
From S2P Require Import Risk Journal Replay Safety Envelope Persist Strict Authorization VaultKeys Vault Fs Atomic Wallets Writer.
From S2P Require Import Unlock ChainData Update AppState Controller Save Service Rows Policy Delivery.

(** ** The discipline of delivery *)
Section discipline.
Context `{Sha256} `{VaultPrims} `{TempfileLaws} `{WalletCodec}.

(** Saving is in order and the journal is one the operations work on. *)
Definition fine (c : AppController) (fs : FsState) : Prop := saves_ok c fs /\ journal_wf (c_journal c).

(** Nothing was broadcast and the journal only grew. *)
Record going (y y' : Sys) : Prop := {
  go_tasks : exists l, y_tasks y' = y_tasks y ++ l /\ Forall (fun t => is_broadcast t = false) l;
  go_journal : extends (c_journal (y_ctl y)) (c_journal (y_ctl y'))
}.

#[export] Instance going_refl : Reflexive going.
Proof. split; [exists []; by rewrite app_nil_r|apply extends_refl]. Qed.
#[export] Instance going_trans : Transitive going.
Proof.
  intros x y z [(l1 & T1 & F1) J1] [(l2 & T2 & F2) J2]. split; [|by eapply extends_trans]. exists (l1 ++ l2).
  rewrite T2, T1, app_assoc. split; [done|]. by apply Forall_app.
Qed.

Lemma aside_going y y' : aside y y' -> going y y'.
Proof. intros Ha. pose proof (aside_journal _ _ Ha) as Hj. destruct Ha as [_ _ Ht]. split; [done|]. rewrite Hj. apply extends_refl. Qed.

Lemma saved_journal y y' : same_but_saved y y' -> c_journal (y_ctl y') = c_journal (y_ctl y).
Proof. intros Hs. exact (f_equal c_journal (sb_ctl _ _ Hs)). Qed.

Lemma saved_going y y' : same_but_saved y y' -> going y y'.
Proof.
  intros Hs. split; [|rewrite (saved_journal _ _ Hs); apply extends_refl]. exists []. rewrite app_nil_r. split; [|done].
  by destruct Hs.
Qed.

(** What a handler that started at [y0] has kept so far. *)
Definition good (y0 y : Sys) (fs : FsState) : Prop := fine (y_ctl y) fs /\ going y0 y.

Lemma good_here y fs : fine (y_ctl y) fs -> good y y fs.
Proof. by split. Qed.

Lemma good_quiet P {A} (m : Ctl A) y0 y fs R (Q : A -> Sys -> FsState -> Prop) :
  quiet calm (fun _ => True) P m y fs R -> good y0 y fs ->
  (forall a y', good y0 y' fs -> aside y y' -> R a y' -> Q a y' fs) ->
  cwp calm (fun _ => True) P m Q y fs.
Proof.
  intros Hm [[Hok Hj] Hg] HQ. eapply cwp_mono; [exact Hm|]. intros a y' f (-> & Ha & HR). apply HQ; [|done..].
  split; [|etrans; [exact Hg|by apply aside_going]]. split; [by eapply aside_saves_ok|]. by rewrite (aside_journal _ _ Ha).
Qed.

Lemma good_barrier P y0 y fs (Q : bool -> Sys -> FsState -> Prop) :
  good y0 y fs ->
  (forall b y' f, good y0 y' f -> same_but_saved y y' ->
     (b = true -> on_disk (y_ctl y') f /\ s_persistence_health (c_state (y_ctl y')) = Ready) -> Q b y' f) ->
  cwp calm (fun _ => True) P persist_journal_barrier Q y fs.
Proof.
  intros [[Hok Hj] Hg] HQ. eapply cwp_panic_mono; [|eapply cwp_mono; [by apply persist_journal_barrier_wp|]]; [done|].
  intros b y' f (Hok' & Hs & _ & Hb). apply HQ; [|done..]. split; [|etrans; [exact Hg|by apply saved_going]].
  split; [done|]. by rewrite (saved_journal _ _ Hs).
Qed.

Lemma good_failed P detail y0 y fs (Q : unit -> Sys -> FsState -> Prop) :
  good y0 y fs ->
  (forall y', good y0 y' fs -> failed (y_ctl y') -> c_journal (y_ctl y') = c_journal (y_ctl y) -> Q tt y' fs) ->
  cwp calm (fun _ => True) P (persistence_failed detail) Q y fs.
Proof.
  intros [[Hok Hj] Hg] HQ. eapply cwp_panic_mono; [|eapply cwp_mono; [by apply persistence_failed_wp|]]; [done|].
  intros [] y' f (Hok' & Hs & Hf & _ & _ & ->). apply HQ; [|done|by apply saved_journal].
  split; [|etrans; [exact Hg|by apply saved_going]]. split; [done|]. by rewrite (saved_journal _ _ Hs).
Qed.

(** A change of the journal, committed or refused. *)
Lemma good_with_journal y0 y fs j :
  good y0 y fs -> journal_wf j -> extends (c_journal (y_ctl y)) j -> good y0 (with_journal j y) fs.
Proof.
  intros [[Hok Hj] Hg] Hwf He. split; [split; [by eapply saves_ok_same|exact Hwf]|]. etrans; [exact Hg|].
  split; [exists []; by rewrite app_nil_r|exact He].
Qed.

Lemma good_journal_op P f y0 y fs (Q : res JournalError unit -> Sys -> FsState -> Prop) :
  good y0 y fs ->
  (forall j out, f (c_journal (y_ctl y)) = (j, out) ->
     (env_step (c_journal (y_ctl y)) j /\ journal_wf j /\ out <> Panic) /\ (good y0 (with_journal j y) fs -> Q out (with_journal j y) fs)) ->
  cwp calm (fun _ => True) P (journal_op f) Q y fs.
Proof.
  intros Hg HQ. unfold journal_op. repeat cstep. destruct (f (c_journal (y_ctl y))) as [j out] eqn:Ef. cbn [fst snd].
  destruct (HQ j out eq_refl) as ((Hs & Hwf & Hp) & HQ'). apply attempt_quiet; [done|]. apply HQ'.
  apply good_with_journal; [done|done|by apply env_step_extends].
Qed.

Lemma good_append P id ev y0 y fs (Q : res JournalError unit -> Sys -> FsState -> Prop) :
  good y0 y fs ->
  (forall j out, append_delivery (c_journal (y_ctl y)) id ev = (j, out) -> out <> Panic ->
     good y0 (with_journal j y) fs -> Q out (with_journal j y) fs) ->
  cwp calm (fun _ => True) P (journal_op (fun j => append_delivery j id ev)) Q y fs.
Proof.
  intros Hg HQ. apply (good_journal_op _ _ y0); [done|]. intros j out Ha.
  destruct (append_delivery_wf _ _ _ _ _ (proj2 (proj1 Hg)) Ha) as [Hwf Hp]. split; [|by apply HQ].
  split_and!; [|done..]. by eapply step_delivery.
Qed.
End discipline.

Section walks.
Context `{Sha256} `{VaultPrims} `{TempfileLaws} `{WalletCodec} `{AddressesReturn} `{CallsReturn}.
Local Notation cwp P := (cwp calm (fun _ => True) P).

Lemma good_refresh P y0 y fs :
  good y0 y fs -> cwp P refresh_journal_policy (fun _ y' f => f = fs /\ good y0 y' f /\ aside y y' /\
    written (y_ctl y') = written (y_ctl y) /\ policy_shown (y_ctl y')) y fs.
Proof.
  intros Hg. eapply good_quiet; [eapply refresh_journal_policy_quiet, Hg|exact Hg|].
  intros [] y' Hg' Ha (Hs & _ & Hp & _). split_and!; try done. by apply same_rows_written.
Qed.

(** A step of an update that saving does not look at. *)
Lemma good_update P f y0 y fs (Q : unit -> Sys -> FsState -> Prop) :
  (forall c, core (f c) = core c /\ c_pending_seq (f c) = c_pending_seq c) -> good y0 y fs ->
  (good y0 (y <| y_ctl := f (y_ctl y) |>) fs -> aside y (y <| y_ctl := f (y_ctl y) |>) ->
   Q tt (y <| y_ctl := f (y_ctl y) |>) fs) ->
  cwp P (modify f) Q y fs.
Proof.
  intros Hc Hg HQ. assert (aside y (y <| y_ctl := f (y_ctl y) |>)) as Ha.
  { destruct (Hc (y_ctl y)). split; [done..|]. exists []. by rewrite app_nil_r. }
  cstep. apply HQ; [|done]. destruct Hg as [[Hok Hj] Hg]. split; [|etrans; [exact Hg|by apply aside_going]].
  split; [by eapply aside_saves_ok|]. by rewrite (aside_journal _ _ Ha).
Qed.

Lemma finish_blocking_wp P id ev status y0 y fs :
  good y0 y fs -> cwp P (finish_blocking_delivery id ev status) (fun _ y' f => good y0 y' f) y fs.
Proof.
  intros Hg. unfold finish_blocking_delivery. cstep. eapply (good_append _ _ _ y0); [done|].
  intros j out _ Hp Hg1. destruct out as [[]|err|]; [| |done].
  2:{ eapply good_failed; [exact Hg1|done]. }
  cstep. eapply good_barrier; [exact Hg1|]. intros b y2 f2 Hg2 _ _. destruct b; cbn [negb].
  2:{ eapply cwp_mono; [by eapply good_refresh|]. by intros ? ? ? (-> & ? & _). }
  cstep. eapply good_quiet; [apply clear_in_flight_quiet|exact Hg2|]. intros b y3 Hg3 _ _. cstep.
  assert (cwp P (if b : bool then clear_broadcast_send_form else mret ()) (fun _ y4 f4 => f4 = f2 /\ good y0 y4 f4) y3 f2) as Hc.
  { destruct b; [|by cstep]. eapply good_quiet; [apply clear_form_quiet|exact Hg3|]. by intros. }
  eapply cwp_mono; [exact Hc|]. intros [] y4 f4 (-> & Hg4). cstep.
  eapply good_update; [intros; split; vm_compute; reflexivity|exact Hg4|]. intros Hg5 _. cstep.
  eapply cwp_mono; [by eapply good_refresh|]. intros [] y6 f6 (-> & Hg6 & _). cstep.
  eapply good_quiet; [eapply expedite_quiet, Hg6|exact Hg6|]. intros [] y7 Hg7 _ _. repeat cstep.
  eapply good_quiet; [by apply fetch_quiet|exact Hg7|]. by intros.
Qed.

Lemma drop_rows_quiet P hash y fs : quiet calm (fun _ => True) P (drop_optimistic_rows hash) y fs (fun _ _ => True).
Proof. unfold drop_optimistic_rows, Service.quiet. repeat cstep. split_and!; [done|is_aside|done]. Qed.

Lemma finish_locally_wp P id route detail y0 y fs :
  good y0 y fs -> cwp P (finish_locally_not_broadcast id route detail) (fun _ y' f => good y0 y' f) y fs.
Proof.
  intros Hg. unfold finish_locally_not_broadcast. cstep. eapply (good_append _ _ _ y0); [done|].
  intros j out _ Hp Hg1. destruct out as [[]|err|]; [| |done].
  2:{ eapply good_failed; [exact Hg1|done]. }
  cstep. eapply good_barrier; [exact Hg1|]. intros b y2 f2 Hg2 _ _. destruct b; cbn [negb].
  2:{ eapply cwp_mono; [by eapply good_refresh|]. by intros ? ? ? (-> & ? & _). }
  cstep. cstep. cstep.
  assert (cwp P (match env_record (c_journal (y_ctl y2)) id with Some record => drop_optimistic_rows (rec_ext_msg_hash record) | None => mret () end)
    (fun _ y3 f3 => f3 = f2 /\ good y0 y3 f3) y2 f2) as Hc.
  { destruct (env_record _ _); [|by cstep]. eapply good_quiet; [apply drop_rows_quiet|exact Hg2|]. by intros. }
  eapply cwp_mono; [exact Hc|]. intros [] y3 f3 (-> & Hg3). cstep.
  eapply good_quiet; [apply clear_in_flight_quiet|exact Hg3|]. intros b y4 Hg4 _ _. cstep.
  eapply good_update; [intros; split; vm_compute; reflexivity|exact Hg4|]. intros Hg5 _.
  eapply cwp_mono; [by eapply good_refresh|]. by intros ? ? ? (-> & ? & _).
Qed.

(** The record of [p] says that its attempt [n] has started. *)
Definition attempt_recorded (j : JournalEnvelope) (p : PreparedChainSend) (n : N) : Prop :=
  exists r, env_record j (ps_record_id p) = Some r /\
            @latest_evidence Empty_set r = Ok (AttemptStarted n (ps_route_id p)).

(** It has not been started in [j]. *)
Definition never_started (j : JournalEnvelope) (p : PreparedChainSend) (n : N) : Prop :=
  forall r route, env_record j (ps_record_id p) = Some r ->
    AttemptStarted n route ∉ de_evidence <$> rec_delivery_events r.

(** A send that was broadcast: what was before it, and what holds when it is. *)
Definition broadcast_of (y0 y' : Sys) (f : FsState) (g : N) (p : PreparedChainSend) (i : N) : Prop :=
  exists y1, going y0 y1 /\ y_tasks y' = y_tasks y1 ++ [TaskBroadcast g p i] /\
    never_started (c_journal (y_ctl y0)) p (i + 1) /\
    i < ps_candidate_count p /\ attempt_recorded (c_journal (y_ctl y')) p (i + 1) /\
    on_disk (y_ctl y') f /\ s_persistence_health (c_state (y_ctl y')) = Ready.

Definition delivers (y0 y' : Sys) (f : FsState) (Q : N -> PreparedChainSend -> N -> Prop) : Prop :=
  fine (y_ctl y') f /\ extends (c_journal (y_ctl y0)) (c_journal (y_ctl y')) /\
  ((exists l, y_tasks y' = y_tasks y0 ++ l /\ Forall (fun t => is_broadcast t = false) l) \/
   exists g p i, broadcast_of y0 y' f g p i /\ Q g p i).

Lemma good_delivers y0 y f Q : good y0 y f -> delivers y0 y f Q.
Proof. intros [Hf [Ht Hj]]. split; [done|]. split; [done|]. by left. Qed.

Lemma append_delivery_record e id ev e' :
  append_delivery e id ev = (e', Ok tt) ->
  exists r s, env_record e' id = Some (with_events r (rec_delivery_events r ++ [mkDeliveryEvent s ev])).
Proof.
  intros Ha. destruct (append_delivery_Ok _ _ _ _ Ha) as (s & l & r & k & Hs & He & Hid & Hl & -> & _).
  exists r, s. unfold env_record. cbn [env_records]. apply find_skip; [|by apply bool_decide_eq_true].
  intros y Hy. apply bool_decide_eq_false. by apply Hl.
Qed.

Lemma latest_pushed {E} r s ev :
  @latest_evidence E (with_events r (rec_delivery_events r ++ [mkDeliveryEvent s ev])) = Ok ev.
Proof. unfold latest_evidence, with_events. cbn. by rewrite last_snoc. Qed.

Lemma attempts_before k l n route m route' :
  attempts_from k (l ++ [AttemptStarted n route]) -> AttemptStarted m route' ∈ l -> k <= m < n.
Proof.
  revert k. induction l as [|e l IH]; intros k; [by intros _ ?%elem_of_nil|].
  cbn [app attempts_from]. destruct e; try done. intros (-> & _ & Hl) Hin.
  assert (k < n) as Hk.
  { clear IH Hin. revert k Hl. induction l as [|e l IH]; intros k; cbn [app attempts_from]; [intros (-> & _); lia|].
    destruct e; try done. intros (-> & _ & Hl). pose proof (IH _ Hl). lia. }
  apply elem_of_cons in Hin as [[= -> ->]|Hin]; [lia|]. pose proof (IH _ Hl Hin). lia.
Qed.

Definition is_attempt (e : DeliveryEvidence) : bool := match e with AttemptStarted _ _ => true | _ => false end.

Lemma filterb_none {A} (f : A -> bool) l : (forall a, a ∈ l -> f a = false) -> List.filter f l = [].
Proof.
  induction l as [|a l IH]; intros Hf; [done|]. cbn. rewrite (Hf a) by left. apply IH. intros x Hx. apply Hf. by right.
Qed.

Lemma closing_no_attempt n l e : closing n l -> e ∈ l -> is_attempt e = false.
Proof.
  assert (forall (P : DeliveryEvidence -> Prop) q, (forall x, P x -> is_attempt x = false) -> opt P q -> e ∈ q -> is_attempt e = false) as Hopt.
  { intros P q HP [->|(z & -> & Hz)]; [by intros ?%elem_of_nil|]. intros ->%list_elem_of_singleton. auto. }
  intros [(x & -> & Hx)|(s & r & v & -> & Hs & Hr & Hv & _)].
  - intros ->%list_elem_of_singleton. by destruct x.
  - rewrite !elem_of_app. intros [He|[He|He]]; [eapply Hopt; [|exact Hs|exact He]|eapply Hopt; [|exact Hr|exact He]
      |eapply Hopt; [|exact Hv|exact He]]; intros x; by destruct x.
Qed.

Lemma filterb_all {A} (f : A -> bool) l : (forall a, a ∈ l -> f a = true) -> List.filter f l = l.
Proof.
  induction l as [|a l IH]; intros Hf; [done|]. cbn. rewrite (Hf a) by left. f_equal. apply IH. intros x Hx. apply Hf. by right.
Qed.

(** The attempts of a record are numbered, so none is started twice. *)
Lemma attempt_once l n route route' :
  lifecycle (l ++ [AttemptStarted n route]) -> AttemptStarted n route' ∉ l.
Proof.
  intros (a & rest & E & Ha & Hc) Hin. apply (f_equal (List.filter is_attempt)) in E.
  cbn [List.filter is_attempt] in E. rewrite !List.filter_app in E. cbn [List.filter is_attempt] in E.
  rewrite (filterb_none _ rest), app_nil_r, (filterb_all _ a) in E.
  - rewrite <- E in Ha. assert (AttemptStarted n route' ∈ List.filter is_attempt l) as Hin'.
    { apply list_elem_of_In, filter_In. split; [by apply list_elem_of_In|done]. }
    pose proof (attempts_before _ _ _ _ _ _ Ha Hin'). lia.
  - intros e He. by apply (attempts_from_forall _ _ _ Ha) in He as (m & rt & ->).
  - intros e He. by eapply closing_no_attempt.
Qed.

Lemma extends_record e e' id r :
  extends e e' -> env_record e id = Some r ->
  exists k, env_record e' id = Some (with_events r (rec_delivery_events r ++ k)).
Proof.
  intros [He _]. unfold env_record. revert He. generalize (env_records e) (env_records e').
  induction l as [|x l IH]; intros l' He; [done|]. destruct (He 0%nat x eq_refl) as (k & Hk).
  destruct l' as [|x' l']; [done|]. injection Hk as ->. cbn [find].
  change (record_id (with_events x (rec_delivery_events x ++ k))) with (record_id x).
  destruct (bool_decide (record_id x = id)).
  - intros [= <-]. by exists k.
  - apply IH. intros i y Hy. apply (He (S i) y Hy).
Qed.

Lemma extends_never_started e e' p n : extends e e' -> never_started e' p n -> never_started e p n.
Proof.
  intros He Hn r route Hr Hin. destruct (extends_record _ _ _ _ He Hr) as (k & Hk). apply (Hn _ route Hk).
  unfold with_events. cbn. rewrite fmap_app, elem_of_app. by left.
Qed.

Lemma append_attempt_fresh e p n route e' :
  append_delivery e (ps_record_id p) (AttemptStarted n route) = (e', Ok tt) -> never_started e p n.
Proof.
  intros Ha r route' Hr Hin. destruct (append_delivery_Ok _ _ _ _ Ha) as (s & l & r0 & k & _ & He & Hid & Hl & -> & Hv).
  unfold env_record in Hr. rewrite He, find_skip in Hr; [|intros y Hy; apply bool_decide_eq_false; by apply Hl|by apply bool_decide_eq_true].
  injection Hr as <-. apply accepted_records in Hv as (Hv & _). rewrite Forall_forall in Hv.
  specialize (Hv (with_events r0 (rec_delivery_events r0 ++ [mkDeliveryEvent s (AttemptStarted n route)]))
    ltac:(cbn; rewrite elem_of_app; right; left)).
  apply validate_static_Ok in Hv as (Hlife & _). cbn in Hlife. rewrite fmap_app in Hlife.
  by eapply attempt_once.
Qed.

Lemma start_prepared_wp P g p i y0 y fs :
  good y0 y fs ->
  cwp P (start_prepared_candidate g p i) (fun _ y' f => delivers y0 y' f (fun g' p' i' =>
    g' = g /\ p' = p /\ i' = i /\ g = c_session_generation (y_ctl y))) y fs.
Proof.
  intros Hg. unfold start_prepared_candidate. repeat cstep.
  destruct (N.eqb_spec g (c_session_generation (y_ctl y))) as [Eg|]; cbn [negb]; [|cstep; by apply good_delivers].
  destruct (N.leb_spec (ps_candidate_count p) i) as [|Hi].
  { eapply cwp_mono; [by apply (finish_locally_wp _ _ _ _ y0)|]. intros. by apply good_delivers. }
  repeat cstep. assert (good y0 (y <| y_asked := S (y_asked y) |>) fs) as Hg1.
  { destruct Hg as [Hf Hg]. split; [exact Hf|]. etrans; [exact Hg|]. apply aside_going. is_aside. }
  destruct (message_expired _ _).
  { eapply cwp_mono; [by apply (finish_locally_wp _ _ _ _ y0)|]. intros. by apply good_delivers. }
  unfold attempt_number. destruct (i + 1 <=? u32_max).
  2:{ eapply good_failed; [exact Hg1|]. intros. by apply good_delivers. }
  cstep. eapply (good_append _ _ _ y0); [done|]. intros j out Ha Hp Hg2. destruct out as [[]|err|]; [| |done].
  2:{ eapply good_failed; [exact Hg2|]. intros. by apply good_delivers. }
  cstep. eapply good_barrier; [exact Hg2|]. intros b y3 f3 Hg3 Hs3 Hd3. destruct b; cbn [negb].
  2:{ eapply cwp_mono; [by eapply good_refresh|]. intros ? ? ? (-> & ? & _). by apply good_delivers. }
  destruct (Hd3 eq_refl) as [Hd Hr]. clear Hd3. cstep.
  eapply cwp_mono; [by eapply good_refresh|]. intros [] y4 f4 (-> & Hg4 & Ha4 & Hw4 & _). cstep.
  eapply good_quiet; [apply arm_awaiting_send_finality_quiet|exact Hg4|]. intros [] y5 Hg5 Ha5 Hw5. cstep.
  eapply good_update; [intros; split; vm_compute; reflexivity|exact Hg5|]. intros Hg6 Ha6. cstep.
  set (y6 := y5 <| _ := _ |>) in *.
  assert (aside y3 y6) as Ha36 by (etrans; [exact Ha4|]; by etrans).
  assert (written (y_ctl y6) = written (y_ctl y3)) as Hw36.
  { etrans; [|exact Hw4]. exact (same_rows_written _ _ Hw5). }
  assert (c_journal (y_ctl y6) = j) as Hj6.
  { rewrite (aside_journal _ _ Ha36), (saved_journal _ _ Hs3). reflexivity. }
  destruct Hg6 as [Hf6 Hgo6]. split; [exact Hf6|]. split; [by destruct Hgo6|]. right. exists g, p, i.
  split; [|done]. exists y6. split; [done|]. split; [reflexivity|].
  split; [eapply extends_never_started; [apply Hg|by eapply append_attempt_fresh]|]. split; [done|].
  change (y_ctl (y6 <| y_tasks := y_tasks y6 ++ [TaskBroadcast g p i] |>)) with (y_ctl y6).
  split; [|split; [by eapply aside_on_disk|]].
  - destruct (append_delivery_record _ _ _ _ Ha) as (r & s & He). rewrite Hj6. eexists. split; [exact He|].
    by rewrite latest_pushed.
  - exact (eq_trans (f_equal k_health (as_core _ _ Ha36)) Hr).
Qed.

Lemma reject_unbound_wp P error y0 y fs :
  good y0 y fs -> cwp P (reject_unbound_prepared error) (fun _ y' f => good y0 y' f) y fs.
Proof.
  intros Hg. unfold reject_unbound_prepared. cstep. eapply good_update; [intros; split; vm_compute; reflexivity|exact Hg|].
  intros Hg1 _. cstep. eapply good_quiet; [apply discard_awaiting_send_quiet|exact Hg1|]. intros [] y2 Hg2 _ _. cstep.
  eapply good_update; [intros; split; vm_compute; reflexivity|exact Hg2|]. intros Hg3 _.
  eapply cwp_mono; [by eapply good_refresh|]. by intros ? ? ? (-> & ? & _).
Qed.

Lemma end_failed_send_wp P y0 y fs :
  good y0 y fs -> cwp P end_failed_send (fun _ y' f => f = fs /\ good y0 y' f) y fs.
Proof.
  intros Hg. unfold end_failed_send. cstep.
  eapply good_quiet; [apply discard_awaiting_send_quiet|exact Hg|]. intros [] y2 Hg2 _ _.
  eapply good_update; [intros; split; vm_compute; reflexivity|exact Hg2|]. by intros Hg3 _.
Qed.

Lemma good_begin_row P request y0 y fs (Q : N -> Sys -> FsState -> Prop) :
  (u64_max <= c_pending_seq (y_ctl y) -> P) -> good y0 y fs ->
  (forall lt y', good y0 y' fs -> Q lt y' fs) -> cwp P (begin_pending_send request) Q y fs.
Proof.
  intros HP [[Hok Hj] Hg] HQ. eapply cwp_mono; [by apply begin_pending_send_aside|].
  intros lt y' f (-> & n & Ha). apply HQ. pose proof (aside_journal _ _ Ha) as Hj'. split; [split|].
  - eapply aside_saves_ok; [exact Ha|]. by eapply saves_ok_same.
  - by rewrite Hj'.
  - etrans; [exact Hg|]. etrans; [|by apply aside_going]. split; [exists []; by rewrite app_nil_r|apply extends_refl].
Qed.

Lemma saved_rows y y' : same_but_saved y y' -> c_pending_seq (y_ctl y') = c_pending_seq (y_ctl y).
Proof. intros Hs. exact (f_equal c_pending_seq (sb_ctl _ _ Hs)). Qed.

(** The first attempt is made only once the record itself is on the disk. *)
Lemma apply_bound_wp g p consumption y0 y fs :
  good y0 y fs -> wf_prepared (ps_prepared_record p) ->
  cwp (u64_max <= c_pending_seq (y_ctl y)) (apply_bound_prepared g p consumption)
    (fun _ y' f => delivers y0 y' f (fun g' p' i' => g' = g /\ p' = p /\ i' = 0)) y fs.
Proof.
  intros Hg Hp. unfold apply_bound_prepared. cstep.
  eapply good_quiet; [eapply capture_quiet, Hg|exact Hg|]. intros [] y1 Hg1 Ha1 _. cstep.
  pose proof (as_rows _ _ Ha1) as Hr1.
  eapply (good_journal_op _ _ y0); [exact Hg1|]. intros j out Ha.
  assert (env_step (c_journal (y_ctl y1)) j /\ journal_wf j /\ out <> Panic) as Hstep.
  { destruct consumption as [c|].
    - destruct (append_consumption_wf _ _ _ _ _ (proj2 (proj1 Hg1)) Hp Ha). split_and!; [|done..]. by eapply step_consumption.
    - destruct (append_prepared_wf _ _ _ _ (proj2 (proj1 Hg1)) Hp Ha). split_and!; [|done..]. by eapply step_prepared. }
  split; [done|]. destruct Hstep as (_ & _ & Hnp). intros Hg2. destruct out as [[]|err|]; [| |done].
  2:{ cstep. eapply cwp_mono; [by apply (end_failed_send_wp _ y0)|]. intros [] y3 f3 (-> & Hg3).
      eapply good_failed; [exact Hg3|]. intros. by apply good_delivers. }
  cstep. set (y2 := with_journal j y1) in *. assert (c_pending_seq (y_ctl y2) = c_pending_seq (y_ctl y)) as Hr2 by exact Hr1.
  assert (forall P, cwp P (if is_some consumption then modify (fun c => c <| c_pending_risk_consumption := None |>) else mret ())
    (fun _ y3 f3 => f3 = fs /\ good y0 y3 f3 /\ c_pending_seq (y_ctl y3) = c_pending_seq (y_ctl y)) y2 fs) as Hc.
  { intros P. destruct (is_some consumption); [|by cstep].
    eapply good_update; [intros; split; vm_compute; reflexivity|exact Hg2|]. by intros Hg3 Ha3. }
  eapply cwp_mono; [apply Hc|]. intros [] y3 f3 (-> & Hg3 & Hr3). cstep.
  eapply good_barrier; [exact Hg3|]. intros b y4 f4 Hg4 Hs4 _. pose proof (saved_rows _ _ Hs4) as Hr4. destruct b; cbn [negb].
  2:{ cstep. eapply cwp_mono; [by apply (end_failed_send_wp _ y0)|]. intros [] y5 f5 (-> & Hg5).
      eapply cwp_mono; [by eapply good_refresh|]. intros ? ? ? (-> & ? & _). by apply good_delivers. }
  cstep. eapply good_update; [intros; split; vm_compute; reflexivity|exact Hg4|]. intros Hg5 Ha5. do 2 cstep.
  set (y5 := y4 <| _ := _ |>) in *.
  assert (good y0 (y5 <| y_asked := S (y_asked y5) |>) f4) as Hg6.
  { destruct Hg5 as [Hf5 Hgo5]. split; [exact Hf5|]. etrans; [exact Hgo5|]. apply aside_going. is_aside. }
  cstep. eapply good_update; [intros; split; vm_compute; reflexivity|exact Hg6|]. intros Hg7 Ha7. cstep.
  eapply cwp_mono; [by eapply good_refresh|]. intros [] y8 f8 (-> & Hg8 & Ha8 & _). cstep.
  assert (c_pending_seq (y_ctl y8) = c_pending_seq (y_ctl y)) as Hr8.
  { rewrite (as_rows _ _ Ha8), (as_rows _ _ Ha7). change (c_pending_seq (y_ctl y5) = c_pending_seq (y_ctl y)).
    rewrite (as_rows _ _ Ha5). by rewrite Hr4. }
  eapply good_begin_row; [by rewrite Hr8|exact Hg8|]. intros lt y9 Hg9. cstep.
  eapply good_update; [intros; split; vm_compute; reflexivity|exact Hg9|]. intros Hg10 _.
  eapply cwp_mono; [by apply (start_prepared_wp _ _ _ _ y0)|]. intros [] y11 f11 (Hf & Hx & Hd).
  split; [done|]. split; [done|]. destruct Hd as [Hd|(g' & p' & i' & Hd & -> & -> & -> & _)]; [by left|right].
  by exists g, p, 0.
Qed.

(** What a prepared send must be for its broadcast. *)
Definition bound_send (c : AppController) (digest : Digest32) (risk_grant_required : bool) (p : PreparedChainSend) : Prop :=
  SendTicket_digest (pr_ticket (ps_prepared_record p)) = Ok digest /\
  (risk_grant_required = true -> exists pending, c_pending_risk_consumption c = Some pending /\
     c_new_record_id (rp_consumption pending) = ps_record_id p /\ c_new_ticket_digest (rp_consumption pending) = digest).

Lemma apply_prepared_wp g digest required p y fs :
  fine (y_ctl y) fs -> wf_prepared (ps_prepared_record p) ->
  cwp (u64_max <= c_pending_seq (y_ctl y)) (apply_prepared_send g digest required p)
    (fun _ y' f => delivers y y' f (fun g' p' i' => g' = g /\ p' = p /\ i' = 0 /\
       g = c_session_generation (y_ctl y) /\ bound_send (y_ctl y) digest required p)) y fs.
Proof.
  intros Hf Hp. pose proof (good_here _ _ Hf) as Hg. unfold apply_prepared_send. repeat cstep.
  destruct (N.eqb_spec g (c_session_generation (y_ctl y))) as [Eg|]; cbn [negb]; [|cstep; by apply good_delivers].
  repeat cstep. pose proof (SendTicket_digest_no_panic _ (proj1 Hp)) as Hd. apply attempt_quiet; [done|].
  assert (forall e, cwp (u64_max <= c_pending_seq (y_ctl y)) (reject_unbound_prepared e) (fun _ y' f => delivers y y' f
    (fun g' p' i' => g' = g /\ p' = p /\ i' = 0 /\ g = c_session_generation (y_ctl y) /\ bound_send (y_ctl y) digest required p)) y fs) as Hr.
  { intros e. eapply cwp_mono; [by apply reject_unbound_wp|]. intros. by apply good_delivers. }
  destruct (SendTicket_digest _) as [d|e|] eqn:Ed; [|by apply Hr|done].
  case_bool_decide as Hde; cbn [negb]; [subst d|by apply Hr]. repeat cstep.
  destruct (required && is_none _) eqn:Er; [by apply Hr|].
  eapply cwp_mono; [by apply apply_bound_wp|]. intros [] y' f (Hf' & Hx & Hd'). split; [done|]. split; [done|].
  destruct Hd' as [Hd'|(g' & p' & i' & Hd' & -> & -> & ->)]; [by left|right]. exists g, p, 0. split_and!; try done.
  split; [done|]. intros ->. cbn [andb] in Er. unfold matching_consumption in Er.
  destruct (c_pending_risk_consumption (y_ctl y)) as [pending|]; [|done]. exists pending.
  destruct (bool_decide (c_new_record_id _ = _) && bool_decide (c_new_ticket_digest _ = _)) eqn:Eb; [|done].
  apply andb_true_iff in Eb as [E1%bool_decide_eq_true E2%bool_decide_eq_true]. done.
Qed.

Lemma current_attempt_total j p n :
  journal_wf j -> exists b, is_current_attempt j p n = Ok b /\ (b = true -> attempt_recorded j p n).
Proof.
  intros Hj. unfold is_current_attempt, attempt_recorded. destruct (env_record j (ps_record_id p)) as [r|] eqn:Er.
  2:{ by exists false. }
  apply find_some in Er as [Hr _]. apply list_elem_of_In in Hr.
  destruct (wf_latest j r Hj Hr) as (ev & Hl & _). rewrite Hl. cbn [rbind]. eexists. split; [done|].
  intros Hb. exists r. split; [done|]. rewrite Hl. destruct ev; try done.
  apply andb_true_iff in Hb as [->%N.eqb_eq ->%bool_decide_eq_true]. done.
Qed.

Lemma apply_outcome_wp P g p i outcome y fs :
  fine (y_ctl y) fs ->
  cwp P (apply_candidate_outcome g p i outcome) (fun _ y' f => delivers y y' f (fun g' p' i' =>
    g' = g /\ p' = p /\ i' = i + 1 /\ g = c_session_generation (y_ctl y) /\
    (exists detail, outcome = NotTransmitted detail true) /\ attempt_recorded (c_journal (y_ctl y)) p (i + 1))) y fs.
Proof.
  intros Hf. pose proof (good_here _ _ Hf) as Hg. unfold apply_candidate_outcome. repeat cstep.
  destruct (N.eqb_spec g (c_session_generation (y_ctl y))) as [Eg|]; cbn [negb]; [|cstep; by apply good_delivers].
  unfold attempt_number. destruct (i + 1 <=? u32_max).
  2:{ eapply good_failed; [exact Hg|]. intros. by apply good_delivers. }
  repeat cstep. apply cwp_pure. destruct (current_attempt_total _ p (i + 1) (proj2 Hf)) as (b & -> & Hb).
  destruct b; cbn [negb].
  2:{ cstep. eapply good_quiet; [apply clear_in_flight_quiet|exact Hg|]. intros b y1 Hg1 _ _.
      eapply cwp_mono; [by eapply good_refresh|]. intros ? ? ? (-> & ? & _). by apply good_delivers. }
  assert (forall id ev status, cwp P (finish_blocking_delivery id ev status) (fun _ y' f => delivers y y' f (fun g' p' i' =>
    g' = g /\ p' = p /\ i' = i + 1 /\ g = c_session_generation (y_ctl y) /\
    (exists detail, outcome = NotTransmitted detail true) /\ attempt_recorded (c_journal (y_ctl y)) p (i + 1))) y fs) as Hfin.
  { intros id ev status. eapply cwp_mono; [by apply (finish_blocking_wp _ _ _ _ y)|]. intros. by apply good_delivers. }
  destruct outcome as [detail retry|detail|request response detail]; [|by apply Hfin..].
  destruct (retry && (i + 1 <? ps_candidate_count p)) eqn:Er.
  - apply andb_true_iff in Er as [-> _]. cstep. eapply good_update; [intros; split; vm_compute; reflexivity|exact Hg|].
    intros Hg1 Ha1. eapply cwp_mono; [by apply (start_prepared_wp _ _ _ _ y)|]. intros [] y2 f2 (Hf2 & Hx & Hd).
    split; [done|]. split; [done|]. destruct Hd as [Hd|(g' & p' & i' & Hd & -> & -> & -> & _)]; [by left|right].
    exists g, p, (i + 1). split_and!; try done; [by exists detail|by apply Hb].
  - eapply cwp_mono; [by apply (finish_locally_wp _ _ _ _ y)|]. intros. by apply good_delivers.
Qed.
End walks.

(** ** Restart *)
Section recovery.
Context `{Sha256}.

(** What a record becomes when the wallet is opened again. *)
Definition recovered_evidence (r : SendRecord) (e : DeliveryEvidence) : DeliveryEvidence :=
  match e with
  | Prepared => NotBroadcast (p_route_id (rec_prepare_provenance r)) RESTARTED
  | AttemptStarted attempt_no route_id => MayHaveBroadcast attempt_no route_id
  | EndpointReportedSuccess tx | EndpointReportedFailedOnChain tx => rpc_history_terminal tx
  | e => e
  end.

(** Every record is there, with this as its last evidence. *)
Definition recovered (j j' : JournalEnvelope) : Prop :=
  forall id r, env_record j id = Some r ->
    exists e r', (forall E, @latest_evidence E r = Ok e) /\ env_record j' id = Some r' /\
                 (forall E, @latest_evidence E r' = Ok (recovered_evidence r e)).

Definition assoc (id : RecordId) (l : list (RecordId * DeliveryEvidence)) : option DeliveryEvidence :=
  snd <$> find (fun entry => bool_decide (fst entry = id)) l.

Lemma append_deliveries_latest j l j' :
  journal_wf j -> append_deliveries j l = Ok j' -> NoDup (fst <$> l) ->
  journal_wf j' /\ extends j j' /\ forall id r, env_record j id = Some r ->
    exists r', env_record j' id = Some r' /\
      forall E, @latest_evidence E r' = match assoc id l with Some e => Ok e | None => latest_evidence r end.
Proof.
  revert j. induction l as [|[id0 e0] l IH]; intros j Hj; cbn [append_deliveries].
  { intros [= <-] _. split; [done|]. split; [apply extends_refl|]. intros id r Hr. by exists r. }
  destruct (append_delivery j id0 e0) as [j1 out] eqn:Ha. intros Hl. apply rbind_Ok in Hl as ([] & -> & Hl).
  rewrite fmap_cons. intros [Hn Hnd]%NoDup_cons. destruct (append_delivery_wf _ _ _ _ _ Hj Ha) as [Hj1 _].
  destruct (IH j1 Hj1 Hl Hnd) as (Hj' & Hx & Hrec). split; [done|].
  split; [eapply extends_trans; [|exact Hx]; apply env_step_extends; by eapply step_delivery|].
  intros id r Hr. unfold assoc. cbn [find fst].
  destruct (append_delivery_effect _ _ _ _ _ Ha) as [(_ & (s & r0 & _ & Hr0 & Hr1) & Hother & _)|[_ ?]]; [|done].
  case_bool_decide as Hid.
  - subst id0. rewrite Hr in Hr0. injection Hr0 as <-. destruct (Hrec _ _ Hr1) as (r' & Hr' & Hlat).
    exists r'. split; [done|]. intros E. rewrite Hlat. unfold assoc.
    destruct (find (fun entry => bool_decide (fst entry = id)) l) as [[id' e']|] eqn:Ef.
    + apply find_some in Ef as [Hin Hb]. apply bool_decide_eq_true in Hb. cbn in Hb. subst. exfalso. apply Hn.
      apply list_elem_of_In in Hin. apply list_elem_of_fmap. by exists (id, e').
    + cbn. by rewrite latest_pushed.
  - destruct (Hrec id r) as (r' & Hr' & Hlat); [by rewrite Hother by congruence|]. exists r'. split; [done|]. exact Hlat.
Qed.
End recovery.

Section recovery_of_all.
Context `{Sha256}.

Lemma recoveries_exact j records :
  journal_wf j -> (forall r, r ∈ records -> r ∈ env_records j) -> NoDup (record_id <$> records) ->
  exists l, recoveries records = Ok l /\ NoDup (fst <$> l) /\ (forall id, id ∈ fst <$> l -> id ∈ record_id <$> records) /\
    forall r, r ∈ records -> exists e, (forall E, @latest_evidence E r = Ok e) /\
      match assoc (record_id r) l with Some e' => e' | None => e end = recovered_evidence r e.
Proof.
  intros Hj. induction records as [|r records IH]; intros Hin Hnd.
  { exists []. split; [done|]. split; [constructor|]. split; [done|]. by intros r ?%elem_of_nil. }
  rewrite fmap_cons, NoDup_cons in Hnd. destruct Hnd as [Hn Hnd].
  destruct IH as (l & Hl & Hl1 & Hl2 & Hl3); [intros x Hx; apply Hin; by right|done|].
  destruct (wf_latest j r Hj (Hin r ltac:(left))) as (ev & Hlat & _).
  assert (assoc (record_id r) l = None) as Hnone.
  { unfold assoc. destruct (find _ l) as [[id e]|] eqn:Ef; [|done]. apply find_some in Ef as [Hi Hb].
    apply bool_decide_eq_true in Hb. cbn in Hb. subst id. exfalso. apply Hn, Hl2. apply list_elem_of_In in Hi.
    apply list_elem_of_fmap. by exists (record_id r, e). }
  cbn [recoveries]. unfold recovery_of. rewrite Hlat, Hl. cbn [rmap rbind].
  assert (forall o, (forall id e, o = Some (id, e) -> id = record_id r) ->
    match o with Some (id, e) => e | None => ev end = recovered_evidence r ev ->
    exists l0, (Ok (match o with Some r0 => r0 :: l | None => l end) : res Empty_set _) = Ok l0 /\ NoDup (fst <$> l0) /\ (forall id, id ∈ fst <$> l0 -> id ∈ record_id <$> r :: records) /\
      forall x, x ∈ r :: records -> exists e, (forall E, @latest_evidence E x = Ok e) /\
        match assoc (record_id x) l0 with Some e' => e' | None => e end = recovered_evidence x e) as Hgen.
  { intros [[id e]|] Hid Hev; (eexists; split; [done|]).
    - specialize (Hid id e eq_refl) as ->. rewrite fmap_cons. cbn [fst]. split_and!.
      + constructor; [|done]. intros Hi. by apply Hn, Hl2.
      + intros id. rewrite !fmap_cons, !elem_of_cons. intros [->|Hi]; [by left|right]. by apply Hl2.
      + intros x [->|Hx]%elem_of_cons.
        * exists ev. split; [done|]. unfold assoc. cbn [find fst]. by rewrite bool_decide_eq_true_2.
        * destruct (Hl3 x Hx) as (e' & He' & Ha). exists e'. split; [done|]. unfold assoc. cbn [find fst].
          rewrite bool_decide_eq_false_2; [exact Ha|]. intros Hid'. apply Hn. rewrite Hid'. apply list_elem_of_fmap. by exists x.
    - split_and!; [done|intros id Hi; rewrite fmap_cons, elem_of_cons; right; by apply Hl2|].
      intros x [->|Hx]%elem_of_cons; [|by apply Hl3]. exists ev. split; [done|]. by rewrite Hnone. }
  apply (Hgen (recovery_evidence r ev)); destruct ev; cbn; try done; by intros ? ? [= <- _].
Qed.

Lemma record_in e id r : env_record e id = Some r -> r ∈ env_records e /\ record_id r = id.
Proof. intros [Hr Hb]%find_some. apply list_elem_of_In in Hr. by apply bool_decide_eq_true in Hb. Qed.

(** Recovery of a journal: it is found, and what it makes of the journal is one. *)
Lemma recover_journal j :
  journal_wf j -> exists l, recoveries (env_records j) = Ok l /\
    (length l = 0%nat -> recovered j j) /\
    append_deliveries j l <> Panic /\
    forall j', append_deliveries j l = Ok j' -> journal_wf j' /\ extends j j' /\ recovered j j'.
Proof.
  intros Hj. pose proof (jw_valid _ Hj) as Hv. pose proof (accepted_records _ _ Hv) as (_ & Hnd & _).
  destruct (recoveries_exact j (env_records j) Hj ltac:(done) Hnd) as (l & Hl & Hl1 & _ & Hl3).
  exists l. split; [done|]. split; [|split].
  - intros Hlen. destruct l; [|done]. intros id r Hr. destruct (record_in _ _ _ Hr) as [Hin Hid].
    destruct (Hl3 r Hin) as (e & He & Ha). cbn in Ha. exists e, r. split; [done|]. split; [done|]. by rewrite <- Ha.
  - clear Hl Hl1 Hl3 Hnd Hv. revert j Hj. induction l as [|[id e] l IH]; intros j Hj; cbn [append_deliveries]; [done|].
    destruct (append_delivery j id e) as [j1 out] eqn:Ha. destruct (append_delivery_wf _ _ _ _ _ Hj Ha) as [Hj1 Hp].
    destruct out as [[]|err|]; cbn; [|done..]. by apply IH.
  - intros j' Hj'. destruct (append_deliveries_latest j l j' Hj Hj' Hl1) as (Hw & Hx & Hrec). split; [done|]. split; [done|].
    intros id r Hr. destruct (record_in _ _ _ Hr) as [Hin Hid]. destruct (Hl3 r Hin) as (e & He & Ha).
    destruct (Hrec id r Hr) as (r' & Hr' & Hlat). exists e, r'. split; [done|]. split; [done|]. intros E.
    rewrite Hlat, <- Ha, Hid. destruct (assoc id l); [done|]. apply He.
Qed.
End recovery_of_all.

(** ** What the chain reported *)
Section observing.
Context `{Sha256}.

(** The observation is of this record, which is unresolved. *)
Definition matches (r : SendRecord) (obs : EndpointTransactionEvidence) : Prop :=
  blocks r = true /\ rec_ext_msg_hash r = tx_ext_msg_hash obs /\
  t_sender_address (rec_ticket r) = tx_sender_address obs /\
  t_endpoint_identity (rec_ticket r) = tx_source_endpoint obs.

(** A record stays as it is, or was closed by one of the observations, with its outcome. *)
Definition closed_by (l : list EndpointTransactionEvidence) (j j' : JournalEnvelope) (new : list RecordId) : Prop :=
  forall id r, env_record j id = Some r ->
    (id ∉ new /\ env_record j' id = Some r) \/
    (id ∈ new /\ exists obs r', obs ∈ l /\ matches r obs /\ env_record j' id = Some r' /\
       forall E, @latest_evidence E r' = Ok (rpc_history_terminal obs)).

Lemma observation_matches_total j obs r :
  journal_wf j -> r ∈ env_records j ->
  exists b, observation_matches_record r obs = Ok b /\ (b = true <-> matches r obs).
Proof.
  intros Hj Hr. destruct (wf_latest j r Hj Hr) as (ev & _ & _ & _ & Hb). unfold observation_matches_record.
  rewrite Hb. cbn [rbind]. eexists. split; [done|]. unfold matches. rewrite !andb_true_iff, !bool_decide_eq_true. tauto.
Qed.

Lemma find_matching_total j obs records :
  journal_wf j -> (forall r, r ∈ records -> r ∈ env_records j) ->
  exists o, find_matching obs records = Ok o /\
    match o with Some id => exists r, r ∈ records /\ record_id r = id /\ matches r obs | None => forall r, r ∈ records -> ~ matches r obs end.
Proof.
  intros Hj. induction records as [|r l IH]; intros Hin; cbn [find_matching].
  { exists None. split; [done|]. by intros r ?%elem_of_nil. }
  destruct (observation_matches_total j obs r Hj (Hin r ltac:(left))) as (b & -> & Hb). cbn [rbind]. destruct b.
  - exists (Some (record_id r)). split; [done|]. exists r. split; [left|]. split; [done|]. by apply Hb.
  - destruct IH as (o & -> & Ho); [intros x Hx; apply Hin; by right|]. exists o. split; [done|]. destruct o as [id|].
    + destruct Ho as (x & Hx & ?). exists x. split; [by right|done].
    + intros x [->|Hx]%elem_of_cons; [|by apply Ho]. intros Hm. by apply Hb in Hm.
Qed.

Lemma record_found j r : journal_wf j -> r ∈ env_records j -> env_record j (record_id r) = Some r.
Proof.
  intros Hj Hr. pose proof (accepted_records _ _ (jw_valid _ Hj)) as (_ & Hnd & _). unfold env_record.
  induction (env_records j) as [|x l IH]; [by apply elem_of_nil in Hr|].
  rewrite fmap_cons, NoDup_cons in Hnd. destruct Hnd as [Hn Hnd]. cbn. apply elem_of_cons in Hr as [->|Hr].
  - by rewrite bool_decide_eq_true_2.
  - rewrite bool_decide_eq_false_2; [by apply IH|]. intros E. apply Hn. rewrite E. apply list_elem_of_fmap. by exists r.
Qed.

(** One append to a record. *)
Record appended_to (j j' : JournalEnvelope) (id : RecordId) (ev : DeliveryEvidence) : Prop := {
  ap_wf : journal_wf j';
  ap_extends : extends j j';
  ap_record : exists r', env_record j' id = Some r' /\ forall E, @latest_evidence E r' = Ok ev;
  ap_others : forall other, other <> id -> env_record j' other = env_record j other
}.

Lemma append_appended j id ev j' : journal_wf j -> append_delivery j id ev = (j', Ok tt) -> appended_to j j' id ev.
Proof.
  intros Hj Ha. destruct (append_delivery_effect _ _ _ _ _ Ha) as [(_ & (s & r & _ & _ & Hr) & Ho & _)|[_ ?]]; [|done].
  split; [by eapply append_delivery_wf|apply env_step_extends; by eapply step_delivery| |exact Ho].
  eexists. split; [exact Hr|]. intros E. apply latest_pushed.
Qed.

Lemma appended_trans j1 j2 j3 id ev ev' : appended_to j1 j2 id ev -> appended_to j2 j3 id ev' -> appended_to j1 j3 id ev'.
Proof.
  intros [W1 X1 R1 O1] [W2 X2 R2 O2]. split; [done|by eapply extends_trans|done|]. intros o Ho. by rewrite O2, O1.
Qed.

Definition observed_ok (j : JournalEnvelope) (obs : EndpointTransactionEvidence) (o : Observed) : Prop :=
  match o with
  | Closed j' id => appended_to j j' id (rpc_history_terminal obs) /\ exists r, env_record j id = Some r /\ matches r obs
  | NoRecord => forall r, r ∈ env_records j -> ~ matches r obs
  | _ => True
  end.

Lemma append_then_ok j j1 id ev what k obs :
  journal_wf j1 ->
  (forall j2, appended_to j1 j2 id ev -> exists o, k j2 = Ok o /\ observed_ok j obs o) ->
  exists o, append_then j1 id ev what k = Ok o /\ observed_ok j obs o.
Proof.
  intros Hj Hk. unfold append_then. destruct (append_delivery j1 id ev) as [j2 out] eqn:Ha.
  destruct (append_delivery_wf _ _ _ _ _ Hj Ha) as [Hw Hp]. destruct out as [[]|err|]; [..|done].
  - apply Hk. by apply append_appended.
  - eexists. by split.
Qed.

Lemma observe_total j obs : journal_wf j -> exists o, observe j obs = Ok o /\ observed_ok j obs o.
Proof.
  intros Hj. unfold observe. destruct (find_matching_total j obs (env_records j) Hj ltac:(done)) as (o & -> & Ho).
  cbn [rbind]. destruct o as [id|]; [|by exists NoRecord]. destruct Ho as (r & Hr & <- & Hm).
  rewrite (record_found _ _ Hj Hr). cbn [expect rbind].
  destruct (wf_latest j r Hj Hr) as (ev & Hlat & _). rewrite Hlat. cbn [rbind].
  assert (forall j1, journal_wf j1 -> (j1 = j \/ exists ev1, appended_to j j1 (record_id r) ev1) ->
    exists o, append_then j1 (record_id r) (rpc_history_terminal obs) COULD_NOT_FINALIZE
      (fun journal => Ok (Closed journal (record_id r))) = Ok o /\ observed_ok j obs o) as Hclose.
  { intros j1 Hj1 Hor. apply append_then_ok; [done|]. intros j2 Ha2. eexists. split; [done|].
    split; [|exists r; split; [by apply record_found|done]].
    destruct Hor as [->|[ev1 Ha1]]; [done|by eapply appended_trans]. }
  assert (forall evidence, exists o, append_then j (record_id r) evidence COULD_NOT_APPEND_TX
    (fun journal => append_then journal (record_id r) (rpc_history_terminal obs) COULD_NOT_FINALIZE
      (fun journal => Ok (Closed journal (record_id r)))) = Ok o /\ observed_ok j obs o) as Hboth.
  { intros evidence. apply append_then_ok; [done|]. intros j2 Ha2. apply Hclose; [apply Ha2|]. right. by eexists. }
  destruct ev; try apply Hboth; (destruct (negb _); [by eexists|by apply Hclose; [|left]]).
Qed.

Lemma terminal_not_blocking r obs : (forall E, @latest_evidence E r = Ok (rpc_history_terminal obs)) -> blocks r = false.
Proof.
  intros Hl. unfold blocks, is_blocking, latest_evidence_tag. rewrite Hl. cbn. unfold rpc_history_terminal.
  by destruct (tx_success obs).
Qed.

Lemma observe_all_total j closed status l :
  journal_wf j -> exists o, observe_all j closed status l = Ok o /\
    match o with
    | inl (j', closed', _) => journal_wf j' /\ extends j j' /\ exists new, closed' = closed ++ new /\ closed_by l j j' new
    | inr _ => True
    end.
Proof.
  revert j closed status. induction l as [|obs l IH]; intros j closed status Hj; cbn [observe_all].
  { eexists. split; [done|]. split; [done|]. split; [apply extends_refl|]. exists []. rewrite app_nil_r. split; [done|].
    intros id r Hr. left. split; [by intros ?%elem_of_nil|done]. }
  destruct (observe_total j obs Hj) as (o & -> & Ho). cbn [rbind]. destruct o as [|j1 id| |what err]; [| |by eexists..].
  - destruct (IH j closed status Hj) as (o & -> & Hres). exists o. split; [done|]. destruct o as [[[j' closed'] st]|]; [|done].
    destruct Hres as (Hw & Hx & new & -> & Hcl). split; [done|]. split; [done|]. exists new. split; [done|].
    intros id r Hr. destruct (Hcl id r Hr) as [?|(Hin & obs' & r' & Ho' & ?)]; [by left|right]. split; [done|].
    exists obs', r'. split; [by right|done].
  - destruct Ho as ([Hw1 Hx1 (r1 & Hr1 & Hl1) Ho1] & r & Hr & Hm).
    destruct (IH j1 (closed ++ [id]) (Some (observation_status obs)) Hw1) as (o & -> & Hres). exists o. split; [done|].
    destruct o as [[[j' closed'] st]|]; [|done]. destruct Hres as (Hw & Hx & new & -> & Hcl). split; [done|].
    split; [by eapply extends_trans|]. exists (id :: new). split; [by rewrite <- app_assoc|]. intros id' r' Hr'.
    destruct (decide (id' = id)) as [->|Hne].
    + rewrite Hr in Hr'. injection Hr' as <-. right. split; [left|].
      destruct (Hcl id r1 Hr1) as [[_ Hk]|(_ & obs' & r' & _ & [Hbl _] & _)].
      * exists obs, r1. split; [left|]. done.
      * by rewrite (terminal_not_blocking _ _ Hl1) in Hbl.
    + destruct (Hcl id' r' ltac:(by rewrite Ho1)) as [[Hn Hk]|(Hin & obs' & r2 & Ho' & Hm' & ?)].
      * left. split; [|done]. by intros [?|?]%elem_of_cons.
      * right. split; [by right|]. exists obs', r2. split; [by right|done].
Qed.
End observing.

(** ** The handlers that close records *)
Section closing_handlers.
Context `{Sha256} `{VaultPrims} `{TempfileLaws} `{WalletCodec} `{AddressesReturn} `{CallsReturn}.
Local Notation cwp P := (cwp calm (fun _ => True) P).

Lemma refresh_answer P (b : bool) y0 y fs (Q : bool -> Sys -> FsState -> Prop) :
  good y0 y fs ->
  (forall y', good y0 y' fs -> aside y y' -> written (y_ctl y') = written (y_ctl y) -> Q b y' fs) ->
  cwp P (refresh_journal_policy;; mret b) Q y fs.
Proof.
  intros Hg HQ. cstep. eapply cwp_mono; [by eapply good_refresh|]. intros [] y' f (-> & Hg' & Ha & Hw & _). cstep. by apply HQ.
Qed.

Lemma good_replace_journal P j y0 y fs (Q : unit -> Sys -> FsState -> Prop) :
  good y0 y fs -> journal_wf j -> extends (c_journal (y_ctl y)) j ->
  (good y0 (with_journal j y) fs -> Q tt (with_journal j y) fs) ->
  cwp P (modify (fun c => c <| c_journal := j |>)) Q y fs.
Proof. intros Hg Hw Hx HQ. cstep. apply HQ. by apply good_with_journal. Qed.

(** Restart: on [true] nothing is under way any more, and the disk says so. *)
Lemma recover_wp P y fs :
  fine (y_ctl y) fs ->
  cwp P recover_restored_delivery_state (fun b y' f => good y y' f /\
    (b = true -> recovered (c_journal (y_ctl y)) (c_journal (y_ctl y')) /\
                 (c_journal (y_ctl y') = c_journal (y_ctl y) \/ on_disk (y_ctl y') f)) /\
    (b = false -> c_journal (y_ctl y') = c_journal (y_ctl y) \/
                  recovered (c_journal (y_ctl y)) (c_journal (y_ctl y')))) y fs.
Proof.
  intros Hf. pose proof (good_here _ _ Hf) as Hg. unfold recover_restored_delivery_state. repeat cstep. apply cwp_pure.
  destruct (recover_journal _ (proj2 Hf)) as (l & -> & Hnone & Hp & Hall).
  case_bool_decide as Hlen.
  { eapply refresh_answer; [exact Hg|]. intros y' Hg' Ha _. split; [done|]. rewrite (aside_journal _ _ Ha).
    split; [|done]. intros _. split; [by apply Hnone|by left]. }
  repeat cstep. apply attempt_quiet; [done|].
  destruct (append_deliveries (c_journal (y_ctl y)) l) as [j|err|] eqn:Ea; [| |done].
  - destruct (Hall j eq_refl) as (Hw & Hx & Hr). cstep. eapply good_replace_journal; [exact Hg|done..|]. intros Hg1. cstep.
    eapply good_barrier; [exact Hg1|]. intros b y2 f2 Hg2 Hs2 Hd2. eapply refresh_answer; [exact Hg2|].
    intros y3 Hg3 Ha3 Hw3. split; [done|].
    assert (c_journal (y_ctl y3) = j) as Hj3 by (rewrite (aside_journal _ _ Ha3), (saved_journal _ _ Hs2); done).
    rewrite Hj3. split; [|by right]. intros ->. split; [done|]. right. eapply aside_on_disk; [done..|]. by apply Hd2.
  - cstep. eapply good_failed; [exact Hg|]. intros y1 Hg1 _ Hj1. eapply refresh_answer; [exact Hg1|].
    intros y2 Hg2 Ha2 _. split; [done|]. split; [done|]. intros _. left. by rewrite (aside_journal _ _ Ha2).
Qed.

(** Nothing else changes the journal than closing a record for an observation of it. *)
Definition closes (l : list EndpointTransactionEvidence) (y y' : Sys) : Prop :=
  exists new, closed_by l (c_journal (y_ctl y)) (c_journal (y_ctl y')) new.

Lemma closes_nothing l y y' : c_journal (y_ctl y') = c_journal (y_ctl y) -> closes l y y'.
Proof. intros Hj. exists []. rewrite Hj. intros id r Hr. left. split; [by intros ?%elem_of_nil|done]. Qed.

Lemma clear_any_quiet P l y fs : quiet calm (fun _ => True) P (clear_any_in_flight l) y fs (fun _ y' => same_rows y y').
Proof.
  assert (forall y1, quietly y y1 -> cwp P (clear_any_in_flight l) (fun _ y' f => f = fs /\ quietly y y') y1 fs) as Hgen.
  { induction l as [|id l IH]; intros y1 Hq; cbn [clear_any_in_flight]; [by cstep|]. cstep.
    eapply quietly_use; [apply clear_in_flight_quiet|exact Hq|]. intros b y2 Hq2. destruct b; [by cstep|]. by apply IH. }
  eapply cwp_mono; [by apply Hgen|]. by intros b y' f (-> & [? ?]).
Qed.

Lemma good_view P g y1 y0 y fs (Q : unit -> Sys -> FsState -> Prop) :
  (forall s, view (g s) = view s) -> quietly y1 y -> good y0 y fs ->
  (forall y', quietly y1 y' -> good y0 y' fs -> Q tt y' fs) -> cwp P (mod_state g) Q y fs.
Proof.
  intros Hv [Ha Hs] Hg HQ. eapply (good_quiet _ _ _ _ _ (fun _ y' => same_rows y y')); [|exact Hg|].
  - eapply (view_step _ _ _ _ y); [exact Hv|done|]. by intros y' [? ?].
  - intros [] y' Hg' Ha' Hs'. apply HQ; [|done]. etrans; [by split|by split].
Qed.

Lemma reconcile_wp P generation l y fs :
  fine (y_ctl y) fs ->
  cwp P (reconcile_endpoint_observations generation l) (fun b y' f => good y y' f /\ closes l y y' /\
    (batch_conflict l = true -> c_journal (y_ctl y') = c_journal (y_ctl y) /\ b = false) /\
    (b = true -> on_disk (y_ctl y') f)) y fs.
Proof.
  intros Hf. pose proof (good_here _ _ Hf) as Hg. unfold reconcile_endpoint_observations. repeat cstep.
  destruct (negb _); [cstep; split; [done|]; split; [by apply closes_nothing|done]|].
  assert (forall y1 e, good y y1 fs -> c_journal (y_ctl y1) = c_journal (y_ctl y) ->
    cwp P (mod_state (set_error e);; refresh_journal_policy;; mret false) (fun b y' f => good y y' f /\ closes l y y' /\
      (batch_conflict l = true -> c_journal (y_ctl y') = c_journal (y_ctl y) /\ b = false) /\ (b = true -> on_disk (y_ctl y') f)) y1 fs) as Hconf.
  { intros y1 e Hg1 Hj1. cstep. eapply good_update; [intros; split; vm_compute; reflexivity|exact Hg1|]. intros Hg2 Ha2.
    eapply refresh_answer; [exact Hg2|]. intros y3 Hg3 Ha3 _.
    assert (c_journal (y_ctl y3) = c_journal (y_ctl y)) as Hj3 by (rewrite (aside_journal _ _ Ha3), (aside_journal _ _ Ha2); done).
    split; [done|]. split; [by apply closes_nothing|done]. }
  destruct (batch_conflict l) eqn:Eb; [by apply Hconf|]. repeat cstep. apply cwp_pure.
  destruct (observe_all_total (c_journal (y_ctl y)) [] None l (proj2 Hf)) as (o & -> & Ho).
  destruct o as [[[j closed] status]|o].
  2:{ destruct o as [| | |what err]; [by apply Hconf..|]. cstep. eapply good_failed; [exact Hg|].
      intros y1 Hg1 _ Hj1. eapply refresh_answer; [exact Hg1|]. intros y2 Hg2 Ha2 _. split; [done|].
      split; [|done]. apply closes_nothing. by rewrite (aside_journal _ _ Ha2). }
  destruct Ho as (Hw & Hx & new & -> & Hcl). cbn [app]. unfold accept_observations. case_bool_decide as Hlen.
  { eapply refresh_answer; [exact Hg|]. intros y1 Hg1 Ha1 _. split; [done|]. split; [|done]. apply closes_nothing.
    by apply aside_journal. }
  cstep. eapply good_replace_journal; [exact Hg|done..|]. intros Hg1. cstep.
  eapply good_barrier; [exact Hg1|]. intros b y2 f2 Hg2 Hs2 Hd2.
  assert (forall y3, c_journal (y_ctl y3) = c_journal (y_ctl y2) -> closes l y y3) as Hcloses.
  { intros y3 Hj3. exists new. by rewrite Hj3, (saved_journal _ _ Hs2). }
  destruct b; cbn [negb].
  2:{ cstep. eapply good_quiet; [apply invalidate_quiet|exact Hg2|]. intros [] y3 Hg3 Ha3 _.
      eapply refresh_answer; [exact Hg3|]. intros y4 Hg4 Ha4 _. split; [done|]. split; [|done]. apply Hcloses.
      by rewrite (aside_journal _ _ Ha4), (aside_journal _ _ Ha3). }
  cstep. eapply good_quiet; [apply invalidate_quiet|exact Hg2|]. intros [] y3 Hg3 Ha3 Hs3. cstep.
  eapply (good_view _ _ y2); [intros s; by destruct (is_conflict_error _)|done|exact Hg3|].
  clear y3 Hg3 Ha3 Hs3. intros y3 Hq3 Hg3. cstep.
  eapply good_quiet; [apply clear_any_quiet|exact Hg3|]. intros b y4 Hg4 Ha4 Hs4. cstep.
  assert (quietly y2 y4) as Hq4 by (etrans; [exact Hq3|by split]).
  assert (cwp P (if b then clear_broadcast_send_form else mret ()) (fun _ y5 f5 => f5 = f2 /\ quietly y2 y5 /\ good y y5 f5) y4 f2) as Hc.
  { destruct b; [|by cstep]. eapply good_quiet; [apply clear_form_quiet|exact Hg4|]. intros [] y5 Hg5 Ha5 Hs5.
    split; [done|]. split; [|done]. etrans; [exact Hq4|by split]. }
  eapply cwp_mono; [exact Hc|]. intros [] y5 f5 (-> & Hq5 & Hg5). cstep.
  eapply (good_view _ _ y2); [|exact Hq5|exact Hg5|].
  { intros s. destruct status; [|done]. by destruct (b || _). }
  intros y6 Hq6 Hg6. eapply refresh_answer; [exact Hg6|]. intros y7 Hg7 Ha7 Hw7. split; [done|].
  split; [|split; [done|]].
  - apply Hcloses. rewrite (aside_journal _ _ Ha7). apply aside_journal. by destruct Hq6.
  - intros _. destruct Hq6 as [Ha6 Hs6]. apply (aside_on_disk y2); [etrans; [exact Ha6|exact Ha7]| |by apply Hd2].
    rewrite Hw7. by apply same_rows_written.
Qed.
End closing_handlers.

(** ** The wallet's own replay guard *)
Section guard.
Context `{Sha256} `{VaultPrims} `{TempfileLaws} `{WalletCodec} `{AddressesReturn} `{CallsReturn}.
Local Notation cwp P := (cwp calm (fun _ => True) P).

(** The one send that waits for the guard is confirmed, and the wallet read from the chain has
    a guard as new as the message. *)
Definition guard_confirmed (y y' : Sys) : Prop :=
  exists id sent_ms r snapshot,
    se_awaiting_replay (c_session (y_ctl y)) = Some (id, sent_ms) /\
    s_wallet (c_state (y_ctl y)) = Some snapshot /\ 0 < sent_ms <= ws_last_message_ms snapshot /\
    env_record (c_journal (y_ctl y)) id = Some r /\ blocks r = true /\
    appended_to (c_journal (y_ctl y)) (c_journal (y_ctl y')) id
      (VerifiedTerminal Success (replay_proof r sent_ms (ws_last_trans_lt snapshot))).

Lemma blocking_total j r : journal_wf j -> r ∈ env_records j -> @is_blocking Empty_set r = Ok (blocks r).
Proof. intros Hj Hr. destruct (wf_latest j r Hj Hr) as (ev & _ & _ & _ & Hb). apply Hb. Qed.

Lemma replay_wp P y fs :
  fine (y_ctl y) fs ->
  cwp P reconcile_from_replay_guard (fun _ y' f => good y y' f /\
    (c_journal (y_ctl y') = c_journal (y_ctl y) \/ guard_confirmed y y')) y fs.
Proof.
  intros Hf. pose proof (good_here _ _ Hf) as Hg. unfold reconcile_from_replay_guard. repeat cstep.
  destruct (se_awaiting_replay _) as [[id sent_ms]|] eqn:Ew; [|cstep; split; [done|by left]]. repeat cstep.
  assert (cwp P drop_awaiting_replay (fun _ y' f => good y y' f /\ (c_journal (y_ctl y') = c_journal (y_ctl y) \/ guard_confirmed y y')) y fs) as Hdrop.
  { unfold drop_awaiting_replay. eapply good_update; [intros; split; vm_compute; reflexivity|exact Hg|]. intros Hg1 Ha1.
    split; [done|]. left. by apply aside_journal. }
  destruct (env_record _ id) as [r|] eqn:Er; [|exact Hdrop]. destruct (record_in _ _ _ Er) as [Hin Hid].
  repeat cstep. apply cwp_pure. rewrite (blocking_total _ _ (proj2 Hf) Hin). destruct (blocks r) eqn:Eb; cbn [negb]; [|exact Hdrop].
  repeat cstep. destruct (s_wallet _) as [snapshot|] eqn:Es; [|cstep; split; [done|by left]].
  destruct ((sent_ms =? 0) || _) eqn:Ec; [cstep; split; [done|by left]|].
  apply orb_false_iff in Ec as [E0%N.eqb_neq E1%N.ltb_ge]. unfold confirm_replay. cstep.
  eapply (good_append _ _ _ y); [done|]. intros j out Ha Hp Hg1. destruct out as [[]|err|]; [| |done].
  2:{ eapply good_failed; [exact Hg1|]. intros y2 Hg2 _ Hj2. split; [done|]. left. rewrite Hj2.
      destruct (append_delivery_effect _ _ _ _ _ Ha) as [[? _]|[-> _]]; done. }
  pose proof (append_appended _ _ _ _ (proj2 Hf) Ha) as Hap.
  assert (forall y', c_journal (y_ctl y') = j -> guard_confirmed y y') as Hconf.
  { intros y' Hj'. exists id, sent_ms, r, snapshot. rewrite Hj'. split_and!; try done. lia. }
  cstep. unfold drop_awaiting_replay. eapply good_update; [intros; split; vm_compute; reflexivity|exact Hg1|]. intros Hg2 Ha2. cstep.
  eapply good_barrier; [exact Hg2|]. intros b y3 f3 Hg3 Hs3 _. cstep.
  assert (c_journal (y_ctl y3) = j) as Hj3 by (rewrite (saved_journal _ _ Hs3), (aside_journal _ _ Ha2); done).
  eapply good_quiet; [apply invalidate_quiet|exact Hg3|]. intros [] y4 Hg4 Ha4 _.
  assert (c_journal (y_ctl y4) = j) as Hj4 by (by rewrite (aside_journal _ _ Ha4)).
  assert (forall y5, good y y5 f3 -> c_journal (y_ctl y5) = j -> cwp P refresh_journal_policy (fun _ y' f => good y y' f /\
    (c_journal (y_ctl y') = c_journal (y_ctl y) \/ guard_confirmed y y')) y5 f3) as Hend.
  { intros y5 Hg5 Hj5. eapply cwp_mono; [by eapply good_refresh|]. intros [] y6 f6 (-> & Hg6 & Ha6 & _). split; [done|].
    right. apply Hconf. by rewrite (aside_journal _ _ Ha6). }
  destruct b; cbn [negb]; [|by apply Hend]. cstep.
  eapply good_quiet; [apply clear_in_flight_quiet|exact Hg4|]. intros b y5 Hg5 Ha5 _. cstep.
  assert (cwp P (if b then clear_broadcast_send_form else mret ()) (fun _ y6 f6 => f6 = f3 /\ good y y6 f6 /\ c_journal (y_ctl y6) = j) y5 f3) as Hc.
  { assert (c_journal (y_ctl y5) = j) as Hj5 by (by rewrite (aside_journal _ _ Ha5)). destruct b; [|by cstep].
    eapply good_quiet; [apply clear_form_quiet|exact Hg5|]. intros [] y6 Hg6 Ha6 _. by rewrite (aside_journal _ _ Ha6). }
  eapply cwp_mono; [exact Hc|]. intros [] y6 f6 (-> & Hg6 & Hj6). cstep.
  eapply good_quiet; [by apply settle_optimistic_row_quiet|exact Hg6|]. intros [] y7 Hg7 Ha7 _. cstep.
  eapply good_update; [intros; split; vm_compute; reflexivity|exact Hg7|]. intros Hg8 Ha8. apply Hend; [done|].
  by rewrite (aside_journal _ _ Ha8), (aside_journal _ _ Ha7).
Qed.

Lemma announcement_wp P y fs :
  fine (y_ctl y) fs -> cwp P end_waits_on_announcement (fun _ y' f => good y y' f) y fs.
Proof.
  intros Hf. pose proof (good_here _ _ Hf) as Hg. unfold end_waits_on_announcement, confirm_in_flight_from_announcement.
  assert (forall y1, good y y1 fs -> cwp P end_external_waits (fun _ y' f => good y y' f) y1 fs) as Hend.
  { intros y1 Hg1. eapply good_quiet; [apply end_external_waits_quiet|exact Hg1|]. by intros. }
  repeat cstep. destruct (se_awaiting_replay _) as [[id sent_ms]|]; [|cstep; by apply Hend]. repeat cstep.
  destruct (env_record _ id) as [r|] eqn:Er; [|cstep; by apply Hend]. destruct (record_in _ _ _ Er) as [Hin _].
  repeat cstep. apply cwp_pure. rewrite (blocking_total _ _ (proj2 Hf) Hin). destruct (blocks r); cbn [negb]; [|cstep; by apply Hend].
  eapply good_quiet; [by apply settle_optimistic_row_quiet|exact Hg|]. intros [] y1 Hg1 _ _. by apply Hend.
Qed.

Lemma poll_wp P t y fs :
  fine (y_ctl y) fs -> cwp P (poll_journal_reconciliation t) (fun _ y' f => good y y' f) y fs.
Proof.
  intros Hf. pose proof (good_here _ _ Hf) as Hg. unfold poll_journal_reconciliation. cstep.
  eapply good_quiet; [eapply awaits_quiet, Hf|exact Hg|]. intros b y1 Hg1 _ _. destruct (negb b).
  { eapply good_quiet; [apply reset_quiet|exact Hg1|]. by intros. }
  repeat cstep. destruct (lr_fetch_in_flight _ || _); repeat cstep; [done|].
  eapply good_quiet; [by apply fetch_quiet|exact Hg1|]. intros [] y2 Hg2 _ _. cstep.
  eapply good_update; [intros; split; vm_compute; reflexivity|exact Hg2|]. intros Hg3 _.
  eapply good_update; [intros; split; vm_compute; reflexivity|exact Hg3|]. by intros Hg4 _.
Qed.
End guard.

(** ** Everything that happens to a send *)

(** The calls of the event loop, with what the chain service answered. *)
Inductive SendStep :=
| StepPrepared (generation : N) (digest : Digest32) (risk_grant_required : bool) (p : PreparedChainSend)
| StepOutcome (generation : N) (p : PreparedChainSend) (candidate_index : N) (outcome : CandidateBroadcastOutcome)
| StepRecover
| StepObserved (generation : N) (observations : list EndpointTransactionEvidence)
| StepAnnounced
| StepGuard
| StepPoll (now : N).

(** Prepared sends are what their constructors let through. *)
Definition wf_send_step (s : SendStep) : Prop :=
  match s with StepPrepared _ _ _ p => wf_prepared (ps_prepared_record p) | _ => True end.

Section steps.
Context `{Sha256} `{VaultPrims} `{Tempfile} `{WalletCodec} `{StdAddrLib} `{ChainService}.

Definition send_step (s : SendStep) : Ctl unit :=
  match s with
  | StepPrepared generation digest required p => apply_prepared_send generation digest required p
  | StepOutcome generation p candidate_index outcome => apply_candidate_outcome generation p candidate_index outcome
  | StepRecover => recover_restored_delivery_state;; mret tt
  | StepObserved generation observations => reconcile_endpoint_observations generation observations;; mret tt
  | StepAnnounced => end_waits_on_announcement
  | StepGuard => reconcile_from_replay_guard
  | StepPoll now => poll_journal_reconciliation now
  end.

Fixpoint send_steps (l : list SendStep) : Ctl unit :=
  match l with [] => mret tt | s :: l => send_step s;; send_steps l end.
End steps.

(** The attempts that were broadcast: the record and the number of the route. *)
Definition attempts_of (l : list Task) : list (RecordId * N) :=
  omap (fun t => match t with TaskBroadcast _ p i => Some (ps_record_id p, i) | _ => None end) l.

Section sequences.
Context `{Sha256} `{VaultPrims} `{TempfileLaws} `{WalletCodec} `{AddressesReturn} `{CallsReturn}.
Local Notation cwp P := (cwp calm (fun _ => True) P).

(** One step: what it broadcast, if anything, has its attempt on the disk, a number of its own
    and a route left. *)
Lemma send_step_wp s y fs :
  fine (y_ctl y) fs -> wf_send_step s ->
  cwp (u64_max <= c_pending_seq (y_ctl y)) (send_step s) (fun _ y' f => delivers y y' f (fun g p i =>
    g = c_session_generation (y_ctl y))) y fs.
Proof.
  intros Hf Hs. destruct s as [g d required p|g p i outcome| |g l| | |t]; cbn [send_step].
  - eapply cwp_mono; [by apply apply_prepared_wp|]. intros [] y' f (Hf' & Hx & Hd). split; [done|]. split; [done|].
    destruct Hd as [?|(g' & p' & i' & Hd & -> & -> & -> & Hgen & _)]; [by left|right]. by exists g, p, 0.
  - eapply cwp_mono; [by apply apply_outcome_wp|]. intros [] y' f (Hf' & Hx & Hd). split; [done|]. split; [done|].
    destruct Hd as [?|(g' & p' & i' & Hd & -> & -> & -> & Hgen & _)]; [by left|right]. by exists g, p, (i + 1).
  - cstep. eapply cwp_mono; [by apply recover_wp|]. intros b y' f (Hg & _). cstep. by apply good_delivers.
  - cstep. eapply cwp_mono; [by apply reconcile_wp|]. intros b y' f (Hg & _). cstep. by apply good_delivers.
  - eapply cwp_mono; [by apply announcement_wp|]. intros b y' f Hg. by apply good_delivers.
  - eapply cwp_mono; [by apply replay_wp|]. intros b y' f (Hg & _). by apply good_delivers.
  - eapply cwp_mono; [by apply poll_wp|]. intros b y' f Hg. by apply good_delivers.
Qed.

(** The journal knows of every attempt that was broadcast. *)
Definition attempts_known (y : Sys) : Prop :=
  NoDup (attempts_of (y_tasks y)) /\
  forall id i, (id, i) ∈ attempts_of (y_tasks y) ->
    exists r route, env_record (c_journal (y_ctl y)) id = Some r /\
                    AttemptStarted (i + 1) route ∈ de_evidence <$> rec_delivery_events r.

Lemma attempts_of_app l k : attempts_of (l ++ k) = attempts_of l ++ attempts_of k.
Proof. apply omap_app. Qed.

Lemma attempts_of_quiet l : Forall (fun t => is_broadcast t = false) l -> attempts_of l = [].
Proof. induction 1 as [|t l Ht _ IH]; [done|]. cbn. destruct t; try done; apply IH. Qed.

Lemma known_extends y y' :
  extends (c_journal (y_ctl y)) (c_journal (y_ctl y')) -> attempts_known y -> attempts_of (y_tasks y') = attempts_of (y_tasks y) ->
  attempts_known y'.
Proof.
  intros Hx [Hn Hk] Ht. unfold attempts_known. rewrite Ht. split; [done|]. intros id i Hi.
  destruct (Hk id i Hi) as (r & route & Hr & He). destruct (extends_record _ _ _ _ Hx Hr) as (k & Hr').
  exists (with_events r (rec_delivery_events r ++ k)), route. split; [done|]. cbn. rewrite fmap_app, elem_of_app. by left.
Qed.

Lemma latest_in r ev : @latest_evidence Empty_set r = Ok ev -> ev ∈ de_evidence <$> rec_delivery_events r.
Proof.
  unfold latest_evidence. destruct (last (rec_delivery_events r)) as [e|] eqn:E; [|done]. cbn. intros [= <-].
  apply list_elem_of_fmap_2. apply last_Some in E as (l & ->). apply elem_of_app. right. by left.
Qed.

Lemma delivers_known y y' f Q : delivers y y' f Q -> attempts_known y -> attempts_known y'.
Proof.
  intros (Hf & Hx & Hd) Hk. destruct Hd as [(l & Ht & Hq)|(g & p & i & (y1 & [(l & Ht & Hq) _] & Ht' & Hn & _ & Hr & _) & _)].
  - apply (known_extends y); [done|done|]. by rewrite Ht, attempts_of_app, (attempts_of_quiet _ Hq), app_nil_r.
  - rewrite Ht in Ht'. assert (attempts_of (y_tasks y') = attempts_of (y_tasks y) ++ [(ps_record_id p, i)]) as Ha.
    { rewrite Ht', !attempts_of_app, (attempts_of_quiet _ Hq), app_nil_r. done. }
    destruct Hr as (r & Hr & Hl). apply latest_in in Hl. split.
    + rewrite Ha. apply NoDup_app. split; [apply Hk|]. split; [|apply NoDup_singleton].
      intros [id i'] Hin [= -> ->]%list_elem_of_singleton. destruct Hk as [_ Hk]. destruct (Hk _ _ Hin) as (r0 & route & Hr0 & He).
      by apply (Hn r0 route Hr0).
    + intros id i'. rewrite Ha, elem_of_app. intros [Hin|[= -> ->]%list_elem_of_singleton]; [|by eauto].
      destruct Hk as [_ Hk]. destruct (Hk _ _ Hin) as (r0 & route & Hr0 & He). destruct (extends_record _ _ _ _ Hx Hr0) as (k & Hr').
      exists (with_events r0 (rec_delivery_events r0 ++ k)), route. split; [done|]. cbn. rewrite fmap_app, elem_of_app. by left.
Qed.

Lemma send_steps_wp l y fs :
  fine (y_ctl y) fs -> attempts_known y -> Forall wf_send_step l ->
  cwp True (send_steps l) (fun _ y' f => fine (y_ctl y') f /\ attempts_known y' /\
    extends (c_journal (y_ctl y)) (c_journal (y_ctl y'))) y fs.
Proof.
  revert y fs. induction l as [|s l IH]; intros y fs Hf Hk Hl; cbn [send_steps]; [cstep; split_and!; [done..|apply extends_refl]|].
  apply Forall_cons in Hl as [Hs Hl]. cstep. eapply cwp_panic_mono; [|eapply cwp_mono; [by apply send_step_wp|]]; [done|].
  intros [] y1 f1 Hd. pose proof (delivers_known _ _ _ _ Hd Hk) as Hk1. destruct Hd as (Hf1 & Hx1 & _).
  eapply cwp_mono; [by apply IH|]. intros [] y2 f2 (Hf2 & Hk2 & Hx2). split_and!; [done..|by eapply extends_trans].
Qed.
End sequences.

(** ** The guarantees *)
Section guarantees.
Context `{Sha256} `{VaultPrims} `{TempfileLaws} `{WalletCodec} `{AddressesReturn} `{CallsReturn}.
Local Notation cwp P := (cwp calm (fun _ => True) P).

(** C9: write-ahead: whatever step the event loop takes and whatever fails on the disk, at most
    one attempt is broadcast, and when it is, it is of the current session, there is a route for
    it, the last thing the journal says of its record is that this attempt has started, and the
    wallet's main file, safely on the disk, holds that journal.  The step panics only where the
    counter of pending rows is exhausted. *)
Theorem attempts_are_written_ahead (s : SendStep) (y : Sys) (fs : FsState)
    (Hf : fine (y_ctl y) fs) (Hs : wf_send_step s) :
  cwp (u64_max <= c_pending_seq (y_ctl y)) (send_step s) (fun _ y' f =>
    fine (y_ctl y') f /\ extends (c_journal (y_ctl y)) (c_journal (y_ctl y')) /\
    exists l, y_tasks y' = y_tasks y ++ l /\ (length (List.filter is_broadcast l) <= 1)%nat /\
      forall g p i, TaskBroadcast g p i ∈ l ->
        g = c_session_generation (y_ctl y) /\ i < ps_candidate_count p /\
        attempt_recorded (c_journal (y_ctl y')) p (i + 1) /\ on_disk (y_ctl y') f /\
        s_persistence_health (c_state (y_ctl y')) = Ready) y fs.
Proof.
  eapply cwp_mono; [by apply send_step_wp|]. intros [] y' f (Hf' & Hx & Hd). split; [done|]. split; [done|].
  assert (forall l : list Task, Forall (fun t => is_broadcast t = false) l -> List.filter is_broadcast l = []) as Hnone.
  { intros l Hl. apply filterb_none. by apply Forall_forall. }
  destruct Hd as [(l & Ht & Hl)|(g & p & i & (y1 & [(l & Ht & Hl) _] & Ht' & _ & Hi & Hr & Hd & Hh) & Hg)].
  - exists l. split; [done|]. rewrite Hnone by done. split; [cbn; lia|]. intros g p i Hin.
    rewrite Forall_forall in Hl. by apply Hl in Hin.
  - exists (l ++ [TaskBroadcast g p i]). split; [by rewrite Ht', Ht, app_assoc|].
    rewrite List.filter_app, Hnone by done. split; [cbn; lia|]. intros g' p' i'.
    rewrite elem_of_app. intros [Hin|[= -> -> ->]%list_elem_of_singleton]; [|done].
    rewrite Forall_forall in Hl. by apply Hl in Hin.
Qed.

(** C10: no attempt is made twice: over any sequence of steps, with whatever results, late or
    repeated, no route of a record is broadcast over more than once, and the journal only
    grows. *)
Theorem no_attempt_is_made_twice (l : list SendStep) (y : Sys) (fs : FsState)
    (Hf : fine (y_ctl y) fs) (Hn : attempts_of (y_tasks y) = []) (Hl : Forall wf_send_step l) :
  cwp True (send_steps l) (fun _ y' f => fine (y_ctl y') f /\ NoDup (attempts_of (y_tasks y')) /\
    extends (c_journal (y_ctl y)) (c_journal (y_ctl y'))) y fs.
Proof.
  eapply cwp_mono; [apply send_steps_wp; [done| |done]|].
  - split; rewrite Hn; [constructor|]. by intros id i ?%elem_of_nil.
  - by intros [] y' f (Hf' & [Hd _] & Hx).
Qed.

(** C11: another route is tried only after one that provably reached no socket: the result of
    an attempt leads to a broadcast only if it says nothing was transmitted and offers the
    next route, and only while the journal still has that attempt as the record's last. *)
Theorem retried_only_before_any_socket (generation : N) (p : PreparedChainSend) (candidate_index : N)
    (outcome : CandidateBroadcastOutcome) (y : Sys) (fs : FsState) (Hf : fine (y_ctl y) fs) :
  cwp False (apply_candidate_outcome generation p candidate_index outcome) (fun _ y' f =>
    fine (y_ctl y') f /\ exists l, y_tasks y' = y_tasks y ++ l /\
      forall g p' i, TaskBroadcast g p' i ∈ l ->
        p' = p /\ i = candidate_index + 1 /\ (exists detail, outcome = NotTransmitted detail true) /\
        attempt_recorded (c_journal (y_ctl y)) p (candidate_index + 1)) y fs.
Proof.
  eapply cwp_mono; [by apply apply_outcome_wp|]. intros [] y' f (Hf' & Hx & Hd). split; [done|].
  destruct Hd as [(l & Ht & Hl)|(g & p' & i & (y1 & [(l & Ht & Hl) _] & Ht' & _) & Hq)]; rewrite Forall_forall in Hl.
  - exists l. split; [done|]. intros g p' i Hin. by apply Hl in Hin.
  - exists (l ++ [TaskBroadcast g p' i]). split; [by rewrite Ht', Ht, app_assoc|]. intros g0 p0 i0.
    rewrite elem_of_app. intros [Hin|[= -> -> ->]%list_elem_of_singleton]; [by apply Hl in Hin|].
    destruct Hq as (_ & -> & -> & _ & ? & ?). done.
Qed.

(** C12: a restart leaves nothing under way: opening the wallet turns every record that was only
    prepared into one that was not broadcast, every started attempt into one that may have
    been, and every report into its verdict, and leaves the others; it answers yes only if
    that is what the disk holds.  Otherwise the journal is unchanged, or recovered but not
    saved. *)
Theorem restart_settles_every_record (y : Sys) (fs : FsState) (Hf : fine (y_ctl y) fs) :
  cwp False recover_restored_delivery_state (fun saved y' f =>
    fine (y_ctl y') f /\
    (exists l, y_tasks y' = y_tasks y ++ l /\ Forall (fun t => is_broadcast t = false) l) /\
    (saved = true -> recovered (c_journal (y_ctl y)) (c_journal (y_ctl y')) /\
                     (c_journal (y_ctl y') = c_journal (y_ctl y) \/ on_disk (y_ctl y') f)) /\
    (saved = false -> c_journal (y_ctl y') = c_journal (y_ctl y) \/
                      recovered (c_journal (y_ctl y)) (c_journal (y_ctl y')))) y fs.
Proof.
  eapply cwp_mono; [by apply recover_wp|]. intros b y' f ([Hf' [Ht _]] & Hr). split; [done|]. split; [exact Ht|exact Hr].
Qed.

(** C13: a send is closed only by what was observed of it: whatever the endpoint reports, a
    record changes only if an observation of its message, from its sender and the endpoint it
    was made for, is among them, and then its outcome is that observation's; a batch that
    contradicts itself changes nothing; and the answer is yes only once the disk holds it. *)
Theorem sends_close_as_observed (generation : N) (l : list EndpointTransactionEvidence) (y : Sys) (fs : FsState)
    (Hf : fine (y_ctl y) fs) :
  cwp False (reconcile_endpoint_observations generation l) (fun b y' f =>
    fine (y_ctl y') f /\
    (exists new, closed_by l (c_journal (y_ctl y)) (c_journal (y_ctl y')) new) /\
    (batch_conflict l = true -> c_journal (y_ctl y') = c_journal (y_ctl y) /\ b = false) /\
    (b = true -> on_disk (y_ctl y') f)) y fs.
Proof. eapply cwp_mono; [by apply reconcile_wp|]. by intros b y' f ([Hf' _] & Hc & Hb & Hd). Qed.

(** The replay guard confirms only what it covers: the journal changes only by a success of
    the one record that waits, and only if the wallet's own guard, as read from the chain, is
    as late as that record's message. *)
Lemma guard_confirms_what_it_covers (y : Sys) (fs : FsState) (Hf : fine (y_ctl y) fs) :
  cwp False reconcile_from_replay_guard (fun _ y' f =>
    fine (y_ctl y') f /\ (c_journal (y_ctl y') = c_journal (y_ctl y) \/ guard_confirmed y y')) y fs.
Proof. eapply cwp_mono; [by apply replay_wp|]. by intros [] y' f ([Hf' _] & Hg). Qed.
End guarantees.

(** ** At work *)
Definition demo_chain : ChainService := {|
  derive_wallet_address _ := Ok demo_dest;
  storage_address_for _ := Ok demo_dest;
  open_conversation _ _ _ sealed := Ok (repeat None (length sealed));
  canonical_endpoint e := Ok e;
  seed_phrase_is_valid _ := true
|}.

Lemma demo_calls_return : @CallsReturn demo_chain.
Proof. by split. Qed.

Lemma toy_addresses_return : @AddressesReturn toy_stdaddr.
Proof.
  split. intros a. cbn. destruct (split_once _ _) as [[w h]|]; [|done]. destruct (parse_i8 w); [|done].
  by destruct (from_hex h).
Qed.

Definition demo_send (id : RecordId) : PreparedChainSend := mkPreparedSend (demo_prepared id) 7 2.
Definition demo_observation : EndpointTransactionEvidence :=
  {| tx_source_endpoint := bs "http://node/"; tx_request_id := bs "r"; tx_sender_address := demo_dest;
     tx_tx_hash := pad32 [Byte.x42]; tx_ext_msg_hash := pad32 [Byte.x99]; tx_lt := 5; tx_success := true;
     tx_exit_code := 0; tx_effects := [] |}.

Lemma demo_prepared_wf id : wf_prepared (demo_prepared id).
Proof. split; [apply demo_ticket_wf|]. split; repeat constructor; by vm_compute. Qed.

Lemma demo_fine j :
  @env_validate toy_sha256 j = Ok tt -> Forall wf_send_record (env_records j) ->
  @fine toy_sha256 toy_serde demo_codec (y_ctl (with_journal j demo_sys)) empty_disk.
Proof.
  intros Hv Hw. split; [|by split]. eapply saves_ok_same; [exact demo_saves_ok|done..].
Qed.

Lemma demo_sending_fine : @fine toy_sha256 toy_serde demo_codec (y_ctl demo_sending) empty_disk.
Proof.
  apply demo_fine; [by vm_compute|]. constructor; [|constructor]. split; [apply demo_ticket_wf|].
  split; repeat constructor; by vm_compute.
Qed.

Lemma attempts_are_written_ahead_witness :
  cwp calm (fun _ => True) (u64_max <= c_pending_seq (y_ctl demo_sending))
    (@send_step toy_sha256 toy_prims toy_tempfile toy_serde demo_codec toy_stdaddr demo_chain
       (StepPrepared 0 (pad32 []) false (demo_send id_b))) (fun _ y' f =>
    @fine toy_sha256 toy_serde demo_codec (y_ctl y') f /\ extends (c_journal (y_ctl demo_sending)) (c_journal (y_ctl y')) /\
    exists l, y_tasks y' = y_tasks demo_sending ++ l /\ (length (List.filter is_broadcast l) <= 1)%nat /\
      forall g p i, TaskBroadcast g p i ∈ l ->
        g = c_session_generation (y_ctl demo_sending) /\ i < ps_candidate_count p /\
        attempt_recorded (c_journal (y_ctl y')) p (i + 1) /\ @on_disk toy_prims toy_serde demo_codec (y_ctl y') f /\
        s_persistence_health (c_state (y_ctl y')) = Ready) demo_sending empty_disk.
Proof.
  exact (@attempts_are_written_ahead toy_sha256 toy_prims toy_tempfile toy_tempfile_laws toy_serde demo_codec
           toy_stdaddr toy_addresses_return demo_chain demo_calls_return
           (StepPrepared 0 (pad32 []) false (demo_send id_b)) demo_sending empty_disk demo_sending_fine (demo_prepared_wf id_b)).
Defined.

Lemma no_attempt_is_made_twice_witness :
  cwp calm (fun _ => True) True
    (@send_steps toy_sha256 toy_prims toy_tempfile toy_serde demo_codec toy_stdaddr demo_chain
       [StepOutcome 0 (demo_send id_a) 0 (NotTransmitted (bs "refused") true); StepGuard; StepRecover]) (fun _ y' f =>
    @fine toy_sha256 toy_serde demo_codec (y_ctl y') f /\ NoDup (attempts_of (y_tasks y')) /\
    extends (c_journal (y_ctl demo_sending)) (c_journal (y_ctl y'))) demo_sending empty_disk.
Proof.
  apply (@no_attempt_is_made_twice toy_sha256 toy_prims toy_tempfile toy_tempfile_laws toy_serde demo_codec
           toy_stdaddr toy_addresses_return demo_chain demo_calls_return); [exact demo_sending_fine|reflexivity|].
  by repeat constructor.
Defined.

Lemma retried_only_before_any_socket_witness :
  cwp calm (fun _ => True) False
    (@apply_candidate_outcome toy_sha256 toy_prims toy_tempfile toy_serde demo_codec toy_stdaddr demo_chain
       0 (demo_send id_a) 0 (OutcomeMayHaveBroadcast (bs "reset"))) (fun _ y' f =>
    @fine toy_sha256 toy_serde demo_codec (y_ctl y') f /\ exists l, y_tasks y' = y_tasks demo_sending ++ l /\
      forall g p' i, TaskBroadcast g p' i ∈ l ->
        p' = demo_send id_a /\ i = 0 + 1 /\
        (exists detail, OutcomeMayHaveBroadcast (bs "reset") = NotTransmitted detail true) /\
        attempt_recorded (c_journal (y_ctl demo_sending)) (demo_send id_a) (0 + 1)) demo_sending empty_disk.
Proof.
  exact (@retried_only_before_any_socket toy_sha256 toy_prims toy_tempfile toy_tempfile_laws toy_serde demo_codec
           toy_stdaddr toy_addresses_return demo_chain demo_calls_return
           0 (demo_send id_a) 0 (OutcomeMayHaveBroadcast (bs "reset")) demo_sending empty_disk demo_sending_fine).
Defined.

Lemma restart_settles_every_record_witness :
  cwp calm (fun _ => True) False
    (@recover_restored_delivery_state toy_sha256 toy_prims toy_tempfile toy_serde demo_codec) (fun saved y' f =>
    @fine toy_sha256 toy_serde demo_codec (y_ctl y') f /\
    (exists l, y_tasks y' = y_tasks demo_sending ++ l /\ Forall (fun t => is_broadcast t = false) l) /\
    (saved = true -> recovered (c_journal (y_ctl demo_sending)) (c_journal (y_ctl y')) /\
       (c_journal (y_ctl y') = c_journal (y_ctl demo_sending) \/ @on_disk toy_prims toy_serde demo_codec (y_ctl y') f)) /\
    (saved = false -> c_journal (y_ctl y') = c_journal (y_ctl demo_sending) \/
                      recovered (c_journal (y_ctl demo_sending)) (c_journal (y_ctl y')))) demo_sending empty_disk.
Proof.
  exact (@restart_settles_every_record toy_sha256 toy_prims toy_tempfile toy_tempfile_laws toy_serde demo_codec
           demo_sending empty_disk demo_sending_fine).
Defined.

Lemma sends_close_as_observed_witness :
  cwp calm (fun _ => True) False
    (@reconcile_endpoint_observations toy_sha256 toy_prims toy_tempfile toy_serde demo_codec 0 [demo_observation]) (fun b y' f =>
    @fine toy_sha256 toy_serde demo_codec (y_ctl y') f /\
    (exists new, closed_by [demo_observation] (c_journal (y_ctl demo_sending)) (c_journal (y_ctl y')) new) /\
    (batch_conflict [demo_observation] = true -> c_journal (y_ctl y') = c_journal (y_ctl demo_sending) /\ b = false) /\
    (b = true -> @on_disk toy_prims toy_serde demo_codec (y_ctl y') f)) demo_sending empty_disk.
Proof.
  exact (@sends_close_as_observed toy_sha256 toy_prims toy_tempfile toy_tempfile_laws toy_serde demo_codec
           0 [demo_observation] demo_sending empty_disk demo_sending_fine).
Defined.

Lemma guard_confirms_what_it_covers_witness :
  cwp calm (fun _ => True) False
    (@reconcile_from_replay_guard toy_sha256 toy_prims toy_tempfile toy_serde demo_codec demo_chain) (fun _ y' f =>
    @fine toy_sha256 toy_serde demo_codec (y_ctl y') f /\
    (c_journal (y_ctl y') = c_journal (y_ctl demo_sending) \/ @guard_confirmed toy_sha256 demo_sending y')) demo_sending empty_disk.
Proof.
  exact (@guard_confirms_what_it_covers toy_sha256 toy_prims toy_tempfile toy_tempfile_laws toy_serde demo_codec
           demo_chain demo_calls_return demo_sending empty_disk demo_sending_fine).
Defined.

