(* ===== verification/Names.v ===== *)
(** * Names of wallets

    crates/cc-wallet-app/src/controller/mod.rs: [sanitize_wallet_name], [wallet_storage_id],
    [wallet_entries_in], [is_reserved_wallet_name].  What the user types becomes a display
    name, and that the name of a file.  Strings are well-formed UTF-8, as in Rust; the
    Unicode tables of the standard library are a parameter. *)

From Stdlib Require Import NArith Lia.
From S2P Require Import Prelude Ord Bytes Text Vault Fs Wallets.

(** ** Characters *)

(** [str::chars]: each as its bytes.  A character has at least one byte, so the length of the
    text is fuel enough. *)
Fixpoint chars_go (fuel : nat) (s : bytes) : list bytes :=
  match fuel, s with
  | S fuel, a :: _ => take (lead_width a) s :: chars_go fuel (drop (lead_width a) s)
  | _, _ => []
  end.
Definition chars (s : bytes) : list bytes := chars_go (length s) s.

(** [char::is_whitespace]. *)
Definition is_whitespace (c : bytes) : bool :=
  match c with
  | [a] => ws1 a
  | [a; b] => ws2 a b
  | [a; b; c] => ws3 a b c
  | _ => false
  end.

Definition ascii_alphanumeric (b : byte) : bool :=
  is_ascii_digit b || ((65 <=? u8 b) && (u8 b <=? 90)) || ((97 <=? u8 b) && (u8 b <=? 122)).

(** [char::to_lowercase] and [char::is_alphanumeric]. *)
Class Unicode := {
  to_lowercase : bytes -> list bytes;
  is_alphanumeric : bytes -> bool
}.

(** What is known of them: they map characters to characters, no control is alphanumeric,
    and in ASCII they are the usual ones. *)
Class UnicodeLaws `{Unicode} : Prop := {
  lowercase_chars c : utf8_char c = true -> Forall (fun c => utf8_char c = true) (to_lowercase c);
  alphanumeric_no_control c : is_alphanumeric c = true -> has_control c = false;
  alphanumeric_ascii b : is_alphanumeric [b] = true -> u8 b < 128 -> ascii_alphanumeric b = true
}.

(** ** Display names *)
Definition MAX_CHARS : nat := 48.

Definition forbidden (c : bytes) : bool :=
  has_control c || existsb (fun b => bool_decide (c = [b])) [Byte.x2f; Byte.x5c; Byte.x3a; Byte.x2a; Byte.x3f; Byte.x22; Byte.x3c; Byte.x3e; Byte.x7c].

(** The loop: what was kept, a character each, and whether that ends in a space put there. *)
Fixpoint sanitize_chars (l : list bytes) (out : list bytes) (prev_space : bool) : list bytes :=
  match l with
  | [] => out
  | ch :: l =>
      if forbidden ch then sanitize_chars l out prev_space else
      if is_whitespace ch then
        if prev_space || bool_decide (out = []) then sanitize_chars l out prev_space
        else sanitize_chars l (out ++ [bs " "]) true
      else if (MAX_CHARS <=? length out)%nat then out
      else sanitize_chars l (out ++ [ch]) false
  end.

(** [while out.ends_with(' ') || out.ends_with('.') { out.pop(); }], from the end. *)
Fixpoint pop_ends (reversed : list bytes) : list bytes :=
  match reversed with
  | ch :: l => if bool_decide (ch = bs " ") || bool_decide (ch = bs ".") then pop_ends l else reversed
  | [] => []
  end.

Definition sanitize_wallet_name (name : bytes) : bytes :=
  mjoin (rev (pop_ends (rev (sanitize_chars (chars (trim name)) [] false)))).

(** ** Names of files *)
Section names.
Context `{Unicode}.

(** The loop over the lower-case characters: what was kept, and whether a separator is due. *)
Fixpoint storage_chars (l : list bytes) (out : list bytes) (separator_pending : bool) : list bytes :=
  match l with
  | [] => out
  | ch :: l =>
      if is_alphanumeric ch then
        let out := if separator_pending && negb (bool_decide (out = [])) && (length out + 1 <? MAX_CHARS)%nat
                   then out ++ [bs "-"] else out in
        if (MAX_CHARS <=? length out)%nat then out
        else storage_chars l (out ++ [ch]) false
      else storage_chars l out (separator_pending || negb (bool_decide (out = [])))
  end.

Definition wallet_storage_id (display_name : bytes) : bytes :=
  mjoin (storage_chars (mjoin (to_lowercase <$> chars display_name)) [] false).

(** [str::to_lowercase] compares as over ASCII here: none of the reserved names has a letter
    that is the lower case of a character outside ASCII. *)
Definition is_reserved_wallet_name (name : bytes) : bool :=
  let lower := ascii_lower <$> name in
  if bool_decide (lower = bs "history") || ends_with (bs ".history") lower || contains (bs "." ++ WALLET_EXT) lower
  then true else
  let base := match split_on Byte.x2e lower with base :: _ => base | [] => lower end in
  existsb (fun reserved => bool_decide (base = reserved)) [bs "con"; bs "prn"; bs "aux"; bs "nul"]
  || ((length base =? 4)%nat && (starts_with (bs "com") base || starts_with (bs "lpt") base)
      && match base !! 3%nat with Some b => (49 <=? u8 b) && (u8 b <=? 57) | None => false end).

(** A listing whose display name would not have led to its file shows the name of the file. *)
Definition honest_listing (entry : WalletListing) : WalletListing :=
  if negb (bool_decide (wallet_storage_id (display_name entry) = storage_id entry))
  then mkListing (storage_id entry) (storage_id entry) else entry.

Definition wallet_entries_in (dir : bytes) : IO VaultStoreError (list WalletListing) :=
  let! entries := list_wallet_entries dir in io_ret (Ok (honest_listing <$> entries)).
End names.

(** ** What a storage id is *)
Lemma chars_go_app fuel c s :
  utf8_char c = true -> chars_go (S fuel) (c ++ s) = c :: chars_go fuel s.
Proof.
  intros Hc. destruct (utf8_char_shape c Hc) as (a & t & -> & _ & _). pose proof (utf8_char_width a t Hc) as Hw.
  cbn [app chars_go]. rewrite <- Hw. cbn [take drop]. by rewrite take_app_length, drop_app_length.
Qed.

Lemma mjoin_cons (c : bytes) (l : list bytes) : mjoin (c :: l) = c ++ mjoin l.
Proof. done. Qed.

Lemma chars_go_utf8 fuel s :
  utf8 s -> (length s <= fuel)%nat -> mjoin (chars_go fuel s) = s /\ Forall (fun c => utf8_char c = true) (chars_go fuel s).
Proof.
  intros Hs. revert fuel. induction Hs as [|c s Hc Hs IH]; intros fuel Hf; [destruct fuel; by split|].
  assert (1 <= length c)%nat as Hl by (destruct (utf8_char_shape c Hc) as (a & t & -> & _ & _); cbn; lia).
  rewrite length_app in Hf. destruct fuel as [|fuel]; [lia|]. rewrite chars_go_app by done.
  destruct (IH fuel) as [Hj Hall]; [lia|]. rewrite mjoin_cons, Hj. split; [done|by constructor].
Qed.

Lemma chars_utf8 s : utf8 s -> mjoin (chars s) = s /\ Forall (fun c => utf8_char c = true) (chars s).
Proof. intros Hs. by apply chars_go_utf8. Qed.

Section ids.
Context `{UnicodeLaws}.

(** The characters of a storage id. *)
Definition id_char (c : bytes) : Prop := c = bs "-" \/ (is_alphanumeric c = true /\ utf8_char c = true).

Lemma storage_chars_spec l out pending :
  Forall (fun c => utf8_char c = true) l -> Forall id_char out -> (length out <= MAX_CHARS)%nat ->
  Forall id_char (storage_chars l out pending) /\ (length (storage_chars l out pending) <= MAX_CHARS)%nat.
Proof.
  intros Hl. revert out pending. induction Hl as [|c l Hc Hl IH]; intros out pending Ho Hn; [done|]. unfold storage_chars; fold storage_chars.
  destruct (is_alphanumeric c) eqn:Ha; [|by apply IH]. cbv zeta. set (out' := if pending && _ && _ then _ else out).
  assert (Forall id_char out' /\ (length out' <= MAX_CHARS)%nat) as [Ho' Hn'].
  { unfold out'. destruct (_ && (length out + 1 <? MAX_CHARS)%nat) eqn:E; [|done].
    apply andb_true_iff in E as [_ E%Nat.ltb_lt]. rewrite length_app. cbn [length]. split; [|lia].
    apply Forall_app. split; [done|]. apply Forall_cons. split; [by left|constructor]. }
  destruct (Nat.leb_spec MAX_CHARS (length out')) as [|Hlt]; [done|]. apply IH.
  - apply Forall_app. split; [done|]. constructor; [by right|done].
  - rewrite length_app. cbn [length]. lia.
Qed.

Lemma id_char_utf8 c : id_char c -> utf8_char c = true.
Proof. by intros [->|[_ Hc]]. Qed.

Lemma utf8_char_byte c b : utf8_char c = true -> b ∈ c -> u8 b < 128 -> c = [b].
Proof.
  unfold utf8_char, in_range, is_continuation. intros Hc Hb Hlt.
  destruct c as [|a [|b' [|c' [|d' [|]]]]]; try discriminate Hc; rewrite ?elem_of_cons, ?elem_of_nil in Hb; bprop;
    try lia; try (destruct_or! Hb; subst; try done; lia).
Qed.

Lemma id_char_byte c b : id_char c -> b ∈ c -> u8 b < 128 -> b = Byte.x2d \/ ascii_alphanumeric b = true.
Proof.
  intros Hc Hb Hlt. pose proof (utf8_char_byte c b (id_char_utf8 c Hc) Hb Hlt) as ->. destruct Hc as [[= ->]|[Ha _]]; [by left|].
  right. by apply alphanumeric_ascii.
Qed.

Lemma id_byte l b :
  Forall id_char l -> b ∈ mjoin l -> 128 <= u8 b \/ b = Byte.x2d \/ ascii_alphanumeric b = true.
Proof.
  intros Hl Hb. destruct (N.le_gt_cases 128 (u8 b)) as [|Hlt]; [by left|right].
  apply list_elem_of_join in Hb as (c & Hb & Hc). rewrite Forall_forall in Hl. eapply id_char_byte; [by apply Hl|done..].
Qed.

Lemma has_control_two a b s :
  has_control (a :: b :: s) = is_ascii_control a || ((u8 a =? 194) && (128 <=? u8 b) && (u8 b <=? 159)) || has_control (b :: s).
Proof. done. Qed.

Lemma has_control_one a s : u8 a <> 194 -> has_control (a :: s) = is_ascii_control a || has_control s.
Proof.
  intros Ha. destruct s as [|b s]; [by cbn; rewrite !orb_false_r|]. rewrite has_control_two.
  apply N.eqb_neq in Ha. by rewrite Ha, orb_false_r.
Qed.

Lemma has_control_char c s :
  utf8_char c = true -> has_control (c ++ s) = has_control c || has_control s.
Proof.
  intros Hc. destruct (utf8_char_shape c Hc) as (a & t & -> & _ & Ht). destruct t as [|b t].
  - cbn in Hc. apply N.ltb_lt in Hc. cbn [app]. rewrite !has_control_one by lia. by rewrite orb_false_r.
  - cbn [app]. rewrite !has_control_two, <- !orb_assoc. f_equal. f_equal. clear Hc a.
    change (b :: t ++ s) with ((b :: t) ++ s). revert Ht. generalize (b :: t). intros u Hu.
    induction Hu as [|x u Hx Hu IH].
    { done. }
    assert (u8 x <> 194) as Hx'.
    { unfold is_continuation in Hx. apply andb_true_iff in Hx as [_ Hx%N.ltb_lt]. lia. }
    cbn [app]. rewrite !has_control_one, IH by done. by rewrite orb_assoc.
Qed.

Lemma id_no_control l : Forall id_char l -> utf8 (mjoin l) /\ has_control (mjoin l) = false.
Proof.
  induction 1 as [|c l Hc Hl [IHu IHc]]; [by split; [constructor|]|]. rewrite mjoin_cons. pose proof (id_char_utf8 c Hc) as Hu.
  split; [by constructor|]. rewrite has_control_char, IHc by done. rewrite orb_false_r.
  destruct Hc as [->|[Ha _]]; [done|by apply alphanumeric_no_control].
Qed.

Lemma lower_dot b : ascii_lower b = Byte.x2e -> b = Byte.x2e.
Proof. destruct b; vm_compute; congruence. Qed.

Lemma storage_id_chars display :
  utf8 display -> exists l, wallet_storage_id display = mjoin l /\ Forall id_char l /\ (length l <= MAX_CHARS)%nat.
Proof.
  intros Hd. destruct (chars_utf8 _ Hd) as [_ Hc].
  assert (Forall (fun c => utf8_char c = true) (mjoin (to_lowercase <$> chars display))) as Hl.
  { apply Forall_forall. intros c Hin. apply list_elem_of_join in Hin as (k & Hck & Hk).
    apply list_elem_of_fmap in Hk as (x & -> & Hx). rewrite Forall_forall in Hc. pose proof (lowercase_chars x (Hc x Hx)) as Hall.
    rewrite Forall_forall in Hall. by apply Hall. }
  eexists. split; [reflexivity|]. apply storage_chars_spec; [done|constructor|cbn; lia].
Qed.

(** File names from display names: whatever text a wallet is named by, the name of its file
    has at most 48 characters and is either empty, which [create_wallet] refuses, or a valid
    wallet name: no path separator, no control character, no dot. *)
Lemma storage_ids_are_file_names (display : bytes) (Hd : utf8 display) :
  exists l, wallet_storage_id display = mjoin l /\ (length l <= 48)%nat /\ Forall (fun c => utf8_char c = true) l /\
    Byte.x2e ∉ wallet_storage_id display /\
    (wallet_storage_id display = [] \/ validate_wallet_name (wallet_storage_id display) = Ok tt).
Proof.
  destruct (storage_id_chars _ Hd) as (l & -> & Hl & Hn). exists l. split; [done|]. split; [done|].
  split; [eapply Forall_impl; [exact Hl|]; apply id_char_utf8|].
  assert (forall b, b ∈ mjoin l -> u8 b <> 47 /\ u8 b <> 92 /\ b <> Byte.x2e) as Hb.
  { intros b Hin. destruct (id_byte _ _ Hl Hin) as [Hge|[->|Ha]].
    - split_and!; [lia..|]. intros ->. cbn in Hge. lia.
    - by vm_compute.
    - revert Ha. by destruct b; vm_compute. }
  split; [intros Hin; by destruct (Hb _ Hin) as (_ & _ & ?)|].
  destruct (decide (mjoin l = [])) as [|Hne]; [by left|right]. destruct (id_no_control _ Hl) as [_ Hc].
  destruct (validate_wallet_name_cases (mjoin l)) as [[? _]|(r & Hr & Hv)]; [done|]. exfalso. apply Hv.
  split_and!; [done|..|done|].
  - intros E. destruct (Hb Byte.x2e) as (_ & _ & ?); [rewrite E; left|done].
  - intros E. destruct (Hb Byte.x2e) as (_ & _ & ?); [rewrite E; left|done].
  - intros b Hin. by destruct (Hb b Hin) as (? & ? & _).
  - intros (p & q & E). assert (Byte.x2e ∈ ascii_lower <$> mjoin l) as Hin.
    { rewrite E, !elem_of_app. right. left. left. }
    apply list_elem_of_fmap in Hin as (b & Hlow & Hin). symmetry in Hlow. apply lower_dot in Hlow as ->.
    by destruct (Hb _ Hin) as (_ & _ & ?).
Qed.
End ids.

(** ** At work *)
(** Only ASCII has letters here. *)
Definition toy_unicode : Unicode := {|
  to_lowercase c := match c with [b] => [[ascii_lower b]] | _ => [c] end;
  is_alphanumeric c := match c with [b] => ascii_alphanumeric b | _ => false end
|}.

Lemma toy_unicode_laws : @UnicodeLaws toy_unicode.
Proof.
  split; cbn.
  - intros [|b [|? ?]] Hc; (constructor; [|constructor]); [done| |done]. revert Hc. by destruct b; vm_compute.
  - intros [|b [|? ?]]; try done. by destruct b; vm_compute.
  - done.
Qed.

Example named : @wallet_storage_id toy_unicode (sanitize_wallet_name (bs "  My / wallet:  no. 1.. ")) = bs "my-wallet-no-1".
Proof. by vm_compute. Qed.
Example reserved : is_reserved_wallet_name (bs "COM7") && is_reserved_wallet_name (bs "a.history") = true.
Proof. by vm_compute. Qed.

Lemma storage_ids_are_file_names_witness :
  exists l, @wallet_storage_id toy_unicode (bs "My wallet") = mjoin l /\ (length l <= 48)%nat /\
    Forall (fun c => utf8_char c = true) l /\ Byte.x2e ∉ @wallet_storage_id toy_unicode (bs "My wallet") /\
    (@wallet_storage_id toy_unicode (bs "My wallet") = [] \/
     validate_wallet_name (@wallet_storage_id toy_unicode (bs "My wallet")) = Ok tt).
Proof.
  apply (@storage_ids_are_file_names toy_unicode toy_unicode_laws). by apply utf8_valid_iff; vm_compute.
Defined.
