(* ===== verification/Authorize.v ===== *)
(** * Authorizing a send

    crates/cc-wallet-app/src/controller/seed_auth.rs and wallet_ops.rs, with random_ids.rs: a
    send is put before the user as an authorization, which names one ticket; a password is
    checked on a thread of its own; and what was authorized is handed to the chain service to
    be prepared.  Fees and the recipient's account are asked for on the way. *)

From Stdlib Require Import NArith ZArith Lia.
From stdpp Require Import gmap.
From S2P Require Import Prelude Ord Bytes Text Decimal Ids Asset Amount Digest Affordability Send Profile Network.
From S2P Require Import Risk Journal Envelope Strict Authorization VaultKeys Vault Fs Atomic Wallets Writer.
From S2P Require Import ChainData Update AppState Controller Save Service Rows Policy.

(** ** Fresh identifiers (random_ids.rs) *)

(** What [getrandom::Error] is displayed as. *)
Class RandomError := { random_error : bytes }.

Definition random_bytes : Ctl (option bytes32) := fun y =>
  io_ret (match draw32 (y_entropy y) with
          | Ok (b, e) => Ok (Some b, y <| y_entropy := e |>)
          | Err _ => Ok (None, y)
          | Panic => Panic
          end).

Definition new_record_id : Ctl (option RecordId) := random_bytes.
Definition new_risk_nonce : Ctl (option RiskNonce) := random_bytes.
Definition new_auth_nonce : Ctl (option N) := raw ← random_bytes; mret ((fun b => of_le (take 8 (as_bytes b))) <$> raw).

(** ** The dialog *)
Definition mod_auth (f : AuthModal -> AuthModal) : Ctl unit := mod_state (fun s => s <| s_auth := f (s_auth s) |>).
Definition auth_error (error : bytes) : Ctl unit := mod_auth (fun a => a <| am_error := error |>).

Definition open_auth (purpose : AuthPurpose) : Ctl unit := mod_auth (fun _ => mkAuthModal true AuthEnter purpose false []).

Definition open_signing_auth (purpose : AuthPurpose) (send_options_editable : bool) : Ctl unit :=
  r ← now;
  mod_state (fun s => s <| s_auth :=
    mkAuthModal true (if within_autosign r s then AuthConfirm else AuthEnter) purpose send_options_editable [] |>).

Definition extend_autosign_now : Ctl unit := r ← now; mod_state (extend_autosign r).

Definition GATE_MSG_ACK : bytes := bs "Confirm the new-address option above to send to this account".
Definition GATE_MSG_FAILED : bytes := bs "Could not verify the recipient account — retrying, try again in a moment".
Definition GATE_MSG_PENDING : bytes := bs "Still verifying the recipient account — try again in a moment".

Definition show_error (error : bytes) : Ctl unit := mod_state (set_error error).

(** ** Passwords *)
Section passwords.
Context `{Sha256} `{VaultPrims} `{Tempfile} `{WalletCodec}.

Definition spawn_unlock_store (store : VaultStore) (password : bytes) (action : KeyAction) : Ctl unit :=
  generation ← gets c_key_generation;
  spawn (TaskUnlockStore generation store password action).

Definition spawn_unlock (password : bytes) (action : KeyAction) : Ctl unit :=
  busy ← get_state s_key_busy;
  if busy : bool then mret tt else
  drained ← drain_save_task;
  if negb drained then
    let error := bs "Wallet data could not be saved; resolve the storage error before this action" in
    mod_state (fun s => if am_open (s_auth s) then s <| s_auth ::= fun a => a <| am_error := error |> |>
                        else s <| s_lock_error := error |>)
  else
  mod_state (fun s => s <| s_key_busy := true |> <| s_lock_error := [] |>
                        <| s_auth ::= fun a => a <| am_error := [] |> |>);;
  vault ← gets c_vault;
  store ← gets c_store;
  generation ← gets c_key_generation;
  match vault with
  | Some vault => if is_reauth action then spawn (TaskVerifyPassword generation vault password action)
                  else spawn_unlock_store store password action
  | None => spawn_unlock_store store password action
  end.

Definition unlock (password : bytes) : Ctl unit :=
  if bool_decide (password = []) then mret tt else spawn_unlock password KeyUnlock.

Definition spawn_create (password : bytes) (profile : WalletProfile) : Ctl unit :=
  busy ← get_state s_key_busy;
  if busy : bool then mret tt else
  mod_state (fun s => s <| s_key_busy := true |> <| s_lock_error := [] |>);;
  c ← gets id;
  spawn (TaskCreateVault (c_key_generation c) (c_store c) password (c_kdf_params c) (s_active_wallet (c_state c)) profile).

(** [chars().count()] of UTF-8. *)
Definition char_count (password : bytes) : nat := length (List.filter (fun b => negb (is_continuation b)) password).

Definition create_password (pw pw2 : bytes) : Ctl unit :=
  if (char_count pw <? 8)%nat then mod_state (fun s => s <| s_lock_error := bs "Use at least 8 characters" |>) else
  if negb (bool_decide (pw = pw2)) then mod_state (fun s => s <| s_lock_error := bs "Passwords don't match" |>) else
  profile ← get_state to_profile;
  spawn_create pw profile.

Definition spawn_change_password (new_password : bytes) : Ctl unit :=
  idle ← gets (fun c => is_none (c_vault c) || s_key_busy (c_state c));
  if idle : bool then mret tt else
  drained ← drain_save_task;
  if negb drained then mret tt else
  quarantined ← ensure_activity_quarantined;
  if negb quarantined then mret tt else
  mod_state (fun s => s <| s_key_busy := true |>);;
  c ← gets id;
  spawn (TaskChangePassword (c_key_generation c) new_password (c_kdf_params c) (s_active_wallet (c_state c))
           (to_profile (c_state c))).
End passwords.

(** ** Fees and the recipient's account *)
Section fees.
Context `{StdAddrLib} `{ChainService}.

Definition FEE_REESTIMATE_DELAY : N := 600 * MILLIS.

Definition schedule_fee_reestimate : Ctl unit :=
  clear_pending_max;;
  mod_state (fun s => s <| s_fee_estimate_stale := true |>);;
  r ← now;
  mod_session (fun s => s <| se_fee_reestimate_at := Some (r_mono r + FEE_REESTIMATE_DELAY) |>).

Definition needs_destination_check (s : AppState) : bool :=
  match s_recipient_check s with Unchecked | CheckFailed => true | _ => false end.

(** The check under way, if any, is given up for the new one. *)
Definition check_destination : Ctl unit :=
  skip ← get_state (fun s => s_network_mismatch s || negb (recipient_valid s) || negb (needs_destination_check s));
  if skip : bool then mret tt else
  address ← get_state (fun s => trim (form_destination (s_send_form s)));
  inputs ← endpoint_address_inputs;
  match inputs with
  | Err _ => mret tt
  | Panic => pure Panic
  | Ok inputs =>
      mod_state (fun s => s <| s_recipient_check := CheckPending |>);;
      modify (fun c => c <| c_dest_check_seq ::= wrapping_inc |>);;
      c ← gets id;
      spawn TaskAbortDestinationCheck;;
      spawn (TaskCheckDestination (c_subscription_generation c) (c_dest_check_seq c) inputs address)
  end.

Definition spawn_fee_estimate (request : SendRequest) (is_max : bool) : Ctl (option N) :=
  frozen ← gets (fun c => s_sending (c_state c) || is_some (c_pending_authorization c));
  if frozen : bool then mod_session (fun s => s <| se_fee_reestimate_at := None |>);; mret None else
  estimating ← get_state s_fee_estimating;
  if estimating : bool then
    (if is_max then
       mod_session (fun s => s <| se_fee_reestimate_at := None |>);;
       modify (fun c => c <| c_queued_max_request := Some request |>);;
       mod_state (fun s => s <| s_max_refining := true |>)
     else r ← now; mod_session (fun s => s <| se_fee_reestimate_at := Some (r_mono r) |>));;
    mret None
  else
  inputs ← wallet_inputs;
  match inputs with
  | Err _ => mret None
  | Panic => pure Panic
  | Ok inputs =>
      mod_session (fun s => s <| se_fee_reestimate_at := None |>);;
      generation ← gets c_subscription_generation;
      seq ← gets c_fee_request_seq;
      seq ← checked_inc seq;
      modify (fun c => c <| c_fee_request_seq := seq |>);;
      mod_state (fun s => s <| s_fee_estimating := true |>);;
      bounce ← get_state send_bounce;
      spawn (TaskFeeEstimate generation seq is_max inputs request bounce);;
      mret (Some seq)
  end.

(** What a request for the maximum came to: asked for, queued, or dropped. *)
Definition follow_max (seq : option N) : Ctl unit :=
  match seq with
  | Some seq => modify (fun c => c <| c_pending_max_seq := Some seq |>)
  | None =>
      queued ← gets (fun c => is_some (c_queued_max_request c));
      if queued : bool then mret tt else clear_pending_max
  end.

Definition start_queued_max_fee_estimate : Ctl unit :=
  queued ← gets c_queued_max_request;
  modify (fun c => c <| c_queued_max_request := None |>);;
  match queued with
  | None => mret tt
  | Some request => seq ← spawn_fee_estimate request true; follow_max seq
  end.

Definition set_amount (amount : bytes) : Ctl unit :=
  mod_state (fun s => s <| s_send_form ::= fun f => f <| form_amount := amount |> |>).

Definition set_max_amount : Ctl unit :=
  mod_state clear_send_form_error;;
  asset ← get_state s_selected_asset;
  wallet ← get_state s_wallet;
  match wallet with
  | None => mod_state (fun s => s <| s_status := bs "Wallet not loaded" |>)
  | Some wallet =>
      balance ← pure (balance_for wallet asset);
      modify (fun c => c <| c_max_filled := true |>);;
      match asset with
      | Native =>
          balance_units ← pure (expect (native_units balance));
          clear_pending_max;;
          approx ← get_state (fun s => max_native_spendable balance_units (effective_send_fee s));
          amount ← pure (rexpect (format_native_fixed9 approx));
          set_amount amount;;
          if balance_units =? 0 then mret tt else
          destination ← get_state (fun s =>
            if recipient_valid s then trim (form_destination (s_send_form s)) else ws_address wallet);
          request ← get_state (fun s => native_request_of s destination balance_units);
          match request with
          | Err _ => mret tt
          | Panic => pure Panic
          | Ok request =>
              mod_session (fun s => s <| se_fee_reestimate_at := None |>);;
              modify (fun c => c <| c_pending_max_balance := Some balance_units |>);;
              mod_state (fun s => s <| s_max_refining := true |>);;
              seq ← spawn_fee_estimate request true;
              follow_max seq
          end
      | CurrencyCollection _ =>
          amount ← pure (rexpect (format_fixed9_amount balance));
          set_amount amount;;
          schedule_fee_reestimate
      end
  end.

Definition fee_not_stale : Ctl unit := mod_state (fun s => s <| s_fee_estimate_stale := false |>).

Definition estimate_for (request : SendRequest) : Ctl unit :=
  seq ← spawn_fee_estimate request false;
  idle ← get_state (fun s => is_none seq && negb (s_fee_estimating s));
  if idle : bool then fee_not_stale else mret tt.

(** Without a request the fee of a transfer to oneself is asked for, once. *)
Definition estimate_fee : Ctl unit :=
  check_destination;;
  refill ← gets (fun c => c_max_filled c && recipient_valid (c_state c)
                          && bool_decide (s_selected_asset (c_state c) = Native));
  if refill : bool then set_max_amount else
  request ← get_state send_request;
  match request with
  | Ok request => estimate_for request
  | Panic => pure Panic
  | Err _ =>
      known ← get_state (fun s => is_some (s_fee_estimate s) || s_fee_estimating s);
      if known : bool then fee_not_stale else
      wallet ← get_state s_wallet;
      match wallet with
      | None => fee_not_stale
      | Some wallet => request ← pure (rexpect (request_native (ws_address wallet) 1)); estimate_for request
      end
  end.
End fees.

(** ** Authorizing *)
Section authorizing.
Context `{Sha256} `{StdAddrLib} `{ChainService} `{RandomError}.

(** The next authorization and its number; nothing is authorized unless all of it is there. *)
Definition authorize_transfer (request : SendRequest) : Ctl unit :=
  inputs ← wallet_inputs;
  match inputs with
  | Err error => show_error error
  | Panic => pure Panic
  | Ok inputs =>
  record_id ← new_record_id;
  match record_id with
  | None => show_error (bs "Could not create a transfer record: " ++ random_error)
  | Some record_id =>
  wallet ← get_state s_wallet;
  match wallet with
  | None => show_error (bs "Wallet is not loaded")
  | Some wallet =>
  nonce ← new_auth_nonce;
  match nonce with
  | None => show_error (bs "Could not create a transfer authorization: " ++ random_error)
  | Some nonce =>
  generation ← gets (fun c => checked_add u64_max (c_auth_generation c) 1);
  match generation with
  | None => show_error (bs "Transfer authorization generation is exhausted; lock and reopen the wallet")
  | Some generation =>
      modify (fun c => c <| c_auth_generation := generation |>);;
      authorization ← gets (fun c =>
        SendAuthorization_new record_id (st_name (c_store c)) (ws_address wallet) inputs request
          (send_bounce (c_state c)) generation nonce);
      match authorization with
      | Err error => show_error (wallet_error_text error)
      | Panic => pure Panic
      | Ok authorization =>
          modify (fun c => c <| c_pending_authorization := Some authorization |>);;
          open_signing_auth ForSend true;;
          mod_session (fun s => s <| se_fee_reestimate_at := None |>);;
          check_destination
      end
  end end end end end.

Definition request_send : Ctl unit :=
  waiting ← gets (fun c => is_some (c_pending_authorization c));
  if waiting : bool then auth_error (bs "A transfer authorization is already waiting for confirmation") else
  s ← get_state id;
  enabled ← pure (send_enabled s);
  if negb enabled then mret tt else
  mod_state (fun s => s <| s_allow_unbounced := false |>);;
  request ← get_state send_request;
  match request with
  | Err error => show_error (wallet_error_text error)
  | Panic => pure Panic
  | Ok request => authorize_transfer request
  end.

(** The same ticket again, with or without bouncing; whether the command was for it. *)
Definition update_pending_send_unbounced (allow : bool) : Ctl bool :=
  refused ← gets (fun c => let s := c_state c in
    negb (am_open (s_auth s)) || negb (bool_decide (am_purpose (s_auth s) = ForSend)) || s_sending s || s_key_busy s
    || negb (recipient_inactive s) || is_some (c_pending_risk_consumption c));
  if refused : bool then mret false else
  authorization ← gets c_pending_authorization;
  modify (fun c => c <| c_pending_authorization := None |>);;
  match authorization with
  | None => mret false
  | Some authorization =>
      let ticket := sa_ticket authorization in
      match SendAuthorization_new (t_record_id ticket) (t_sender_wallet_id ticket) (t_sender_address ticket)
              (sa_inputs authorization) (t_request ticket) (negb allow) (t_auth_generation ticket)
              (t_auth_nonce ticket) with
      | Ok authorization =>
          modify (fun c => c <| c_pending_authorization := Some authorization |>);;
          mod_state (fun s => s <| s_allow_unbounced := allow |>);;
          auth_error []
      | Err error =>
          mod_auth (fun a => a <| am_open := false |>);;
          show_error (bs "Could not update the new-address transfer option: " ++ wallet_error_text error)
      | Panic => pure Panic
      end;;
      mret true
  end.

Definition refuse_unpermitted_send : Ctl bool :=
  permitted ← get_state (fun s => signing_recipient_permitted s (negb (am_send_options_editable (s_auth s))));
  if permitted : bool then mret false else
  known ← get_state s_recipient_check;
  match known with
  | Known _ => auth_error GATE_MSG_ACK
  | CheckFailed => check_destination;; auth_error GATE_MSG_FAILED
  | _ => auth_error GATE_MSG_PENDING
  end;;
  mret true.

(** The grant that was taken for exactly this ticket, with what it may overlap. *)
Definition risk_override_for (authorization : SendAuthorization) (pending : option PendingRiskConsumption)
  : res Empty_set (option (list Reservation)) :=
  match pending with
  | None => Ok None
  | Some pending =>
      let? digest := ok (SendTicket_digest (sa_ticket authorization)) in
      Ok (match digest with
          | Some digest =>
              if bool_decide (c_new_record_id (rp_consumption pending) = t_record_id (sa_ticket authorization))
                 && bool_decide (c_new_ticket_digest (rp_consumption pending) = digest)
              then Some (rp_overlap pending) else None
          | None => None
          end)
  end.

Definition refuse_recipient : Ctl unit :=
  known ← get_state s_recipient_check;
  match known with
  | Known _ => show_error (bs "This recipient has no active account — confirm the new-address option to send")
  | _ =>
      show_error (bs "The recipient account state is not verified yet — try the send again in a moment");;
      check_destination
  end.

(** What prevents the send although the user confirmed it. *)
Definition blocks_authorized (reason : option SendBlockReason) (risk_override : bool) : option SendBlockReason :=
  match reason with
  | Some JournalBlocking => if risk_override then None else reason
  | _ => reason
  end.

Definition send_authorized_transaction (authorization : SendAuthorization) : Ctl unit :=
  sending ← get_state s_sending;
  if sending : bool then mret tt else
  pending ← gets c_pending_risk_consumption;
  risk_override ← pure (risk_override_for authorization pending);
  s ← get_state id;
  reason ← pure (send_safety_block_reason s);
  match blocks_authorized reason (is_some risk_override) with
  | Some reason => show_error (bs (SendBlockReason_message reason))
  | None =>
  if negb (signing_recipient_permitted s (is_some risk_override)) then refuse_recipient else
  affordable ← pure (can_afford_request_with_overlap s (sa_request authorization) (default [] risk_override));
  if negb affordable then
    mod_state (set_send_form_error (bs "Insufficient balance for this amount plus the fee"))
  else
  generation ← gets c_session_generation;
  digest ← attempt (SendTicket_digest (sa_ticket authorization));
  match digest with
  | Err error =>
      modify (fun c => c <| c_pending_risk_consumption := None |>);;
      show_error (bs "The immutable send ticket could not be bound: " ++ bs (DigestError_display error))
  | Panic => pure Panic
  | Ok digest =>
      active_reservations ← get_state s_active_reservations;
      begin_pending_send (sa_request authorization);;
      mod_state (fun s => s <| s_sending := true |> <| s_busy := true |>
        <| s_status := bs "Preparing the transfer from fresh read-only chain state…" |>);;
      spawn (TaskPrepare generation digest (is_some risk_override) (sa_inputs authorization) (sa_ticket authorization)
               active_reservations (default [] risk_override))
  end end.

Definition quick_send (address : bytes) : Ctl unit :=
  mod_state (fun s => s <| s_send_form ::= fun f => f <| form_destination := address |> |>
                        <| s_selected_tab := TabWallet |> <| s_status := bs "Recipient filled from contacts" |>).
End authorizing.
