(* ===== verification/RiskReview.v ===== *)
(** * The duplicate-risk review (crates/cc-wallet-app/src/controller/risk.rs)

    While an earlier transfer is unresolved another may be signed only after a review: the
    cooling period is over, the history and the balances were read again, the user is shown
    what both may debit and chooses what the new one may overlap.  What comes of it is a grant
    for one ticket, written to the journal and to the disk before that ticket may be signed. *)

From Stdlib Require Import NArith ZArith Lia.
From stdpp Require Import gmap.
From S2P Require Import Prelude Ord Bytes Text Decimal Ids Asset Amount Digest Affordability Send Profile Network.
From S2P Require Import Risk Journal Replay Envelope Strict Authorization VaultKeys Vault Fs Atomic Wallets Writer.
From S2P Require Import ChainData Update AppState Controller Save Service Rows Policy Delivery Authorize.

(** ** What is shown *)
Definition nl : bytes := [Byte.x0a].

(** [{:?}] of an evidence tag and of a reservation kind. *)
Definition EvidenceTag_debug (t : EvidenceTag) : string :=
  match t with
  | TagPrepared => "Prepared"
  | TagAttemptStarted => "AttemptStarted"
  | TagMayHaveBroadcast => "MayHaveBroadcast"
  | TagNodeResponseObserved => "NodeResponseObserved"
  | TagEndpointReportedSuccess => "EndpointReportedSuccess"
  | TagEndpointReportedFailedOnChain => "EndpointReportedFailedOnChain"
  | TagVerifiedTerminalSuccess => "VerifiedTerminalSuccess"
  | TagVerifiedTerminalFailedOnChain => "VerifiedTerminalFailedOnChain"
  | TagNotBroadcast => "NotBroadcast"
  end.

Definition ReservationKind_debug (k : ReservationKind) : string :=
  match k with Transfer => "Transfer" | NativeFee => "NativeFee" end.

Definition print_bool (b : bool) : bytes := if b then bs "true" else bs "false".

Definition asset_label (asset : AssetId) : bytes :=
  match asset with
  | Native => bs "Native"
  | CurrencyCollection id => bs "CurrencyCollection(" ++ print_dec id ++ bs ")"
  end.

(** [Display for AffordabilityError]; the [{:?}] of an asset reads like its label. *)
Definition AffordabilityError_display (e : AffordabilityError) : bytes :=
  match e with
  | DuplicateAsset asset => bs "more than one amount was supplied for asset " ++ asset_label asset
  | DuplicateReservation => bs "a reservation row is duplicated"
  | DuplicateOverlap => bs "an overlap row is duplicated"
  | OverlapRowNotReserved => bs "an overlap row is not one of the outstanding reservations"
  end.

Definition exact_amount (amount : AssetAmount) : res Empty_set (bytes * bytes) :=
  let? rendered := match format_fixed9_amount amount with
                   | Ok text => Ok text
                   | Err _ => format_base_units amount
                   | Panic => Panic
                   end in
  Ok (asset_label (asset_id amount), rendered).

Definition reservation_label (row : Reservation) : res Empty_set bytes :=
  let? (asset, amount) := exact_amount (r_amount row) in
  Ok (bs "record=" ++ to_hex (r_record_id row) ++ bs " kind=" ++ bs (ReservationKind_debug (r_kind row))
      ++ bs " asset=" ++ asset ++ bs " amount=" ++ amount).

(** Of all of them, in order. *)
Fixpoint map_res {A B} (f : A -> res Empty_set B) (l : list A) : res Empty_set (list B) :=
  match l with
  | [] => Ok []
  | a :: l => let? b := f a in let? rest := map_res f l in Ok (b :: rest)
  end.

Definition requested_with_fee_ceiling (value : AssetAmount) : res bytes (list AssetAmount) :=
  let? fee := map_err (fun e => bs (AmountError_display e)) (amount_native LOCAL_SEND_FEE_CEILING_NANOS) in
  match asset_id value with
  | Native => map_err (fun e => bs (AmountError_display e)) (rmap (fun total => [total]) (checked_add_same_asset value fee))
  | CurrencyCollection _ => Ok [value; fee]
  end.

(** [zip], [filter] and [map] over the selection. *)
Fixpoint selected_rows (rows : list Reservation) (selected : list bool) : list Reservation :=
  match rows, selected with
  | row :: rows, b :: selected => if b then row :: selected_rows rows selected else selected_rows rows selected
  | _, _ => []
  end.

Definition blocker_text (record : SendRecord) : res Empty_set bytes :=
  let request := t_request (rec_ticket record) in
  let? (symbol, amount) := exact_amount (sr_value request) in
  let? evidence := latest_evidence_tag record in
  Ok (bs "Blocking record " ++ to_hex (record_id record)
      ++ nl ++ bs "  external hash " ++ to_hex (rec_ext_msg_hash record)
      ++ nl ++ bs "  destination " ++ sr_destination request
      ++ nl ++ bs "  asset " ++ symbol ++ bs " amount " ++ amount
      ++ nl ++ bs "  expiry " ++ print_dec (rec_expire_at record)
      ++ nl ++ bs "  evidence " ++ bs (EvidenceTag_debug evidence) ++ nl).

Fixpoint reservations_text (rows : list Reservation) (selected : list bool) : res Empty_set bytes :=
  match rows with
  | [] => Ok []
  | row :: rows =>
      let '(b, selected) := match selected with b :: selected => (b, selected) | [] => (false, []) end in
      let? label := reservation_label row in
      let? rest := reservations_text rows selected in
      Ok (bs "  [" ++ bs (if b : bool then "OVERLAP" else "RESERVED") ++ bs "] " ++ label ++ nl ++ rest)
  end.

Definition ticket_text (ticket : SendTicket) : res Empty_set bytes :=
  let request := t_request ticket in
  let? (symbol, amount) := exact_amount (sr_value request) in
  Ok (nl ++ bs "Exact new ticket" ++ nl ++ bs "  record " ++ to_hex (t_record_id ticket)
      ++ nl ++ bs "  sender " ++ t_sender_address ticket
      ++ nl ++ bs "  network " ++ print_z (t_network_global_id ticket)
      ++ nl ++ bs "  endpoint " ++ t_endpoint_identity ticket
      ++ nl ++ bs "  destination " ++ sr_destination request
      ++ nl ++ bs "  asset " ++ symbol ++ bs " amount " ++ amount
      ++ nl ++ bs "  bounce " ++ print_bool (t_bounce ticket)
      ++ nl ++ bs "  auth generation " ++ print_dec (t_auth_generation ticket)
      ++ bs " nonce " ++ print_dec (t_auth_nonce ticket) ++ nl).

Definition balance_text (balance : AssetAmount) : res Empty_set bytes :=
  let? (symbol, amount) := exact_amount balance in
  Ok (bs "  " ++ symbol ++ bs ": " ++ amount ++ nl).

Definition outcome_text (outcome : AssetAffordability) : res Empty_set bytes :=
  let symbol := asset_label (aa_asset outcome) in
  match aa_worst_case outcome with
  | Some total =>
      let? (_, amount) := exact_amount total in
      Ok (bs "  " ++ symbol ++ bs ": " ++ amount
          ++ (if aa_worst_case_warns outcome
              then bs " — exceeds fresh balance; one transfer may fail and native fees may still burn" else [])
          ++ nl)
  | None => Ok (bs "  " ++ symbol
                ++ bs ": aggregate exceeds the asset protocol maximum; exact components remain listed above" ++ nl)
  end.

Definition affordability_text (balances : list AssetAmount) (reservations overlap : list Reservation)
    (value : AssetAmount) : res Empty_set bytes :=
  match requested_with_fee_ceiling value with
  | Panic => Panic
  | Err _ => Ok []
  | Ok requested =>
      match evaluate_affordability balances reservations overlap requested with
      | Ok report =>
          let? outcomes := map_res outcome_text report in
          Ok (nl ++ bs "Worst-case aggregate debit/fees:" ++ nl ++ concat outcomes
              ++ (if is_affordable report then []
                  else bs "Selected non-overlapped reservations make this new ticket unaffordable; final pre-sign will refuse it." ++ nl))
      | Err error => Ok (bs "Affordability evaluation refused the selected rows: " ++ AffordabilityError_display error ++ nl)
      | Panic => Panic
      end
  end.

Definition balances_text (s : AppState) (reservations overlap : list Reservation) (value : AssetAmount)
  : res Empty_set bytes :=
  match s_wallet s with
  | None => Ok []
  | Some wallet =>
      let? balances := snapshot_balances wallet in
      let? shown := map_res balance_text balances in
      let? verdict := affordability_text balances reservations overlap value in
      Ok (nl ++ bs "Fresh displayed balances:" ++ nl ++ concat shown ++ verdict)
  end.

Definition risk_details (journal : JournalEnvelope) (s : AppState) (review : PendingRiskReview) : res Empty_set bytes :=
  let ticket := sa_ticket (rr_authorization review) in
  let overlap := selected_rows (rr_reservations review) (s_risk_overlap_selected s) in
  let? records := blocking_records_for_scope journal (t_sender_wallet_id ticket) (t_sender_address ticket)
                    (t_network_global_id ticket) in
  let? blockers := map_res blocker_text records in
  let? rows := reservations_text (rr_reservations review) (s_risk_overlap_selected s) in
  let? new_ticket := ticket_text ticket in
  let? balances := balances_text s (rr_reservations review) overlap (sr_value (t_request ticket)) in
  Ok (bs "DUPLICATE-RISK REVIEW — elapsed time is not delivery proof. Both transfers may debit; native fees may burn."
      ++ nl ++ nl ++ concat blockers
      ++ nl ++ bs "Reservations (selection is explicit; every row remains durable):" ++ nl ++ rows
      ++ new_ticket ++ balances
      ++ nl ++ bs "Separate encrypted vaults containing the same seed are independent; this wallet cannot coordinate a duplicate-seed copy in another file."
      ++ nl).

(** ** What is at stake *)
Record RiskScope := mkScope { rs_blockers : list BlockerRow; rs_reservations : list Reservation; rs_broad_duplicate : bool }.

Fixpoint scope_rows (ticket : SendTicket) (relevant : list SendRecord) : res bytes RiskScope :=
  match relevant with
  | [] => Ok (mkScope [] [] false)
  | record :: relevant =>
      let? evidence := rexpect (latest_evidence_tag (E := Empty_set) record) in
      let? row := map_err (fun e => bs (DigestError_display e))
                    (BlockerRow_new (record_id record) evidence (rec_ext_msg_hash record)) in
      let? rest := scope_rows ticket relevant in
      Ok (mkScope (row :: rs_blockers rest) (rec_reservations record ++ rs_reservations rest)
            (has_duplicate_fingerprint record ticket || rs_broad_duplicate rest))
  end.

Definition risk_scope (journal : JournalEnvelope) (ticket : SendTicket) : res bytes RiskScope :=
  let? relevant := rexpect (blocking_records_for_scope journal (t_sender_wallet_id ticket) (t_sender_address ticket)
                              (t_network_global_id ticket)) in
  if bool_decide (relevant = []) then Err (bs "No unresolved Journal record remains for this sender/network")
  else scope_rows ticket relevant.

Section risk.
Context `{Sha256} `{VaultPrims} `{Tempfile} `{WalletCodec} `{StdAddrLib} `{ChainService} `{RandomError}.

Definition digest_text (e : DigestError) : bytes := bs (DigestError_display e).

Definition refresh_risk_details : Ctl unit :=
  c ← gets id;
  match c_pending_risk_review c with
  | None => mret tt
  | Some review =>
      text ← pure (risk_details (c_journal c) (c_state c) review);
      mod_state (fun s => s <| s_risk_review_details := text |>)
  end.

Definition abort_risk_review (message : bytes) : Ctl unit := cancel_risk_override;; show_error message.

Definition RISK_UNAVAILABLE : bytes :=
  bs "The duplicate-risk review is unavailable until the fresh monotonic cooling period completes".

(** A ticket for the new send and the digest it is known by, before anything is reconciled. *)
Definition begin_risk_review (request : SendRequest) : Ctl unit :=
  inputs ← wallet_inputs;
  match inputs with
  | Err error => show_error error
  | Panic => pure Panic
  | Ok inputs =>
  wallet ← get_state s_wallet;
  match wallet with
  | None => show_error (bs "Wallet is not loaded")
  | Some wallet =>
  record_id ← new_record_id;
  match record_id with
  | None => show_error (bs "Could not create a risk-review ticket: " ++ random_error)
  | Some record_id =>
  nonce ← new_auth_nonce;
  match nonce with
  | None => show_error (bs "Could not create a risk-review nonce: " ++ random_error)
  | Some nonce =>
  generation ← gets (fun c => checked_add u64_max (c_auth_generation c) 1);
  match generation with
  | None => show_error (bs "Transfer authorization generation is exhausted; lock and reopen the wallet")
  | Some generation =>
      modify (fun c => c <| c_auth_generation := generation |>);;
      authorization ← gets (fun c =>
        SendAuthorization_new record_id (st_name (c_store c)) (ws_address wallet) inputs request
          (send_bounce (c_state c)) generation nonce);
      match authorization with
      | Err error => show_error (wallet_error_text error)
      | Panic => pure Panic
      | Ok authorization =>
          digest ← attempt (SendTicket_digest (sa_ticket authorization));
          match digest with
          | Err error => show_error (digest_text error)
          | Panic => pure Panic
          | Ok digest =>
              modify (fun c => c <| c_pending_authorization := Some authorization |>
                <| c_pending_risk_context := Some digest |> <| c_pending_risk_reconciliation := true |>);;
              mod_state (fun s => s <| s_busy := true |>
                <| s_status := bs "Checking the previous transfer before risk review…" |>);;
              generation ← gets c_subscription_generation;
              fetch_transactions generation
          end
      end
  end end end end end.

Definition request_risk_override : Ctl unit :=
  active ← gets (fun c => is_some (c_pending_authorization c));
  if active : bool then show_error (bs "A transfer authorization or duplicate-risk review is already active") else
  refresh_journal_policy;;
  s ← get_state id;
  if negb (s_journal_blocking s) || negb (s_risk_override_eligible s) then show_error RISK_UNAVAILABLE else
  if negb (bool_decide (s_persistence_health s = Ready)) || s_sending s || s_busy s
  then show_error (bs "The wallet must be idle and durably writable for risk review") else
  if is_some (s_snapshot_refresh_error s) || is_some (s_history_integrity_error s)
  then show_error (bs "Duplicate-risk review is blocked until balances and transaction history complete a valid refresh") else
  request ← attempt (send_request s);
  match request with
  | Ok request => begin_risk_review request
  | Err _ => mod_state (set_send_form_error
      (bs "Enter a valid recipient and positive amount for the new transfer before reviewing duplicate risk"))
  | Panic => pure Panic
  end.

(** Once the history has been read again, the balances are. *)
Definition load_risk_context : Ctl unit :=
  authorization ← gets c_pending_authorization;
  match authorization with
  | None => abort_risk_review (bs "The risk-review authorization capability was lost")
  | Some authorization =>
      digest ← attempt (SendTicket_digest (sa_ticket authorization));
      match digest with
      | Err error => abort_risk_review (digest_text error)
      | Panic => pure Panic
      | Ok expected_digest =>
          inputs ← attempt (EndpointAddressInputs_new (t_endpoint_identity (sa_ticket authorization))
                              (t_sender_address (sa_ticket authorization)));
          match inputs with
          | Err error => abort_risk_review (wallet_error_text error)
          | Panic => pure Panic
          | Ok inputs =>
              generation ← gets c_session_generation;
              other ← gets (fun c => negb (bool_decide (c_pending_risk_context c = Some expected_digest)));
              if other : bool then
                abort_risk_review (bs "The risk-review authorization digest changed during reconciliation")
              else
              mod_state (fun s => s <| s_busy := true |>
                <| s_status := bs "Refreshing balances for duplicate-risk review…" |>);;
              spawn (TaskRiskContext generation expected_digest inputs)
          end
      end
  end.

Definition finish_pending_risk_reconciliation : Ctl unit :=
  waits ← gets (fun c => negb (c_pending_risk_reconciliation c) || lr_fetch_in_flight (c_load c));
  if waits : bool then mret tt else
  modify (fun c => c <| c_pending_risk_reconciliation := false |>);;
  mod_state (fun s => s <| s_busy := false |>);;
  refresh_journal_policy;;
  s ← get_state id;
  gap ← gets (fun c => se_history_has_gap (c_session c));
  if negb (s_journal_blocking s) then cancel_risk_override else
  if s_history_incomplete s || gap || is_some (s_history_integrity_error s)
  then abort_risk_review (bs "Could not complete a fresh transaction-history check; risk review remains closed") else
  if negb (s_risk_override_eligible s) then abort_risk_review RISK_UNAVAILABLE else
  load_risk_context.

(** Whether the snapshot is of the account, the network and the endpoint of the ticket. *)
Definition context_matches (ticket : SendTicket) (snapshot : WalletSnapshot) : bool :=
  bool_decide (ws_address snapshot = t_sender_address ticket)
  && (ws_global_id snapshot =? t_network_global_id ticket)%Z
  && match ws_observed_network_time snapshot with
     | Some observation => bool_decide (ont_source_endpoint observation = t_endpoint_identity ticket)
     | None => false
     end.

Definition open_risk_review (authorization : SendAuthorization) : Ctl unit :=
  journal ← gets c_journal;
  scope ← attempt (risk_scope journal (sa_ticket authorization));
  match scope with
  | Err error => abort_risk_review error
  | Panic => pure Panic
  | Ok scope =>
      digests ← attempt (let? blockers := blocker_set_digest (rs_blockers scope) in
                         let? reservations := reservation_set_digest (rs_reservations scope) in
                         Ok (blockers, reservations));
      match digests with
      | Err error => abort_risk_review (digest_text error)
      | Panic => pure Panic
      | Ok (blockers, reservations) =>
          modify (fun c => c <| c_pending_risk_review :=
            Some (mkRiskReview authorization blockers reservations (rs_reservations scope) (rs_broad_duplicate scope)) |>);;
          labels ← pure (map_res reservation_label (rs_reservations scope));
          mod_state (fun s => s <| s_risk_overlap_labels := labels |>
            <| s_risk_overlap_selected := repeat false (length (rs_reservations scope)) |>
            <| s_risk_requires_duplicate_confirmation := rs_broad_duplicate scope |>
            <| s_risk_review_open := true |>);;
          refresh_risk_details
      end
  end.

Definition apply_risk_context_loaded (generation : N) (authorization_digest : Digest32) (snapshot : WalletSnapshot)
  : Ctl unit :=
  stale ← gets (fun c => negb (generation =? c_session_generation c)
                         || negb (bool_decide (c_pending_risk_context c = Some authorization_digest)));
  if stale : bool then mret tt else
  mod_state (fun s => s <| s_busy := false |>);;
  refresh_journal_policy;;
  modify (fun c => c <| c_pending_risk_context := None |>);;
  authorization ← gets c_pending_authorization;
  modify (fun c => c <| c_pending_authorization := None |>);;
  match authorization with
  | None => abort_risk_review (bs "The risk-review authorization capability was lost")
  | Some authorization =>
      digest_matches ← pure (is_ok_and (SendTicket_digest (sa_ticket authorization))
                               (fun digest => bool_decide (digest = authorization_digest)));
      if negb digest_matches then abort_risk_review (bs "The risk-review authorization digest is invalid") else
      eligible ← get_state s_risk_override_eligible;
      if negb eligible || negb (context_matches (sa_ticket authorization) snapshot) then
        abort_risk_review (bs "Risk review context changed or lacks network-time provenance from the exact authorized endpoint")
      else
      mod_state (fun s => s <| s_derived_wallet_address := ws_address snapshot |> <| s_wallet := Some snapshot |>);;
      open_risk_review authorization
  end.

Definition set_risk_overlap (index : nat) (selected : bool) : Ctl unit :=
  s ← get_state id;
  if negb (s_risk_review_open s) then mret tt else
  if (index <? length (s_risk_overlap_selected s))%nat then
    mod_state (fun s => s <| s_risk_overlap_selected ::= fun l => <[index := selected]> l |>);;
    refresh_risk_details
  else mret tt.

(** ** The grant *)

Definition CHANGED : bytes := bs "The blocker or reservation set changed; start a fresh duplicate-risk review".

(** What the grant is for, if nothing has changed since the review: what the new ticket may
    overlap, and its digest. *)
Definition prepared_grant (journal : JournalEnvelope) (selected : list bool) (review : PendingRiskReview)
  : res bytes (list Reservation * Digest32) :=
  let ticket := sa_ticket (rr_authorization review) in
  let? scope := risk_scope journal ticket in
  let? blockers := map_err digest_text (blocker_set_digest (rs_blockers scope)) in
  let? reservations := map_err digest_text (reservation_set_digest (rs_reservations scope)) in
  if negb (bool_decide (blockers = rr_blocker_digest review))
     || negb (bool_decide (reservations = rr_reservation_digest review))
     || negb (bool_decide (rs_reservations scope = rr_reservations review))
     || negb (eqb (rs_broad_duplicate scope) (rr_broad_duplicate review))
  then Err CHANGED else
  let? digest := map_err digest_text (SendTicket_digest ticket) in
  Ok (selected_rows (rr_reservations review) selected, digest).

(** The grant becomes part of the journal, then of the disk; then the ticket may be signed. *)
Definition commit_grant (grant : RiskGrant) (consumption : RiskGrantConsumption) (overlap : list Reservation) : Ctl unit :=
  appended ← journal_op (fun j => append_risk_grant j grant);
  match appended with
  | Err error =>
      cancel_risk_override;; persistence_failed (bs "could not append the one-use risk grant: " ++ error_text error)
  | Panic => pure Panic
  | Ok _ =>
      saved ← persist_journal_barrier;
      if negb saved then cancel_risk_override else
      review ← gets c_pending_risk_review;
      modify (fun c => c <| c_pending_risk_review := None |>);;
      match review with
      | None => persistence_failed (bs "the durable risk grant lost its exact runtime authorization capability")
      | Some review =>
          modify (fun c => c <| c_pending_risk_consumption := Some (mkRiskConsumption consumption overlap) |>
            <| c_pending_authorization := Some (rr_authorization review) |>);;
          mod_state (fun s => s <| s_risk_review_open := false |> <| s_risk_review_details := [] |>
            <| s_risk_overlap_labels := [] |> <| s_risk_overlap_selected := [] |>);;
          open_signing_auth ForSend false;;
          mod_state (fun s => s <| s_status := bs "One-use duplicate-risk grant is durable; authenticate this exact ticket" |>)
      end
  end.

(** The words typed in are not looked at. *)
Definition confirm_risk_override (acknowledge_both_may_debit acknowledge_duplicate : bool) : Ctl unit :=
  if negb acknowledge_both_may_debit
  then show_error (bs "Acknowledge that both transfers may debit before sending this one") else
  review ← gets c_pending_risk_review;
  match review with
  | None => show_error (bs "The risk review is no longer current")
  | Some review =>
  if rr_broad_duplicate review && negb acknowledge_duplicate
  then show_error (bs "This is the same payee and asset as an unresolved transfer; the second explicit confirmation is required") else
  refresh_journal_policy;;
  eligible ← get_state s_risk_override_eligible;
  if negb eligible then
    cancel_risk_override;; show_error (bs "The risk cooling context changed; start a fresh review")
  else
  c ← gets id;
  prepared ← attempt (prepared_grant (c_journal c) (s_risk_overlap_selected (c_state c)) review);
  match prepared with
  | Err error => cancel_risk_override;; show_error error
  | Panic => pure Panic
  | Ok (overlap, digest) =>
      nonce ← new_risk_nonce;
      match nonce with
      | None => show_error (bs "Could not create a one-use risk nonce: " ++ random_error)
      | Some nonce =>
          overlap_digest ← attempt (overlap_set_digest overlap);
          match overlap_digest with
          | Err error => show_error (digest_text error)
          | Panic => pure Panic
          | Ok overlap_digest =>
              let record_id := t_record_id (sa_ticket (rr_authorization review)) in
              commit_grant
                (mkRiskGrant (rr_blocker_digest review) (rr_reservation_digest review) digest record_id nonce
                   RISK_WARNING_VERSION overlap_digest)
                (mkConsumption nonce record_id digest) overlap
          end
      end
  end end.
End risk.
