(* ===== verification/Clipboard.v ===== *)
(** * Secrets on the clipboard (crates/cc-wallet-app/src/clipboard.rs, seed_auth.rs)

    A recovery phrase or record that is copied is tracked and wiped again from both
    selections, a while later or when the wallet locks, and whatever of a phrase is found
    there; what could not be wiped stays tracked and is tried again. *)

From Stdlib Require Import NArith ZArith Lia.
From stdpp Require Import gmap.
From S2P Require Import Prelude Ord Bytes Text Ids Asset Amount Digest Send StorageRecord Profile.
From S2P Require Import Risk Journal Envelope Strict VaultKeys Vault Fs Atomic Wallets Writer.
From S2P Require Import Update AppState Controller Save Service Rows.

(** ** Recognising a secret *)
Inductive Selection := SelClipboard | SelPrimary.

(** [ct_str_eq] takes the same time whatever differs; it is equality. *)
Definition ct_str_eq (a b : bytes) : bool := bool_decide (a = b).

(** [windows(tokens.len()).any(..)]. *)
Fixpoint has_window (tokens words : list bytes) : bool :=
  bool_decide (take (length tokens) words = tokens)
  || match words with [] => false | _ :: words => has_window tokens words end.

Definition clipboard_contains_seed (current normalized_secret : bytes) (selection : Selection) : bool :=
  let current := normalize_seed current in
  let normalized_secret := normalize_seed normalized_secret in
  if bool_decide (current = []) then false else
  if ct_str_eq current normalized_secret then true else
  let words := split_whitespace normalized_secret in
  let tokens := split_whitespace current in
  let min_run := match selection with SelPrimary => 1%nat | SelClipboard => 2%nat end in
  if (length tokens <? min_run)%nat || bool_decide (words = []) || (length words <? length tokens)%nat then false
  else has_window tokens words.

Definition tracked_clipboard_contains_seed (current tracked : bytes) (selection : Selection) : bool :=
  existsb (fun secret => clipboard_contains_seed current secret selection) (lines tracked).

Definition CLIPBOARD_MAX_TEXT_BYTES : nat := 64 * 1024.

Definition cap_clipboard_text (text : bytes) : bytes :=
  if (CLIPBOARD_MAX_TEXT_BYTES <? length text)%nat then take (boundary_below text CLIPBOARD_MAX_TEXT_BYTES) text else text.

(** ** The two selections *)

(** The backend's [get] and [set]; either may fail. *)
Definition clip_get (selection : Selection) : Ctl (res bytes bytes) :=
  error ← ask o_clip;
  match error with
  | Some error => mret (Err error)
  | None => fun y => io_ret (Ok (Ok (cap_clipboard_text
      (match selection with SelClipboard => y_clipboard y | SelPrimary => y_primary y end)), y))
  end.

Definition clip_set (selection : Selection) (text : bytes) : Ctl (res bytes unit) :=
  error ← ask o_clip;
  match error with
  | Some error => mret (Err error)
  | None => fun y => io_ret (Ok (Ok tt,
      match selection with SelClipboard => y <| y_clipboard := text |> | SelPrimary => y <| y_primary := text |> end))
  end.

(** ** Tracking *)
Definition SEED_CLIPBOARD_TTL : N := 60 * NANOS.
Definition CLIPBOARD_RETRY_DELAY : N := 5 * NANOS.
Definition CLIPBOARD_MAX_RETRIES : N := 3.
Definition CLIPBOARD_EXHAUSTED_RETRY_DELAY : N := 30 * NANOS.

Definition notice (text : bytes) : Ctl unit := mod_state (fun s => s <| s_clipboard_notice := text |>).

Definition wipe_at (delay : N) : Ctl unit :=
  r ← now; modify (fun c => c <| c_clipboard_deadline := Some (deadline_after r delay) |>).

Definition refresh_seed_copy_ttl : Ctl unit :=
  r ← now;
  ttl ← gets (fun c =>
    if c_clipboard_copy_explicit c && is_some (c_clipboard_secret c)
       && bool_decide (s_clipboard_notice (c_state c) = [])
    then match c_clipboard_deadline c with Some deadline => remaining_secs r deadline | None => 0 end else 0);
  mod_state (fun s => s <| s_seed_copy_ttl_secs := ttl |>).

(** Whether what was found there, if it is the secret, is gone. *)
Definition wipe_selection (secret : bytes) (selection : Selection) : Ctl bool :=
  current ← clip_get selection;
  match current with
  | Ok current =>
      if tracked_clipboard_contains_seed current secret selection then
        cleared ← clip_set selection [];
        mret (match cleared with Ok _ => true | _ => false end)
      else mret true
  | _ => mret false
  end.

Definition WIPE_RETRY : bytes := bs "Could not clear every clipboard selection; retrying automatically.".
Definition WIPE_FAILED : bytes := bs "Could not clear the clipboard automatically. Clear it yourself.".

Definition clear_seed_from_clipboard : Ctl unit :=
  modify (fun c => c <| c_clipboard_deadline := None |>);;
  secret ← gets c_clipboard_secret;
  modify (fun c => c <| c_clipboard_secret := None |>);;
  match secret with
  | None => modify (fun c => c <| c_clipboard_copy_explicit := false |>);; refresh_seed_copy_ttl
  | Some secret =>
      clipboard ← wipe_selection secret SelClipboard;
      primary ← wipe_selection secret SelPrimary;
      (if clipboard && primary then
         modify (fun c => c <| c_clipboard_retries := 0 |>);;
         notice [];;
         modify (fun c => c <| c_clipboard_copy_explicit := false |>)
       else
         retries ← gets c_clipboard_retries;
         if retries <? CLIPBOARD_MAX_RETRIES then
           modify (fun c => c <| c_clipboard_retries := retries + 1 |> <| c_clipboard_secret := Some secret |>);;
           wipe_at CLIPBOARD_RETRY_DELAY;;
           notice WIPE_RETRY
         else
           modify (fun c => c <| c_clipboard_secret := Some secret |>);;
           wipe_at CLIPBOARD_EXHAUSTED_RETRY_DELAY;;
           notice WIPE_FAILED);;
      refresh_seed_copy_ttl
  end.

Definition tracks (phrase : bytes) (tracked : bytes) : bool := existsb (fun entry => ct_str_eq entry phrase) (lines tracked).

Definition extend_tracked_clipboard_secret (phrase : bytes) (retry_soon : bool) : Ctl unit :=
  existing ← gets c_clipboard_secret;
  let tracked := match existing with
                 | Some existing => if tracks phrase existing then existing else existing ++ [Byte.x0a] ++ phrase
                 | None => phrase
                 end in
  modify (fun c => c <| c_clipboard_secret := Some tracked |>);;
  wipe_at (if retry_soon then CLIPBOARD_RETRY_DELAY else SEED_CLIPBOARD_TTL);;
  if is_none existing then modify (fun c => c <| c_clipboard_retries := 0 |>) else mret tt.

Definition PRIOR_UNCLEARED : bytes :=
  bs "A prior recovery phrase could not be cleared; retrying every tracked phrase automatically.".

Definition copy_seed_to_clipboard (phrase : bytes) : Ctl unit :=
  let phrase := normalize_seed phrase in
  if bool_decide (phrase = []) then mret tt else
  clear_seed_from_clipboard;;
  prior_wipe_unresolved ← gets (fun c => is_some (c_clipboard_secret c));
  copied ← clip_set SelClipboard phrase;
  match copied with
  | Ok _ =>
      extend_tracked_clipboard_secret phrase prior_wipe_unresolved;;
      modify (fun c => c <| c_clipboard_copy_explicit := true |>);;
      r ← now;
      mod_state (fun s => if is_some (s_seed_reveal_deadline s)
                          then s <| s_seed_reveal_deadline := Some (deadline_after r SEED_CLIPBOARD_TTL) |> else s);;
      notice (if prior_wipe_unresolved : bool then PRIOR_UNCLEARED else [])
  | _ =>
      if prior_wipe_unresolved : bool then
        notice (bs "Could not copy the new phrase; the wallet is still retrying cleanup of a prior recovery phrase.")
      else
        modify (fun c => c <| c_clipboard_secret := None |> <| c_clipboard_deadline := None |>);;
        notice (bs "Could not copy to the clipboard. Write the phrase down instead.")
  end;;
  refresh_seed_copy_ttl.

Definition copy_secret_to_clipboard (secret : bytes) : Ctl unit :=
  if bool_decide (secret = []) then mret tt else
  clear_seed_from_clipboard;;
  prior_wipe_unresolved ← gets (fun c => is_some (c_clipboard_secret c));
  copied ← clip_set SelClipboard secret;
  match copied with
  | Ok _ =>
      extend_tracked_clipboard_secret secret prior_wipe_unresolved;;
      modify (fun c => c <| c_clipboard_copy_explicit := true |>);;
      notice []
  | _ =>
      modify (fun c => c <| c_clipboard_secret := None |> <| c_clipboard_deadline := None |>);;
      notice (bs "Could not copy to the clipboard.")
  end;;
  refresh_seed_copy_ttl.

Definition copy_text (text : bytes) : Ctl unit :=
  copied ← clip_set SelClipboard text;
  match copied with
  | Ok _ => modify (fun c => c <| c_clipboard_copy_explicit := false |>);; refresh_seed_copy_ttl
  | _ => mret tt
  end.

(** Whether the selection holds the phrase, and whether it could not be read. *)
Definition inspect_selection (seed : bytes) (selection : Selection) : Ctl (bool * bool) :=
  current ← clip_get selection;
  mret (match current with
        | Ok current => (clipboard_contains_seed current seed selection, false)
        | _ => (false, true)
        end).

(** A phrase that was pasted is tracked like one that was copied. *)
Definition register_pasted_seed_for_wipe (seed : bytes) : Ctl unit :=
  known ← gets (fun c => match c_clipboard_secret c with Some held => tracks seed held | None => false end);
  if known : bool then mret tt else
  clipboard ← inspect_selection seed SelClipboard;
  primary ← inspect_selection seed SelPrimary;
  let holds := fst clipboard || fst primary in
  let read_failed := snd clipboard || snd primary in
  if holds || read_failed then
    prior_wipe_unresolved ← gets (fun c => is_some (c_clipboard_secret c));
    extend_tracked_clipboard_secret seed (read_failed || prior_wipe_unresolved);;
    (if read_failed : bool then notice (bs "Could not inspect every clipboard selection; retrying automatically.")
     else if prior_wipe_unresolved : bool then notice PRIOR_UNCLEARED else mret tt);;
    refresh_seed_copy_ttl
  else mret tt.

(** ** Showing the phrase *)
Definition show_seed_for_one_minute : Ctl unit :=
  r ← now;
  mod_state (fun s => s <| s_show_seed := true |> <| s_seed_reveal_deadline := Some (deadline_after r (60 * NANOS)) |>).

Definition hide_seed : Ctl unit :=
  clear_seed_from_clipboard;;
  mod_state (fun s => s <| s_show_seed := false |> <| s_seed_reveal_deadline := None |>).

(** ** Phrases as they are tracked *)

(** A phrase as it is copied: normalised and not empty. *)
Definition phrase (p : bytes) : Prop := p <> [] /\ normalize_seed p = p.

(** The tracked phrases, one to a line. *)
Fixpoint join_nl (l : list bytes) : bytes :=
  match l with
  | [] => []
  | [p] => p
  | p :: l => p ++ [Byte.x0a] ++ join_nl l
  end.

Lemma no_ws_byte w b : no_ws w = true -> b ∈ w -> ws1 b = false.
Proof.
  induction w as [|a w IH]; [by intros _ ?%elem_of_nil|]. cbn [no_ws]. intros [Ha Hw]%andb_true_iff.
  intros [->|Hb]%elem_of_cons; [|by apply IH]. cbn in Ha. by destruct (ws1 a).
Qed.

Lemma join_sp_byte ws b : Forall word ws -> b ∈ join_sp ws -> b = Byte.x20 \/ ws1 b = false.
Proof.
  induction 1 as [|w ws [Hne Hw] Hws IH]; [by intros ?%elem_of_nil|]. cbn [join_sp]. destruct ws as [|w' ws].
  - intros Hb. right. by eapply no_ws_byte.
  - rewrite elem_of_app, elem_of_cons. intros [Hb|[->|Hb]]; [right; by eapply no_ws_byte|by left|by apply IH].
Qed.

Lemma phrase_byte p b : phrase p -> b ∈ p -> b = Byte.x20 \/ ws1 b = false.
Proof. intros [_ <-]. apply join_sp_byte, split_whitespace_words. Qed.

Lemma phrase_no_nl p : phrase p -> Byte.x0a ∉ p.
Proof. intros Hp Hb. by destruct (phrase_byte _ _ Hp Hb). Qed.

Lemma phrase_no_cr p : phrase p -> strip_cr p = p.
Proof.
  intros Hp. unfold strip_cr, ends_with. cbn [rev app]. destruct (rev p) as [|b q] eqn:E; [done|]. cbn [starts_with].
  destruct (N.eqb_spec (u8 Byte.x0d) (u8 b)) as [Hb%(inj u8)|]; [|done]. exfalso. subst b.
  assert (Byte.x0d ∈ p) as Hin by (apply list_elem_of_In, in_rev; rewrite E; left; done).
  by destruct (phrase_byte _ _ Hp Hin).
Qed.

Lemma split_on_free c s : c ∉ s -> split_on c s = [s].
Proof.
  induction s as [|a s IH]; [done|]. rewrite not_elem_of_cons. intros [Ha Hs]. cbn.
  destruct (N.eqb_spec (u8 a) (u8 c)) as [E%(inj u8)|]; [congruence|]. by rewrite IH.
Qed.

Lemma split_on_line c s t : c ∉ s -> split_on c (s ++ [c] ++ t) = s :: split_on c t.
Proof.
  induction s as [|a s IH]; [by cbn; rewrite N.eqb_refl|]. rewrite not_elem_of_cons. intros [Ha Hs]. cbn.
  destruct (N.eqb_spec (u8 a) (u8 c)) as [E%(inj u8)|]; [congruence|]. change (s ++ c :: t) with (s ++ [c] ++ t). by rewrite IH.
Qed.

Lemma split_join_nl l : l <> [] -> Forall phrase l -> split_on Byte.x0a (join_nl l) = l.
Proof.
  intros Hl. induction 1 as [|p l Hp Hps IH]; [done|]. destruct l as [|q l].
  - by apply split_on_free, phrase_no_nl.
  - change (split_on Byte.x0a (p ++ [Byte.x0a] ++ join_nl (q :: l)) = p :: q :: l).
    rewrite split_on_line by by apply phrase_no_nl. by rewrite IH.
Qed.

Lemma lines_join_nl l : l <> [] -> Forall phrase l -> lines (join_nl l) = l.
Proof.
  intros Hl Hp. unfold lines. rewrite split_join_nl by done.
  destruct l as [|p l] using rev_ind; [done|]. clear IHl Hl. rewrite removelast_last, List.last_last.
  apply Forall_app in Hp as [Hl [Hp _]%Forall_cons]. rewrite bool_decide_eq_false_2 by apply Hp. f_equal.
  induction Hl as [|q l Hq _ IH]; [done|]. cbn. by rewrite phrase_no_cr, IH.
Qed.

Lemma join_nl_snoc l p : l <> [] -> join_nl (l ++ [p]) = join_nl l ++ [Byte.x0a] ++ p.
Proof.
  intros Hl. induction l as [|q l IH]; [done|]. destruct l as [|q' l]; [done|].
  change (q ++ [Byte.x0a] ++ join_nl ((q' :: l) ++ [p]) = (q ++ [Byte.x0a] ++ join_nl (q' :: l)) ++ [Byte.x0a] ++ p).
  rewrite IH by done. by rewrite <- !app_assoc.
Qed.

Lemma contains_itself p sel : phrase p -> clipboard_contains_seed p p sel = true.
Proof.
  intros [Hne Hn]. unfold clipboard_contains_seed, ct_str_eq. cbv zeta. rewrite !Hn.
  rewrite bool_decide_eq_false_2 by done. by rewrite bool_decide_eq_true_2.
Qed.

(** ** What a selection holds *)
Definition text_of (sel : Selection) (y : Sys) : bytes :=
  match sel with SelClipboard => y_clipboard y | SelPrimary => y_primary y end.
Definition holds (y : Sys) (p : bytes) (sel : Selection) : bool := clipboard_contains_seed (cap_clipboard_text (text_of sel y)) p sel.

(** The tracked phrases [l]: the secret is there, with the time of its wipe, unless there are none. *)
Definition tracking (c : AppController) (l : list bytes) : Prop :=
  Forall phrase l /\
  match l with
  | [] => c_clipboard_secret c = None
  | _ => c_clipboard_secret c = Some (join_nl l) /\ is_some (c_clipboard_deadline c) = true
  end.

(** Every phrase of [ph] that a selection still holds is tracked: some tracked phrase is found there. *)
Definition tracked_well (ph : list bytes) (y : Sys) : Prop :=
  exists l, tracking (y_ctl y) l /\
    forall p sel, p ∈ ph -> holds y p sel = true -> exists q, q ∈ l /\ holds y q sel = true.

Lemma holds_nothing y p sel : text_of sel y = [] -> holds y p sel = false.
Proof. unfold holds. by intros ->. Qed.

(** ** Wiping *)

(** Nothing new came onto the clipboard. *)
Definition no_new_text (y y' : Sys) : Prop := forall sel, text_of sel y' = text_of sel y \/ text_of sel y' = [].

Lemma no_new_text_refl y : no_new_text y y.
Proof. intros sel. by left. Qed.
Lemma no_new_text_trans x y z : no_new_text x y -> no_new_text y z -> no_new_text x z.
Proof. intros H1 H2 sel. destruct (H2 sel) as [->|]; [apply H1|by right]. Qed.

Lemma held_before y y' p sel : no_new_text y y' -> holds y' p sel = true -> text_of sel y' = text_of sel y.
Proof. intros Hn Hh. destruct (Hn sel) as [|Ht]; [done|]. by rewrite holds_nothing in Hh. Qed.

Lemma holds_same y y' p sel : text_of sel y' = text_of sel y -> holds y' p sel = holds y p sel.
Proof. unfold holds. by intros ->. Qed.

Section wiping.
Context (T : Tick -> Prop) (I : FsState -> Prop) (P : Prop).

Lemma wipe_selection_wp secret sel y fs (Q : bool -> Sys -> FsState -> Prop) :
  (forall b y', y_ctl y' = y_ctl y -> aside y y' -> no_new_text y y' ->
     (b = true -> tracked_clipboard_contains_seed (cap_clipboard_text (text_of sel y')) secret sel = false) ->
     Q b y' fs) ->
  cwp T I P (wipe_selection secret sel) Q y fs.
Proof.
  intros HQ. assert (forall y' : Sys, y_ctl y' = y_ctl y -> y_tasks y' = y_tasks y -> aside y y') as Hasd.
  { intros y' Hc Ht. split; [by rewrite Hc..|]. exists []. by rewrite app_nil_r. }
  unfold wipe_selection, clip_get. cstep. cstep. cstep. destruct (o_clip _ _) as [e|].
  - cstep. cstep. apply HQ; [done|by apply Hasd| |done]. intros []; by left.
  - apply wp_ret. set (text := cap_clipboard_text _). change (match sel with SelClipboard => _ | SelPrimary => _ end)
      with (text_of sel y) in text.
    destruct (tracked_clipboard_contains_seed text secret sel) eqn:Et.
    2:{ cstep. apply HQ; [done|by apply Hasd|intros []; by left|by destruct sel]. }
    unfold clip_set. cstep. cstep. cstep. destruct (o_clip _ _) as [e|].
    + cstep. cstep. apply HQ; [done|by apply Hasd|intros []; by left|done].
    + apply wp_ret. cstep. apply HQ; [by destruct sel|apply Hasd; by destruct sel| |].
      * intros sel'. destruct sel, sel'; first [by left|by right].
      * intros _. assert (forall l, existsb (fun secret => clipboard_contains_seed [] secret sel) l = false) as He
          by (by induction l). destruct sel; apply He.
Qed.

Definition ctl_same_but_wipe (y y' : Sys) : Prop :=
  core (y_ctl y') = core (y_ctl y) /\ written (y_ctl y') = written (y_ctl y).

Lemma refresh_ttl_wp y fs (Q : unit -> Sys -> FsState -> Prop) :
  (forall y', aside y y' -> (forall sel, text_of sel y' = text_of sel y) ->
     c_clipboard_secret (y_ctl y') = c_clipboard_secret (y_ctl y) ->
     c_clipboard_deadline (y_ctl y') = c_clipboard_deadline (y_ctl y) ->
     s_clipboard_notice (c_state (y_ctl y')) = s_clipboard_notice (c_state (y_ctl y)) -> Q tt y' fs) ->
  cwp T I P refresh_seed_copy_ttl Q y fs.
Proof.
  intros HQ. unfold refresh_seed_copy_ttl. repeat cstep. apply HQ; [is_aside|by intros []|done..].
Qed.

(** What wiping leaves: nothing tracked and nothing recognised, or the secret tracked as it
    was, with the time of the next attempt and a notice. *)
Definition wiped (y y' : Sys) : Prop :=
  aside y y' /\ no_new_text y y' /\
  match c_clipboard_secret (y_ctl y) with
  | None => c_clipboard_secret (y_ctl y') = None
  | Some secret =>
      (c_clipboard_secret (y_ctl y') = None /\ s_clipboard_notice (c_state (y_ctl y')) = [] /\
       forall sel, tracked_clipboard_contains_seed (cap_clipboard_text (text_of sel y')) secret sel = false) \/
      (c_clipboard_secret (y_ctl y') = Some secret /\ is_some (c_clipboard_deadline (y_ctl y')) = true /\
       s_clipboard_notice (c_state (y_ctl y')) <> [])
  end.

Lemma cap_nil : cap_clipboard_text [] = [].
Proof. done. Qed.

Lemma tracked_nil secret sel : tracked_clipboard_contains_seed [] secret sel = false.
Proof. unfold tracked_clipboard_contains_seed. by induction (lines secret). Qed.

Lemma clear_wp y fs (Q : unit -> Sys -> FsState -> Prop) :
  (forall y', wiped y y' -> Q tt y' fs) -> cwp T I P clear_seed_from_clipboard Q y fs.
Proof.
  intros HQ. unfold clear_seed_from_clipboard. repeat cstep. destruct (c_clipboard_secret (y_ctl y)) as [secret|] eqn:Es.
  2:{ change (c_clipboard_secret (y_ctl _)) with (c_clipboard_secret (y_ctl y)). rewrite Es. repeat cstep.
      apply refresh_ttl_wp. intros y' Ha Ht Hs _ _. apply HQ. split; [etrans; [|exact Ha]; is_aside|].
      split; [intros sel; left; by rewrite Ht; destruct sel|]. by rewrite Es, Hs. }
  change (c_clipboard_secret (y_ctl _)) with (c_clipboard_secret (y_ctl y)). rewrite Es. cstep.
  apply wipe_selection_wp. intros clip y1 Hc1 Ha1 Hn1 H1. cstep. apply wipe_selection_wp.
  intros prim y2 Hc2 Ha2 Hn2 H2. cstep.
  assert (aside y y2) as Ha by (etrans; [|exact Ha2]; etrans; [|exact Ha1]; is_aside).
  assert (no_new_text y y2) as Hn.
  { eapply no_new_text_trans; [|exact Hn2]. intros sel. destruct (Hn1 sel) as [->|]; [by left; destruct sel|by right]. }
  destruct (clip && prim) eqn:Ed.
  - apply andb_true_iff in Ed as [-> ->]. unfold notice. repeat cstep. apply refresh_ttl_wp.
    intros y' Ha' Ht Hs _ Hnot. apply HQ. split; [etrans; [exact Ha|]; etrans; [|exact Ha']; is_aside|].
    split; [intros sel; rewrite Ht; destruct (Hn sel); [by left; destruct sel|by right; destruct sel]|].
    rewrite Es. left. rewrite Hs, Hnot. split; [|split; [done|]].
    { cbn. rewrite Hc2, Hc1. done. }
    intros sel. rewrite Ht. destruct sel; [|exact (H2 eq_refl)]. specialize (H1 eq_refl).
    destruct (Hn2 SelClipboard) as [E|E]; cbn in E, H1 |- *; rewrite E; [exact H1|apply tracked_nil].
  - repeat cstep. destruct (_ <? CLIPBOARD_MAX_RETRIES); unfold wipe_at, notice; repeat cstep;
      (apply refresh_ttl_wp; intros y' Ha' Ht Hs Hd Hnot; apply HQ;
       split; [etrans; [exact Ha|]; etrans; [|exact Ha']; is_aside|];
       split; [intros sel; rewrite Ht; destruct (Hn sel); [by left; destruct sel|by right; destruct sel]|];
       rewrite Es; right; rewrite Hs, Hd, Hnot; by split_and!).
Qed.

Lemma wiped_well ph y y' : wiped y y' -> tracked_well ph y -> exists l,
  tracked_well ph y' /\ tracking (y_ctl y') l /\
  (forall p sel, p ∈ ph -> holds y' p sel = true -> exists q, q ∈ l /\ holds y' q sel = true).
Proof.
  intros (_ & Hn & Hs) (l & [Hl Ht] & Hw).
  assert (exists l', tracking (y_ctl y') l' /\
    forall p sel, p ∈ ph -> holds y' p sel = true -> exists q, q ∈ l' /\ holds y' q sel = true) as (l' & Ht' & Hw').
  2:{ exists l'. split; [by exists l'|done]. }
  destruct l as [|p0 l].
  - rewrite Ht in Hs. exists []. split; [by split|]. intros p sel Hp Hh. pose proof (held_before _ _ _ _ Hn Hh) as E.
    rewrite (holds_same _ _ _ _ E) in Hh. by destruct (Hw p sel Hp Hh) as (q & ?%elem_of_nil & _).
  - destruct Ht as [Ht Hd]. rewrite Ht in Hs. destruct Hs as [(Hs & _ & Hc)|(Hs & Hd' & _)].
    + exists []. split; [by split|]. intros p sel Hp Hh. exfalso. pose proof (held_before _ _ _ _ Hn Hh) as E.
      rewrite (holds_same _ _ _ _ E) in Hh. destruct (Hw p sel Hp Hh) as (q & Hq & Hh').
      specialize (Hc sel). rewrite <- (holds_same _ _ _ _ E) in Hh'.
      unfold tracked_clipboard_contains_seed in Hc. rewrite lines_join_nl in Hc by done.
      assert (existsb (fun secret => clipboard_contains_seed (cap_clipboard_text (text_of sel y')) secret sel) (p0 :: l) = true) as He.
      { apply existsb_exists. exists q. split; [by apply list_elem_of_In|exact Hh']. }
      congruence.
    + exists (p0 :: l). split; [by split|]. intros p sel Hp Hh. pose proof (held_before _ _ _ _ Hn Hh) as E.
      rewrite (holds_same _ _ _ _ E) in Hh. destruct (Hw p sel Hp Hh) as (q & Hq & Hh').
      exists q. split; [done|]. by rewrite (holds_same _ _ _ _ E).
Qed.
End wiping.

(** ** Copying and pasting *)
Section copying.
Context (T : Tick -> Prop) (I : FsState -> Prop) (P : Prop).

Lemma tracks_join p l : l <> [] -> Forall phrase l -> tracks p (join_nl l) = bool_decide (p ∈ l).
Proof.
  intros Hl Hp. unfold tracks. rewrite lines_join_nl by done. clear Hl Hp. induction l as [|q l IH]; [done|].
  cbn [existsb]. rewrite IH. unfold ct_str_eq. destruct (decide (q = p)) as [->|Hq].
  - rewrite (bool_decide_eq_true_2 (p = p)) by done. symmetry. apply bool_decide_eq_true. by left.
  - rewrite (bool_decide_eq_false_2 (q = p)) by done. apply bool_decide_ext. rewrite elem_of_cons.
    split; [by right|by intros [->|]].
Qed.

Lemma extend_wp p retry l y fs (Q : unit -> Sys -> FsState -> Prop) :
  tracking (y_ctl y) l -> phrase p ->
  (forall y' l', tracking (y_ctl y') l' -> p ∈ l' -> (forall q, q ∈ l -> q ∈ l') -> aside y y' ->
     (forall sel, text_of sel y' = text_of sel y) -> Q tt y' fs) ->
  cwp T I P (extend_tracked_clipboard_secret p retry) Q y fs.
Proof.
  intros [Hl Ht] Hp HQ. unfold extend_tracked_clipboard_secret, wipe_at. repeat cstep.
  set (l' := if decide (p ∈ l) then l else l ++ [p]).
  set (secret := match c_clipboard_secret (y_ctl y) with Some _ => _ | None => p end).
  assert (secret = join_nl l' /\ l' <> []) as [Hs Hne].
  { unfold secret, l'. destruct l as [|p0 l].
    - rewrite Ht. rewrite decide_False by by intros ?%elem_of_nil. done.
    - destruct Ht as [-> _]. rewrite tracks_join by done. destruct (decide (p ∈ p0 :: l)).
      + by rewrite bool_decide_eq_true_2.
      + rewrite bool_decide_eq_false_2 by done. split; [by rewrite join_nl_snoc|by destruct l]. }
  assert (Forall phrase l') as Hl'.
  { unfold l'. destruct (decide (p ∈ l)); [done|]. apply Forall_app. split; [done|]. by constructor. }
  assert (p ∈ l') as Hin by (unfold l'; destruct (decide (p ∈ l)); [done|]; apply elem_of_app; right; by left).
  assert (forall q, q ∈ l -> q ∈ l') as Hsub.
  { intros q Hq. unfold l'. destruct (decide (p ∈ l)); [done|]. apply elem_of_app. by left. }
  destruct (is_none _); repeat cstep; (eapply (HQ _ l'); [|exact Hin|exact Hsub|is_aside|by intros []]);
    (split; [exact Hl'|]); destruct l'; [done|by rewrite <- Hs|done|by rewrite <- Hs].
Qed.

(** The same text on the clipboard, more of it tracked. *)
Lemma well_more (ph : list bytes) y y' (l l' : list bytes) :
  (forall sel, text_of sel y' = text_of sel y) -> tracking (y_ctl y') l' -> (forall q, q ∈ l -> q ∈ l') ->
  (forall p sel, p ∈ ph -> holds y p sel = true -> exists q, q ∈ l /\ holds y q sel = true) -> tracked_well ph y'.
Proof.
  intros Ht Htr Hsub Hw. exists l'. split; [done|]. intros p sel Hp Hh. rewrite (holds_same _ _ _ _ (Ht sel)) in Hh.
  destruct (Hw p sel Hp Hh) as (q & Hq & Hh'). exists q. split; [auto|]. by rewrite (holds_same _ _ _ _ (Ht sel)).
Qed.

Lemma well_same ph y y' :
  (forall sel, text_of sel y' = text_of sel y) -> c_clipboard_secret (y_ctl y') = c_clipboard_secret (y_ctl y) ->
  c_clipboard_deadline (y_ctl y') = c_clipboard_deadline (y_ctl y) -> tracked_well ph y -> tracked_well ph y'.
Proof.
  intros Ht Hs Hd (l & [Hl Htr] & Hw). eapply (well_more ph y y' l l); [done| |done|exact Hw].
  split; [done|]. by rewrite Hs, Hd.
Qed.

(** What an operation does: the phrases [ph] stay tracked, and nothing a save is about changes. *)
Definition keeps_track (ph : list bytes) {A} (m : Ctl A) : Prop := forall y fs,
  tracked_well ph y -> cwp T I P m (fun _ y' f => f = fs /\ aside y y' /\ tracked_well ph y') y fs.

Lemma clear_keeps_track ph : keeps_track ph clear_seed_from_clipboard.
Proof.
  intros y fs Hw. apply clear_wp. intros y' Hwi. destruct (wiped_well _ _ _ Hwi Hw) as (l & Hw' & _).
  split_and!; [done|by destruct Hwi|done].
Qed.

Lemma ttl_keeps ph y0 y fs : aside y0 y -> tracked_well ph y ->
  cwp T I P refresh_seed_copy_ttl (fun _ y' f => f = fs /\ aside y0 y' /\ tracked_well ph y') y fs.
Proof.
  intros Ha Hw. apply refresh_ttl_wp. intros y' Ha' Ht Hs Hd _. split_and!; [done|by etrans|]. by eapply well_same.
Qed.

Lemma set_clipboard_wp text y fs (Q : res bytes unit -> Sys -> FsState -> Prop) :
  (forall e y', aside y y' -> y_ctl y' = y_ctl y -> (forall sel, text_of sel y' = text_of sel y) -> Q (Err e) y' fs) ->
  (forall y', aside y y' -> y_ctl y' = y_ctl y -> text_of SelClipboard y' = text ->
     text_of SelPrimary y' = text_of SelPrimary y -> Q (Ok tt) y' fs) ->
  cwp T I P (clip_set SelClipboard text) Q y fs.
Proof.
  intros He Ho. unfold clip_set. cstep. cstep. destruct (o_clip _ _) as [e|].
  - cstep. apply He; [is_aside|done|by intros []].
  - apply wp_ret. apply Ho; [is_aside|done..].
Qed.

Lemma copy_seed_keeps_track ph p :
  (length (normalize_seed p) <= CLIPBOARD_MAX_TEXT_BYTES)%nat -> keeps_track ph (copy_seed_to_clipboard p).
Proof.
  intros Hlen y fs Hw. unfold copy_seed_to_clipboard. set (q := normalize_seed p) in *.
  case_bool_decide as Hq; [by cstep|]. assert (phrase q) as Hph by (split; [done|apply normalize_seed_idemp]).
  cstep. apply clear_wp. intros y1 Hwi. destruct (wiped_well _ _ _ Hwi Hw) as (l & Hw1 & Hl & Hh). destruct Hwi as [Ha1 _].
  repeat cstep. apply set_clipboard_wp.
  - intros e y2 Ha2 Hc2 Ht2. assert (tracked_well ph y2) as Hw2 by (eapply well_same; [done|by rewrite Hc2..|done]).
    assert (aside y y2) as Ha by by etrans. cstep.
    destruct (c_clipboard_secret (y_ctl y1)) as [secret|] eqn:Es; cbn [is_some]; unfold notice; repeat cstep.
    + apply ttl_keeps; [etrans; [exact Ha|is_aside]|]. by eapply well_same; [intros []|..|exact Hw2].
    + apply ttl_keeps; [etrans; [exact Ha|is_aside]|]. destruct l as [|p0 l]; [|by destruct Hl as [_ [? _]]; congruence].
      exists []. split; [by split|]. intros p' sel Hp' Hh'. exfalso.
      rewrite (holds_same y1 _ p' sel) in Hh'; [|by rewrite <- Ht2; destruct sel].
      by destruct (Hh p' sel Hp' Hh') as (r & ?%elem_of_nil & _).
  - intros y2 Ha2 Hc2 Ht2 Hp2. assert (aside y y2) as Ha by by etrans. repeat cstep.
    apply (extend_wp q _ l); [by rewrite Hc2|done|]. intros y3 l' Hl' Hq' Hsub Ha3 Ht3.
    unfold notice. repeat cstep. apply ttl_keeps; [etrans; [exact Ha|]; etrans; [exact Ha3|];
      match goal with |- context [is_some (s_seed_reveal_deadline ?x)] => destruct (is_some (s_seed_reveal_deadline x)) end; is_aside|].
    assert (tracked_well ph y3) as Hw3.
    { exists l'. split; [done|]. intros p' sel Hp' Hh'. destruct sel.
      - exists q. split; [done|]. unfold holds. rewrite Ht3, Ht2. unfold cap_clipboard_text.
        destruct (Nat.ltb_spec CLIPBOARD_MAX_TEXT_BYTES (length q)); [lia|]. by apply contains_itself.
      - assert (text_of SelPrimary y3 = text_of SelPrimary y1) as E by by rewrite Ht3.
        rewrite (holds_same _ _ _ _ E) in Hh'. destruct (Hh p' _ Hp' Hh') as (q' & Hq1 & Hq2).
        exists q'. split; [auto|]. by rewrite (holds_same _ _ _ _ E). }
    eapply well_same; [| | |exact Hw3]; [by intros []|done..].
Qed.

Lemma inspect_wp seed sel y fs (Q : bool * bool -> Sys -> FsState -> Prop) :
  (forall r y', aside y y' -> y_ctl y' = y_ctl y -> (forall s, text_of s y' = text_of s y) -> Q r y' fs) ->
  cwp T I P (inspect_selection seed sel) Q y fs.
Proof.
  intros HQ. unfold inspect_selection, clip_get. cstep. cstep. cstep. destruct (o_clip _ _).
  - repeat cstep. apply HQ; [is_aside|done|by intros []].
  - apply wp_ret. cstep. apply HQ; [is_aside|done|by intros []].
Qed.

Lemma paste_keeps_track ph p : phrase p -> keeps_track ph (register_pasted_seed_for_wipe p).
Proof.
  intros Hp y fs Hw. unfold register_pasted_seed_for_wipe. repeat cstep.
  match goal with |- cwp _ _ _ (if ?b then _ else _) _ _ _ => destruct b end; [by cstep|].
  cstep. apply inspect_wp. intros clip y1 Ha1 Hc1 Ht1. cstep. apply inspect_wp. intros prim y2 Ha2 Hc2 Ht2.
  assert (aside y y2) as Ha by by etrans.
  assert (tracked_well ph y2) as Hw2.
  { eapply well_same; [|by rewrite Hc2, Hc1..|exact Hw]. intros sel. by rewrite Ht2, Ht1. }
  destruct (_ || _); [|by cstep]. repeat cstep. destruct Hw2 as (l & Hl & Hh).
  apply (extend_wp p _ l); [done..|]. intros y3 l' Hl' _ Hsub Ha3 Ht3. cstep.
  assert (tracked_well ph y3) as Hw3 by (by eapply (well_more ph y2)).
  assert (aside y y3) as Ha' by by etrans.
  destruct (_ || _); [|destruct (is_some _)]; unfold notice; repeat cstep;
    (apply ttl_keeps; [first [exact Ha'|etrans; [exact Ha'|is_aside]]|]; first [exact Hw3|by eapply well_same; [intros []|..|exact Hw3]]).
Qed.
End copying.

(** ** Any sequence of them *)
Inductive ClipOp :=
| CopySeed (seed : bytes) | PasteSeed (seed : bytes) | HideSeed | WipeDue | CopyText (text : bytes)
| Elsewhere (selection : Selection) (text : bytes).

(** [Elsewhere] is another program's text. *)
Definition clip_op (o : ClipOp) : Ctl unit :=
  match o with
  | CopySeed seed => copy_seed_to_clipboard seed
  | PasteSeed seed => register_pasted_seed_for_wipe seed
  | HideSeed => hide_seed
  | WipeDue => clear_seed_from_clipboard
  | CopyText text => copy_text text
  | Elsewhere selection text => fun y =>
      io_ret (Ok (tt, match selection with
                      | SelClipboard => y <| y_clipboard := text |> | SelPrimary => y <| y_primary := text |> end))
  end.

Fixpoint clip_ops (l : list ClipOp) : Ctl unit :=
  match l with [] => mret tt | o :: l => clip_op o;; clip_ops l end.

(** Phrases fit on the clipboard, pasted ones have been normalised, and other texts are not
    taken for any of the phrases. *)
Definition wf_clip_op (ph : list bytes) (o : ClipOp) : Prop :=
  match o with
  | CopySeed seed => (length (normalize_seed seed) <= CLIPBOARD_MAX_TEXT_BYTES)%nat
  | PasteSeed seed => phrase seed
  | CopyText text => forall p, p ∈ ph -> clipboard_contains_seed (cap_clipboard_text text) p SelClipboard = false
  | Elsewhere selection text => forall p, p ∈ ph -> clipboard_contains_seed (cap_clipboard_text text) p selection = false
  | _ => True
  end.

Section tracking.
Context (T : Tick -> Prop) (I : FsState -> Prop).

Lemma other_text_well ph y y' sel :
  (forall p, p ∈ ph -> holds y' p sel = false) -> (forall s, s <> sel -> text_of s y' = text_of s y) ->
  c_clipboard_secret (y_ctl y') = c_clipboard_secret (y_ctl y) ->
  c_clipboard_deadline (y_ctl y') = c_clipboard_deadline (y_ctl y) -> tracked_well ph y -> tracked_well ph y'.
Proof.
  intros Hn Ht Hs Hd (l & [Hl Htr] & Hw). exists l. split; [split; [done|by rewrite Hs, Hd]|].
  intros p s Hp Hh. assert (s <> sel) as Hne by (intros ->; rewrite Hn in Hh; done).
  rewrite (holds_same _ _ _ _ (Ht s Hne)) in Hh. destruct (Hw p s Hp Hh) as (q & Hq & Hh').
  exists q. split; [done|]. by rewrite (holds_same _ _ _ _ (Ht s Hne)).
Qed.

Lemma clip_op_keeps_track ph o : wf_clip_op ph o -> keeps_track T I False ph (clip_op o).
Proof.
  destruct o as [p|p| | |t|sel t]; intros Ho; [by apply copy_seed_keeps_track|by apply paste_keeps_track| |apply clear_keeps_track|..].
  - intros y fs Hw. cbn. unfold hide_seed. cstep. eapply cwp_mono; [by apply clear_keeps_track|].
    intros [] y' f (-> & Ha & Hw'). cstep. split_and!; [done|etrans; [exact Ha|is_aside]|].
    eapply well_same; [| | |exact Hw']; [by intros []|done..].
  - intros y fs Hw. cbn. unfold copy_text. cstep. apply set_clipboard_wp.
    + intros e y' Ha Hc Ht. cstep. split_and!; [done..|]. eapply well_same; [exact Ht|by rewrite Hc..|done].
    + intros y' Ha Hc Ht Hp. repeat cstep. apply ttl_keeps; [etrans; [exact Ha|is_aside]|].
      apply (other_text_well ph y _ SelClipboard); [| | | |done].
      * intros p Hpp. unfold holds. cbn. cbn in Ht. rewrite Ht. by apply Ho.
      * intros [] ?; [done|exact Hp].
      * cbn. by rewrite Hc.
      * cbn. by rewrite Hc.
  - intros y fs Hw. apply wp_ret. split_and!; [done|destruct sel; is_aside|].
    apply (other_text_well ph y _ sel); [| |by destruct sel..|done].
    + intros p Hp. unfold holds. destruct sel; by apply Ho.
    + intros [] ?; by destruct sel.
Qed.

End tracking.

(** ** At work *)
Definition demo_phrase : bytes := bs "abandon ability able about above absent absorb abstract absurd abuse access accident".


(** The clipboard refuses every call. *)
Definition demo_stuck : Sys :=
  demo_sys <| y_outside := mkOutside (o_clock (y_outside demo_sys)) (fun _ => Err []) (fun _ => true) (fun _ => Some (bs "busy")) |>
    <| y_clipboard := demo_phrase |>
    <| y_ctl ::= fun c => c <| c_clipboard_secret := Some demo_phrase |> |>.

(** A copy of a record that fails forgets the phrase that is still waiting to be wiped. *)
Lemma failed_record_copy_forgets_the_phrase :
  holds demo_stuck demo_phrase SelClipboard = true /\
  cwp (fun _ => True) (fun _ => True) False (copy_secret_to_clipboard (bs "pin")) (fun _ y' _ =>
    holds y' demo_phrase SelClipboard = true /\ c_clipboard_secret (y_ctl y') = None /\
    c_clipboard_deadline (y_ctl y') = None) demo_stuck empty_disk.
Proof.
  split; [by vm_compute|]. intros env log HT. eexists _, _. split; [vm_compute; reflexivity|].
  split; [by vm_compute|]. split; [done|]. by exists [].
Qed.

(** A record of several lines is not recognised when it is to be wiped. *)
Definition demo_lines : bytes := bs "user bob" ++ [Byte.x0a] ++ bs "word hunter2".

Lemma copied_lines_are_not_wiped :
  validate_record (bs "mail") demo_lines = Ok tt /\
  cwp (fun _ => True) (fun _ => True) False (copy_secret_to_clipboard demo_lines;; clear_seed_from_clipboard) (fun _ y' _ =>
    y_clipboard y' = demo_lines /\ c_clipboard_secret (y_ctl y') = None /\ c_clipboard_deadline (y_ctl y') = None /\
    s_clipboard_notice (c_state (y_ctl y')) = []) demo_sys empty_disk.
Proof.
  split; [by vm_compute|]. intros env log HT. eexists _, _. split; [vm_compute; reflexivity|].
  split; [by vm_compute|]. split; [done|]. by exists [].
Qed.
