(* ===== verification/Loads.v ===== *)
(** * Loading the wallet, endpoints and contacts

    crates/cc-wallet-app/src/controller/wallet_ops.rs (loads), events.rs (what comes of
    them), endpoints.rs and contacts.rs. *)

From Stdlib Require Import NArith ZArith Lia.
From stdpp Require Import gmap.
From S2P Require Import Prelude Ord Bytes Text Decimal Ids Asset Amount Digest Send Profile Network.
From S2P Require Import Risk Journal Envelope Strict Authorization VaultKeys Vault Fs Atomic Wallets Writer.
From S2P Require Import ChainData Update AppState Controller Save Service Rows Policy Authorize.

(** [pending_transfer] mirrors the authorization that waits. *)
Definition refresh_pending_transfer : Ctl unit :=
  request ← gets (fun c => sa_request <$> c_pending_authorization c);
  mod_state (fun s => s <| s_pending_transfer := request |>).

(** An event's handler answers whether it got to its end; only then the mirror is brought up
    to date. *)
Definition ended (handler : Ctl bool) : Ctl unit :=
  reached ← handler;
  if reached : bool then refresh_pending_transfer else mret tt.

Section loads.
Context `{StdAddrLib} `{ChainService}.

Definition next_load_id : Ctl N :=
  modify (fun c => c <| c_wallet_load_seq ::= next_nonzero |>);;
  gets c_wallet_load_seq.

Definition apply_wallet_load_failed (error : bytes) : Ctl unit :=
  mod_state (fun s => set_error error (s <| s_snapshot_refresh_error := Some error |>));;
  s ← get_state id;
  match s_wallet s, wallet_address s with
  | None, Some address => ensure_subscription address
  | _, _ => mret tt
  end.

(** [AppEvent::WalletLoadFailed]. *)
Definition wallet_load_failed (generation request_id : N) (error : bytes) : Ctl bool :=
  other ← gets (fun c => negb (bool_decide (lr_wallet_load_id (c_load c) = Some request_id)));
  if other : bool then mret false else
  mod_load (fun l => l <| lr_wallet_load_id := None |>);;
  mod_state (fun s => s <| s_busy := false |>);;
  current ← gets c_subscription_generation;
  (if generation =? current then apply_wallet_load_failed error else mret tt);;
  mret true.

(** [AppEvent::WalletAutoLoadFailed]; [again] refreshes once more. *)
Definition wallet_auto_load_failed (again : N -> Ctl unit) (generation request_id : N) (error : bytes) : Ctl bool :=
  other ← gets (fun c => negb (bool_decide (lr_wallet_auto_refresh_id (c_load c) = Some request_id)));
  if other : bool then mret false else
  mod_load (fun l => l <| lr_wallet_auto_refresh_id := None |>);;
  mod_state (fun s => s <| s_auto_refreshing := false |>);;
  refresh_again ← gets (fun c => lr_wallet_auto_refresh_again (c_load c));
  mod_load (fun l => l <| lr_wallet_auto_refresh_again := false |>);;
  current ← gets c_subscription_generation;
  (if generation =? current then apply_wallet_load_failed error else mret tt);;
  unlocked ← get_state (fun s => bool_decide (s_phase s = Unlocked));
  generation ← gets c_subscription_generation;
  (if refresh_again && unlocked then again generation else mret tt);;
  mret true.

Definition auto_refresh_with (load : Ctl unit) (generation : N) : Ctl unit :=
  current ← gets c_subscription_generation;
  if negb (generation =? current) then mret tt else
  busy ← gets (fun c => is_some (lr_wallet_auto_refresh_id (c_load c)));
  if busy : bool then mod_load (fun l => l <| lr_wallet_auto_refresh_again := true |>) else load.

(** A load that cannot be asked for has failed at once; an automatic one may try again, once. *)
Fixpoint spawn_wallet_load (fuel : nat) (manual : bool) : Ctl unit :=
  generation ← gets c_subscription_generation;
  request_id ← next_load_id;
  inputs ← wallet_load_inputs;
  match inputs with
  | Err error =>
      if manual then
        mod_load (fun l => l <| lr_wallet_load_id := Some request_id |>);;
        ended (wallet_load_failed generation request_id error)
      else
        mod_load (fun l => l <| lr_wallet_auto_refresh_id := Some request_id |>);;
        ended (wallet_auto_load_failed
                 (match fuel with
                  | S fuel => auto_refresh_with (spawn_wallet_load fuel false)
                  | O => fun _ => mret tt
                  end) generation request_id error)
  | Panic => pure Panic
  | Ok inputs =>
      (if manual then
         mod_load (fun l => l <| lr_wallet_load_id := Some request_id |>);;
         mod_state (fun s => s <| s_busy := true |> <| s_status := bs "Updating wallet..." |>)
       else
         mod_load (fun l => l <| lr_wallet_auto_refresh_id := Some request_id |>);;
         mod_state (fun s => s <| s_auto_refreshing := true |>));;
      spawn (TaskLoadWallet generation request_id manual inputs)
  end.

Definition refresh_wallet : Ctl unit := spawn_wallet_load 1 true.

Definition manual_refresh_wallet : Ctl unit :=
  busy ← get_state s_busy;
  if busy : bool then mret tt else refresh_wallet.

Definition auto_refresh_wallet (generation : N) : Ctl unit := auto_refresh_with (spawn_wallet_load 1 false) generation.

(** ** Endpoints *)
Definition refresh_network_view : Ctl unit :=
  networks ← gets c_networks;
  mod_state (fun s =>
    let id := s_network_id s in
    let s := s <| s_network_name := match name_for networks id with
                                    | Some name => name
                                    | None => bs "network " ++ print_z id
                                    end |>
               <| s_default_endpoint := endpoint_for networks id |> in
    s <| s_selected_endpoint := selected_endpoint_index s |>).

Definition test_result (text : bytes) : Ctl unit := mod_state (fun s => s <| s_endpoint_test_result := text |>).

Definition add_endpoint (url : bytes) : Ctl unit :=
  if bool_decide (trim url = []) then mret tt else
  url ← attempt (canonical_endpoint url);
  match url with
  | Err error => test_result (bs "Not a valid endpoint URL: " ++ error)
  | Panic => pure Panic
  | Ok url =>
      listed ← gets (fun c =>
        bool_decide (endpoint_for (c_networks c) (s_network_id (c_state c)) = Some url)
        || bool_decide (url ∈ s_custom_endpoints (c_state c)));
      if listed : bool then test_result (bs "That endpoint is already in the list") else
      mod_state (fun s => s <| s_custom_endpoints ::= fun l => l ++ [url] |>);;
      save_profile;;
      test_result [];;
      refresh_network_view
  end.

(** The connection starts over on the endpoint in use now. *)
Definition reconnect : Ctl unit :=
  spawn TaskClearConfigCache;;
  mod_state (fun s => reset_recipient_status (s <| s_network_mismatch := false |>));;
  stop_subscription;;
  refresh_wallet.

Definition select_endpoint (index : N) : Ctl unit :=
  missing ← get_state (fun s => N.of_nat (length (endpoint_display_list s)) <=? index);
  if missing : bool then mret tt else
  mod_state (fun s => s <| s_selected_endpoint := index |>);;
  save_profile;;
  refresh_network_view;;
  reconnect.

(** The first of a list that is [url]. *)
Fixpoint position (url : bytes) (l : list bytes) : option nat :=
  match l with
  | [] => None
  | e :: l => if bool_decide (e = url) then Some 0%nat else S <$> position url l
  end.

Definition remove_endpoint (url : bytes) : Ctl unit :=
  url ← attempt (canonical_endpoint url);
  match url with
  | Err _ => mret tt
  | Panic => pure Panic
  | Ok url =>
      pos ← get_state (fun s => position url (s_custom_endpoints s));
      match pos with
      | None => mret tt
      | Some pos =>
          was_active ← current_endpoint;
          mod_state (fun s =>
            let removed_full_index := N.of_nat pos + (if is_some (s_default_endpoint s) then 1 else 0) in
            s <| s_custom_endpoints ::= delete pos |>
              <| s_selected_endpoint ::= fun n => if n =? removed_full_index then 0
                                                  else if removed_full_index <? n then n - 1 else n |>);;
          save_profile;;
          refresh_network_view;;
          active ← current_endpoint;
          if bool_decide (active = was_active) then mret tt else reconnect
      end
  end.

Definition test_endpoint (url : bytes) : Ctl unit :=
  if bool_decide (trim url = []) then mret tt else
  url ← attempt (canonical_endpoint url);
  match url with
  | Err error => test_result (bs "Not a valid endpoint URL: " ++ error)
  | Panic => pure Panic
  | Ok url =>
      test_result (bs "Testing endpoint…");;
      modify (fun c => c <| c_endpoint_test_url := Some url |>);;
      want ← get_state s_network_id;
      spawn (TaskProbeEndpoint want url)
  end.

Definition apply_endpoint_tested (for_network : Z) (url : bytes) (reachable : bool) (reported : option Z)
    (matches : bool) (error : option bytes) : Ctl unit :=
  other ← gets (fun c => negb (bool_decide (c_endpoint_test_url c = Some url)));
  if other : bool then mret tt else
  modify (fun c => c <| c_endpoint_test_url := None |>);;
  network_id ← get_state s_network_id;
  if negb (for_network =? network_id)%Z then mret tt else
  test_result (
    if negb reachable then bs "Unreachable: " ++ default (bs "no response") error
    else if matches then bs "OK: serves network " ++ print_z (default 0%Z reported)
    else bs "Wrong network: endpoint serves " ++ print_z (default 0%Z reported)
         ++ bs ", wallet is on " ++ print_z network_id).

(** ** Contacts *)
Definition save_contact (index : option nat) (name address tag : bytes) : Ctl unit :=
  saved ← get_state (save_contact_entry index name address tag);
  match saved with
  | Ok s =>
      mod_state (fun _ => s);;
      save_profile;;
      mod_state (fun s => s <| s_status := bs "Contact saved" |> <| s_error := None |>)
  | Err error => show_error error;; refresh_pending_transfer
  | Panic => pure Panic
  end.

Definition delete_contact_at (index : nat) : Ctl unit :=
  mod_state (delete_contact index);;
  save_profile;;
  mod_state (fun s => s <| s_status := bs "Contact deleted" |> <| s_error := None |>).

Definition reorder_contacts (from to : nat) : Ctl unit :=
  mod_state (reorder_contact from to);;
  save_profile.
End loads.
