(* ===== verification/Requests.v ===== *)
(** * Swaps and the on-chain storage (crates/cc-wallet-app/src/controller/swap.rs, storage.rs)

    Both are requests that wait for the password, are prepared and broadcast by the chain
    service on a task of their own, and are followed until the chain shows what came of them. *)

From Stdlib Require Import NArith ZArith Lia.
From stdpp Require Import gmap.
From S2P Require Import Prelude Ord Bytes Text Decimal Ids Asset Amount Digest Affordability Send Swap StorageRecord Profile.
From S2P Require Import Network Risk Journal Envelope Strict Authorization VaultKeys Vault Fs Atomic Wallets Writer.
From S2P Require Import ChainData Update AppState Controller Save Service Rows Policy Authorize Clipboard Loads.

#[export] Instance SendToken_eq_dec : EqDecision SendToken.
Proof. solve_decision. Defined.

#[export] Instance SwapForm_fields : Fields SwapForm := fun f =>
  Build_SwapForm (swap_from f) (swap_to f) (swap_amount f) (swap_slippage_bps f).

(** ** Over all routes (broadcast.rs, the last part of swap.rs and storage.rs) *)
Definition broadcast_reached_node (outcome : CandidateBroadcastOutcome) : bool :=
  match outcome with
  | OutcomeNodeResponseObserved _ _ _ | OutcomeMayHaveBroadcast _ => true
  | NotTransmitted _ _ => false
  end.

Definition outcome_detail (outcome : CandidateBroadcastOutcome) : bytes :=
  match outcome with
  | NotTransmitted detail _ | OutcomeMayHaveBroadcast detail | OutcomeNodeResponseObserved _ _ detail => detail
  end.

Definition retries (outcome : CandidateBroadcastOutcome) : bool :=
  match outcome with NotTransmitted _ retry_next_candidate => retry_next_candidate | _ => false end.

(** The loop over the candidates: [broadcast index] is what the chain service answers, [left]
    how many candidates there are yet, [tried] the attempts so far. *)
Fixpoint broadcast_from (broadcast : N -> res ChainError CandidateBroadcastOutcome) (count : nat) (index : N)
    (last : option CandidateBroadcastOutcome) (tried : list (N * CandidateBroadcastOutcome))
  : res ChainError CandidateBroadcastOutcome * list (N * CandidateBroadcastOutcome) :=
  match count with
  | O => (expect last, tried)
  | S count =>
      match broadcast index with
      | Ok outcome =>
          if retries outcome then broadcast_from broadcast count (index + 1) (Some outcome) (tried ++ [(index, outcome)])
          else (Ok outcome, tried ++ [(index, outcome)])
      | Err error => (Err error, tried)
      | Panic => (Panic, tried)
      end
  end.

Definition broadcast_all_candidates (broadcast : N -> res ChainError CandidateBroadcastOutcome) (candidate_count : nat)
  : res ChainError CandidateBroadcastOutcome * list (N * CandidateBroadcastOutcome) :=
  broadcast_from broadcast (Nat.max candidate_count 1) 0 None [].

(** ** Swaps *)
Definition send_token (asset : AssetId) : SendToken :=
  match asset with Native => TokenNative | CurrencyCollection id => TokenCc id end.

Definition mod_form (f : SwapForm -> SwapForm) : Ctl unit := mod_swap (fun s => s <| sw_form := f (sw_form s) |>).

Definition quote_for (s : SwapUi) : res Empty_set (option SwapQuote) :=
  match sw_pool s with
  | None => Ok None
  | Some pool =>
      let form := sw_form s in
      let? input := ok (swap_input form) in
      let? units := match input with Some input => base_units_u128 input | None => Ok None end in
      Ok (match units with
          | Some units =>
              if 0 <? units then
                quote_swap units (reserve_units pool (from_asset form)) (reserve_units pool (to_asset form)) (po_fee_bps pool)
                  (clamped_slippage_bps form)
              else None
          | None => None
          end)
  end.

Definition recompute_swap_quote : Ctl unit :=
  swap ← get_state s_swap;
  quote ← pure (quote_for swap);
  mod_swap (fun s => s <| sw_quote := quote |>).

Definition align_form (assets : list AssetId) (form : SwapForm) : SwapForm :=
  match assets with
  | [] => form
  | first :: _ =>
      let form := if bool_decide (from_asset form ∈ assets) then form else form <| swap_from := send_token first |> in
      let from := from_asset form in
      if negb (bool_decide (to_asset form ∈ assets)) || bool_decide (to_asset form = from)
      then match find (fun asset => negb (bool_decide (asset = from))) assets with
           | Some other => form <| swap_to := send_token other |>
           | None => form
           end
      else form
  end.

Definition align_swap_form_with_pool : Ctl unit :=
  assets ← get_state swap_pool_assets;
  mod_form (align_form assets).

Definition stale_pool (generation seq : N) (c : AppController) : bool :=
  negb (generation =? c_subscription_generation c) || negb (seq =? c_swap_pool_seq c).

Definition apply_swap_pool_loaded (generation seq : N) (pool : PoolSnapshot) : Ctl unit :=
  stale ← gets (stale_pool generation seq);
  if stale : bool then mret tt else
  mod_swap (fun s => s <| sw_pool_loading := false |> <| sw_pool_error := [] |> <| sw_pool := Some pool |>);;
  align_swap_form_with_pool;;
  recompute_swap_quote.

Definition apply_swap_pool_failed (generation seq : N) (error : bytes) : Ctl unit :=
  stale ← gets (stale_pool generation seq);
  if stale : bool then mret tt else
  mod_swap (fun s => s <| sw_pool_loading := false |> <| sw_pool := None |> <| sw_quote := None |>
                       <| sw_pool_error := error |>).

Definition flip_if_same (form : SwapForm) : SwapForm :=
  if bool_decide (swap_to form = swap_from form) then flip form else form.

Definition set_swap_from_token (asset : AssetId) : Ctl unit :=
  if negb (is_sendable asset) then mret tt else
  mod_form (fun f => flip_if_same (f <| swap_from := send_token asset |>));;
  recompute_swap_quote.

Definition set_swap_to_token (asset : AssetId) : Ctl unit :=
  if negb (is_sendable asset) then mret tt else
  mod_form (fun f => flip_if_same (f <| swap_to := send_token asset |>));;
  recompute_swap_quote.

Definition set_swap_amount (amount : bytes) : Ctl unit :=
  mod_form (fun f => f <| swap_amount := amount |>);;
  recompute_swap_quote.

Definition max_swap_text (s : AppState) : res Empty_set (option bytes) :=
  let asset := from_asset (sw_form (s_swap s)) in
  let? balance := balance_or_zero s asset in
  let? spendable := match asset with
                    | Native => ok (amount_native (saturating_sub (default 0 (native_units balance)) SWAP_MAX_NATIVE_RESERVE))
                    | CurrencyCollection _ => Ok (Some balance)
                    end in
  match spendable with
  | Some amount => ok (format_fixed9_amount amount)
  | None => Ok None
  end.

Definition set_max_swap_amount : Ctl unit :=
  s ← get_state id;
  text ← pure (max_swap_text s);
  match text with
  | Some text => set_swap_amount text
  | None => mret tt
  end.

Definition set_swap_slippage (slippage_bps : N) : Ctl unit :=
  let bps := N.min slippage_bps MAX_SLIPPAGE_BPS in
  mod_form (fun f => f <| swap_slippage_bps := bps |>);;
  mod_swap (fun s => s <| sw_slippage_input := format_slippage_percent bps |>);;
  recompute_swap_quote.

Definition step_swap_slippage (up : bool) : Ctl unit :=
  current ← get_state (fun s => clamped_slippage_bps (sw_form (s_swap s)));
  set_swap_slippage (step_slippage_bps current up).

Definition edit_swap_slippage (text : bytes) : Ctl unit :=
  mod_swap (fun s => s <| sw_slippage_input := text |>);;
  match parse_slippage_percent text with
  | Some bps => mod_form (fun f => f <| swap_slippage_bps := bps |>);; recompute_swap_quote
  | None => mret tt
  end.

Definition flip_swap : Ctl unit := mod_form flip;; recompute_swap_quote.

Definition clear_pending_swap : Ctl unit :=
  modify (fun c => c <| c_pending_swap := None |>);;
  mod_swap (fun s => s <| sw_confirm := None |>).

Definition reset_swap_for_new_identity : Ctl unit :=
  clear_pending_swap;;
  modify (fun c => c <| c_swap_in_flight := None |>);;
  mod_form (fun f => f <| swap_amount := [] |>);;
  mod_swap (fun s => s <| sw_quote := None |> <| sw_receipt := None |>).

Section swaps.
Context `{StdAddrLib} `{ChainService}.

Definition request_swap : Ctl unit :=
  waiting ← gets (fun c => is_some (c_pending_swap c));
  if waiting : bool then auth_error (bs "A swap authorization is already waiting for confirmation") else
  s ← get_state id;
  ready ← pure (swap_button_enabled s);
  if negb ready then mret tt else
  request ← pure (swap_request s);
  match request with
  | None => mret tt
  | Some request =>
  pool ← gets (fun c => dex_pool_for (c_networks c) (s_network_id (c_state c)));
  match pool with
  | None => show_error (bs "No swap pool is configured for this network")
  | Some pool =>
  inputs ← wallet_inputs;
  match inputs with
  | Err error => show_error error
  | Panic => pure Panic
  | Ok inputs =>
  generation ← gets (fun c => checked_add u64_max (c_auth_generation c) 1);
  match generation with
  | None => show_error (bs "Swap authorization generation is exhausted; lock and reopen the wallet")
  | Some generation =>
      modify (fun c => c <| c_auth_generation := generation |>);;
      mod_swap (fun s => s <| sw_confirm := Some (mkFigures (swr_input request) (swr_output request)
        (match sw_quote s with Some quote => if quote_is_empty quote then 0 else q_out_units quote | None => 0 end)) |>);;
      modify (fun c => c <| c_pending_swap := Some (mkPendingSwap request inputs pool generation) |>);;
      open_signing_auth ForSwap false
  end end end end.

Definition dispatch_authorized_swap : Ctl unit :=
  pending ← gets c_pending_swap;
  modify (fun c => c <| c_pending_swap := None |>);;
  match pending with
  | None => mret tt
  | Some pending =>
      let request := pw_request pending in
      mod_swap (fun s => s <| sw_confirm := None |>);;
      quote ← get_state (fun s => sw_quote (s_swap s));
      pool ← attempt (canonicalize_recipient (pw_pool pending));
      modify (fun c => c <| c_swap_in_flight := Some {|
        si_sent := swr_input request; si_out_asset := swr_output request;
        si_expected_out_units := match quote with Some quote => q_out_units quote | None => 0 end;
        si_min_out_units := swr_min_out_units request; si_slippage_bps := swr_slippage_bps request;
        si_pool := match pool with Ok pool => pool | _ => pw_pool pending end |} |>);;
      mod_swap (fun s => s <| sw_swapping := true |>);;
      mod_state (fun s => s <| s_busy := true |>);;
      generation ← gets c_session_generation;
      spawn (TaskSwap generation (pw_inputs pending) (pw_pool pending) request)
  end.

(** A message that reached the network without a record is waited for. *)
Definition await_external (dispatch : BroadcastDispatch) : Ctl unit :=
  mod_session (fun s => s <| se_pending_externals ::= fun l =>
    l ++ [{| px_hash := bd_ext_msg_hash dispatch; px_started_at := bd_broadcast_started_at dispatch; px_settled_ms := None |}] |>).

Definition receipt_of (dispatch : BroadcastDispatch) (submitted : N) (intent : SwapIntent) : SwapReceipt := {|
  rc_sent := si_sent intent; rc_out_asset := si_out_asset intent;
  rc_expected_out_units := si_expected_out_units intent; rc_min_out_units := si_min_out_units intent;
  rc_slippage_bps := si_slippage_bps intent; rc_pool := si_pool intent;
  rc_ext_msg_hash := Some (bd_ext_msg_hash dispatch); rc_submitted_unix := submitted;
  rc_received_units := None; rc_returned_units := None; rc_fee_native := 0 |}.

Definition refresh_everything : Ctl unit :=
  generation ← gets c_subscription_generation;
  auto_refresh_wallet generation;;
  generation ← gets c_subscription_generation;
  fetch_transactions generation.

Definition apply_swap_finished (generation : N) (result : res ChainError BroadcastDispatch) : Ctl unit :=
  stale ← gets (fun c => negb (generation =? c_session_generation c));
  if stale : bool then mret tt else
  mod_swap (fun s => s <| sw_swapping := false |>);;
  mod_state (fun s => s <| s_busy := false |>);;
  intent ← gets c_swap_in_flight;
  modify (fun c => c <| c_swap_in_flight := None |>);;
  match result with
  | Ok dispatch =>
      if broadcast_reached_node (bd_outcome dispatch) then
        await_external dispatch;;
        r ← now;
        mod_swap (fun s => s <| sw_receipt := receipt_of dispatch (now_unix r) <$> intent |>);;
        mod_form (fun f => f <| swap_amount := [] |>);;
        mod_swap (fun s => s <| sw_quote := None |>);;
        refresh_everything;;
        refresh_swap_pool;;
        reconcile_swap_receipt
      else show_error (bs "The swap did not reach the network: " ++ outcome_detail (bd_outcome dispatch))
  | Err error => show_error (ChainError_display error)
  | Panic => pure Panic
  end.
End swaps.

(** ** The storage *)
Definition STORAGE_POLL_EVERY : N := 1500 * MILLIS.
Definition STORAGE_POLL_FOR : N := 90 * NANOS.
Definition RECORD_REVEAL_FOR : N := 60 * NANOS.

Definition expectation_of (op : StorageOp) : StorageExpectation :=
  match op with OpCreate => Exists | OpPut id _ _ => Holds id | OpDelete id => Lacks id end.

Definition has_record (id : N) (s : StorageUi) : bool := existsb (fun record => st_id record =? id) (su_records s).

Definition met_by (e : StorageExpectation) (s : StorageUi) : bool :=
  match e with Exists => su_exists s | Holds id => has_record id s | Lacks id => negb (has_record id s) end.

Definition mod_storage (f : StorageUi -> StorageUi) : Ctl unit := mod_state (fun s => s <| s_storage := f (s_storage s) |>).
Definition get_storage {A} (f : StorageUi -> A) : Ctl A := get_state (fun s => f (s_storage s)).
Definition storage_error (error : bytes) : Ctl unit := mod_storage (fun s => s <| su_error := error |>).
Definition form_error (error : bytes) : Ctl unit := mod_storage (fun s => s <| su_form_error := error |>).

Definition refresh_record_reveal_ttl : Ctl unit :=
  r ← now;
  mod_state (fun s => s <| s_storage ::= fun u => u <| su_reveal_ttl_secs :=
    match s_records_reveal_deadline s with Some deadline => remaining_secs r deadline | None => 0 end |> |>).

Definition show_records_for_one_minute : Ctl unit :=
  mod_storage (fun s => s <| su_revealed := true |>);;
  r ← now;
  mod_state (fun s => s <| s_records_reveal_deadline := Some (deadline_after r RECORD_REVEAL_FOR) |>);;
  refresh_record_reveal_ttl.

Definition hide_storage_records : Ctl unit :=
  mod_state (fun s => s <| s_storage ::= fun u => u <| su_revealed := false |> <| su_reveal_ttl_secs := 0 |> |>
                        <| s_records_reveal_deadline := None |>);;
  clear_seed_from_clipboard.

Definition expire_record_reveal : Ctl unit :=
  r ← now;
  over ← get_state (fun s => match s_records_reveal_deadline s with Some deadline => expired r deadline | None => false end);
  if over : bool then hide_storage_records else refresh_record_reveal_ttl.

Definition reveal_storage_records : Ctl unit :=
  none ← get_storage (fun s => bool_decide (length (su_records s) = 0%nat));
  if none : bool then mret tt else open_auth ForRevealRecords.

Definition copy_storage_record (id : N) : Ctl unit :=
  s ← get_storage (fun s => s);
  if negb (su_revealed s) then mret tt else
  match find (fun record => st_id record =? id) (su_records s) with
  | None => mret tt
  | Some record => copy_secret_to_clipboard (st_data record)
  end.

Definition set_storage_title (title : bytes) : Ctl unit :=
  mod_storage (fun s => s <| su_title_input := title |> <| su_form_error := [] |>).
Definition set_storage_data (data : bytes) : Ctl unit :=
  mod_storage (fun s => s <| su_data_input := data |> <| su_form_error := [] |>).
Definition clear_storage_form : Ctl unit :=
  mod_storage (fun s => s <| su_title_input := [] |> <| su_data_input := [] |> <| su_form_error := [] |>).

Definition clear_pending_storage : Ctl unit :=
  modify (fun c => c <| c_pending_storage := None |>);;
  mod_storage (fun s => s <| su_pending_label := [] |> <| su_pending_danger := false |>).

Section storage.
Context `{StdAddrLib} `{ChainService}.

Definition refresh_storage : Ctl unit :=
  inputs ← wallet_inputs;
  match inputs with
  | Err error => storage_error error
  | Panic => pure Panic
  | Ok inputs =>
      unknown ← get_storage (fun s => bool_decide (su_address s = []));
      (if unknown : bool then
         address ← attempt (storage_address_for inputs);
         match address with Ok address => mod_storage (fun s => s <| su_address := address |>) | _ => mret tt end
       else mret tt);;
      mod_storage (fun s => s <| su_loading := true |> <| su_error := [] |>);;
      generation ← gets c_subscription_generation;
      modify (fun c => c <| c_storage_seq ::= wrapping_inc |>);;
      seq ← gets c_storage_seq;
      spawn (TaskLoadStorage generation seq inputs)
  end.

Definition on_storage_tab_opened : Ctl unit :=
  there ← get_storage (fun s => su_loaded s || su_loading s);
  if there : bool then mret tt else refresh_storage.

Definition on_storage_tab (s : AppState) : bool := match s_selected_tab s with TabStorage => true | _ => false end.

Definition abandon_stale_storage_read (seq : N) : Ctl unit :=
  other ← gets (fun c => negb (seq =? c_storage_seq c) || negb (su_loading (s_storage (c_state c))));
  if other : bool then mret tt else
  mod_storage (fun s => s <| su_loading := false |>);;
  open_ ← get_state on_storage_tab;
  if open_ : bool then refresh_storage else mret tt.

Definition stale_storage (generation seq : N) (c : AppController) : bool :=
  negb (generation =? c_subscription_generation c) || negb (seq =? c_storage_seq c).

Definition apply_storage_loaded (generation seq : N) (snapshot : StorageSnapshot) : Ctl unit :=
  stale ← gets (stale_storage generation seq);
  if stale : bool then abandon_stale_storage_read seq else
  mod_storage (fun s => s <| su_loading := false |> <| su_loaded := true |> <| su_error := [] |>
    <| su_address := ss_address snapshot |> <| su_exists := ss_exists snapshot |>
    <| su_balance := ss_balance snapshot |> <| su_records := ss_records snapshot |>
    <| su_unreadable := ss_unreadable snapshot |>);;
  met ← gets (fun c => match c_storage_watch c with
                       | Some watch => met_by (sw_expectation watch) (s_storage (c_state c))
                       | None => false
                       end);
  if met : bool then
    modify (fun c => c <| c_storage_watch := None |>);; mod_storage (fun s => s <| su_notice := [] |>)
  else mret tt.

Definition apply_storage_load_failed (generation seq : N) (error : bytes) : Ctl unit :=
  stale ← gets (stale_storage generation seq);
  if stale : bool then abandon_stale_storage_read seq else
  mod_storage (fun s => s <| su_loading := false |> <| su_error := error |>).

Definition expedite_storage_settlement : Ctl unit :=
  idle ← gets (fun c => is_none (c_storage_watch c) || su_loading (s_storage (c_state c)));
  if idle : bool then mret tt else refresh_storage.

Definition NOT_CHANGED_YET : bytes :=
  bs "The request reached the network but the storage has not changed yet. Refresh to check again.".

Definition poll_storage_settlement (now : N) : Ctl unit :=
  watch ← gets c_storage_watch;
  match watch with
  | None => mret tt
  | Some watch =>
      if sw_give_up_at watch <=? now then
        modify (fun c => c <| c_storage_watch := None |>);;
        mod_storage (fun s => s <| su_notice := [] |> <| su_error := NOT_CHANGED_YET |>)
      else
      loading ← get_storage su_loading;
      if (now <? sw_next_poll watch) || loading then mret tt else
      modify (fun c => c <| c_storage_watch := Some (watch <| sw_next_poll := now + STORAGE_POLL_EVERY |>) |>);;
      refresh_storage;;
      generation ← gets c_subscription_generation;
      fetch_transactions generation
  end.

Definition request_storage_op (op : StorageOp) : Ctl unit :=
  waiting ← gets (fun c => is_some (c_pending_storage c) || su_busy (s_storage (c_state c)));
  if waiting : bool then storage_error (bs "A storage request is already waiting for confirmation") else
  inputs ← wallet_inputs;
  match inputs with
  | Err error => show_error error
  | Panic => pure Panic
  | Ok inputs =>
  generation ← gets (fun c => checked_add u64_max (c_auth_generation c) 1);
  match generation with
  | None => show_error (bs "Storage authorization generation is exhausted; lock and reopen the wallet")
  | Some generation =>
      modify (fun c => c <| c_auth_generation := generation |>);;
      mod_storage (fun s => s <| su_pending_label := bs (op_label op) |>
        <| su_pending_danger := match op with OpDelete _ => true | _ => false end |>);;
      modify (fun c => c <| c_pending_storage := Some (mkPendingStorage op inputs generation) |>);;
      open_signing_auth ForStorage false
  end end.

Definition create_storage : Ctl unit :=
  there ← get_storage su_exists;
  if there : bool then storage_error (bs "This wallet already has a storage") else request_storage_op OpCreate.

Definition add_storage_record : Ctl unit :=
  s ← get_storage (fun s => s);
  if negb (su_exists s) then form_error (bs "Create the storage first") else
  let title := trim (su_title_input s) in
  let data := su_data_input s in
  checked ← attempt (let? _ := validate_record title data in next_free_id (taken_ids s) MAX_STORAGE_RECORDS);
  match checked with
  | Ok id => request_storage_op (OpPut id title data)
  | Err error => form_error (bs (StorageError_display error))
  | Panic => pure Panic
  end.

Definition delete_storage_record (id : N) : Ctl unit :=
  there ← get_storage (has_record id);
  if negb there then storage_error (bs "That record is no longer in the storage") else request_storage_op (OpDelete id).

Definition reset_storage_for_new_identity : Ctl unit :=
  clear_pending_storage;;
  modify (fun c => c <| c_storage_watch := None |>);;
  mod_state (fun s => s <| s_records_reveal_deadline := None |> <| s_storage := StorageUi_default |>);;
  open_ ← get_state on_storage_tab;
  if open_ : bool then refresh_storage else mret tt.

Definition dispatch_authorized_storage : Ctl unit :=
  pending ← gets c_pending_storage;
  modify (fun c => c <| c_pending_storage := None |>);;
  match pending with
  | None => mret tt
  | Some pending =>
      mod_storage (fun s => s <| su_busy := true |> <| su_error := [] |> <| su_notice := [] |>);;
      mod_state (fun s => s <| s_busy := true |>);;
      generation ← gets c_session_generation;
      spawn (TaskStorageOp generation (pg_inputs pending) (pg_op pending))
  end.

Definition storage_notice (op : StorageOp) : bytes :=
  match op with
  | OpCreate => bs "Creating the storage on chain"
  | OpPut id _ _ => bs "Saving record #" ++ print_dec id
  | OpDelete id => bs "Deleting record #" ++ print_dec id
  end.

Definition apply_storage_finished (generation : N) (op : StorageOp) (result : res ChainError BroadcastDispatch) : Ctl unit :=
  mod_storage (fun s => s <| su_busy := false |> <| su_pending_label := [] |>);;
  mod_state (fun s => s <| s_busy := false |>);;
  stale ← gets (fun c => negb (generation =? c_session_generation c));
  if stale : bool then mret tt else
  match result with
  | Ok dispatch =>
      if broadcast_reached_node (bd_outcome dispatch) then
        await_external dispatch;;
        mod_storage (fun s => s <| su_notice := storage_notice op |>);;
        match op with OpPut _ _ _ => clear_storage_form | _ => mret tt end;;
        r ← now;
        modify (fun c => c <| c_storage_watch := Some (mkWatch (expectation_of op) (r_mono r + STORAGE_POLL_EVERY)
                                                         (r_mono r + STORAGE_POLL_FOR)) |>);;
        refresh_everything;;
        refresh_storage
      else storage_error (bs "The storage request did not reach the network: " ++ outcome_detail (bd_outcome dispatch))
  | Err error => storage_error (ChainError_display error)
  | Panic => pure Panic
  end.
End storage.
