(* ===== verification/Events.v ===== *)
(** * What the background tasks report (crates/cc-wallet-app/src/event.rs, controller/events.rs)

    Every task ends in an event, and the event loop applies one after the other.  An event
    names the connection, the session or the request it belongs to, and one that is late
    changes nothing.  The events of the explorer, whose state is not modelled, are left out. *)

From Stdlib Require Import NArith ZArith Lia.
From stdpp Require Import gmap.
From S2P Require Import Prelude Ord Bytes Text Decimal Ids Asset Amount Digest Affordability Send Swap StorageRecord Profile.
From S2P Require Import Network Risk Journal Envelope Strict Authorization VaultKeys Vault Fs Atomic Wallets Writer.
From S2P Require Import ChainData Update AppState Controller Save Service Rows Policy Delivery Authorize RiskReview.
From S2P Require Import Clipboard Loads Requests.

Inductive AppEvent :=
| WalletLoaded (generation request_id : N) (snapshot : WalletSnapshot)
| WalletAutoLoaded (generation request_id : N) (snapshot : WalletSnapshot)
| WalletAutoLoadFailed (generation request_id : N) (error : bytes)
| WalletLoadFailed (generation request_id : N) (error : bytes)
| SubscriptionReady (generation : N) (uuid : bytes)
| SubscriptionUpdate (generation : N)
| SubscriptionFailed (generation : N) (error : bytes)
| SendPrepared (generation : N) (expected_ticket_digest : Digest32) (risk_grant_required : bool)
    (prepared : PreparedChainSend)
| CandidateBroadcastFinished (generation : N) (prepared : PreparedChainSend) (candidate_index : N)
    (outcome : CandidateBroadcastOutcome)
| SendFailed (generation : N) (error : ChainError)
| DestinationChecked (generation seq : N) (address : bytes) (report : option DestinationReport)
| ChatPeerKeyLoaded (seq : N) (peer : bytes) (report : option DestinationReport)
| FeeEstimated (generation seq : N) (estimate : FeeEstimate)
| MaxFeeEstimated (generation seq : N) (estimate : FeeEstimate)
| FeeEstimateFailed (generation seq : N)
| TransactionsLoaded (generation fetch_id : N) (head_refresh_only : bool) (events : list ActivityEvent)
    (integrity_error : option bytes) (incomplete gap : bool) (deepest_lt : option N)
| EndpointHistoryScanned (generation fetch_id : N) (head_refresh_only : bool)
    (observations : list EndpointTransactionEvidence)
    (scan_start_before_lt scan_stop_at scan_age_cutoff continuation_before_lt deepest_lt : option N) (gap : bool)
| RiskContextLoaded (generation : N) (authorization_digest : Digest32) (snapshot : WalletSnapshot)
| RiskContextFailed (generation : N) (authorization_digest : Digest32) (error : bytes)
| EndpointTested (for_network : Z) (url : bytes) (reachable : bool) (reported_network_id : option Z)
    (matches_wallet : bool) (error : option bytes)
| SwapPoolLoaded (generation seq : N) (snapshot : PoolSnapshot)
| SwapPoolFailed (generation seq : N) (error : bytes)
| SwapFinished (generation : N) (result : res ChainError BroadcastDispatch)
| StorageLoaded (generation seq : N) (snapshot : StorageSnapshot)
| StorageLoadFailed (generation seq : N) (error : bytes)
| StorageFinished (generation : N) (op : StorageOp) (result : res ChainError BroadcastDispatch)
| EventError (error : bytes).

(** ** Scans of the history *)

(** Two observations of one message are kept, so that a contradiction is seen, and no more. *)
Definition extend_one (retained : list EndpointTransactionEvidence) (observation : EndpointTransactionEvidence)
  : list EndpointTransactionEvidence :=
  let same := List.filter (fun existing => same_endpoint_message existing observation) retained in
  if existsb (fun existing => same_endpoint_transaction existing observation) same then retained
  else if (length same <? 2)%nat then retained ++ [observation] else retained.

Definition extend_scan_observations (retained incoming : list EndpointTransactionEvidence)
  : list EndpointTransactionEvidence := fold_left extend_one incoming retained.

Definition either_min (a b : option N) : option N :=
  match a, b with Some a, Some b => Some (N.min a b) | _, _ => option_or a b end.

(** Whether a page is the next one of the scan. *)
Definition continues (scan : HistoryReconciliationScan) (start stop_at age_cutoff : option N) : bool :=
  bool_decide (hs_stop_at scan = stop_at) && bool_decide (hs_age_cutoff scan = age_cutoff)
  && bool_decide (start = Some (hs_next_before_lt scan)).

(** The scan after a page of the head, with or without a page to follow. *)
Definition scan_after_head (scan : option HistoryReconciliationScan)
    (stop_at age_cutoff continuation deepest_lt : option N) (relevant : list EndpointTransactionEvidence)
  : option HistoryReconciliationScan :=
  match continuation with
  | Some next_before_lt =>
      Some match scan with
           | Some scan => mkScanState next_before_lt (hs_stop_at scan) (hs_age_cutoff scan)
                            (either_min (hs_deepest_lt scan) deepest_lt)
                            (extend_scan_observations (hs_observations scan) relevant) MAX_AUTOMATIC_HISTORY_CONTINUATIONS
           | None => mkScanState next_before_lt stop_at age_cutoff deepest_lt (extend_scan_observations [] relevant)
                       MAX_AUTOMATIC_HISTORY_CONTINUATIONS
           end
  | None => match scan with
            | Some scan => Some (scan <| hs_observations ::= fun l => extend_scan_observations l relevant |>)
            | None => None
            end
  end.

(** The scan after a page that is not the last. *)
Definition scan_after_page (scan : option HistoryReconciliationScan) (start stop_at age_cutoff : option N)
    (next_before_lt : N) (deepest_lt : option N) (relevant : list EndpointTransactionEvidence)
  : option HistoryReconciliationScan :=
  match scan with
  | Some scan =>
      if continues scan start stop_at age_cutoff then
        Some (scan <| hs_next_before_lt := next_before_lt |>
                   <| hs_deepest_lt := match deepest_lt with
                                       | Some _ => either_min (hs_deepest_lt scan) deepest_lt
                                       | None => hs_deepest_lt scan
                                       end |>
                   <| hs_observations ::= fun l => extend_scan_observations l relevant |>)
      else None
  | None =>
      if is_none start
      then Some (mkScanState next_before_lt stop_at age_cutoff deepest_lt (extend_scan_observations [] relevant)
                   MAX_AUTOMATIC_HISTORY_CONTINUATIONS)
      else None
  end.

Definition lower_history_floor (floor : N) : Ctl unit :=
  mod_session (fun s => s <| se_history_synced_floor ::= fun old =>
    Some match old with Some old => N.min old floor | None => floor end |>).

Section events.
Context `{Sha256} `{VaultPrims} `{Tempfile} `{WalletCodec} `{StdAddrLib} `{ChainService} `{RandomError}.

Definition relevant_observations (journal : JournalEnvelope) (l : list EndpointTransactionEvidence)
  : res Empty_set (list EndpointTransactionEvidence) :=
  filter_res (fun observation => any_res (fun record => observation_matches_record record observation)
                                   (env_records journal)) l.

(** The last page: the observations of the whole scan are reconciled. *)
Definition finish_history_scan (generation fetch_id : N) (completed : option HistoryReconciliationScan)
    (deepest_lt : option N) (relevant : list EndpointTransactionEvidence) : Ctl unit :=
  (match either_min (completed ≫= hs_deepest_lt) deepest_lt with
   | Some floor => lower_history_floor floor
   | None => mret tt
   end);;
  let observations := extend_scan_observations (match completed with Some scan => hs_observations scan | None => [] end) relevant in
  if bool_decide (length observations = 0%nat) then mret tt else
  accepted ← reconcile_endpoint_observations generation observations;
  if accepted && negb (fetch_id =? 0) then auto_refresh_wallet generation else mret tt.

Definition endpoint_history_scanned (generation fetch_id : N) (head_refresh_only : bool)
    (observations : list EndpointTransactionEvidence)
    (start stop_at age_cutoff continuation deepest_lt : option N) (gap : bool) : Ctl bool :=
  stale ← gets (fun c =>
    (negb (fetch_id =? 0) && negb (bool_decide (lr_fetch_in_flight_id (c_load c) = Some fetch_id)))
    || negb (generation =? c_subscription_generation c));
  if stale : bool then mret false else
  if gap then mod_load (fun l => l <| lr_history_reconciliation_scan := None |>);; mret false else
  journal ← gets c_journal;
  relevant ← pure (relevant_observations journal observations);
  if head_refresh_only then
    mod_load (fun l => l <| lr_history_reconciliation_scan ::= fun scan =>
      scan_after_head scan stop_at age_cutoff continuation deepest_lt relevant |>);;
    mret false
  else
  match continuation with
  | Some next_before_lt =>
      mod_load (fun l => l <| lr_history_reconciliation_scan ::= fun scan =>
        scan_after_page scan start stop_at age_cutoff next_before_lt deepest_lt relevant |>);;
      mret true
  | None =>
      scan ← gets (fun c => lr_history_reconciliation_scan (c_load c));
      match scan with
      | Some scan =>
          if continues scan start stop_at age_cutoff then
            mod_load (fun l => l <| lr_history_reconciliation_scan := None |>);;
            finish_history_scan generation fetch_id (Some scan) deepest_lt relevant;;
            mret true
          else mret false
      | None => if is_none start then finish_history_scan generation fetch_id None deepest_lt relevant;; mret true
                else mret false
      end
  end.

Definition integrity_text (error : bytes) : bytes :=
  bs "Transaction history failed validation; signing is blocked until a complete valid refresh: " ++ error.

Definition CONNECTION_RESTARTED : bytes :=
  bs "The live connection restarted during the duplicate-risk pre-check; start the review again".

(** A fetch of an earlier connection has ended: what was asked for meanwhile is asked again. *)
Definition refetch_after_restart : Ctl unit :=
  lost ← gets (fun c => c_pending_risk_reconciliation c && negb (lr_fetch_again (c_load c)));
  (if lost : bool then abort_risk_review CONNECTION_RESTARTED else mret tt);;
  again ← gets (fun c => lr_fetch_again (c_load c));
  mod_load (fun l => l <| lr_fetch_again := false |>);;
  if negb again then mret tt else
  scanning ← gets (fun c => is_some (lr_history_reconciliation_scan (c_load c)));
  generation ← gets c_subscription_generation;
  if scanning : bool then
    mod_load (fun l => l <| lr_fetch_head_after_history_scan := true |>);;
    continue_history_scan generation
  else fetch_transactions generation.

(** What is fetched next. *)
Definition fetch_on (head_refresh_only : bool) : Ctl unit :=
  scan_pending ← gets (fun c => is_some (lr_history_reconciliation_scan (c_load c)));
  again ← gets (fun c => lr_fetch_again (c_load c));
  let queued_during_scan := scan_pending && again in
  (if scan_pending : bool then mod_load (fun l => l <| lr_fetch_again := false |>) else mret tt);;
  (if queued_during_scan then mod_load (fun l => l <| lr_fetch_head_after_history_scan := true |>) else mret tt);;
  auto_continue ← gets (fun c => match lr_history_reconciliation_scan (c_load c) with
                                 | Some scan => negb (hs_automatic_continuations_remaining scan =? 0)
                                 | None => false
                                 end);
  (if auto_continue : bool then
     mod_load (fun l => l <| lr_history_reconciliation_scan ::= fmap (fun scan =>
       scan <| hs_automatic_continuations_remaining ::= fun n => n - 1 |>) |>)
   else mret tt);;
  generation ← gets c_subscription_generation;
  head_after ← gets (fun c => lr_fetch_head_after_history_scan (c_load c));
  again ← gets (fun c => lr_fetch_again (c_load c));
  if auto_continue || queued_during_scan then continue_history_scan generation else
  if scan_pending && head_after then
    mod_load (fun l => l <| lr_fetch_head_after_history_scan := false |>);;
    fetch_history_head generation
  else if negb scan_pending && (again || head_after) then
    mod_load (fun l => l <| lr_fetch_again := false |> <| lr_fetch_head_after_history_scan := false |>);;
    fetch_transactions generation
  else if scan_pending && negb head_refresh_only then fetch_history_head generation
  else mret tt.

Definition transactions_loaded (generation fetch_id : N) (head_refresh_only : bool) (events : list ActivityEvent)
    (integrity_error : option bytes) (incomplete gap : bool) (deepest_lt : option N) : Ctl bool :=
  other ← gets (fun c => negb (fetch_id =? 0) && negb (bool_decide (lr_fetch_in_flight_id (c_load c) = Some fetch_id)));
  if other : bool then mret false else
  mod_load (fun l => l <| lr_fetch_in_flight := false |> <| lr_fetch_in_flight_id := None |>);;
  current ← gets c_subscription_generation;
  if negb (generation =? current) then refetch_after_restart;; mret false else
  merge_activity events;;
  scanning ← gets (fun c => is_some (lr_history_reconciliation_scan (c_load c)));
  let incomplete := incomplete || (negb gap && scanning) in
  mod_state (fun s => s <| s_history_incomplete := incomplete |>);;
  (match integrity_error with
   | Some error => mod_state (fun s => set_error (integrity_text error)
                                         (s <| s_history_integrity_error := Some (integrity_text error) |>))
   | None => if negb incomplete && negb gap then mod_state (fun s => s <| s_history_integrity_error := None |>) else mret tt
   end);;
  (if gap then
     mod_load (fun l => l <| lr_history_reconciliation_scan := None |>);;
     mod_session (fun s => s <| se_history_has_gap := true |>)
   else if negb incomplete then
     mod_state (fun s => s <| s_history_corrupt := false |>);;
     mod_session (fun s => s <| se_history_has_gap := false |>);;
     match deepest_lt with Some floor => lower_history_floor floor | None => mret tt end
   else mret tt);;
  fetch_on head_refresh_only;;
  finish_pending_risk_reconciliation;;
  mret true.

(** ** The wallet *)
Definition apply_wallet_snapshot (snapshot : WalletSnapshot) (manual : bool) : Ctl unit :=
  mod_state (fun s => s <| s_snapshot_refresh_error := None |> <| s_error := None |>
    <| s_status := if is_some (ws_observed_network_time snapshot) then bs "Wallet updated"
                   else bs "Network time unavailable — signing is disabled" |>
    <| s_derived_wallet_address := ws_address snapshot |> <| s_wallet := Some snapshot |>);;
  reconcile_from_replay_guard;;
  refresh_journal_policy;;
  (if manual then mod_state (fun s => s <| s_selected_tab := TabWallet |>) else mret tt);;
  ensure_subscription (ws_address snapshot);;
  (if manual then generation ← gets c_subscription_generation; fetch_transactions generation else mret tt);;
  free ← gets (fun c => negb (s_sending (c_state c)) && is_none (c_pending_authorization c));
  if free : bool then estimate_fee else mret tt.

(** Whether the snapshot was taken over, or is of another network. *)
Definition take_snapshot (generation : N) (snapshot : WalletSnapshot) (manual : bool) : Ctl bool :=
  current ← gets c_subscription_generation;
  if negb (generation =? current) then mret true else
  same ← verify_network_id (ws_global_id snapshot);
  if negb same then
    mod_state (fun s => s <| s_live_status := Offline |>
                          <| s_subscription_status := bs "endpoint serves a different network" |>);;
    mret false
  else apply_wallet_snapshot snapshot manual;; mret true.

Definition wallet_loaded (generation request_id : N) (snapshot : WalletSnapshot) : Ctl bool :=
  other ← gets (fun c => negb (bool_decide (lr_wallet_load_id (c_load c) = Some request_id)));
  if other : bool then mret false else
  mod_load (fun l => l <| lr_wallet_load_id := None |>);;
  mod_state (fun s => s <| s_busy := false |>);;
  take_snapshot generation snapshot true.

Definition wallet_auto_loaded (generation request_id : N) (snapshot : WalletSnapshot) : Ctl bool :=
  other ← gets (fun c => negb (bool_decide (lr_wallet_auto_refresh_id (c_load c) = Some request_id)));
  if other : bool then mret false else
  mod_load (fun l => l <| lr_wallet_auto_refresh_id := None |>);;
  mod_state (fun s => s <| s_auto_refreshing := false |>);;
  refresh_again ← gets (fun c => lr_wallet_auto_refresh_again (c_load c));
  mod_load (fun l => l <| lr_wallet_auto_refresh_again := false |>);;
  taken ← take_snapshot generation snapshot false;
  if negb taken then mret false else
  unlocked ← get_state (fun s => bool_decide (s_phase s = Unlocked));
  generation ← gets c_subscription_generation;
  (if refresh_again && unlocked then auto_refresh_wallet generation else mret tt);;
  mret true.

(** ** The connection *)
Definition SUBSCRIPTION_BACKOFF_MAX_SECS : N := 30.

(** What belongs to the connection is done only while it is the current one. *)
Definition if_connected (generation : N) (handler : Ctl unit) : Ctl bool :=
  current ← gets c_subscription_generation;
  (if generation =? current then handler else mret tt);;
  mret true.

Definition subscription_ready (generation : N) (uuid : bytes) : Ctl unit :=
  mod_state (fun s => s <| s_live_status := Live |> <| s_subscription_status := bs "subscribed " ++ uuid |>
                        <| s_error := None |>);;
  modify (fun c => c <| c_subscription_backoff_secs := SUBSCRIPTION_BACKOFF_MIN_SECS |> <| c_subscription_retry_at := None |>);;
  behind ← gets (fun c => s_journal_blocking (c_state c) || is_some (lr_history_reconciliation_scan (c_load c))
                          || s_history_incomplete (c_state c) || se_history_has_gap (c_session c));
  (if behind : bool then expedite_journal_reconciliation;; fetch_transactions generation else mret tt);;
  unloaded ← get_state (fun s => is_none (s_wallet s) || is_some (s_snapshot_refresh_error s));
  if unloaded : bool then auto_refresh_wallet generation else mret tt.

Definition subscription_update (generation : N) : Ctl unit :=
  mod_state (fun s => s <| s_subscription_status := bs "account update received" |>);;
  end_waits_on_announcement;;
  expedite_journal_reconciliation;;
  expedite_storage_settlement;;
  fetch_transactions generation;;
  auto_refresh_wallet generation.

Definition subscription_failed (error : bytes) : Ctl unit :=
  modify (fun c => c <| c_subscription_task := None |> <| c_subscription_key := None |>);;
  mod_state (fun s => s <| s_live_status := Connecting |>
                        <| s_subscription_status := bs "reconnecting (" ++ error ++ bs ")" |>);;
  r ← now;
  modify (fun c => c <| c_subscription_retry_at := Some (r_mono r + c_subscription_backoff_secs c * NANOS) |>
    <| c_subscription_backoff_secs ::= fun backoff => N.min (N.min u64_max (backoff * 2)) SUBSCRIPTION_BACKOFF_MAX_SECS |>).

(** ** Fees *)
Definition fee_known : Ctl unit := mod_state (fun s => s <| s_fee_estimating := false |> <| s_fee_estimate_stale := false |>).

Definition fee_estimated (generation seq : N) (estimate : FeeEstimate) : Ctl bool :=
  current ← gets c_fee_request_seq;
  (if seq =? current then
     fee_known;;
     connected ← gets (fun c => generation =? c_subscription_generation c);
     (if connected : bool then mod_state (fun s => s <| s_fee_estimate := Some estimate |>) else mret tt);;
     start_queued_max_fee_estimate
   else mret tt);;
  mret true.

(** The native balance of the snapshot. *)
Definition native_balance (s : AppState) : res Empty_set (option N) :=
  match s_wallet s with
  | None => Ok None
  | Some wallet => rmap native_units (balance_for wallet Native)
  end.

(** The amount is set to what the fee leaves, or, if the balance is another by now, asked for
    again; the answer is whether the refinement is over. *)
Definition refine_max (estimate : FeeEstimate) : Ctl bool :=
  frozen ← gets (fun c => is_some (c_pending_authorization c) || is_some (c_pending_risk_review c)
                          || c_pending_risk_reconciliation c || s_sending (c_state c));
  if frozen : bool then mret true else
  s ← get_state id;
  current_balance ← pure (native_balance s);
  asked ← gets c_pending_max_balance;
  if negb (bool_decide (current_balance = asked)) then clear_pending_max;; set_max_amount;; mret false else
  mod_state (fun s => s <| s_fee_estimate := Some estimate |>);;
  match current_balance with
  | Some balance =>
      amount ← pure (rexpect (format_native_fixed9 (max_native_spendable balance (fee_nanos estimate))));
      set_amount amount
  | None => mret tt
  end;;
  mret true.

Definition max_fee_estimated (generation seq : N) (estimate : FeeEstimate) : Ctl bool :=
  current ← gets c_fee_request_seq;
  if negb (seq =? current) then mret true else
  fee_known;;
  owns_refinement ← gets (fun c => bool_decide (c_pending_max_seq c = Some seq));
  connected ← gets (fun c => generation =? c_subscription_generation c);
  refined ← (if connected && owns_refinement then refine_max estimate else mret true);
  if negb refined then mret false else
  (if owns_refinement : bool then clear_pending_max else start_queued_max_fee_estimate);;
  mret true.

Definition fee_estimate_failed (generation seq : N) : Ctl bool :=
  current ← gets c_fee_request_seq;
  (if seq =? current then
     fee_known;;
     connected ← gets (fun c => generation =? c_subscription_generation c);
     (if connected : bool then mod_state (fun s => s <| s_fee_estimate := None |>) else mret tt);;
     owned ← gets (fun c => bool_decide (c_pending_max_seq c = Some seq));
     if owned : bool then clear_pending_max else start_queued_max_fee_estimate
   else mret tt);;
  mret true.

(** ** Sends *)
Definition send_failed (generation : N) (error : ChainError) : Ctl bool :=
  current ← gets c_session_generation;
  if negb (generation =? current) then mret false else
  mod_state (fun s => s <| s_busy := false |> <| s_sending := false |>);;
  modify (fun c => c <| c_pending_risk_consumption := None |>);;
  (match error with
   | ChainInsufficientFunds message => mod_state (set_send_form_error message)
   | _ => show_error (ChainError_display error)
   end);;
  discard_awaiting_send;;
  mret true.

Definition clears_gate (s : AppState) : bool :=
  bool_decide (am_error (s_auth s) = GATE_MSG_PENDING) || bool_decide (am_error (s_auth s) = GATE_MSG_FAILED).

Definition destination_checked (generation seq : N) (address : bytes) (report : option DestinationReport) : Ctl bool :=
  current ← gets (fun c => (generation =? c_subscription_generation c) && (seq =? c_dest_check_seq c)
                           && bool_decide (trim (form_destination (s_send_form (c_state c))) = address));
  (if current : bool then
     mod_state (fun s => s <| s_recipient_encrypt_key := report ≫= dr_encrypt_key |>);;
     match report with
     | Some report =>
         mod_state (fun s => (if clears_gate s then s <| s_auth ::= fun a => a <| am_error := [] |> |> else s)
                               <| s_recipient_check := Known (dr_status report) |>)
     | None =>
         r ← now;
         mod_session (fun s => s <| se_dest_check_retry_at := Some (deadline_after r DEST_CHECK_RETRY_DELAY) |>);;
         mod_state (fun s => s <| s_recipient_check := CheckFailed |>)
     end
   else mret tt);;
  mret true.

Definition send_chat_message : Ctl unit :=
  chat ← get_state s_chat;
  if negb (chat_can_send chat) then mret tt else
  key ← gets (fun c => se_chat_peer_key (c_session c));
  match key with
  | None => mod_chat (fun c => c <| ch_error := bs "This account publishes no key to encrypt to" |>)
  | Some key =>
      request ← attempt (request_native (ch_peer chat) CHAT_ATTACH_NANOS);
      match request with
      | Err error => mod_chat (fun c => c <| ch_error := wallet_error_text error |>)
      | Panic => pure Panic
      | Ok request =>
          let request := sealed_to (with_comment request (ch_draft chat)) (Some key) in
          mod_chat (fun c => c <| ch_error := [] |> <| ch_sending := true |>);;
          spawn_fee_estimate request false;;
          authorize_transfer request;;
          waiting ← gets (fun c => is_some (c_pending_authorization c));
          mod_chat (fun c => c <| ch_sending := waiting |>)
      end
  end.

Definition risk_context_failed (generation : N) (authorization_digest : Digest32) (error : bytes) : Ctl unit :=
  current ← gets (fun c => (generation =? c_session_generation c)
                           && bool_decide (c_pending_risk_context c = Some authorization_digest));
  if current : bool then abort_risk_review (bs "Could not refresh the duplicate-risk context: " ++ error) else mret tt.

(** ** One event *)
Definition always (handler : Ctl unit) : Ctl bool := handler;; mret true.

Definition handle_event (event : AppEvent) : Ctl bool :=
  match event with
  | WalletLoaded generation request_id snapshot => wallet_loaded generation request_id snapshot
  | WalletAutoLoaded generation request_id snapshot => wallet_auto_loaded generation request_id snapshot
  | WalletAutoLoadFailed generation request_id error =>
      wallet_auto_load_failed auto_refresh_wallet generation request_id error
  | WalletLoadFailed generation request_id error => wallet_load_failed generation request_id error
  | SubscriptionReady generation uuid => if_connected generation (subscription_ready generation uuid)
  | SubscriptionUpdate generation => if_connected generation (subscription_update generation)
  | SubscriptionFailed generation error => if_connected generation (subscription_failed error)
  | SendPrepared generation digest risk_grant_required prepared =>
      always (apply_prepared_send generation digest risk_grant_required prepared)
  | CandidateBroadcastFinished generation prepared candidate_index outcome =>
      always (apply_candidate_outcome generation prepared candidate_index outcome)
  | SendFailed generation error => send_failed generation error
  | DestinationChecked generation seq address report => destination_checked generation seq address report
  | ChatPeerKeyLoaded seq peer report => always (apply_chat_peer_key seq peer report)
  | FeeEstimated generation seq estimate => fee_estimated generation seq estimate
  | MaxFeeEstimated generation seq estimate => max_fee_estimated generation seq estimate
  | FeeEstimateFailed generation seq => fee_estimate_failed generation seq
  | TransactionsLoaded generation fetch_id head events integrity_error incomplete gap deepest_lt =>
      transactions_loaded generation fetch_id head events integrity_error incomplete gap deepest_lt
  | EndpointHistoryScanned generation fetch_id head observations start stop_at age_cutoff continuation deepest_lt gap =>
      endpoint_history_scanned generation fetch_id head observations start stop_at age_cutoff continuation deepest_lt gap
  | RiskContextLoaded generation digest snapshot => always (apply_risk_context_loaded generation digest snapshot)
  | RiskContextFailed generation digest error => always (risk_context_failed generation digest error)
  | EndpointTested for_network url reachable reported matches error =>
      always (apply_endpoint_tested for_network url reachable reported matches error)
  | SwapPoolLoaded generation seq snapshot => always (apply_swap_pool_loaded generation seq snapshot)
  | SwapPoolFailed generation seq error => always (apply_swap_pool_failed generation seq error)
  | SwapFinished generation result => always (apply_swap_finished generation result)
  | StorageLoaded generation seq snapshot => always (apply_storage_loaded generation seq snapshot)
  | StorageLoadFailed generation seq error => always (apply_storage_load_failed generation seq error)
  | StorageFinished generation op result => always (apply_storage_finished generation op result)
  | EventError error => always (show_error error)
  end.

Definition apply_event (event : AppEvent) : Ctl unit := ended (handle_event event).
End events.
