(* ===== verification/Session.v ===== *)
(** * Seeds, passwords, opening and locking a wallet

    crates/cc-wallet-app/src/controller/seed_auth.rs and mod.rs: what a recovery phrase does
    to the session, the threads that work on passwords and what comes back from them, and how
    a session begins and ends. *)

From Stdlib Require Import NArith ZArith Lia.
From stdpp Require Import gmap.
From S2P Require Import Prelude Ord Bytes Text Decimal Ids Asset Amount Digest Affordability Send Swap StorageRecord Profile.
From S2P Require Import Network Risk Journal Envelope Strict Persist Authorization VaultKeys Vault Fs Atomic Wallets Writer.
From S2P Require Import Destroy Unlock ChainData Update AppState Controller Save Service Rows Policy Delivery.
From S2P Require Import Names Authorize RiskReview Clipboard Loads Requests.

(** What serde_json makes of the stored profile: the text of the one value the input starts
    with and what is wrong behind it, if anything; or an error.  And the slot of the rows. *)
Class StoredText `{SerdeJson} := {
  read_value : bytes -> res bytes (bytes * option bytes);
  slot_events : Slot (list ActivityEvent)
}.

(** ** Key operations *)
Inductive KeyMsg :=
| KeyDone (generation : N) (action : KeyAction) (vault : Vault) (profile : WalletProfile)
    (history : list ActivityEvent) (history_corrupt : bool) (journal : JournalEnvelope)
    (selected : option SelectedCandidate) (writer : option VaultWriter)
| KeyVerified (generation : N) (action : KeyAction)
| KeyWrongPassword (generation : N) (action : KeyAction)
| KeyFailed (generation : N) (action : KeyAction) (error : bytes).

Definition msg_generation (msg : KeyMsg) : N :=
  match msg with
  | KeyDone generation _ _ _ _ _ _ _ _ | KeyVerified generation _ | KeyWrongPassword generation _
  | KeyFailed generation _ _ => generation
  end.

Section threads.
Context `{Sha256} `{VaultPrims} `{Tempfile} `{WalletCodec} `{!StoredText}.

(** [serde_json::from_slice::<WalletProfile>]. *)
Definition profile_from_slice (input : bytes) : res bytes WalletProfile :=
  let? (raw, trailing) := read_value input in
  let? profile := map_err StrictError_display (profile_decode slot_address_book raw) in
  match trailing with
  | Some error => Err error
  | None => Ok profile
  end.

Definition opened_history (section : ActivitySection) : res EnvelopeError (list ActivityEvent * bool) :=
  match section with
  | ActAbsent => Ok ([], false)
  | ActCorrupt => Ok ([], true)
  | ActPresent payload => rmap (fun events => (events, false)) (activity_decode slot_events payload)
  end.

(** What an opened container is to the session. *)
Definition opened_msg (generation : N) (action : KeyAction) (opened : UnlockedVault) : res Empty_set KeyMsg :=
  match profile_from_slice (ul_wallet opened), journal_decode slot_records slot_risk_events (ul_journal opened) with
  | Ok profile, Ok journal =>
      match opened_history (ul_activity opened) with
      | Ok (history, history_corrupt) =>
          Ok (KeyDone generation action (ul_vault opened) profile history history_corrupt journal
                (Some (ul_selected opened)) (Some (ul_writer opened)))
      | Err error =>
          Ok (KeyFailed generation action (bs "This wallet's transaction history is in an unsupported format ("
            ++ bs (EnvelopeError_display error)
            ++ bs "). Update the app, or create a new wallet and re-import your recovery phrase."))
      | Panic => Panic
      end
  | Panic, _ | _, Panic => Panic
  | Err error, _ =>
      Ok (KeyFailed generation action (bs "This wallet can't be opened: " ++ error
        ++ bs " Create a new wallet and re-import your recovery phrase."))
  | _, Err error =>
      Ok (KeyFailed generation action (bs "This wallet's send journal can't be opened ("
        ++ bs (EnvelopeError_display error)
        ++ bs "). It may have been written by a newer version of CC Wallet."))
  end.

Definition refused_msg (generation : N) (action : KeyAction) (error : VaultStoreError) : KeyMsg :=
  if is_wrong_password error then KeyWrongPassword generation action else
  if is_unsupported_format error then
    KeyFailed generation action (bs "This wallet uses an unsupported older format and can't be opened. Go back, create a new wallet, and re-import your recovery phrase.")
  else KeyFailed generation action (VaultStoreError_display error).

(** The bodies of the threads. *)
Definition unlock_store_body (generation : N) (store : VaultStore) (password : bytes) (action : KeyAction)
  : IO Empty_set KeyMsg :=
  match! Unlock.unlock store password with r =>
  io_ret (match r with
          | Ok opened => opened_msg generation action opened
          | Err error => Ok (refused_msg generation action error)
          | Panic => Panic
          end).

Definition verify_password_body (generation : N) (vault : Vault) (password : bytes) (action : KeyAction) : KeyMsg :=
  if verify_password vault password then KeyVerified generation action else KeyWrongPassword generation action.

Definition create_body (generation : N) (store : VaultStore) (password : bytes) (params : KdfParams)
    (display_name : bytes) (profile : WalletProfile) (e : entropy) : IO Empty_set (KeyMsg * entropy) :=
  match create_named_with password params display_name e with
  | Ok (vault, e) =>
      match! writer_for_new store with r =>
      io_ret (match r with
              | Ok writer => Ok (KeyDone generation KeyCreate vault profile [] false env_empty None (Some writer), e)
              | Err error => Ok (KeyFailed generation KeyCreate (VaultStoreError_display error), e)
              | Panic => Panic
              end)
  | Err error => io_ret (Ok (KeyFailed generation KeyCreate (bs (VaultError_display error)), e))
  | Panic => io_ret Panic
  end.

Definition change_password_body (generation : N) (password : bytes) (params : KdfParams) (display_name : bytes)
    (profile : WalletProfile) (e : entropy) : res Empty_set (KeyMsg * entropy) :=
  match create_named_with password params display_name e with
  | Ok (vault, e) => Ok (KeyDone generation KeyChangePassword vault profile [] false env_empty None None, e)
  | Err error => Ok (KeyFailed generation KeyChangePassword (bs (VaultError_display error)), e)
  | Panic => Panic
  end.

Definition or_panic {A} (r : res Empty_set A) : option A := match r with Ok a => Some a | _ => None end.
Definition sent (r : res Empty_set (KeyMsg * entropy)) (y : Sys) : option KeyMsg * Sys :=
  match r with Ok (msg, e) => (Some msg, y <| y_entropy := e |>) | _ => (None, y) end.

(** One of them gets to run; what it sends, which is nothing if it panics. *)
Definition run_key_task (t : Task) : Ctl (option KeyMsg) := fun y =>
  match t with
  | TaskVerifyPassword generation vault password action =>
      io_ret (Ok (Some (verify_password_body generation vault password action), y))
  | TaskUnlockStore generation store password action =>
      match! unlock_store_body generation store password action with r => io_ret (Ok (or_panic r, y))
  | TaskCreateVault generation store password params display_name profile =>
      match! create_body generation store password params display_name profile (y_entropy y) with r =>
      io_ret (Ok (sent r y))
  | TaskChangePassword generation password params display_name profile =>
      io_ret (Ok (sent (change_password_body generation password params display_name profile (y_entropy y)) y))
  | _ => io_ret (Ok (None, y))
  end.
End threads.

(** ** Recovery phrases *)
Section seeds.
Context `{Sha256} `{VaultPrims} `{Tempfile} `{WalletCodec} `{StdAddrLib} `{ChainService}.

Definition change_password_request : Ctl unit := open_auth ForChangePassword.
Definition reveal_seed : Ctl unit := open_auth ForRevealSeed.

Definition unchanged_setting (setting : SecuritySetting) (s : AppState) : bool :=
  match setting with
  | AutoSign mins => mins =? s_autosign_mins s
  | ScreenLock mins => mins =? s_screen_lock_mins s
  end.

Definition request_security_setting (setting : SecuritySetting) : Ctl unit :=
  unchanged ← get_state (unchanged_setting setting);
  if unchanged : bool then mret tt else
  modify (fun c => c <| c_pending_security_setting := Some setting |>);;
  open_auth ForChangeSecuritySetting.

Definition apply_security_setting (setting : SecuritySetting) : Ctl unit :=
  mod_state (fun s => match setting with
                      | AutoSign mins => s <| s_autosign_mins := mins |>
                      | ScreenLock mins => s <| s_screen_lock_mins := mins |>
                      end);;
  save_profile.

(** What was asked of a password before no longer counts. *)
Definition invalidate_key_ops : Ctl unit :=
  modify (fun c => c <| c_key_generation ::= wrapping_inc |>
    <| c_state := c_state c <| s_key_busy := false |> |>
    <| c_pending_authorization := None |> <| c_pending_risk_reconciliation := false |>
    <| c_pending_risk_context := None |> <| c_pending_risk_review := None |> <| c_pending_risk_consumption := None |>).

Definition cancel_auth : Ctl unit :=
  invalidate_key_ops;;
  mod_auth (fun a => a <| am_open := false |> <| am_error := [] |>);;
  mod_state (fun s => s <| s_allow_unbounced := false |>);;
  modify (fun c => c <| c_pending_security_setting := None |>);;
  clear_pending_swap;;
  clear_pending_storage.

Definition generate_seed : Ctl unit :=
  clear_seed_from_clipboard;;
  generated ← ask o_seed;
  match generated with
  | Ok seed =>
      stop_subscription;;
      mod_state (fun s => s <| s_seed := seed |> <| s_seed_backup_confirmed := false |> <| s_seed_saved := false |>
        <| s_seed_editing := true |> <| s_show_seed := true |> <| s_seed_unsaved := true |> <| s_wallet := None |>
        <| s_status := bs "New phrase generated. Use it to replace your wallet." |> <| s_error := None |>)
  | Err error => show_error (bs "failed to generate seed: " ++ error)
  | Panic => pure Panic
  end.

Definition onboard_import_seed (seed : bytes) : Ctl unit :=
  let seed := normalize_seed seed in
  mod_state (fun s => if negb (ct_str_eq seed (s_seed s)) then s <| s_seed_backup_confirmed := false |> else s);;
  other ← gets (fun c => match c_clipboard_secret c with Some copied => negb (ct_str_eq copied seed) | None => false end);
  (if other : bool then clear_seed_from_clipboard else mret tt);;
  if seed_phrase_is_valid seed then
    mod_state (fun s => s <| s_seed := seed |> <| s_onboard_import_valid := true |>);;
    register_pasted_seed_for_wipe seed
  else mod_state (fun s => s <| s_seed := [] |> <| s_onboard_import_valid := false |>).

(** Another identity: nothing of the one before stays in view. *)
Definition activate_seed (seed : bytes) : Ctl unit :=
  stop_subscription;;
  spawn TaskClearConfigCache;;
  mod_state (fun s => s <| s_seed := seed |> <| s_confirmed_seed := seed |> <| s_seed_saved := true |>
                        <| s_seed_editing := false |>);;
  hide_seed;;
  mod_state (fun s => select_asset Native (s <| s_seed_unsaved := false |> <| s_visible_cc_assets := [] |>)
    <| s_derived_wallet_address := [] |> <| s_wallet := None |> <| s_activity := [] |>);;
  close_chat;;
  mod_session (fun s => s <| se_pending_sends := [] |> <| se_awaiting_send_lt := None |>
    <| se_in_flight_record_id := None |> <| se_history_synced_floor := None |> <| se_history_has_gap := true |>);;
  mod_load (fun l => l <| lr_history_reconciliation_scan := None |>);;
  mod_state (fun s => reset_recipient_status s <| s_fee_estimate := None |> <| s_fee_estimating := false |>);;
  reset_swap_for_new_identity;;
  reset_storage_for_new_identity;;
  save_profile;;
  save_history;;
  refresh_wallet.

Definition save_seed (seed : bytes) : Ctl unit :=
  let seed := normalize_seed seed in
  match validate_seed seed with
  | Err error => show_error (wallet_error_text error)
  | Panic => pure Panic
  | Ok _ => register_pasted_seed_for_wipe seed;; activate_seed seed
  end.

Definition use_seed : Ctl unit := seed ← get_state s_seed; activate_seed seed.

Definition discard_seed : Ctl unit :=
  mod_state (fun s => s <| s_seed := s_confirmed_seed s |>
    <| s_seed_saved := negb (bool_decide (s_confirmed_seed s = [])) |> <| s_seed_unsaved := false |>);;
  hide_seed;;
  mod_state (fun s => s <| s_status := bs "Discarded unsaved phrase" |>).
End seeds.

(** ** Wallets to choose from *)
Section picker.
Context `{Sha256} `{VaultPrims} `{Tempfile} `{WalletCodec} `{Unicode}.

Definition clear_staged_onboarding_seed : Ctl unit :=
  mod_state (fun s => s <| s_seed := [] |> <| s_confirmed_seed := [] |> <| s_seed_saved := false |>
    <| s_seed_editing := false |> <| s_seed_unsaved := false |> <| s_show_seed := false |>
    <| s_seed_reveal_deadline := None |> <| s_onboard_import_valid := false |> <| s_seed_backup_confirmed := false |>).

Definition no_lock_error : Ctl unit := mod_state (fun s => s <| s_lock_error := [] |>).
Definition lock_error (error : bytes) : Ctl unit := mod_state (fun s => s <| s_lock_error := error |>).
Definition NOT_LISTED : bytes := bs "Could not list wallet files: ".

Definition read_entries : Ctl (res VaultStoreError (list WalletListing)) :=
  dir ← gets c_data_dir;
  fallible (wallet_entries_in dir).

Definition show_entries (entries : list WalletListing) : Ctl unit :=
  mod_state (fun s => s <| s_wallet_names := display_name <$> entries |>);;
  modify (fun c => c <| c_wallet_entries := entries |>).

Definition probe_phase : Ctl unit :=
  invalidate_key_ops;;
  clear_seed_from_clipboard;;
  clear_staged_onboarding_seed;;
  no_lock_error;;
  entries ← read_entries;
  match entries with
  | Err error => show_error (NOT_LISTED ++ VaultStoreError_display error)
  | Panic => pure Panic
  | Ok entries =>
      show_entries entries;;
      mod_state (fun s =>
        if bool_decide (entries = []) then s <| s_status := bs "Create your first wallet" |> <| s_phase := Onboarding |>
        else s <| s_status := bs "Choose a wallet" |> <| s_phase := Selecting |>)
  end.

Definition listed_as (name : bytes) (entries : list WalletListing) : option bytes :=
  storage_id <$> find (fun entry => bool_decide (display_name entry = name)) entries.

Definition select_wallet (name : bytes) : Ctl unit :=
  listed ← gets (fun c => listed_as name (c_wallet_entries c));
  match listed with
  | None => mret tt
  | Some storage_id =>
      invalidate_key_ops;;
      modify (fun c => c <| c_store := mkStore (c_data_dir c) storage_id |>);;
      mod_state (fun s => s <| s_active_wallet := name |> <| s_lock_error := [] |> <| s_phase := Locked |>
                            <| s_status := bs "Locked" |>)
  end.

Definition delete_wallet_from_picker (name pw : bytes) : Ctl unit :=
  listed ← gets (fun c => listed_as name (c_wallet_entries c));
  match listed with
  | None => mret tt
  | Some storage_id =>
      if bool_decide (pw = []) then lock_error (bs "Enter this wallet's password to delete it") else
      busy ← get_state s_key_busy;
      if busy : bool then mret tt else
      mod_state (fun s => s <| s_key_busy := true |> <| s_lock_error := [] |>);;
      dir ← gets c_data_dir;
      modify (fun c => c <| c_pending_picker_delete := Some (mkPickerDelete name storage_id) |>);;
      spawn_unlock_store (mkStore dir storage_id) pw KeyDeleteWalletFromPicker
  end.

Definition first_storage_id (entries : list WalletListing) : bytes :=
  match entries with entry :: _ => storage_id entry | [] => DEFAULT_WALLET_NAME end.

Definition finish_picker_delete : Ctl unit :=
  target ← gets c_pending_picker_delete;
  modify (fun c => c <| c_pending_picker_delete := None |>);;
  match target with
  | None => mret tt
  | Some target =>
      invalidate_key_ops;;
      dir ← gets c_data_dir;
      destroyed ← fallible (destroy (mkStore dir (pd_storage_id target)));
      match destroyed with
      | Ok _ => mret tt
      | Err error => show_error (bs "The wallet " ++ [Byte.x22] ++ pd_name target ++ [Byte.x22]
          ++ bs " could not be deleted and may still hold its seed: " ++ DestroyError_display error)
      | Panic => pure Panic
      end;;
      probe_phase;;
      modify (fun c => if bool_decide (st_name (c_store c) = pd_storage_id target)
                       then c <| c_store := mkStore (c_data_dir c) (first_storage_id (c_wallet_entries c)) |> else c);;
      left_over ← gets (fun c => is_ok destroyed && negb (bool_decide (c_wallet_entries c = [])));
      if left_over : bool then
        mod_state (fun s => s <| s_status := bs "Wallet " ++ [Byte.x22] ++ pd_name target ++ [Byte.x22] ++ bs " deleted" |>)
      else mret tt
  end.

Definition new_wallet_request : Ctl unit :=
  invalidate_key_ops;;
  clear_seed_from_clipboard;;
  mod_state (fun s => s <| s_lock_error := [] |> <| s_active_wallet := [] |>);;
  clear_staged_onboarding_seed;;
  mod_state (fun s => s <| s_phase := Onboarding |> <| s_status := bs "Create a new wallet" |>).

Definition name_taken (storage_id : bytes) : bytes :=
  bs "A wallet using the file name " ++ [Byte.x22] ++ storage_id ++ bs "." ++ WALLET_EXT ++ [Byte.x22] ++ bs " already exists".

(** Why a wallet of this name is not made: the name, and what is in the folder. *)
Definition refuse_name (display : bytes) : Ctl (option bytes) :=
  if bool_decide (display = []) then mret (Some (bs "Enter a wallet name")) else
  let id := wallet_storage_id display in
  if bool_decide (id = []) || is_reserved_wallet_name id then mret (Some (bs "Pick a different wallet name")) else
  entries ← read_entries;
  match entries with
  | Panic => pure Panic
  | Err error => mret (Some (NOT_LISTED ++ VaultStoreError_display error))
  | Ok entries =>
      if existsb (fun entry => bool_decide (storage_id entry = id)) entries then mret (Some (name_taken id)) else
      dir ← gets c_data_dir;
      exists_already ← fallible (store_exists (mkStore dir id));
      match exists_already with
      | Panic => pure Panic
      | Err error => mret (Some (bs "Could not inspect the wallet file: " ++ VaultStoreError_display error))
      | Ok true => mret (Some (name_taken id))
      | Ok false => mret None
      end
  end.

Context `{ChainService}.

(** And what else it needs. *)
Definition refuse_profile (network_id workchain : Z) (c : AppController) : option bytes :=
  if is_none (registry_get (c_networks c) network_id) then Some (bs "Choose a known network") else
  if negb (is_ok (validate_workchain workchain)) then Some (bs "Workchain must be 0 or -1") else
  if negb (seed_phrase_is_valid (s_seed (c_state c))) then Some (bs "Generate or import a recovery phrase first") else
  if negb (s_seed_backup_confirmed (c_state c))
  then Some (bs "Confirm you have safely saved your recovery phrase first") else None.

Definition create_wallet (name : bytes) (network_id workchain : Z) (pw pw2 : bytes) : Ctl unit :=
  let display := sanitize_wallet_name name in
  refused ← refuse_name display;
  match refused with
  | Some error => lock_error error
  | None =>
  refused ← gets (refuse_profile network_id workchain);
  match refused with
  | Some error => lock_error error
  | None =>
      modify (fun c => c <| c_store := mkStore (c_data_dir c) (wallet_storage_id display) |>);;
      mod_state (fun s => s <| s_active_wallet := display |> <| s_network_id := network_id |>
        <| s_workchain := workchain |> <| s_custom_endpoints := [] |> <| s_selected_endpoint := 0 |>);;
      refresh_network_view;;
      mod_state (fun s => s <| s_confirmed_seed := s_seed s |> <| s_seed_saved := true |> <| s_seed_unsaved := false |>);;
      create_password pw pw2
  end end.
End picker.

(** ** The session ends *)
Section locking.
Context `{Sha256} `{VaultPrims} `{Tempfile} `{WalletCodec} `{Unicode}.

Definition EMULATION_DRAIN_TIMEOUT : N := 10 * NANOS.

(** What of a locked wallet stays in view. *)
Definition locked_state (s : AppState) : AppState :=
  AppState_default <| s_phase := Locked |> <| s_status := bs "Locked" |> <| s_wallet_names := s_wallet_names s |>
    <| s_active_wallet := s_active_wallet s |> <| s_clipboard_notice := s_clipboard_notice s |>.

Definition finish_lock : Ctl unit :=
  flushed ← flush_save_blocking;
  lost ← get_state (fun s => if flushed : bool then None
                             else Some (default (bs "recent changes could not be saved") (s_persistence_error s)));
  modify (fun c => c <| c_session_generation ::= wrapping_inc |>);;
  clear_seed_from_clipboard;;
  stop_subscription;;
  modify (fun c => c <| c_vault := None |> <| c_writer := None |>);;
  mod_state locked_state;;
  match lost with
  | Some detail => show_error (bs "Locked. Recent changes could not be saved and were discarded: " ++ detail)
  | None => mret tt
  end;;
  spawn TaskClearConfigCache;;
  reset_journal_reconciliation;;
  clear_pending_max;;
  modify (fun c => c <| c_swap_in_flight := None |> <| c_max_filled := false |> <| c_dirty := false |>
    <| c_save_deadline := None |> <| c_session := SessionRuntime_default |> <| c_load := LoadRuntime_default |>);;
  invalidate_key_ops.

(** What the lock was for. *)
Definition run_lock_follow_up (follow_up : LockFollowUp) : Ctl unit :=
  match follow_up with
  | FollowNone => mret tt
  | FollowPicker => probe_phase
  | FollowSwitchTo name =>
      entries ← read_entries;
      match entries with
      | Panic => pure Panic
      | Err error => show_error (NOT_LISTED ++ VaultStoreError_display error);; probe_phase
      | Ok entries =>
          if is_none (listed_as name entries) then probe_phase else show_entries entries;; select_wallet name
      end
  | FollowDeleteWallet =>
      store ← gets c_store;
      destroyed ← fallible (destroy store);
      match destroyed with
      | Panic => pure Panic
      | Ok _ =>
          mod_state (fun s => s <| s_persistence_health := Ready |> <| s_active_wallet := [] |>);;
          probe_phase;;
          mod_state (fun s => s <| s_status := bs "Wallet deleted" |>)
      | Err error =>
          show_error (bs "The wallet file could not be deleted and may still hold your seed: " ++ DestroyError_display error)
      end
  end.

(** The wallet is locked at once, or once the fee emulation has stopped; the answer is which. *)
Definition request_lock (follow_up : LockFollowUp) : Ctl bool :=
  waiting ← gets (fun c => is_some (c_pending_teardown c));
  if waiting : bool then mret false else
  spawn TaskSealKeyOps;;
  drained ← ask o_drain;
  if drained : bool then finish_lock;; run_lock_follow_up follow_up;; mret true else
  r ← now;
  modify (fun c => c <| c_pending_teardown := Some (mkPendingLock (r_mono r + EMULATION_DRAIN_TIMEOUT) follow_up) |>);;
  mod_state (fun s => s <| s_busy := true |> <| s_status := bs "Locking — waiting for a fee calculation to finish…" |>);;
  mret false.

Definition lock : Ctl bool := request_lock FollowNone.
Definition switch_wallet : Ctl unit := request_lock FollowPicker;; mret tt.

Definition switch_to_wallet (name : bytes) : Ctl unit :=
  current ← get_state (fun s => bool_decide (name = s_active_wallet s));
  if current : bool then mret tt else
  entries ← read_entries;
  match entries with
  | Panic => pure Panic
  | Err error => show_error (NOT_LISTED ++ VaultStoreError_display error)
  | Ok entries => if is_none (listed_as name entries) then mret tt else request_lock (FollowSwitchTo name);; mret tt
  end.

Definition delete_wallet : Ctl unit := open_auth ForDeleteWallet.

Definition do_delete_wallet : Ctl unit :=
  drained ← drain_save_task;
  if negb drained then mret tt else
  modify (fun c => c <| c_dirty := false |> <| c_save_deadline := None |>);;
  request_lock FollowDeleteWallet;; mret tt.
End locking.

(** ** The session begins *)
Section entering.
Context `{Sha256} `{VaultPrims} `{Tempfile} `{WalletCodec} `{StdAddrLib} `{ChainService}.

Definition bump_activity : Ctl unit := r ← now; modify (fun c => c <| c_last_activity := r |>).

(** The opened wallet among those listed, under the name its container bears. *)
Fixpoint relisted (id name : bytes) (entries : list WalletListing) : list WalletListing :=
  match entries with
  | [] => [mkListing id name]
  | entry :: entries => if bool_decide (storage_id entry = id) then mkListing id name :: entries
                        else entry :: relisted id name entries
  end.

Definition list_opened (name : bytes) (c : AppController) : AppController :=
  let entries := sort_by_key storage_id (relisted (st_name (c_store c)) name (c_wallet_entries c)) in
  c <| c_wallet_entries := entries |> <| c_state := c_state c <| s_wallet_names := display_name <$> entries |> |>.

Definition weak_kdf (c : AppController) : bool :=
  meets_floor (c_kdf_params c)
  && match c_vault c with Some vault => negb (meets_floor (v_params vault)) | None => false end.

Record AppEntry := mkEntry {
  en_profile : WalletProfile;
  en_history : list ActivityEvent;
  en_history_corrupt : bool;
  en_journal : JournalEnvelope;
  en_selected : option SelectedCandidate;
  en_writer : VaultWriter
}.

Definition enter_app (entry : AppEntry) : Ctl unit :=
  mod_session (fun s => s <| se_activity_quarantine_pending :=
    if en_history_corrupt entry then en_selected entry else None |>);;
  spawn TaskUnsealKeyOps;;
  modify (fun c => c <| c_writer := Some (en_writer entry) |> <| c_session_generation ::= wrapping_inc |>);;
  mod_state (fun s => apply_profile (en_profile entry) s <| s_seed_editing := false |> <| s_show_seed := false |>
    <| s_seed_reveal_deadline := None |> <| s_seed_unsaved := false |> <| s_onboard_import_valid := false |>
    <| s_seed_backup_confirmed := false |>);;
  clear_seed_from_clipboard;;
  modify (fun c => c <| c_journal := en_journal entry |>);;
  weak ← gets weak_kdf;
  mod_state (fun s => s <| s_kdf_weak := weak |> <| s_history_corrupt := en_history_corrupt entry |>
    <| s_snapshot_refresh_error := None |> <| s_history_integrity_error := None |>
    <| s_persistence_health := if en_history_corrupt entry then QuarantineRequired else Ready |>
    <| s_phase := Unlocked |>);;
  name ← gets (fun c => match c_vault c with Some vault => v_display_name vault | None => st_name (c_store c) end);
  mod_state (fun s => s <| s_active_wallet := name |>);;
  modify (list_opened name);;
  refresh_network_view;;
  mod_state (fun s => s <| s_lock_error := [] |> <| s_error := None |> <| s_activity := en_history entry |>);;
  sort_activity;;
  cap_history;;
  recover_restored_delivery_state;;
  mod_session (fun s => s <| se_history_synced_floor := None |> <| se_history_has_gap := true |>);;
  mod_load (fun l => l <| lr_history_reconciliation_scan := None |>);;
  bump_activity;;
  saved ← get_state s_seed_saved;
  (if saved : bool then refresh_wallet
   else mod_state (fun s => s <| s_selected_tab := TabSettings |>
                              <| s_status := bs "Add a seed phrase to finish setup" |>));;
  ensure_activity_quarantined;; mret tt.
End entering.

(** ** What the threads report *)
Section keys.
Context `{Sha256} `{VaultPrims} `{Tempfile} `{WalletCodec} `{StdAddrLib} `{ChainService} `{RandomError} `{Unicode}.

Definition GONE_SEND : bytes := bs "The transfer authorization no longer exists".
Definition GONE_SWAP : bytes := bs "The swap authorization no longer exists".
Definition GONE_STORAGE : bytes := bs "The storage authorization no longer exists".

Definition close_auth : Ctl unit := mod_auth (fun a => a <| am_open := false |>).
Definition settle_auth : Ctl unit := close_auth;; auth_error [].
Definition remember_autosign (remember : bool) : Ctl unit := if remember then extend_autosign_now else mret tt.

Definition take_authorization : Ctl (option SendAuthorization) :=
  authorization ← gets c_pending_authorization;
  modify (fun c => c <| c_pending_authorization := None |>);;
  mret authorization.

Definition confirm_send (remember : bool) (auth_generation auth_nonce : N) : Ctl unit :=
  refused ← refuse_unpermitted_send;
  if refused : bool then mret tt else
  authorization ← take_authorization;
  match authorization with
  | None => auth_error GONE_SEND
  | Some authorization =>
      if negb (sa_matches authorization auth_generation auth_nonce)
      then auth_error (bs "Stale transfer authorization was rejected") else
      settle_auth;;
      remember_autosign remember;;
      send_authorized_transaction authorization
  end.

Definition confirm_other (waits : bool) (gone : bytes) (remember : bool) (dispatch : Ctl unit) : Ctl unit :=
  if negb waits then auth_error gone else settle_auth;; remember_autosign remember;; dispatch.

(** The password was right. *)
Definition run_reauth_action (action : KeyAction) : Ctl unit :=
  match action with
  | KeyConfirmSend remember auth_generation auth_nonce => confirm_send remember auth_generation auth_nonce
  | KeyConfirmStorage remember generation =>
      waits ← gets (fun c => match c_pending_storage c with Some p => pg_generation p =? generation | None => false end);
      confirm_other waits GONE_STORAGE remember dispatch_authorized_storage
  | KeyConfirmSwap remember generation =>
      waits ← gets (fun c => match c_pending_swap c with Some p => pw_generation p =? generation | None => false end);
      confirm_other waits GONE_SWAP remember dispatch_authorized_swap
  | KeyRevealRecords => settle_auth;; show_records_for_one_minute
  | KeyRevealSeed => settle_auth;; show_seed_for_one_minute
  | KeyDeleteWallet => settle_auth;; do_delete_wallet
  | KeyVerifyForChangePassword => mod_auth (fun a => a <| am_mode := AuthCreate |> <| am_error := [] |>)
  | KeyApplySecuritySetting setting =>
      settle_auth;;
      modify (fun c => c <| c_pending_security_setting := None |>);;
      apply_security_setting setting
  | KeyUnlock | KeyCreate | KeyChangePassword | KeyDeleteWalletFromPicker => mret tt
  end.

(** The old vault stays the wallet's where the new one cannot be saved. *)
Definition finish_change_password (vault : Vault) : Ctl unit :=
  previous ← gets c_vault;
  modify (fun c => c <| c_vault := Some vault |>);;
  close_auth;;
  mod_state (fun s => s <| s_error := None |> <| s_autosign_until := None |>);;
  modify (fun c => c <| c_dirty := true |> <| c_save_deadline := None |>);;
  saved ← flush_save_blocking;
  if saved : bool then
    store ← gets c_store;
    shredded ← fallible (shred_foreign_keyslot_residue store);
    match shredded with
    | Panic => pure Panic
    | Ok _ => mod_state (fun s => s <| s_status := bs "Wallet password changed" |>)
    | Err _ => mod_state (fun s => s <| s_status := bs "Password changed, but old-password copies may remain on disk — remove any *.orphan/*.tmp beside the wallet file manually" |>)
    end
  else
    modify (fun c => c <| c_vault := previous |>);;
    mod_state (fun s => s <| s_status := bs "Password NOT changed — could not save; your previous password is still active" |>).

Definition key_done (action : KeyAction) (vault : Vault) (profile : WalletProfile) (history : list ActivityEvent)
    (history_corrupt : bool) (journal : JournalEnvelope) (selected : option SelectedCandidate)
    (writer : option VaultWriter) : Ctl unit :=
  match action with
  | KeyUnlock | KeyCreate =>
      match writer with
      | None => lock_error (bs "The authenticated wallet writer is unavailable")
      | Some writer =>
          modify (fun c => c <| c_vault := Some vault |>);;
          enter_app (mkEntry profile history history_corrupt journal selected writer);;
          match action with KeyCreate => persist_new_container | _ => mret tt end
      end
  | KeyChangePassword => finish_change_password vault
  | KeyDeleteWalletFromPicker => finish_picker_delete
  | other => run_reauth_action other
  end.

Definition no_picker_delete : Ctl unit := modify (fun c => c <| c_pending_picker_delete := None |>).

Definition apply_key_msg (msg : KeyMsg) : Ctl unit :=
  current ← gets c_key_generation;
  if negb (msg_generation msg =? current) then mret tt else
  modify (fun c => c <| c_key_generation ::= wrapping_inc |>);;
  mod_state (fun s => s <| s_key_busy := false |>);;
  match msg with
  | KeyWrongPassword _ action =>
      match action with
      | KeyUnlock => lock_error (bs "Incorrect password")
      | KeyDeleteWalletFromPicker => no_picker_delete;; lock_error (bs "Incorrect password")
      | _ => auth_error (bs "Incorrect password")
      end
  | KeyFailed _ action error =>
      match action with
      | KeyUnlock | KeyCreate => lock_error error
      | KeyDeleteWalletFromPicker =>
          no_picker_delete;; lock_error (bs "Could not verify the password; the file was not deleted")
      | _ => auth_error error
      end
  | KeyVerified _ action => run_reauth_action action
  | KeyDone _ action vault profile history history_corrupt journal selected writer =>
      key_done action vault profile history history_corrupt journal selected writer
  end.
End keys.
