(* ===== verification/Commands.v ===== *)
(** * Commands, the clock and the life of the application

    crates/cc-wallet-app/src/command.rs and controller/mod.rs: which commands are locked out
    while something is being authorized, what each command does, what the passing of time
    does, and how the application starts and stops.  The commands of the explorer are left
    out. *)

From Stdlib Require Import NArith ZArith Lia.
From stdpp Require Import gmap.
From S2P Require Import Prelude Ord Bytes Text Decimal Ids Asset Amount Digest Affordability Send Swap StorageRecord Profile.
From S2P Require Import Network Risk Journal Envelope Strict Persist Authorization VaultKeys Vault Fs Atomic Wallets Writer.
From S2P Require Import Lock ChainData Update AppState Controller Save Service Rows Policy Delivery.
From S2P Require Import Names Authorize RiskReview Clipboard Loads Requests Events Session.

(** ** Commands *)
Inductive AppCommand :=
| Init
| SelectWallet (name : bytes)
| NewWalletRequest
| DeleteWalletFromPicker (name pw : bytes)
| BackToPicker
| CreateWallet (name : bytes) (network_id workchain : Z) (pw pw2 : bytes)
| Unlock (pw : bytes)
| LockNow
| SwitchWallet
| SwitchToWallet (name : bytes)
| DeleteWallet
| SelectTab (tab : AppTab)
| GenerateSeed
| OnboardImportSeed (seed : bytes)
| SetSeedBackupConfirmed (confirmed : bool)
| ImportSeed (seed : bytes)
| UseSeed
| DiscardSeed
| RevealSeed
| HideSeed
| CopySeed (phrase : bytes)
| CopyText (text : bytes)
| RefreshWallet
| SaveContact (index : option nat) (name address tag : bytes)
| DeleteContact (index : nat)
| ReorderContacts (from to : nat)
| QuickSend (address : bytes)
| SetAssetVisibility (cc_id : N) (visible : bool)
| SelectAsset (asset : AssetId)
| SetSendDestination (destination : bytes)
| SetSendAmount (amount : bytes)
| SetSendComment (comment : bytes)
| SetEncryptComment (on : bool)
| SetMaxAmount
| SetAllowUnbounced (allow : bool)
| RequestSend
| SetSwapFromToken (asset : AssetId)
| SetSwapToToken (asset : AssetId)
| SetSwapAmount (amount : bytes)
| SetMaxSwapAmount
| SetSwapSlippage (bps : N)
| StepSwapSlippage (up : bool)
| EditSwapSlippage (text : bytes)
| FlipSwap
| RequestSwap
| DismissSwapReceipt
| RefreshStorage
| CreateStorage
| SetStorageTitle (title : bytes)
| SetStorageData (data : bytes)
| AddStorageRecord
| ClearStorageForm
| RevealStorageRecords
| HideStorageRecords
| DeleteStorageRecord (id : N)
| CopyStorageRecord (id : N)
| RequestRiskOverride
| SetRiskOverlap (index : nat) (selected : bool)
| ConfirmRiskOverride (typed_confirmation : bytes) (acknowledge_both_may_debit acknowledge_duplicate : bool)
| CancelRiskOverride
| ChangePasswordRequest
| AuthSubmit (pw pw2 : bytes) (remember : bool)
| AuthCancel
| SetAutosign (mins : N)
| SetScreenLock (mins : N)
| OpenChat (peer : bytes)
| CloseChat
| SetChatDraft (text : bytes)
| SendChatMessage
| AddEndpoint (url : bytes)
| SelectEndpoint (index : N)
| RemoveEndpoint (url : bytes)
| TestEndpoint (url : bytes)
| ClearError.

Inductive CommandGate := GateIdentity | GateFrozen | GateOpen.
#[export] Instance CommandGate_eq_dec : EqDecision CommandGate.
Proof. solve_decision. Defined.

#[export] Instance AuthMode_eq_dec : EqDecision AuthMode.
Proof. solve_decision. Defined.

Definition gate (command : AppCommand) : CommandGate :=
  match command with
  | GenerateSeed | ImportSeed _ | UseSeed | SelectEndpoint _ | RemoveEndpoint _ => GateIdentity
  | RequestRiskOverride | QuickSend _ | DiscardSeed | ChangePasswordRequest | RevealSeed | DeleteWallet
  | SetAssetVisibility _ _ | SelectAsset _ | SetSendDestination _ | SetSendAmount _ | SetSendComment _
  | SetEncryptComment _ | SendChatMessage | SetMaxAmount | SetAllowUnbounced _ | SetSwapFromToken _
  | SetSwapToToken _ | SetSwapAmount _ | SetMaxSwapAmount | SetSwapSlippage _ | StepSwapSlippage _
  | EditSwapSlippage _ | FlipSwap | DismissSwapReceipt | CreateStorage | SetStorageTitle _ | SetStorageData _
  | AddStorageRecord | ClearStorageForm | RevealStorageRecords | DeleteStorageRecord _ | AddEndpoint _ => GateFrozen
  | _ => GateOpen
  end.

Definition frozen_while_authorization_pending (command : AppCommand) : bool :=
  negb (bool_decide (gate command = GateOpen)).
Definition changes_wallet_identity_or_endpoint (command : AppCommand) : bool :=
  bool_decide (gate command = GateIdentity).

Section commands.
Context `{Sha256} `{VaultPrims} `{Tempfile} `{WalletCodec} `{StdAddrLib} `{ChainService} `{RandomError} `{Unicode}.

(** ** The password dialog *)
Definition AUTOSIGN_EXPIRED : bytes := bs "Auto-sign expired — enter your password to confirm".
Definition ask_password_again : Ctl unit := mod_auth (fun a => a <| am_mode := AuthEnter |> <| am_error := AUTOSIGN_EXPIRED |>).

(** What needs no password within the autosign window. *)
Definition within_window : Ctl bool :=
  r ← now;
  within ← get_state (within_autosign r);
  (if negb within then ask_password_again else mret tt);;
  mret within.

Definition confirm_send_now (remember : bool) : Ctl unit :=
  within ← within_window;
  if negb within then mret tt else
  refused ← refuse_unpermitted_send;
  if refused : bool then mret tt else
  authorization ← take_authorization;
  match authorization with
  | None => auth_error GONE_SEND
  | Some authorization => close_auth;; remember_autosign remember;; send_authorized_transaction authorization
  end.

Definition confirm_other_now (waits : bool) (gone : bytes) (remember : bool) (dispatch : Ctl unit) : Ctl unit :=
  within ← within_window;
  if negb within then mret tt else
  if negb waits then auth_error gone else close_auth;; remember_autosign remember;; dispatch.

Definition ask_send_password (pw : bytes) (remember : bool) : Ctl unit :=
  refused ← refuse_unpermitted_send;
  if refused : bool then mret tt else
  authorization ← gets c_pending_authorization;
  match authorization with
  | None => auth_error GONE_SEND
  | Some authorization =>
      spawn_unlock pw (KeyConfirmSend remember (t_auth_generation (sa_ticket authorization))
                                               (t_auth_nonce (sa_ticket authorization)))
  end.

Definition new_password (pw pw2 : bytes) : Ctl unit :=
  if (char_count pw <? 8)%nat then auth_error (bs "Use at least 8 characters") else
  if negb (bool_decide (pw = pw2)) then auth_error (bs "Passwords don't match") else
  spawn_change_password pw.

Definition auth_submit (pw pw2 : bytes) (remember : bool) : Ctl unit :=
  s ← get_state id;
  if negb (am_open (s_auth s)) || s_key_busy s then mret tt else
  swap ← gets c_pending_swap;
  storage ← gets c_pending_storage;
  match am_mode (s_auth s), am_purpose (s_auth s) with
  | AuthConfirm, ForSend => confirm_send_now remember
  | AuthEnter, ForSend => ask_send_password pw remember
  | AuthConfirm, ForSwap => confirm_other_now (is_some swap) GONE_SWAP remember dispatch_authorized_swap
  | AuthEnter, ForSwap =>
      match swap with
      | None => auth_error GONE_SWAP
      | Some pending => spawn_unlock pw (KeyConfirmSwap remember (pw_generation pending))
      end
  | AuthConfirm, ForStorage => confirm_other_now (is_some storage) GONE_STORAGE remember dispatch_authorized_storage
  | AuthEnter, ForStorage =>
      match storage with
      | None => auth_error GONE_STORAGE
      | Some pending => spawn_unlock pw (KeyConfirmStorage remember (pg_generation pending))
      end
  | AuthEnter, ForChangePassword => spawn_unlock pw KeyVerifyForChangePassword
  | AuthCreate, ForChangePassword => new_password pw pw2
  | AuthEnter, ForRevealRecords => spawn_unlock pw KeyRevealRecords
  | AuthEnter, ForRevealSeed => spawn_unlock pw KeyRevealSeed
  | AuthEnter, ForDeleteWallet => spawn_unlock pw KeyDeleteWallet
  | AuthEnter, ForChangeSecuritySetting =>
      setting ← gets c_pending_security_setting;
      match setting with
      | None => auth_error (bs "The setting change is no longer pending")
      | Some setting => spawn_unlock pw (KeyApplySecuritySetting setting)
      end
  | _, _ => mret tt
  end.

(** ** The send form *)

(** Whatever changes the form asks for its fee again. *)
Definition edit_form (f : AppState -> AppState) : Ctl unit :=
  mod_state (fun s => f (clear_send_form_error s));;
  schedule_fee_reestimate.

Definition not_max : Ctl unit := modify (fun c => c <| c_max_filled := false |>).

Definition select_tab (tab : AppTab) : Ctl unit :=
  leaving ← get_state (fun s => match s_selected_tab s, tab with
                                | TabStorage, TabStorage => false
                                | TabStorage, _ => true
                                | _, _ => false
                                end);
  (if leaving : bool then hide_storage_records else mret tt);;
  mod_state (fun s => s <| s_selected_tab := tab |>);;
  match tab with
  | TabSwap => refresh_swap_pool
  | TabStorage => on_storage_tab_opened
  | _ => mret tt
  end.

Definition change_asset_visibility (cc_id : N) (visible : bool) : Ctl unit :=
  before ← get_state s_selected_asset;
  mod_state (set_asset_visibility cc_id visible);;
  moved ← get_state (fun s => negb (bool_decide (s_selected_asset s = before)));
  (if moved : bool then not_max else mret tt);;
  save_profile.

Definition encrypt_comment (on : bool) : Ctl unit :=
  mod_state (fun s =>
    let s := s <| s_send_form ::= fun f => f <| form_encrypt := on && encrypt_available s |> |> in
    clear_send_form_error
      (s <| s_send_form ::= fun f => f <| form_comment := truncate_comment_to (form_comment f) (comment_limit s) |> |>));;
  schedule_fee_reestimate.

(** ** One command *)
Definition no_errors : Ctl unit := mod_state (fun s => s <| s_lock_error := [] |> <| s_error := None |>).

(** While no wallet is open. *)
Definition handle_locked (command : AppCommand) : Ctl unit :=
  match command with
  | Init | BackToPicker => probe_phase
  | SelectWallet name => select_wallet name
  | NewWalletRequest => new_wallet_request
  | DeleteWalletFromPicker name pw => delete_wallet_from_picker name pw
  | CreateWallet name network_id workchain pw pw2 => create_wallet name network_id workchain pw pw2
  | Unlock pw => Authorize.unlock pw
  | GenerateSeed => generate_seed
  | OnboardImportSeed seed => onboard_import_seed seed
  | SetSeedBackupConfirmed v => mod_state (fun s => s <| s_seed_backup_confirmed := v |>)
  | CopySeed phrase => copy_seed_to_clipboard phrase
  | ClearError => no_errors
  | _ => mret tt
  end.

Definition run_command (command : AppCommand) : Ctl unit :=
  match command with
  | Init | SelectWallet _ | NewWalletRequest | DeleteWalletFromPicker _ _ | BackToPicker | CreateWallet _ _ _ _ _
  | OnboardImportSeed _ | SetSeedBackupConfirmed _ | Unlock _ => mret tt
  | LockNow => lock;; mret tt
  | SwitchWallet => switch_wallet
  | SwitchToWallet name => switch_to_wallet name
  | DeleteWallet => delete_wallet
  | SelectTab tab => select_tab tab
  | GenerateSeed => generate_seed
  | ImportSeed seed => save_seed seed
  | UseSeed => use_seed
  | DiscardSeed => discard_seed
  | RevealSeed => reveal_seed
  | HideSeed => hide_seed
  | CopySeed phrase => copy_seed_to_clipboard phrase
  | CopyText text => copy_text text
  | RefreshWallet => manual_refresh_wallet
  | SaveContact index name address tag => save_contact index name address tag
  | DeleteContact index => delete_contact_at index
  | ReorderContacts from to => reorder_contacts from to
  | QuickSend address =>
      mod_state clear_send_form_error;;
      quick_send address;;
      mod_state reset_recipient_status;;
      schedule_fee_reestimate
  | SetAssetVisibility cc_id visible => change_asset_visibility cc_id visible
  | SelectAsset asset =>
      mod_state (fun s => select_asset asset (clear_send_form_error s));;
      not_max;;
      schedule_fee_reestimate
  | SetSendDestination destination =>
      edit_form (fun s => reset_recipient_status (s <| s_send_form ::= fun f => f <| form_destination := destination |> |>))
  | SetSendAmount amount =>
      mod_state (fun s => clear_send_form_error s <| s_send_form ::= fun f => f <| form_amount := amount |> |>);;
      not_max;;
      schedule_fee_reestimate
  | SetSendComment comment =>
      edit_form (fun s => s <| s_send_form ::= fun f => f <| form_comment := truncate_comment_to comment (comment_limit s) |> |>)
  | SetEncryptComment on => encrypt_comment on
  | SetMaxAmount => set_max_amount
  | SetAllowUnbounced allow => mod_state (fun s => s <| s_allow_unbounced := allow |>)
  | RequestSend => request_send
  | SetSwapFromToken asset => set_swap_from_token asset
  | SetSwapToToken asset => set_swap_to_token asset
  | SetSwapAmount amount => set_swap_amount amount
  | SetMaxSwapAmount => set_max_swap_amount
  | SetSwapSlippage bps => set_swap_slippage bps
  | StepSwapSlippage up => step_swap_slippage up
  | EditSwapSlippage text => edit_swap_slippage text
  | DismissSwapReceipt => mod_swap (fun s => s <| sw_receipt := None |>)
  | FlipSwap => flip_swap
  | RequestSwap => request_swap
  | RefreshStorage => refresh_storage
  | CreateStorage => create_storage
  | SetStorageTitle title => set_storage_title title
  | SetStorageData data => set_storage_data data
  | AddStorageRecord => add_storage_record
  | ClearStorageForm => clear_storage_form
  | RevealStorageRecords => reveal_storage_records
  | HideStorageRecords => hide_storage_records
  | DeleteStorageRecord id => delete_storage_record id
  | CopyStorageRecord id => copy_storage_record id
  | RequestRiskOverride => request_risk_override
  | SetRiskOverlap index selected => set_risk_overlap index selected
  | ConfirmRiskOverride _ acknowledge_both_may_debit acknowledge_duplicate =>
      confirm_risk_override acknowledge_both_may_debit acknowledge_duplicate
  | CancelRiskOverride => cancel_risk_override
  | ChangePasswordRequest => change_password_request
  | AuthSubmit pw pw2 remember => auth_submit pw pw2 remember
  | AuthCancel => cancel_auth
  | SetAutosign mins => request_security_setting (AutoSign mins)
  | SetScreenLock mins => request_security_setting (ScreenLock mins)
  | OpenChat peer => open_chat peer
  | CloseChat => close_chat
  | SetChatDraft text => set_chat_draft text
  | SendChatMessage => send_chat_message
  | AddEndpoint url => add_endpoint url
  | SelectEndpoint index => select_endpoint index
  | RemoveEndpoint url => remove_endpoint url
  | TestEndpoint url => test_endpoint url
  | ClearError => mod_state clear_error
  end.

(** A shown phrase is hidden by every other command. *)
Definition keeps_phrase_shown (command : AppCommand) : bool :=
  match command with RevealSeed | HideSeed | CopySeed _ => true | _ => false end.

Definition CONTROLS_LOCKED : bytes := bs "Transfer controls are locked to the authorization snapshot".
Definition IDENTITY_LOCKED : bytes :=
  bs "The wallet identity cannot change and the prepared endpoint cannot be replaced while this send journal has unresolved records; switch to a different vault instead".

Definition confirming_send (c : AppController) : bool :=
  am_open (s_auth (c_state c)) && bool_decide (am_purpose (s_auth (c_state c)) = ForSend)
  && is_some (c_pending_authorization c).

Definition controls_locked (c : AppController) : bool :=
  is_some (c_pending_authorization c) || is_some (c_pending_risk_review c) || s_sending (c_state c).

(** Whether the command was for the ticket that waits, or must not touch the form behind it. *)
Definition about_pending_send (command : AppCommand) : Ctl bool :=
  match command with
  | SetAllowUnbounced allow =>
      updated ← update_pending_send_unbounced allow;
      if updated : bool then mret true else gets confirming_send
  | _ => mret false
  end.

Definition handle_unlocked (command : AppCommand) : Ctl unit :=
  shown ← get_state s_show_seed;
  (if shown && negb (keeps_phrase_shown command) then hide_seed else mret tt);;
  taken ← about_pending_send command;
  if taken : bool then mret tt else
  frozen ← gets controls_locked;
  if frozen && frozen_while_authorization_pending command then auth_error CONTROLS_LOCKED;; show_error CONTROLS_LOCKED else
  blocking ← get_state s_journal_blocking;
  if blocking && changes_wallet_identity_or_endpoint command then show_error IDENTITY_LOCKED else
  run_command command;;
  refresh_pending_transfer.

Definition handle_command (command : AppCommand) : Ctl unit :=
  bump_activity;;
  tearing_down ← gets (fun c => is_some (c_pending_teardown c));
  if tearing_down : bool then match command with ClearError => no_errors | _ => mret tt end else
  unlocked ← get_state (fun s => bool_decide (s_phase s = Unlocked));
  if negb unlocked then handle_locked command else handle_unlocked command.

(** ** Time passes *)
Definition SUSPEND_MONOTONIC_GAP : N := 5 * NANOS.
Definition SUSPEND_WALL_SKEW : N := 5 * NANOS.
Definition MAX_EVENTS_PER_POLL : nat := 256.

(** The time from [a] to [b], none if the clock was set back. *)
Definition wall_between (a b : Reading) : N := Z.to_N (r_wall b - r_wall a).

Definition was_suspended (r : Reading) (last : option Reading) : bool :=
  match last with
  | None => false
  | Some prev =>
      let mono := saturating_sub (r_mono r) (r_mono prev) in
      (SUSPEND_MONOTONIC_GAP <=? mono) || (SUSPEND_WALL_SKEW <=? saturating_sub (wall_between prev r) mono)
  end.

Definition on_resume_from_suspend : Ctl unit :=
  blocking ← get_state s_journal_blocking;
  (if blocking : bool then
     r ← now;
     mod_session (fun s => s <| se_risk_cooling_started_at := Some (r_mono r) |>);;
     mod_state (fun s => s <| s_risk_override_eligible := false |>)
   else mret tt);;
  open ← get_state (fun s => bool_decide (s_phase s = Unlocked) && s_journal_blocking s);
  if open : bool then
    expedite_journal_reconciliation;;
    generation ← gets c_subscription_generation;
    fetch_transactions generation
  else mret tt.

Definition WORKER_STUCK : bytes := bs "A bounded fee-emulation worker did not stop in time; the wallet remains open".

(** The lock that waits for the fee emulation. *)
Definition poll_teardown (r : Reading) (pending : PendingLock) : Ctl unit :=
  drained ← ask o_drain;
  if drained : bool then
    modify (fun c => c <| c_pending_teardown := None |>);;
    finish_lock;;
    run_lock_follow_up (pl_follow_up pending)
  else if pl_deadline pending <=? r_mono r then
    modify (fun c => c <| c_pending_teardown := None |>);;
    spawn TaskUnsealKeyOps;;
    mod_state (fun s => set_error WORKER_STUCK (s <| s_busy := false |>))
  else mret tt.

(** Whether a deadline is there and has passed. *)
Definition passed (deadline : option Deadline) : Ctl bool :=
  match deadline with
  | Some deadline => r ← now; mret (expired r deadline)
  | None => mret false
  end.
Definition reached (deadline : option N) : Ctl bool :=
  match deadline with
  | Some deadline => r ← now; mret (deadline <=? r_mono r)
  | None => mret false
  end.

Definition expire_clipboard : Ctl unit :=
  deadline ← gets c_clipboard_deadline;
  over ← passed deadline;
  if over : bool then clear_seed_from_clipboard else mret tt.

Definition idle_too_long (r : Reading) : Ctl bool :=
  c ← gets id;
  if negb (bool_decide (s_phase (c_state c) = Unlocked)) || (s_screen_lock_mins (c_state c) =? 0) then mret false else
  let idle := s_screen_lock_mins (c_state c) * 60 * NANOS in
  r' ← now;
  mret ((idle <=? saturating_sub (r_mono r') (r_mono (c_last_activity c)))
        || (idle <=? wall_between (c_last_activity c) r)).

Definition expire_autosign : Ctl unit :=
  deadline ← get_state s_autosign_until;
  over ← passed deadline;
  if negb over then mret tt else
  mod_state (fun s =>
    let s := s <| s_autosign_until := None |> in
    if am_open (s_auth s) && bool_decide (am_mode (s_auth s) = AuthConfirm) && bool_decide (am_purpose (s_auth s) = ForSend)
    then s <| s_auth ::= fun a => a <| am_mode := AuthEnter |> <| am_error := AUTOSIGN_EXPIRED |> |> else s).

Definition expire_seed_reveal : Ctl unit :=
  deadline ← get_state s_seed_reveal_deadline;
  over ← passed deadline;
  if over : bool then hide_seed else mret tt.

Definition retry_later : Ctl unit :=
  r ← now;
  mod_session (fun s => s <| se_dest_check_retry_at := Some (deadline_after r DEST_CHECK_RETRY_DELAY) |>).

Definition check_pending : Ctl bool :=
  get_state (fun s => match s_recipient_check s with CheckPending => true | _ => false end).

(** A send that waits has its recipient checked again. *)
Definition recheck_destination : Ctl unit :=
  s ← get_state id;
  if negb (am_open (s_auth s) && bool_decide (am_purpose (s_auth s) = ForSend)) then mret tt else
  match s_recipient_check s with
  | Unchecked =>
      check_destination;;
      asked ← check_pending;
      if asked : bool then mret tt else mod_state (fun s => s <| s_recipient_check := CheckFailed |>);; retry_later
  | CheckFailed =>
      retry_at ← gets (fun c => se_dest_check_retry_at (c_session c));
      match retry_at with
      | Some _ =>
          due ← passed retry_at;
          if negb due then mret tt else
          mod_session (fun s => s <| se_dest_check_retry_at := None |>);;
          check_destination;;
          asked ← check_pending;
          if asked : bool then mret tt else retry_later
      | None => retry_later
      end
  | _ => mret tt
  end.

Definition reestimate_when_due : Ctl unit :=
  c ← gets id;
  if negb (bool_decide (s_phase (c_state c) = Unlocked)) || s_fee_estimating (c_state c) then mret tt else
  due ← reached (se_fee_reestimate_at (c_session c));
  if negb due then mret tt else
  mod_session (fun s => s <| se_fee_reestimate_at := None |>);;
  check_destination;;
  complete ← get_state (fun s => is_ok (form_request (s_send_form s)));
  if complete : bool then estimate_fee else mret tt.

Definition flush_when_due : Ctl unit :=
  c ← gets id;
  due ← (if c_dirty c then reached (c_save_deadline c) else mret false);
  if due : bool then flush_save else mret tt.

Definition drain_when_finished : Ctl unit :=
  finished ← gets (fun c => match c_save_task c with Some task => is_finished task | None => false end);
  if finished : bool then drain_save_task;; mret tt else mret tt.

Definition resubscribe_when_due : Ctl unit :=
  c ← gets id;
  if negb (bool_decide (s_phase (c_state c) = Unlocked)
           && match c_subscription_task c with Some finished => finished | None => true end) then mret tt else
  due ← reached (c_subscription_retry_at c);
  match c_subscription_addr c with
  | Some address =>
      if negb due then mret tt else
      modify (fun c => c <| c_subscription_retry_at := None |>);;
      ensure_subscription address
  | None => mret tt
  end.

Definition follow_journal (r : Reading) : Ctl unit :=
  unlocked ← get_state (fun s => bool_decide (s_phase s = Unlocked));
  if unlocked : bool then refresh_journal_policy;; poll_journal_reconciliation (r_mono r) else mret tt.

Definition tick : Ctl unit :=
  r ← now;
  last ← gets c_last_tick;
  modify (fun c => c <| c_last_tick := Some r |>);;
  teardown ← gets c_pending_teardown;
  match teardown with
  | Some pending => poll_teardown r pending
  | None =>
      (if was_suspended r last then on_resume_from_suspend else mret tt);;
      poll_storage_settlement (r_mono r);;
      expire_record_reveal;;
      expire_clipboard;;
      idle ← idle_too_long r;
      if idle : bool then lock;; mret tt else
      expire_autosign;;
      expire_seed_reveal;;
      recheck_destination;;
      refresh_seed_copy_ttl;;
      reestimate_when_due;;
      flush_when_due;;
      drain_when_finished;;
      resubscribe_when_due;;
      follow_journal r
  end.

(** What the channels hold, key messages first, at most so many of each. *)
Fixpoint each {A} (handler : A -> Ctl unit) (l : list A) : Ctl unit :=
  match l with [] => mret tt | a :: l => handler a;; each handler l end.

Definition poll_events (msgs : list KeyMsg) (events : list AppEvent) : Ctl unit :=
  each apply_key_msg (take MAX_EVENTS_PER_POLL msgs);;
  each apply_event (take MAX_EVENTS_PER_POLL events).

(** ** The application stops *)
Definition STUCK_CLIPBOARD : bytes :=
  bs "Closing is paused while the wallet retries clearing a recovery phrase from the clipboard. Clear it manually if the warning persists.".

(** Whether it may be closed, and the lock on the launch folder after it. *)
Definition shutdown (held : option InstanceLock) : Ctl (bool * option InstanceLock) :=
  clear_seed_from_clipboard;;
  stuck ← gets (fun c => is_some (c_clipboard_secret c));
  if stuck : bool then show_error STUCK_CLIPBOARD;; mret (false, held) else
  drained ← ask o_drain;
  if negb drained then show_error WORKER_STUCK;; mret (false, held) else
  flush_save_blocking;;
  match held with
  | None => mret (true, None)
  | Some held =>
      outcome ← on_files (release held);
      match fst outcome with
      | Err error =>
          show_error (bs "Could not release the mandatory instance lock; the application will remain open: " ++ io_text error);;
          mret (false, Some (snd outcome))
      | Panic => pure Panic
      | Ok _ => mret (true, Some (snd outcome))
      end
  end.

(** [Drop]: what is left is saved, and the emulation is waited for, three times at most. *)
Definition drop_controller : Ctl unit :=
  flush_save_blocking;;
  abort_subscription;;
  once ← ask o_drain;
  if once : bool then mret tt else
  twice ← ask o_drain;
  if twice : bool then mret tt else ask o_drain;; mret tt.
End commands.

(** ** The application starts *)
Section starting.
Context `{VaultPrims} `{RandomError} `{Unicode}.

Definition initial_state (entries : list WalletListing) : AppState :=
  AppState_default <| s_phase := if bool_decide (entries = []) then Onboarding else Selecting |>
    <| s_status := if bool_decide (entries = []) then bs "Create your first wallet" else bs "Choose a wallet" |>
    <| s_wallet_names := display_name <$> entries |>.

Definition initial_controller (dir : bytes) (params : KdfParams) (entries : list WalletListing) (r : Reading)
  : AppController := {|
  c_state := initial_state entries; c_data_dir := dir; c_networks := registry_defaults; c_wallet_entries := entries;
  c_store := mkStore dir (first_storage_id entries); c_vault := None; c_writer := None; c_kdf_params := params;
  c_key_generation := 0; c_auth_generation := 0; c_pending_authorization := None; c_pending_swap := None;
  c_swap_in_flight := None; c_swap_pool_seq := 0; c_pending_storage := None; c_storage_seq := 0;
  c_storage_watch := None; c_pending_security_setting := None; c_pending_picker_delete := None;
  c_pending_risk_reconciliation := false; c_pending_risk_context := None; c_pending_risk_review := None;
  c_pending_risk_consumption := None; c_subscription_task := None; c_subscription_key := None;
  c_subscription_generation := 0; c_session_generation := 0; c_subscription_addr := None;
  c_subscription_retry_at := None; c_subscription_backoff_secs := SUBSCRIPTION_BACKOFF_MIN_SECS;
  c_wallet_load_seq := 0; c_load := LoadRuntime_default; c_session := SessionRuntime_default;
  c_pending_teardown := None; c_clipboard_secret := None; c_clipboard_deadline := None; c_clipboard_retries := 0;
  c_clipboard_copy_explicit := false; c_pending_seq := 0; c_last_tick := None; c_journal_reconcile_at := None;
  c_journal_reconcile_delay := JOURNAL_RECONCILE_MIN_DELAY; c_endpoint_test_url := None; c_fee_request_seq := 0;
  c_dest_check_seq := 0; c_chat_key_seq := 0; c_pending_max_seq := None; c_queued_max_request := None;
  c_pending_max_balance := None; c_max_filled := false; c_last_activity := r; c_dirty := false;
  c_save_deadline := None; c_save_task := None; c_activity_payload_cache := None; c_fetch_seq := 0;
  c_journal := env_empty |}.

(** [Runtime::new] is [runtime]. *)
Definition at_root (runtime : res bytes unit) (dir : bytes) (params : KdfParams) (r : Reading) : IO bytes AppController :=
  let! _ := io_ret (map_err (fun error => bs "failed to create runtime: " ++ error) runtime) in
  let! entries := io_map_err (fun error => bs "Could not list wallet files in the launch folder: "
                                           ++ VaultStoreError_display error) (wallet_entries_in dir) in
  io_ret (Ok (initial_controller dir params entries r)).

(** The lock is held from before the folder is probed; the entropy is that of the probe. *)
Definition from_startup_cwd (pr : Process) (runtime : res bytes unit) (requested : bytes) (params : KdfParams)
    (r : Reading) (e : entropy) : IO bytes (AppController * InstanceLock * entropy) :=
  let! outcome := io_map_err (fun error => bs "Cannot acquire the mandatory wallet lock for " ++ requested
                                           ++ bs ": " ++ io_text error)
                    (acquire_single_instance_lock pr requested) in
  match outcome with
  | AlreadyRunning => io_ret (Err (bs "CC Wallet is already running for " ++ requested ++ bs "."))
  | Acquired held =>
      let started : IO bytes (AppController * InstanceLock * entropy) :=
        if negb (bool_decide (il_dir held = requested)) then
          io_ret (Err (bs "The launch folder changed while CC Wallet was starting; close it and start it again"))
        else
        let! e := io_map_err (fun error => bs "The launch folder cannot safely store wallet files: " ++ io_text error)
                    (probe_storage_root random_error held e) in
        let! c := at_root runtime (il_dir held) params r in
        io_ret (Ok (c, held, e)) in
      match! started with outcome =>
      match outcome with
      | Ok started => io_ret (Ok started)
      | outcome => match! drop_lock held with _ => io_ret outcome
      end
  end.
End starting.
