(* ===== verification/Steps.v ===== *)
(** * What a step of the application may leave to others

    A logic for all handlers at once: what tasks a computation spawns and which parts of the
    controller it leaves alone, whatever the files, the clocks and the chain service do.
    With it: nothing is signed that the user did not confirm, and nothing is broadcast but by
    the handlers of a prepared send. *)

From Stdlib Require Import NArith ZArith Lia.
From stdpp Require Import gmap.
From S2P Require Import Prelude Ord Bytes Text Decimal Ids Asset Amount Digest Affordability Send Swap StorageRecord Profile.
From S2P Require Import Network Risk Journal Envelope Strict Persist Authorization VaultKeys Vault Fs Atomic Wallets Writer.
From S2P Require Import Lock ChainData Update AppState Controller Save Service Rows Policy Delivery.
From S2P Require Import Names Authorize RiskReview Clipboard Loads Requests Events Session Commands.

(** ** Partial correctness, in any world *)

(** If [m] ends at all, it ends so; a step that panics ends the application. *)
Definition ends {A} (m : Ctl A) (y : Sys) (Q : A -> Sys -> Prop) : Prop :=
  forall w, match fst (m y w) with Ok (a, y') => Q a y' | _ => True end.

Lemma ends_mono {A} (m : Ctl A) y (Q Q' : A -> Sys -> Prop) :
  ends m y Q -> (forall a y', Q a y' -> Q' a y') -> ends m y Q'.
Proof. intros Hm HQ w. specialize (Hm w). destruct (fst (m y w)) as [[a y']| |]; auto. Qed.

Lemma ends_ret {A} (a : A) y (Q : A -> Sys -> Prop) : Q a y -> ends (mret a) y Q.
Proof. by intros HQ w. Qed.

Lemma ends_bind {A B} (m : Ctl A) (k : A -> Ctl B) y (Q : B -> Sys -> Prop) :
  ends m y (fun a y' => ends (k a) y' Q) -> ends (m ≫= k) y Q.
Proof.
  intros Hm w. specialize (Hm w). unfold mbind, ctl_bind, io_bind, io_match.
  destruct (m y w) as [[[a y']|e|] w']; cbn in *; [apply Hm|done..].
Qed.

Lemma ends_gets {A} (f : AppController -> A) y (Q : A -> Sys -> Prop) : Q (f (y_ctl y)) y -> ends (gets f) y Q.
Proof. by intros HQ w. Qed.

Lemma ends_modify f y (Q : unit -> Sys -> Prop) : Q tt (y <| y_ctl := f (y_ctl y) |>) -> ends (modify f) y Q.
Proof. by intros HQ w. Qed.

Lemma ends_ask {A} (f : Outside -> nat -> A) y (Q : A -> Sys -> Prop) :
  Q (f (y_outside y) (y_asked y)) (y <| y_asked := S (y_asked y) |>) -> ends (ask f) y Q.
Proof. by intros HQ w. Qed.

Lemma ends_spawn t y (Q : unit -> Sys -> Prop) : Q tt (y <| y_tasks := y_tasks y ++ [t] |>) -> ends (spawn t) y Q.
Proof. by intros HQ w. Qed.

Lemma ends_pure {A} (r : res Empty_set A) y (Q : A -> Sys -> Prop) :
  (forall a, r = Ok a -> Q a y) -> ends (pure r) y Q.
Proof. intros HQ w. destruct r as [a|[]|]; cbn; auto. Qed.

Lemma ends_attempt {E A} (r : res E A) y (Q : res E A -> Sys -> Prop) :
  (r <> Panic -> Q r y) -> ends (attempt r) y Q.
Proof. intros HQ w. destruct r; cbn; by try apply HQ. Qed.

Lemma ends_fallible {E A} (m : IO E A) y (Q : res E A -> Sys -> Prop) :
  (forall r, r <> Panic -> Q r y) -> ends (fallible m) y Q.
Proof. intros HQ w. unfold fallible, io_match. destruct (m w) as [[a|e|] w']; cbn; by try apply HQ. Qed.

Lemma ends_on_files {A} (m : IO Empty_set A) y (Q : A -> Sys -> Prop) : (forall a, Q a y) -> ends (on_files m) y Q.
Proof. intros HQ w. unfold on_files, io_bind, io_match. destruct (m w) as [[a|[]|] w']; cbn; auto. Qed.

(** ** What is left alone *)
Section moves.
Context (ok : Task -> bool) {X : Type} (view : AppController -> X).

(** Only such tasks were spawned, and this view of the controller is the same. *)
Record moved (y y' : Sys) : Prop := {
  mv_view : view (y_ctl y') = view (y_ctl y);
  mv_outside : y_outside y' = y_outside y;
  mv_asked : (y_asked y <= y_asked y')%nat;
  mv_tasks : exists l, y_tasks y' = y_tasks y ++ l /\ Forall (fun t => ok t = true) l
}.

#[export] Instance moved_refl : Reflexive moved.
Proof. intros y. split; [done|done|lia|]. exists []. by rewrite app_nil_r. Qed.
#[export] Instance moved_trans : Transitive moved.
Proof.
  intros x y z [V1 O1 A1 (l1 & T1 & F1)] [V2 O2 A2 (l2 & T2 & F2)]. split; [by rewrite V2|by rewrite O2|lia|].
  exists (l1 ++ l2). rewrite T2, T1, app_assoc. split; [done|]. by apply Forall_app.
Qed.

Definition moves {A} (m : Ctl A) : Prop := forall y, ends m y (fun _ y' => moved y y').

Lemma moves_use {A} (m : Ctl A) y0 y (Q : A -> Sys -> Prop) :
  moves m -> moved y0 y -> (forall a y', moved y0 y' -> moved y y' -> Q a y') -> ends m y Q.
Proof. intros Hm H0 HQ. eapply ends_mono; [apply Hm|]. intros a y' H1. apply HQ; [exact (moved_trans _ _ _ H0 H1)|done]. Qed.

Lemma moves_ret {A} (a : A) : moves (mret a).
Proof. intros y. apply ends_ret; apply moved_refl. Qed.

Lemma moves_bind {A B} (m : Ctl A) (k : A -> Ctl B) : moves m -> (forall a, moves (k a)) -> moves (m ≫= k).
Proof.
  intros Hm Hk y. apply ends_bind. eapply ends_mono; [apply Hm|]. intros a y1 H1. cbv beta.
  eapply ends_mono; [apply Hk|]. intros b y2 H2. exact (moved_trans _ _ _ H1 H2).
Qed.

Lemma moves_gets {A} (f : AppController -> A) : moves (gets f).
Proof. intros y. apply ends_gets; apply moved_refl. Qed.

Lemma moves_get_state {A} (f : AppState -> A) : moves (get_state f).
Proof. intros y. apply ends_gets; apply moved_refl. Qed.

Lemma moves_modify f : (forall c, view (f c) = view c) -> moves (modify f).
Proof. intros Hf y. apply ends_modify. split; [apply Hf|done..|]. exists []. by rewrite app_nil_r. Qed.

Lemma moves_ask {A} (f : Outside -> nat -> A) : moves (ask f).
Proof. intros y. apply ends_ask. split; [done..|cbn; lia|]. exists []. by rewrite app_nil_r. Qed.

Lemma moves_spawn t : ok t = true -> moves (spawn t).
Proof. intros Ht y. apply ends_spawn. split; [done..|]. exists [t]. split; [done|by constructor]. Qed.

Lemma moves_pure {A} (r : res Empty_set A) : moves (pure r).
Proof. intros y. apply ends_pure; intros; apply moved_refl. Qed.

Lemma moves_attempt {E A} (r : res E A) : moves (attempt r).
Proof. intros y. apply ends_attempt; intros; apply moved_refl. Qed.

Lemma moves_fallible {E A} (m : IO E A) : moves (fallible m).
Proof. intros y. apply ends_fallible; intros; apply moved_refl. Qed.

Lemma moves_on_files {A} (m : IO Empty_set A) : moves (on_files m).
Proof. intros y. apply ends_on_files; intros; apply moved_refl. Qed.

Lemma moves_random : moves random_bytes.
Proof.
  intros y w. unfold random_bytes. destruct (draw32 (y_entropy y)) as [[b e]| |]; cbn; [|done..].
  split; [done..|]. exists []. by rewrite app_nil_r.
Qed.
End moves.

Create HintDb moves discriminated.
#[export] Hint Constants Opaque : moves.

(** A walk through a computation: each construct by its rule, each call through its body. *)
Ltac head_of m := lazymatch m with ?f _ => head_of f | _ => m end.
Ltac move_modify := apply moves_modify; intros ?; first [reflexivity | repeat case_match; reflexivity].
Ltac move_step :=
  first
  [ solve [eauto 2 with moves nocore]
  | lazymatch goal with
    | |- moves _ _ (_ ≫= _) => apply moves_bind; [|intros ?]
    | |- moves _ _ (mret _) => apply moves_ret
    | |- moves _ _ (gets _) => apply moves_gets
    | |- moves _ _ (get_state _) => apply moves_get_state
    | |- moves _ _ (ask _) => apply moves_ask
    | |- moves _ _ now => apply moves_ask
    | |- moves _ _ (modify _) => move_modify
    | |- moves _ _ (mod_state _) => move_modify
    | |- moves _ _ (mod_session _) => move_modify
    | |- moves _ _ (mod_load _) => move_modify
    | |- moves _ _ (spawn _) => apply moves_spawn; reflexivity
    | |- moves _ _ (pure _) => apply moves_pure
    | |- moves _ _ (attempt _) => apply moves_attempt
    | |- moves _ _ (fallible _) => apply moves_fallible
    | |- moves _ _ (on_files _) => apply moves_on_files
    | |- moves _ _ random_bytes => apply moves_random; reflexivity
    | |- moves _ _ (if ?b then _ else _) => destruct b
    | |- moves _ _ (match ?x with _ => _ end) => destruct x
    | |- moves _ _ (let _ := _ in _) => cbv zeta
    | |- moves _ _ ?m => let h := head_of m in unfold h; cbv beta iota
    end ].
Ltac walk := repeat move_step.


(** ** What handlers leave to others *)
Definition signs (t : Task) : bool :=
  match t with TaskPrepare _ _ _ _ _ _ _ | TaskSwap _ _ _ _ | TaskStorageOp _ _ _ => true | _ => false end.

Definition harmless (t : Task) : bool := negb (signs t) && negb (is_broadcast t).

Section harmless.
Context `{Sha256} `{VaultPrims} `{Tempfile} `{WalletCodec} `{StdAddrLib} `{ChainService} `{RandomError} `{Unicode}.
Local Notation idles := (moves harmless (fun _ : AppController => tt)).

Lemma clip_get_moves ok {X} (view : AppController -> X) sel : moves ok view (clip_get sel).
Proof. unfold clip_get. apply moves_bind; [walk|]. intros [e|]; [walk|]. intros y w. cbn. reflexivity. Qed.
Lemma clip_set_moves ok {X} (view : AppController -> X) sel text : moves ok view (clip_set sel text).
Proof. unfold clip_set. apply moves_bind; [walk|]. intros [e|]; [walk|]. intros y w. cbn.
  split; [by destruct sel|by destruct sel|destruct sel; cbn; lia|]. exists []. rewrite app_nil_r. by destruct sel. Qed.
Lemma run_started_moves ok {X} (view : AppController -> X) w v p :
  (forall c t, view (c <| c_save_task := t |>) = view c) -> moves ok view (run_started w v p).
Proof.
  intros Hv y w'. unfold run_started, io_bind, io_match. destruct (save_body _ _ _ _ w') as [[[r e]|[]|] w2]; cbn; [|done].
  split; [apply Hv|done|cbn; lia|]. exists []. by rewrite app_nil_r.
Qed.
Lemma save_now_moves ok {X} (view : AppController -> X) w v p :
  (forall c t, view (c <| c_writer := t |>) = view c) -> moves ok view (save_now w v p).
Proof.
  intros Hv y w'. unfold save_now, io_bind, io_match. destruct (save_sync _ _ _ _ _ _ w') as [[[[r w1] e]|[]|] w2]; cbn; [|done].
  split; [apply Hv|done|cbn; lia|]. exists []. by rewrite app_nil_r.
Qed.
Lemma run_started_idles w v p : idles (run_started w v p).
Proof. by apply run_started_moves. Qed.
Lemma save_now_idles w v p : idles (save_now w v p).
Proof. by apply save_now_moves. Qed.
End harmless.
#[export] Hint Resolve clip_get_moves clip_set_moves run_started_idles save_now_idles : moves.

Section harmless.
Context `{Sha256} `{VaultPrims} `{Tempfile} `{WalletCodec} `{StdAddrLib} `{ChainService} `{RandomError} `{Unicode}.
Local Notation idles := (moves harmless (fun _ : AppController => tt)).

Ltac idle := walk.
Lemma refresh_policy_idles : idles refresh_journal_policy. Proof. idle. Qed.
Lemma barrier_idles : idles persist_journal_barrier. Proof. idle. Qed.
Lemma flush_blocking_idles : idles flush_save_blocking. Proof. idle. Qed.
Lemma flush_idles : idles flush_save. Proof. idle. Qed.
Lemma drain_idles : idles drain_save_task. Proof. idle. Qed.
Lemma quarantined_idles : idles ensure_activity_quarantined. Proof. idle. Qed.
Lemma wallet_inputs_idles : idles wallet_inputs. Proof. idle. Qed.
Lemma address_inputs_idles : idles endpoint_address_inputs. Proof. idle. Qed.
Lemma load_inputs_idles : idles wallet_load_inputs. Proof. idle. Qed.
Lemma persistence_failed_idles detail : idles (persistence_failed detail). Proof. idle. Qed.
Lemma rebuild_chat_idles : idles rebuild_chat. Proof. idle. Qed.
Lemma fetch_idles g : idles (fetch_transactions g). Proof. idle. Qed.
Lemma ensure_subscription_idles a : idles (ensure_subscription a). Proof. idle. Qed.
Lemma stop_subscription_idles : idles stop_subscription. Proof. idle. Qed.
Lemma check_destination_idles : idles check_destination. Proof. idle. Qed.
Lemma fee_estimate_idles r m : idles (spawn_fee_estimate r m). Proof. idle. Qed.
Lemma set_max_amount_idles : idles set_max_amount. Proof. idle. Qed.
Lemma estimate_fee_idles : idles estimate_fee. Proof. idle. Qed.
Lemma clear_seed_idles : idles clear_seed_from_clipboard. Proof. idle. Qed.
Lemma begin_pending_send_idles r : idles (begin_pending_send r). Proof. idle. Qed.
Lemma clear_any_idles l : idles (clear_any_in_flight l).
Proof. induction l as [|id l IH]; cbn [clear_any_in_flight]; [apply moves_ret|]. idle. Qed.
Lemma merge_events_idles l a b : idles (merge_events l a b).
Proof. revert a b. induction l as [|e l IH]; intros a b; cbn [merge_events]; [apply moves_ret|]. idle; apply IH. Qed.
End harmless.
#[export] Hint Resolve refresh_policy_idles barrier_idles flush_blocking_idles flush_idles drain_idles quarantined_idles
  wallet_inputs_idles address_inputs_idles load_inputs_idles persistence_failed_idles rebuild_chat_idles fetch_idles
  ensure_subscription_idles stop_subscription_idles check_destination_idles fee_estimate_idles set_max_amount_idles
  estimate_fee_idles clear_seed_idles begin_pending_send_idles clear_any_idles merge_events_idles : moves.

Section harmless.
Context `{Sha256} `{VaultPrims} `{Tempfile} `{WalletCodec} `{StdAddrLib} `{ChainService} `{RandomError} `{Unicode}.
Local Notation idles := (moves harmless (fun _ : AppController => tt)).
Ltac idle := walk.

Lemma load_failed_idles e : idles (apply_wallet_load_failed e). Proof. idle. Qed.
Lemma auto_load_failed_idles again g r e :
  (forall n, idles (again n)) -> idles (wallet_auto_load_failed again g r e).
Proof. intros Ha. idle. Qed.
Lemma auto_refresh_with_idles load g : idles load -> idles (auto_refresh_with load g).
Proof. intros Hl. idle. Qed.
Lemma ended_idles h : idles h -> idles (ended h).
Proof. intros Hh. idle. Qed.
Lemma spawn_load_idles fuel manual : idles (spawn_wallet_load fuel manual).
Proof.
  revert manual. induction fuel as [|fuel IH]; intros manual; cbn [spawn_wallet_load]; walk;
    try (apply ended_idles; walk).
Qed.
End harmless.
#[export] Hint Resolve load_failed_idles spawn_load_idles : moves.

Section harmless.
Context `{Sha256} `{VaultPrims} `{Tempfile} `{WalletCodec} `{StdAddrLib} `{ChainService} `{RandomError} `{Unicode}.
Local Notation idles := (moves harmless (fun _ : AppController => tt)).

Lemma refresh_wallet_idles : idles refresh_wallet. Proof. walk. Qed.
Lemma auto_refresh_idles g : idles (auto_refresh_wallet g). Proof. walk. Qed.
Lemma merge_activity_idles l : idles (merge_activity l). Proof. walk. Qed.
Lemma reconcile_idles g l : idles (reconcile_endpoint_observations g l). Proof. walk. Qed.
Lemma replay_idles : idles reconcile_from_replay_guard. Proof. walk. Qed.
Lemma finish_reconciliation_idles : idles finish_pending_risk_reconciliation. Proof. walk. Qed.
Lemma finish_lock_idles : idles finish_lock. Proof. walk. Qed.
Lemma probe_phase_idles : idles probe_phase. Proof. walk. Qed.
Lemma select_wallet_idles n : idles (select_wallet n). Proof. walk. Qed.
Lemma follow_up_idles f : idles (run_lock_follow_up f). Proof. walk. Qed.
Lemma authorize_idles r : idles (authorize_transfer r). Proof. walk. Qed.
Lemma hide_seed_idles : idles hide_seed. Proof. walk. Qed.
Lemma spawn_unlock_idles p a : idles (spawn_unlock p a). Proof. walk. Qed.
Lemma activate_seed_idles s : idles (activate_seed s). Proof. walk. Qed.
Lemma request_storage_idles op : idles (request_storage_op op). Proof. walk. Qed.
End harmless.
#[export] Hint Resolve refresh_wallet_idles auto_refresh_idles merge_activity_idles reconcile_idles replay_idles
  finish_reconciliation_idles finish_lock_idles probe_phase_idles select_wallet_idles follow_up_idles authorize_idles
  hide_seed_idles spawn_unlock_idles activate_seed_idles request_storage_idles : moves.

(** Events that do not deliver. *)
Definition delivers_send (e : AppEvent) : bool :=
  match e with SendPrepared _ _ _ _ | CandidateBroadcastFinished _ _ _ _ => true | _ => false end.

(** What a confirmed password signs. *)
Definition confirms (a : KeyAction) : bool :=
  match a with KeyConfirmSend _ _ _ | KeyConfirmSwap _ _ | KeyConfirmStorage _ _ => true | _ => false end.

Section harmless.
Context `{Sha256} `{VaultPrims} `{Tempfile} `{WalletCodec} `{StdAddrLib} `{ChainService} `{RandomError} `{Unicode}.
Local Notation idles := (moves harmless (fun _ : AppController => tt)).

Lemma event_idles e : delivers_send e = false -> idles (apply_event e).
Proof. intros He. destruct e; try discriminate He; walk. Qed.

Lemma locked_command_idles command : idles (handle_locked command).
Proof. destruct command; walk. Qed.

Lemma command_idles command :
  match command with AuthSubmit _ _ _ => False | _ => True end -> idles (run_command command).
Proof. intros Hc. destruct command; try destruct Hc; walk. Qed.

Lemma reauth_idles a : confirms a = false -> idles (run_reauth_action a).
Proof. intros Ha. destruct a; try discriminate Ha; walk. Qed.

Lemma tick_idles : idles tick.
Proof. walk. Qed.

Lemma entering_idles entry : idles (enter_app entry).
Proof. walk. Qed.

Lemma save_task_idles : idles run_save_task.
Proof. walk. Qed.
End harmless.
