(* ===== verification/Consent.v ===== *)
(** * Nothing is signed that the user did not confirm

    A step of the application is one command, one event, one answer of a key thread, one
    tick or one round of the save task. Over all of them: what a step hands to the chain
    service for signing was waiting for the user, who confirmed exactly that, by the right
    password or within the autosign window; it is used up by it; and only the handlers of a
    prepared send broadcast. *)

From Stdlib Require Import NArith ZArith Lia.
From stdpp Require Import gmap.
From S2P Require Import Prelude Ord Bytes Text Decimal Ids Asset Amount Digest Affordability Send Swap StorageRecord Profile.
From S2P Require Import Network Risk Journal Envelope Strict Persist Authorization VaultKeys Vault Fs Atomic Wallets Writer.
From S2P Require Import Lock ChainData Update AppState Controller Save Service Rows Policy Delivery.
From S2P Require Import DeliveryFacts Names Authorize RiskReview Clipboard Loads Requests Events Session Commands Steps.

Section consent.
Context `{Sha256} `{VaultPrims} `{Tempfile} `{WalletCodec} `{StdAddrLib} `{ChainService} `{RandomError} `{Unicode}
  `{!StoredText}.

(** ** Steps of the application *)
Inductive AppStep :=
| StepCommand (command : AppCommand)
| StepEvent (event : AppEvent)
| StepKey (msg : KeyMsg)
| StepTick
| StepSave.

Definition app_step (s : AppStep) : Ctl unit :=
  match s with
  | StepCommand command => handle_command command
  | StepEvent event => apply_event event
  | StepKey msg => apply_key_msg msg
  | StepTick => tick
  | StepSave => run_save_task
  end.

(** ** Consent *)

(** What waits for the user and is signed by this task. *)
Definition awaits (c : AppController) (t : Task) : Prop :=
  match t with
  | TaskPrepare generation digest required inputs ticket _ overlap =>
      exists a, c_pending_authorization c = Some a
        /\ inputs = sa_inputs a /\ ticket = sa_ticket a /\ SendTicket_digest ticket = Ok digest
        /\ generation = c_session_generation c
  | TaskSwap generation inputs pool request =>
      exists p, c_pending_swap c = Some p
        /\ inputs = pw_inputs p /\ pool = pw_pool p /\ request = pw_request p /\ generation = c_session_generation c
  | TaskStorageOp generation inputs op =>
      exists p, c_pending_storage c = Some p
        /\ inputs = pg_inputs p /\ op = pg_op p /\ generation = c_session_generation c
  | _ => False
  end.

(** It waits no more. *)
Definition used_up (c : AppController) (t : Task) : Prop :=
  match t with
  | TaskPrepare _ _ _ _ _ _ _ => c_pending_authorization c = None
  | TaskSwap _ _ _ _ => c_pending_swap c = None
  | TaskStorageOp _ _ _ => c_pending_storage c = None
  | _ => False
  end.

(** A send is not blocked, but by the journal where a grant for this very ticket was taken;
    it may overlap what the grant says, and it can be paid. *)
Definition permitted (c : AppController) (t : Task) : Prop :=
  match t with
  | TaskPrepare _ digest required _ ticket _ overlap =>
      can_afford_request_with_overlap (c_state c) (t_request ticket) overlap = Ok true
      /\ exists reason, send_safety_block_reason (c_state c) = Ok reason
      /\ if required : bool then
           (reason = None \/ reason = Some JournalBlocking)
           /\ exists grant, c_pending_risk_consumption c = Some grant
              /\ c_new_record_id (rp_consumption grant) = t_record_id ticket
              /\ c_new_ticket_digest (rp_consumption grant) = digest /\ overlap = rp_overlap grant
         else reason = None /\ overlap = []
  | _ => True
  end.

Definition purpose_of (t : Task) : option AuthPurpose :=
  match t with
  | TaskPrepare _ _ _ _ _ _ _ => Some ForSend
  | TaskSwap _ _ _ _ => Some ForSwap
  | TaskStorageOp _ _ _ => Some ForStorage
  | _ => None
  end.

(** The autosign window is open at a moment from now on. *)
Definition window_open (y : Sys) : Prop :=
  exists n, (y_asked y <= n)%nat /\ within_autosign (o_clock (y_outside y) n) (c_state (y_ctl y)) = true.

(** What the right password was given for. *)
Definition verified_action (msg : KeyMsg) : option KeyAction :=
  match msg with
  | KeyVerified _ action => Some action
  | KeyDone _ action _ _ _ _ _ _ _ => Some action
  | _ => None
  end.

Definition action_confirms (c : AppController) (action : KeyAction) (t : Task) : Prop :=
  match action, t with
  | KeyConfirmSend _ generation nonce, TaskPrepare _ _ _ _ ticket _ _ =>
      t_auth_generation ticket = generation /\ t_auth_nonce ticket = nonce
  | KeyConfirmSwap _ generation, TaskSwap _ _ _ _ => pw_generation <$> c_pending_swap c = Some generation
  | KeyConfirmStorage _ generation, TaskStorageOp _ _ _ => pg_generation <$> c_pending_storage c = Some generation
  | _, _ => False
  end.

(** This very task was confirmed: in the open dialog within the window, or by the password
    that was asked for it. *)
Definition confirmed (s : AppStep) (y : Sys) (t : Task) : Prop :=
  let c := y_ctl y in
  match s with
  | StepCommand (AuthSubmit _ _ _) =>
      let auth := s_auth (c_state c) in
      am_open auth = true /\ am_mode auth = AuthConfirm /\ purpose_of t = Some (am_purpose auth) /\ window_open y
  | StepKey msg =>
      msg_generation msg = c_key_generation c
      /\ exists action, verified_action msg = Some action /\ action_confirms c action t
  | _ => False
  end.

Definition no_broadcast (t : Task) : bool := negb (is_broadcast t).
Definition no_signing (t : Task) : bool := negb (signs t).

(** At most one task of this step signs; it is such. *)
Definition signs_once (P : Task -> Sys -> Prop) (y y' : Sys) : Prop :=
  exists l, y_tasks y' = y_tasks y ++ l
  /\ match filter (fun t => signs t = true) l with
     | [] => True
     | [t] => P t y'
     | _ => False
     end.

(** ** Walks around one signature *)
Lemma moves_weaken {X Y A} (ok ok' : Task -> bool) (view : AppController -> X) (view' : AppController -> Y) (m : Ctl A) :
  (forall t, ok t = true -> ok' t = true) -> (forall c c', view c = view c' -> view' c = view' c') ->
  moves ok view m -> moves ok' view' m.
Proof.
  intros Hok Hv Hm y. eapply ends_mono; [apply Hm|]. intros a y' [V O A' (l & T & F)].
  split; [by apply Hv|done|done|]. exists l. split; [done|]. eapply Forall_impl; [exact F|]. done.
Qed.

Lemma harmless_signs t : harmless t = true -> no_signing t = true.
Proof. unfold harmless, no_signing. by intros [? _]%andb_prop. Qed.
Lemma harmless_broadcasts t : harmless t = true -> no_broadcast t = true.
Proof. unfold harmless, no_broadcast. by intros [_ ?]%andb_prop. Qed.

Lemma none_signing l : Forall (fun t => harmless t = true) l -> filter (fun t => signs t = true) l = [].
Proof.
  induction 1 as [|t l Ht _ IH]; [done|]. rewrite filter_cons, IH.
  apply harmless_signs in Ht. unfold no_signing in Ht. destruct (signs t); done.
Qed.

Lemma signs_none {X} (view : AppController -> X) P y y' : moved harmless view y y' -> signs_once P y y'.
Proof. intros [_ _ _ (l & T & F)]. exists l. split; [done|]. by rewrite (none_signing l F). Qed.

Lemma signs_before {X} (view : AppController -> X) P y y1 y2 :
  moved harmless view y y1 -> signs_once P y1 y2 -> signs_once P y y2.
Proof.
  intros [_ _ _ (l1 & T1 & F1)] (l2 & T2 & F2). exists (l1 ++ l2). rewrite T2, T1, app_assoc. split; [done|].
  by rewrite filter_app, (none_signing l1 F1).
Qed.

Lemma signs_after {X} (view : AppController -> X) (P P' : Task -> Sys -> Prop) y y1 y2 :
  signs_once P y y1 -> moved harmless view y1 y2 -> (forall t, P t y1 -> P' t y2) -> signs_once P' y y2.
Proof.
  intros (l1 & T1 & F1) [_ _ _ (l2 & T2 & F2)] HP. exists (l1 ++ l2). rewrite T2, T1, app_assoc. split; [done|].
  rewrite filter_app, (none_signing l2 F2), app_nil_r.
  destruct (filter _ l1) as [|t [|? ?]]; auto.
Qed.

Lemma signs_mono (P P' : Task -> Sys -> Prop) y y' : signs_once P y y' -> (forall t, P t y' -> P' t y') -> signs_once P' y y'.
Proof. intros (l & T & F) HP. exists l. split; [done|]. destruct (filter _ l) as [|t [|? ?]]; auto. Qed.

Lemma ends_moves {X A} (view : AppController -> X) P (m : Ctl A) y :
  moves harmless view m -> ends m y (fun _ y' => signs_once P y y').
Proof. intros Hm. eapply ends_mono; [apply Hm|]. intros a y' Hy. exact (signs_none _ _ _ _ Hy). Qed.

Lemma ends_before {X A B} (view : AppController -> X) P (m : Ctl A) (k : A -> Ctl B) y :
  moves harmless view m ->
  (forall a y1, moved harmless view y y1 -> ends (k a) y1 (fun _ y' => signs_once P y1 y')) ->
  ends (m ≫= k) y (fun _ y' => signs_once P y y').
Proof.
  intros Hm Hk. apply ends_bind. eapply ends_mono; [apply Hm|]. intros a y1 M1. cbv beta.
  eapply ends_mono; [exact (Hk a y1 M1)|]. intros b y2. exact (signs_before view P y y1 y2 M1).
Qed.

Lemma ends_after {X A B} (view : AppController -> X) (P P' : Task -> Sys -> Prop) (m : Ctl A) (k : A -> Ctl B) y :
  ends m y (fun _ y' => signs_once P y y') -> (forall a, moves harmless view (k a)) ->
  (forall t y1 y2, view (y_ctl y2) = view (y_ctl y1) -> P t y1 -> P' t y2) ->
  ends (m ≫= k) y (fun _ y' => signs_once P' y y').
Proof.
  intros Hm Hk HP. apply ends_bind. eapply ends_mono; [exact Hm|]. intros a y1 M1. cbv beta.
  eapply ends_mono; [apply Hk|]. intros b y2 M2. exact (signs_after view P P' y y1 y2 M1 M2 (fun t => HP t y1 y2 (mv_view _ _ _ _ M2))).
Qed.

Lemma signs_one {X} (view : AppController -> X) P y y1 t :
  moved harmless view y y1 -> signs t = true -> P t (y1 <| y_tasks ::= fun l => l ++ [t] |>) ->
  signs_once P y (y1 <| y_tasks ::= fun l => l ++ [t] |>).
Proof.
  intros M1 Ht HP. refine (signs_before view P _ _ _ M1 _). exists [t]. split; [done|].
  rewrite filter_cons. by rewrite Ht.
Qed.

(** What a confirmation is judged by. *)
Definition grounds (c : AppController) :=
  (c_session_generation c, send_safety_block_reason (c_state c), can_afford_request_with_overlap (c_state c)).
Definition waiting (c : AppController) := (c_pending_authorization c, c_pending_swap c, c_pending_storage c).
Definition seen (c : AppController) := (waiting c, grounds c, c_pending_risk_consumption c).
Definition dialog (c : AppController) :=
  (seen c, s_auth (c_state c), s_key_busy (c_state c), s_autosign_until (c_state c), c_key_generation c).

Ltac still := solve [walk].
Lemma bump_still : moves harmless dialog bump_activity. Proof. still. Qed.
Lemma hide_still : moves harmless dialog hide_seed. Proof. still. Qed.
Lemma settle_still : moves harmless seen settle_auth. Proof. still. Qed.
Lemma close_still : moves harmless seen close_auth. Proof. still. Qed.
Lemma remember_still r : moves harmless seen (remember_autosign r). Proof. still. Qed.
Lemma mirror_still : moves harmless seen refresh_pending_transfer. Proof. still. Qed.
Lemma begin_still r : moves harmless waiting (begin_pending_send r). Proof. still. Qed.

(** ** What the confirmations sign *)

(** This is the send of [a], judged by what [c] says. *)
Definition send_of (c : AppController) (a : SendAuthorization) (t : Task) : Prop :=
  purpose_of t = Some ForSend /\ permitted c t
  /\ awaits (c <| c_pending_authorization := Some a |>) t.

Lemma override_sound a pending o :
  risk_override_for a pending = Ok o ->
  if is_some o then exists grant, pending = Some grant
    /\ c_new_record_id (rp_consumption grant) = t_record_id (sa_ticket a)
    /\ SendTicket_digest (sa_ticket a) = Ok (c_new_ticket_digest (rp_consumption grant))
    /\ default [] o = rp_overlap grant
  else default [] o = [].
Proof.
  unfold risk_override_for. destruct pending as [grant|]; [|by intros [= <-]].
  destruct (SendTicket_digest (sa_ticket a)) as [d|e|]; cbn; [|by intros [= <-]|done].
  intros [= <-]. case_bool_decide as Hr; [|done]. case_bool_decide as Hd; [|done]. cbn.
  exists grant. rewrite Hd. done.
Qed.

Lemma send_signs a y :
  ends (send_authorized_transaction a) y (fun _ y' =>
    signs_once (fun t y' => send_of (y_ctl y) a t /\ waiting (y_ctl y') = waiting (y_ctl y)) y y').
Proof.
  unfold send_authorized_transaction. apply ends_bind, ends_gets. cbv beta.
  destruct (s_sending _); [apply ends_ret; by apply (signs_none (fun _ => tt))|].
  apply ends_bind, ends_gets, ends_bind, ends_pure. intros o Ho.
  apply ends_bind, ends_gets, ends_bind, ends_pure. intros reason Hreason. cbv beta.
  destruct (blocks_authorized reason (is_some o)) eqn:Hblocks; [apply (ends_moves (fun _ => tt)); walk|].
  destruct (signing_recipient_permitted _ _); cbn [negb]; [|apply (ends_moves (fun _ => tt)); walk].
  apply ends_bind, ends_pure. intros affordable Haff.
  destruct affordable; cbn [negb]; [|apply (ends_moves (fun _ => tt)); walk].
  apply ends_bind, ends_gets, ends_bind, ends_attempt. intros _.
  destruct (SendTicket_digest (sa_ticket a)) as [digest|e|] eqn:Hd; [|apply (ends_moves (fun _ => tt)); walk..].
  apply ends_bind, ends_gets. cbv beta.
  eapply (ends_before waiting); [apply begin_still|]. intros _ y1 M1. cbv beta.
  eapply (ends_before waiting); [walk|]. intros _ y2 M2. apply ends_spawn.
  apply (signs_one waiting); [reflexivity|done|]. cbn [y_ctl].
  split; [|cbn; by rewrite (mv_view _ _ _ _ M2), (mv_view _ _ _ _ M1)].
  split; [done|]. split.
  - cbn. split; [done|]. exists reason. split; [done|]. apply override_sound in Ho.
    destruct o as [overlap|]; cbn in *.
    + destruct Ho as (grant & -> & Hr & Hg & ->). split; [|exists grant; split; [done|]; split; [done|]; split; [congruence|done]].
      destruct reason as [[]|]; try discriminate Hblocks; auto.
    + split; [|done]. destruct reason as [[]|]; try discriminate Hblocks; auto.
  - cbn. by exists a.
Qed.

(** What a step may sign: it waited, it is permitted, and it waits no more. *)
Definition granted (y : Sys) (t : Task) (y' : Sys) : Prop :=
  awaits (y_ctl y) t /\ permitted (y_ctl y) t /\ used_up (y_ctl y') t.

Lemma awaits_seen c c' t : seen c' = seen c -> awaits c' t -> awaits c t.
Proof.
  unfold seen, waiting, grounds. intros [= E1 E2 E3 E4 E5 E6 E7]. unfold awaits.
  destruct t; try done; intros (x & ? & Hx); exists x; rewrite ?E1, ?E2, ?E3, ?E4 in *; by split.
Qed.
Lemma permitted_grounds c c' t :
  grounds c' = grounds c -> c_pending_risk_consumption c' = c_pending_risk_consumption c -> permitted c' t -> permitted c t.
Proof.
  unfold grounds. intros [= E4 E5 E6] E7. unfold permitted. destruct t; try done. by rewrite E5, E6, E7.
Qed.
Lemma used_up_waiting c c' t : waiting c' = waiting c -> used_up c t -> used_up c' t.
Proof. unfold waiting, used_up. intros [= E1 E2 E3]. destruct t; congruence. Qed.

Lemma send_of_granted c c' a t :
  c_pending_authorization c = Some a -> grounds c' = grounds c ->
  c_pending_risk_consumption c' = c_pending_risk_consumption c ->
  send_of c' a t -> awaits c t /\ permitted c t.
Proof.
  intros Ha Hg Hc (Hp & Hpermitted & Hawaits). split; [|by apply (permitted_grounds c c')].
  destruct t; try discriminate Hp. cbn in *. destruct Hawaits as (a' & [= <-] & ? & ? & ? & ->).
  exists a. split; [done|]. split; [done|]. split; [done|]. split; [done|]. unfold grounds in Hg. congruence.
Qed.

(** An authorization that was taken is used for its own send. *)
Lemma taken_send_signs (prep : Ctl unit) a y :
  c_pending_authorization (y_ctl y) = Some a -> moves harmless seen prep ->
  ends (prep;; send_authorized_transaction a) (y <| y_ctl ::= fun c => c <| c_pending_authorization := None |> |>)
    (fun _ y' => signs_once (fun t y' => granted y t y' /\ purpose_of t = Some ForSend
       /\ (forall g d r i k rows o, t = TaskPrepare g d r i k rows o -> k = sa_ticket a)) y y').
Proof.
  intros Ha Hprep. set (y0 := y <| y_ctl ::= _ |>).
  apply ends_bind. eapply ends_mono; [apply Hprep|]. intros u1 y1 M1. cbv beta in *.
  eapply ends_mono; [apply send_signs|]. intros u2 y2 S2. cbv beta in S2.
  pose proof (mv_view _ _ _ _ M1) as V1.
  assert (M0 : signs_once (fun t y' => send_of (y_ctl y1) a t /\ waiting (y_ctl y') = waiting (y_ctl y1)) y0 y2)
    by exact (signs_before seen _ _ _ _ M1 S2).
  refine (signs_mono _ _ y y2 M0 _). intros t [Hs Hw].
  assert (Hg : grounds (y_ctl y1) = grounds (y_ctl y)) by exact (f_equal (fun v => snd (fst v)) V1).
  assert (Hc : c_pending_risk_consumption (y_ctl y1) = c_pending_risk_consumption (y_ctl y)) by exact (f_equal snd V1).
  assert (Hn : c_pending_authorization (y_ctl y1) = None) by exact (f_equal (fun v => fst (fst (fst (fst v)))) V1).
  destruct (send_of_granted (y_ctl y) (y_ctl y1) a t) as [Haw Hpe]; [done..|].
  split; [split; [done|split; [done|]]|split].
  - destruct t; try discriminate (proj1 Hs). cbn. unfold waiting in Hw. injection Hw as -> _ _. exact Hn.
  - apply Hs.
  - intros g d r i k rows o ->. destruct Hs as (_ & _ & Haw'). cbn in Haw'. destruct Haw' as (a' & [= <-] & ? & ? & _). done.
Qed.

Lemma ends_pass {X A B} (view : AppController -> X) v P (m : Ctl A) (k : A -> Ctl B) y :
  moves harmless view m -> view (y_ctl y) = v ->
  (forall a y1, view (y_ctl y1) = v -> ends (k a) y1 (fun _ y' => signs_once P y1 y')) ->
  ends (m ≫= k) y (fun _ y' => signs_once P y y').
Proof.
  intros Hm Hv Hk. eapply (ends_before view); [exact Hm|]. intros a y1 M1. cbv beta. apply Hk.
  by rewrite (mv_view _ _ _ _ M1).
Qed.

Lemma ends_sign_alone t P y : signs t = true -> P t (y <| y_tasks ::= fun l => l ++ [t] |>) ->
  ends (spawn t) y (fun _ y' => signs_once P y y').
Proof. intros Ht HP. apply ends_spawn. exists [t]. split; [done|]. rewrite filter_cons. by rewrite Ht. Qed.

Lemma signs_from {A} P y y0 (m : Ctl A) :
  y_tasks y0 = y_tasks y -> ends m y0 (fun _ y' => signs_once P y0 y') -> ends m y0 (fun _ y' => signs_once P y y').
Proof. intros Hy. unfold signs_once. by rewrite Hy. Qed.

(** A swap or a storage operation that waits is what its dispatch signs. *)
Lemma swap_signs y :
  ends dispatch_authorized_swap y (fun _ y' => signs_once (fun t y' => granted y t y' /\ purpose_of t = Some ForSwap) y y').
Proof.
  unfold dispatch_authorized_swap. apply ends_bind, ends_gets, ends_bind, ends_modify. cbv beta.
  destruct (c_pending_swap (y_ctl y)) as [p|] eqn:Hp; [|apply ends_ret; exists []; by rewrite app_nil_r].
  set (view := fun c => (c_session_generation c, c_pending_swap c)).
  refine (signs_from _ y _ _ _ _); [done|]. cbv zeta.
  do 6 (eapply (ends_pass view (c_session_generation (y_ctl y), None)); [walk|done|intros ? ? ?]).
  apply ends_bind, ends_gets, ends_sign_alone; [done|].
  match goal with E : view _ = _ |- _ => injection E as Hg Hn end.
  split; [|done]. split; [|by split]. exists p. by rewrite Hp, Hg.
Qed.

Lemma storage_signs y :
  ends dispatch_authorized_storage y (fun _ y' => signs_once (fun t y' => granted y t y' /\ purpose_of t = Some ForStorage) y y').
Proof.
  unfold dispatch_authorized_storage. apply ends_bind, ends_gets, ends_bind, ends_modify. cbv beta.
  destruct (c_pending_storage (y_ctl y)) as [p|] eqn:Hp; [|apply ends_ret; exists []; by rewrite app_nil_r].
  set (view := fun c => (c_session_generation c, c_pending_storage c)).
  refine (signs_from _ y _ _ _ _); [done|].
  do 2 (eapply (ends_pass view (c_session_generation (y_ctl y), None)); [walk|done|intros ? ? ?]).
  apply ends_bind, ends_gets, ends_sign_alone; [done|].
  match goal with E : view _ = _ |- _ => injection E as Hg Hn end.
  split; [|done]. split; [|by split]. exists p. by rewrite Hp, Hg.
Qed.

(** ** The dialog *)
Lemma granted_seen y y1 t y' : seen (y_ctl y1) = seen (y_ctl y) -> granted y1 t y' -> granted y t y'.
Proof.
  intros Hs (Ha & Hp & Hu). split; [by apply (awaits_seen _ (y_ctl y1))|]. split; [|done].
  apply (permitted_grounds _ (y_ctl y1)); [exact (f_equal (fun v => snd (fst v)) Hs)|exact (f_equal snd Hs)|done].
Qed.

Lemma window_seen y y1 :
  s_autosign_until (c_state (y_ctl y1)) = s_autosign_until (c_state (y_ctl y)) ->
  y_outside y1 = y_outside y -> (y_asked y <= y_asked y1)%nat -> window_open y1 -> window_open y.
Proof.
  intros Hu Ho Ha (n & Hn & Hw). exists n. split; [lia|]. unfold within_autosign in *. by rewrite <- Hu, <- Ho.
Qed.

Lemma refuse_spec y :
  ends refuse_unpermitted_send y (fun b y' => if b : bool then moved harmless (fun _ => tt) y y' else y' = y).
Proof.
  unfold refuse_unpermitted_send. apply ends_bind, ends_gets. destruct (signing_recipient_permitted _ _); cbv beta iota.
  - by apply ends_ret.
  - apply ends_bind. eapply ends_mono; [apply (moves_get_state harmless (fun _ => tt))|]. intros known y1 M1. cbv beta in M1.
    apply ends_bind. eapply ends_mono.
    { cut (moves harmless (fun _ : AppController => tt)
        (match known with Known _ => auth_error GATE_MSG_ACK | CheckFailed => check_destination;; auth_error GATE_MSG_FAILED
         | _ => auth_error GATE_MSG_PENDING end)); [intros Hm; apply Hm|]. walk. }
    intros u y2 M2. cbv beta in M2. apply ends_ret. exact (moved_trans _ _ _ _ _ M1 M2).
Qed.

Lemma window_spec y :
  ends within_window y (fun b y' => if b : bool then y' = y <| y_asked := S (y_asked y) |> /\ window_open y
                                    else moved harmless (fun _ => tt) y y').
Proof.
  unfold within_window. apply ends_bind, ends_ask, ends_bind, ends_gets. cbv beta.
  cbn [y_ctl].
  destruct (within_autosign _ _) eqn:Hw; cbv beta iota delta [negb].
  - apply ends_bind, ends_ret, ends_ret. split; [done|]. exists (y_asked y). by split.
  - apply ends_bind, ends_modify, ends_ret. split; [done|done|cbn; lia|]. exists []. by rewrite app_nil_r.
Qed.

Lemma ends_assoc {A B C} (m : Ctl A) (k : A -> Ctl B) (l : B -> Ctl C) y Q :
  ends ((m ≫= k) ≫= l) y Q -> ends (m ≫= fun a => k a ≫= l) y Q.
Proof.
  intros Hm w. specialize (Hm w). unfold mbind, ctl_bind, io_bind, io_match in *.
  destruct (m y w) as [[[a y']|e|] w']; done.
Qed.

(** Confirmed at once, within the window. *)
Definition at_once (purpose : AuthPurpose) (y : Sys) (t : Task) (y' : Sys) : Prop :=
  granted y t y' /\ purpose_of t = Some purpose /\ window_open y.

Lemma send_now_signs remember y :
  ends (confirm_send_now remember) y (fun _ y' => signs_once (at_once ForSend y) y y').
Proof.
  unfold confirm_send_now. apply ends_bind. eapply ends_mono; [apply window_spec|].
  intros within y1 Hwithin. cbv beta in *. destruct within; cbn [negb] in *.
  2: { apply ends_ret. exact (signs_none _ _ _ _ Hwithin). }
  destruct Hwithin as [-> Hopen]. set (y1 := y <| y_asked := _ |>).
  refine (signs_from _ y y1 _ _ _); [done|].
  apply ends_bind. eapply ends_mono; [apply refuse_spec|]. intros refused y2 Hr. cbv beta in *. destruct refused.
  { apply ends_ret. exact (signs_none _ _ _ _ Hr). }
  subst y2. unfold take_authorization. apply ends_bind, ends_bind, ends_gets, ends_bind, ends_modify, ends_ret. cbv beta.
  destruct (c_pending_authorization (y_ctl y1)) as [a|] eqn:Ha.
  - apply ends_assoc. eapply ends_mono.
    { apply (taken_send_signs (close_auth;; remember_autosign remember) a y1 Ha).
      apply moves_bind; [apply close_still|intros _; apply remember_still]. }
    intros u y3 S3. cbv beta in S3. refine (signs_mono _ _ _ _ S3 _). intros t (Hg & Hp & _). split; [exact Hg|by split].
  - refine (signs_from _ y1 _ _ _ _); [done|]. apply (ends_moves (fun _ => tt)). walk.
Qed.

Lemma other_now_signs purpose waits gone remember (dispatch : Ctl unit) y :
  (forall y, ends dispatch y (fun _ y' => signs_once (fun t y' => granted y t y' /\ purpose_of t = Some purpose) y y')) ->
  ends (confirm_other_now waits gone remember dispatch) y (fun _ y' => signs_once (at_once purpose y) y y').
Proof.
  intros Hdispatch. unfold confirm_other_now. apply ends_bind. eapply ends_mono; [apply window_spec|].
  intros within y1 Hwithin. cbv beta in *. destruct within; cbn [negb] in *.
  2: { apply ends_ret. exact (signs_none _ _ _ _ Hwithin). }
  destruct Hwithin as [-> Hopen]. set (y1 := y <| y_asked := _ |>).
  refine (signs_from _ y y1 _ _ _); [done|]. destruct waits; cbn [negb]; [|apply (ends_moves (fun _ => tt)); walk].
  eapply (ends_before seen); [apply close_still|]. intros u y2 M2. cbv beta.
  eapply (ends_before seen); [apply remember_still|]. intros u' y3 M3. cbv beta.
  eapply ends_mono; [apply Hdispatch|]. intros u'' y4 S4. cbv beta in S4.
  refine (signs_mono _ _ _ _ S4 _). intros t [Hg Hp]. split; [|by split].
  change (granted y1 t y4). apply (granted_seen y1 y3); [|exact Hg]. exact (mv_view _ _ _ _ (moved_trans _ _ _ _ _ M2 M3)).
Qed.

(** What the password was given for. *)
Definition by_password (action : KeyAction) (y : Sys) (t : Task) (y' : Sys) : Prop :=
  granted y t y' /\ action_confirms (y_ctl y) action t.

Lemma send_confirmed_signs remember generation nonce y :
  ends (confirm_send remember generation nonce) y
    (fun _ y' => signs_once (by_password (KeyConfirmSend remember generation nonce) y) y y').
Proof.
  unfold confirm_send. apply ends_bind. eapply ends_mono; [apply refuse_spec|]. intros refused y2 Hr. cbv beta in *. destruct refused.
  { apply ends_ret. exact (signs_none _ _ _ _ Hr). }
  subst y2. unfold take_authorization. apply ends_bind, ends_bind, ends_gets, ends_bind, ends_modify, ends_ret. cbv beta.
  destruct (c_pending_authorization (y_ctl y)) as [a|] eqn:Ha.
  2: { refine (signs_from _ y _ _ _ _); [done|]. apply (ends_moves (fun _ => tt)). walk. }
  destruct (sa_matches a generation nonce) eqn:Hm; cbn [negb].
  2: { refine (signs_from _ y _ _ _ _); [done|]. apply (ends_moves (fun _ => tt)). walk. }
  apply ends_assoc. eapply ends_mono.
  { apply (taken_send_signs (settle_auth;; remember_autosign remember) a y Ha).
    apply moves_bind; [apply settle_still|intros _; apply remember_still]. }
  intros u y3 S3. cbv beta in S3. refine (signs_mono _ _ _ _ S3 _). intros t (Hg & Hp & Ht). split; [exact Hg|].
  destruct t; try discriminate Hp. cbn. rewrite (Ht _ _ _ _ _ _ _ eq_refl).
  unfold sa_matches in Hm. apply andb_prop in Hm as [Hm1 Hm2]. by apply N.eqb_eq in Hm1, Hm2.
Qed.

Lemma other_confirmed_signs purpose waits gone remember (dispatch : Ctl unit) y :
  (forall y, ends dispatch y (fun _ y' => signs_once (fun t y' => granted y t y' /\ purpose_of t = Some purpose) y y')) ->
  ends (confirm_other waits gone remember dispatch) y
    (fun _ y' => signs_once (fun t y' => waits = true /\ granted y t y' /\ purpose_of t = Some purpose) y y').
Proof.
  intros Hdispatch. unfold confirm_other. destruct waits; cbn [negb]; [|apply (ends_moves (fun _ => tt)); walk].
  eapply (ends_before seen); [apply settle_still|]. intros u y2 M2. cbv beta.
  eapply (ends_before seen); [apply remember_still|]. intros u' y3 M3. cbv beta.
  eapply ends_mono; [apply Hdispatch|]. intros u'' y4 S4. cbv beta in S4.
  refine (signs_mono _ _ _ _ S4 _). intros t [Hg Hp]. split; [done|]. split; [|done].
  apply (granted_seen y y3); [|exact Hg]. exact (mv_view _ _ _ _ (moved_trans _ _ _ _ _ M2 M3)).
Qed.

Lemma reauth_signs action y : ends (run_reauth_action action) y (fun _ y' => signs_once (by_password action y) y y').
Proof.
  destruct (confirms action) eqn:Hc; [|apply (ends_moves (fun _ => tt)), reauth_idles, Hc].
  destruct action as [| |remember g n|remember g|remember g| | | | | | |]; try discriminate Hc; unfold run_reauth_action.
  - apply send_confirmed_signs.
  - apply ends_bind, ends_gets. cbv beta. eapply ends_mono; [apply (other_confirmed_signs ForSwap), swap_signs|].
    intros u y' S. cbv beta in S. refine (signs_mono _ _ _ _ S _). intros t (Hw & Hg & Hp). split; [done|].
    destruct t; try discriminate Hp. cbn. destruct (c_pending_swap (y_ctl y)) as [p|]; [|done]. apply N.eqb_eq in Hw. cbn. by f_equal.
  - apply ends_bind, ends_gets. cbv beta. eapply ends_mono; [apply (other_confirmed_signs ForStorage), storage_signs|].
    intros u y' S. cbv beta in S. refine (signs_mono _ _ _ _ S _). intros t (Hw & Hg & Hp). split; [done|].
    destruct t; try discriminate Hp. cbn. destruct (c_pending_storage (y_ctl y)) as [p|]; [|done]. apply N.eqb_eq in Hw. cbn. by f_equal.
Qed.

Lemma key_done_idles action vault profile history corrupt journal selected writer :
  confirms action = false ->
  moves harmless (fun _ => tt) (key_done action vault profile history corrupt journal selected writer).
Proof. intros Hc. destruct action; try discriminate Hc; walk. Qed.

Lemma key_done_signs action vault profile history corrupt journal selected writer y :
  ends (key_done action vault profile history corrupt journal selected writer) y
    (fun _ y' => signs_once (by_password action y) y y').
Proof.
  destruct (confirms action) eqn:Hc; [|apply (ends_moves (fun _ => tt)), key_done_idles, Hc].
  destruct action; try discriminate Hc; apply reauth_signs.
Qed.

Lemma by_password_seen action y y1 t y' :
  seen (y_ctl y1) = seen (y_ctl y) -> by_password action y1 t y' -> by_password action y t y'.
Proof.
  intros Hs [Hg Ha]. split; [by apply (granted_seen y y1)|].
  assert (Hw : waiting (y_ctl y1) = waiting (y_ctl y)) by exact (f_equal (fun v => fst (fst v)) Hs).
  unfold waiting in Hw. injection Hw as _ E2 E3. destruct action; try done; destruct t; try done; cbn in *; congruence.
Qed.

Definition sound (s : AppStep) (y : Sys) (t : Task) (y' : Sys) : Prop := granted y t y' /\ confirmed s y t.

Lemma key_signs msg y : ends (apply_key_msg msg) y (fun _ y' => signs_once (sound (StepKey msg) y) y y').
Proof.
  unfold apply_key_msg. apply ends_bind, ends_gets. cbv beta.
  destruct (msg_generation msg =? c_key_generation (y_ctl y)) eqn:Hgen; cbn [negb].
  2: { apply ends_ret. by apply (signs_none (fun _ => tt)). }
  apply N.eqb_eq in Hgen.
  assert (Hsound : forall action y1 t y', verified_action msg = Some action -> seen (y_ctl y1) = seen (y_ctl y) ->
    by_password action y1 t y' -> sound (StepKey msg) y t y').
  { intros action y1 t y' Hv Hs Hb. apply (by_password_seen action y y1) in Hb as [Hg Ha]; [|done].
    split; [done|]. split; [done|]. by exists action. }
  eapply (ends_before seen); [walk|]. intros u y1 M1. cbv beta.
  eapply (ends_before seen); [walk|]. intros u' y2 M2. cbv beta.
  pose proof (mv_view _ _ _ _ (moved_trans _ _ _ _ _ M1 M2)) as Hs.
  destruct msg as [g action v p h hc j sel wr|g action|g action|g action e]; cbn [verified_action] in Hsound.
  - eapply ends_mono; [apply key_done_signs|]. intros r y3 S3. cbv beta in S3. refine (signs_mono _ _ _ _ S3 _). eauto.
  - eapply ends_mono; [apply reauth_signs|]. intros r y3 S3. cbv beta in S3. refine (signs_mono _ _ _ _ S3 _). eauto.
  - apply (ends_moves (fun _ => tt)). walk.
  - apply (ends_moves (fun _ => tt)). walk.
Qed.

Lemma submit_signs pw pw2 remember y :
  ends (auth_submit pw pw2 remember) y (fun _ y' => signs_once (sound (StepCommand (AuthSubmit pw pw2 remember)) y) y y').
Proof.
  unfold auth_submit. apply ends_bind, ends_gets. cbv beta. unfold id.
  destruct (am_open (s_auth (c_state (y_ctl y)))) eqn:Hopen; cbn [negb orb].
  2: { apply ends_ret. by apply (signs_none (fun _ => tt)). }
  destruct (s_key_busy (c_state (y_ctl y))); [apply ends_ret; by apply (signs_none (fun _ => tt))|].
  apply ends_bind, ends_gets, ends_bind, ends_gets. cbv beta.
  assert (Hsound : forall purpose t y', am_mode (s_auth (c_state (y_ctl y))) = AuthConfirm ->
    am_purpose (s_auth (c_state (y_ctl y))) = purpose -> at_once purpose y t y' ->
    sound (StepCommand (AuthSubmit pw pw2 remember)) y t y').
  { intros purpose t y' Hm Hp (Hg & Ht & Hw). split; [done|]. cbn. rewrite Hp. done. }
  destruct (am_mode (s_auth (c_state (y_ctl y)))) eqn:Hm, (am_purpose (s_auth (c_state (y_ctl y)))) eqn:Hp;
    try solve [apply (ends_moves (fun _ => tt)); walk].
  all: eapply ends_mono; [first [apply send_now_signs | apply (other_now_signs ForSwap), swap_signs
                                | apply (other_now_signs ForStorage), storage_signs]|].
  all: intros r y1 S1; cbv beta in S1; refine (signs_mono _ _ _ _ S1 _); eauto.
Qed.

(** ** Whole steps *)
Lemma sound_seen pw pw2 remember y y1 t y' :
  moved harmless dialog y y1 -> sound (StepCommand (AuthSubmit pw pw2 remember)) y1 t y' ->
  sound (StepCommand (AuthSubmit pw pw2 remember)) y t y'.
Proof.
  intros [Hv Ho Ha _] [Hg (Hopen & Hmode & Hpurpose & Hwindow)].
  assert (Hs : seen (y_ctl y1) = seen (y_ctl y)) by exact (f_equal (fun v => fst (fst (fst (fst v)))) Hv).
  assert (Hauth : s_auth (c_state (y_ctl y1)) = s_auth (c_state (y_ctl y))) by exact (f_equal (fun v => snd (fst (fst (fst v)))) Hv).
  assert (Hu : s_autosign_until (c_state (y_ctl y1)) = s_autosign_until (c_state (y_ctl y))) by exact (f_equal (fun v => snd (fst v)) Hv).
  split; [by apply (granted_seen y y1)|]. cbn. rewrite Hauth in *. split; [done|]. split; [done|]. split; [done|].
  by apply (window_seen y y1).
Qed.


Lemma unlocked_submit_signs pw pw2 remember y :
  ends (handle_unlocked (AuthSubmit pw pw2 remember)) y
    (fun _ y' => signs_once (sound (StepCommand (AuthSubmit pw pw2 remember)) y) y y').
Proof.
  unfold handle_unlocked. apply ends_bind, ends_gets. cbv beta.
  apply ends_bind. eapply ends_mono.
  { cut (moves harmless dialog (if s_show_seed (c_state (y_ctl y)) && negb (keeps_phrase_shown (AuthSubmit pw pw2 remember))
      then hide_seed else mret tt)); [intros Hm; apply Hm|]. destruct (_ && _); [apply hide_still|walk]. }
  intros u y1 M1. cbv beta in *. unfold about_pending_send. apply ends_bind, ends_ret. cbv beta iota.
  apply ends_bind, ends_gets. cbv beta.
  replace (frozen_while_authorization_pending (AuthSubmit pw pw2 remember)) with false by reflexivity.
  rewrite andb_false_r. apply ends_bind, ends_gets. cbv beta.
  replace (changes_wallet_identity_or_endpoint (AuthSubmit pw pw2 remember)) with false by reflexivity.
  rewrite andb_false_r. eapply ends_mono.
  - eapply (ends_after waiting (sound (StepCommand (AuthSubmit pw pw2 remember)) y1)
      (sound (StepCommand (AuthSubmit pw pw2 remember)) y1)).
    + apply submit_signs.
    + intros _. eapply moves_weaken; [| |apply mirror_still]; [done|]. intros c c' Hc. exact (f_equal (fun v => fst (fst v)) Hc).
    + intros t y2 y3 Hw [(Haw & Hp & Hu) Hc]. split; [|done]. split; [done|]. split; [done|]. by apply (used_up_waiting (y_ctl y2)).
  - intros r y2 S2. cbv beta in S2. refine (signs_before dialog _ _ y1 _ M1 _). refine (signs_mono _ _ _ _ S2 _).
    intros t. by apply sound_seen.
Qed.

Lemma unlocked_idles command :
  match command with AuthSubmit _ _ _ => False | _ => True end ->
  moves harmless (fun _ : AppController => tt) (handle_unlocked command).
Proof.
  intros Hc. unfold handle_unlocked. pose proof (command_idles command Hc) as Hrun.
  repeat first [lazymatch goal with |- moves _ _ (run_command _) => exact Hrun end | move_step].
Qed.

Lemma command_signs command y :
  ends (handle_command command) y (fun _ y' => signs_once (sound (StepCommand command) y) y y').
Proof.
  unfold handle_command. apply ends_bind. eapply ends_mono; [apply bump_still|]. intros u y1 M1. cbv beta in *.
  apply ends_bind, ends_gets. cbv beta. destruct (is_some _).
  { eapply ends_mono; [|intros r y2 S2; exact (signs_before dialog _ _ _ _ M1 S2)].
    apply (ends_moves (fun _ => tt)). walk. }
  apply ends_bind, ends_gets. cbv beta.
  eapply ends_mono; [|intros r y2 S2; exact (signs_before dialog _ _ _ _ M1 S2)].
  destruct (bool_decide _); cbn [negb]; [|apply (ends_moves (fun _ => tt)), locked_command_idles].
  destruct command; try (apply (ends_moves (fun _ => tt)), unlocked_idles; exact I).
  eapply ends_mono; [apply unlocked_submit_signs|]. intros r y2 S2. cbv beta in S2. refine (signs_mono _ _ _ _ S2 _).
  intros t. by apply sound_seen.
Qed.

Ltac tame := solve [eapply moves_weaken; [exact harmless_signs| |solve [eauto 2 with moves nocore]]; done].
Ltac walk_tame := repeat first [tame | move_step].

Lemma delivery_signs_nothing e : moves no_signing (fun _ : AppController => tt) (apply_event e).
Proof.
  destruct (delivers_send e) eqn:He.
  - destruct e; try discriminate He; walk_tame.
  - eapply moves_weaken; [exact harmless_signs|done|by apply event_idles].
Qed.

End consent.

Section broadcasting.
Context `{Sha256} `{VaultPrims} `{Tempfile} `{WalletCodec} `{StdAddrLib} `{ChainService} `{RandomError} `{Unicode}.
Local Notation silent := (moves no_broadcast (fun _ : AppController => tt)).
Ltac tame := solve [eapply moves_weaken; [exact harmless_broadcasts| |solve [eauto 2 with moves nocore]]; done].
Ltac walk_tame := repeat first [tame | move_step].

Lemma confirmed_silent action : silent (run_reauth_action action).
Proof. destruct action; walk_tame. Qed.
Lemma submit_silent pw pw2 remember : silent (auth_submit pw pw2 remember).
Proof. walk_tame. Qed.
Lemma key_silent msg : silent (apply_key_msg msg).
Proof. destruct msg as [g action v p h c j s w| | |]; [destruct action|..]; walk_tame. Qed.

Lemma step_silent s :
  match s with StepEvent e => delivers_send e = false | _ => True end -> silent (app_step s).
Proof.
  intros Hs. destruct s as [command|event|msg| |]; cbn [app_step].
  - unfold handle_command. apply moves_bind; [walk_tame|intros _]. apply moves_bind; [walk_tame|intros teardown].
    destruct teardown; [destruct command; walk_tame|]. apply moves_bind; [walk_tame|intros unlocked].
    destruct unlocked; cbn [negb].
    2: { eapply moves_weaken; [exact harmless_broadcasts|done|apply locked_command_idles]. }
    destruct command; try (eapply moves_weaken; [exact harmless_broadcasts|done|by apply unlocked_idles]).
    unfold handle_unlocked.
    repeat first [lazymatch goal with |- moves _ _ (run_command (AuthSubmit _ _ _)) => apply submit_silent end | tame | move_step].
  - eapply moves_weaken; [exact harmless_broadcasts|done|by apply event_idles].
  - apply key_silent.
  - eapply moves_weaken; [exact harmless_broadcasts|done|apply tick_idles].
  - eapply moves_weaken; [exact harmless_broadcasts|done|apply save_task_idles].
Qed.

Lemma step_hands_out_silent s y w u y' t :
  match s with StepEvent e => delivers_send e = false | _ => True end ->
  fst (app_step s y w) = Ok (u, y') -> t ∈ drop (length (y_tasks y)) (y_tasks y') -> is_broadcast t = false.
Proof.
  intros Hs Hstep Ht. pose proof (step_silent s Hs y w) as Hm. rewrite Hstep in Hm.
  destruct Hm as [_ _ _ (l & T & F)]. rewrite T, drop_app_length in Ht.
  rewrite Forall_forall in F. specialize (F t Ht). unfold no_broadcast in F. by destruct (is_broadcast t).
Qed.

Definition step_delivers (s : AppStep) : bool := match s with StepEvent e => delivers_send e | _ => false end.

End broadcasting.

(** ** A confirmation that signs *)
Definition demo_random : RandomError := {| random_error := [] |}.

(** A send waits for its confirmation, the autosign window being open. *)
Definition demo_confirming : Sys :=
  demo_sys <| y_ctl ::= fun c => c
    <| c_pending_authorization := Some (mkAuthorization demo_inputs (demo_ticket demo_id)) |>
    <| c_state ::= fun s => s <| s_auth := mkAuthModal true AuthConfirm ForSend false [] |>
         <| s_recipient_check := Known Active |>
         <| s_autosign_until := Some (mkDeadline (60 * NANOS) (1800000000 * Z.of_N NANOS)) |> |> |>.

Definition demo_step (s : AppStep) (y : Sys) : res Empty_set (unit * Sys) :=
  fst (@app_step toy_sha256 toy_prims toy_tempfile toy_serde demo_codec toy_stdaddr demo_chain demo_random toy_unicode
         s y (mkWorld empty_disk [] [])).

Definition tasks_after (r : res Empty_set (unit * Sys)) : list Task := match r with Ok (_, y) => y_tasks y | _ => [] end.

(** One task signs, of this ticket; once more, or after the window, none does. *)
Definition later (r : res Empty_set (unit * Sys)) : Sys := match r with Ok (_, y) => y | _ => demo_sys end.
Definition demo_submit : AppStep := StepCommand (AuthSubmit [] [] false).
Example demo_submit_signs :
  (map (fun t => match t with TaskPrepare _ _ required inputs ticket _ _ => Some (required, inputs, ticket) | _ => None end)
     (tasks_after (demo_step demo_submit demo_confirming)) = [Some (false, demo_inputs, demo_ticket demo_id)])
  /\ length (tasks_after (demo_step demo_submit (later (demo_step demo_submit demo_confirming)))) = 1%nat
  /\ tasks_after (demo_step demo_submit (demo_confirming <| y_outside :=
       mkOutside (fun n => mkReading (100 * NANOS) (1700000000 * Z.of_N NANOS)) (fun _ => Err []) (fun _ => true)
         (fun _ => None) |>)) = [].
Proof. vm_compute. repeat split. Qed.

(** ** What a lock leaves behind *)
Section locking.
Context `{Sha256} `{VaultPrims} `{Tempfile} `{WalletCodec} `{StdAddrLib} `{ChainService} `{RandomError} `{Unicode}.

Definition unsigned_requests (c : AppController) := (c_pending_swap c, c_pending_storage c).

Lemma finish_lock_keeps : moves (fun _ => true) unsigned_requests finish_lock.
Proof. repeat first [by apply run_started_moves | by apply save_now_moves | move_step]. Qed.

(** A lock clears the phrase everywhere but in a swap or a storage operation that still waits
    for its confirmation, which stays with the inputs it would be signed with. *)
Lemma lock_keeps_unsigned_requests (y : Sys) (w : World) :
  match fst (finish_lock y w) with
  | Ok (_, y') => c_pending_swap (y_ctl y') = c_pending_swap (y_ctl y)
                  /\ c_pending_storage (y_ctl y') = c_pending_storage (y_ctl y)
  | _ => True
  end.
Proof.
  pose proof (finish_lock_keeps y w) as Hm. destruct (fst (finish_lock y w)) as [[u y']| |]; [|done..].
  destruct Hm as [[= Es Eg] _ _ _]. by split.
Qed.

(** A new swap is then refused, until the dialog of something else is cancelled. *)
Lemma swap_refused_while_waiting (y : Sys) (w : World) :
  is_some (c_pending_swap (y_ctl y)) = true ->
  request_swap y w = auth_error (bs "A swap authorization is already waiting for confirmation") y w.
Proof. intros Hp. unfold request_swap, mbind, ctl_bind, io_bind, io_match, gets. cbn. by rewrite Hp. Qed.
End locking.

(** ** The password *)
Section passwords.
Context `{Sha256} `{VaultPrims} `{Tempfile} `{WalletCodec} `{!StoredText}.

(** The thread of [t] found this password to be right, for this action of this generation. *)
Definition password_opens (t : Task) (w : World) (generation : N) (action : KeyAction) : Prop :=
  match t with
  | TaskVerifyPassword g vault password a =>
      g = generation /\ a = action /\ is_ok (keyslot_open (v_keyslot vault) password) = true
  | TaskUnlockStore g store password a =>
      g = generation /\ a = action /\ is_ok (fst (Unlock.unlock store password w)) = true
  | TaskCreateVault g _ _ _ _ _ => g = generation /\ action = KeyCreate
  | TaskChangePassword g _ _ _ _ => g = generation /\ action = KeyChangePassword
  | _ => False
  end.

Lemma opened_msg_answers g action opened msg a :
  opened_msg g action opened = Ok msg -> verified_action msg = Some a -> msg_generation msg = g /\ a = action.
Proof. unfold opened_msg. repeat case_match; intros; simplify_eq/=; done. Qed.

End passwords.

(** ** Frozen controls *)
Section frozen.
Context `{Sha256} `{VaultPrims} `{Tempfile} `{WalletCodec} `{StdAddrLib} `{ChainService} `{RandomError} `{Unicode}.

(** What a refused command does: it is an activity of the user, and says why. *)
Definition refused_frozen (y : Sys) : Sys :=
  y <| y_asked ::= S |>
    <| y_ctl ::= fun c => c <| c_last_activity := o_clock (y_outside y) (y_asked y) |>
         <| c_state ::= fun s => set_error CONTROLS_LOCKED (s <| s_auth ::= fun a => a <| am_error := CONTROLS_LOCKED |> |>) |> |>.

End frozen.

