(* ===== verification/Comment.v ===== *)
(** * Comments on the chain

    cc-wallet-tycho/src/everwallet.rs and encrypted_comment.rs: a comment is written into a
    chain of cells, in the clear or sealed, and read back from whatever cells a message
    carries. The cells of tycho_types are a parameter. *)

From Stdlib Require Import NArith ZArith Lia.
From stdpp Require Import list.
From S2P Require Import Prelude Bytes Text Decimal.

(** The cells, slices and builders of tycho_types that the code uses; errors by their text. *)
Class CellLib := {
  cell : Type; slice : Type; builder : Type;
  as_slice : cell -> res bytes slice;
  reference_cloned : cell -> nat -> option cell;
  repr_depth : cell -> nat;
  size_bits : slice -> N;
  load_u8 : slice -> res bytes (N * slice);
  load_u32 : slice -> res bytes (N * slice);
  load_raw : slice -> N -> res bytes (bytes * slice);
  skip_first : slice -> N -> N -> res bytes slice;
  builder_new : builder;
  store_u8 : builder -> N -> res bytes builder;
  store_u32 : builder -> N -> res bytes builder;
  store_raw : builder -> bytes -> N -> res bytes builder;
  store_reference : builder -> cell -> res bytes builder;
  build : builder -> res bytes cell
}.

(** What is documented of them: a cell holds at most 127 whole bytes and four references; a
    built cell is an ordinary one, and a slice of it reads in order what was stored; what it
    refers to is less deep. *)
Class CellLaws `{CellLib} := {
  holds : slice -> bytes -> Prop;
  stored : builder -> bytes -> list cell -> Prop;
  stored_new : stored builder_new [] [];
  stored_u8 b d r n : stored b d r -> (length d + 1 <= 127)%nat ->
    exists b', store_u8 b n = Ok b' /\ stored b' (d ++ be_bytes 1 n) r;
  stored_u32 b d r n : stored b d r -> (length d + 4 <= 127)%nat ->
    exists b', store_u32 b n = Ok b' /\ stored b' (d ++ be_bytes 4 n) r;
  stored_raw b d r (l : bytes) : stored b d r -> (length d + length l <= 127)%nat ->
    exists b', store_raw b l (8 * N.of_nat (length l)) = Ok b' /\ stored b' (d ++ l) r;
  stored_reference b d r c : stored b d r -> (length r < 4)%nat ->
    exists b', store_reference b c = Ok b' /\ stored b' d (r ++ [c]);
  stored_build b d r : stored b d r ->
    exists c s, build b = Ok c /\ as_slice c = Ok s /\ holds s d /\ forall i, reference_cloned c i = r !! i;
  holds_bits s d : holds s d -> size_bits s = 8 * N.of_nat (length d);
  holds_u8 s b d : holds s (b :: d) -> exists s', load_u8 s = Ok (u8 b, s') /\ holds s' d;
  holds_u32 s (d d' : bytes) : holds s (d ++ d') -> length d = 4%nat ->
    exists s', load_u32 s = Ok (of_be d, s') /\ holds s' d';
  holds_raw s (d d' : bytes) : holds s (d ++ d') ->
    exists s', load_raw s (8 * N.of_nat (length d)) = Ok (d, s') /\ holds s' d';
  holds_skip s (d d' : bytes) : holds s (d ++ d') ->
    exists s', skip_first s (8 * N.of_nat (length d)) 0 = Ok s' /\ holds s' d';
  reference_depth c i c' : reference_cloned c i = Some c' -> (repr_depth c' < repr_depth c)%nat
}.

(** ** Budgets *)
Definition COMMENT_OP : N := 0.
Definition COMMENT_ROOT_BYTES : nat := 123.
Definition COMMENT_CELL_BYTES : nat := 127.
Definition MAX_COMMENT_BYTES : nat := 1024.

Definition ENCRYPTED_COMMENT_OP : N := 0x43434531.
Definition ENCRYPTED_COMMENT_VERSION : N := 1.
Definition ENCRYPTED_PREFIX_BYTES : nat := 1 + 32.
Definition SEAL_OVERHEAD_BYTES : nat := 24 + 16.
Definition MAX_ENCRYPTED_COMMENT_BYTES : nat := MAX_COMMENT_BYTES - ENCRYPTED_PREFIX_BYTES - SEAL_OVERHEAD_BYTES.
Definition ROOT_BYTES : nat := 123 - ENCRYPTED_PREFIX_BYTES - 24.

(** [(len * 8) as u16]. *)
Definition bits_of (l : bytes) : N := (8 * N.of_nat (length l)) mod 65536.

(** [while !rest.is_empty()]: what follows the root, a cell's worth at a time. *)
Fixpoint cells_of (fuel : nat) (rest : bytes) : list bytes :=
  match fuel with
  | O => []
  | S fuel => if bool_decide (rest = []) then []
              else take COMMENT_CELL_BYTES rest :: cells_of fuel (drop COMMENT_CELL_BYTES rest)
  end.
Definition tail_cells (rest : bytes) : list bytes := cells_of (length rest) rest.

Section comments.
Context `{CellLib}.

Definition refer (b : builder) (next : option cell) : res bytes builder :=
  match next with Some next => store_reference b next | None => Ok b end.

(** The cells are built from the last one on, each referring to the one after it. *)
Fixpoint link (chunks : list bytes) (next : option cell) : res bytes (option cell) :=
  match chunks with
  | [] => Ok next
  | chunk :: chunks =>
      let? b := store_raw builder_new chunk (bits_of chunk) in
      let? b := refer b next in
      let? c := build b in
      link chunks (Some c)
  end.

Definition comment_payload (text : bytes) : res bytes cell :=
  if (MAX_COMMENT_BYTES <? length text)%nat
  then Err (bs "a comment of " ++ print_dec (N.of_nat (length text)) ++ bs " bytes exceeds the 1024-byte budget") else
  let head := take COMMENT_ROOT_BYTES text in
  let? next := link (rev (tail_cells (drop COMMENT_ROOT_BYTES text))) None in
  let? root := store_u32 builder_new COMMENT_OP in
  let? root := store_raw root head (bits_of head) in
  let? root := refer root next in
  map_err (fun _ => bs "failed to build the comment payload") (build root).

(** [.ok()?]. *)
Definition opt {E A B} (r : res E A) (k : A -> option B) : option B := match r with Ok a => k a | _ => None end.

(** The loop over the chain; the first cell is read after its opcode. *)
Fixpoint read_parts (fuel : nat) (c : cell) (first : bool) (text : bytes) : option bytes :=
  match fuel with
  | O => None
  | S fuel =>
      opt (as_slice c) (fun part =>
      opt (if first then skip_first part 32 0 else Ok part) (fun part =>
      let bits := size_bits part in
      if negb (bits mod 8 =? 0) then None else
      opt (load_raw part bits) (fun '(chunk, _) =>
      let text := text ++ chunk in
      if (MAX_COMMENT_BYTES <? length text)%nat then None else
      match reference_cloned c 0 with
      | Some next => read_parts fuel next false text
      | None => Some text
      end)))
  end.

Definition read_comment (body : cell) : option bytes :=
  opt (as_slice body) (fun s =>
  if size_bits s <? 32 then None else
  opt (load_u32 s) (fun '(op, _) =>
  if negb (op =? COMMENT_OP) then None else
  text ← read_parts (S (repr_depth body)) body true [];
  if utf8_valid text then Some text else None)).

(** ** Sealed comments *)
Definition comment_aad (sender recipient : bytes) : bytes := sender ++ [Byte.x00] ++ recipient.

Definition TOO_SHORT : bytes := bs "a sealed comment carries at least its nonce and tag".
Definition encrypted_comment_payload (sender_key : bytes32) (sealed : bytes) : res bytes cell :=
  if (length sealed <? 24 + 16)%nat then Err TOO_SHORT else
  let body_len := (ENCRYPTED_PREFIX_BYTES + length sealed)%nat in
  if (MAX_COMMENT_BYTES <? body_len)%nat
  then Err (bs "an encrypted comment of " ++ print_dec (N.of_nat body_len) ++ bs " bytes exceeds the 1024-byte budget") else
  let nonce := take 24 sealed in
  let ciphertext := drop 24 sealed in
  let head := take ROOT_BYTES ciphertext in
  let? next := link (rev (tail_cells (drop ROOT_BYTES ciphertext))) None in
  let? root := store_u32 builder_new ENCRYPTED_COMMENT_OP in
  let? root := store_u8 root ENCRYPTED_COMMENT_VERSION in
  let? root := store_raw root (as_bytes sender_key) 256 in
  let? root := store_raw root nonce 192 in
  let? root := store_raw root head (bits_of head) in
  let? root := refer root next in
  map_err (fun _ => bs "failed to build the encrypted comment payload") (build root).

Record EncryptedComment := mkEncrypted { ec_sender_key : bytes; ec_sealed : bytes }.

Fixpoint sealed_parts (fuel : nat) (c : cell) (first : bool) (sealed : bytes) : res bytes bytes :=
  match fuel with
  | O => Panic
  | S fuel =>
      let? part := as_slice c in
      let? part := if first then skip_first part (32 + 8 + 256 + 192) 0 else Ok part in
      let bits := size_bits part in
      check bits mod 8 =? 0 else bs "an encrypted comment is a whole number of bytes";;
      let? (chunk, _) := load_raw part bits in
      let sealed := sealed ++ chunk in
      match reference_cloned c 0 with
      | Some next => sealed_parts fuel next false sealed
      | None => Ok sealed
      end
  end.

Definition parse_encrypted_comment (body : cell) : res bytes (option EncryptedComment) :=
  match as_slice body with
  | Err _ => Ok None
  | Panic => Panic
  | Ok s =>
      if size_bits s <? 32 then Ok None else
      let? (op, s) := load_u32 s in
      if negb (op =? ENCRYPTED_COMMENT_OP) then Ok None else
      let? (version, s) := load_u8 s in
      check version =? ENCRYPTED_COMMENT_VERSION
        else bs "this comment was written by a newer wallet (format version " ++ print_dec version ++ bs ")";;
      let? (sender_key, s) := load_raw s 256 in
      let? (nonce, s) := load_raw s 192 in
      let? sealed := sealed_parts (S (repr_depth body)) body true nonce in
      check (24 + 16 <=? length sealed)%nat else bs "an encrypted comment carries at least its nonce and tag";;
      Ok (Some (mkEncrypted sender_key sealed))
  end.
End comments.

(** ** What was written is read back *)
Lemma bits_of_small (l : bytes) : (length l <= 127)%nat -> bits_of l = 8 * N.of_nat (length l).
Proof. intros Hl. apply N.mod_small. lia. Qed.

Lemma join_cell (d : bytes) l : mjoin (d :: l) = d ++ mjoin l.
Proof. reflexivity. Qed.

Lemma cells_of_spec fuel rest : (length rest <= fuel)%nat ->
  mjoin (cells_of fuel rest) = rest /\ Forall (fun chunk => (length chunk <= 127)%nat) (cells_of fuel rest).
Proof.
  revert rest. induction fuel as [|fuel IH]; intros rest Hr; cbn [cells_of].
  { destruct rest; [by split|cbn in Hr; lia]. }
  case_bool_decide as Hn; [by subst|]. destruct (IH (drop COMMENT_CELL_BYTES rest)) as [IH1 IH2].
  { rewrite length_drop. destruct rest; [done|]. cbn in *. lia. }
  split; [by rewrite join_cell, IH1, take_drop|]. constructor; [|done]. rewrite length_take. unfold COMMENT_CELL_BYTES. lia.
Qed.

Section reading.
Context `{CellLaws}.

(** The cells of a chain hold these bytes. *)
Inductive chained : cell -> list bytes -> Prop :=
| chained_last c s d : as_slice c = Ok s -> holds s d -> reference_cloned c 0 = None -> chained c [d]
| chained_more c s d c' l : as_slice c = Ok s -> holds s d -> reference_cloned c 0 = Some c' ->
    reference_cloned c 1 = None -> chained c' l -> chained c (d :: l).
Definition continued (next : option cell) (l : list bytes) : Prop :=
  match next with Some c => chained c l | None => l = [] end.

Lemma refer_stored b d next : stored b d [] -> exists b', refer b next = Ok b' /\ stored b' d (option_list next).
Proof. intros Hb. destruct next as [c|]; cbn; [|by eauto]. apply (stored_reference b d [] c Hb). cbn. lia. Qed.

(** A builder that holds [d] and refers to what continues it becomes such a cell. *)
Lemma built_cell b d next l :
  stored b d (option_list next) -> continued next l ->
  exists c s, build b = Ok c /\ as_slice c = Ok s /\ holds s d /\ reference_cloned c 0 = next /\ reference_cloned c 1 = None.
Proof.
  intros Hb Hn. destruct (stored_build b d _ Hb) as (c & s & ? & ? & ? & Hr). exists c, s. split_and!; [done..| |];
    rewrite Hr; by destruct next.
Qed.

Lemma chained_cell c s d next l :
  as_slice c = Ok s -> holds s d -> reference_cloned c 0 = next -> reference_cloned c 1 = None -> continued next l ->
  chained c (d :: l).
Proof.
  intros Hs Hd Hr Hr1 Hn. destruct next as [c'|]; cbn in Hn; [by eapply chained_more|subst l; by eapply chained_last].
Qed.

Lemma link_chained chunks : forall next l,
  Forall (fun chunk => (length chunk <= 127)%nat) chunks -> continued next l ->
  exists next', link chunks next = Ok next' /\ continued next' (rev chunks ++ l).
Proof.
  induction chunks as [|chunk chunks IH]; intros next l Hc Hn; [by exists next|]. inversion_clear Hc as [|? ? Hlen Hrest].
  cbn [link]. rewrite bits_of_small by done.
  destruct (stored_raw builder_new [] [] chunk stored_new ltac:(cbn; lia)) as (b & -> & Hb). cbn [rbind].
  destruct (refer_stored b chunk next Hb) as (b' & -> & Hb'). cbn [rbind].
  destruct (built_cell b' chunk next l Hb' Hn) as (c & s & -> & Hs & Hd & Hr & Hr1). cbn [rbind].
  destruct (IH (Some c) (chunk :: l) Hrest) as (next' & Hl & Hn'); [by eapply chained_cell|].
  exists next'. split; [done|]. cbn [rev]. by rewrite <- app_assoc.
Qed.

(** The cells after the root hold what did not fit there. *)
Lemma tail_chained rest :
  exists next, link (rev (tail_cells rest)) None = Ok next /\ continued next (tail_cells rest).
Proof.
  destruct (cells_of_spec (length rest) rest ltac:(lia)) as [_ Hlen].
  destruct (link_chained (rev (tail_cells rest)) None []) as (next & ? & Hc); [by apply Forall_rev|done|].
  exists next. by rewrite rev_involutive, app_nil_r in Hc.
Qed.

Lemma tail_cells_join rest : mjoin (tail_cells rest) = rest.
Proof. by apply cells_of_spec. Qed.

(** ** Reading a chain *)
Lemma load_all s d : holds s d -> size_bits s mod 8 =? 0 = true /\ exists s', load_raw s (size_bits s) = Ok (d, s').
Proof.
  intros Hs. rewrite (holds_bits s d Hs). split.
  - apply N.eqb_eq. rewrite N.mul_comm. by apply N.mod_mul.
  - destruct (holds_raw s d []) as (s' & ? & _); [by rewrite app_nil_r|]. by exists s'.
Qed.

Lemma read_chained c l : chained c l -> forall fuel text, (repr_depth c < fuel)%nat ->
  (length text + length (mjoin l) <= MAX_COMMENT_BYTES)%nat -> read_parts fuel c false text = Some (text ++ mjoin l).
Proof.
  induction 1 as [c s d Hs Hd Hr|c s d c' l Hs Hd Hr Hr1 Hc IH]; intros [|fuel] text Hf Hlen; [lia| |lia|]; cbn [read_parts];
    rewrite Hs; cbn [opt]; destruct (load_all s d Hd) as [-> [s' ->]]; cbn [negb opt];
    rewrite ?join_cell in *; change (mjoin []) with (@nil byte) in *; rewrite ?app_nil_r, ?length_app in *.
  - destruct (Nat.ltb_spec MAX_COMMENT_BYTES (length text + length d)); [lia|]. by rewrite Hr.
  - destruct (Nat.ltb_spec MAX_COMMENT_BYTES (length text + length d)); [lia|]. rewrite Hr.
    apply reference_depth in Hr. rewrite IH; [by rewrite app_assoc|lia|rewrite length_app; lia].
Qed.

Lemma sealed_chained c l : chained c l -> forall fuel sealed, (repr_depth c < fuel)%nat ->
  sealed_parts fuel c false sealed = Ok (sealed ++ mjoin l).
Proof.
  induction 1 as [c s d Hs Hd Hr|c s d c' l Hs Hd Hr Hr1 Hc IH]; intros [|fuel] sealed Hf; [lia| |lia|]; cbn [sealed_parts];
    rewrite Hs; cbn [rbind]; destruct (load_all s d Hd) as [-> [s' ->]]; cbn [rbind];
    rewrite ?join_cell, Hr; change (mjoin []) with (@nil byte); rewrite ?app_nil_r; [done|]. apply reference_depth in Hr. rewrite IH by lia. by rewrite app_assoc.
Qed.
End reading.

(** ** Round trips *)
Section roundtrips.
Context `{CellLaws}.

(** The root of a payload, its head being stored. *)
Lemma root_cell root d next l (context : bytes) :
  stored root d [] -> continued next l ->
  exists c s, (let? root := refer root next in map_err (fun _ => context) (build root)) = Ok c /\
    as_slice c = Ok s /\ holds s d /\ reference_cloned c 0 = next.
Proof.
  intros Hroot Hn. destruct (refer_stored root d next Hroot) as (b & -> & Hb). cbn [rbind].
  destruct (built_cell b d next l Hb Hn) as (c & s & -> & ? & ? & ? & _). by exists c, s.
Qed.

Lemma store_all root d (chunk : bytes) : stored root d [] -> (length d + length chunk <= 127)%nat ->
  exists root', store_raw root chunk (bits_of chunk) = Ok root' /\ stored root' (d ++ chunk) [].
Proof. intros Hr Hl. rewrite bits_of_small by lia. by apply stored_raw. Qed.

(** What follows the first cell. *)
Lemma read_rest c next l fuel text :
  reference_cloned c 0 = next -> continued next l -> (repr_depth c <= fuel)%nat ->
  (length text + length (mjoin l) <= MAX_COMMENT_BYTES)%nat ->
  match reference_cloned c 0 with Some c' => read_parts fuel c' false text | None => Some text end = Some (text ++ mjoin l).
Proof.
  intros Hr Hn Hf Hl. rewrite Hr. destruct next as [c'|]; cbn in Hn.
  - apply reference_depth in Hr. apply read_chained; [done|lia|done].
  - subst l. change (mjoin []) with (@nil byte). by rewrite app_nil_r.
Qed.

(** A comment is read back as it was written. Whatever valid text of at most 1024 bytes a
    transfer carries, its payload can be built, over as many cells as it takes, and reading
    the comment of that payload gives the text. *)
Theorem comment_roundtrip (text : bytes) (Htext : utf8_valid text = true) (Hlen : (length text <= MAX_COMMENT_BYTES)%nat) :
  exists c, comment_payload text = Ok c /\ read_comment c = Some text.
Proof.
  unfold comment_payload. destruct (Nat.ltb_spec MAX_COMMENT_BYTES (length text)) as [?|_]; [lia|].
  set (head := take COMMENT_ROOT_BYTES text). set (rest := drop COMMENT_ROOT_BYTES text).
  assert (Hsplit : head ++ rest = text) by apply take_drop.
  assert (Hhead : (length head <= 123)%nat) by (unfold head; rewrite length_take; unfold COMMENT_ROOT_BYTES; lia).
  destruct (tail_chained rest) as (next & -> & Hn). cbn [rbind].
  destruct (stored_u32 builder_new [] [] COMMENT_OP stored_new ltac:(cbn; lia)) as (root & -> & Hroot). cbn [rbind app] in *.
  destruct (store_all root _ head Hroot) as (root' & -> & Hroot'); [rewrite length_be_bytes; lia|]. cbn [rbind].
  destruct (root_cell root' _ next _ (bs "failed to build the comment payload") Hroot' Hn) as (c & s & -> & Hs & Hd & Hr).
  exists c. split; [done|].
  unfold read_comment. rewrite Hs. cbn [opt]. pose proof (holds_bits s _ Hd) as Hbits.
  rewrite length_app, length_be_bytes in Hbits.
  destruct (N.ltb_spec (size_bits s) 32); [lia|].
  destruct (holds_u32 s _ head Hd (length_be_bytes _ _)) as (s1 & -> & _). cbn [opt].
  rewrite of_be_be_bytes. change (negb (COMMENT_OP mod 256 ^ N.of_nat 4 =? COMMENT_OP)) with false. cbn match.
  cbn [read_parts]. rewrite Hs. cbn [opt].
  destruct (holds_skip s _ head Hd) as (s2 & Hskip & Hs2). rewrite length_be_bytes in Hskip.
  change (8 * N.of_nat 4) with 32 in Hskip. rewrite Hskip. cbn [opt].
  destruct (load_all s2 head Hs2) as [-> [s3 ->]]. cbn [negb opt app].
  destruct (Nat.ltb_spec MAX_COMMENT_BYTES (length head)); [unfold MAX_COMMENT_BYTES in *; lia|].
  rewrite (read_rest c next (tail_cells rest)); [|done|done|lia|].
  - rewrite tail_cells_join, Hsplit. cbn [mbind option_bind]. by rewrite Htext.
  - rewrite tail_cells_join, <- length_app, Hsplit. done.
Qed.

Lemma sealed_rest c next l fuel sealed :
  reference_cloned c 0 = next -> continued next l -> (repr_depth c <= fuel)%nat ->
  match reference_cloned c 0 with Some c' => sealed_parts fuel c' false sealed | None => Ok sealed end = Ok (sealed ++ mjoin l).
Proof.
  intros Hr Hn Hf. rewrite Hr. destruct next as [c'|]; cbn in Hn.
  - apply reference_depth in Hr. apply sealed_chained; [done|lia].
  - subst l. change (mjoin []) with (@nil byte). by rewrite app_nil_r.
Qed.

(** What the root of a sealed comment holds before its ciphertext. *)
Definition sealed_prefix (key nonce : bytes) : bytes :=
  be_bytes 4 ENCRYPTED_COMMENT_OP ++ be_bytes 1 ENCRYPTED_COMMENT_VERSION ++ key ++ nonce.

Lemma sealed_root (key : bytes32) (nonce head : bytes) next l (context : bytes) :
  length nonce = 24%nat -> (length head <= ROOT_BYTES)%nat -> continued next l ->
  exists c s,
    (let? root := store_u32 builder_new ENCRYPTED_COMMENT_OP in
     let? root := store_u8 root ENCRYPTED_COMMENT_VERSION in
     let? root := store_raw root (as_bytes key) 256 in
     let? root := store_raw root nonce 192 in
     let? root := store_raw root head (bits_of head) in
     let? root := refer root next in
     map_err (fun _ => context) (build root)) = Ok c
    /\ as_slice c = Ok s /\ holds s (sealed_prefix (as_bytes key) nonce ++ head) /\ reference_cloned c 0 = next.
Proof.
  intros Hnonce Hhead Hn. unfold ROOT_BYTES, ENCRYPTED_PREFIX_BYTES in Hhead. pose proof (length_as_bytes key) as Hkey.
  destruct (stored_u32 builder_new [] [] ENCRYPTED_COMMENT_OP stored_new ltac:(cbn; lia)) as (r1 & -> & H1). cbn [rbind app] in *.
  destruct (stored_u8 r1 _ [] ENCRYPTED_COMMENT_VERSION H1) as (r2 & -> & H2); [rewrite length_be_bytes; lia|]. cbn [rbind].
  destruct (stored_raw r2 _ [] (as_bytes key) H2) as (r3 & Hr3 & H3); [rewrite length_app, !length_be_bytes, Hkey; lia|].
  rewrite Hkey in Hr3. change (8 * N.of_nat 32) with 256 in Hr3. rewrite Hr3. cbn [rbind].
  destruct (stored_raw r3 _ [] nonce H3) as (r4 & Hr4 & H4); [rewrite !length_app, !length_be_bytes, Hkey, Hnonce; lia|].
  rewrite Hnonce in Hr4. change (8 * N.of_nat 24) with 192 in Hr4. rewrite Hr4. cbn [rbind].
  destruct (store_all r4 _ head H4) as (r5 & -> & H5); [rewrite !length_app, !length_be_bytes, Hkey, Hnonce; lia|]. cbn [rbind].
  destruct (root_cell r5 _ next l context H5 Hn) as (c & s & ? & ? & Hd & ?). exists c, s. split_and!; [done..| |done].
  unfold sealed_prefix. by rewrite !app_assoc in *.
Qed.

(** A sealed comment is read back as it was written: for any key and any sealed text of
    at least its nonce and tag that fits the budget the payload can be built, parsing it
    gives the key and the sealed text, and it is never taken for a comment in the clear. *)
Theorem sealed_comment_roundtrip (key : bytes32) (sealed : bytes)
    (Hmin : (SEAL_OVERHEAD_BYTES <= length sealed)%nat)
    (Hmax : (ENCRYPTED_PREFIX_BYTES + length sealed <= MAX_COMMENT_BYTES)%nat) :
  exists c, encrypted_comment_payload key sealed = Ok c
    /\ parse_encrypted_comment c = Ok (Some (mkEncrypted (as_bytes key) sealed)) /\ read_comment c = None.
Proof.
  unfold SEAL_OVERHEAD_BYTES in Hmin. unfold encrypted_comment_payload.
  destruct (Nat.ltb_spec (length sealed) (24 + 16)) as [?|_]; [lia|].
  destruct (Nat.ltb_spec MAX_COMMENT_BYTES (ENCRYPTED_PREFIX_BYTES + length sealed)) as [?|_]; [lia|].
  set (nonce := take 24 sealed). set (head := take ROOT_BYTES (drop 24 sealed)). set (rest := drop ROOT_BYTES (drop 24 sealed)).
  assert (Hnonce : length nonce = 24%nat) by (unfold nonce; rewrite length_take; lia).
  assert (Hhead : (length head <= ROOT_BYTES)%nat) by (unfold head; rewrite length_take; lia).
  assert (Hsplit : (nonce ++ head) ++ rest = sealed) by (rewrite <- app_assoc; unfold nonce, head, rest; by rewrite !take_drop).
  destruct (tail_chained rest) as (next & -> & Hn). cbn [rbind].
  destruct (sealed_root key nonce head next _ (bs "failed to build the encrypted comment payload") Hnonce Hhead Hn)
    as (c & s & -> & Hs & Hd & Hr).
  exists c. split; [done|]. pose proof (holds_bits s _ Hd) as Hbits. pose proof (length_as_bytes key) as Hkey.
  unfold sealed_prefix in *. rewrite !length_app, !length_be_bytes in Hbits.
  assert (Hop : size_bits s <? 32 = false) by (apply N.ltb_ge; lia).
  pose proof Hd as Hd'. rewrite <- !app_assoc in Hd.
  destruct (holds_u32 s _ _ Hd (length_be_bytes _ _)) as (s1 & Hl32 & Hs1). rewrite of_be_be_bytes in Hl32.
  change (ENCRYPTED_COMMENT_OP mod 256 ^ N.of_nat 4) with ENCRYPTED_COMMENT_OP in Hl32. split.
  - unfold parse_encrypted_comment. rewrite Hs, Hop, Hl32. cbn [rbind].
    rewrite N.eqb_refl. cbn [negb].
    change (be_bytes 1 ENCRYPTED_COMMENT_VERSION) with [Byte.x01] in *. cbn [app] in Hs1.
    destruct (holds_u8 s1 _ _ Hs1) as (s2 & -> & Hs2). cbn [rbind].
    change (u8 Byte.x01 =? ENCRYPTED_COMMENT_VERSION) with true. cbn match.
    destruct (holds_raw s2 _ _ Hs2) as (s3 & Hl & Hs3). rewrite Hkey in Hl. change (8 * N.of_nat 32) with 256 in Hl.
    rewrite Hl. cbn [rbind].
    destruct (holds_raw s3 _ _ Hs3) as (s4 & Hl' & Hs4). rewrite Hnonce in Hl'. change (8 * N.of_nat 24) with 192 in Hl'.
    rewrite Hl'. cbn [rbind]. cbn [sealed_parts]. rewrite Hs. cbn [rbind].
    destruct (holds_skip s _ head Hd') as (s5 & Hskip & Hs5).
    rewrite !length_app, length_be_bytes, Hkey, Hnonce in Hskip. cbn [length] in Hskip.
    change (8 * N.of_nat (4 + (1 + (32 + 24)))) with (32 + 8 + 256 + 192) in Hskip. rewrite Hskip. cbn [rbind].
    destruct (load_all s5 head Hs5) as [-> [s6 ->]]. cbn [rbind].
    rewrite (sealed_rest c next (tail_cells rest)); [|done|done|lia]. rewrite tail_cells_join, Hsplit. cbn [rbind].
    destruct (Nat.leb_spec (24 + 16) (length sealed)); [done|lia].
  - unfold read_comment. rewrite Hs. cbn [opt]. rewrite Hop, Hl32. done.
Qed.
End roundtrips.

Lemma read_parts_bounded `{CellLib} fuel : forall c first acc text,
  read_parts fuel c first acc = Some text -> (length text <= MAX_COMMENT_BYTES)%nat.
Proof.
  induction fuel as [|fuel IH]; intros c first acc text; cbn [read_parts]; [done|].
  unfold opt. repeat case_match; try done; intros Hr; first [by eapply IH | injection Hr as <-; by apply Nat.ltb_ge].
Qed.

(** Whatever cells a message carries, a comment read from them is valid text within the budget. *)
Lemma read_comment_bounded `{CellLib} (c : cell) (text : bytes) :
  read_comment c = Some text -> utf8_valid text = true /\ (length text <= MAX_COMMENT_BYTES)%nat.
Proof.
  unfold read_comment, opt. repeat case_match; try done. intros (t & Hread & Ht)%bind_Some.
  destruct (utf8_valid t) eqn:Hv; [|done]. injection Ht as <-. split; [done|]. by eapply read_parts_bounded.
Qed.

(** ** Concrete cells *)
Inductive ToyCell := Toy (data : bytes) (refs : list ToyCell).
Fixpoint toy_depth (c : ToyCell) : nat :=
  match c with Toy _ refs => S (fold_right (fun c n => Nat.max (toy_depth c) n) 0%nat refs) end.

Definition toy_take (s : bytes) (n : nat) : res bytes (bytes * bytes) :=
  if (length s <? n)%nat then Err (bs "cell underflow") else Ok (take n s, drop n s).
Definition toy_store (b : bytes * list ToyCell) (l : bytes) : res bytes (bytes * list ToyCell) :=
  if (127 <? length (fst b) + length l)%nat then Err (bs "cell overflow") else Ok (fst b ++ l, snd b).

Definition toy_cells : CellLib := {|
  cell := ToyCell; slice := bytes; builder := bytes * list ToyCell;
  as_slice c := match c with Toy d _ => Ok d end;
  reference_cloned c i := match c with Toy _ r => r !! i end;
  repr_depth := toy_depth;
  size_bits s := 8 * N.of_nat (length s);
  load_u8 s := rmap (fun p => (of_be (fst p), snd p)) (toy_take s 1);
  load_u32 s := rmap (fun p => (of_be (fst p), snd p)) (toy_take s 4);
  load_raw s bits := toy_take s (N.to_nat (bits / 8));
  skip_first s bits _ := rmap snd (toy_take s (N.to_nat (bits / 8)));
  builder_new := ([], []);
  store_u8 b n := toy_store b (be_bytes 1 n);
  store_u32 b n := toy_store b (be_bytes 4 n);
  store_raw b l _ := toy_store b l;
  store_reference b c := if (4 <=? length (snd b))%nat then Err (bs "cell overflow") else Ok (fst b, snd b ++ [c]);
  build b := Ok (Toy (fst b) (snd b))
|}.

Lemma toy_take_app (d d' : bytes) : toy_take (d ++ d') (length d) = Ok (d, d').
Proof.
  unfold toy_take. rewrite length_app. destruct (Nat.ltb_spec (length d + length d') (length d)); [lia|].
  by rewrite take_app_length, drop_app_length.
Qed.
Lemma toy_store_fits d r l : (length d + length l <= 127)%nat -> toy_store (d, r) l = Ok (d ++ l, r).
Proof. intros Hl. unfold toy_store. cbn [fst snd]. destruct (Nat.ltb_spec 127 (length d + length l)); [lia|done]. Qed.

Lemma toy_bits (d : bytes) : N.to_nat (8 * N.of_nat (length d) / 8) = length d.
Proof. rewrite N.mul_comm, N.div_mul by done. lia. Qed.

Lemma toy_deeper r i c' : r !! i = Some c' -> (toy_depth c' < S (fold_right (fun c n => Nat.max (toy_depth c) n) 0%nat r))%nat.
Proof.
  revert i. induction r as [|c r IH]; intros [|i] Hi; try done; cbn [fold_right].
  - injection Hi as <-. lia.
  - specialize (IH i Hi). lia.
Qed.

#[refine] Definition toy_cell_laws : @CellLaws toy_cells := {|
  holds := fun (s : @slice toy_cells) d => (s : bytes) = d;
  stored := fun (b : @builder toy_cells) d r => (b : bytes * list ToyCell) = (d, r)
|}.
Proof.
  - done.
  - intros b d r n -> Hl. exists (d ++ be_bytes 1 n, r). split; [|done]. apply toy_store_fits. by rewrite length_be_bytes.
  - intros b d r n -> Hl. exists (d ++ be_bytes 4 n, r). split; [|done]. apply toy_store_fits. by rewrite length_be_bytes.
  - intros b d r l -> Hl. exists (d ++ l, r). split; [|done]. by apply toy_store_fits.
  - intros b d r c -> Hl. exists (d, r ++ [c]). split; [|done]. cbv [store_reference toy_cells fst snd].
    by rewrite (proj2 (Nat.leb_gt 4 (@length ToyCell r)) Hl).
  - intros b d r ->. by exists (Toy d r), d.
  - by intros s d ->.
  - intros s b d ->. exists d. split; [|done]. cbn. by rewrite N.add_0_l || done.
  - intros s d d' -> Hl. exists d'. split; [|done]. cbv [load_u32 toy_cells]. by rewrite <- Hl, toy_take_app.
  - intros s d d' ->. exists d'. split; [|done]. cbn -[toy_take N.mul N.div]. by rewrite toy_bits, toy_take_app.
  - intros s d d' ->. exists d'. split; [|done]. cbn -[toy_take N.mul N.div]. by rewrite toy_bits, toy_take_app.
  - intros [d r] i c'. apply toy_deeper.
Defined.

Lemma comment_roundtrip_witness :
  exists c, @comment_payload toy_cells (repeat Byte.x61 300) = Ok c /\ @read_comment toy_cells c = Some (repeat Byte.x61 300).
Proof. apply (@comment_roundtrip toy_cells toy_cell_laws); vm_compute; [done|lia]. Defined.

Lemma sealed_comment_roundtrip_witness :
  exists c, @encrypted_comment_payload toy_cells (pad32 [Byte.x07]) (repeat Byte.xff 200) = Ok c
    /\ @parse_encrypted_comment toy_cells c = Ok (Some (mkEncrypted (as_bytes (pad32 [Byte.x07])) (repeat Byte.xff 200)))
    /\ @read_comment toy_cells c = None.
Proof. apply (@sealed_comment_roundtrip toy_cells toy_cell_laws); vm_compute; lia. Defined.
