(* ===== verification/Activity.v ===== *)
(** * Transactions of an account as the wallet tells them

    cc-wallet-chain/src/activity.rs and explorer.rs, over the transactions of
    cc-wallet-tycho/src/history.rs: what a transaction moved, which rows of the history it
    makes, and the row of the explorer. *)

From Stdlib Require Import NArith ZArith Lia.
From stdpp Require Import list.
From S2P Require Import Prelude Ord Bytes Text Decimal Ids Asset Amount Affordability Risk ChainData Wallets Comment.

(** ** history.rs *)
Inductive MsgKind := ExtIn | Int | ExtOut.
Inductive BounceOutcome := Returned | Unaffordable.
#[export] Instance MsgKind_eq_dec : EqDecision MsgKind.
Proof. solve_decision. Defined.
#[export] Instance BounceOutcome_eq_dec : EqDecision BounceOutcome.
Proof. solve_decision. Defined.

Section messages.
Context `{CellLib}.

Record ChainMessage := mkMessage {
  cm_kind : MsgKind;
  cm_hash : bytes;
  cm_src : option bytes;
  cm_dst : option bytes;
  cm_value_native : N;
  cm_value_extra : btree N bytes;
  cm_fwd_fee : N;
  cm_bounce : bool;
  cm_bounced : bool;
  cm_created_lt : N;
  cm_created_at : N;
  cm_body : cell
}.

(** Less the reason for which a compute phase was skipped, which nothing here reads. *)
Record ChainTransaction := mkTransaction {
  ct_hash : bytes;
  ct_lt : N;
  ct_now : N;
  ct_prev_trans_lt : N;
  ct_total_fees_native : N;
  ct_aborted : bool;
  ct_compute_success : bool;
  ct_compute_skipped : bool;
  ct_exit_code : Z;
  ct_action_success : option bool;
  ct_action_result_code : option Z;
  ct_action_no_funds : option bool;
  ct_bounce : option BounceOutcome;
  ct_in_msg : option ChainMessage;
  ct_out_msgs : list ChainMessage
}.

(** ** What a message moves *)
Definition IdError_text (e : IdError) : bytes := bs (IdError_display e).
Definition AmountError_text (e : AmountError) : bytes := bs (AmountError_display e).

Definition parse_hash (value : bytes) (context : bytes) : res ChainError bytes32 :=
  map_err (fun error => ChainWallet (context ++ bs " hash is not canonical 32-byte hex: " ++ IdError_text error))
    (try_from_hex value).

(** The loop over the extra currencies. *)
Fixpoint extra_movements (extra : list (N * bytes)) : res ChainError (list AssetMovement) :=
  match extra with
  | [] => Ok []
  | (id, text) :: extra =>
      let? amount := map_err (fun error => ChainWallet (bs "transaction extra-currency " ++ print_dec id
                       ++ bs " has invalid amount " ++ debug_str text ++ bs ": " ++ AmountError_text error))
                       (try_from_canonical_decimal text) in
      let? movements := extra_movements extra in
      Ok (if cc_is_zero amount then movements else mkMovement (currency_collection id amount) :: movements)
  end.

Definition message_movements (message : ChainMessage) : res ChainError (list AssetMovement) :=
  let? movements := extra_movements (cm_value_extra message) in
  if (0 <? cm_value_native message) || bool_decide (movements = []) then
    let? amount := map_err (fun error => ChainWallet (bs "transaction native movement is out of domain: "
                                                       ++ AmountError_text error))
                     (amount_native (cm_value_native message)) in
    Ok (movements ++ [mkMovement amount])
  else Ok movements.

(** ** What a message says *)
Definition message_carried (message : ChainMessage) : option ActivityMessage :=
  if cm_bounced message then None else
  match read_comment (cm_body message) with
  | Some text => if bool_decide (text = []) then None else Some (Plain text)
  | None =>
      match parse_encrypted_comment (cm_body message) with
      | Ok (Some sealed) => k ← try_into_32 (ec_sender_key sealed); Some (Sealed k (ec_sealed sealed))
      | _ => None
      end
  end.

(** ** Whether a transaction failed *)
Definition failure_reason (tx : ChainTransaction) : bytes :=
  if negb (ct_compute_success tx) then bs "exit " ++ print_z (ct_exit_code tx) else
  if bool_decide (ct_action_success tx = Some false) then
    match ct_action_no_funds tx with
    | Some true => bs "no funds for actions"
    | _ => bs "action " ++ print_z (default 0%Z (ct_action_result_code tx))
    end
  else if bool_decide (ct_bounce tx = Some Returned)
          && match ct_in_msg tx with Some message => bool_decide (cm_value_extra message = []) | None => false end
  then bs "value returned" else [].

Definition succeeded (tx : ChainTransaction) : bool := bool_decide (failure_reason tx = []).
Definition is_internal (message : ChainMessage) : bool := bool_decide (cm_kind message = Int).
Definition internal_out (tx : ChainTransaction) : list ChainMessage := filter (fun m => is_internal m = true) (ct_out_msgs tx).

Definition fee_in_domain (units : N) : res ChainError AssetAmount :=
  map_err (fun error => ChainWallet (bs "native transaction fee is out of domain: " ++ AmountError_text error))
    (amount_native units).

(** ** The rows of the history *)
Definition no_transfer_send (tx : ChainTransaction) (ext_msg_hash : bytes32) : res ChainError ActivityEvent :=
  let? _ := fee_in_domain (ct_total_fees_native tx) in
  let? tx_hash := parse_hash (ct_hash tx) (bs "transaction") in
  let? zero := rexpect (amount_native 0) in
  Ok {| ae_direction := Out; ae_lt := ct_lt tx; ae_time_unix := ct_now tx; ae_tx_hash := Some tx_hash;
        ae_counterparty := []; ae_movements := [mkMovement zero]; ae_fee_native := ct_total_fees_native tx;
        ae_success := false; ae_bounced := false; ae_exit_code := ct_exit_code tx;
        ae_ext_msg_hash := Some ext_msg_hash; ae_int_msg_hash := None; ae_finality_ms := None; ae_pending := false;
        ae_message := None |}.

(** The transaction's own fees count for its first message. *)
Definition message_fee (tx : ChainTransaction) (index : nat) (message : ChainMessage) : res ChainError N :=
  match index with
  | O => ok_or (checked_add u128_max (ct_total_fees_native tx) (cm_fwd_fee message))
           (ChainWallet (bs "native transaction fee overflows u128"))
  | S _ => Ok (cm_fwd_fee message)
  end.

Fixpoint sent_rows (tx : ChainTransaction) (tx_hash ext_msg_hash : bytes32) (index : nat) (messages : list ChainMessage)
  : res ChainError (list ActivityEvent) :=
  match messages with
  | [] => Ok []
  | message :: messages =>
      let? movements := message_movements message in
      let? fee_native := message_fee tx index message in
      let? _ := fee_in_domain fee_native in
      let? int_msg_hash := parse_hash (cm_hash message) (bs "internal message") in
      let? rows := sent_rows tx tx_hash ext_msg_hash (S index) messages in
      Ok ({| ae_direction := Out; ae_lt := ct_lt tx; ae_time_unix := ct_now tx; ae_tx_hash := Some tx_hash;
             ae_counterparty := default [] (cm_dst message); ae_movements := movements; ae_fee_native := fee_native;
             ae_success := succeeded tx; ae_bounced := cm_bounced message; ae_exit_code := ct_exit_code tx;
             ae_ext_msg_hash := Some ext_msg_hash; ae_int_msg_hash := Some int_msg_hash; ae_finality_ms := None;
             ae_pending := false; ae_message := message_carried message |} :: rows)
  end.

Definition received_row (tx : ChainTransaction) (in_msg : ChainMessage) : res ChainError ActivityEvent :=
  let? movements := message_movements in_msg in
  let native_was_returned := bool_decide (ct_bounce tx = Some Returned) && bool_decide (cm_value_extra in_msg = []) in
  let? _ := fee_in_domain (ct_total_fees_native tx) in
  let? tx_hash := parse_hash (ct_hash tx) (bs "transaction") in
  let? int_msg_hash := parse_hash (cm_hash in_msg) (bs "internal message") in
  Ok {| ae_direction := In; ae_lt := ct_lt tx; ae_time_unix := ct_now tx; ae_tx_hash := Some tx_hash;
        ae_counterparty := default [] (cm_src in_msg); ae_movements := movements;
        ae_fee_native := ct_total_fees_native tx; ae_success := negb (cm_bounced in_msg) && negb native_was_returned;
        ae_bounced := cm_bounced in_msg; ae_exit_code := ct_exit_code tx; ae_ext_msg_hash := None;
        ae_int_msg_hash := Some int_msg_hash; ae_finality_ms := None; ae_pending := false;
        ae_message := message_carried in_msg |}.

Definition activity_from_chain_tx (tx : ChainTransaction) : res ChainError (list ActivityEvent) :=
  match ct_in_msg tx with
  | None => Ok []
  | Some in_msg =>
      match cm_kind in_msg with
      | ExtIn =>
          let? ext_msg_hash := parse_hash (cm_hash in_msg) (bs "external inbound message") in
          match internal_out tx with
          | [] => let? row := no_transfer_send tx ext_msg_hash in Ok [row]
          | internal =>
              let? tx_hash := parse_hash (ct_hash tx) (bs "transaction") in
              sent_rows tx tx_hash ext_msg_hash 0 internal
          end
      | Int => let? row := received_row tx in_msg in Ok [row]
      | ExtOut => Ok []
      end
  end.

(** ** explorer.rs *)
Inductive AccountTxKind := TxIn | TxOut | TxFwd | TxExt | TxSpecial.
Definition AccountTxKind_label (k : AccountTxKind) : string :=
  match k with TxIn => "IN" | TxOut => "OUT" | TxFwd => "FWD" | TxExt => "EXT" | TxSpecial => "TICK" end.
Definition is_in (k : AccountTxKind) : bool := match k with TxIn => true | _ => false end.
Definition is_signed_for_reader (k : AccountTxKind) : bool := match k with TxIn | TxOut => true | _ => false end.

Record AccountTx := mkAccountTx {
  at_hash : bytes32;
  at_lt : N;
  at_time_unix : N;
  at_kind : AccountTxKind;
  at_counterparty : bytes;
  at_extra_parties : nat;
  at_movements : list AssetMovement;
  at_received : list AssetMovement;
  at_fee_native : N;
  at_int_out_msgs : nat;
  at_ext_out_msgs : nat;
  at_success : bool;
  at_bounced : bool;
  at_exit_code : Z
}.

(** A movement joins the total of its asset, or begins it. *)
Fixpoint add_movement (totals : list AssetMovement) (movement : AssetMovement) : res ChainError (list AssetMovement) :=
  match totals with
  | [] => Ok [movement]
  | total :: totals =>
      if bool_decide (asset_id (mv_amount total) = asset_id (mv_amount movement)) then
        let? amount := map_err (fun error => ChainWallet
                         (bs "transaction moves more than the asset's domain allows: " ++ AmountError_text error))
                         (checked_add_same_asset (mv_amount total) (mv_amount movement)) in
        Ok (mkMovement amount :: totals)
      else let? totals := add_movement totals movement in Ok (total :: totals)
  end.

Fixpoint fold_res {E A B} (f : A -> B -> res E A) (a : A) (l : list B) : res E A :=
  match l with [] => Ok a | b :: l => let? a := f a b in fold_res f a l end.

Definition sum_movements (messages : list ChainMessage) : res ChainError (list AssetMovement) :=
  fold_res (fun totals message =>
    let? movements := message_movements message in fold_res add_movement totals movements) [] messages.

Definition add_forward_fees (fee : N) (messages : list ChainMessage) : res ChainError N :=
  fold_res (fun fee message => ok_or (checked_add u128_max fee (cm_fwd_fee message))
                                 (ChainWallet (bs "native transaction fee overflows u128"))) fee messages.

Definition first_destination (messages : list ChainMessage) : bytes :=
  match messages with message :: _ => default [] (cm_dst message) | [] => [] end.

Definition account_tx_parts (tx : ChainTransaction) (internal : list ChainMessage)
  : res ChainError (AccountTxKind * bytes * list AssetMovement * list AssetMovement * bool) :=
  match ct_in_msg tx with
  | None => Ok (TxSpecial, [], [], [], false)
  | Some in_msg =>
      match cm_kind in_msg, internal with
      | Int, [] => let? movements := message_movements in_msg in
                   Ok (TxIn, default [] (cm_src in_msg), movements, [], cm_bounced in_msg)
      | Int, _ => let? sent := sum_movements internal in
                  let? received := message_movements in_msg in
                  Ok (TxFwd, first_destination internal, sent, received, cm_bounced in_msg)
      | ExtIn, [] => Ok (TxExt, [], [], [], false)
      | ExtIn, _ => let? sent := sum_movements internal in Ok (TxOut, first_destination internal, sent, [], false)
      | ExtOut, _ => Ok (TxSpecial, [], [], [], false)
      end
  end.

Definition account_tx_from_chain_tx (tx : ChainTransaction) : res ChainError AccountTx :=
  let? hash := map_err (fun error => ChainWallet (bs "transaction hash is not canonical 32-byte hex: " ++ IdError_text error))
                 (try_from_hex (ct_hash tx)) in
  let internal := internal_out tx in
  let? fee_native := add_forward_fees (ct_total_fees_native tx) internal in
  let? (kind, counterparty, movements, received, bounced) := account_tx_parts tx internal in
  Ok {| at_hash := hash; at_lt := ct_lt tx; at_time_unix := ct_now tx; at_kind := kind;
        at_counterparty := counterparty; at_extra_parties := length internal - 1; at_movements := movements;
        at_received := received; at_fee_native := fee_native; at_int_out_msgs := length internal;
        at_ext_out_msgs := length (ct_out_msgs tx) - length internal; at_success := succeeded tx;
        at_bounced := bounced; at_exit_code := ct_exit_code tx |}.
End messages.

(** ** The two views agree *)
Definition moved_units (asset : AssetId) (movements : list AssetMovement) : N := units_for asset (mv_amount <$> movements).
Definition in_bounds (movements : list AssetMovement) : Prop := Forall (fun m => in_domain (mv_amount m)) movements.

Lemma moved_cons asset m l :
  moved_units asset (m :: l) = (if bool_decide (asset_id (mv_amount m) = asset) then units_of (mv_amount m) else 0) + moved_units asset l.
Proof. reflexivity. Qed.
Lemma moved_app asset l k : moved_units asset (l ++ k) = moved_units asset l + moved_units asset k.
Proof. induction l as [|m l IH]; [done|]. cbn [app]. rewrite !moved_cons, IH. lia. Qed.

Definition sum_of {A} (f : A -> N) (l : list A) : N := fold_right (fun a n => f a + n) 0 l.
Lemma sum_of_cons {A} (f : A -> N) a l : sum_of f (a :: l) = f a + sum_of f l.
Proof. reflexivity. Qed.

Section views.
Context `{CellLib}.

Lemma extra_in_bounds extra l : extra_movements extra = Ok l -> in_bounds l.
Proof.
  revert l. induction extra as [|[id text] extra IH]; intros l; cbn [extra_movements].
  { intros [= <-]. constructor. }
  intros Hl. rinv Hl. destruct (cc_is_zero _); [by apply IH|]. constructor; [|by apply IH].
  apply try_from_canonical_decimal_exact in Hm. cbn. apply Hm.
Qed.

Lemma message_in_bounds m l : message_movements m = Ok l -> in_bounds l.
Proof.
  unfold message_movements. intros Hl. rinv Hl; [|by eapply extra_in_bounds].
  apply Forall_app. split; [by eapply extra_in_bounds|]. constructor; [|constructor]. cbn. revert Hm0. unfold amount_native.
  destruct (N.ltb_spec NATIVE_MAX_UNITS (cm_value_native m)); [done|]. by intros [= <-].
Qed.

Lemma add_movement_adds m asset : forall totals totals',
  in_bounds totals -> in_domain (mv_amount m) -> add_movement totals m = Ok totals' ->
  in_bounds totals' /\ moved_units asset totals' = moved_units asset totals + moved_units asset [m].
Proof.
  induction totals as [|t totals IH]; intros totals' Hb Hm; cbn [add_movement].
  { intros [= <-]. split; [by repeat constructor|done]. }
  inversion_clear Hb as [|? ? Ht Hts]. case_bool_decide as Ha; intros Hadd; rinv Hadd.
  - apply checked_add_same_asset_spec in Hm0 as (_ & -> & Hd); [|done..]. simplify_eq. split; [by constructor|].
    rewrite !moved_cons. cbn [mv_amount]. destruct (mv_amount t), (mv_amount m); try discriminate Ha; cbn in *;
      repeat case_bool_decide; try congruence; change (moved_units asset []) with 0; lia.
  - destruct (IH _ Hts Hm Hm0) as [Hb' He]. simplify_eq. split; [by constructor|]. rewrite moved_cons, He, (moved_cons asset t totals). lia.
Qed.

Lemma fold_add_movement asset l : forall totals totals',
  in_bounds totals -> in_bounds l -> fold_res add_movement totals l = Ok totals' ->
  in_bounds totals' /\ moved_units asset totals' = moved_units asset totals + moved_units asset l.
Proof.
  induction l as [|m l IH]; intros totals totals' Hb Hl; cbn [fold_res].
  { intros [= <-]. split; [done|]. change (moved_units asset []) with 0. lia. }
  inversion_clear Hl as [|? ? Hm Hrest]. intros Hf. rinv Hf.
  destruct (add_movement_adds m asset _ _ Hb Hm Hm0) as [Hb1 He1].
  destruct (IH _ _ Hb1 Hrest Hf) as [Hb2 He2]. split; [done|]. rewrite He2, He1, !moved_cons.
  change (moved_units asset []) with 0. lia.
Qed.

(** The units of an asset that a message moves, none if it is refused. *)
Definition units_moved (asset : AssetId) (m : ChainMessage) : N :=
  match message_movements m with Ok l => moved_units asset l | _ => 0 end.

Lemma sum_movements_adds asset messages : forall totals totals',
  in_bounds totals ->
  fold_res (fun totals message =>
    let? movements := message_movements message in fold_res add_movement totals movements) totals messages = Ok totals' ->
  moved_units asset totals' = moved_units asset totals + sum_of (units_moved asset) messages.
Proof.
  induction messages as [|m messages IH]; intros totals totals' Hb; cbn [fold_res].
  { intros [= <-]. cbn. lia. }
  intros Hf. rinv Hf. pose proof (message_in_bounds m _ Hm0) as Hl.
  destruct (fold_add_movement asset _ _ _ Hb Hl Hm) as [Hb' He]. rewrite (IH _ _ Hb' Hf), He, sum_of_cons.
  unfold units_moved at 2. rewrite Hm0. lia.
Qed.

Lemma forward_fees messages : forall fee fee',
  add_forward_fees fee messages = Ok fee' -> fee' = fee + sum_of cm_fwd_fee messages.
Proof.
  induction messages as [|m messages IH]; intros fee fee'; cbn [add_forward_fees fold_res].
  { intros [= <-]. cbn. lia. }
  intros Hf. rinv Hf. apply checked_add_Some in Hm as [-> _]. rewrite sum_of_cons. rewrite (IH _ _ Hf). lia.
Qed.

(** The rows of what was sent: one for each message, each its movements; the fees of the
    transaction with the first one. *)
Definition row_of (tx : ChainTransaction) (ext_msg_hash : bytes32) (m : ChainMessage) (row : ActivityEvent) : Prop :=
  message_movements m = Ok (ae_movements row) /\ ae_counterparty row = default [] (cm_dst m)
  /\ ae_int_msg_hash row = match try_from_hex (cm_hash m) with Ok h => Some h | _ => None end
  /\ ae_ext_msg_hash row = Some ext_msg_hash /\ ae_direction row = Out /\ ae_success row = succeeded tx
  /\ ae_message row = message_carried m /\ ae_fee_native row <= NATIVE_MAX_UNITS.

Lemma sent_rows_spec tx tx_hash ext_msg_hash messages : forall index rows,
  sent_rows tx tx_hash ext_msg_hash index messages = Ok rows ->
  Forall2 (row_of tx ext_msg_hash) messages rows
  /\ sum_of ae_fee_native rows =
       match messages with [] => 0 | _ => (match index with O => ct_total_fees_native tx | S _ => 0 end) end
       + sum_of cm_fwd_fee messages.
Proof.
  induction messages as [|m messages IH]; intros index rows; cbn [sent_rows].
  { intros [= <-]. by split. }
  intros Hr. rinv Hr. rename Hm into Hmoves, Hm1 into Hdomain, Hm3 into Hrest.
  destruct (IH (S index) _ Hrest) as [IH1 IH2]. split.
  - constructor; [|exact IH1]. unfold row_of. cbn. split_and!; try done.
    + unfold parse_hash in Hm2. apply map_err_Ok in Hm2. by rewrite Hm2.
    + revert Hdomain. unfold fee_in_domain, amount_native. destruct (N.ltb_spec NATIVE_MAX_UNITS a0); done.
  - rewrite !sum_of_cons, IH2. cbn [ae_fee_native].
    assert (a0 = (match index with O => ct_total_fees_native tx | S _ => 0 end) + cm_fwd_fee m) as ->.
    { destruct index; cbn [message_fee] in Hm0; [|by injection Hm0 as <-].
      apply ok_or_Ok, checked_add_Some in Hm0. lia. }
    destruct messages; cbn; lia.
Qed.
End views.

Section agreement.
Context `{CellLib}.

(** What both views say of a transaction. *)
Definition same_transaction (row : AccountTx) (r : ActivityEvent) : Prop :=
  ae_tx_hash r = Some (at_hash row) /\ ae_lt r = at_lt row /\ ae_time_unix r = at_time_unix row
  /\ ae_exit_code r = at_exit_code row /\ ae_pending r = false.

Definition views_agree (tx : ChainTransaction) (rows : list ActivityEvent) (row : AccountTx) : Prop :=
  match at_kind row with
  | TxOut =>
      length rows = at_int_out_msgs row
      /\ sum_of ae_fee_native rows = at_fee_native row
      /\ (forall asset, sum_of (fun r => moved_units asset (ae_movements r)) rows = moved_units asset (at_movements row))
      /\ Forall (fun r => ae_direction r = Out /\ ae_success r = at_success row) rows
      /\ ae_counterparty <$> head rows = Some (at_counterparty row)
  | TxExt =>
      exists r, rows = [r] /\ ae_fee_native r = at_fee_native row /\ ae_success r = false
        /\ forall asset, moved_units asset (ae_movements r) = 0
  | TxIn =>
      exists r, rows = [r] /\ ae_direction r = In /\ ae_fee_native r = at_fee_native row
        /\ ae_movements r = at_movements row /\ ae_counterparty r = at_counterparty row /\ ae_bounced r = at_bounced row
  | TxFwd =>
      exists r, rows = [r] /\ ae_direction r = In /\ ae_movements r = at_received row /\ ae_bounced r = at_bounced row
        /\ ae_fee_native r + sum_of cm_fwd_fee (internal_out tx) = at_fee_native row
        /\ (forall asset, moved_units asset (at_movements row) = sum_of (units_moved asset) (internal_out tx))
  | TxSpecial => rows = []
  end.

Lemma sent_rows_moves tx e l rows asset :
  Forall2 (row_of tx e) l rows -> sum_of (fun r => moved_units asset (ae_movements r)) rows = sum_of (units_moved asset) l.
Proof.
  induction 1 as [|m r l rows (Hm & _) _ IH]; [done|]. rewrite !sum_of_cons, IH. unfold units_moved at 2. by rewrite Hm.
Qed.

Definition heads (tx : ChainTransaction) (row : AccountTx) : Prop :=
  try_from_hex (ct_hash tx) = Ok (at_hash row) /\ at_lt row = ct_lt tx /\ at_time_unix row = ct_now tx
  /\ at_exit_code row = ct_exit_code tx.

Lemma sent_rows_same tx e l row : forall index rows,
  sent_rows tx (at_hash row) e index l = Ok rows -> heads tx row -> Forall (same_transaction row) rows.
Proof.
  induction l as [|m l IH]; intros index rows; cbn [sent_rows]; [intros [= <-]; constructor|].
  intros Hr Hh. rinv Hr. constructor; [|by eapply IH]. destruct Hh as (_ & E1 & E2 & E3). unfold same_transaction. cbn.
  by rewrite E1, E2, E3.
Qed.

Lemma out_agrees tx e rows row :
  internal_out tx <> [] -> at_kind row = TxOut -> Forall2 (row_of tx e) (internal_out tx) rows ->
  sum_of ae_fee_native rows = ct_total_fees_native tx + sum_of cm_fwd_fee (internal_out tx) ->
  at_fee_native row = ct_total_fees_native tx + sum_of cm_fwd_fee (internal_out tx) ->
  at_int_out_msgs row = length (internal_out tx) -> at_success row = succeeded tx ->
  sum_movements (internal_out tx) = Ok (at_movements row) -> at_counterparty row = first_destination (internal_out tx) ->
  views_agree tx rows row.
Proof.
  intros Hne Hk Hrows Hfees Hfee Hlen Hs Hsum Hdst. unfold views_agree. rewrite Hk. split_and!.
  - rewrite Hlen. symmetry. by eapply Forall2_length.
  - by rewrite Hfees, Hfee.
  - intros asset. rewrite (sent_rows_moves tx e _ _ asset Hrows).
    rewrite (sum_movements_adds asset _ [] _ (Forall_nil_2 _) Hsum). done.
  - clear -Hrows Hs. induction Hrows as [|m r l rows (_ & _ & _ & _ & Hd & Hsu & _) _ IH]; constructor; [|done].
    by rewrite Hs.
  - destruct Hrows as [|m r l rows (_ & Hc & _) _]; [done|]. cbn. by rewrite Hc, Hdst.
Qed.

(** The history and the explorer tell the same of a transaction. Where both can be told,
    a message the wallet sent is a row of its own and the rows together have the fee of the
    explorer's row, counted once, and move of every asset what it moves; a transaction that
    sent nothing moves nothing; what was received is the same movements, party and fee, and
    of what was passed on the history tells what came in; and they agree on the hash, the
    times and the exit code. *)
Lemma history_agrees_with_explorer (tx : ChainTransaction) (rows : list ActivityEvent) (row : AccountTx) :
  activity_from_chain_tx tx = Ok rows -> account_tx_from_chain_tx tx = Ok row ->
  views_agree tx rows row /\ Forall (same_transaction row) rows.
Proof.
  unfold activity_from_chain_tx, account_tx_from_chain_tx. intros Hrows Hrow. rinv Hrow.
  rename Hm into Hhash, Hm0 into Hfee, Hm1 into Hparts. apply forward_fees in Hfee.
  set (row := mkAccountTx _ _ _ _ _ _ _ _ _ _ _ _ _ _). assert (Hheads : heads tx row) by done.
  unfold account_tx_parts in Hparts. destruct (ct_in_msg tx) as [m|] eqn:Hin.
  2: { injection Hparts as <- <- <- <- <-. injection Hrows as <-. by split. }
  assert (Hparse : forall c h, parse_hash (ct_hash tx) c = Ok h -> h = at_hash row).
  { unfold parse_hash. intros c h Hh%map_err_Ok. cbn. congruence. }
  destruct (cm_kind m) eqn:Hkind.
  - apply rbind_Ok in Hrows as (e & He & Hrows). destruct (internal_out tx) as [|c msgs] eqn:Hout.
    + injection Hparts as <- <- <- <- <-. apply rbind_Ok in Hrows as (r & Hr & [= <-]). unfold no_transfer_send in Hr. rinv Hr.
      apply Hparse in Hm0 as ->. split; [|by repeat constructor]. eexists. split; [done|]. cbn. split; [cbn; lia|].
      split; [done|]. intros asset. apply rexpect_Ok in Hm1 || idtac. injection Hm1 as <-. vm_compute. by destruct asset.
    + apply rbind_Ok in Hrows as (h & Hh & Hrows). apply Hparse in Hh as ->. apply rbind_Ok in Hparts as (sent & Hsent & Hparts).
      injection Hparts as <- <- <- <- <-. destruct (sent_rows_spec _ _ _ _ _ _ Hrows) as [Hall Hsum].
      split; [|by eapply sent_rows_same]. rewrite <- Hout in *. eapply (out_agrees tx e); try done; by rewrite Hout.
  - apply rbind_Ok in Hrows as (r & Hr & [= <-]). unfold received_row in Hr. rinv Hr.
    apply Hparse in Hm1 as ->. split; [|by repeat constructor].
    destruct (internal_out tx) as [|c msgs] eqn:Hout.
    + rewrite Hm in Hparts. injection Hparts as <- <- <- <- <-. eexists. split; [done|]. cbn in *. split_and!; try done. lia.
    + apply rbind_Ok in Hparts as (sent & Hsent & Hparts). rewrite Hm in Hparts. injection Hparts as <- <- <- <- <-.
      eexists. split; [done|]. cbn [ae_direction ae_movements ae_bounced ae_fee_native at_received at_bounced at_fee_native at_movements].
      rewrite Hout. split_and!; try done. intros asset.
      exact (sum_movements_adds asset _ [] _ (Forall_nil_2 _) Hsent).
  - injection Hparts as <- <- <- <- <-. injection Hrows as <-. by split.
Qed.
End agreement.

(** ** A transfer of two messages *)
Definition toy_message (kind : MsgKind) (hash : byte) (native : N) (extra : list (N * bytes)) : @ChainMessage toy_cells :=
  @mkMessage toy_cells kind (to_hex (pad32 [hash])) (Some (bs "0:aa")) (Some (bs "0:bb")) native extra 7 true false 1 2
    (Toy [] []).
Definition toy_transfer : @ChainTransaction toy_cells :=
  @mkTransaction toy_cells (to_hex (pad32 [Byte.x01])) 10 1700000000 9 100 false true false 0%Z (Some true) (Some 0%Z)
    (Some false) None (Some (toy_message ExtIn Byte.x02 0 []))
    [toy_message Int Byte.x03 5 [(1, bs "30")]; toy_message ExtOut Byte.x04 0 []; toy_message Int Byte.x05 6 [(1, bs "12")]].

Definition ok_of {E A} (r : res E A) (d : A) : A := match r with Ok a => a | _ => d end.

Lemma history_agrees_with_explorer_witness :
  exists rows row, @activity_from_chain_tx toy_cells toy_transfer = Ok rows
    /\ @account_tx_from_chain_tx toy_cells toy_transfer = Ok row /\ length rows = 2%nat
    /\ at_movements row = [mkMovement (CcAssetAmount 1 (mkCc 42)); mkMovement (NativeAmount 11)]
    /\ @views_agree toy_cells toy_transfer rows row /\ Forall (same_transaction row) rows.
Proof.
  eexists _, _. split; [vm_compute; reflexivity|]. split; [vm_compute; reflexivity|]. split; [reflexivity|].
  split; [vm_compute; reflexivity|].
  apply (@history_agrees_with_explorer toy_cells toy_transfer); vm_compute; reflexivity.
Defined.
