(* ===== verification/Transmit.v ===== *)
(** * Handing a signed message to a node

    cc-wallet-tycho/src/transport.rs, the path of a broadcast: the endpoint's policy, the
    bounded reading of a response, the JSON-RPC envelope, and the classification of what an
    attempt came to; and its translation in cc-wallet-chain/src/wallet_service.rs. The URL,
    base64 and BOC libraries are parameters, the reply to the one request is an argument. *)

From Stdlib Require Import NArith ZArith Lia.
From stdpp Require Import list.
From S2P Require Import Prelude Bytes Text Decimal Ids Json Journal ChainData AppState Comment.

(** The url crate, and the parsing of IP addresses of the standard library. *)
Class UrlLib := {
  url : Type;
  url_parse : bytes -> res bytes url;
  as_str : url -> bytes;
  scheme : url -> bytes;
  host_str : url -> option bytes;
  username : url -> bytes;
  password : url -> option bytes;
  fragment : url -> option bytes;
  path : url -> bytes;
  query : url -> option bytes;
  set_scheme : url -> bytes -> option url;
  set_path : url -> bytes -> url;
  set_query : url -> bytes -> url;
  clear_query : url -> url;
  clear_fragment : url -> url;
  url_join : url -> bytes -> res bytes url;
  (** Whether a text is an IP address, and then one of this machine or its network. *)
  local_ip : bytes -> option bool
}.

(** What its documentation says of the setters. *)
Class UrlLaws `{UrlLib} := {
  set_scheme_scheme u s u' : set_scheme u s = Some u' -> scheme u' = s;
  set_path_scheme u p : scheme (set_path u p) = scheme u;
  set_path_host u p : host_str (set_path u p) = host_str u;
  set_path_username u p : username (set_path u p) = username u;
  set_path_password u p : password (set_path u p) = password u;
  set_path_fragment u p : fragment (set_path u p) = fragment u
}.

(** base64, BOC and [serde_json::from_slice::<Value>]. *)
Class BocLib `{CellLib} := {
  base64_decode : bytes -> option bytes;
  base64_encode : bytes -> bytes;
  boc_decode : bytes -> option cell;
  boc_encode : cell -> bytes;
  value_from_slice : bytes -> res bytes json
}.

(** ** The endpoint *)
Section endpoints.
Context `{UrlLib}.

Definition ascii_lowercase (s : bytes) : bytes := (fun b => if (65 <=? u8 b) && (u8 b <=? 90) then byte_of (u8 b + 32) else b) <$> s.
Fixpoint trim_start_matches (c : byte) (s : bytes) : bytes :=
  match s with b :: s' => if bool_decide (b = c) then trim_start_matches c s' else s | [] => [] end.
Definition trim_end_matches (c : byte) (s : bytes) : bytes := rev (trim_start_matches c (rev s)).

Definition host_is_local (u : url) : bool :=
  match host_str u with
  | None => false
  | Some host =>
      let host := trim_end_matches Byte.x5d (trim_start_matches Byte.x5b host) in
      let lower := ascii_lowercase host in
      if bool_decide (lower = bs "localhost") || ends_with (bs ".localhost") lower then true
      else default false (local_ip host)
  end.

Fixpoint contains_seq (p s : bytes) : bool :=
  starts_with p s || match s with [] => false | _ :: s => contains_seq p s end.

Definition parse_endpoint (endpoint : bytes) : res bytes url :=
  if contains_seq (bs "://") endpoint then map_err (fun _ => bs "invalid endpoint URL") (url_parse endpoint)
  else
    let? u := map_err (fun _ => bs "invalid endpoint URL") (url_parse (bs "http://" ++ endpoint)) in
    if negb (host_is_local u)
    then ok_or (set_scheme u (bs "https")) (bs "could not default endpoint " ++ endpoint ++ bs " to https")
    else Ok u.

Definition canonicalize_endpoint (endpoint : bytes) : res bytes url :=
  let endpoint := trim endpoint in
  if bool_decide (endpoint = []) then Err (bs "endpoint is empty") else
  let? u := parse_endpoint endpoint in
  if negb (bool_decide (scheme u = bs "http") || bool_decide (scheme u = bs "https"))
  then Err (bs "endpoint scheme must be http or https") else
  if is_none (host_str u) then Err (bs "endpoint must contain a host") else
  if negb (bool_decide (username u = [])) || is_some (password u)
  then Err (bs "endpoint credentials are forbidden; keep endpoint authentication out of URLs") else
  if is_some (fragment u) then Err (bs "endpoint fragments are forbidden") else
  if bool_decide (scheme u = bs "http") && negb (host_is_local u) then Err (bs "public endpoint must use https") else
  Ok (if bool_decide (path u = []) then set_path u (bs "/") else u).

Definition jrpc_url (endpoint : bytes) : res bytes url :=
  let? u := canonicalize_endpoint endpoint in
  if bool_decide (as_str u = bs "https://rpc-testnet.tychoprotocol.com/")
  then map_err (fun _ => bs "failed to build `/proto` JRPC URL") (url_join u (bs "proto"))
  else Ok u.

Definition diagnostic_url (u : url) : bytes := as_str (if is_some (query u) then set_query u (bs "redacted") else u).
End endpoints.

(** ** JSON-RPC *)

(** [Value::get]: of members of one name the last was kept. *)
Definition value_get (name : bytes) (value : json) : option json :=
  match value with
  | JObj members => snd <$> list_find (fun m => fst m = name) (rev members) ≫= fun m => Some (snd m)
  | _ => None
  end.
Definition is_null (value : json) : bool := match value with JNull => true | _ => false end.

Record JrpcError := mkJrpcError { je_code : Z; je_message : bytes }.
Definition JrpcError_display (e : JrpcError) : bytes := je_message e ++ bs " (" ++ print_z (je_code e) ++ bs ")".

Definition in_i64 (z : Z) : bool := ((- 9223372036854775808 <=? z) && (z <=? 9223372036854775807))%Z.
Definition jrpc_error_from (value : json) : option JrpcError :=
  match value with
  | JArr [JInt code; JStr message] => if in_i64 code then Some (mkJrpcError code message) else None
  | JObj _ =>
      match value_get (bs "code") value, value_get (bs "message") value with
      | Some (JInt code), Some (JStr message) => if in_i64 code then Some (mkJrpcError code message) else None
      | _, _ => None
      end
  | _ => None
  end.

Definition non_null_error (value : json) : option json :=
  error ← value_get (bs "error") value; if is_null error then None else Some error.

Definition for_method (method : bytes) : bytes := bs " for `" ++ method ++ bs "`".

(** [serde_json::from_value::<R>] is [from_value]. *)
Definition parse_jrpc_result {R} (from_value : json -> option R) (value : json) (method : bytes) : res bytes R :=
  if is_some (value_get (bs "result") value) && is_some (non_null_error value)
  then Err (bs "malformed JRPC response" ++ for_method method
            ++ bs ": both `result` and a non-null `error` are present") else
  match non_null_error value with
  | Some error =>
      let error := default (mkJrpcError 0 (bs "malformed JSON-RPC error object (detail omitted)")) (jrpc_error_from error) in
      Err (bs "JRPC error" ++ for_method method ++ bs ": " ++ JrpcError_display error)
  | None =>
      let? result := ok_or (value_get (bs "result") value)
                       (bs "missing `result` field in JRPC response" ++ for_method method) in
      ok_or (from_value result) (bs "failed to deserialize result" ++ for_method method)
  end.

Definition validate_jrpc_response_id (value : json) (method : bytes) (expected_id : N) : res bytes unit :=
  if negb match value_get (bs "jsonrpc") value with Some (JStr v) => bool_decide (v = bs "2.0") | _ => false end
  then Err (bs "malformed JRPC response" ++ for_method method ++ bs ": `jsonrpc` must be exactly `2.0`") else
  if negb match value_get (bs "id") value with Some (JInt id) => (id =? Z.of_N expected_id)%Z | _ => false end
  then Err (bs "malformed JRPC response" ++ for_method method ++ bs ": response id does not match request "
            ++ print_dec expected_id) else
  Ok tt.

Definition parse_jrpc_result_for_id {R} (from_value : json -> option R) (value : json) (method : bytes) (id : N) : res bytes R :=
  let? _ := validate_jrpc_response_id value method id in parse_jrpc_result from_value value method.

(** ** A response *)
Definition MAX_JRPC_RESPONSE_BYTES : N := 4194304.
Record Response := mkResponse {
  rs_status : N;
  rs_location : option bytes;
  rs_content_length : option N;
  rs_chunks : list (res bytes bytes)
}.

Definition TOO_LONG : bytes := bs "JSON-RPC response exceeds 4194304 bytes".
Fixpoint read_chunks (chunks : list (res bytes bytes)) (body : bytes) : res bytes bytes :=
  match chunks with
  | [] => Ok body
  | chunk :: chunks =>
      let? chunk := map_err (fun error => bs "response body read failed: " ++ error) chunk in
      if MAX_JRPC_RESPONSE_BYTES <? N.of_nat (length body + length chunk) then Err TOO_LONG
      else read_chunks chunks (body ++ chunk)
  end.

Definition read_response_bytes_limited (response : Response) : res bytes bytes :=
  if match rs_content_length response with Some length => MAX_JRPC_RESPONSE_BYTES <? length | None => false end
  then Err TOO_LONG else read_chunks (rs_chunks response) [].

Definition is_redirection (status : N) : bool := (300 <=? status) && (status <? 400).
Definition is_success (status : N) : bool := (200 <=? status) && (status <? 300).

(** ** One attempt *)
Inductive LocalReason :=
| InvalidMessage (detail : bytes)
| RouteEndpointMismatch (detail : bytes)
| AllCandidatesFailedPreConnect (details : list bytes).

Inductive ResponseKind :=
| HttpStatus (request_id : bytes) (status : N) (detail : bytes)
| Redirect (request_id : bytes) (status : N) (location : option bytes)
| JsonRpcError (request_id detail : bytes)
| MalformedSuccess (request_id detail : bytes).

Definition response_request_id (r : ResponseKind) : bytes :=
  match r with HttpStatus id _ _ | Redirect id _ _ | JsonRpcError id _ | MalformedSuccess id _ => id end.

Inductive SendAttemptOutcome :=
| AttemptNotTransmitted (reason : LocalReason)
| AttemptMayHaveBroadcast (detail : bytes)
| AttemptNodeResponse (response : ResponseKind).

Definition is_not_transmitted (o : SendAttemptOutcome) : bool :=
  match o with AttemptNotTransmitted _ => true | _ => false end.
Definition may_have_broadcast (o : SendAttemptOutcome) : bool := negb (is_not_transmitted o).

Fixpoint join_with (sep : bytes) (l : list bytes) : bytes :=
  match l with [] => [] | [a] => a | a :: l => a ++ sep ++ join_with sep l end.

Definition SendAttemptOutcome_display (o : SendAttemptOutcome) : bytes :=
  match o with
  | AttemptNotTransmitted (InvalidMessage detail) => bs "signed message was not transmitted: " ++ detail
  | AttemptNotTransmitted (RouteEndpointMismatch detail) =>
      bs "signed message route was rejected before transmission: " ++ detail
  | AttemptNotTransmitted (AllCandidatesFailedPreConnect details) =>
      bs "signed message was not transmitted; every pre-resolved route failed before connection: "
      ++ join_with (bs "; ") details
  | AttemptMayHaveBroadcast detail => bs "signed message may have reached the node: " ++ detail
  | AttemptNodeResponse (HttpStatus _ status detail) =>
      bs "node/proxy returned HTTP " ++ print_dec status ++ bs "; delivery is unresolved: " ++ detail
  | AttemptNodeResponse (Redirect _ status location) =>
      bs "node/proxy returned redirect HTTP " ++ print_dec status ++ bs " to "
      ++ default (bs "<missing location>") location
      ++ bs "; redirect was not followed and delivery is unresolved"
  | AttemptNodeResponse (JsonRpcError _ detail) =>
      bs "node returned a JSON-RPC error; delivery is unresolved: " ++ detail
  | AttemptNodeResponse (MalformedSuccess _ detail) =>
      bs "node returned a malformed success response; delivery is unresolved: " ++ detail
  end.

Record BroadcastAcknowledgement := mkAck { ba_request_id : bytes }.
Record HttpError := mkHttpError { he_is_connect : bool; he_text : bytes }.

Section broadcasting.
Context `{UrlLib} `{BocLib}.

Record ResolvedSendRoute := mkRoute {
  ro_endpoint_identity : bytes;
  ro_candidates : list url;
  ro_probe_request_ids : list bytes;
  ro_observed_at_mono : N
}.

Definition candidate_count (r : ResolvedSendRoute) : N := N.of_nat (length (ro_candidates r)).
Definition route_id (r : ResolvedSendRoute) : bytes := join_with (bs "|") (as_str <$> ro_candidates r).
Definition resolve_send_route (endpoint : bytes) (u : url) (observed_at : N) : ResolvedSendRoute :=
  mkRoute endpoint [u] [] observed_at.

Definition MAX_EXTERNAL_MESSAGE_BOC_BYTES : N := 65536.
Definition max_encoded (max_bytes : N) : N := (max_bytes * 4 + 2) / 3 + 4.

Definition validate_message_boc_base64 (value : bytes) : res bytes unit :=
  if max_encoded MAX_EXTERNAL_MESSAGE_BOC_BYTES <? N.of_nat (length value)
  then Err (bs "external-message BOC exceeds 65536 bytes") else
  let? decoded := ok_or (base64_decode value) (bs "external message is not canonical base64") in
  if bool_decide (decoded = []) || (MAX_EXTERNAL_MESSAGE_BOC_BYTES <? N.of_nat (length decoded))
  then Err (bs "external-message BOC must contain 1..=65536 bytes") else
  let? _ := ok_or (boc_decode decoded) (bs "external message is not a valid BOC") in
  Ok tt.

Definition send_message_request (id : N) (message_boc_base64 : bytes) : json :=
  JObj [(bs "jsonrpc", JStr (bs "2.0")); (bs "id", JInt (Z.of_N id)); (bs "method", JStr (bs "sendMessage"));
        (bs "params", JObj [(bs "message", JStr message_boc_base64)])].

(** What the response to the request says. *)
Definition read_reply (diagnostic : bytes) (id : N) (response : Response) : res SendAttemptOutcome BroadcastAcknowledgement :=
  let malformed detail := AttemptNodeResponse (MalformedSuccess (print_dec id) detail) in
  let? body := map_err malformed (read_response_bytes_limited response) in
  let detail := print_dec (N.of_nat (length body)) ++ bs "-byte response body omitted" in
  if is_redirection (rs_status response)
  then Err (AttemptNodeResponse (Redirect (print_dec id) (rs_status response) (rs_location response))) else
  if negb (is_success (rs_status response))
  then Err (AttemptNodeResponse (HttpStatus (print_dec id) (rs_status response) detail)) else
  let? value := map_err (fun error => malformed (bs "sendMessage response at " ++ diagnostic ++ bs " was not JSON: " ++ error))
                  (value_from_slice body) in
  let? _ := map_err malformed (validate_jrpc_response_id value (bs "sendMessage") id) in
  if is_some (non_null_error value) then
    match parse_jrpc_result Some value (bs "sendMessage") with
    | Err error => Err (AttemptNodeResponse (JsonRpcError (print_dec id) error))
    | _ => Panic
    end
  else
  map_err malformed (rmap (fun _ => mkAck (print_dec id)) (parse_jrpc_result Some value (bs "sendMessage"))).

(** The requests that were made, which is one, and what came of it. *)
Definition broadcast_once (reply : res HttpError Response) (u : url) (id : N) (message_boc_base64 : bytes)
  : list (url * json) * res SendAttemptOutcome BroadcastAcknowledgement :=
  let diagnostic := diagnostic_url u in
  ([(u, send_message_request id message_boc_base64)],
   let? response := map_err (fun error =>
     if he_is_connect error
     then AttemptNotTransmitted (AllCandidatesFailedPreConnect
            [bs "failed to connect for sendMessage to " ++ diagnostic ++ bs ": " ++ he_text error])
     else AttemptMayHaveBroadcast (bs "sendMessage to " ++ diagnostic ++ bs " did not complete: " ++ he_text error)) reply in
   read_reply diagnostic id response).

Definition send_message_base64_candidate_classified (endpoint : bytes) (reply : res HttpError Response) (id : N)
    (route : ResolvedSendRoute) (candidate_index : N) (message_boc_base64 : bytes)
  : list (url * json) * res SendAttemptOutcome BroadcastAcknowledgement :=
  if negb (bool_decide (ro_endpoint_identity route = endpoint)) then
    ([], Err (AttemptNotTransmitted (RouteEndpointMismatch
                (bs "route endpoint identity differs from the active transport")))) else
  match validate_message_boc_base64 message_boc_base64 with
  | Err error => ([], Err (AttemptNotTransmitted (InvalidMessage error)))
  | Panic => ([], Panic)
  | Ok _ =>
      match ro_candidates route !! N.to_nat candidate_index with
      | None => ([], Err (AttemptNotTransmitted (RouteEndpointMismatch
                           (bs "route candidate index is outside the pre-resolved route"))))
      | Some candidate => broadcast_once reply candidate id message_boc_base64
      end
  end.

(** ** wallet_service.rs *)
Definition classify_node_response (response : ResponseKind) : NodeResponseKind :=
  match response with
  | MalformedSuccess _ _ => MalformedResponse
  | JsonRpcError _ _ => Rejected
  | HttpStatus _ _ _ | Redirect _ _ _ => TransportError
  end.

Definition retries (reason : LocalReason) : bool :=
  match reason with AllCandidatesFailedPreConnect _ => true | _ => false end.

Definition classify_broadcast (outcome : res SendAttemptOutcome BroadcastAcknowledgement) (what : bytes)
  : res Empty_set CandidateBroadcastOutcome :=
  match outcome with
  | Ok acknowledgement =>
      Ok (OutcomeNodeResponseObserved (ba_request_id acknowledgement) Acknowledged
            (bs "node acknowledged the " ++ what ++ bs "; delivery remains unverified"))
  | Err (AttemptNotTransmitted reason) =>
      Ok (NotTransmitted (SendAttemptOutcome_display (AttemptNotTransmitted reason)) (retries reason))
  | Err (AttemptMayHaveBroadcast detail) =>
      Ok (OutcomeMayHaveBroadcast (SendAttemptOutcome_display (AttemptMayHaveBroadcast detail)))
  | Err (AttemptNodeResponse response) =>
      Ok (OutcomeNodeResponseObserved (response_request_id response) (classify_node_response response)
            (SendAttemptOutcome_display (AttemptNodeResponse response)))
  | Panic => Panic
  end.

(** [JrpcTransport::new]: the identity of the endpoint and where its calls go. The HTTP client
    is taken to be built. *)
Definition jrpc_new (endpoint : bytes) : res bytes (bytes * url) :=
  let? endpoint := rmap as_str (canonicalize_endpoint endpoint) in
  let? u := jrpc_url endpoint in
  Ok (endpoint, u).

(** A transport of the cache was made by the same call. *)
Definition transport_for (endpoint : bytes) : res ChainError (bytes * url) :=
  let? endpoint := map_err ChainInvalidInput (rmap as_str (canonicalize_endpoint endpoint)) in
  map_err ChainWallet (jrpc_new endpoint).

Definition broadcast_prepared_candidate (source_endpoint : bytes) (reply : res HttpError Response) (id : N)
    (route : option ResolvedSendRoute) (message : option cell) (candidate_index : N)
  : list (url * json) * res ChainError CandidateBroadcastOutcome :=
  match transport_for source_endpoint with
  | Err error => ([], Err error)
  | Panic => ([], Panic)
  | Ok (endpoint, _) =>
  match route with
  | None => ([], Err (ChainWallet (bs "a test-only prepared send reached the production broadcaster")))
  | Some route =>
      match message with
      | None => ([], Err (ChainWallet (bs "a prepared send is missing its signed body")))
      | Some message =>
          let (requests, outcome) :=
            send_message_base64_candidate_classified endpoint reply id route candidate_index
              (base64_encode (boc_encode message)) in
          (requests, rexpect (classify_broadcast outcome (bs "signed message")))
      end
  end end.
End broadcasting.

(** ** What is known of an attempt *)
Section attempts.
Context `{UrlLib} `{BocLib}.

(** Once there is a response, what is reported is that there was one. *)
Lemma reply_is_a_response diagnostic id response o :
  read_reply diagnostic id response = Err o -> exists r, o = AttemptNodeResponse r.
Proof.
  unfold read_reply. destruct (read_response_bytes_limited response) as [body|e|]; cbn; [|intros [= <-]; eauto|done].
  destruct (is_redirection _); [intros [= <-]; eauto|]. destruct (is_success _); cbn; [|intros [= <-]; eauto].
  destruct (value_from_slice body) as [value|e|]; cbn; [|intros [= <-]; eauto|done].
  destruct (validate_jrpc_response_id _ _ _) as [[]|e|]; cbn; [|intros [= <-]; eauto|done].
  destruct (is_some _);
    destruct (parse_jrpc_result _ _ _) as [v|e|]; cbn; intros [= <-]; eauto.
Qed.

(** What an outcome says happened at the socket. *)
Definition told_truly (reply : res HttpError Response) (requests : list (url * json)) (o : CandidateBroadcastOutcome) : Prop :=
  match o with
  | NotTransmitted _ false => requests = []
  | NotTransmitted _ true => length requests = 1%nat /\ exists e, reply = Err e /\ he_is_connect e = true
  | OutcomeMayHaveBroadcast _ => length requests = 1%nat /\ exists e, reply = Err e /\ he_is_connect e = false
  | OutcomeNodeResponseObserved _ _ _ => length requests = 1%nat /\ exists response, reply = Ok response
  end.

Lemma send_told_truly endpoint reply id route index message requests outcome o what :
  send_message_base64_candidate_classified endpoint reply id route index message = (requests, outcome) ->
  classify_broadcast outcome what = Ok o -> told_truly reply requests o.
Proof.
  unfold send_message_base64_candidate_classified.
  case_bool_decide; cbn [negb]; [|by intros [= <- <-] [= <-]].
  destruct (validate_message_boc_base64 message) as [[]|e|]; [|by intros [= <- <-] [= <-]|by intros [= <- <-]].
  destruct (ro_candidates route !! _) as [u|]; [|by intros [= <- <-] [= <-]].
  unfold broadcast_once. intros [= <- <-]. destruct reply as [response|e|]; cbn [map_err rbind]; [| |done].
  - destruct (read_reply _ _ _) as [a|out|] eqn:Hr; [intros [= <-]; cbn; eauto| |done].
    destruct (reply_is_a_response _ _ _ _ Hr) as [r ->]. intros [= <-]. cbn; eauto.
  - destruct (he_is_connect e) eqn:He; intros [= <-]; cbn; eauto.
Qed.

(** What the wallet is told of an attempt is what happened at the socket. At most one
    request is made. [NotTransmitted] without leave to try the next route means that no request
    was made at all, and with it that the connection itself failed; a request which failed
    later than the connection is never called untransmitted; and a node response is reported
    only when a response came, however malformed it was. An error means no request was made. *)
Lemma outcome_tells_what_was_sent source_endpoint reply id route message index :
  let (requests, result) := broadcast_prepared_candidate source_endpoint reply id route message index in
  (length requests <= 1)%nat /\
  match result with
  | Ok o => told_truly reply requests o
  | Err _ => requests = []
  | Panic => True
  end.
Proof.
  unfold broadcast_prepared_candidate.
  destruct (transport_for source_endpoint) as [[endpoint u]|e|]; [|by split; [cbn; lia|]..].
  destruct route as [route|]; [|by split; [cbn; lia|]]. destruct message as [message|]; [|by split; [cbn; lia|]].
  destruct (send_message_base64_candidate_classified _ _ _ _ _ _) as [requests outcome] eqn:Hs. split.
  - revert Hs. unfold send_message_base64_candidate_classified, broadcast_once.
    repeat case_match; intros [= <- _]; cbn; lia.
  - destruct (classify_broadcast outcome _) as [o|[]|] eqn:Hc; cbn; [|done]. by eapply send_told_truly.
Qed.

(** A body never grows past the limit, and nothing is dropped from it. *)
Lemma read_chunks_bounded chunks body result :
  (N.of_nat (length body) <= MAX_JRPC_RESPONSE_BYTES)%N -> read_chunks chunks body = Ok result ->
  (N.of_nat (length result) <= MAX_JRPC_RESPONSE_BYTES)%N /\
  exists pieces, chunks = Ok <$> pieces /\ result = body ++ concat pieces.
Proof.
  revert body. induction chunks as [|chunk chunks IH]; intros body Hb; cbn.
  - intros [= <-]. split; [done|]. exists []. by rewrite app_nil_r.
  - destruct chunk as [chunk|e|]; cbn; [|done..]. destruct (_ <? _)%N eqn:Hlt; [done|]. intros Hr.
    destruct (IH (body ++ chunk)) as (Hl & pieces & -> & ->); [rewrite length_app; apply N.ltb_ge in Hlt; lia|done|].
    split; [done|]. exists (chunk :: pieces). by rewrite <- app_assoc.
Qed.
End attempts.

(** ** What an endpoint may be *)
Section policy.
Context `{UrlLib} `{!UrlLaws}.

(** Where a request may go: over TLS, or in clear to this machine or its network, and with no
    credentials and no fragment in the URL. *)
Record endpoint_allowed (u : url) : Prop := {
  ea_scheme : scheme u = bs "https" \/ scheme u = bs "http" /\ host_is_local u = true;
  ea_host : is_Some (host_str u);
  ea_username : username u = [];
  ea_password : password u = None;
  ea_fragment : fragment u = None
}.

Lemma set_path_allowed u p : endpoint_allowed u -> endpoint_allowed (set_path u p).
Proof.
  intros [Hs Hh Hu Hp Hf]. split; [|by rewrite ?set_path_host, ?set_path_username, ?set_path_password, ?set_path_fragment..].
  unfold host_is_local in *. by rewrite set_path_scheme, set_path_host.
Qed.

(** An endpoint that is accepted uses https, or http to a host of this machine or its
    network, names a host, and has neither credentials nor a fragment; so a public node is
    never spoken to in clear. *)
Lemma endpoint_policy endpoint u : canonicalize_endpoint endpoint = Ok u -> endpoint_allowed u.
Proof.
  unfold canonicalize_endpoint. case_bool_decide; [done|]. destruct (parse_endpoint _) as [v|e|]; cbn; [|done..].
  destruct (negb (_ || _)) eqn:Hs; [done|]. destruct (host_str v) as [h|] eqn:Hh; cbn; [|done].
  destruct (negb (bool_decide (username v = [])) || _) eqn:Hc; [done|].
  destruct (fragment v) eqn:Hf; cbn; [done|]. destruct (_ && _) eqn:Hl; [done|]. intros [= <-].
  assert (endpoint_allowed v) by (split; [..|done]; revert Hs Hc Hl; repeat case_bool_decide; cbn;
    destruct (password v), (host_is_local v); cbn; rewrite ?Hh; intros; eauto; congruence).
  destruct (bool_decide (path v = [])); [by apply set_path_allowed|done].
Qed.
End policy.

(** A URL library of which only scheme and host matter. *)
Record ToyUrl := mkToyUrl { tu_scheme : bytes; tu_host : bytes; tu_path : bytes }.
#[export] Instance toy_urls : UrlLib := {|
  url := ToyUrl;
  url_parse s :=
    if starts_with (bs "https://") s then Ok (mkToyUrl (bs "https") (skipn 8 s) [])
    else if starts_with (bs "http://") s then Ok (mkToyUrl (bs "http") (skipn 7 s) [])
    else Err (bs "relative URL without a base");
  as_str u := tu_scheme u ++ bs "://" ++ tu_host u ++ tu_path u;
  scheme := tu_scheme;
  host_str u := Some (tu_host u);
  username _ := [];
  password _ := None;
  fragment _ := None;
  path := tu_path;
  query _ := None;
  set_scheme u s := Some (mkToyUrl s (tu_host u) (tu_path u));
  set_path u p := mkToyUrl (tu_scheme u) (tu_host u) p;
  set_query u _ := u;
  clear_query u := u;
  clear_fragment u := u;
  url_join u p := Ok (mkToyUrl (tu_scheme u) (tu_host u) (tu_path u ++ p));
  local_ip s := if bool_decide (s = bs "127.0.0.1") then Some true else None
|}.
#[export] Instance toy_url_laws : UrlLaws.
Proof. split; cbn; intros; by simplify_eq/=. Qed.

Example public_nodes_are_spoken_to_over_tls :
  rmap as_str (canonicalize_endpoint (H := toy_urls) (bs " rpc.example.org ")) = Ok (bs "https://rpc.example.org/") /\
  rmap as_str (canonicalize_endpoint (H := toy_urls) (bs "127.0.0.1")) = Ok (bs "http://127.0.0.1/") /\
  canonicalize_endpoint (H := toy_urls) (bs "http://rpc.example.org") = Err (bs "public endpoint must use https").
Proof. vm_compute. done. Qed.

Lemma endpoint_policy_witness :
  endpoint_allowed (H := toy_urls) (mkToyUrl (bs "https") (bs "rpc.example.org") (bs "/")).
Proof. apply (endpoint_policy (H := toy_urls) (bs "rpc.example.org")). vm_compute. reflexivity. Defined.

(** An error answer whose body cannot be read is told as a malformed success. *)
Lemma failed_answer_told_as_success `{BocLib} diagnostic id e :
  read_reply diagnostic id (mkResponse 500 None None [Err e])
  = Err (AttemptNodeResponse (MalformedSuccess (print_dec id) (bs "response body read failed: " ++ e))).
Proof. reflexivity. Qed.
