(* ===== verification/Prepare.v ===== *)
(** * What a send reserves, and how much of its fee it may spend

    The checks and the arithmetic of [prepare_transaction] in
    cc-wallet-chain/src/wallet_service.rs, and the clock checks of
    cc-wallet-tycho/src/everwallet.rs that decide when a message may be signed. *)

From Stdlib Require Import NArith ZArith Lia.
From stdpp Require Import list.
From S2P Require Import Prelude Ord Bytes Text Decimal Ids Asset Amount Digest Affordability Send Journal.
From S2P Require Import ChainData AppState Wallets RiskReview Activity.

(** ** The fresh balances *)
Definition typed_balances (native_balance : N) (extra_balance : btree N CcAmount) : res ChainError (list AssetAmount) :=
  let? native := map_err (fun error => ChainWallet (bs "fresh native balance is out of domain: " ++ AmountError_text error))
                   (amount_native native_balance) in
  Ok (native :: ((fun '(id, amount) => currency_collection id amount) <$> extra_balance)).

(** The map that is collected has the keys of the one it is made from, in their order. *)
Fixpoint parse_extra_balance (values : btree N bytes) : res ChainError (btree N CcAmount) :=
  match values with
  | [] => Ok []
  | (cc_id, value) :: values =>
      let? amount := map_err (fun error =>
          ChainWallet (bs "extra-currency " ++ print_dec cc_id ++ bs " balance " ++ debug_str value
                       ++ bs " is invalid: " ++ AmountError_text error))
        (try_from_canonical_decimal value) in
      let? rest := parse_extra_balance values in
      Ok ((cc_id, amount) :: rest)
  end.

(** ** What a ticket reserves *)
Definition reservation_error {A} (r : res DigestError A) : res ChainError A :=
  map_err (fun error => ChainWallet (bs (DigestError_display error))) r.

Definition reservations_for_ticket (ticket : SendTicket) (native_fee_ceiling : N) : res ChainError (list Reservation) :=
  let value := sr_value (t_request ticket) in
  let? fee := map_err (fun error => ChainWallet (bs "local native fee ceiling is out of domain: " ++ AmountError_text error))
                (amount_native native_fee_ceiling) in
  match asset_id value with
  | Native =>
      let? total := map_err (fun error => ChainWallet (bs "native transfer plus local fee ceiling is out of domain: "
                                                       ++ AmountError_text error))
                      (checked_add_same_asset value fee) in
      let? row := reservation_error (Reservation_new (t_record_id ticket) total Transfer) in
      Ok [row]
  | CurrencyCollection _ =>
      let? row := reservation_error (Reservation_new (t_record_id ticket) value Transfer) in
      let? fee_row := reservation_error (Reservation_new (t_record_id ticket) fee NativeFee) in
      Ok [row; fee_row]
  end.

Section ceiling.
Variables (ticket : SendTicket) (balances : list AssetAmount) (active_reservations authorized_overlap : list Reservation).

Definition affordable_ticket_reservations (native_fee_ceiling : N) : res ChainError (option (list Reservation)) :=
  let? reservations := reservations_for_ticket ticket native_fee_ceiling in
  let requested := r_amount <$> reservations in
  let? affordability := map_err (fun error =>
      ChainWallet (bs "cannot evaluate final send affordability: " ++ AffordabilityError_display error))
    (evaluate_affordability balances active_reservations authorized_overlap requested) in
  Ok (if is_affordable affordability then Some reservations else None).

Definition INSUFFICIENT : ChainError :=
  ChainInsufficientFunds (bs "insufficient fresh balance for this amount plus the network fee").
Definition ensure_ticket_affordable (native_fee_ceiling : N) : res ChainError (list Reservation) :=
  let? found := affordable_ticket_reservations native_fee_ceiling in ok_or found INSUFFICIENT.

(** The loop halves the gap between an affordable and an unaffordable ceiling; [Panic] where
    the fuel is spent. *)
Fixpoint bisect (fuel : nat) (affordable : N) (reservations : list Reservation) (unaffordable : N)
  : res ChainError (N * list Reservation) :=
  if affordable + 1 <? unaffordable then
    match fuel with
    | O => Panic
    | S fuel =>
        let midpoint := affordable + (unaffordable - affordable) / 2 in
        let? found := affordable_ticket_reservations midpoint in
        match found with
        | Some candidate => bisect fuel midpoint candidate unaffordable
        | None => bisect fuel affordable reservations midpoint
        end
    end
  else Ok (affordable, reservations).

Definition select_affordable_fee_ceiling (exact_fee_native desired_fee_ceiling_native : N)
  : res ChainError (N * list Reservation) :=
  check exact_fee_native <=? desired_fee_ceiling_native
    else ChainWallet (bs "desired native fee ceiling is below the exact emulated fee");;
  let? exact_reservations := ensure_ticket_affordable exact_fee_native in
  if desired_fee_ceiling_native =? exact_fee_native then Ok (exact_fee_native, exact_reservations) else
  let? found := affordable_ticket_reservations desired_fee_ceiling_native in
  match found with
  | Some reservations => Ok (desired_fee_ceiling_native, reservations)
  | None => bisect (N.to_nat (N.size (desired_fee_ceiling_native - exact_fee_native)))
              exact_fee_native exact_reservations desired_fee_ceiling_native
  end.
End ceiling.

(** ** The checks around it *)
Definition FEE_ESTIMATE_FLOOR_NANOS : N := 100000.
Definition FEE_ESTIMATE_BALANCE_HEADROOM : N := 2000000000.

Definition fee_within_bounds (fee : N) : bool :=
  let maximum := LOCAL_SEND_FEE_CEILING_NANOS - LOCAL_SEND_FEE_HEADROOM_NANOS in
  (FEE_ESTIMATE_FLOOR_NANOS <=? fee) && (fee <=? maximum).

Definition emulation_balance_floor (transfer_native : N) : res ChainError N :=
  let? min_balance := ok_or (checked_add u128_max transfer_native FEE_ESTIMATE_BALANCE_HEADROOM)
                        (ChainWallet (bs "fee-emulation balance overflows u128")) in
  let? _ := map_err (fun error => ChainWallet (bs "fee-emulation balance is out of domain: " ++ AmountError_text error))
              (amount_native min_balance) in
  Ok min_balance.

Definition validate_signature_context (reported_global_id : Z) (has_signature_id : bool)
    (expected_network_id : Z) (require_signature_id : bool) : res bytes unit :=
  if negb (reported_global_id =? expected_network_id)%Z
  then Err (bs "this endpoint serves network " ++ print_z reported_global_id ++ bs " but the wallet is on network "
            ++ print_z expected_network_id
            ++ bs " " ++ [Byte.xe2; Byte.x80; Byte.x94] ++ bs " choose an endpoint for the wallet's network before sending") else
  if require_signature_id && negb has_signature_id
  then Err (bs "this endpoint does not advertise replay-protected (signature-with-id) signing for network "
            ++ print_z expected_network_id ++ bs "; refusing to sign an unprotected transfer "
            ++ [Byte.xe2; Byte.x80; Byte.x94]
            ++ bs " switch to a correct endpoint for this network before sending") else
  Ok tt.

Definition WalletError_text (e : WalletError) : bytes :=
  match e with Validation m | AmountErr m | OverflowErr m => bs m end.

Definition validate_chain_request `{StdAddrLib} (request : SendRequest) : res ChainError unit :=
  let? canonical := map_err (fun error => ChainInvalidInput (WalletError_text error))
                      (canonicalize_recipient (sr_destination request)) in
  if negb (bool_decide (canonical = sr_destination request))
  then Err (ChainInvalidInput (bs "send destination is not in canonical standard-address form")) else
  if is_zero (sr_value request)
  then Err (ChainInvalidInput (bs "send amount must be greater than zero")) else
  match asset_id (sr_value request) with
  | Native =>
      if is_some (native_units (sr_value request)) then Ok tt
      else Err (ChainInvalidInput (bs "native send request has no native value"))
  | CurrencyCollection _ as asset =>
      if is_known_cc asset && is_some (cc_units (sr_value request)) then Ok tt
      else Err (ChainInvalidInput (bs "only currency-collection ids 1, 2, and 3 can be sent"))
  end.

(** ** The clock (everwallet.rs) *)
Definition NETWORK_TIME_MAX_AGE_MS : N := 30000.

Definition checked_expire_at (created_at_ms ttl_secs : N) : res bytes N :=
  let created := created_at_ms / 1000 in
  check created <=? u32_max else bs "message creation time is outside the protocol u32 range";;
  ok_or (checked_add u32_max created ttl_secs) (bs "message expiry exceeds the protocol u32 range").

(** [ObservedNetworkTime] of transport.rs, and its age on the monotonic clock. *)
Record ObservedTime := mkObserved {
  ot_value : N;
  ot_source_endpoint : bytes;
  ot_request_id : bytes;
  ot_observed_at_mono : N
}.
Definition ot_elapsed (now_mono : N) (o : ObservedTime) : N := saturating_sub now_mono (ot_observed_at_mono o).

(** The monotonic clock reads [now_mono] milliseconds. *)
Definition validate_clock_skew (now_mono now_secs : N) (observed : option ObservedTime) : res bytes unit :=
  match observed with
  | None => Err (bs "network time unavailable; refusing to sign")
  | Some observed =>
      if NETWORK_TIME_MAX_AGE_MS <? ot_elapsed now_mono observed
      then Err (bs "network time observation is stale; refresh the wallet before signing") else
      let chain := ot_value observed in
      if saturating_add u64_max chain CLOCK_SKEW_MARGIN_SECS <? now_secs
      then Err (bs "local clock is ~" ++ print_dec (saturating_sub now_secs chain) ++ bs "s ahead of endpoint time "
                ++ print_dec chain ++ bs "; set the system clock") else
      let expire_at := saturating_add u64_max now_secs DEFAULT_TTL_SECS in
      if expire_at <? chain + CLOCK_SKEW_MARGIN_SECS
      then Err (bs "local clock is ~" ++ print_dec (saturating_sub chain now_secs) ++ bs "s behind endpoint time "
                ++ print_dec chain
                ++ bs "; a message signed now would expire before validators accept it "
                ++ [Byte.xe2; Byte.x80; Byte.x94] ++ bs " set the system clock") else
      Ok tt
  end.

(** ** Balances that are read are well formed *)
Lemma parse_extra_balance_ok values extra :
  parse_extra_balance values = Ok extra -> bt_keys extra = bt_keys values /\ Forall (fun row => wf_cc (snd row)) extra.
Proof.
  revert extra. induction values as [|[id text] values IH]; intros extra; cbn [parse_extra_balance].
  - intros [= <-]. by split.
  - destruct (map_err _ _) as [a| |] eqn:Ha; cbn [rbind]; [|done..]. apply map_err_Ok in Ha.
    destruct (parse_extra_balance values) as [rest| |]; cbn [rbind]; [|done..]. intros [= <-].
    destruct (IH rest eq_refl) as [Hk Hw]. split; [unfold bt_keys in *; cbn; congruence|].
    constructor; [|done]. apply try_from_canonical_ok in Ha as [Ha _]. exact Ha.
Qed.

Lemma typed_balances_wf native values extra balances :
  bt_wf values -> parse_extra_balance values = Ok extra -> typed_balances native extra = Ok balances ->
  Forall in_domain balances /\ NoDup (asset_id <$> balances).
Proof.
  intros Hv Hp Ht. destruct (parse_extra_balance_ok _ _ Hp) as [Hk Hw].
  unfold typed_balances in Ht. destruct (map_err _ _) as [a| |] eqn:Ha in Ht; cbn [rbind] in Ht; [|done..].
  apply amount_native_ok in Ha as [-> Ha]. injection Ht as <-. split.
  - constructor; [done|]. apply Forall_fmap. eapply Forall_impl; [exact Hw|]. intros [id amount]; done.
  - rewrite fmap_cons. cbn [asset_id].
    assert (Hids : asset_id <$> ((fun '(id, amount) => currency_collection id amount) <$> extra) = CurrencyCollection <$> bt_keys extra).
    { unfold bt_keys. rewrite <- !list_fmap_compose. apply list_fmap_ext. by intros _ [id amount] _. }
    rewrite Hids. constructor.
    + intros (id & ? & _)%list_elem_of_fmap. done.
    + apply (@NoDup_fmap_2 _ _ CurrencyCollection); [by intros ?? [=]|]. rewrite Hk. by apply bt_wf_nodup.
Qed.

(** ** The ceiling that is chosen *)
Section chosen.
Variables (ticket : SendTicket) (balances : list AssetAmount) (active overlap : list Reservation).
Let value := sr_value (t_request ticket).
Let rid := t_record_id ticket.

(** A ceiling that fits the native domain beside the value it is paid with. *)
Definition representable (fee : N) : Prop :=
  fee <= NATIVE_MAX_UNITS /\ (asset_id value = Native -> units_of value + fee <= NATIVE_MAX_UNITS).

Definition ticket_rows (fee : N) : list Reservation :=
  match asset_id value with
  | Native => [mkReservation rid (NativeAmount (units_of value + fee)) Transfer]
  | CurrencyCollection _ => [mkReservation rid value Transfer; mkReservation rid (NativeAmount fee) NativeFee]
  end.

(** The balances pay for the transfer, this fee and everything else that is reserved. *)
Definition affords (fee : N) : Prop :=
  forall asset, units_for asset (r_amount <$> ticket_rows fee) + units_for asset (outstanding overlap active)
                <= units_for asset balances.

(** What is known of the ticket, the balances and the reservations when a fee is chosen. *)
Record inputs_ok : Prop := {
  io_value : in_domain value;
  io_balances : Forall in_domain balances;
  io_assets : NoDup (asset_id <$> balances);
  io_reserved : Forall in_domain (r_amount <$> active);
  io_active : NoDup active;
  io_overlap : NoDup overlap;
  io_subset row : row ∈ overlap -> row ∈ active
}.

Lemma representable_le f g : f <= g -> representable g -> representable f.
Proof. unfold representable. intros ? [? Hn]. split; [lia|]. intros Ha. specialize (Hn Ha). lia. Qed.

Lemma affords_le f g : f <= g -> affords g -> affords f.
Proof.
  intros Hle Hg asset. specialize (Hg asset). revert Hg. unfold ticket_rows.
  destruct (asset_id value); rewrite ?fmap_cons, ?fmap_nil; cbn [units_for foldr r_amount asset_id];
    repeat case_bool_decide; cbn [units_of]; lia.
Qed.

Lemma rows_of_ticket fee : in_domain value -> representable fee -> reservations_for_ticket ticket fee = Ok (ticket_rows fee).
Proof.
  intros Hv [Hf Hn]. unfold reservations_for_ticket, ticket_rows. fold value rid.
  rewrite (proj2 (amount_native_ok _ fee _) (conj eq_refl Hf)). cbn [rbind].
  destruct (asset_id value) as [|id] eqn:Ha; [|done].
  assert (Hadd : checked_add_same_asset value (NativeAmount fee) = Ok (NativeAmount (units_of value + fee))).
  { apply checked_add_exact; [done..|]. rewrite Ha. specialize (Hn eq_refl).
    destruct value; [|done]. cbn [set_units units_of in_domain] in *. done. }
  by rewrite Hadd.
Qed.

Lemma rows_in_domain fee : in_domain value -> representable fee ->
  Forall in_domain (r_amount <$> ticket_rows fee) /\ NoDup (asset_id <$> (r_amount <$> ticket_rows fee)).
Proof.
  intros Hv [Hf Hn]. unfold ticket_rows. destruct (asset_id value) as [|id] eqn:Ha.
  - split; [|apply NoDup_singleton]. repeat constructor. by apply Hn.
  - split; [by repeat constructor|]. rewrite !fmap_cons, fmap_nil. cbn [r_amount]. rewrite Ha.
    constructor; [|apply NoDup_singleton]. intros ?%list_elem_of_singleton. done.
Qed.

Lemma affordable_decides fee : inputs_ok -> representable fee ->
  (affords fee /\ affordable_ticket_reservations ticket balances active overlap fee = Ok (Some (ticket_rows fee)))
  \/ (~ affords fee /\ affordable_ticket_reservations ticket balances active overlap fee = Ok None).
Proof.
  intros Hin Hrep. destruct Hin as [Hv Hb Hnb Hr Hna Hno Hsub].
  unfold affordable_ticket_reservations. rewrite (rows_of_ticket _ Hv Hrep). cbn [rbind].
  destruct (rows_in_domain _ Hv Hrep) as [Hq Hnq].
  destruct (evaluate_affordability_report _ _ overlap _ Hb Hq Hr) as [(_ & _ & _ & report & _ & _ & Hrep' & _)|[Hno' _]].
  - pose proof (affordable_all_assets _ _ _ _ _ Hb Hq Hr Hrep') as Hiff. rewrite Hrep'. cbn [map_err rbind].
    fold (affords fee) in Hiff.
    destruct (is_affordable report); [left|right]; (split; [|done]); [by apply Hiff|]. intros Ha. by apply Hiff in Ha.
  - by destruct Hno'.
Qed.

(** A ceiling past which nothing is affordable. *)
Definition last_affordable (f : N) : Prop := affords f /\ ~ affords (f + 1).

Lemma bisect_finds fuel : forall low high, inputs_ok -> representable high -> low < high -> high - low <= 2 ^ N.of_nat fuel ->
  affords low -> ~ affords high ->
  exists f, bisect ticket balances active overlap fuel low (ticket_rows low) high = Ok (f, ticket_rows f)
    /\ low <= f < high /\ last_affordable f.
Proof.
  induction fuel as [|fuel IH]; intros low high Hin Hrep Hlt Hgap Hlow Hhigh; cbn [bisect].
  - change (2 ^ N.of_nat 0) with 1 in Hgap. destruct (N.ltb_spec (low + 1) high); [lia|].
    exists low. repeat split; [lia..|done|]. by replace (low + 1) with high by lia.
  - destruct (N.ltb_spec (low + 1) high) as [Hl|Hl].
    + rewrite Nat2N.inj_succ, N.pow_succ_r' in Hgap.
      set (mid := low + (high - low) / 2).
      assert (Hmid : low < mid < high /\ mid - low <= 2 ^ N.of_nat fuel /\ high - mid <= 2 ^ N.of_nat fuel).
      { unfold mid. pose proof (N.div_mod (high - low) 2 ltac:(done)) as Hd. pose proof (N.mod_lt (high - low) 2 ltac:(done)) as Hr.
        revert Hgap. generalize (2 ^ N.of_nat fuel). intros P Hgap.
        remember ((high - low) / 2) as half. remember ((high - low) mod 2) as r. clear Heqhalf Heqr mid. lia. }
      destruct Hmid as (Hm & Hml & Hmh).
      destruct (affordable_decides mid Hin (representable_le mid high ltac:(lia) Hrep)) as [[Hm' ->]|[Hm' ->]]; cbn [rbind].
      * destruct (IH mid high) as (f & -> & Hf & Hlast); [done|done|lia|lia|done|done|]. exists f. repeat split; [lia..|apply Hlast|apply Hlast].
      * destruct (IH low mid) as (f & -> & Hf & Hlast); [done|by apply (representable_le mid high ltac:(lia))|lia|lia|done|done|].
        exists f. repeat split; [lia..|apply Hlast|apply Hlast].
    + exists low. repeat split; [lia..|done|]. by replace (low + 1) with high by lia.
Qed.

(** The rows of a ceiling are the ones the journal accepts for it. *)
Lemma rows_are_accepted fee : in_domain value -> representable fee -> units_of value <> 0 -> fee <> 0 ->
  validate_reservations ticket fee (ticket_rows fee) = Ok tt.
Proof.
  intros Hv [Hf Hn] Hz Hfz. apply validate_reservations_exact; [done|]. unfold exact_reservations, ticket_rows. fold value rid.
  split; [done|]. destruct (asset_id value); [|done]. specialize (Hn eq_refl). repeat split; [done|lia].
Qed.

(** What is found to be affordable is, and it fits the native domain. *)
Lemma rows_fit fee rows : in_domain value -> reservations_for_ticket ticket fee = Ok rows -> representable fee.
Proof.
  unfold reservations_for_ticket, representable. fold value. intros Hv Hr. rinv Hr.
  all: apply (map_err_Ok (fun e : AmountError => e)) in Hm; apply amount_native_ok in Hm as [-> Hf].
  - split; [done|]. intros _. apply checked_add_exact in Hm0 as (_ & -> & Hd); [|done..].
    destruct value; [exact Hd|done].
  - done.
Qed.

Lemma found_affords fee rows : inputs_ok -> affordable_ticket_reservations ticket balances active overlap fee = Ok (Some rows) ->
  representable fee /\ affords fee /\ rows = ticket_rows fee.
Proof.
  intros Hin Ha. assert (Hrep : representable fee).
  { unfold affordable_ticket_reservations in Ha. rinv Ha. eapply rows_fit; [apply Hin|done]. }
  split; [done|]. destruct (affordable_decides fee Hin Hrep) as [[Hp E]|[_ E]]; rewrite E in Ha; [by injection Ha as <-|done].
Qed.

Lemma bisect_affordable fuel : forall low rows high fee found, low <= high ->
  affordable_ticket_reservations ticket balances active overlap low = Ok (Some rows) ->
  bisect ticket balances active overlap fuel low rows high = Ok (fee, found) ->
  low <= fee <= high /\ affordable_ticket_reservations ticket balances active overlap fee = Ok (Some found).
Proof.
  induction fuel as [|fuel IH]; intros low rows high fee found Hle Hlow; cbn [bisect]; destruct (N.ltb_spec (low + 1) high); try done.
  1,3: by intros [= <- <-].
  assert (Hm : low < low + (high - low) / 2 < high).
  { pose proof (N.Div0.div_lt_upper_bound (high - low) 2 (high - low)). pose proof (N.div_le_lower_bound (high - low) 2 1). lia. }
  destruct (affordable_ticket_reservations _ _ _ _ (low + (high - low) / 2)) as [[candidate|]| |] eqn:Hc; cbn [rbind]; [..|done|done].
  - intros Hb. destruct (IH _ _ high fee found ltac:(apply N.lt_le_incl, Hm) Hc Hb) as [? ?]. split; [lia|done].
  - intros Hb. destruct (IH low _ (low + (high - low) / 2) fee found ltac:(apply N.lt_le_incl, Hm) Hlow Hb) as [? ?]. split; [lia|done].
Qed.

(** A ceiling that is chosen is affordable, and its rows are those of the ticket. *)
Lemma chosen_ceiling exact desired fee rows : inputs_ok ->
  select_affordable_fee_ceiling ticket balances active overlap exact desired = Ok (fee, rows) ->
  exact <= fee <= desired /\ representable fee /\ affords fee /\ rows = ticket_rows fee.
Proof.
  intros Hin. unfold select_affordable_fee_ceiling, ensure_ticket_affordable. intros Hs.
  destruct (N.leb_spec exact desired); [|done].
  destruct (affordable_ticket_reservations _ _ _ _ exact) as [[first|]| |] eqn:He; cbn in Hs; [|done..].
  destruct (N.eqb_spec desired exact).
  { injection Hs as <- <-. split; [lia|by apply found_affords]. }
  destruct (affordable_ticket_reservations _ _ _ _ desired) as [[wanted|]| |] eqn:Hd; cbn in Hs; [| |done|done].
  { injection Hs as <- <-. split; [lia|by apply found_affords]. }
  destruct (bisect_affordable _ exact first desired fee rows ltac:(lia) He Hs) as [Hb Hf]. split; [done|by apply found_affords].
Qed.
End chosen.

(** C17: of the ceilings between the fee an emulation found and the one that is wanted, the
    largest the wallet can pay is chosen. For balances and
    reservations of their domains, without doubles ([typed_balances_wf] says that what the node
    reports is), and a wanted ceiling that fits the native domain beside the transfer, the search ends:
    it refuses for want of funds exactly when not even the exact fee is affordable; otherwise it
    gives a ceiling between the two which is affordable beside everything else that is reserved,
    while none above it, up to the wanted one, is, and the rows it gives are the ones the journal
    accepts for that transfer and that ceiling. *)
Theorem fee_ceiling_is_largest (ticket : SendTicket) (balances : list AssetAmount) (active overlap : list Reservation)
    (exact desired : N)
    (Hin : inputs_ok ticket balances active overlap) (Hrep : representable ticket desired) (Hle : exact <= desired)
    (Hvalue : units_of (sr_value (t_request ticket)) <> 0) (Hexact : exact <> 0) :
  let chosen := select_affordable_fee_ceiling ticket balances active overlap exact desired in
  let pays := affords ticket balances active overlap in
  (~ pays exact /\ chosen = Err INSUFFICIENT)
  \/ exists fee rows, chosen = Ok (fee, rows)
       /\ exact <= fee <= desired /\ pays fee /\ (forall more, fee < more <= desired -> ~ pays more)
       /\ validate_reservations ticket fee rows = Ok tt.
Proof.
  cbv zeta. pose proof (io_value _ _ _ _ Hin) as Hv.
  assert (Hex : representable ticket exact) by by eapply representable_le.
  unfold select_affordable_fee_ceiling, ensure_ticket_affordable. rewrite (proj2 (N.leb_le _ _) Hle).
  destruct (affordable_decides _ _ _ _ exact Hin Hex) as [[Ha ->]|[Ha ->]]; cbn [rbind ok_or]; [right|by left].
  destruct (N.eqb_spec desired exact) as [->|Hne].
  { exists exact, (ticket_rows ticket exact). repeat split; [lia|lia|done|lia|by apply rows_are_accepted]. }
  destruct (affordable_decides _ _ _ _ desired Hin Hrep) as [[Hd ->]|[Hd ->]]; cbn [rbind].
  { exists desired, (ticket_rows ticket desired). repeat split; [lia|lia|done|lia|apply rows_are_accepted; [done..|lia]]. }
  destruct (bisect_finds ticket balances active overlap (N.to_nat (N.size (desired - exact))) exact desired)
    as (fee & -> & Hf & Hpay & Hlast); [done|done|lia| |done|done|].
  { rewrite N2Nat.id. by apply N.lt_le_incl, N.size_gt. }
  exists fee, (ticket_rows ticket fee). repeat split; [lia|lia|done| |].
  - intros more Hm Hp. apply Hlast. apply (affords_le _ _ _ _ (fee + 1) more); [lia|done].
  - apply rows_are_accepted; [done|apply (representable_le _ fee desired); [lia|done]|done|lia].
Qed.

Definition demo_prepare_ticket : SendTicket := demo_ticket (pad32 []).

(** Five units and a fee of 100 to 500 out of 305: the ceiling is 300. *)
Lemma fee_ceiling_is_largest_witness :
  select_affordable_fee_ceiling demo_prepare_ticket [NativeAmount 305] [] [] 100 500
  = Ok (300, [mkReservation (pad32 []) (NativeAmount 305) Transfer])
  /\ forall more, 300 < more <= 500 -> ~ affords demo_prepare_ticket [NativeAmount 305] [] [] more.
Proof.
  assert (Hrun : select_affordable_fee_ceiling demo_prepare_ticket [NativeAmount 305] [] [] 100 500
                 = Ok (300, [mkReservation (pad32 []) (NativeAmount 305) Transfer])) by (vm_compute; reflexivity).
  split; [exact Hrun|].
  destruct (fee_ceiling_is_largest demo_prepare_ticket [NativeAmount 305] [] [] 100 500) as [[_ H]|(fee & rows & H & _ & _ & Hmore & _)].
  - split; [by vm_compute|repeat constructor; by vm_compute|apply NoDup_singleton|constructor|apply NoDup_nil_2|apply NoDup_nil_2|].
    intros row Hrow. exact Hrow.
  - split; [by vm_compute|]. by vm_compute.
  - by vm_compute.
  - by vm_compute.
  - by vm_compute.
  - rewrite Hrun in H. done.
  - rewrite Hrun in H. injection H as <- _. exact Hmore.
Defined.

(** ** The clock *)
(** A message is signed only when its expiry is ahead of the network by the margin at least, and
    by the lifetime and the margin at most. *)
Lemma signed_in_time now_mono now observed created_at_ms expire_at :
  now <= u32_max -> now = created_at_ms / 1000 ->
  validate_clock_skew now_mono now (Some observed) = Ok tt -> checked_expire_at created_at_ms DEFAULT_TTL_SECS = Ok expire_at ->
  ot_elapsed now_mono observed <= NETWORK_TIME_MAX_AGE_MS
  /\ ot_value observed + CLOCK_SKEW_MARGIN_SECS <= expire_at <= ot_value observed + CLOCK_SKEW_MARGIN_SECS + DEFAULT_TTL_SECS.
Proof.
  intros Hmax Hnow Hskew Hexp. unfold validate_clock_skew, checked_expire_at, saturating_add in *. rewrite <- Hnow in Hexp.
  destruct (N.ltb_spec NETWORK_TIME_MAX_AGE_MS (ot_elapsed now_mono observed)); [done|].
  destruct (N.ltb_spec (N.min u64_max (ot_value observed + CLOCK_SKEW_MARGIN_SECS)) now); [done|].
  destruct (N.ltb_spec (N.min u64_max (now + DEFAULT_TTL_SECS)) (ot_value observed + CLOCK_SKEW_MARGIN_SECS)); [done|].
  destruct (now <=? u32_max); [|done]. apply ok_or_Ok, checked_add_Some in Hexp as [-> Hb].
  unfold DEFAULT_TTL_SECS, CLOCK_SKEW_MARGIN_SECS, u64_max, u32_max in *. lia.
Qed.
