(* ===== verification/Transfers.v ===== *)
(** * The transfer a request becomes, and what the two sides read of it

    cc-wallet-tycho/src/everwallet.rs (the transfer and its builder), crypto.rs (the keys),
    encrypted_comment.rs (the shared secret), and [seal_comment], [build_transfer] and
    [open_conversation] of cc-wallet-chain/src/wallet_service.rs.  The curve, the cipher, the
    cells and the addresses are parameters. *)

From Stdlib Require Import NArith ZArith Lia.
From stdpp Require Import list.
From S2P Require Import Prelude Ord Bytes Text Decimal Ids Asset Amount Send VaultKeys.
From S2P Require Import ChainData AppState Comment Vault Prepare.

(** ed25519 and the Diffie-Hellman of its Montgomery form: a signing key, its public half as
    32 bytes, and the product of a point with a scalar as bytes. *)
Class CurveLib := {
  signing_key : Type;
  verifying_key : Type;
  public_of : signing_key -> verifying_key;
  verifying_to_bytes : verifying_key -> bytes32;
  verifying_from_bytes : bytes32 -> option verifying_key;
  times_scalar : verifying_key -> signing_key -> bytes32
}.

(** Public keys read back, and both sides of an exchange come to the same point. *)
Class CurveLaws `{CurveLib} : Prop := {
  public_reads_back k : verifying_from_bytes (verifying_to_bytes (public_of k)) = Some (public_of k);
  exchange_agrees a b : times_scalar (public_of b) a = times_scalar (public_of a) b
}.

(** [StdAddr::from_str] of tycho_types, tried where [from_str_ext] fails; and its [StateInit]. *)
Class MessageLib `{StdAddrLib} := {
  stdaddr_from_str : bytes -> res string (StdAddr Anycast);
  StateInit : Type
}.

(** ** Keys *)
Section keys.
Context `{CurveLib} `{VaultPrims}.

(** [KeyPair] is its signing key. *)
Definition public_key_bytes (keys : signing_key) : bytes32 := verifying_to_bytes (public_of keys).

Definition KEY_CONTEXT : bytes := bs "cc-wallet 2026 encrypted comment v1".
Definition shared_secret (my_scalar : signing_key) (their_key : verifying_key) : bytes32 :=
  blake3_derive_key KEY_CONTEXT (times_scalar their_key my_scalar).

Definition comment_secret_for (keys : signing_key) (their_key : bytes32) : res bytes bytes32 :=
  let? their_key := ok_or (verifying_from_bytes their_key) (bs "invalid ed25519 public key") in
  Ok (shared_secret keys their_key).
End keys.

(** ** The transfer *)
Definition DEFAULT_SEND_FLAGS : N := 3.
Definition SAFE_SEND_FLAGS : N := 1.
Definition MAX_EVER_EXTRA_CURRENCY_ID : N := 2147483647.

Section transfers.
Context `{MessageLib} `{CellLib}.

Definition parse_std_addr (address : bytes) : res bytes (StdAddr Anycast) :=
  let address := trim address in
  match from_str_ext address with
  | Ok addr => Ok addr
  | Panic => Panic
  | Err _ => map_err (fun _ => bs "invalid standard address `" ++ address ++ bs "`") (stdaddr_from_str address)
  end.

Record EverTransfer := mkTransfer {
  et_dest : StdAddr Anycast;
  et_native_amount : N;
  et_extra_currencies : btree N N;
  et_bounce : bool;
  et_flags : N;
  et_payload : option cell;
  et_dest_state_init : option StateInit
}.

(** [EverTransfer::new] of an address, and of a text. *)
Definition EverTransfer_to (dest : StdAddr Anycast) : EverTransfer :=
  mkTransfer dest 0 [] false DEFAULT_SEND_FLAGS None None.
Definition EverTransfer_new (dest : bytes) : res bytes EverTransfer :=
  let? dest := parse_std_addr dest in Ok (EverTransfer_to dest).

(** [Tokens::is_valid]: at most 2^120 - 1. *)
Definition transfer_native (t : EverTransfer) (amount : N) : res bytes EverTransfer :=
  check amount <=? NATIVE_MAX_UNITS else bs "native amount exceeds the protocol maximum (2^120 - 1)";;
  Ok (mkTransfer (et_dest t) amount (et_extra_currencies t) (et_bounce t) (et_flags t) (et_payload t) (et_dest_state_init t)).

(** [VarUint248::is_valid]: below 2^248. *)
Definition cc_var (t : EverTransfer) (cc_id amount : N) : res bytes EverTransfer :=
  check (1 <=? cc_id) && (cc_id <=? MAX_EVER_EXTRA_CURRENCY_ID)
    else bs "extra-currency id must be from 1 to 2147483647";;
  check amount <? CC_BOUND else bs "extra-currency amount exceeds VarUint248";;
  Ok (mkTransfer (et_dest t) (et_native_amount t) (bt_insert cc_id amount (et_extra_currencies t))
        (et_bounce t) (et_flags t) (et_payload t) (et_dest_state_init t)).

(** [VarUint248::from_words]; the slices panic on another length than 31. *)
Definition cc_be_bytes (t : EverTransfer) (cc_id : N) (amount : bytes) : res bytes EverTransfer :=
  if negb (length amount =? 31)%nat then Panic else
  let hi := of_be (Byte.x00 :: take 15 amount) in
  let lo := of_be (drop 15 amount) in
  cc_var t cc_id (N.lor (N.shiftl hi 128) lo).

Definition with_bounce (t : EverTransfer) (bounce : bool) : EverTransfer :=
  mkTransfer (et_dest t) (et_native_amount t) (et_extra_currencies t) bounce (et_flags t) (et_payload t) (et_dest_state_init t).
Definition with_flags (t : EverTransfer) (flags : N) : EverTransfer :=
  mkTransfer (et_dest t) (et_native_amount t) (et_extra_currencies t) (et_bounce t) flags (et_payload t) (et_dest_state_init t).
Definition with_payload (t : EverTransfer) (payload : cell) : EverTransfer :=
  mkTransfer (et_dest t) (et_native_amount t) (et_extra_currencies t) (et_bounce t) (et_flags t) (Some payload) (et_dest_state_init t).
Definition with_state_init (t : EverTransfer) (state_init : StateInit) : EverTransfer :=
  mkTransfer (et_dest t) (et_native_amount t) (et_extra_currencies t) (et_bounce t) (et_flags t) (et_payload t) (Some state_init).
End transfers.

(** ** wallet_service.rs *)
Section building.
Context `{CurveLib} `{VaultPrims} `{MessageLib} `{CellLib}.

Record CommentSeal := mkSeal { cs_keys : signing_key; cs_sender : bytes }.

Definition seal_comment (seal : CommentSeal) (recipient_key : bytes32) (request : SendRequest) (e : entropy)
  : res ChainError (cell * entropy) :=
  let? key := map_err ChainInvalidInput (comment_secret_for (cs_keys seal) recipient_key) in
  let aad := comment_aad (cs_sender seal) (sr_destination request) in
  let? (sealed, e) := map_err (fun error => ChainWallet (bs (VaultError_display error)))
                        (seal_record key aad (sr_comment request) e) in
  let? payload := map_err ChainInvalidInput
                    (encrypted_comment_payload (public_key_bytes (cs_keys seal)) sealed) in
  Ok (payload, e).

Definition comment_cell (request : SendRequest) (seal : option CommentSeal) (e : entropy)
  : res ChainError (cell * entropy) :=
  match sr_encrypt_to request, seal with
  | Some recipient, Some seal => seal_comment seal recipient request e
  | Some _, None => Err (ChainWallet (bs "this transfer asks for a sealed comment but carries no key to seal with"))
  | None, _ => let? payload := map_err ChainInvalidInput (comment_payload (sr_comment request)) in Ok (payload, e)
  end.

Definition carrying (transfer : EverTransfer) (value : AssetAmount) : res ChainError EverTransfer :=
  match asset_id value with
  | Native => let? units := expect (native_units value) in map_err ChainInvalidInput (transfer_native transfer units)
  | CurrencyCollection id =>
      map_err ChainInvalidInput (
        let? transfer := transfer_native transfer 0 in
        let? units := expect (cc_units value) in
        let? raw := rexpect (cc_to_be_bytes_31 units) in
        cc_be_bytes transfer id raw)
  end.

Definition build_transfer (request : SendRequest) (bounce : bool) (seal : option CommentSeal) (e : entropy)
  : res ChainError (EverTransfer * entropy) :=
  let? transfer := map_err ChainInvalidInput (EverTransfer_new (sr_destination request)) in
  let transfer := with_flags (with_bounce transfer bounce) SAFE_SEND_FLAGS in
  let? (transfer, e) :=
    if negb (bool_decide (sr_comment request = [])) then
      let? (payload, e) := comment_cell request seal e in Ok (with_payload transfer payload, e)
    else Ok (transfer, e) in
  let? transfer := carrying transfer (sr_value request) in
  Ok (transfer, e).

(** ** Reading a conversation *)
Record SealedComment := mkSealedComment { sc_outgoing : bool; sc_sender_key : bytes32; sc_blob : bytes }.

Definition opt_ok {E A} (r : res E A) : option A := match r with Ok a => Some a | _ => None end.

(** One comment, and the secrets derived so far. *)
Definition open_sealed (keys : signing_key) (outgoing_aad incoming_aad : bytes) (peer_key : option bytes32)
    (secrets : list (bytes32 * bytes32)) (comment : SealedComment)
  : option bytes * list (bytes32 * bytes32) :=
  match (if sc_outgoing comment then key ← peer_key; Some (key, outgoing_aad)
         else Some (sc_sender_key comment, incoming_aad)) with
  | None => (None, secrets)
  | Some (their_key, aad) =>
      let open secret :=
        plain ← opt_ok (open_record secret aad (sc_blob comment));
        if utf8_valid plain then Some plain else None in
      match find (fun row => bool_decide (fst row = their_key)) secrets with
      | Some (_, secret) => (open secret, secrets)
      | None =>
          match opt_ok (comment_secret_for keys their_key) with
          | None => (None, secrets)
          | Some secret => (open secret, secrets ++ [(their_key, secret)])
          end
      end
  end.

Fixpoint open_all (keys : signing_key) (outgoing_aad incoming_aad : bytes) (peer_key : option bytes32)
    (secrets : list (bytes32 * bytes32)) (sealed : list SealedComment) : list (option bytes) :=
  match sealed with
  | [] => []
  | comment :: sealed =>
      let (text, secrets) := open_sealed keys outgoing_aad incoming_aad peer_key secrets comment in
      text :: open_all keys outgoing_aad incoming_aad peer_key secrets sealed
  end.

(** [open_conversation], from the wallet's keys and address on. *)
Definition open_conversation (keys : signing_key) (me peer : bytes) (peer_key : option bytes32) (sealed : list SealedComment)
  : res ChainError (list (option bytes)) :=
  let? peer := map_err (fun error => ChainInvalidInput (WalletError_text error)) (canonicalize_recipient peer) in
  Ok (open_all keys (comment_aad me peer) (comment_aad peer me) peer_key [] sealed).
End building.

(** ** The cache of secrets changes nothing *)
Section conversations.
Context `{CurveLib} `{VaultPrims} `{StdAddrLib}.

(** What a comment opens to, deriving its secret anew. *)
Definition opens_to (keys : signing_key) (outgoing_aad incoming_aad : bytes) (peer_key : option bytes32)
    (comment : SealedComment) : option bytes :=
  '(their_key, aad) ← (if sc_outgoing comment then key ← peer_key; Some (key, outgoing_aad)
                       else Some (sc_sender_key comment, incoming_aad));
  secret ← opt_ok (comment_secret_for keys their_key);
  plain ← opt_ok (open_record secret aad (sc_blob comment));
  if utf8_valid plain then Some plain else None.

Definition secrets_of (keys : signing_key) (secrets : list (bytes32 * bytes32)) : Prop :=
  Forall (fun row => comment_secret_for keys (fst row) = Ok (snd row)) secrets.

Lemma open_sealed_spec keys oa ia pk secrets comment : secrets_of keys secrets ->
  exists secrets', open_sealed keys oa ia pk secrets comment = (opens_to keys oa ia pk comment, secrets')
    /\ secrets_of keys secrets'.
Proof.
  intros Hs. unfold open_sealed, opens_to.
  destruct (if sc_outgoing comment then _ else _) as [[their_key aad]|]; cbn; [|by eauto].
  destruct (find _ secrets) as [[k secret]|] eqn:Hf.
  - apply find_some in Hf as [Hin Hk]. apply bool_decide_eq_true in Hk. cbn in Hk. subst k.
    apply list_elem_of_In in Hin. pose proof (proj1 (Forall_forall _ _) Hs _ Hin) as Hk. cbn in Hk.
    rewrite Hk. cbn. by exists secrets.
  - destruct (comment_secret_for keys their_key) as [secret| |] eqn:Hk; cbn; [|by eauto..].
    eexists. split; [done|]. apply Forall_app. split; [done|]. by repeat constructor.
Qed.

Lemma open_all_spec keys oa ia pk sealed : forall secrets, secrets_of keys secrets ->
  open_all keys oa ia pk secrets sealed = opens_to keys oa ia pk <$> sealed.
Proof.
  induction sealed as [|comment sealed IH]; intros secrets Hs; [done|]. cbn [open_all].
  destruct (open_sealed_spec keys oa ia pk secrets comment Hs) as (secrets' & -> & Hs').
  by rewrite (IH _ Hs').
Qed.
End conversations.

(** ** What a transfer carries *)
Section carried.
Context `{CurveLaws} `{VaultPrimsLaws} `{StdAddrLaws} {messages : MessageLib} `{CellLaws}.

(** The amount, and nothing beside it. *)
Definition carries (t : EverTransfer) (value : AssetAmount) : Prop :=
  match value with
  | NativeAmount units => et_native_amount t = units /\ et_extra_currencies t = []
  | CcAssetAmount id units => et_native_amount t = 0 /\ et_extra_currencies t = [(id, cc_value units)]
  end.

Lemma words_value (amount : bytes) : length amount = 31%nat ->
  N.lor (N.shiftl (of_be (Byte.x00 :: take 15 amount)) 128) (of_be (drop 15 amount)) = of_be amount.
Proof.
  intros Hl. rewrite <- (take_drop 15 amount) at 3. rewrite of_be_app.
  change (Byte.x00 :: take 15 amount) with (repeat Byte.x00 1 ++ take 15 amount). rewrite of_be_zeros.
  assert (Hd : length (drop 15 amount) = 16%nat) by (rewrite length_drop; lia). rewrite Hd.
  pose proof (of_be_bound (drop 15 amount)) as Hb. rewrite Hd in Hb.
  change (256 ^ N.of_nat 16) with (2 ^ 128) in *.
  rewrite <- N.shiftl_mul_pow2. set (hi := of_be (take 15 amount)). set (lo := of_be (drop 15 amount)) in *.
  assert (Hdis : N.land (N.shiftl hi 128) lo = 0).
  { apply N.bits_inj. intros i. rewrite N.land_spec, N.bits_0. destruct (N.ltb_spec i 128) as [Hi|Hi].
    - by rewrite N.shiftl_spec_low.
    - rewrite (N.testbit_eqb lo), N.div_small; [by rewrite andb_false_r|].
      apply (N.lt_le_trans _ _ _ Hb). by apply N.pow_le_mono_r. }
  rewrite N.add_nocarry_lxor by done. by rewrite N.lxor_lor.
Qed.

(** An amount of an extra currency goes through its 31 bytes unchanged. *)
Lemma cc_bytes_carried (t : EverTransfer) (id : N) (units : CcAmount) :
  cc_value units < CC_BOUND -> is_sendable (CurrencyCollection id) = true ->
  exists raw, cc_to_be_bytes_31 units = Ok raw
    /\ cc_be_bytes t id raw = Ok (mkTransfer (et_dest t) (et_native_amount t) (bt_insert id (cc_value units) (et_extra_currencies t))
                                   (et_bounce t) (et_flags t) (et_payload t) (et_dest_state_init t)).
Proof.
  intros Hv Hs. assert (Hid : id = 1 \/ id = 2 \/ id = 3) by by apply is_known_cc_iff.
  destruct (cc_be_bytes_31_ok units Hv) as (raw & Hraw & Hl & Hr). exists raw. split; [done|].
  unfold cc_be_bytes. rewrite (proj2 (Nat.eqb_eq _ _) Hl). cbn [negb].
  rewrite words_value by done. assert (Hval : of_be raw = cc_value units) by (by rewrite <- Hr). rewrite Hval.
  unfold cc_var. rewrite (proj2 (N.ltb_lt _ _) Hv).
  assert (Hrange : (1 <=? id) && (id <=? MAX_EVER_EXTRA_CURRENCY_ID) = true) by by destruct Hid as [->|[->| ->]].
  by rewrite Hrange.
Qed.

Lemma carrying_exact (t : EverTransfer) (value : AssetAmount) :
  in_domain value -> is_sendable (asset_id value) = true -> et_extra_currencies t = [] ->
  exists t', carrying t value = Ok t' /\ carries t' value
    /\ et_dest t' = et_dest t /\ et_bounce t' = et_bounce t /\ et_flags t' = et_flags t /\ et_payload t' = et_payload t
    /\ et_dest_state_init t' = et_dest_state_init t.
Proof.
  intros Hv Hs He. unfold carrying, transfer_native. destruct value as [units|id units]; cbn [asset_id native_units cc_units expect rbind in_domain] in *.
  - rewrite (proj2 (N.leb_le _ _) Hv). cbn. eexists. split; [done|]. by rewrite He.
  - change (0 <=? NATIVE_MAX_UNITS) with true. cbn [rbind].
    destruct (cc_bytes_carried (mkTransfer (et_dest t) 0 (et_extra_currencies t) (et_bounce t) (et_flags t) (et_payload t) (et_dest_state_init t))
      id units Hv Hs) as (raw & -> & Hb). cbn [rexpect rbind]. rewrite Hb.
    eexists. split; [done|]. cbn. by rewrite He.
Qed.

(** What the checks of a request leave of it. *)
Lemma request_checked (r : SendRequest) : validate_chain_request r = Ok tt ->
  is_sendable (asset_id (sr_value r)) = true /\ canonicalize_recipient (sr_destination r) = Ok (sr_destination r)
  /\ exists addr, stdaddr_to_string addr = sr_destination r
       /\ EverTransfer_new (sr_destination r) = Ok (EverTransfer_to addr).
Proof.
  unfold validate_chain_request. destruct (canonicalize_recipient _) as [c| |] eqn:Hc; cbn [map_err rbind]; [|done..].
  case_bool_decide as Hd; cbn [negb]; [|done]. subst c. destruct (is_zero _); [done|]. intros Hk. split; [|split; [done|]].
  - revert Hk. unfold is_sendable. destruct (sr_value r) as [|id u]; [done|]. cbn [asset_id is_native orb].
    by destruct (is_known_cc (CurrencyCollection id)).
  - destruct (canonicalize_Ok _ _ Hc) as (w & h & Hw & Hr & Hp). exists (mkStdAddr None w h).
    unfold EverTransfer_new, parse_std_addr. rewrite Hp. split; [|done]. rewrite to_string_raw; [done|lia].
Qed.

(** The payload put aside, a checked request always becomes the transfer it asks for. *)
Definition payload_of (r : SendRequest) (seal : option CommentSeal) (e : entropy) (payload : option cell) (e' : entropy) : Prop :=
  sr_comment r = [] /\ payload = None /\ e' = e
  \/ sr_comment r <> [] /\ exists c, payload = Some c /\ comment_cell r seal e = Ok (c, e').

Lemma built_transfer (r : SendRequest) bounce seal e payload e' :
  validate_chain_request r = Ok tt -> in_domain (sr_value r) -> payload_of r seal e payload e' ->
  exists t, build_transfer r bounce seal e = Ok (t, e')
    /\ carries t (sr_value r) /\ stdaddr_to_string (et_dest t) = sr_destination r
    /\ et_bounce t = bounce /\ et_flags t = SAFE_SEND_FLAGS /\ et_payload t = payload /\ et_dest_state_init t = None.
Proof.
  intros Hr Hv Hp. destruct (request_checked r Hr) as (Hs & Hc & addr & Hd & Hnew).
  unfold build_transfer. rewrite Hnew. cbn [map_err rbind].
  destruct Hp as [(Hz & -> & ->)|(Hz & c & -> & Hcell)].
  - rewrite (bool_decide_eq_true_2 _ Hz). cbn [negb rbind].
    edestruct carrying_exact as (t' & -> & Hcar & Hdest & Hb & Hf & Hpay & Hinit); [done..|].
    exists t'. cbn [rbind]. rewrite Hdest, Hb, Hf, Hpay, Hinit. done.
  - rewrite (bool_decide_eq_false_2 _ Hz), Hcell. cbn [negb rbind].
    edestruct carrying_exact as (t' & -> & Hcar & Hdest & Hb & Hf & Hpay & Hinit); [done..|].
    exists t'. cbn [rbind]. rewrite Hdest, Hb, Hf, Hpay, Hinit. done.
Qed.

(** The message carries what was asked for. A checked request whose comment is text within
    the limit always becomes a transfer; it goes to the request's address, carries exactly its
    amount, in the native coin or in one extra currency and none of the other, has the bounce
    flag it was given and the flags of a plain transfer; and its payload reads back as the
    comment, with no payload where there is none. *)
Lemma transfer_carries_the_request (r : SendRequest) (bounce : bool) (seal : option CommentSeal) (e : entropy)
    (Hr : validate_chain_request r = Ok tt) (Hv : in_domain (sr_value r)) (Hplain : sr_encrypt_to r = None)
    (Htext : utf8_valid (sr_comment r) = true) (Hlen : (length (sr_comment r) <= Comment.MAX_COMMENT_BYTES)%nat) :
  exists t, build_transfer r bounce seal e = Ok (t, e)
    /\ carries t (sr_value r) /\ stdaddr_to_string (et_dest t) = sr_destination r
    /\ et_bounce t = bounce /\ et_flags t = SAFE_SEND_FLAGS
    /\ (et_payload t ≫= read_comment) = (if bool_decide (sr_comment r = []) then None else Some (sr_comment r)).
Proof.
  destruct (comment_roundtrip (sr_comment r) Htext Hlen) as (c & Hc & Hread).
  case_bool_decide as Hz.
  - destruct (built_transfer r bounce seal e None e Hr Hv) as (t & -> & M1 & M2 & M3 & M4 & M5 & _); [by left|].
    exists t. by rewrite M5.
  - destruct (built_transfer r bounce seal e (Some c) e Hr Hv) as (t & -> & M1 & M2 & M3 & M4 & M5 & _).
    + right. split; [done|]. exists c. split; [done|]. unfold comment_cell. by rewrite Hplain, Hc.
    + exists t. by rewrite M5.
Qed.

(** C16: a sealed comment is read by the two sides. With entropy for a nonce, a checked request
    for a comment sealed to a public key always becomes a transfer; what is on the chain reads
    as no comment, and is a sealed one that names the sender's key; and both the wallet with the
    recipient's key and the sender's own, each opening it in the conversation with the other's
    address, read the comment that was written. *)
Theorem sealed_comment_reaches_both (a b : signing_key) (sender : bytes) (r : SendRequest) (bounce : bool) (e : entropy)
    (Hr : validate_chain_request r = Ok tt) (Hv : in_domain (sr_value r)) (Hsender : canonicalize_recipient sender = Ok sender)
    (Hto : sr_encrypt_to r = Some (public_key_bytes b)) (Hsome : sr_comment r <> [])
    (Htext : utf8_valid (sr_comment r) = true) (Hlen : (length (sr_comment r) <= Comment.MAX_ENCRYPTED_COMMENT_BYTES)%nat)
    (Hentropy : (NONCE_LEN <= length e)%nat)
    (Hcipher : forall key nonce aad, is_Some (xchacha_encrypt key nonce aad (sr_comment r))) :
  exists t e' c sealed, build_transfer r bounce (Some (mkSeal a sender)) e = Ok (t, e')
    /\ carries t (sr_value r) /\ stdaddr_to_string (et_dest t) = sr_destination r
    /\ et_payload t = Some c /\ read_comment c = None
    /\ parse_encrypted_comment c = Ok (Some (mkEncrypted (as_bytes (public_key_bytes a)) sealed))
    /\ (forall known, open_conversation b (sr_destination r) sender known [mkSealedComment false (public_key_bytes a) sealed]
                      = Ok [Some (sr_comment r)])
    /\ (forall key, open_conversation a sender (sr_destination r) (Some (public_key_bytes b)) [mkSealedComment true key sealed]
                    = Ok [Some (sr_comment r)]).
Proof.
  set (secret := shared_secret a (public_of b)).
  assert (Hab : comment_secret_for a (public_key_bytes b) = Ok secret)
    by (unfold comment_secret_for, public_key_bytes; by rewrite public_reads_back).
  assert (Hba : comment_secret_for b (public_key_bytes a) = Ok secret)
    by (unfold comment_secret_for, public_key_bytes, secret, shared_secret; rewrite public_reads_back; cbn; by rewrite exchange_agrees).
  set (aad := comment_aad sender (sr_destination r)).
  destruct (Hcipher secret (take NONCE_LEN e) aad) as [ct Hct].
  set (sealed := take NONCE_LEN e ++ ct).
  assert (Hseal : seal_record secret aad (sr_comment r) e = Ok (sealed, drop NONCE_LEN e)).
  { unfold seal_record, aead_seal, draw. rewrite (proj2 (Nat.leb_le _ _) Hentropy). cbn [rbind]. by rewrite Hct. }
  destruct (aead_seal_open _ _ _ _ _ _ (Corrupt "this record was not written by this wallet") Hseal) as [Hopen Hblob].
  destruct (sealed_comment_roundtrip (public_key_bytes a) sealed) as (c & Hc & Hparse & Hnone).
  { rewrite Hblob. unfold Comment.SEAL_OVERHEAD_BYTES, NONCE_LEN, TAG_LEN. lia. }
  { rewrite Hblob. revert Hlen. unfold Comment.MAX_ENCRYPTED_COMMENT_BYTES, Comment.SEAL_OVERHEAD_BYTES, NONCE_LEN, TAG_LEN, Comment.ENCRYPTED_PREFIX_BYTES, Comment.MAX_COMMENT_BYTES. lia. }
  destruct (request_checked r Hr) as (_ & Hdest & _).
  destruct (built_transfer r bounce (Some (mkSeal a sender)) e (Some c) (drop NONCE_LEN e) Hr Hv) as (t & Hb & M1 & M2 & _ & _ & M3 & _).
  { right. split; [done|]. exists c. split; [done|]. unfold comment_cell, seal_comment. rewrite Hto. cbn [cs_keys cs_sender].
    rewrite Hab. cbn [map_err rbind]. fold aad. rewrite Hseal. cbn [map_err rbind]. by rewrite Hc. }
  exists t, (drop NONCE_LEN e), c, sealed. repeat (split; [done|]). split.
  - intros known. unfold open_conversation. rewrite Hsender. cbn [map_err rbind].
    rewrite open_all_spec by constructor. cbn [fmap list_fmap]. unfold opens_to. cbn [sc_outgoing sc_sender_key sc_blob mbind option_bind].
    rewrite Hba. cbn [opt_ok mbind option_bind]. unfold open_record. fold aad. rewrite Hopen. cbn [opt_ok mbind option_bind]. by rewrite Htext.
  - intros key. unfold open_conversation. rewrite Hdest. cbn [map_err rbind].
    rewrite open_all_spec by constructor. cbn [fmap list_fmap]. unfold opens_to. cbn [sc_outgoing sc_sender_key sc_blob mbind option_bind].
    rewrite Hab. cbn [opt_ok mbind option_bind]. unfold open_record. fold aad. rewrite Hopen. cbn [opt_ok mbind option_bind]. by rewrite Htext.
Qed.
End carried.

(** ** A concrete curve *)
Definition toy_curve : CurveLib := {|
  signing_key := bytes32; verifying_key := bytes32;
  public_of k := k; verifying_to_bytes v := v; verifying_from_bytes := Some;
  times_scalar v k := pad32 (be_bytes 32 (of_be (as_bytes v) + of_be (as_bytes k)))
|}.
Lemma toy_curve_laws : @CurveLaws toy_curve.
Proof. split; [done|]. intros a b. cbn [times_scalar public_of toy_curve]. by rewrite N.add_comm. Qed.
Definition toy_messages : @MessageLib toy_stdaddr :=
  {| stdaddr_from_str _ := Err "not workchain:hash"; StateInit := unit |}.

Definition demo_sealed_request : SendRequest := mkSendRequest demo_dest (NativeAmount 5) (bs "hello") (Some (pad32 [Byte.x0b])).

Lemma transfer_carries_the_request_witness :
  exists t, @build_transfer toy_curve toy_prims toy_stdaddr toy_messages toy_cells (mkSendRequest demo_dest (NativeAmount 5) (bs "hello") None)
              true None [] = Ok (t, [])
    /\ @carries toy_stdaddr toy_messages toy_cells t (NativeAmount 5).
Proof.
  destruct (@transfer_carries_the_request toy_curve toy_prims toy_stdaddr toy_stdaddr_laws toy_messages toy_cells toy_cell_laws
    (mkSendRequest demo_dest (NativeAmount 5) (bs "hello") None) true None []) as (t & Hb & Hc & _);
    [by vm_compute|by vm_compute|done|by vm_compute|vm_compute; lia|].
  exists t. split; [exact Hb|exact Hc].
Defined.

Lemma sealed_comment_reaches_both_witness :
  exists t e' c sealed,
    @build_transfer toy_curve toy_prims toy_stdaddr toy_messages toy_cells demo_sealed_request true
      (Some (@mkSeal toy_curve (pad32 [Byte.x0a]) demo_dest)) (repeat Byte.x01 30) = Ok (t, e')
    /\ @et_payload toy_stdaddr toy_messages toy_cells t = Some c
    /\ @open_conversation toy_curve toy_prims toy_stdaddr (pad32 [Byte.x0b]) demo_dest demo_dest None
         [mkSealedComment false (pad32 [Byte.x0a]) sealed] = Ok [Some (bs "hello")].
Proof.
  destruct (@sealed_comment_reaches_both toy_curve toy_curve_laws toy_prims toy_prims_laws toy_stdaddr toy_stdaddr_laws
    toy_messages toy_cells toy_cell_laws (pad32 [Byte.x0a]) (pad32 [Byte.x0b]) demo_dest demo_sealed_request true
    (repeat Byte.x01 30)) as (t & e' & c & sealed & Hb & _ & _ & Hp & _ & _ & Ho & _);
    [by vm_compute|by vm_compute|by vm_compute|done|done|by vm_compute|vm_compute; lia|vm_compute; lia|eexists; reflexivity|].
  exists t, e', c, sealed. split; [exact Hb|]. split; [exact Hp|exact (Ho None)].
Defined.
