(* ===== verification/Keyring.v ===== *)
(** * The signing keys of a session, and the jobs that run beside it

    [TychoWalletService] of cc-wallet-chain/src/wallet_service.rs keeps the keys it derived in
    a cache behind a mutex; a seal, an atomic flag, says that the wallet is locked.  Calls run
    on several threads, so a call is a program of steps here and the threads interleave
    between them.  Also the set of running fee emulations, one for each wallet and endpoint,
    and the derivation of the keys in cc-wallet-tycho/src/crypto.rs. *)

From Stdlib Require Import NArith ZArith Lia.
From stdpp Require Import gmap relations.
From S2P Require Import Prelude Ord Bytes Text Decimal Ids Asset Amount Profile Fs ChainData Names Prepare.

(** ** crypto.rs *)

(** bip39 and the derivation of ed25519 keys along a path. *)
Class SeedLib := {
  mnemonic : Type;
  parse_mnemonic : bytes -> option mnemonic;
  to_seed : mnemonic -> bytes -> bytes;
  derivation : Type;
  parse_derivation : bytes -> option derivation;
  derive_from_path : bytes -> derivation -> option bytes32;
  blake3_hash : bytes -> bytes32
}.

Section derivation.
Context `{SeedLib}.

Definition INVALID_SEED : bytes := bs "invalid seed phrase".
Definition DERIVATION_FAILED : bytes := bs "failed to derive key from seed phrase".

Definition derivation_path (index : N) : bytes := bs "m/44'/396'/0'/0/" ++ print_dec index.

(** The secret of the key pair. *)
Definition from_seed_with_path (seed path : bytes) : res bytes bytes32 :=
  let? m := ok_or (parse_mnemonic (trim seed)) INVALID_SEED in
  let seed := to_seed m [] in
  let? path := ok_or (parse_derivation path) DERIVATION_FAILED in
  ok_or (derive_from_path seed path) DERIVATION_FAILED.
Definition from_seed_with_index (seed : bytes) (index : N) : res bytes bytes32 :=
  from_seed_with_path seed (derivation_path index).
Definition from_seed (seed : bytes) : res bytes bytes32 := from_seed_with_index seed 0.

Definition Seed_parse (phrase : bytes) : res bytes bytes :=
  let phrase := trim phrase in
  let? _ := ok_or (parse_mnemonic phrase) INVALID_SEED in Ok phrase.

Definition validate_seed_phrase (seed : bytes) : res ChainError unit :=
  let seed := normalize_seed seed in
  let? _ := map_err (fun error => ChainInvalidInput (WalletError_text error)) (validate_seed seed) in
  let? _ := map_err ChainWallet (Seed_parse seed) in
  Ok tt.

(** [str::split(' ')] gives the empty pieces between two spaces, at the ends too. *)
Definition normalize_and_validate_inputs (inputs : WalletInputs) : res ChainError bytes :=
  let? _ := map_err (fun error => ChainInvalidInput (WalletError_text error)) (validate_workchain (wi_workchain inputs)) in
  let seed := wi_seed inputs in
  if negb (bool_decide (trim seed = seed))
     || existsb (fun piece => bool_decide (piece = [])) (split_on Byte.x20 seed)
     || existsb (fun c => is_whitespace c && negb (bool_decide (c = [Byte.x20]))) (chars seed)
  then Err (ChainInvalidInput (bs "wallet seed owner is not in canonical single-space form")) else
  let? _ := validate_seed_phrase seed in
  Ok seed.

(** ** The cache of the keys *)
Definition locked_keys_error : ChainError := ChainWallet (bs "the wallet is locked; signing keys are unavailable").

(** Where a call of [keypair_for] stands; at [Recheck] and [Store] it holds the mutex of the
    cache. *)
Inductive Call :=
| Enter (seed : bytes)
| Look (seed : bytes)
| Derive (seed : bytes)
| Take (digest : bytes32) (keys : bytes32)
| Recheck (digest : bytes32) (keys : bytes32)
| Store (digest : bytes32) (keys : bytes32)
| Return (result : res ChainError bytes32).

Definition holds_mutex (c : Call) : bool := match c with Recheck _ _ | Store _ _ => true | _ => false end.

Record Keyring := mkKeyring {
  kr_sealed : bool;
  kr_cache : gmap bytes bytes32;
  kr_mutex : option nat;
  kr_calls : gmap nat Call
}.

Definition Keyring_default : Keyring := mkKeyring false ∅ None ∅.

Definition set_call (t : nat) (c : Call) (k : Keyring) : Keyring :=
  mkKeyring (kr_sealed k) (kr_cache k) (kr_mutex k) (<[t := c]> (kr_calls k)).
Definition with_mutex (m : option nat) (k : Keyring) : Keyring :=
  mkKeyring (kr_sealed k) (kr_cache k) m (kr_calls k).
Definition with_cache (cache : gmap bytes bytes32) (k : Keyring) : Keyring :=
  mkKeyring (kr_sealed k) cache (kr_mutex k) (kr_calls k).

(** The next step of the call of a thread; [None] where it waits for the mutex or is over.
    The cache's key is the digest of the seed. *)
Definition keypair_step (t : nat) (k : Keyring) : option Keyring :=
  match kr_calls k !! t with
  | Some (Enter seed) =>
      Some (set_call t (if kr_sealed k then Return (Err locked_keys_error) else Look seed) k)
  | Some (Look seed) =>
      match kr_mutex k with
      | Some _ => None
      | None => Some (set_call t (match kr_cache k !! as_bytes (blake3_hash seed) with
                                  | Some keys => Return (Ok keys)
                                  | None => Derive seed
                                  end) k)
      end
  | Some (Derive seed) =>
      Some (set_call t (match map_err ChainWallet (from_seed seed) with
                        | Ok keys => Take (blake3_hash seed) keys
                        | Err error => Return (Err error)
                        | Panic => Return Panic
                        end) k)
  | Some (Take digest keys) =>
      match kr_mutex k with
      | Some _ => None
      | None => Some (with_mutex (Some t) (set_call t (Recheck digest keys) k))
      end
  | Some (Recheck digest keys) =>
      Some (if kr_sealed k then with_mutex None (set_call t (Return (Err locked_keys_error)) k)
            else set_call t (Store digest keys) k)
  | Some (Store digest keys) =>
      Some (with_mutex None (set_call t (Return (Ok keys)) (with_cache (<[as_bytes digest := keys]> (kr_cache k)) k)))
  | Some (Return _) | None => None
  end.

Definition seal_key_ops (k : Keyring) : Keyring := mkKeyring true (kr_cache k) (kr_mutex k) (kr_calls k).
Definition unseal_key_ops (k : Keyring) : Keyring := mkKeyring false (kr_cache k) (kr_mutex k) (kr_calls k).
(** The clearing of the keys in [clear_config_cache], which waits for the mutex. *)
Definition clear_key_cache (k : Keyring) : option Keyring :=
  match kr_mutex k with Some _ => None | None => Some (with_cache ∅ k) end.

(** What any thread may do next; a new call takes a thread of its own. *)
Inductive key_step : Keyring -> Keyring -> Prop :=
| key_called t seed k : kr_calls k !! t = None -> key_step k (set_call t (Enter seed) k)
| key_runs t k k' : keypair_step t k = Some k' -> key_step k k'
| key_cleared k k' : clear_key_cache k = Some k' -> key_step k k'
| key_sealed k : key_step k (seal_key_ops k).

Inductive any_step : Keyring -> Keyring -> Prop :=
| any_key k k' : key_step k k' -> any_step k k'
| any_unsealed k : any_step k (unseal_key_ops k).
End derivation.

(** ** The running emulations *)
Definition EmulationJobs := gset bytes.
Definition ALREADY_RUNNING : ChainError := ChainWallet (bs "a fee emulation is already running for this wallet and endpoint").
Definition NOT_FINISHED : ChainError :=
  ChainWallet (bs "the previous fee calculation did not finish in time; please send again").

(** A guard is the key it removes when it is dropped. *)
Definition acquire (active : EmulationJobs) (key : bytes) : EmulationJobs * res ChainError bytes :=
  if bool_decide (key ∈ active) then (active, Err ALREADY_RUNNING) else ({[key]} ∪ active, Ok key).
(** From the jobs as they are when the wait ends, by a change or by the timeout. *)
Definition acquire_wait (active : EmulationJobs) (key : bytes) : EmulationJobs * res ChainError bytes :=
  if bool_decide (key ∈ active) then (active, Err NOT_FINISHED) else ({[key]} ∪ active, Ok key).
Definition drop_guard (active : EmulationJobs) (key : bytes) : EmulationJobs := active ∖ {[key]}.
Definition wait_empty (active : EmulationJobs) : bool := bool_decide (active = ∅).

(** The jobs with the guards that are alive. *)
Inductive job_step : EmulationJobs * list bytes -> EmulationJobs * list bytes -> Prop :=
| job_acquired active active' guards key :
    acquire active key = (active', Ok key) -> job_step (active, guards) (active', key :: guards)
| job_waited active active' guards key :
    acquire_wait active key = (active', Ok key) -> job_step (active, guards) (active', key :: guards)
| job_dropped active before key after :
    job_step (active, before ++ key :: after) (drop_guard active key, before ++ after).

(** ** What is kept while the wallet is locked *)
Lemma rtc_kept {A} (R : relation A) (P : A -> Prop) x y :
  P x -> (forall a b, P a -> R a b -> P b) -> rtc R x y -> P y.
Proof. intros Hx Hstep Hxy. revert Hx. induction Hxy; eauto. Qed.

Section sealing.
Context `{SeedLib}.

(** Only one thread is past the mutex. *)
Definition mutex_held (k : Keyring) : Prop :=
  forall t c, kr_calls k !! t = Some c -> holds_mutex c = true -> kr_mutex k = Some t.

(** What a key is cached under is the digest of a seed it derives from. *)
Definition derived (digest keys : bytes32) : Prop := exists seed, digest = blake3_hash seed /\ from_seed seed = Ok keys.
Definition call_derived (c : Call) : Prop :=
  match c with Take d keys | Recheck d keys | Store d keys => derived d keys | _ => True end.

(** Locked, with nothing kept and no call that would still keep something. *)
Record quiet (k : Keyring) : Prop := {
  q_sealed : kr_sealed k = true;
  q_empty : kr_cache k = ∅;
  q_calls t c : kr_calls k !! t = Some c -> match c with Store _ _ => False | _ => True end
}.

Lemma lookup_set {t t' : nat} {c c' : Call} {m : gmap nat Call} :
  <[t := c]> m !! t' = Some c' -> t' = t /\ c' = c \/ t' <> t /\ m !! t' = Some c'.
Proof. intros Hl. apply lookup_insert_Some in Hl as [[-> ->]|[? ?]]; auto. Qed.

Lemma keypair_step_mutex t k k' : mutex_held k -> keypair_step t k = Some k' -> mutex_held k'.
Proof.
  intros Hm. unfold keypair_step. destruct (kr_calls k !! t) as [c|] eqn:Hc; [|done].
  destruct c as [seed|seed|seed|d keys|d keys|d keys|r]; try done; try destruct (kr_mutex k) as [u|] eqn:Hk; try done;
    intros [= <-]; unfold set_call, with_mutex, with_cache; try case_match;
    intros t' c' [[-> ->]|[Hne Hl]]%lookup_set Hh; cbn in *; try done;
    first [by eapply Hm | pose proof (Hm _ _ Hl Hh); congruence
          | pose proof (Hm _ _ Hc eq_refl); pose proof (Hm _ _ Hl Hh); congruence].
Qed.

Lemma any_step_mutex k k' : mutex_held k -> any_step k k' -> mutex_held k'.
Proof.
  intros Hm Hstep. revert Hm. destruct Hstep as [j j' [i t seed Hfree|u i i' Hs|i i' Hs|i]|j]; intros Hm; [| | |exact Hm|exact Hm].
  - intros t' c' [[-> ->]|[_ Hl]]%lookup_set Hh; [done|by apply (Hm _ c')].
  - by eapply keypair_step_mutex.
  - unfold clear_key_cache in Hs. destruct (kr_mutex i) eqn:Hk; [done|]. injection Hs as <-. exact Hm.
Qed.

Lemma cleared_quiet k k' : mutex_held k -> kr_sealed k = true -> clear_key_cache k = Some k' -> quiet k'.
Proof.
  intros Hm Hs. unfold clear_key_cache. destruct (kr_mutex k) eqn:Hk; [done|]. intros [= <-]. split; [done..|].
  intros t c Hc. cbn in Hc. destruct c; try done. specialize (Hm _ _ Hc eq_refl). congruence.
Qed.

Lemma key_step_quiet k k' : quiet k -> key_step k k' -> quiet k'.
Proof.
  intros Hq Hstep. revert Hq. destruct Hstep as [i t seed Hfree|t i i' Hs|i i' Hs|i]; intros Hq; destruct Hq as [Hsealed Hempty Hcalls].
  - split; [done..|]. intros t' c' [[-> ->]|[_ Hl]]%lookup_set; [done|by apply (Hcalls t')].
  - unfold keypair_step in Hs. destruct (kr_calls i !! t) as [c|] eqn:Hc; [|done]. pose proof (Hcalls _ _ Hc) as Hst.
    destruct c as [seed|seed|seed|d keys|d keys|d keys|r]; try done; rewrite ?Hsealed in Hs;
      try (destruct (kr_mutex i); [done|]); injection Hs as <-; (split; [done..|]);
      intros t' c' [[-> ->]|[_ Hl]]%lookup_set; try by apply (Hcalls t').
    all: by repeat case_match.
  - unfold clear_key_cache in Hs. case_match; [done|]. injection Hs as <-. by split.
  - by split.
Qed.

(** C18: keys do not outlive the lock. However the calls of all threads interleave, once the
    keys were cleared while the seal was set, the cache stays empty until the seal is taken off:
    a call that derived a key before, or while, the wallet was being locked is refused when it
    comes to keep it; and every call that begins then ends at once with the error that the
    wallet is locked. *)
Theorem keys_do_not_outlive_the_lock (k k1 k2 : Keyring)
    (Hreach : rtc any_step Keyring_default k) (Hsealed : kr_sealed k = true)
    (Hclear : clear_key_cache k = Some k1) (Hthen : rtc key_step k1 k2) :
  kr_cache k2 = ∅
  /\ forall t seed, kr_calls k2 !! t = Some (Enter seed) ->
       keypair_step t k2 = Some (set_call t (Return (Err locked_keys_error)) k2).
Proof.
  assert (Hm : mutex_held k) by (apply (rtc_kept any_step mutex_held Keyring_default); [intros t c Hc; cbn [kr_calls Keyring_default] in Hc; by rewrite lookup_empty in Hc|intros ? ? ? ?; by eapply any_step_mutex|done]).
  assert (Hq : quiet k2) by (apply (rtc_kept key_step quiet k1); [by eapply cleared_quiet|intros ? ? ? ?; by eapply key_step_quiet|done]).
  split; [apply Hq|]. intros t seed Hc. unfold keypair_step. by rewrite Hc, (q_sealed _ Hq).
Qed.

(** What a call returned was derived from a seed of the digest asked for, cached or not. *)
Definition returns_derived (k : Keyring) : Prop :=
  (forall d keys, kr_cache k !! d = Some keys -> exists digest, d = as_bytes digest /\ derived digest keys)
  /\ forall t c, kr_calls k !! t = Some c -> call_derived c.

Lemma any_step_derived k k' : returns_derived k -> any_step k k' -> returns_derived k'.
Proof.
  intros Hd Hstep. revert Hd. destruct Hstep as [j j' [i t seed Hfree|t i i' Hs|i i' Hs|i]|j]; intros [Hcache Hcalls]; [| | |by split..].
  - split; [done|]. intros t' c' [[-> ->]|[_ Hl]]%lookup_set; [done|by eapply Hcalls].
  - unfold keypair_step in Hs. destruct (kr_calls i !! t) as [c|] eqn:Hc; [|done]. pose proof (Hcalls _ _ Hc) as Hst.
    destruct c as [seed|seed|seed|d keys|d keys|d keys|r]; try done;
      try (destruct (kr_mutex i); [done|]); try destruct (kr_sealed i); injection Hs as <-; split; try done;
      try (intros t' c' [[-> ->]|[_ Hl]]%lookup_set; [|by eapply Hcalls]); try done.
    all: try by case_match.
    all: try (destruct (from_seed seed) as [keys| |] eqn:Hf; cbn; [by eexists|done..]).
    all: intros d' keys' Hl; cbn in Hl; apply lookup_insert_Some in Hl as [[<- <-]|[_ Hl]]; [by exists d|by apply Hcache].
  - unfold clear_key_cache in Hs. case_match; [done|]. injection Hs as <-. split; [|done]. intros d keys Hl. cbn in Hl. by rewrite lookup_empty in Hl.
Qed.
End sealing.

(** ** One emulation at a time *)
Definition jobs_match (s : EmulationJobs * list bytes) : Prop := NoDup (snd s) /\ forall key, key ∈ fst s <-> key ∈ snd s.

Lemma job_step_match s s' : jobs_match s -> job_step s s' -> jobs_match s'.
Proof.
  intros Hm Hstep. revert Hm. destruct Hstep as [active active' guards key Ha|active active' guards key Ha|active before key after]; intros [Hnd Hiff]; cbn in *.
  - unfold acquire in Ha. case_bool_decide as Hin; [done|]. injection Ha as <-. split; cbn; [constructor; [by rewrite <- Hiff|done]|set_solver].
  - unfold acquire_wait in Ha. case_bool_decide as Hin; [done|]. injection Ha as <-. split; cbn; [constructor; [by rewrite <- Hiff|done]|set_solver].
  - rewrite <- Permutation_middle in Hnd. apply NoDup_cons in Hnd as [Hout Hnd]. split; [done|]. cbn. intros key'.
    unfold drop_guard. rewrite elem_of_difference, elem_of_singleton, Hiff, !elem_of_app, elem_of_cons. rewrite elem_of_app in Hout.
    destruct (decide (key' = key)) as [->|]; tauto.
Qed.

(** Of one wallet and endpoint at most one emulation runs, and the service is drained exactly
    when none runs at all. *)
Lemma one_emulation_at_a_time (active : EmulationJobs) (guards : list bytes) (Hreach : rtc job_step (∅, []) (active, guards)) :
  NoDup guards /\ (forall key, key ∈ active <-> key ∈ guards) /\ (wait_empty active = true <-> guards = []).
Proof.
  assert (Hm : jobs_match (active, guards)).
  { apply (rtc_kept job_step jobs_match (∅, [])); [|intros ? ? ? ?; by eapply job_step_match|done]. split; [apply NoDup_nil_2|]. cbn. set_solver. }
  destruct Hm as [Hnd Hiff]. split; [done|]. split; [done|]. cbn in *. unfold wait_empty. rewrite bool_decide_eq_true. split.
  - intros ->. destruct guards as [|key guards]; [done|]. exfalso. apply (not_elem_of_empty (C := gset bytes) key), Hiff. left.
  - intros ->. apply set_eq. intros key. rewrite Hiff. set_solver.
Qed.

(** ** A concrete derivation *)
Definition toy_seeds : SeedLib := {|
  mnemonic := bytes; parse_mnemonic := Some; to_seed m _ := m;
  derivation := bytes; parse_derivation := Some; derive_from_path s _ := Some (pad32 s); blake3_hash := pad32
|}.

Lemma keys_do_not_outlive_the_lock_witness :
  exists k1 k2 : Keyring, clear_key_cache (seal_key_ops Keyring_default) = Some k1
    /\ rtc (@key_step toy_seeds) k1 k2 /\ kr_calls k2 !! 0%nat = Some (Enter (bs "seed")) /\ kr_cache k2 = ∅.
Proof.
  exists (seal_key_ops Keyring_default), (set_call 0 (Enter (bs "seed")) (seal_key_ops Keyring_default)).
  assert (Hrun : rtc (@key_step toy_seeds) (seal_key_ops Keyring_default) (set_call 0 (Enter (bs "seed")) (seal_key_ops Keyring_default)))
    by (apply rtc_once, key_called; vm_compute; reflexivity).
  split; [reflexivity|]. split; [exact Hrun|]. split; [vm_compute; reflexivity|].
  apply (@keys_do_not_outlive_the_lock toy_seeds (seal_key_ops Keyring_default) (seal_key_ops Keyring_default)).
  - apply rtc_once, any_key, key_sealed.
  - reflexivity.
  - reflexivity.
  - exact Hrun.
Defined.

Lemma one_emulation_at_a_time_witness :
  acquire ∅ (bs "node|wallet") = ({[bs "node|wallet"]} ∪ ∅, Ok (bs "node|wallet")) /\ NoDup [bs "node|wallet"].
Proof.
  assert (Ha : acquire ∅ (bs "node|wallet") = ({[bs "node|wallet"]} ∪ ∅, Ok (bs "node|wallet"))) by reflexivity.
  split; [exact Ha|].
  apply (one_emulation_at_a_time ({[bs "node|wallet"]} ∪ ∅) [bs "node|wallet"]). apply rtc_once, (job_acquired ∅ _ [] _ Ha).
Defined.
