(* ===== verification/ChainStorage.v ===== *)
(** * The records a wallet keeps on the chain

    cc-wallet-tycho/src/storage.rs: the cells of a record, the bodies of the requests, the
    data of the contract; cc-wallet-tycho/src/crypto.rs: the key records are sealed with; and
    [load_storage] and [prepare_storage_op] of cc-wallet-chain/src/wallet_service.rs, from what
    was read of the chain on and up to the transfer that is signed.  Cells, dictionaries and
    state inits are those of tycho_types, a parameter. *)

From Stdlib Require Import NArith ZArith Lia.
From stdpp Require Import list.
From S2P Require Import Prelude Ord Bytes Text Decimal Ids Asset Amount Send StorageRecord VaultKeys.
From S2P Require Import ChainData Wallets Vault Prepare Comment Transmit Transfers.

(** What the code uses of tycho_types besides plain cells; a dictionary is given as its
    entries, in the order of their keys, each of which may fail to decode. *)
Class StorageLib `{CellLib} `{MessageLib} := {
  reference_count : cell -> nat;
  load_u16 : slice -> res bytes (N * slice);
  store_u16 : builder -> N -> res bytes builder;
  store_u64 : builder -> N -> res bytes builder;
  store_std_addr : builder -> StdAddr Anycast -> res bytes builder;
  load_std_addr : slice -> res bytes (StdAddr Anycast * slice);
  store_empty_dict : builder -> res bytes builder;
  load_dict : slice -> res bytes (list (res bytes (N * cell)) * slice);
  state_init : cell -> cell -> StateInit;
  build_state_init : StateInit -> res bytes cell;
  repr_hash : cell -> bytes32;
  decode_base64 : bytes -> option cell
}.

(** Its documentation: a cell has as many references as are counted, and eight bytes are
    stored big-endian like four. *)
Class StorageLaws `{StorageLib} `{!CellLaws} : Prop := {
  counted c i : is_Some (reference_cloned c i) <-> (i < reference_count c)%nat;
  stored_u64 b d r n : stored b d r -> (length d + 8 <= 127)%nat ->
    exists b', store_u64 b n = Ok b' /\ stored b' (d ++ be_bytes 8 n) r
}.

(** ** storage.rs *)
Definition STORAGE_CODE_BOC : bytes := bs "te6ccgECCwEAAY4AART/APSkE/S88sgLAQIBYgIDA/jQ7aLt+/iRkTDg+Jhu8uBrINdJwSCRMOAg10nCX/LgbdMf0z/tRND6SNMP9ATR+JIjxwXy4GUlghBXpwABuuMPAcj6UhLLD/QAye1U+JL4l/gs+CdvEFihIaCCEDuaygC+k3T7ApowghA7msoAcvsC4sjPhQj6UnDPC24SBAUGAgEgBwgAfviXggkxLQC+8uBuA9Mf1NEhwgDy4GYggBD5QG+lb6FsMfLgaFMUgCD0Dm+hMZoigwi58uBnAqQC30AUgCD0FwDeJYIQV6cAArqOSVsDghBXpwADuo46+JcB+gDRIMIA8uBs+CdvEFihIYIQO5rKAKC+8uBqyM+FCBP6Ulj6AoIQV6cAA88Liss/yYAQ+wDbMeDywGTh+JeCCTEtAL7y4G4D0x/RUAOAIPRb8uBpAqUCABTLH8s/yYEAgvsAAgFmCQoAHb6x52omh9JBjph5j6AmjAAdsNE7UTQ+kgx0w/0BDHRgAB2yaXtRND6SNMPMfQEMdGA=".

Definition OP_PUT : N := 0x57A70001.
Definition OP_DELETE : N := 0x57A70002.
Definition OP_WITHDRAW : N := 0x57A70003.
Definition STORAGE_WORKCHAIN : Z := 0.
Definition TARGET_BALANCE : N := 1000000000.
Definition MAX_RECORD_CELLS : nat := 16.
Definition BLOB_CELL_BYTES : nat := 127.
Definition MAX_BLOB_BYTES : nat := BLOB_CELL_BYTES * MAX_RECORD_CELLS.

Section storage.
Context `{StorageLib}.

Definition storage_code : res Empty_set cell := expect (decode_base64 STORAGE_CODE_BOC).

(** [chunks(BLOB_CELL_BYTES)], the cells of a comment's tail being as large. *)
Definition blob_cell (blob : bytes) : res bytes cell :=
  check (length blob <=? MAX_BLOB_BYTES)%nat
    else bs "a record of " ++ print_dec (N.of_nat (length blob)) ++ bs " bytes exceeds the 2032-byte budget";;
  let chunks := tail_cells blob in
  let chunks := if bool_decide (chunks = []) then [[]] else chunks in
  let? cell := link (rev chunks) None in
  expect cell.

Fixpoint blob_parts (cells : nat) (current : cell) (out : bytes) : res bytes bytes :=
  match cells with
  | O => Err (bs "a record blob is deeper than the 16-cell limit")
  | S cells =>
      let? s := map_err (fun _ => bs "a record cell is not a slice") (as_slice current) in
      let bits := size_bits s in
      check bits mod 8 =? 0
        else bs "a record cell holds " ++ print_dec bits ++ bs " bits, which is not whole bytes";;
      let? (buf, _) := load_raw s bits in
      let out := out ++ buf in
      match reference_count current with
      | O => Ok out
      | S O =>
          let? current := ok_or (reference_cloned current 0) (bs "a record cell lost the reference it just reported") in
          blob_parts cells current out
      | other => Err (bs "a record cell has " ++ print_dec (N.of_nat other) ++ bs " references, expected at most one")
      end
  end.
Definition blob_bytes (c : cell) : res bytes bytes := blob_parts MAX_RECORD_CELLS c [].

Definition initial_data (owner : StdAddr Anycast) : res bytes cell :=
  let? b := store_std_addr builder_new owner in
  let? b := store_u16 b 0 in
  let? b := store_empty_dict b in
  map_err (fun _ => bs "failed to build the initial storage data cell") (build b).

Definition storage_state_init (owner : StdAddr Anycast) : res bytes StateInit :=
  let? code := rexpect storage_code in
  let? data := initial_data owner in
  Ok (state_init code data).

Definition storage_address (owner : StdAddr Anycast) : res bytes (StdAddr Anycast * StateInit) :=
  let? init := storage_state_init owner in
  let? c := map_err (fun _ => bs "failed to serialize the storage state init") (build_state_init init) in
  Ok (mkStdAddr None STORAGE_WORKCHAIN (repr_hash c), init).

Record StorageData := mkStorageData {
  sd_owner : bytes;
  sd_count : N;
  sd_records : btree N bytes
}.

Fixpoint decode_records (entries : list (res bytes (N * cell))) (records : btree N bytes) : res bytes (btree N bytes) :=
  match entries with
  | [] => Ok records
  | entry :: entries =>
      let? (id, c) := map_err (fun _ => bs "failed to decode a record entry") entry in
      let? blob := blob_bytes c in
      decode_records entries (bt_insert id blob records)
  end.

Definition decode_storage_data (data : cell) : res bytes StorageData :=
  let? s := map_err (fun _ => bs "the storage data cell is not a slice") (as_slice data) in
  let? (owner, s) := map_err (fun _ => bs "failed to read the storage owner") (load_std_addr s) in
  let? (count, s) := map_err (fun _ => bs "failed to read the record count") (load_u16 s) in
  let? (dict, _) := map_err (fun _ => bs "failed to read the records dict") (load_dict s) in
  let? records := decode_records dict [] in
  Ok (mkStorageData (stdaddr_to_string owner) count records).

(** What is read of an account: its balance, and where it is active its data. *)
Inductive ContractState := ActiveState (data : option cell) | InactiveState.
Record Account := mkAccount { ac_balance : N; ac_state : ContractState }.

Definition storage_from_account (account : option Account) : res bytes (option StorageData) :=
  match account with
  | Some (mkAccount _ (ActiveState data)) =>
      let? data := ok_or data (bs "the storage account has no data cell to read") in
      rmap Some (decode_storage_data data)
  | _ => Ok None
  end.

Definition body_header (op query_id : N) : res bytes builder :=
  let? b := store_u32 builder_new op in
  store_u64 b query_id.

Definition put_body (query_id id : N) (blob : bytes) : res bytes cell :=
  check 0 <? id else bs "record numbers start at 1";;
  let? b := body_header OP_PUT query_id in
  let? b := store_u32 b id in
  let? c := blob_cell blob in
  let? b := store_reference b c in
  map_err (fun _ => bs "failed to build a put body") (build b).

Definition delete_body (query_id id : N) : res bytes cell :=
  check 0 <? id else bs "record numbers start at 1";;
  let? b := body_header OP_DELETE query_id in
  let? b := store_u32 b id in
  map_err (fun _ => bs "failed to build a delete body") (build b).
End storage.

Definition storage_internal_method (op : N) : option string :=
  if op =? OP_PUT then Some "put_record" else
  if op =? OP_DELETE then Some "delete_record" else
  if op =? OP_WITHDRAW then Some "withdraw" else None.

Definition storage_error_text (exit_code : Z) : option string :=
  match exit_code with
  | 100 => Some "the storage contract does not know that operation"
  | 101 => Some "that storage belongs to a different wallet"
  | 102 => Some "record numbers start at 1"
  | 103 => Some "the storage is full"
  | 104 => Some "the record is too large for one entry"
  | 105 => Some "that record is no longer in the storage"
  | 106 => Some "the storage must keep enough to pay its rent"
  | 107 => Some "the storage does not accept tokens"
  | 108 => Some "the amount must be greater than zero"
  | 109 => Some "the storage could not read that request"
  | 110 => Some "the request did not carry enough to pay for itself"
  | _ => None
  end%Z.

(** ** wallet_service.rs *)
Definition STORAGE_DEPLOY_GAS : N := 50000000.
Definition STORAGE_OP_GAS : N := 60000000.
Definition STORAGE_KEY_CONTEXT : bytes := bs "cc-wallet storage record key v1".

Section service.
Context `{StorageLib} `{VaultPrims}.

(** [derive_secret], of the secret of the key pair. *)
Definition derive_secret (secret : bytes32) (context : bytes) : bytes32 := blake3_derive_key context secret.

(** One record of the contract: what is shown, or that it could not be read. *)
Definition read_record (key : bytes32) (owner_text : bytes) (id : N) (blob : bytes) : option StorageRecord :=
  match open_record key (record_aad owner_text id) blob with
  | Ok plain =>
      match decode_record plain with
      | Ok (title, data) => Some {| st_id := id; st_title := title; st_data := data |}
      | _ => None
      end
  | _ => None
  end.

Definition with_record (key : bytes32) (owner_text : bytes) (s : StorageSnapshot) (entry : N * bytes) : StorageSnapshot :=
  match read_record key owner_text (fst entry) (snd entry) with
  | Some record => {| ss_address := ss_address s; ss_exists := ss_exists s; ss_balance := ss_balance s;
                      ss_records := ss_records s ++ [record]; ss_unreadable := ss_unreadable s |}
  | None => {| ss_address := ss_address s; ss_exists := ss_exists s; ss_balance := ss_balance s;
               ss_records := ss_records s; ss_unreadable := ss_unreadable s + 1 |}
  end.

(** [load_storage], of the wallet's secret and address and the account that was read. *)
Definition load_storage (secret : bytes32) (owner : StdAddr Anycast) (account : option Account)
  : res ChainError StorageSnapshot :=
  let? (address, _) := map_err ChainWallet (storage_address owner) in
  let found exists_ balance := {| ss_address := stdaddr_to_string address; ss_exists := exists_; ss_balance := balance;
                                  ss_records := []; ss_unreadable := 0 |} in
  match account with
  | None => Ok (found false 0)
  | Some read =>
      let? stored := map_err ChainWallet (storage_from_account account) in
      match stored with
      | None => Ok (found false (ac_balance read))
      | Some stored =>
          let owner_text := stdaddr_to_string owner in
          if negb (bool_decide (sd_owner stored = owner_text))
          then Err (ChainWallet (bs "the storage at this wallet's address is owned by a different wallet")) else
          let key := derive_secret secret STORAGE_KEY_CONTEXT in
          Ok (foldl (with_record key owner_text) (found true (ac_balance read)) (sd_records stored))
      end
  end.

(** A transfer to the storage that carries a body. *)
Definition storage_request (address : StdAddr Anycast) (op_native : N) (body : cell) : res ChainError EverTransfer :=
  let? t := map_err ChainInvalidInput (transfer_native (EverTransfer_to address) op_native) in
  Ok (with_payload (with_flags (with_bounce t true) SAFE_SEND_FLAGS) body).

(** The transfer of [prepare_storage_op] and the coins it carries. *)
Definition storage_transfer (secret : bytes32) (owner : StdAddr Anycast) (storage_balance query_id : N) (op : StorageOp)
    (e : entropy) : res ChainError (N * EverTransfer * entropy) :=
  let? (address, init) := map_err ChainWallet (storage_address owner) in
  let top_up := saturating_sub TARGET_BALANCE storage_balance in
  let op_native := saturating_add u128_max STORAGE_OP_GAS top_up in
  let deploy_native := saturating_add u128_max TARGET_BALANCE STORAGE_DEPLOY_GAS in
  match op with
  | OpCreate =>
      let? t := map_err ChainInvalidInput (transfer_native (EverTransfer_to address) deploy_native) in
      Ok (deploy_native, with_state_init (with_flags (with_bounce t false) SAFE_SEND_FLAGS) init, e)
  | OpPut id title data =>
      let key := derive_secret secret STORAGE_KEY_CONTEXT in
      let? plaintext := map_err (fun error => ChainInvalidInput (bs (StorageError_display error))) (encode_record title data) in
      let? (blob, e) := map_err (fun error => ChainWallet (bs (VaultError_display error)))
                          (seal_record key (record_aad (stdaddr_to_string owner) id) plaintext e) in
      let? body := map_err ChainWallet (put_body query_id id blob) in
      let? t := storage_request address op_native body in
      Ok (op_native, t, e)
  | OpDelete id =>
      let? body := map_err ChainWallet (delete_body query_id id) in
      let? t := storage_request address op_native body in
      Ok (op_native, t, e)
  end.
End service.

(** ** The cells of a record *)
Lemma cells_short fuel l k : (length l <= 127 * k)%nat -> (length (cells_of fuel l) <= k)%nat.
Proof.
  revert l k. induction fuel as [|fuel IH]; intros l k Hl; cbn [cells_of]; [cbn; lia|].
  case_bool_decide as Hn; [cbn; lia|]. destruct k as [|k]; [destruct l; [done|cbn in Hl; lia]|].
  cbn [length]. specialize (IH (drop COMMENT_CELL_BYTES l) k). rewrite length_drop in IH. unfold COMMENT_CELL_BYTES in *. lia.
Qed.

Section cells.
Context `{StorageLaws}.

Lemma blob_parts_chained c l : chained c l -> forall cells out, (length l <= cells)%nat ->
  blob_parts cells c out = Ok (out ++ mjoin l).
Proof.
  induction 1 as [c s d Hs Hd Hr|c s d c' l Hs Hd Hr Hr1 Hc IH]; intros [|cells] out Hl; cbn in Hl; try lia;
    cbn [blob_parts]; rewrite Hs; cbn [map_err rbind]; destruct (load_all s d Hd) as [-> [s' ->]]; cbn [rbind];
    rewrite join_cell; pose proof (counted c 0) as M0; rewrite Hr in M0.
  - destruct (reference_count c) as [|n]; [|exfalso; assert (is_Some (@None cell)) as [? ?] by (apply M0; lia); done].
    change (mjoin []) with (@nil byte). by rewrite app_nil_r.
  - pose proof (counted c 1) as M1. rewrite Hr1 in M1.
    destruct (reference_count c) as [|[|n]]; [assert (0 < 0)%nat by (by apply M0; eauto); lia| |].
    + rewrite Hr. cbn [ok_or rbind]. rewrite IH by lia. by rewrite app_assoc.
    + exfalso. assert (is_Some (@None cell)) as [? ?] by (apply M1; lia). done.
Qed.

(** What is put into cells is read from them, whatever its length within the limit. *)
Lemma blob_reads_back blob : (length blob <= MAX_BLOB_BYTES)%nat ->
  exists c, blob_cell blob = Ok c /\ blob_bytes c = Ok blob.
Proof.
  intros Hl. unfold blob_cell. rewrite (proj2 (Nat.leb_le _ _) Hl).
  set (chunks := if bool_decide (tail_cells blob = []) then [[]] else tail_cells blob).
  assert (Hjoin : mjoin chunks = blob /\ Forall (fun chunk => (length chunk <= 127)%nat) chunks /\ (1 <= length chunks <= MAX_RECORD_CELLS)%nat).
  { unfold chunks. pose proof (tail_cells_join blob) as Hj. destruct (cells_of_spec (length blob) blob ltac:(lia)) as [_ Hf].
    pose proof (cells_short (length blob) blob MAX_RECORD_CELLS ltac:(unfold MAX_BLOB_BYTES, BLOB_CELL_BYTES in Hl; lia)) as Hs.
    case_bool_decide as Hn.
    - rewrite Hn in Hj. split; [done|]. split; [repeat constructor; cbn; lia|]. cbn. unfold MAX_RECORD_CELLS. lia.
    - split; [done|]. split; [done|]. unfold tail_cells in *. destruct (cells_of _ blob); [done|]. cbn in *. lia. }
  destruct Hjoin as (Hj & Hf & Hn).
  destruct (link_chained (rev chunks) None []) as (next & -> & Hc); [by apply Forall_rev|done|].
  rewrite rev_involutive, app_nil_r in Hc. cbn [rbind]. destruct next as [c|]; cbn in Hc; [|rewrite Hc in Hn; cbn in Hn; lia].
  exists c. split; [done|]. unfold blob_bytes. by rewrite (blob_parts_chained _ _ Hc), Hj by lia.
Qed.

Lemma put_body_ok query_id id blob : 0 < id -> (length blob <= MAX_BLOB_BYTES)%nat ->
  exists body c, put_body query_id id blob = Ok body /\ reference_cloned body 0 = Some c /\ blob_bytes c = Ok blob.
Proof.
  intros Hid Hl. destruct (blob_reads_back blob Hl) as (c & Hc & Hread). unfold put_body, body_header.
  rewrite (proj2 (N.ltb_lt _ _) Hid).
  destruct (stored_u32 builder_new [] [] OP_PUT stored_new ltac:(cbn; lia)) as (b1 & -> & M1). cbn [rbind].
  destruct (stored_u64 b1 _ [] query_id M1) as (b2 & -> & M2); [rewrite !length_app, !length_be_bytes; cbn; lia|]. cbn [rbind].
  destruct (stored_u32 b2 _ [] id M2) as (b3 & -> & M3); [rewrite !length_app, !length_be_bytes; cbn; lia|]. cbn [rbind].
  rewrite Hc. cbn [rbind]. destruct (stored_reference b3 _ [] c M3) as (b4 & -> & M4); [cbn; lia|]. cbn [rbind].
  destruct (stored_build b4 _ _ M4) as (body & s & -> & _ & _ & Hr). exists body, c. rewrite Hr. done.
Qed.
End cells.

(** ** Records are read back *)

(** The limits of a record leave room for the seal within the limit of a blob. *)
Lemma sealed_record_fits title data plain (blob : bytes) : utf8_valid title = true -> utf8_valid data = true ->
  encode_record title data = Ok plain -> length blob = (NONCE_LEN + (length plain + TAG_LEN))%nat ->
  (length blob <= MAX_BLOB_BYTES)%nat.
Proof.
  intros Hut Hud Henc ->. destruct (proj2 (record_roundtrip title data Hut Hud) plain Henc) as [-> _].
  apply encode_record_Ok in Henc as [(_ & Hl1 & Hl2)%validate_record_Ok _].
  unfold MAX_RECORD_TITLE_BYTES, MAX_RECORD_DATA_BYTES, MAX_BLOB_BYTES, BLOB_CELL_BYTES, MAX_RECORD_CELLS, NONCE_LEN, TAG_LEN, RECORD_FRAMING_BYTES in *. lia.
Qed.
Section records.
Context `{StorageLaws} `{VaultPrimsLaws}.
Variables (secret : bytes32) (owner : StdAddr Anycast).

(** A transfer of the wallet put this cell under this number. *)
Definition was_put (record : StorageRecord) (id : N) (c : cell) : Prop :=
  exists title balance query_id e attached t e' body,
    storage_transfer secret owner balance query_id (OpPut id title (st_data record)) e = Ok (attached, t, e')
    /\ utf8_valid title = true /\ utf8_valid (st_data record) = true
    /\ st_id record = id /\ st_title record = trim title
    /\ et_payload t = Some body /\ reference_cloned body 0 = Some c.

Lemma put_is_read record id c : was_put record id c ->
  exists blob, blob_bytes c = Ok blob
    /\ read_record (derive_secret secret STORAGE_KEY_CONTEXT) (stdaddr_to_string owner) id blob = Some record.
Proof.
  intros (title & balance & query_id & e & attached & t & e' & body & Ht & Hut & Hud & Hid & Htitle & Hp & Hc).
  unfold storage_transfer in Ht. destruct (storage_address owner) as [[address init]| |]; cbn [map_err rbind] in Ht; [|done..].
  destruct (encode_record title (st_data record)) as [plain| |] eqn:Henc; cbn [map_err rbind] in Ht; [|done..].
  destruct (seal_record _ _ plain e) as [[blob e2]| |] eqn:Hseal; cbn [map_err rbind] in Ht; [|done..].
  destruct (aead_seal_open _ _ _ _ _ _ (Corrupt "this record was not written by this wallet") Hseal) as [Hopen Hblob].
  destruct (proj2 (record_roundtrip title (st_data record) Hut Hud) plain Henc) as [_ Hdec].
  assert (Hid' : 0 < id).
  { unfold put_body in Ht. destruct (N.ltb_spec 0 id); [done|]. done. }
  destruct (put_body_ok query_id id blob Hid' (sealed_record_fits _ _ _ _ Hut Hud Henc Hblob)) as (body' & c' & Hbody & Hc' & Hread).
  rewrite Hbody in Ht. cbn [map_err rbind] in Ht. unfold storage_request in Ht.
  destruct (transfer_native _ _) as [t0| |]; cbn [map_err rbind] in Ht; [|done..].
  injection Ht as <- <- <-. cbn [et_payload with_payload] in Hp. injection Hp as <-. rewrite Hc' in Hc. injection Hc as <-.
  exists blob. split; [done|]. unfold read_record, open_record. rewrite Hopen, Hdec.
  destruct record as [rid rtitle rdata]. cbn in *. by subst.
Qed.
End records.

(** ** The records of the contract, in the order of their numbers *)
Lemma bt_insert_last {V : Type} (k : N) (v : V) (m : btree N V) :
  Forall (fun entry => fst entry < k) m -> bt_insert k v m = m ++ [(k, v)].
Proof.
  induction 1 as [|[k' v'] m Hk Hm IH]; cbn [bt_insert app]; [done|]. cbn [fst] in Hk.
  assert (Hc : cmp k k' = Gt) by by apply N.compare_gt_iff. by rewrite Hc, IH.
Qed.

Section read.
Context `{StorageLib} `{VaultPrims}.

Lemma decode_records_in_order (entries : list (N * cell)) blobs m :
  Forall2 (fun entry blob => blob_bytes (snd entry) = Ok blob) entries blobs ->
  StronglySorted N.lt ((fst <$> m) ++ (fst <$> entries)) ->
  decode_records (Ok <$> entries) m = Ok (m ++ zip (fst <$> entries) blobs).
Proof.
  intros Hall. revert m. induction Hall as [|[id c] blob entries blobs Hb Hall IH]; intros m Hs; cbn [decode_records fmap list_fmap zip_with].
  { by rewrite app_nil_r. }
  cbn [map_err rbind snd] in *. rewrite Hb. cbn [rbind fst].
  assert (Hlast : Forall (fun entry => fst entry < id) m).
  { clear -Hs. induction m as [|[k b] m IH]; [constructor|]. cbn in Hs. inversion_clear Hs as [|?? Hs' Hf]. constructor; [|by apply IH].
    rewrite Forall_app in Hf. cbn. by destruct Hf as [_ [Hlt _]%Forall_cons]. }
  rewrite bt_insert_last by done. rewrite IH; [by rewrite <- app_assoc|].
  rewrite fmap_app, <- app_assoc. exact Hs.
Qed.

Lemma records_shown key owner_text (stored : list (N * bytes)) records s :
  Forall2 (fun record entry => read_record key owner_text (fst entry) (snd entry) = Some record) records stored ->
  foldl (with_record key owner_text) s stored
  = {| ss_address := ss_address s; ss_exists := ss_exists s; ss_balance := ss_balance s;
       ss_records := ss_records s ++ records; ss_unreadable := ss_unreadable s |}.
Proof.
  intros Hall. revert s. induction Hall as [|record entry records stored Hr Hall IH]; intros s; cbn [foldl].
  - rewrite app_nil_r. by destruct s.
  - unfold with_record at 2. rewrite Hr, IH. cbn. by rewrite <- app_assoc.
Qed.
End read.

(** Sealing needs a nonce and a cipher that works on the text. *)
Lemma aead_seal_Ok `{VaultPrims} key plaintext aad e : (NONCE_LEN <= length e)%nat ->
  (forall nonce, is_Some (xchacha_encrypt key nonce aad plaintext)) -> exists blob e', aead_seal key plaintext aad e = Ok (blob, e').
Proof.
  intros He Hct. unfold aead_seal, draw. rewrite (proj2 (Nat.leb_le _ _) He). cbn [rbind].
  destruct (Hct (take NONCE_LEN e)) as [ct ->]. cbn [ok_or rbind]. eauto.
Qed.

Section saved.
Context `{StorageLaws} `{VaultPrimsLaws}.
Variables (secret : bytes32) (owner : StdAddr Anycast).

Lemma all_put_read records (entries : list (N * cell)) :
  Forall2 (fun record entry => was_put secret owner record (fst entry) (snd entry)) records entries ->
  exists blobs, Forall2 (fun entry blob => blob_bytes (snd entry) = Ok blob) entries blobs
    /\ Forall2 (fun record entry => read_record (derive_secret secret STORAGE_KEY_CONTEXT) (stdaddr_to_string owner)
                                      (fst entry) (snd entry) = Some record) records (zip (fst <$> entries) blobs).
Proof.
  induction 1 as [|record entry records entries Hput _ (blobs & Hb & Hr)]; [by exists []|].
  destruct (put_is_read _ _ _ _ _ Hput) as (blob & Hblob & Hread). exists (blob :: blobs). by split; constructor.
Qed.

(** The data of a contract: its owner and its dictionary of records, none of which fails to decode. *)
Definition holds_entries (data : cell) (owner_text : bytes) (entries : list (N * cell)) : Prop :=
  exists s o s1 count s2 rest, as_slice data = Ok s /\ load_std_addr s = Ok (o, s1) /\ stdaddr_to_string o = owner_text
    /\ load_u16 s1 = Ok (count, s2) /\ load_dict s2 = Ok (Ok <$> entries, rest).

(** C19: A record that is saved on the chain is the record that is shown from it.  A request to
    save a valid record is always turned into a transfer: it goes to the storage of the wallet,
    carries the coins the request is announced with, at least what brings the storage to its
    target balance, and a cell with the sealed record.  And when the storage holds, in the order
    of their numbers, cells that such transfers of this wallet carried, whatever else they
    were sent with, loading it shows exactly the records that were saved, in that order and
    none as unreadable, with its address and balance. *)
Theorem saved_records_are_read_back :
  (forall id title data balance query_id e plain address init, storage_address owner = Ok (address, init) ->
     0 < id -> utf8_valid title = true -> utf8_valid data = true -> encode_record title data = Ok plain ->
     (NONCE_LEN <= length e)%nat ->
     (forall nonce aad text, is_Some (xchacha_encrypt (derive_secret secret STORAGE_KEY_CONTEXT) nonce aad text)) ->
     exists attached t e' c, storage_transfer secret owner balance query_id (OpPut id title data) e = Ok (attached, t, e')
       /\ et_dest t = address /\ et_native_amount t = attached /\ TARGET_BALANCE <= balance + attached
       /\ was_put secret owner {| st_id := id; st_title := trim title; st_data := data |} id c)
  /\ (forall balance data records entries address init, storage_address owner = Ok (address, init) ->
       holds_entries data (stdaddr_to_string owner) entries -> StronglySorted N.lt (fst <$> entries) ->
       Forall2 (fun record entry => was_put secret owner record (fst entry) (snd entry)) records entries ->
       load_storage secret owner (Some (mkAccount balance (ActiveState (Some data))))
       = Ok {| ss_address := stdaddr_to_string address; ss_exists := true; ss_balance := balance;
               ss_records := records; ss_unreadable := 0 |}).
Proof.
  split.
  - intros id title data balance query_id e plain address init Ha Hid Hut Hud Henc He Hseal.
    destruct (aead_seal_Ok (derive_secret secret STORAGE_KEY_CONTEXT) plain (record_aad (stdaddr_to_string owner) id) e He (fun nonce => Hseal nonce _ _))
      as (blob & e' & Hblob).
    destruct (aead_seal_open _ _ _ _ _ _ Rng Hblob) as [_ Hlen].
    destruct (put_body_ok query_id id blob Hid (sealed_record_fits title data plain blob Hut Hud Henc Hlen)) as (body & c & Hbody & Hc & _).
    set (attached := saturating_add u128_max STORAGE_OP_GAS (saturating_sub TARGET_BALANCE balance)).
    assert (Hatt : attached <= NATIVE_MAX_UNITS /\ TARGET_BALANCE <= balance + attached).
    { assert (Hu : 1060000000 <= u128_max) by done. assert (Hn : 1060000000 <= NATIVE_MAX_UNITS) by done.
      unfold attached, saturating_add, saturating_sub, STORAGE_OP_GAS, TARGET_BALANCE. lia. }
    assert (Ht : storage_transfer secret owner balance query_id (OpPut id title data) e
                 = Ok (attached, with_payload (mkTransfer address attached [] true SAFE_SEND_FLAGS None None) body, e')).
    { unfold storage_transfer. rewrite Ha. cbn [map_err rbind]. rewrite Henc. cbn [map_err rbind]. unfold seal_record. rewrite Hblob.
      cbn [map_err rbind]. rewrite Hbody. cbn [map_err rbind]. unfold storage_request, transfer_native. fold attached.
      by rewrite (proj2 (N.leb_le _ _) (proj1 Hatt)). }
    exists attached. eexists _, e', c. split; [exact Ht|]. repeat split; [apply Hatt|].
    exists title, balance, query_id, e, attached. eexists _, e', body. split; [exact Ht|]. done.
  - intros balance data records entries address init Ha (s & o & s1 & count & s2 & rest & Hs & Ho & Hown & Hn & Hd) Hsorted Hput.
    destruct (all_put_read _ _ Hput) as (blobs & Hb & Hr).
    unfold load_storage. rewrite Ha. cbn [map_err rbind]. unfold storage_from_account. cbn [ok_or rbind]. unfold decode_storage_data.
    rewrite Hs. cbn [map_err rbind ok_or]. rewrite Ho. cbn [map_err rbind]. rewrite Hn. cbn [map_err rbind]. rewrite Hd. cbn [map_err rbind].
    rewrite (decode_records_in_order entries blobs []) by done. cbn [rbind rmap map_err app sd_owner sd_records ac_balance].
    rewrite Hown, bool_decide_eq_true_2 by done. cbn [negb]. by rewrite (records_shown _ _ _ records) by done.
Qed.
End saved.

(** ** A model to run: a dictionary is its entries, each a number, a length and the bytes *)
Definition toy_storage_messages : @MessageLib toy_stdaddr :=
  {| stdaddr_from_str _ := Err "not workchain:hash"; StateInit := ToyCell * ToyCell |}.

Fixpoint toy_entries (fuel : nat) (l : bytes) : list (res bytes (N * ToyCell)) :=
  match fuel, l with
  | S fuel, id :: len :: l => Ok (u8 id, Toy (take (N.to_nat (u8 len)) l) []) :: toy_entries fuel (drop (N.to_nat (u8 len)) l)
  | _, _ => []
  end.

Definition toy_pad (l : bytes) : bytes32 := match try_into_32 l with Some b => b | None => pad32 [] end.

Definition toy_storage : @StorageLib toy_cells toy_stdaddr toy_storage_messages := {|
  reference_count := (fun (c : @cell toy_cells) => match c with Toy _ r => length r end);
  load_u16 := (fun (s : @slice toy_cells) => rmap (fun p => (of_be (fst p), snd p)) (toy_take s 2));
  store_u16 := (fun (b : @builder toy_cells) n => toy_store b (be_bytes 2 n));
  store_u64 := (fun (b : @builder toy_cells) n => toy_store b (be_bytes 8 n));
  store_std_addr := (fun (b : @builder toy_cells) a => toy_store b (as_bytes (sa_address a)));
  load_std_addr := (fun (s : @slice toy_cells) => rmap (fun p => (mkStdAddr None 0 (toy_pad (fst p)), snd p)) (toy_take s 32));
  store_empty_dict := (fun (b : @builder toy_cells) => Ok b);
  load_dict := (fun (s : @slice toy_cells) => Ok (toy_entries (length s) s, []));
  state_init := (fun (code data : @cell toy_cells) => (code, data) : @StateInit toy_stdaddr toy_storage_messages);
  build_state_init := (fun (init : @StateInit toy_stdaddr toy_storage_messages) => Ok (Toy [] [fst init; snd init]));
  repr_hash := (fun (c : @cell toy_cells) => pad32 [Byte.x77]);
  decode_base64 := (fun l => Some (Toy [] []))
|}.

Lemma toy_storage_laws : @StorageLaws toy_cells toy_stdaddr toy_storage_messages toy_storage toy_cell_laws.
Proof.
  split.
  - intros [d r] i. cbv [reference_cloned reference_count toy_cells toy_storage]. apply lookup_lt_is_Some.
  - intros b d r n -> Hl. exists (d ++ be_bytes 8 n, r). split; [|done]. apply toy_store_fits. by rewrite length_be_bytes.
Qed.

Definition demo_owner : StdAddr (@Anycast toy_stdaddr) := mkStdAddr None 0 (pad32 [Byte.x11]).
Definition demo_record : StorageRecord := {| st_id := 3; st_title := bs "phone"; st_data := bs "86594" |}.
(** The cell a transfer of the wallet carries for it, and the contract that keeps it. *)
Definition demo_record_cell : ToyCell :=
  Toy (repeat Byte.x05 24 ++ [Byte.x00; Byte.x05] ++ bs "phone86594" ++ take 16 (as_bytes (pad32 [Byte.x0a]))) [].
Definition demo_contract : ToyCell :=
  match demo_record_cell with
  | Toy blob _ => Toy (as_bytes (pad32 [Byte.x11]) ++ [Byte.x00; Byte.x01] ++ [Byte.x03; byte_of (N.of_nat (length blob))] ++ blob) []
  end.

Lemma demo_was_put :
  @was_put toy_cells toy_stdaddr toy_storage_messages toy_storage toy_prims (pad32 [Byte.x0a]) demo_owner demo_record 3 demo_record_cell.
Proof.
  exists (bs " phone "), 0, 7, (repeat Byte.x05 24). do 4 eexists. split; [vm_compute; reflexivity|].
  by vm_compute.
Qed.

Lemma saved_records_are_read_back_witness :
  @load_storage toy_cells toy_stdaddr toy_storage_messages toy_storage toy_prims (pad32 [Byte.x0a]) demo_owner
    (Some (@mkAccount toy_cells 1000000000 (@ActiveState toy_cells (Some demo_contract))))
  = Ok {| ss_address := raw_address 0 (pad32 [Byte.x77]); ss_exists := true; ss_balance := 1000000000;
          ss_records := [demo_record]; ss_unreadable := 0 |}.
Proof.
  destruct (@saved_records_are_read_back toy_cells toy_stdaddr toy_storage_messages toy_storage toy_cell_laws toy_storage_laws
    toy_prims toy_prims_laws (pad32 [Byte.x0a]) demo_owner) as [_ Hread].
  refine (eq_trans (Hread 1000000000 demo_contract [demo_record] [(3, demo_record_cell)] (mkStdAddr None 0 (pad32 [Byte.x77])) _ _ _ _ _) _).
  - vm_compute. reflexivity.
  - do 6 eexists. do 4 (split; [vm_compute; reflexivity|]). vm_compute. reflexivity.
  - repeat constructor.
  - repeat constructor. exact demo_was_put.
  - by vm_compute.
Defined.
