(* ===== verification/Subscription.v ===== *)
(** * Following an account

    cc-wallet-tycho/src/subscription.rs: the stream of server-sent events a node keeps open,
    its frames, the request that subscribes an account, and the notifications that tell the
    wallet of new transactions, the ones the node dropped included.  The pieces the stream
    comes in and the answers to the request are arguments. *)

From Stdlib Require Import NArith ZArith Lia.
From stdpp Require Import list.
From S2P Require Import Prelude Bytes Text Decimal Json ChainData AppState Comment Transmit.

Definition MAX_SSE_EVENT_BYTES : nat := 65536.

Record AccountUpdate := mkUpdate { au_max_lt : N; au_gen_utime : option N }.

Inductive SubscriptionEvent :=
| SubReady (uuid : bytes)
| SubUpdate (update : AccountUpdate).

(** ** Frames *)
Record SseEvent := mkSse { sse_name : bytes; sse_data : bytes }.

Definition strip_prefix (p s : bytes) : option bytes := if starts_with p s then Some (drop (length p) s) else None.

Definition sse_line (e : option bytes * bytes) (line : bytes) : option bytes * bytes :=
  let line := strip_cr line in
  match strip_prefix (bs "event:") line with
  | Some rest => (Some (trim_start rest), snd e)
  | None =>
      match strip_prefix (bs "data:") line with
      | Some rest => (fst e, (if bool_decide (snd e = []) then [] else snd e ++ [Byte.x0a]) ++ trim_start rest)
      | None => e
      end
  end.

Definition parse_sse_event (raw : bytes) : option SseEvent :=
  let (name, data) := foldl sse_line (None, []) (lines raw) in
  match name with Some name => Some (mkSse name data) | None => None end.

Definition CRLF2 : bytes := [Byte.x0d; Byte.x0a; Byte.x0d; Byte.x0a].
Definition LF2 : bytes := [Byte.x0a; Byte.x0a].

Definition sse_event_end (buffer : bytes) : option (nat * nat) :=
  match find_seq CRLF2 buffer, find_seq LF2 buffer with
  | Some crlf, Some lf => if (lf <? crlf)%nat then Some (lf, 2%nat) else Some (crlf, 4%nat)
  | Some crlf, None => Some (crlf, 4%nat)
  | None, Some lf => Some (lf, 2%nat)
  | None, None => None
  end.

(** ** Notifications *)
Definition json_u64_field (value : json) (field : bytes) : option N :=
  match value_get field value with
  | Some (JInt z) => if ((0 <=? z) && (z <=? Z.of_N u64_max))%Z then Some (Z.to_N z) else None
  | Some (JStr value) => parse_unsigned u64_max value
  | _ => None
  end.

Definition u32_of (value : N) : option N := if value <=? u32_max then Some value else None.

Section notifications.
Context `{BocLib}.

Definition parse_stream_update (data : bytes) : AccountUpdate :=
  match value_from_slice data with
  | Ok value => mkUpdate (default 0 (json_u64_field value (bs "maxLt"))) (json_u64_field value (bs "genUtime") ≫= u32_of)
  | _ => mkUpdate 0 None
  end.

Definition parse_stream_counter (data field : bytes) : option N :=
  match value_from_slice data with Ok value => json_u64_field value field | _ => None end.

(** The highest count of dropped notifications, and the last update. *)
Record Followed := mkFollowed { fo_dropped : N; fo_update : option AccountUpdate }.

Definition parse_subscription_notification (event_name data : bytes) (f : Followed) : option AccountUpdate * Followed :=
  if bool_decide (event_name = bs "update") then
    let update := parse_stream_update data in
    let last_dropped := match parse_stream_counter data (bs "dropped") with
                        | Some dropped => N.max (fo_dropped f) dropped
                        | None => fo_dropped f
                        end in
    (Some update, mkFollowed last_dropped (Some update))
  else if bool_decide (event_name = bs "keep-alive") then
    match parse_stream_counter data (bs "dropped") with
    | None => (None, f)
    | Some dropped =>
        if dropped <=? fo_dropped f then (None, f) else
        (Some (default (mkUpdate 0 (parse_stream_counter data (bs "utime") ≫= u32_of)) (fo_update f)),
         mkFollowed dropped (fo_update f))
    end
  else (None, f).
End notifications.

(** A status as the http crate prints it. *)
Class StatusText := { status_text : N -> bytes }.

(** ** The requests *)
Section requests.
Context `{UrlLib} `{BocLib} `{StatusText}.

Definition stream_url_for (endpoint : bytes) : res bytes url :=
  let? base := canonicalize_endpoint endpoint in
  let kept := query base in
  let base := clear_fragment (clear_query base) in
  let base := if negb (ends_with (bs "/") (path base)) then set_path base (path base ++ bs "/") else base in
  let? stream := map_err (fun _ => bs "failed to build SSE stream URL") (url_join base (bs "stream")) in
  Ok (match kept with Some query => set_query stream query | None => clear_query stream end).

(** What came of the request that subscribes: no answer in time, an answer or none whose body
    comes in time. *)
Inductive SubscribeReply :=
| NoReply
| Replied (reply : res bytes Response) (body_in_time : bool).

Definition TIMED_OUT : bytes := bs "RPC subscription timed out".
Definition subscribe_url (endpoint : bytes) : res bytes url :=
  let? u := canonicalize_endpoint endpoint in
  Ok (if bool_decide (trim_end_matches Byte.x2f (trim_start_matches Byte.x2f (path u)) = []) then set_path u (bs "/") else u).

Definition subscribe_request (uuid address : bytes) : json :=
  JObj [(bs "jsonrpc", JStr (bs "2.0")); (bs "id", JInt 1); (bs "method", JStr (bs "subSubscribe"));
        (bs "params", JObj [(bs "uuid", JStr uuid); (bs "addrs", JArr [JStr address])])].

(** What is asked of the node, and what came of it. *)
Definition subscribe_account (answer : url -> json -> SubscribeReply) (endpoint uuid address : bytes) : res bytes unit :=
  let? u := subscribe_url endpoint in
  match answer u (subscribe_request uuid address) with
  | NoReply => Err TIMED_OUT
  | Replied reply body_in_time =>
      let? response := map_err (fun error => bs "subSubscribe request failed: " ++ error) reply in
      check is_success (rs_status response) else bs "subSubscribe returned HTTP " ++ status_text (rs_status response);;
      check body_in_time else TIMED_OUT;;
      let? body := map_err (fun _ => bs "subSubscribe response body was invalid") (read_response_bytes_limited response) in
      let? value := map_err (fun _ => bs "subSubscribe response was not JSON") (value_from_slice body) in
      rmap (fun _ => tt) (parse_jrpc_result_for_id Some value (bs "subSubscribe") 1)
  end.
End requests.

(** ** The loop *)
Section stream.
Context `{UrlLib} `{BocLib} `{StatusText}.
(** The answers to the requests that subscribe, by their number. *)
Variables (endpoint address : bytes) (answers : nat -> url -> json -> SubscribeReply).

Record Stream := mkStream {
  st_subscribed : bool;
  st_requests : nat;
  st_buffer : bytes;
  st_followed : Followed
}.
Definition Stream_new : Stream := mkStream false 0 [] (mkFollowed 0 None).
Definition with_buffer (buffer : bytes) (s : Stream) : Stream :=
  mkStream (st_subscribed s) (st_requests s) buffer (st_followed s).

Definition FRAME_TOO_LONG : bytes := bs "SSE frame exceeded 65536 bytes".
Definition UNTERMINATED : bytes := bs "SSE frame exceeded 65536 bytes without a terminator".
Definition CLOSED : bytes := bs "RPC subscription stream closed".

(** One event: what is emitted of it, and the stream after it or the error it ends with. *)
Definition on_event (event : SseEvent) (s : Stream) : list SubscriptionEvent * res bytes Stream :=
  if bool_decide (sse_name event = bs "uuid") then
    match subscribe_account (answers (st_requests s)) endpoint (sse_data event) address with
    | Ok _ => ([SubReady (sse_data event)], Ok (mkStream true (S (st_requests s)) (st_buffer s) (st_followed s)))
    | Err error => ([], Err error)
    | Panic => ([], Panic)
    end
  else if (bool_decide (sse_name event = bs "update") || bool_decide (sse_name event = bs "keep-alive")) && st_subscribed s then
    let (update, followed) := parse_subscription_notification (sse_name event) (sse_data event) (st_followed s) in
    (match update with Some update => [SubUpdate update] | None => [] end,
     Ok (mkStream (st_subscribed s) (st_requests s) (st_buffer s) followed))
  else ([], Ok s).

Definition on_frame (raw : bytes) (s : Stream) : list SubscriptionEvent * res bytes Stream :=
  match parse_sse_event raw with None => ([], Ok s) | Some event => on_event event s end.

(** Going on after what was emitted. *)
Definition and_on (r : list SubscriptionEvent * res bytes Stream)
    (k : Stream -> list SubscriptionEvent * res bytes Stream) : list SubscriptionEvent * res bytes Stream :=
  match r with
  | (emitted, Ok s) => let (more, r) := k s in (emitted ++ more, r)
  | _ => r
  end.

(** The frames the buffer holds; each takes at least the bytes of its separator. *)
Fixpoint drain_frames (fuel : nat) (s : Stream) : list SubscriptionEvent * res bytes Stream :=
  match fuel, sse_event_end (st_buffer s) with
  | S fuel, Some (pos, sep_len) =>
      if (MAX_SSE_EVENT_BYTES <? pos)%nat then ([], Err FRAME_TOO_LONG) else
      let raw := take pos (st_buffer s) in
      and_on (on_frame raw (with_buffer (drop (pos + sep_len) (st_buffer s)) s)) (drain_frames fuel)
  | _, _ => ([], Ok s)
  end.

Definition on_chunk (chunk : bytes) (s : Stream) : list SubscriptionEvent * res bytes Stream :=
  let s := with_buffer (st_buffer s ++ from_utf8_lossy chunk) s in
  and_on (drain_frames (length (st_buffer s)) s) (fun s =>
    if (MAX_SSE_EVENT_BYTES <? length (st_buffer s))%nat then ([], Err UNTERMINATED) else ([], Ok s)).

(** What the stream emits of the pieces read, and the error it ends with. *)
Fixpoint read_stream (chunks : list (res bytes bytes)) (s : Stream) : list SubscriptionEvent * res bytes Stream :=
  match chunks with
  | [] => ([], Err CLOSED)
  | Ok chunk :: chunks => and_on (on_chunk chunk s) (read_stream chunks)
  | Err error :: _ => ([], Err (bs "SSE stream read failed: " ++ error))
  | Panic :: _ => ([], Panic)
  end.

(** [account_subscription_loop], given whether its client could be built, the status the
    stream was answered with in time, and the pieces it came in. *)
Definition account_subscription_loop (client : bool) (opened : option (res bytes N)) (chunks : list (res bytes bytes))
  : list SubscriptionEvent * res bytes Stream :=
  if negb client then ([], Err (bs "failed to build SSE HTTP client")) else
  match stream_url_for endpoint with
  | Err error => ([], Err error)
  | Panic => ([], Panic)
  | Ok _ =>
      match opened with
      | None => ([], Err TIMED_OUT)
      | Some (Ok status) =>
          if negb (is_success status) then ([], Err (bs "SSE stream returned HTTP " ++ status_text status))
          else read_stream chunks Stream_new
      | Some (Err error) => ([], Err (bs "SSE stream request failed: " ++ error))
      | Some Panic => ([], Panic)
      end
  end.
End stream.

(** ** Where a frame ends does not change as more is read *)
Lemma find_crlf_lf b x y : find_seq CRLF2 b = Some x -> find_seq LF2 b = Some y -> (y + 2 <= x + 3)%nat -> (y < x)%nat.
Proof.
  intros (Hx & _)%find_seq_Some (Hy & _)%find_seq_Some Hle.
  apply starts_with_iff in Hx as [r Hr], Hy as [r' Hr'].
  assert (Hat : forall i j k c, drop i b = k -> k !! j = Some c -> b !! (i + j)%nat = Some c) by (intros i j k c <-; by rewrite lookup_drop).
  pose proof (fun j c => Hat y j _ c Hr') as Hb. pose proof (fun j c => Hat x j _ c Hr) as Ha.
  destruct (decide (y < x)%nat) as [|Hge]; [done|exfalso].
  assert (y = x \/ y = x + 1)%nat as [-> | ->] by lia.
  - specialize (Ha 0%nat _ eq_refl). specialize (Hb 0%nat _ eq_refl). congruence.
  - specialize (Ha 2%nat _ eq_refl). specialize (Hb 1%nat _ eq_refl).
    replace (x + 1 + 1)%nat with (x + 2)%nat in Hb by lia. congruence.
Qed.

Lemma sse_event_end_app b c r : sse_event_end b = Some r -> sse_event_end (b ++ c) = Some r.
Proof.
  unfold sse_event_end. destruct (find_seq CRLF2 b) as [x|] eqn:Hx, (find_seq LF2 b) as [y|] eqn:Hy; intros E; [..|done].
  - by rewrite (find_seq_app _ _ c _ Hx), (find_seq_app _ _ c _ Hy).
  - rewrite (find_seq_app _ _ c _ Hx). injection E as <-. apply find_seq_Some in Hx as (Hs & Hl & _).
    destruct (find_seq LF2 (b ++ c)) as [y|] eqn:Hy'; [|done]. apply find_seq_new in Hy'; [|done].
    apply starts_with_iff in Hs as [r' Hr]. apply (f_equal (@length byte)) in Hr. rewrite length_drop, length_app in Hr. cbn in Hr, Hy'.
    destruct (Nat.ltb_spec y x); [lia|done].
  - rewrite (find_seq_app _ _ c _ Hy). injection E as <-. pose proof Hy as (Hs & Hl & _)%find_seq_Some.
    destruct (find_seq CRLF2 (b ++ c)) as [x|] eqn:Hx'; [|done].
    assert (Hlt : (y < x)%nat).
    { pose proof (find_seq_new _ _ _ _ Hx Hx') as Hn. apply (find_crlf_lf (b ++ c)); [done|by apply find_seq_app|].
      apply starts_with_iff in Hs as [r' Hr]. apply (f_equal (@length byte)) in Hr. rewrite length_drop, length_app in Hr. cbn in Hr, Hn. lia. }
    by rewrite (proj2 (Nat.ltb_lt _ _) Hlt).
Qed.

Lemma sse_event_end_fits b pos sep_len : sse_event_end b = Some (pos, sep_len) -> (pos + sep_len <= length b)%nat /\ (0 < sep_len)%nat.
Proof.
  assert (Hf : forall p i, find_seq p b = Some i -> (i + length p <= length b)%nat).
  { intros p i (Hs & Hl & _)%find_seq_Some. apply starts_with_iff in Hs as [r Hr].
    apply (f_equal (@length byte)) in Hr. rewrite length_drop, length_app in Hr. lia. }
  unfold sse_event_end. destruct (find_seq CRLF2 b) as [x|] eqn:Hx, (find_seq LF2 b) as [y|] eqn:Hy; try done;
    repeat match goal with H : find_seq _ b = Some _ |- _ => apply Hf in H; cbn in H end; repeat case_match; intros [= <- <-]; lia.
Qed.

(** ** The stream does not depend on how it is cut *)
Section cutting.
Context `{UrlLib} `{BocLib} `{StatusText}.
Variables (endpoint address : bytes) (answers : nat -> url -> json -> SubscribeReply).

Notation framed := (on_frame endpoint address answers).
Notation draining := (drain_frames endpoint address answers).
Notation reading := (read_stream endpoint address answers).
Definition drained (s : Stream) : list SubscriptionEvent * res bytes Stream := draining (length (st_buffer s)) s.
Definition fed (s : Stream) (c : bytes) : Stream := with_buffer (st_buffer s ++ c) s.

Lemma and_on_assoc r k k' : and_on (and_on r k) k' = and_on r (fun s => and_on (k s) k').
Proof.
  destruct r as [e [s|error|]]; cbn [and_on]; [|done..]. destruct (k s) as [e' [s'|error|]]; cbn [and_on]; [|done..].
  destruct (k' s') as [e'' r]. by rewrite app_assoc.
Qed.
Lemma and_on_ext r k k' : (forall s, k s = k' s) -> and_on r k = and_on r k'.
Proof. intros Hk. destruct r as [e [s|error|]]; cbn [and_on]; [by rewrite Hk|done..]. Qed.
Lemma and_on_nil s k : and_on ([], Ok s) k = k s.
Proof. cbn [and_on]. by destruct (k s). Qed.
Lemma fed_fed s c d : fed (fed s c) d = fed s (c ++ d).
Proof. unfold fed. destruct s as [b n buffer f]. cbn [st_buffer with_buffer]. unfold with_buffer. cbn. by rewrite app_assoc. Qed.
Lemma fed_nil s : fed s [] = s.
Proof. unfold fed. destruct s as [b n buffer f]. cbn [st_buffer]. unfold with_buffer. cbn. by rewrite app_nil_r. Qed.

(** An event is handled whatever the buffer holds, and leaves it. *)
Lemma on_frame_buffer raw s b :
  framed raw (with_buffer b s) = (fst (framed raw s), rmap (with_buffer b) (snd (framed raw s))).
Proof.
  unfold on_frame, on_event. destruct (parse_sse_event raw) as [event|]; [|done].
  destruct (bool_decide _); [by cbn [st_requests with_buffer]; destruct (subscribe_account _ _ _ _)|].
  cbn [st_subscribed st_followed with_buffer]. destruct (_ && _); [|done]. by destruct (parse_subscription_notification _ _ _).
Qed.
Lemma on_frame_keeps raw s s' : snd (framed raw s) = Ok s' -> st_buffer s' = st_buffer s.
Proof.
  unfold on_frame, on_event. destruct (parse_sse_event raw) as [event|]; [|by intros [= <-]].
  destruct (bool_decide _); [by destruct (subscribe_account _ _ _ _); [intros [= <-]|..]|].
  destruct (_ && _); [|by intros [= <-]]. destruct (parse_subscription_notification _ _ _). by intros [= <-].
Qed.

Lemma drain_fuel fuel : forall s, (length (st_buffer s) <= fuel)%nat -> draining fuel s = drained s.
Proof.
  unfold drained. induction (lt_wf fuel) as [fuel _ IH]. intros s Hl.
  destruct (sse_event_end (st_buffer s)) as [[pos sep_len]|] eqn:E.
  2: { destruct fuel, (length (st_buffer s)); cbn [drain_frames]; by rewrite ?E. }
  destruct (sse_event_end_fits _ _ _ E) as [Hfit Hpos]. destruct (length (st_buffer s)) as [|n] eqn:Hn; [lia|].
  destruct fuel as [|fuel]; [lia|]. cbn [drain_frames]. rewrite E.
  destruct (_ <? pos)%nat; [done|].
  destruct (framed _ _) as [e [s'|error|]] eqn:Hf; [|done..]. cbn [and_on].
  assert (Hb : st_buffer s' = drop (pos + sep_len) (st_buffer s)) by (rewrite (on_frame_keeps _ _ s' (f_equal snd Hf)); done).
  assert (Hs' : (length (st_buffer s') <= n)%nat) by (rewrite Hb, length_drop; lia).
  rewrite (IH fuel) by lia. destruct (decide (n = fuel)) as [->|]; [by rewrite (IH fuel) by lia|]. by rewrite (IH n) by lia.
Qed.

Lemma drained_eq s : drained s =
  match sse_event_end (st_buffer s) with
  | None => ([], Ok s)
  | Some (pos, sep_len) =>
      if (MAX_SSE_EVENT_BYTES <? pos)%nat then ([], Err FRAME_TOO_LONG) else
      and_on (framed (take pos (st_buffer s)) (with_buffer (drop (pos + sep_len) (st_buffer s)) s)) drained
  end.
Proof.
  unfold drained at 1. destruct (sse_event_end (st_buffer s)) as [[pos sep_len]|] eqn:E.
  2: { destruct (length (st_buffer s)); cbn [drain_frames]; by rewrite ?E. }
  destruct (sse_event_end_fits _ _ _ E) as [Hfit Hpos]. destruct (length (st_buffer s)) as [|n] eqn:Hn; [lia|].
  cbn [drain_frames]. rewrite E. destruct (_ <? pos)%nat; [done|].
  destruct (framed _ _) as [e [s'|error|]] eqn:Hf; [|done..]. cbn [and_on]. rewrite drain_fuel; [done|].
  rewrite (on_frame_keeps _ _ s' (f_equal snd Hf)). cbn [st_buffer with_buffer]. rewrite length_drop. lia.
Qed.

Lemma drained_rests s e s' : drained s = (e, Ok s') -> sse_event_end (st_buffer s') = None.
Proof.
  remember (length (st_buffer s)) as n eqn:Hn. revert s e Hn. induction (lt_wf n) as [n _ IH]. intros s e ->. rewrite drained_eq.
  destruct (sse_event_end (st_buffer s)) as [[pos sep_len]|] eqn:E; [|by intros [= _ <-]].
  destruct (sse_event_end_fits _ _ _ E) as [Hfit Hpos]. destruct (_ <? pos)%nat; [done|].
  destruct (framed _ _) as [e1 [s1|error|]] eqn:Hf; [|done..]. cbn [and_on].
  destruct (drained s1) as [e2 r] eqn:Hd. intros [= _ ->]. refine (IH _ _ s1 e2 eq_refl Hd).
  rewrite (on_frame_keeps _ _ s1 (f_equal snd Hf)). cbn [st_buffer with_buffer]. rewrite length_drop. lia.
Qed.

(** What is read later is read as if it had come at once. *)
Lemma drained_more s c : drained (fed s c) = and_on (drained s) (fun s' => drained (fed s' c)).
Proof.
  remember (length (st_buffer s)) as n eqn:Hn. revert s Hn. induction (lt_wf n) as [n _ IH]. intros s ->.
  rewrite (drained_eq s). destruct (sse_event_end (st_buffer s)) as [[pos sep_len]|] eqn:E; [|by rewrite and_on_nil].
  rewrite (drained_eq (fed s c)). unfold fed at 1 2 3. cbn [st_buffer with_buffer]. rewrite (sse_event_end_app _ c _ E).
  destruct (sse_event_end_fits _ _ _ E) as [Hfit Hpos]. destruct (_ <? pos)%nat; [done|].
  rewrite take_app_le, drop_app_le by lia. rewrite and_on_assoc.
  change (with_buffer (drop (pos + sep_len) (st_buffer s) ++ c) (fed s c)) with (with_buffer (drop (pos + sep_len) (st_buffer s) ++ c) s).
  rewrite !on_frame_buffer. destruct (framed (take pos (st_buffer s)) s) as [e [s'|error|]] eqn:Hf; cbn [fst snd and_on]; [|done..].
  change (rmap ?f (@Ok ?E _ s')) with (@Ok E _ (f s')). cbn [and_on].
  change (with_buffer (drop (pos + sep_len) (st_buffer s) ++ c) s')
    with (fed (with_buffer (drop (pos + sep_len) (st_buffer s)) s') c).
  rewrite (IH (length (drop (pos + sep_len) (st_buffer s)))); [done| |done]. rewrite length_drop. lia.
Qed.

(** Between two pieces: no whole frame is left, and not too much of the next one. *)
Definition waits (s : Stream) : Prop := sse_event_end (st_buffer s) = None /\ (length (st_buffer s) <= MAX_SSE_EVENT_BYTES)%nat.

Lemma on_chunk_text chunk s : utf8_valid chunk = true ->
  on_chunk endpoint address answers chunk s = and_on (drained (fed s chunk)) (fun s =>
    if (MAX_SSE_EVENT_BYTES <? length (st_buffer s))%nat then ([], Err UNTERMINATED) else ([], Ok s)).
Proof. intros Hv. unfold on_chunk. by rewrite (lossy_valid chunk Hv). Qed.

Definition too_much_of_a_frame (s : Stream) (text : bytes) (r : list SubscriptionEvent * res bytes Stream) : Prop :=
  exists part rest s', text = part ++ rest /\ drained (fed s part) = (fst r, Ok s')
    /\ (MAX_SSE_EVENT_BYTES < length (st_buffer s'))%nat /\ snd r = Err UNTERMINATED.

Lemma read_as_one chunks : Forall (fun chunk => utf8_valid chunk = true) chunks -> forall s, waits s ->
  let r := reading (Ok <$> chunks) s in
  r = reading [Ok (concat chunks)] s
  \/ too_much_of_a_frame s (concat chunks) r /\ fst r `prefix_of` fst (reading [Ok (concat chunks)] s).
Proof.
  assert (Hone : forall text s, utf8_valid text = true -> reading [Ok text] s =
    and_on (drained (fed s text)) (fun s => if (MAX_SSE_EVENT_BYTES <? length (st_buffer s))%nat then ([], Err UNTERMINATED) else ([], Err CLOSED))).
  { intros text s Hv. cbn [read_stream]. rewrite on_chunk_text, and_on_assoc by done. apply and_on_ext. intros s'. by destruct (_ <? _)%nat. }
  intros Hall s Hw r. subst r. revert s Hw. induction Hall as [|c cs Hc Hcs IH]; intros s Hw; cbn [concat].
  - left. rewrite Hone by done. rewrite fed_nil, drained_eq, (proj1 Hw), and_on_nil.
    destruct Hw as [_ Hw]. by rewrite (proj2 (Nat.ltb_ge _ _) Hw).
  - assert (Htext : utf8_valid (concat cs) = true).
    { clear -Hcs. induction Hcs as [|c cs Hc _ IH]; [done|]. cbn [concat]. apply utf8_valid_iff, utf8_app; by apply utf8_valid_iff. }
    assert (Hboth : utf8_valid (c ++ concat cs) = true) by (apply utf8_valid_iff, utf8_app; by apply utf8_valid_iff).
    rewrite (Hone _ _ Hboth), <- fed_fed, drained_more. cbn [fmap list_fmap read_stream]. rewrite on_chunk_text by done.
    destruct (drained (fed s c)) as [e [s1|error|]] eqn:Hd; cbn [and_on]; [|by left..].
    destruct (Nat.ltb_spec MAX_SSE_EVENT_BYTES (length (st_buffer s1))) as [Hlong|Hshort]; cbn [and_on].
    + right. rewrite app_nil_r. split; [|destruct (drained (fed s1 (concat cs))) as [e2 r2]; cbn [and_on fst];
        destruct r2; [case_match|..]; cbn [fst]; rewrite <- ?app_assoc; by eexists].
      exists c, (concat cs), s1. by repeat split.
    + assert (Hw1 : waits s1) by (split; [by eapply drained_rests|done]). rewrite app_nil_r.
      pose proof (Hone (concat cs) s1 Htext) as Hrest.
      specialize (IH s1 Hw1). destruct (reading (Ok <$> cs) s1) as [e1 r1]. rewrite Hrest in IH.
      destruct (drained (fed s1 (concat cs))) as [e2 r2] eqn:Hd2. cbn [and_on] in IH |- *.
      destruct IH as [IH|[(part & rest & s2 & Ht & Hp & Hl & Hr) [e3 Hpre]]].
      * left. destruct r2 as [s2|error|]; [destruct (_ <? _)%nat|..]; injection IH as -> ->; by rewrite ?app_assoc.
      * right. cbn [fst snd] in *. split.
        -- exists (c ++ part), rest, s2. rewrite Ht, app_assoc. split; [done|]. split; [|done].
           rewrite <- fed_fed, drained_more, Hd. cbn [and_on]. by rewrite Hp.
        -- exists e3. destruct r2 as [s3|error|]; [destruct (_ <? _)%nat|..]; cbn [and_on fst] in *; rewrite <- ?app_assoc, ?Hpre; by rewrite ?app_assoc.
Qed.
End cutting.

Section reading.
Context `{UrlLib} `{BocLib} `{StatusText}.
Variables (endpoint address : bytes) (answers : nat -> url -> json -> SubscribeReply).

Lemma drained_shrinks s e s' : drained endpoint address answers s = (e, Ok s') -> (length (st_buffer s') <= length (st_buffer s))%nat.
Proof.
  remember (length (st_buffer s)) as n eqn:Hn. revert s e Hn. induction (lt_wf n) as [n _ IH]. intros s e ->. rewrite drained_eq.
  destruct (sse_event_end (st_buffer s)) as [[pos sep_len]|] eqn:E; [|by intros [= _ <-]].
  destruct (sse_event_end_fits _ _ _ E) as [Hfit Hpos]. destruct (_ <? pos)%nat; [done|].
  destruct (on_frame _ _ _ _ _) as [e1 [s1|error|]] eqn:Hf; [|done..]. cbn [and_on].
  destruct (drained _ _ _ s1) as [e2 r] eqn:Hd. intros [= _ ->].
  assert (Hb : length (st_buffer s1) = (length (st_buffer s) - (pos + sep_len))%nat).
  { rewrite (on_frame_keeps _ _ _ _ _ s1 (f_equal snd Hf)). cbn [st_buffer with_buffer]. by rewrite length_drop. }
  pose proof (IH (length (st_buffer s1)) ltac:(lia) s1 e2 eq_refl Hd). lia.
Qed.

(** Nothing is told before the account is subscribed. *)
Definition opens_with_ready (r : list SubscriptionEvent * res bytes Stream) : Prop :=
  match fst r with
  | [] => forall s, snd r = Ok s -> st_subscribed s = false
  | first :: _ => exists uuid, first = SubReady uuid
  end.

Lemma opens_then r k : opens_with_ready r -> (forall s, st_subscribed s = false -> opens_with_ready (k s)) -> opens_with_ready (and_on r k).
Proof.
  destruct r as [[|first e] [s|error|]]; unfold opens_with_ready; cbn [and_on fst snd]; intros Hr Hk; try done.
  - specialize (Hk s (Hr s eq_refl)). by destruct (k s) as [e r].
  - by destruct (k s) as [e' r].
Qed.

Lemma on_frame_opens raw s : st_subscribed s = false -> opens_with_ready (on_frame endpoint address answers raw s).
Proof.
  intros Hs. unfold on_frame, on_event. destruct (parse_sse_event raw) as [event|]; [|by intros s' [= <-]].
  destruct (bool_decide _); [destruct (subscribe_account _ _ _ _); [by eexists|done..]|].
  rewrite Hs, andb_false_r. by intros s' [= <-].
Qed.

Lemma drain_opens fuel : forall s, st_subscribed s = false -> opens_with_ready (drain_frames endpoint address answers fuel s).
Proof.
  induction fuel as [|fuel IH]; intros s Hs; cbn [drain_frames]; [by intros s' [= <-]|].
  destruct (sse_event_end _) as [[pos sep_len]|]; [|by intros s' [= <-]]. destruct (_ <? pos)%nat; [done|].
  apply opens_then; [by apply on_frame_opens|done].
Qed.

Lemma read_opens chunks : forall s, st_subscribed s = false -> opens_with_ready (read_stream endpoint address answers chunks s).
Proof.
  induction chunks as [|[chunk|error|] chunks IH]; intros s Hs; cbn [read_stream]; [done| |done..].
  apply opens_then; [|done]. unfold on_chunk. apply opens_then; [by apply drain_opens|].
  intros s' Hs'. destruct (_ <? _)%nat; [done|by intros s2 [= <-]].
Qed.

End reading.

(** Every count of dropped notifications that is higher than those before is told, with the
    last update again where there was one, and none is told twice. *)
Lemma drops_are_told `{BocLib} name data f :
  let (update, f') := parse_subscription_notification name data f in
  fo_dropped f <= fo_dropped f'
  /\ (name = bs "keep-alive" ->
      (update = None <-> match parse_stream_counter data (bs "dropped") with Some n => n <= fo_dropped f | None => True end)
      /\ (fo_dropped f < fo_dropped f' <-> update <> None)).
Proof.
  unfold parse_subscription_notification. case_bool_decide as Hu.
  - split; [cbn; destruct (parse_stream_counter _ _); lia|]. intros ->. done.
  - case_bool_decide as Hk; [|by split].
    destruct (parse_stream_counter data (bs "dropped")) as [n|].
    + destruct (N.leb_spec n (fo_dropped f)); cbn; (split; [lia|]); intros _; (split; [|]); split; try done; try lia.
    + split; [lia|]. intros _. split; [done|]. split; [lia|done].
Qed.

(** ** A node to run: it accepts the subscription, and tells of one update *)
Definition toy_node : @BocLib toy_cells := {|
  base64_decode l := Some l;
  base64_encode l := l;
  boc_decode l := None;
  boc_encode c := [];
  value_from_slice l :=
    if bool_decide (l = bs "yes") then Ok (JObj [(bs "jsonrpc", JStr (bs "2.0")); (bs "id", JInt 1); (bs "result", JBool true)])
    else if bool_decide (l = bs "update") then Ok (JObj [(bs "maxLt", JStr (bs "42")); (bs "genUtime", JInt 7)])
    else Err (bs "expected value")
|}.
Definition toy_status : StatusText := {| status_text := print_dec |}.
Definition demo_answers (n : nat) (u : ToyUrl) (request : json) : SubscribeReply :=
  Replied (Ok (mkResponse 200 None None [Ok (bs "yes")])) true.
Definition demo_pieces : list bytes :=
  [bs "event: uuid" ++ [Byte.x0a] ++ bs "data: abc" ++ [Byte.x0d; Byte.x0a; Byte.x0d];
   Byte.x0a :: bs "event: upd"; bs "ate" ++ [Byte.x0a] ++ bs "data:update" ++ [Byte.x0a]; [Byte.x0a]].


(** A character cut between two pieces is replaced in both: the name of a subscription that
    is not ASCII would not be the one the node gave. *)
Lemma cut_characters_are_replaced :
  exists first second,
    let run chunks := fst (@read_stream toy_urls toy_cells toy_node toy_status (bs "https://node") (bs "0:1") demo_answers (Ok <$> chunks) Stream_new) in
    utf8_valid (first ++ second) = true
    /\ run [first ++ second] = [SubReady [Byte.xc3; Byte.xa9]]
    /\ run [first; second] = [SubReady (REPLACEMENT ++ REPLACEMENT)].
Proof.
  exists (bs "event: uuid" ++ [Byte.x0a] ++ bs "data: " ++ [Byte.xc3]), [Byte.xa9; Byte.x0a; Byte.x0a]. by vm_compute.
Qed.
