(* ===== verification/Signing.v ===== *)
(** * The wallet contract and what it signs

    cc-wallet-tycho/src/everwallet.rs: the state init and address of the contract, the state
    of an account as the wallet keeps it, the internal message of a transfer and the external
    message that carries it, signed and with a time to live.  The encoding of messages and of
    the arguments of the contract, and ed25519, are parameters. *)

From Stdlib Require Import NArith ZArith Lia.
From stdpp Require Import list.
From S2P Require Import Prelude Ord Bytes Text Decimal Ids Asset Amount Send VaultKeys.
From S2P Require Import ChainData AppState Comment Vault Prepare Transmit Transfers ChainStorage.

(** The message inside: what [OwnedRelaxedMessage] is given. *)
Record InternalMessage `{CellLib} `{MessageLib} := mkInternal {
  im_dst : StdAddr Anycast;
  im_bounce : bool;
  im_tokens : N;
  im_other : list (N * N);
  im_init : option StateInit;
  im_body : cell
}.

(** What the code uses of tycho_types to encode and sign messages. *)
Class MessageCodec `{StorageLib} `{CurveLib} := {
  SignatureContext : Type;
  (** [ExtraCurrencyCollection::try_from_iter] succeeds. *)
  collects : list (N * N) -> bool;
  internal_cell : InternalMessage -> res bytes cell;
  (** The arguments of [sendTransactionRaw]. *)
  abi_values : Type;
  send_raw_inputs : N -> cell -> res bytes abi_values;
  (** The external message to the contract: arguments, key, time, expiry, address, state init. *)
  unsigned_message : Type;
  external_message : abi_values -> verifying_key -> N -> N -> StdAddr Anycast -> res bytes unsigned_message;
  with_state_init_opt : unsigned_message -> option StateInit -> unsigned_message;
  sign_message : unsigned_message -> signing_key -> SignatureContext -> res bytes cell;
  load_u64 : slice -> res bytes (N * slice);
  load_u256 : slice -> res bytes (bytes32 * slice);
  (** What an account holds beside what is read of it: its address and storage statistics. *)
  account_rest : Type;
  new_account_rest : StdAddr Anycast -> account_rest
}.

(** ** The state of an account *)
Inductive AccountStatus := StatusActive | StatusFrozen | StatusUninit | StatusNotExists.
#[export] Instance AccountStatus_eq_dec : EqDecision AccountStatus.
Proof. solve_decision. Defined.

Record WalletState := mkWalletState {
  wst_updated : bool;
  wst_status : AccountStatus;
  wst_balance : N;
  wst_extra_balance : btree N bytes;
  wst_last_trans_lt : N;
  wst_last_message_ms : option N;
  wst_gen_lt : option N;
  wst_gen_utime : option N;
  wst_observed_network_time : option ObservedTime
}.
Definition WalletState_default : WalletState := mkWalletState false StatusNotExists 0 [] 0 None None None None.
Definition wst_is_active (s : WalletState) : bool := bool_decide (wst_status s = StatusActive).

Section accounts.
Context `{MessageCodec}.

(** What a node tells of an account; its extra currencies are a dictionary whose entries may
    fail to decode. *)
Inductive CoreState := CoreActive (code data : option cell) | CoreFrozen | CoreUninit.
Record ChainAccount := mkChainAccount {
  ca_state : CoreState;
  ca_tokens : N;
  ca_other : list (res bytes (N * N));
  ca_last_trans_lt : N;
  ca_rest : account_rest
}.
Record AccountTimings := mkTimings { at_gen_lt : N; at_gen_utime : N }.
Record LastTransactionId := mkLastTransaction { lt_hash : bytes; lt_is_exact : bool; lt_lt : N }.
Inductive AccountState :=
| AccountExists (account : ChainAccount) (account_boc_base64 : bytes) (last_transaction_id : option LastTransactionId)
    (timings : AccountTimings)
| AccountNotExists (timings : option AccountTimings)
| AccountUnchanged (timings : AccountTimings).

Definition timings_of (state : AccountState) : option AccountTimings :=
  match state with
  | AccountExists _ _ _ timings | AccountUnchanged timings => Some timings
  | AccountNotExists timings => timings
  end.

Definition EVER_WALLET_CODE_BOC : bytes := bs "te6cckEBBgEA/AABFP8A9KQT9LzyyAsBAgEgAgMABNIwAubycdcBAcAA8nqDCNcY7UTQgwfXAdcLP8j4KM8WI88WyfkAA3HXAQHDAJqDB9cBURO68uBk3oBA1wGAINcBgCDXAVQWdfkQ8qj4I7vyeWa++COBBwiggQPoqFIgvLHydAIgghBM7mRsuuMPAcjL/8s/ye1UBAUAmDAC10zQ+kCDBtcBcdcBeNcB10z4AHCAEASqAhSxyMsFUAXPFlAD+gLLaSLQIc8xIddJoIQJuZgzcAHLAFjPFpcwcQHLABLM4skB+wAAPoIQFp4+EbqOEfgAApMg10qXeNcB1AL7AOjRkzLyPOI+zYS/".
Definition ever_wallet_code : res Empty_set cell := expect (decode_base64 EVER_WALLET_CODE_BOC).
Definition code_hash_text (code : cell) : bytes := to_hex (repr_hash code).
Definition ever_wallet_code_hash : res Empty_set bytes := rmap code_hash_text ever_wallet_code.

Definition ever_wallet_replay_ms (data : cell) : option N :=
  s ← opt_ok (as_slice data);
  '(_, s) ← opt_ok (load_u256 s);
  fst <$> opt_ok (load_u64 s).

Definition account_replay_ms (account : ChainAccount) : res bytes (option N) :=
  match ca_state account with
  | CoreActive code data =>
      match code with
      | None => Ok None
      | Some code =>
          let? wallet_hash := rexpect ever_wallet_code_hash in
          Ok (if bool_decide (code_hash_text code = wallet_hash) then data ≫= ever_wallet_replay_ms else None)
      end
  | _ => Ok None
  end.

Fixpoint extra_currencies_to_strings (entries : list (res bytes (N * N))) (result : btree N bytes) : res bytes (btree N bytes) :=
  match entries with
  | [] => Ok result
  | entry :: entries =>
      let? (currency_id, amount) := map_err (fun _ => bs "failed to decode an extra-currency dictionary entry") entry in
      extra_currencies_to_strings entries (bt_insert currency_id (print_dec amount) result)
  end.

Definition status_of (state : CoreState) : AccountStatus :=
  match state with CoreActive _ _ => StatusActive | CoreFrozen => StatusFrozen | CoreUninit => StatusUninit end.

Definition from_account_state (state : AccountState) : res bytes (option WalletState) :=
  match state with
  | AccountExists account _ _ timings =>
      let? extra := map_err (fun _ => bs "account extra-currency balance is undecodable")
                      (extra_currencies_to_strings (ca_other account) []) in
      let? last_message_ms := account_replay_ms account in
      Ok (Some (mkWalletState true (status_of (ca_state account)) (ca_tokens account) extra (ca_last_trans_lt account)
                  last_message_ms (Some (at_gen_lt timings)) (Some (at_gen_utime timings)) None))
  | AccountNotExists timings =>
      Ok (Some (mkWalletState true StatusNotExists 0 [] 0 None (at_gen_lt <$> timings) (at_gen_utime <$> timings) None))
  | AccountUnchanged _ => Ok None
  end.

(** ** The wallet *)
Record EverWallet := mkEverWallet {
  ew_keys : signing_key;
  ew_address : StdAddr Anycast;
  ew_state : WalletState
}.

Definition make_wallet_state_init (key : verifying_key) : res bytes StateInit :=
  let? data := map_err (fun _ => bs "failed to build wallet state data")
    (let? b := store_raw builder_new (as_bytes (verifying_to_bytes key)) 256 in
     let? b := store_u64 b 0 in
     build b) in
  let? code := rexpect ever_wallet_code in
  Ok (state_init code data).

Definition compute_address_hash (key : verifying_key) : res bytes bytes32 :=
  let? init := make_wallet_state_init key in
  rmap repr_hash (map_err (fun _ => bs "failed to build wallet state init cell") (build_state_init init)).
Definition compute_address (workchain : Z) (key : verifying_key) : res bytes (StdAddr Anycast) :=
  rmap (mkStdAddr None workchain) (compute_address_hash key).
Definition with_shared_keys (keys : signing_key) (workchain : Z) : res bytes EverWallet :=
  let? address := compute_address workchain (public_of keys) in
  Ok (mkEverWallet keys address WalletState_default).

Definition with_observed_time (time : option ObservedTime) (s : WalletState) : WalletState :=
  mkWalletState (wst_updated s) (wst_status s) (wst_balance s) (wst_extra_balance s) (wst_last_trans_lt s)
    (wst_last_message_ms s) (wst_gen_lt s) (wst_gen_utime s) time.

Definition apply_account_state (state : AccountState) (w : EverWallet) : res bytes EverWallet :=
  let? parsed := from_account_state state in
  let s := match parsed with
           | Some parsed => parsed
           | None =>
               let s := ew_state w in
               mkWalletState true (wst_status s) (wst_balance s) (wst_extra_balance s) (wst_last_trans_lt s)
                 (wst_last_message_ms s)
                 (match timings_of state with Some t => Some (at_gen_lt t) | None => wst_gen_lt s end)
                 (match timings_of state with Some t => Some (at_gen_utime t) | None => wst_gen_utime s end)
                 (wst_observed_network_time s)
           end in
  Ok (mkEverWallet (ew_keys w) (ew_address w) (with_observed_time None s)).

Definition apply_observed_account_state (state : AccountState) (network_time : option ObservedTime) (w : EverWallet)
  : res bytes EverWallet :=
  let? w := apply_account_state state w in
  Ok (mkEverWallet (ew_keys w) (ew_address w) (with_observed_time network_time (ew_state w))).

(** ** Messages *)
Definition ensure_supported_extra_currency_id (cc_id : N) : res bytes unit :=
  check (0 <? cc_id) && (cc_id <=? MAX_EVER_EXTRA_CURRENCY_ID)
    else bs "extra currency ids must be from 1 to 2147483647; got " ++ print_dec cc_id;; Ok tt.

Fixpoint currency_entries (extra : btree N N) : res bytes (list (N * N)) :=
  match extra with
  | [] => Ok []
  | (cc_id, amount) :: extra =>
      if amount =? 0 then currency_entries extra else
      let? _ := ensure_supported_extra_currency_id cc_id in
      let? entries := currency_entries extra in
      Ok ((cc_id, amount) :: entries)
  end.

Definition EMPTY_PAYLOAD : res Empty_set cell := expect (opt_ok (build builder_new)).

Definition build_internal_message (t : EverTransfer) : res bytes cell :=
  let? entries := currency_entries (et_extra_currencies t) in
  check collects entries else bs "failed to build extra currency collection";;
  let? body := match et_payload t with Some payload => Ok payload | None => rexpect EMPTY_PAYLOAD end in
  map_err (fun _ => bs "failed to build internal message cell")
    (internal_cell (mkInternal _ _ _ (et_dest t) (et_bounce t) (et_native_amount t) entries (et_dest_state_init t) body)).

Record PreparedMessage := mkPrepared {
  pm_message_hash : bytes;
  pm_message : cell;
  pm_created_at_ms : N;
  pm_expire_at : N
}.

Definition prepare_send_currency_at (w : EverWallet) (transfer : EverTransfer) (context : SignatureContext)
    (include_state_init : bool) (created_at_ms ttl_secs : N) : res bytes PreparedMessage :=
  let? internal_message := build_internal_message transfer in
  let? expire_at := checked_expire_at created_at_ms ttl_secs in
  let? inputs := send_raw_inputs (et_flags transfer) internal_message in
  let? deploy_state_init := if include_state_init then rmap Some (make_wallet_state_init (public_of (ew_keys w))) else Ok None in
  let? unsigned := external_message inputs (public_of (ew_keys w)) created_at_ms expire_at (ew_address w) in
  let? message := sign_message (with_state_init_opt unsigned deploy_state_init) (ew_keys w) context in
  Ok (mkPrepared (to_hex (repr_hash message)) message created_at_ms expire_at).

(** The two clocks, in milliseconds; the wall clock may stand before 1970. *)
Definition checked_now_ms (w : EverWallet) (now_mono : N) (now_ms : res bytes N) : res bytes N :=
  let? now := now_ms in
  let? _ := validate_clock_skew now_mono (now / 1000) (wst_observed_network_time (ew_state w)) in
  Ok now.

Definition prepare_send_currency (w : EverWallet) (now_mono : N) (now_ms : res bytes N) (transfer : EverTransfer)
    (context : SignatureContext) : res bytes PreparedMessage :=
  let? now := checked_now_ms w now_mono now_ms in
  prepare_send_currency_at w transfer context (negb (wst_is_active (ew_state w))) now DEFAULT_TTL_SECS.
End accounts.

(** ** What is signed *)
Section signed.
Context `{CodecWith : MessageCodec} `{!StdAddrLaws} `{!CellLaws} `{VaultPrims}.

(** The currencies of a message that carries this and nothing else. *)
Definition tokens_of (value : AssetAmount) : N := match value with NativeAmount units => units | CcAssetAmount _ _ => 0 end.
Definition other_of (value : AssetAmount) : list (N * N) :=
  match value with NativeAmount _ => [] | CcAssetAmount id units => [(id, cc_value units)] end.

Lemma carried_entries t value : carries t value -> is_sendable (asset_id value) = true -> units_of value <> 0 ->
  et_native_amount t = tokens_of value /\ currency_entries (et_extra_currencies t) = Ok (other_of value).
Proof.
  intros Hc Hs Hu. destruct value as [units|id units]; destruct Hc as [-> ->]; (split; [done|]); [done|].
  cbn [currency_entries other_of units_of] in *. apply N.eqb_neq in Hu. rewrite Hu.
  assert (id = 1 \/ id = 2 \/ id = 3) as [-> |[-> | ->]] by by apply is_known_cc_iff. all: done.
Qed.

(** The clocks allow it, and the encoder and the signer do what they are asked. *)
Definition codec_works : Prop :=
  (forall entries, collects entries = true) /\ (forall m, is_ok (internal_cell m) = true)
  /\ (forall flags c, is_ok (send_raw_inputs flags c) = true)
  /\ (forall i k t x a, is_ok (external_message i k t x a) = true)
  /\ (forall u k c, is_ok (sign_message u k c) = true)
  /\ (forall key, is_ok (make_wallet_state_init key) = true).

(** Exactly this was encoded and signed. *)
Definition signed_for (w : EverWallet) (m : InternalMessage) (flags : N) (context : SignatureContext) (p : PreparedMessage) : Prop :=
  exists inner inputs unsigned init,
    internal_cell m = Ok inner /\ send_raw_inputs flags inner = Ok inputs
    /\ (if wst_is_active (ew_state w) then init = None
        else exists i, make_wallet_state_init (public_of (ew_keys w)) = Ok i /\ init = Some i)
    /\ external_message inputs (public_of (ew_keys w)) (pm_created_at_ms p) (pm_expire_at p) (ew_address w) = Ok unsigned
    /\ sign_message (with_state_init_opt unsigned init) (ew_keys w) context = Ok (pm_message p)
    /\ pm_message_hash p = to_hex (repr_hash (pm_message p)).

Lemma prepared_is_signed w now_mono now t context p m :
  et_dest t = im_dst m -> et_bounce t = im_bounce m -> et_native_amount t = im_tokens m ->
  currency_entries (et_extra_currencies t) = Ok (im_other m) -> et_dest_state_init t = im_init m ->
  (match et_payload t with Some c => Ok c | None => rexpect EMPTY_PAYLOAD end = @Ok bytes _ (im_body m)) ->
  prepare_send_currency w now_mono (Ok now) t context = Ok p ->
  signed_for w m (et_flags t) context p
  /\ pm_created_at_ms p = now /\ checked_expire_at now DEFAULT_TTL_SECS = Ok (pm_expire_at p)
  /\ validate_clock_skew now_mono (now / 1000) (wst_observed_network_time (ew_state w)) = Ok tt.
Proof.
  intros Hd Hb Hn He Hi Hp Hprep. unfold prepare_send_currency, checked_now_ms in Hprep. cbn [rbind] in Hprep.
  destruct (validate_clock_skew _ _ _) as [[]| |] eqn:Hskew; cbn [rbind] in Hprep; [|done..].
  unfold prepare_send_currency_at, build_internal_message in Hprep. rewrite He in Hprep. cbn [rbind] in Hprep.
  destruct (collects _); [|done]. rewrite Hp in Hprep. cbn [rbind] in Hprep. rewrite Hd, Hb, Hn, Hi in Hprep.
  replace (mkInternal _ _ _ (im_dst m) (im_bounce m) (im_tokens m) (im_other m) (im_init m) (im_body m)) with m in Hprep by by destruct m.
  destruct (internal_cell m) as [inner| |] eqn:Hinner; cbn [map_err rbind] in Hprep; [|done..].
  destruct (checked_expire_at now _) as [expire_at| |] eqn:Hexp; cbn [rbind] in Hprep; [|done..].
  destruct (send_raw_inputs _ _) as [inputs| |] eqn:Hinputs; cbn [rbind] in Hprep; [|done..].
  destruct (if negb _ then _ else _) as [init| |] eqn:Hinit; cbn [rbind] in Hprep; [|done..].
  destruct (external_message _ _ _ _ _) as [unsigned| |] eqn:Hext; cbn [rbind] in Hprep; [|done..].
  destruct (sign_message _ _ _) as [message| |] eqn:Hsign; cbn [rbind] in Hprep; [|done..].
  injection Hprep as <-. split; [|done]. exists inner, inputs, unsigned, init. split; [done|]. split; [done|]. split; [|done].
  destruct (wst_is_active _); cbn [negb] in Hinit; [by injection Hinit as <-|].
  destruct (make_wallet_state_init _) as [i| |]; [|done..]. injection Hinit as <-. eauto.
Qed.

Lemma prepared_when_possible w now_mono now t context entries (body : cell) :
  codec_works -> currency_entries (et_extra_currencies t) = Ok entries ->
  match et_payload t with Some c => Ok c | None => rexpect EMPTY_PAYLOAD end = @Ok bytes _ body ->
  validate_clock_skew now_mono (now / 1000) (wst_observed_network_time (ew_state w)) = Ok tt ->
  now / 1000 + DEFAULT_TTL_SECS <= u32_max ->
  exists p, prepare_send_currency w now_mono (Ok now) t context = Ok p.
Proof.
  intros (Hcol & Hint & Hin & Hext & Hsig & Hinit) He Hp Hskew Hmax.
  unfold prepare_send_currency, checked_now_ms. cbn [rbind]. rewrite Hskew. cbn [rbind].
  unfold prepare_send_currency_at, build_internal_message. rewrite He. cbn [rbind]. rewrite Hcol, Hp. cbn [rbind].
  destruct (proj1 (is_ok_true _) (Hint (mkInternal _ _ _ (et_dest t) (et_bounce t) (et_native_amount t) entries (et_dest_state_init t) body)))
    as [inner ->]. cbn [map_err rbind].
  unfold checked_expire_at. rewrite (proj2 (N.leb_le _ _)) by lia.
  rewrite (proj2 (checked_add_Some u32_max (now / 1000) DEFAULT_TTL_SECS (now / 1000 + DEFAULT_TTL_SECS))) by done. cbn [ok_or rbind].
  destruct (proj1 (is_ok_true _) (Hin (et_flags t) inner)) as [inputs ->]. cbn [rbind].
  assert (exists init, (if negb (wst_is_active (ew_state w)) then rmap Some (make_wallet_state_init (public_of (ew_keys w))) else @Ok bytes _ None) = Ok init)
    as [init ->].
  { destruct (wst_is_active _); cbn [negb]; [eauto|]. destruct (proj1 (is_ok_true _) (Hinit (public_of (ew_keys w)))) as [i ->]. by eexists. }
  cbn [rbind]. destruct (proj1 (is_ok_true _) (Hext inputs (public_of (ew_keys w)) now (now / 1000 + DEFAULT_TTL_SECS) (ew_address w))) as [unsigned ->].
  cbn [rbind]. destruct (proj1 (is_ok_true _) (Hsig (with_state_init_opt unsigned init) (ew_keys w) context)) as [message ->]. by eexists.
Qed.
End signed.

Section carries_on.
Context `{CodecWith : MessageCodec} `{!StdAddrLaws} `{!CellLaws} `{VaultPrims}.

Lemma empty_payload : exists c, rexpect EMPTY_PAYLOAD = @Ok bytes _ c /\ read_comment c = None.
Proof.
  destruct (stored_build _ _ _ stored_new) as (c & s & Hb & Hs & Hd & _). exists c.
  unfold EMPTY_PAYLOAD. rewrite Hb. split; [done|]. unfold read_comment. rewrite Hs. cbn [opt].
  by rewrite (holds_bits _ _ Hd).
Qed.

Lemma not_zero value : is_zero value = false -> units_of value <> 0.
Proof.
  destruct value as [units|id units]; cbn [is_zero units_of]; [by intros ?%N.eqb_neq|].
  intros Hz Hu. apply cc_is_zero_iff in Hu. congruence.
Qed.

Lemma request_nonzero (r : SendRequest) : validate_chain_request r = Ok tt -> units_of (sr_value r) <> 0.
Proof.
  unfold validate_chain_request. destruct (canonicalize_recipient _) as [c| |]; cbn [map_err rbind]; [|done..].
  case_bool_decide; cbn [negb]; [|done]. destruct (is_zero _) eqn:Hz; [done|]. intros _. by apply not_zero.
Qed.

Lemma applied_state state time w w' : apply_observed_account_state state time w = Ok w' ->
  ew_keys w' = ew_keys w /\ ew_address w' = ew_address w /\ wst_observed_network_time (ew_state w') = time.
Proof.
  unfold apply_observed_account_state, apply_account_state. destruct (from_account_state state) as [parsed| |]; cbn [rbind]; [|done..].
  by intros [= <-].
Qed.

Lemma address_of_keys keys workchain w : with_shared_keys keys workchain = Ok w ->
  ew_keys w = keys /\ exists init c, make_wallet_state_init (public_of keys) = Ok init /\ build_state_init init = Ok c
                        /\ ew_address w = mkStdAddr None workchain (repr_hash c).
Proof.
  unfold with_shared_keys, compute_address, compute_address_hash. destruct (make_wallet_state_init _) as [init| |]; cbn; [|done..].
  destruct (build_state_init init) as [c| |] eqn:Hc; cbn; [|done..]. intros [= <-]. eauto 6.
Qed.

(** What is signed is what was asked for.  A wallet made from keys has the address its own
    state init hashes to.  For a checked request whose comment is text within the limit, there
    is one message: to the request's address, with exactly its amount, in the native coin or
    in one extra currency and in no other, the bounce flag given, no state init, and the
    comment to be read from its body, or none where there is none.  Whatever the wallet then
    signs for the request is that message, under the flags of a plain transfer, with its own
    key, for its own address, with the state init of that key exactly while the account is not
    active; and it is signed only on a reading of the network's time at most thirty seconds
    old, to expire between ten and seventy seconds after it.  When encoder, signer and clocks
    allow it, it is signed. *)
Lemma signed_message_carries_the_request (keys : signing_key) (workchain : Z) (w0 w : EverWallet) (state : AccountState)
    (observed : ObservedTime) (r : SendRequest) (bounce : bool) (seal : option CommentSeal) (e : entropy)
    (Hw0 : with_shared_keys keys workchain = Ok w0) (Hw : apply_observed_account_state state (Some observed) w0 = Ok w)
    (Hr : validate_chain_request r = Ok tt) (Hv : in_domain (sr_value r)) (Hplain : sr_encrypt_to r = None)
    (Htext : utf8_valid (sr_comment r) = true) (Hlen : (length (sr_comment r) <= Comment.MAX_COMMENT_BYTES)%nat) :
  (ew_keys w = keys /\ exists init c, make_wallet_state_init (public_of keys) = Ok init /\ build_state_init init = Ok c
                         /\ ew_address w = mkStdAddr None workchain (repr_hash c))
  /\ exists t m, build_transfer r bounce seal e = Ok (t, e)
    /\ stdaddr_to_string (im_dst m) = sr_destination r /\ im_bounce m = bounce
    /\ im_tokens m = tokens_of (sr_value r) /\ im_other m = other_of (sr_value r) /\ im_init m = None
    /\ read_comment (im_body m) = (if bool_decide (sr_comment r = []) then None else Some (sr_comment r))
    /\ (forall now_mono now context p, prepare_send_currency w now_mono (Ok now) t context = Ok p ->
          signed_for w m SAFE_SEND_FLAGS context p /\ pm_created_at_ms p = now
          /\ ot_elapsed now_mono observed <= NETWORK_TIME_MAX_AGE_MS
          /\ ot_value observed + CLOCK_SKEW_MARGIN_SECS <= pm_expire_at p <= ot_value observed + CLOCK_SKEW_MARGIN_SECS + DEFAULT_TTL_SECS)
    /\ (codec_works -> forall now_mono now context, validate_clock_skew now_mono (now / 1000) (Some observed) = Ok tt ->
          now / 1000 + DEFAULT_TTL_SECS <= u32_max -> exists p, prepare_send_currency w now_mono (Ok now) t context = Ok p).
Proof.
  destruct (applied_state _ _ _ _ Hw) as (Hk & Ha & Ht). destruct (address_of_keys _ _ _ Hw0) as [Hk0 Haddr].
  split; [by rewrite Hk, Ha|].
  assert (Hpay : exists payload body, payload_of r seal e payload e
    /\ match payload with Some c => Ok c | None => rexpect EMPTY_PAYLOAD end = @Ok bytes _ body
    /\ read_comment body = (if bool_decide (sr_comment r = []) then None else Some (sr_comment r))).
  { case_bool_decide as Hz.
    - destruct empty_payload as (c & Hc & Hread). exists None, c. split; [by left|done].
    - destruct (comment_roundtrip (sr_comment r) Htext Hlen) as (c & Hc & Hread). exists (Some c), c. split; [|done].
      right. split; [done|]. exists c. split; [done|]. unfold comment_cell. by rewrite Hplain, Hc. }
  destruct Hpay as (payload & body & Hp & Hbody & Hread).
  destruct (built_transfer r bounce seal e payload e Hr Hv Hp) as (t & Hb & Hcar & Hdest & Hbounce & Hflags & Hpayload & Hinit).
  destruct (request_checked r Hr) as (Hs & _). destruct (carried_entries t _ Hcar Hs (request_nonzero r Hr)) as [Htok Hent].
  set (m := mkInternal _ _ _ (et_dest t) bounce (tokens_of (sr_value r)) (other_of (sr_value r)) None body). exists t, m.
  repeat (split; [done|]). rewrite <- Hpayload in Hbody. split.
  - intros now_mono now context p Hprep.
    destruct (prepared_is_signed w now_mono now t context p m) as (Hsig & Hnow & Hexp & Hskew); [done..|]. rewrite Hflags in Hsig. split; [done|]. split; [done|].
    rewrite Ht in Hskew. eapply (signed_in_time _ (now / 1000)); [|done..].
    unfold checked_expire_at in Hexp. destruct (N.leb_spec (now / 1000) u32_max); [done|discriminate Hexp].
  - intros Hworks now_mono now context Hskew Hmax. eapply prepared_when_possible; [done..|by rewrite Ht|done].
Qed.
End carries_on.

(** ** A codec to run *)
Definition toy_codec : @MessageCodec toy_cells toy_stdaddr toy_storage_messages toy_storage toy_curve := {|
  SignatureContext := unit;
  collects := (fun entries => true);
  internal_cell := (fun (m : @InternalMessage toy_cells toy_stdaddr toy_storage_messages) =>
    Ok (Toy (as_bytes (sa_address (im_dst m)) ++ be_bytes 16 (im_tokens m)) [im_body m]));
  abi_values := N * ToyCell;
  send_raw_inputs := (fun flags (c : @cell toy_cells) => Ok (flags, c));
  unsigned_message := N * ToyCell * (N * N);
  external_message := (fun values key time expire_at address => Ok (values, (time, expire_at)));
  with_state_init_opt := (fun m init => m);
  sign_message := (fun m (key : @signing_key toy_curve) context => Ok (Toy (as_bytes (key : bytes32)) [snd (fst m)]));
  load_u64 := (fun (s : @slice toy_cells) => rmap (fun p => (of_be (fst p), snd p)) (toy_take s 8));
  load_u256 := (fun (s : @slice toy_cells) => rmap (fun p => (toy_pad (fst p), snd p)) (toy_take s 32));
  account_rest := unit;
  new_account_rest := (fun address => tt)
|}.

Lemma toy_codec_works : @codec_works toy_cells toy_stdaddr toy_storage_messages toy_storage toy_curve toy_codec.
Proof.
  repeat (split; [done|]). intros key. unfold make_wallet_state_init.
  cbv [store_raw store_u64 build builder_new toy_cells toy_storage].
  rewrite (toy_store_fits [] []) by (rewrite length_as_bytes; cbn; lia). cbn [rbind].
  rewrite toy_store_fits by (rewrite length_app, length_as_bytes, length_be_bytes; cbn; lia). done.
Qed.

Definition demo_plain_request : SendRequest := mkSendRequest demo_dest (NativeAmount 5) (bs "hello") None.
Definition demo_observed : ObservedTime := mkObserved 1000 (bs "https://node/") (bs "7") 50.

Lemma signed_message_carries_the_request_witness :
  exists w0 w t p,
    @with_shared_keys toy_cells toy_stdaddr toy_storage_messages toy_storage toy_curve (pad32 [Byte.x0a]) 0 = Ok w0
    /\ @apply_observed_account_state toy_cells toy_stdaddr toy_storage_messages toy_storage toy_curve toy_codec
         (@AccountNotExists toy_cells toy_stdaddr toy_storage_messages toy_storage toy_curve toy_codec None) (Some demo_observed) w0 = Ok w
    /\ @build_transfer toy_curve toy_prims toy_stdaddr toy_storage_messages toy_cells demo_plain_request true None [] = Ok (t, [])
    /\ @prepare_send_currency toy_cells toy_stdaddr toy_storage_messages toy_storage toy_curve toy_codec w 60 (Ok 1005000) t tt = Ok p
    /\ 1010 <= pm_expire_at p <= 1070.
Proof.
  eexists _, _. destruct (@signed_message_carries_the_request toy_cells toy_stdaddr toy_storage_messages toy_storage toy_curve
    toy_codec toy_stdaddr_laws toy_cell_laws toy_prims (pad32 [Byte.x0a]) 0 _ _ (@AccountNotExists toy_cells toy_stdaddr toy_storage_messages toy_storage toy_curve toy_codec None) demo_observed
    demo_plain_request true None [] eq_refl eq_refl) as (_ & t & m & Hb & _ & _ & _ & _ & _ & _ & Hsigned & Hlive);
    [by vm_compute|by vm_compute|done|by vm_compute|vm_compute; lia|].
  destruct (Hlive toy_codec_works 60 1005000 tt) as [p Hp]; [by vm_compute|by vm_compute|].
  exists t, p. split; [reflexivity|]. split; [reflexivity|]. split; [exact Hb|]. split; [exact Hp|].
  destruct (Hsigned 60 1005000 tt p Hp) as (_ & _ & _ & Hexp). exact Hexp.
Defined.
