(* ===== verification/Pool.v ===== *)
(** * The pool that swaps

    cc-wallet-tycho/src/ccdex.rs: the body of a swap and the data of the pool contract; and
    [load_pool_state] and [build_swap_transfer] of cc-wallet-chain/src/wallet_service.rs.
    Bits, token amounts and dictionaries in cells are those of tycho_types, a parameter. *)

From Stdlib Require Import NArith ZArith Lia.
From stdpp Require Import list.
From S2P Require Import Prelude Ord Bytes Text Decimal Ids Asset Amount Send Swap VaultKeys.
From S2P Require Import ChainData AppState Comment Vault Prepare Transmit Transfers ChainStorage.

(** A dictionary of extra currencies is given as its entries, each of which may fail to decode. *)
Class PoolLib `{StorageLib} := {
  load_bit : slice -> res bytes (bool * slice);
  load_tokens : slice -> res bytes (N * slice);
  load_currencies : slice -> res bytes (list (res bytes (N * N)) * slice);
  store_bit : builder -> bool -> res bytes builder;
  store_small_uint : builder -> N -> N -> res bytes builder;
  store_var_uint248 : builder -> N -> res bytes builder
}.

(** ** ccdex.rs *)
Record Asset := mkAsset { pa_is_native : bool; pa_id : N }.
Definition NATIVE : Asset := mkAsset true 0.
Definition cc (id : N) : Asset := mkAsset false id.

Definition OP_SWAP : N := 0xCCDE0001.
Definition OP_DEPOSIT : N := 0xCCDE0002.
Definition OP_POOL_WITHDRAW : N := 0xCCDE0003.
Definition OP_SET_FEE : N := 0xCCDE0004.
Definition OP_SET_PAUSED : N := 0xCCDE0005.
Definition OP_SET_OWNER : N := 0xCCDE0006.
Definition OP_SKIM : N := 0xCCDE0007.

Definition ccdex_internal_method (op : N) : option string :=
  if op =? OP_SWAP then Some "swap" else
  if op =? OP_DEPOSIT then Some "deposit" else
  if op =? OP_POOL_WITHDRAW then Some "withdraw" else
  if op =? OP_SET_FEE then Some "set_fee" else
  if op =? OP_SET_PAUSED then Some "set_paused" else
  if op =? OP_SET_OWNER then Some "set_owner" else
  if op =? OP_SKIM then Some "skim" else None.

Record PoolStorage := mkPoolStorage {
  pl_owner : bytes;
  pl_fee_bps : N;
  pl_paused : bool;
  pl_native_vault : N;
  pl_reserves : btree N N
}.

Definition reserve_of (p : PoolStorage) (asset : Asset) : N :=
  if pa_is_native asset then pl_native_vault p else default 0 (bt_get (pa_id asset) (pl_reserves p)).
Definition pool_supports (p : PoolStorage) (asset : Asset) : bool := 0 <? reserve_of p asset.

Definition varuint_to_u128 (v : N) : res bytes N :=
  check v <=? u128_max else bs "extra-currency reserve " ++ print_dec v ++ bs " exceeds u128";; Ok v.

Fixpoint decode_reserves (entries : list (res bytes (N * N))) (reserves : btree N N) : res bytes (btree N N) :=
  match entries with
  | [] => Ok reserves
  | entry :: entries =>
      let? (id, amount) := map_err (fun _ => bs "failed to decode a reserve entry") entry in
      let? amount := varuint_to_u128 amount in
      decode_reserves entries (bt_insert id amount reserves)
  end.

Section pool.
Context `{PoolLib}.

Definition store_asset (b : builder) (asset : Asset) : res bytes builder :=
  let? b := store_bit b (pa_is_native asset) in
  store_u32 b (pa_id asset).

Definition swap_body (query_id : N) (in_asset : Asset) (in_amount : N) (out_asset : Asset) (min_out valid_until : N)
    (recipient : option (StdAddr Anycast)) : res bytes cell :=
  let? b := store_u32 builder_new OP_SWAP in
  let? b := store_u64 b query_id in
  let? b := store_asset b in_asset in
  let? b := store_var_uint248 b in_amount in
  let? b := store_asset b out_asset in
  let? b := store_var_uint248 b min_out in
  let? b := store_u32 b valid_until in
  let? b := match recipient with Some addr => store_std_addr b addr | None => store_small_uint b 0 2 end in
  map_err (fun _ => bs "failed to build swap body") (build b).

Definition decode_pool_storage (data : cell) : res bytes PoolStorage :=
  let? s := map_err (fun _ => bs "pool data cell is not a slice") (as_slice data) in
  let? (owner, s) := map_err (fun _ => bs "failed to read pool owner") (load_std_addr s) in
  let? (fee_bps, s) := map_err (fun _ => bs "failed to read fee_bps") (load_u16 s) in
  let? (paused, s) := map_err (fun _ => bs "failed to read paused") (load_bit s) in
  let? (native_vault, s) := map_err (fun _ => bs "failed to read native_vault") (load_tokens s) in
  let? (reserves_dict, _) := map_err (fun _ => bs "failed to read reserves dict") (load_currencies s) in
  let? reserves := decode_reserves reserves_dict [] in
  Ok (mkPoolStorage (stdaddr_to_string owner) fee_bps paused native_vault reserves).

Definition pool_storage_from_account (account : option Account) : res bytes PoolStorage :=
  let? account := ok_or account (bs "the DEX pool account does not exist on this network") in
  match ac_state account with
  | ActiveState data =>
      let? data := ok_or data (bs "the DEX pool has no data cell to read reserves from") in
      decode_pool_storage data
  | InactiveState => Err (bs "the DEX pool is not an active contract on this network")
  end.

(** ** wallet_service.rs *)

(** [load_pool_state], of what was read of the pool's account. *)
Definition load_pool_state (pool : bytes) (account : option Account) : res ChainError PoolSnapshot :=
  let? pool_address := map_err (fun error => ChainInvalidInput (WalletError_text error)) (canonicalize_recipient pool) in
  let? storage := map_err ChainWallet (pool_storage_from_account account) in
  Ok (mkPool pool_address (pl_owner storage) (pl_fee_bps storage) (pl_paused storage) (pl_native_vault storage) (pl_reserves storage)).

Definition SWAP_GAS_NATIVE : N := 200000000.

Definition ccdex_asset_of (asset : AssetId) : Asset :=
  match asset with Native => NATIVE | CurrencyCollection id => cc id end.

(** The number of the request is the time in nanoseconds. *)
Definition build_swap_transfer (query_id : N) (pool : bytes) (request : SwapRequest) (valid_until : N)
  : res ChainError (N * EverTransfer) :=
  let? in_units := rexpect (in_units request) in
  let? body := map_err ChainWallet
    (swap_body query_id (ccdex_asset_of (in_asset request)) in_units (ccdex_asset_of (swr_output request))
       (swr_min_out_units request) valid_until None) in
  let? base := map_err ChainInvalidInput (EverTransfer_new pool) in
  let base := with_payload (with_flags (with_bounce base true) SAFE_SEND_FLAGS) body in
  match in_asset request with
  | Native =>
      let? attached := ok_or (checked_add u128_max in_units SWAP_GAS_NATIVE)
                         (ChainInvalidInput (bs "swap amount plus gas exceeds the native domain")) in
      let? transfer := map_err ChainInvalidInput (transfer_native base attached) in
      Ok (attached, transfer)
  | CurrencyCollection id =>
      let? cc_bytes := rexpect (cc_to_be_bytes_31 (cc_from_u128 in_units)) in
      let? transfer := map_err ChainInvalidInput
        (let? transfer := transfer_native base SWAP_GAS_NATIVE in cc_be_bytes transfer id cc_bytes) in
      Ok (SWAP_GAS_NATIVE, transfer)
  end.
End pool.

(** ** What a swap sells *)
Section selling.
Context `{PoolLib} `{!StdAddrLaws}.

(** A request that was accepted becomes a transfer to the pool which carries exactly what is
    sold, with the gas beside it or on top of it, and the body of that swap; only the native
    coin may be too much, and only with the gas. *)
Lemma swap_sells_what_was_asked (input : AssetAmount) (output : AssetId) (min_out slippage : N) (r : SwapRequest)
    (pool : bytes) (query_id valid_until : N) (body : cell)
    (Hd : in_domain input) (Hr : SwapRequest_new input output min_out slippage = Ok r)
    (Hpool : canonicalize_recipient pool = Ok pool)
    (Hbody : swap_body query_id (ccdex_asset_of (asset_id input)) (units_of input) (ccdex_asset_of output) min_out valid_until None = Ok body) :
  match input with
  | NativeAmount units =>
      if units + SWAP_GAS_NATIVE <=? NATIVE_MAX_UNITS
      then exists t, build_swap_transfer query_id pool r valid_until = Ok (units + SWAP_GAS_NATIVE, t)
             /\ et_native_amount t = units + SWAP_GAS_NATIVE /\ et_extra_currencies t = []
             /\ stdaddr_to_string (et_dest t) = pool /\ et_bounce t = true /\ et_flags t = SAFE_SEND_FLAGS /\ et_payload t = Some body
      else build_swap_transfer query_id pool r valid_until
           = Err (ChainInvalidInput (bs "native amount exceeds the protocol maximum (2^120 - 1)"))
  | CcAssetAmount id units =>
      exists t, build_swap_transfer query_id pool r valid_until = Ok (SWAP_GAS_NATIVE, t)
        /\ et_native_amount t = SWAP_GAS_NATIVE /\ et_extra_currencies t = [(id, cc_value units)]
        /\ stdaddr_to_string (et_dest t) = pool /\ et_bounce t = true /\ et_flags t = SAFE_SEND_FLAGS /\ et_payload t = Some body
  end.
Proof.
  apply swap_request_new_spec in Hr as (-> & Hs & _ & _ & _ & _ & Hu); [|done].
  unfold build_swap_transfer, in_asset. rewrite Hu. cbn [rexpect rbind swr_input swr_output swr_min_out_units].
  rewrite Hbody. cbn [map_err rbind]. destruct (canonicalize_Ok _ _ Hpool) as (w & h & Hw & Hraw & Hp).
  assert (Hnew : EverTransfer_new pool = Ok (EverTransfer_to (mkStdAddr None w h)) /\ stdaddr_to_string (mkStdAddr None w h) = pool).
  { unfold EverTransfer_new, parse_std_addr. rewrite Hp. split; [done|]. rewrite to_string_raw; [done|lia]. }
  destruct Hnew as [-> Hdest]. cbn [map_err rbind]. destruct input as [units|id units]; cbn [asset_id units_of] in *.
  - assert (Hmax : NATIVE_MAX_UNITS + SWAP_GAS_NATIVE <= u128_max) by by vm_compute. cbn [in_domain] in Hd.
    rewrite (proj2 (checked_add_Some u128_max units SWAP_GAS_NATIVE (units + SWAP_GAS_NATIVE))) by (split; [done|lia]).
    cbn [ok_or rbind]. unfold transfer_native. destruct (_ <=? NATIVE_MAX_UNITS); [|done]. by eexists.
  - unfold transfer_native. change (SWAP_GAS_NATIVE <=? NATIVE_MAX_UNITS) with true. cbn [rbind].
    destruct (cc_bytes_carried (mkTransfer (mkStdAddr None w h) SWAP_GAS_NATIVE [] true SAFE_SEND_FLAGS (Some body) None) id units Hd Hs) as (raw & Hraw' & Hb).
    assert (Hfrom : cc_from_u128 (cc_value units) = units) by by destruct units. rewrite Hfrom, Hraw'. cbn [rexpect rbind].
    match type of Hb with ?l = _ => change (cc_be_bytes _ id raw) with l end. rewrite Hb. by eexists.
Qed.
End selling.
