(* ===== verification/Transport.v ===== *)
(** * Reading the chain from a node

    cc-wallet-tycho/src/transport.rs, the calls that read: the request and what is accepted as
    its answer, and the account, the configuration and the lists of transactions that answers
    are made into.  What serde derives for the types of the answers is written out; the
    decoding of bags of cells is a parameter, the answer of the node an argument. *)

From Stdlib Require Import NArith ZArith Lia.
From stdpp Require Import list.
From S2P Require Import Prelude Ord Bytes Text Decimal Ids Json Send.
From S2P Require Import ChainData AppState Comment Prepare Transmit Transfers ChainStorage Signing Subscription.

(** The types of tycho_types that are decoded, and the network a configuration names. *)
Class NodeLib `{MessageCodec} := {
  BlockchainConfig : Type;
  config_decode : bytes -> res bytes BlockchainConfig;
  account_decode : bytes -> res bytes ChainAccount;
  config_global_id : BlockchainConfig -> res bytes Z
}.

Definition MAX_BLOCKCHAIN_CONFIG_BOC_BYTES : N := 2097152.
Definition MAX_ACCOUNT_STATE_BOC_BYTES : N := 2097152.
Definition MAX_KEY_BLOCK_BOC_BYTES : N := 4194304.

(** ** What serde makes of a result

    A structure is read from an object, or from an array of its fields in order. *)
Definition de_u64_string_or_number (value : json) : option N :=
  match value with
  | JInt z => if ((0 <=? z) && (z <=? Z.of_N u64_max))%Z then Some (Z.to_N z) else None
  | JStr value => parse_unsigned u64_max value
  | _ => None
  end.

Definition string_from (value : json) : option bytes := match value with JStr s => Some s | _ => None end.
Definition u32_from (value : json) : option N :=
  match value with JInt z => if ((0 <=? z) && (z <=? Z.of_N u32_max))%Z then Some (Z.to_N z) else None | _ => None end.
Definition i32_from (value : json) : option Z :=
  match value with JInt z => if ((-2147483648 <=? z) && (z <=? 2147483647))%Z then Some z else None | _ => None end.
Definition option_from {A} (from : json -> option A) (value : json) : option (option A) :=
  match value with JNull => Some None | _ => Some <$> from value end.
(** [#[serde(default)]]. *)
Definition field_or {A} (a : A) (from : json -> option A) (name : bytes) (value : json) : option A :=
  match value_get name value with Some field => from field | None => Some a end.
Definition field {A} (from : json -> option A) (name : bytes) (value : json) : option A := value_get name value ≫= from.
Definition strings_from (value : json) : option (list bytes) :=
  match value with JArr items => mapM string_from items | _ => None end.

Definition timings_from (value : json) : option AccountTimings :=
  match value with
  | JArr [gen_lt; gen_utime] => lt ← de_u64_string_or_number gen_lt; utime ← u32_from gen_utime; Some (mkTimings lt utime)
  | JObj _ =>
      lt ← field de_u64_string_or_number (bs "genLt") value; utime ← field u32_from (bs "genUtime") value;
      Some (mkTimings lt utime)
  | _ => None
  end.

Definition bool_from (value : json) : option bool := match value with JBool b => Some b | _ => None end.
Definition last_transaction_from (value : json) : option LastTransactionId :=
  match value with
  | JArr [hash; is_exact; lt] =>
      hash ← string_from hash; is_exact ← bool_from is_exact; lt ← de_u64_string_or_number lt;
      Some (mkLastTransaction hash is_exact lt)
  | JObj _ =>
      hash ← field string_from (bs "hash") value; is_exact ← field_or true bool_from (bs "isExact") value;
      lt ← field de_u64_string_or_number (bs "lt") value; Some (mkLastTransaction hash is_exact lt)
  | _ => None
  end.

Inductive RawAccountState :=
| RawExists (account : bytes) (last_transaction_id : option LastTransactionId) (timings : AccountTimings)
| RawNotExists (timings : option AccountTimings)
| RawUnchanged (timings : AccountTimings).

(** The tag is a member of the object, or the first item of the array. *)
Definition raw_account_from (value : json) : option RawAccountState :=
  match value with
  | JObj _ =>
      tag ← field string_from (bs "type") value;
      if bool_decide (tag = bs "exists") then
        account ← field string_from (bs "account") value;
        last ← field_or None (option_from last_transaction_from) (bs "lastTransactionId") value;
        RawExists account last <$> field timings_from (bs "timings") value
      else if bool_decide (tag = bs "notExists") then
        RawNotExists <$> field_or None (option_from timings_from) (bs "timings") value
      else if bool_decide (tag = bs "unchanged") then RawUnchanged <$> field timings_from (bs "timings") value
      else None
  | JArr (JStr tag :: items) =>
      if bool_decide (tag = bs "exists") then
        match items with
        | [account; last; timings] =>
            account ← string_from account; last ← option_from last_transaction_from last;
            RawExists account last <$> timings_from timings
        | _ => None
        end
      else if bool_decide (tag = bs "notExists") then
        match items with [] => Some (RawNotExists None) | [timings] => RawNotExists <$> option_from timings_from timings | _ => None end
      else if bool_decide (tag = bs "unchanged") then
        match items with [timings] => RawUnchanged <$> timings_from timings | _ => None end
      else None
  | _ => None
  end.

Record RawBlockchainConfigState := mkRawConfig { rc_global_id : Z; rc_seqno : N; rc_config : bytes }.
Definition raw_config_from (value : json) : option RawBlockchainConfigState :=
  match value with
  | JArr [global_id; seqno; config] =>
      global_id ← i32_from global_id; seqno ← u32_from seqno; mkRawConfig global_id seqno <$> string_from config
  | JObj _ =>
      global_id ← field i32_from (bs "globalId") value; seqno ← field u32_from (bs "seqno") value;
      mkRawConfig global_id seqno <$> field string_from (bs "config") value
  | _ => None
  end.

Definition raw_key_block_from (value : json) : option bytes :=
  match value with
  | JArr [block] => string_from block
  | JObj _ => field string_from (bs "block") value
  | _ => None
  end.

(** ** One call *)
Section calls.
Context `{UrlLib} `{BocLib} `{StatusText}.

(** What a node answered, and when the call was over. *)
Record Answer := mkAnswer { an_reply : res HttpError Response; an_at : N }.
Record ObservedRpc (R : Type) := mkObservedRpc { or_result : R; or_request_id : N; or_observed_at_mono : N }.
Arguments mkObservedRpc {R} _ _ _.
Arguments or_result {R} _.
Arguments or_request_id {R} _.
Arguments or_observed_at_mono {R} _.

Inductive JrpcCallError := Fallback (error : bytes) | Fatal (error : bytes).

Definition can_try_next_url (status : N) : bool := (status =? 404) || (status =? 405).

Definition rpc_request (method : bytes) (params : json) (id : N) : json :=
  JObj [(bs "jsonrpc", JStr (bs "2.0")); (bs "id", JInt (Z.of_N id)); (bs "method", JStr method); (bs "params", params)].

(** The answer to the request of this number. *)
Definition call_url {R} (from_value : json -> option R) (u : url) (method : bytes) (id : N) (a : Answer)
  : res JrpcCallError (ObservedRpc R) :=
  let diagnostic := diagnostic_url u in
  let? response := map_err (fun e => Fallback (bs "failed to send `" ++ method ++ bs "` to " ++ diagnostic ++ bs ": " ++ he_text e))
                     (an_reply a) in
  if negb (is_success (rs_status response)) then
    let? body := match read_response_bytes_limited response with
                 | Ok body => Ok (print_dec (N.of_nat (length body)) ++ bs "-byte response body omitted")
                 | Err error => Ok (bs "<unreadable bounded body: " ++ error ++ bs ">")
                 | Panic => Panic
                 end in
    let error := bs "HTTP error " ++ status_text (rs_status response) ++ for_method method ++ bs " at " ++ diagnostic ++ bs ": " ++ body in
    Err (if can_try_next_url (rs_status response) then Fallback error else Fatal error)
  else
  let? body := map_err (fun e => Fallback (bs "failed to read bounded JSON response" ++ for_method method ++ bs " at " ++ diagnostic ++ bs ": " ++ e))
                 (read_response_bytes_limited response) in
  let? value := map_err (fun e => Fallback (bs "failed to parse JSON response" ++ for_method method ++ bs " at " ++ diagnostic ++ bs ": " ++ e))
                  (value_from_slice body) in
  let? result := map_err Fatal (parse_jrpc_result_for_id from_value value method id) in
  Ok (mkObservedRpc result id (an_at a)).

Definition call_error (e : JrpcCallError) : bytes := match e with Fallback error | Fatal error => error end.
Definition call_observed {R} (from_value : json -> option R) (u : url) (method : bytes) (id : N) (a : Answer) : res bytes (ObservedRpc R) :=
  map_err call_error (call_url from_value u method id a).
Definition call {R} (from_value : json -> option R) (u : url) (method : bytes) (id : N) (a : Answer) : res bytes R :=
  rmap or_result (call_observed from_value u method id a).

(** ** What is asked, the parameters of each method *)
Definition account_params (address : bytes) (last_transaction_lt : option N) : json :=
  match last_transaction_lt with
  | Some lt => JObj [(bs "address", JStr address); (bs "lastTransactionLt", JStr (print_dec lt))]
  | None => JObj [(bs "address", JStr address)]
  end.
Definition transactions_params (account : bytes) (limit : N) (before_lt : option N) : json :=
  match before_lt with
  | Some lt => JObj [(bs "account", JStr account); (bs "limit", JInt (Z.of_N limit)); (bs "lastTransactionLt", JStr (print_dec lt))]
  | None => JObj [(bs "account", JStr account); (bs "limit", JInt (Z.of_N limit))]
  end.

Definition get_transaction (u : url) (id : N) (a : Answer) : res bytes (option bytes) :=
  call (option_from string_from) u (bs "getTransaction") id a.
Definition get_dst_transaction (u : url) (id : N) (a : Answer) : res bytes (option bytes) :=
  call (option_from string_from) u (bs "getDstTransaction") id a.

Record ObservedTransactionsList := mkObservedList { ol_values : list bytes; ol_request_id : bytes; ol_observed_at_mono : N }.
Definition get_transactions_list_observed (u : url) (id : N) (a : Answer) : res bytes ObservedTransactionsList :=
  let? observed := call_observed strings_from u (bs "getTransactionsList") id a in
  Ok (mkObservedList (or_result observed) (print_dec (or_request_id observed)) (or_observed_at_mono observed)).

(** ** Bags of cells *)
Definition ensure_boc_base64_size (value : bytes) (max_bytes : N) (label : bytes) : res bytes unit :=
  check N.of_nat (length value) <=? max_encoded max_bytes
    else label ++ bs " BOC exceeds " ++ print_dec max_bytes ++ bs " decoded bytes";; Ok tt.

Definition decode_boc_base64_limited {T} (decode : bytes -> res bytes T) (boc_base64 : bytes) (max_bytes : N) (label : bytes) : res bytes T :=
  let? _ := ensure_boc_base64_size boc_base64 max_bytes label in
  let? decoded := ok_or (base64_decode boc_base64) (label ++ bs " is not canonical base64") in
  check N.of_nat (length decoded) <=? max_bytes
    else label ++ bs " BOC exceeds " ++ print_dec max_bytes ++ bs " decoded bytes";;
  decode decoded.

Definition get_latest_key_block (u : url) (id : N) (a : Answer) : res bytes cell :=
  let? block := call raw_key_block_from u (bs "getLatestKeyBlock") id a in
  let? _ := ensure_boc_base64_size block MAX_KEY_BLOCK_BOC_BYTES (bs "key block") in
  let? decoded := ok_or (base64_decode block) (bs "key block is not canonical base64") in
  check N.of_nat (length decoded) <=? MAX_KEY_BLOCK_BOC_BYTES
    else bs "key block BOC exceeds " ++ print_dec MAX_KEY_BLOCK_BOC_BYTES ++ bs " decoded bytes";;
  ok_or (boc_decode decoded) (bs "failed to decode the latest key block").
End calls.
Arguments mkObservedRpc {R} _ _ _.
Arguments or_result {R} _.
Arguments or_request_id {R} _.
Arguments or_observed_at_mono {R} _.

(** ** Accounts and configurations *)
Section reads.
Context `{UrlLib} `{NodeLib} `{!BocLib} `{StatusText}.

Definition account_from_raw (value : RawAccountState) : res bytes AccountState :=
  match value with
  | RawExists account last_transaction_id timings =>
      let? _ := ensure_boc_base64_size account MAX_ACCOUNT_STATE_BOC_BYTES (bs "account state") in
      let? decoded := map_err (fun _ => bs "failed to decode account state")
        (decode_boc_base64_limited account_decode account MAX_ACCOUNT_STATE_BOC_BYTES (bs "account state")) in
      Ok (AccountExists decoded account last_transaction_id timings)
  | RawNotExists timings => Ok (AccountNotExists timings)
  | RawUnchanged timings => Ok (AccountUnchanged timings)
  end.

Definition account_exists (state : AccountState) : bool :=
  match state with AccountExists _ _ _ _ | AccountUnchanged _ => true | AccountNotExists _ => false end.
Definition account_unchanged (state : AccountState) : bool := match state with AccountUnchanged _ => true | _ => false end.
Definition account_of (state : AccountState) : option ChainAccount :=
  match state with AccountExists account _ _ _ => Some account | _ => None end.

Record ObservedAccountState := mkObservedAccount {
  oa_state : AccountState;
  oa_network_time : option ObservedTime;
  oa_request_id : bytes;
  oa_observed_at_mono : N
}.

Definition get_account_state_observed_since (endpoint : bytes) (u : url) (id : N) (a : Answer) : res bytes ObservedAccountState :=
  let? observed := call_observed raw_account_from u (bs "getContractState") id a in
  let? state := account_from_raw (or_result observed) in
  let network_time := (fun timings => mkObserved (at_gen_utime timings) endpoint (print_dec (or_request_id observed))
                                        (or_observed_at_mono observed)) <$> timings_of state in
  Ok (mkObservedAccount state network_time (print_dec (or_request_id observed)) (or_observed_at_mono observed)).
Definition get_account_state_since (endpoint : bytes) (u : url) (id : N) (a : Answer) : res bytes AccountState :=
  rmap oa_state (get_account_state_observed_since endpoint u id a).

Record BlockchainConfigState := mkConfigState {
  bc_global_id : Z;
  bc_seqno : N;
  bc_config_boc_base64 : bytes;
  bc_config : BlockchainConfig
}.

Definition config_from_raw (value : RawBlockchainConfigState) : res bytes BlockchainConfigState :=
  let? _ := ensure_boc_base64_size (rc_config value) MAX_BLOCKCHAIN_CONFIG_BOC_BYTES (bs "blockchain config") in
  let? config := map_err (fun _ => bs "failed to decode blockchain config")
    (decode_boc_base64_limited config_decode (rc_config value) MAX_BLOCKCHAIN_CONFIG_BOC_BYTES (bs "blockchain config")) in
  match config_global_id config with
  | Ok param19 =>
      if negb (param19 =? rc_global_id value)%Z
      then Err (bs "endpoint reports globalId " ++ print_z (rc_global_id value) ++ bs " but its blockchain config (param 19) says "
                ++ print_z param19 ++ bs " " ++ [Byte.xe2; Byte.x80; Byte.x94]
                ++ bs " the endpoint's network identity is inconsistent; refusing its config")
      else Ok (mkConfigState (rc_global_id value) (rc_seqno value) (rc_config value) config)
  | Err _ => Ok (mkConfigState (rc_global_id value) (rc_seqno value) (rc_config value) config)
  | Panic => Panic
  end.

Record ObservedBlockchainConfigState := mkObservedConfig { ob_state : BlockchainConfigState; ob_request_id : bytes; ob_observed_at_mono : N }.
Definition get_blockchain_config_observed (u : url) (id : N) (a : Answer) : res bytes ObservedBlockchainConfigState :=
  let? observed := call_observed raw_config_from u (bs "getBlockchainConfig") id a in
  let? state := config_from_raw (or_result observed) in
  Ok (mkObservedConfig state (print_dec (or_request_id observed)) (or_observed_at_mono observed)).
End reads.

(** ** What an answer is accepted for *)
Section accepted.
Context `{UrlLib} `{NodeLib} `{!BocLib} `{StatusText}.

(** The answer is a success, of at most four megabytes, that names the version of the protocol
    and this very request, reports no error and gives this result. *)
Definition answered (id : N) (a : Answer) (result : json) : Prop :=
  exists response body value,
    an_reply a = Ok response /\ is_success (rs_status response) = true
    /\ read_response_bytes_limited response = Ok body /\ N.of_nat (length body) <= MAX_JRPC_RESPONSE_BYTES
    /\ value_from_slice body = Ok value /\ value_get (bs "jsonrpc") value = Some (JStr (bs "2.0"))
    /\ value_get (bs "id") value = Some (JInt (Z.of_N id)) /\ non_null_error value = None
    /\ value_get (bs "result") value = Some result.

Lemma response_chunks_bounded chunks : forall body whole, read_chunks chunks body = Ok whole ->
  N.of_nat (length body) <= MAX_JRPC_RESPONSE_BYTES -> N.of_nat (length whole) <= MAX_JRPC_RESPONSE_BYTES.
Proof.
  induction chunks as [|chunk chunks IH]; intros body whole; cbn [read_chunks]; [by intros [= <-]|].
  intros Hr Hb. rinv Hr. apply (IH _ _ Hr). rewrite length_app. bprop. lia.
Qed.

Lemma validated_id value method id : validate_jrpc_response_id value method id = Ok tt <->
  value_get (bs "jsonrpc") value = Some (JStr (bs "2.0")) /\ value_get (bs "id") value = Some (JInt (Z.of_N id)).
Proof.
  unfold validate_jrpc_response_id.
  assert (Hv : (match value_get (bs "jsonrpc") value with Some (JStr v) => bool_decide (v = bs "2.0") | _ => false end) = true
               <-> value_get (bs "jsonrpc") value = Some (JStr (bs "2.0"))).
  { destruct (value_get _ value) as [[| | | |s| |]|]; try done. rewrite bool_decide_eq_true. naive_solver. }
  assert (Hi : (match value_get (bs "id") value with Some (JInt i) => (i =? Z.of_N id)%Z | _ => false end) = true
               <-> value_get (bs "id") value = Some (JInt (Z.of_N id))).
  { destruct (value_get (bs "id") value) as [[| |z| | | |]|]; try done. rewrite Z.eqb_eq. naive_solver. }
  rewrite <- Hv, <- Hi. do 2 destruct (match value_get _ value with Some _ => _ | None => _ end); cbn; naive_solver.
Qed.

Lemma parsed_result {R} (from : json -> option R) value method r : parse_jrpc_result from value method = Ok r <->
  non_null_error value = None /\ exists result, value_get (bs "result") value = Some result /\ from result = Some r.
Proof.
  unfold parse_jrpc_result. destruct (non_null_error value) as [e|]; cbn.
  - rewrite andb_true_r. destruct (is_some _); by split; [|intros [? ?]].
  - rewrite andb_false_r. destruct (value_get _ _) as [result|]; cbn; [|by split; [|intros [_ (? & ? & _)]]].
    rewrite ok_or_Ok. split; [eauto|]. by intros [_ (? & [= <-] & ?)].
Qed.

Lemma call_observed_Ok {R} (from : json -> option R) u method id a o : call_observed from u method id a = Ok o <->
  exists result r, answered id a result /\ from result = Some r /\ o = mkObservedRpc r id (an_at a).
Proof.
  unfold call_observed, call_url, parse_jrpc_result_for_id. split.
  - intros Hc. rinv Hc; try discriminate Hc.
    apply negb_false_iff in Hc0. rinv Hm2.
    match goal with H : validate_jrpc_response_id _ _ _ = Ok ?t |- _ => destruct t; apply validated_id in H as [? ?] end.
    match goal with H : parse_jrpc_result _ _ _ = Ok _ |- _ => apply parsed_result in H as (? & result & ? & ?) end.
    eexists result, _. split; [|done]. eexists _, _, _. repeat (split; [eassumption|]).
    split; [|eauto 10].
    unfold read_response_bytes_limited in Hm0. rinv Hm0. by eapply response_chunks_bounded.
  - intros (result & r & (response & body & value & Ha & Hs & Hb & Hl & Hj & Hv & Hi & He & Hr) & Hf & ->).
    rewrite Ha. cbn. rewrite Hs. cbn. rewrite Hb. cbn. rewrite Hj. cbn.
    rewrite (proj2 (validated_id value method id)) by done. cbn.
    by rewrite (proj2 (parsed_result from value method r)) by eauto.
Qed.

(** What is decoded is at most of the size that is allowed. *)
Lemma decoded_bounded {T} (decode : bytes -> res bytes T) text max label t : decode_boc_base64_limited decode text max label = Ok t ->
  exists decoded, base64_decode text = Some decoded /\ N.of_nat (length decoded) <= max /\ decode decoded = Ok t.
Proof. unfold decode_boc_base64_limited. intros Hd. rinv Hd. bprop. eauto. Qed.

(** The account is what the answer says, and its time is told by the same answer. *)
Lemma account_read endpoint u id a o : get_account_state_observed_since endpoint u id a = Ok o ->
  oa_request_id o = print_dec id /\ oa_observed_at_mono o = an_at a
  /\ oa_network_time o = (fun timings => mkObserved (at_gen_utime timings) endpoint (print_dec id) (an_at a)) <$> timings_of (oa_state o)
  /\ exists result raw, answered id a result /\ raw_account_from result = Some raw /\ account_from_raw raw = Ok (oa_state o).
Proof.
  unfold get_account_state_observed_since. intros Ho. rinv Ho. apply call_observed_Ok in Hm as (result & raw & Ha & Hf & ->).
  cbn [or_result or_request_id or_observed_at_mono oa_state oa_request_id oa_observed_at_mono oa_network_time] in *. eauto 8.
Qed.

(** The configuration is what the answer says, and names the network the answer names. *)
Lemma config_read u id a o : get_blockchain_config_observed u id a = Ok o ->
  ob_request_id o = print_dec id /\ ob_observed_at_mono o = an_at a
  /\ (forall network, config_global_id (bc_config (ob_state o)) = Ok network -> network = bc_global_id (ob_state o))
  /\ exists result raw, answered id a result /\ raw_config_from result = Some raw /\ config_from_raw raw = Ok (ob_state o).
Proof.
  unfold get_blockchain_config_observed. intros Ho. rinv Ho. apply call_observed_Ok in Hm as (result & raw & Ha & Hf & ->).
  cbn [or_result or_request_id or_observed_at_mono ob_state ob_request_id ob_observed_at_mono] in *. repeat (split; [done|]). split; [|eauto].
  intros network. unfold config_from_raw in Hm0. rinv Hm0; cbn [bc_config bc_global_id]; intros E; rewrite E in *; simplify_eq.
  by apply negb_false_iff, Z.eqb_eq in Hc0.
Qed.
End accepted.
