(* ===== verification/Emulator.v ===== *)
(** * Transactions as they are read, and the emulation of one

    cc-wallet-tycho/src/history.rs: a transaction and its messages from their cells.
    cc-wallet-tycho/src/emulator.rs: what the executor is given to tell what a message will
    cost.  The decoding of transactions and messages, and the executor itself, are
    parameters. *)

From Stdlib Require Import NArith ZArith Lia.
From stdpp Require Import list.
From S2P Require Import Prelude Ord Bytes Text Decimal Ids Asset Amount Send.
From S2P Require Import ChainData AppState Comment Prepare Transmit Transfers ChainStorage Signing Activity Subscription Transport.

(** ** What tycho_types reads of a transaction and of a message *)
Inductive ComputePhase := ComputeExecuted (success : bool) (exit_code : Z) | ComputeSkipped.
Record ActionPhase := mkActionPhase { ap_success : bool; ap_result_code : Z; ap_no_funds : bool }.
Inductive BouncePhase := BounceExecuted | BounceNegativeFunds | BounceNoFunds.
Inductive TxInfo :=
| TxOrdinary (aborted : bool) (compute_phase : ComputePhase) (action_phase : option ActionPhase) (bounce_phase : option BouncePhase)
| TxTickTock.

Record Transaction (cell : Type) := mkTx {
  tx_lt : N;
  tx_now : N;
  tx_prev_trans_lt : N;
  tx_total_fees : N;
  tx_info : res bytes TxInfo;
  tx_in_msg : option cell;
  tx_out_msgs : list (res bytes cell)
}.
Arguments tx_lt {cell} _.
Arguments tx_now {cell} _.
Arguments tx_prev_trans_lt {cell} _.
Arguments tx_total_fees {cell} _.
Arguments tx_info {cell} _.
Arguments tx_in_msg {cell} _.
Arguments tx_out_msgs {cell} _.

Inductive MsgInfo (addr : Type) :=
| InfoInt (src dst : addr) (tokens : N) (other : list (res bytes (N * N))) (fwd_fee : N) (bounce bounced : bool) (created_lt created_at : N)
| InfoExtIn (dst : addr)
| InfoExtOut (src : addr) (created_lt created_at : N).
Arguments InfoInt {addr} _ _ _ _ _ _ _ _ _.
Arguments InfoExtIn {addr} _.
Arguments InfoExtOut {addr} _ _ _.

Class TransactionLib `{CellLib} := {
  int_addr : Type;
  int_addr_to_string : int_addr -> bytes;
  message_body : Type;
  load_transaction : slice -> res bytes (Transaction cell);
  load_message : slice -> res bytes (MsgInfo int_addr * message_body);
  slice_apply : message_body -> res bytes slice;
  build_from : slice -> res bytes cell
}.

(** ** history.rs *)
Definition MAX_TRANSACTION_BOC_BYTES : N := 2097152.

Section history.
Context `{MessageCodec} `{!TransactionLib} `{!BocLib}.

Definition parse_message (c : cell) : res bytes ChainMessage :=
  let hash := to_hex (repr_hash c) in
  let? s := map_err (fun _ => bs "failed to read message cell") (as_slice c) in
  let? (info, body) := map_err (fun _ => bs "failed to parse message") (load_message s) in
  let? body_slice := map_err (fun _ => bs "failed to read message body") (slice_apply body) in
  let? body := map_err (fun _ => bs "failed to materialize message body") (build_from body_slice) in
  match info with
  | InfoInt src dst tokens other fwd_fee bounce bounced created_lt created_at =>
      let? value_extra := extra_currencies_to_strings other [] in
      Ok (mkMessage Int hash (Some (int_addr_to_string src)) (Some (int_addr_to_string dst)) tokens value_extra fwd_fee bounce bounced
            created_lt created_at body)
  | InfoExtIn dst => Ok (mkMessage ExtIn hash None (Some (int_addr_to_string dst)) 0 [] 0 false false 0 0 body)
  | InfoExtOut src created_lt created_at =>
      Ok (mkMessage ExtOut hash (Some (int_addr_to_string src)) None 0 [] 0 false false created_lt created_at body)
  end.

Fixpoint parse_out_messages (entries : list (res bytes cell)) : res bytes (list ChainMessage) :=
  match entries with
  | [] => Ok []
  | entry :: entries =>
      let? c := map_err (fun _ => bs "failed to read out message") entry in
      let? message := parse_message c in
      let? messages := parse_out_messages entries in
      Ok (message :: messages)
  end.

Definition bounce_outcome (phase : BouncePhase) : BounceOutcome :=
  match phase with BounceExecuted => Returned | BounceNegativeFunds | BounceNoFunds => Unaffordable end.

Definition parse_transaction_cell (c : cell) : res bytes ChainTransaction :=
  let hash := to_hex (repr_hash c) in
  let? s := map_err (fun _ => bs "failed to read transaction cell") (as_slice c) in
  let? tx := map_err (fun _ => bs "failed to parse transaction") (load_transaction s) in
  let? info := tx_info tx in
  let? in_msg := match tx_in_msg tx with Some c => rmap Some (parse_message c) | None => Ok None end in
  let? out_msgs := parse_out_messages (tx_out_msgs tx) in
  let parsed aborted success skipped exit_code action bounce :=
    mkTransaction hash (tx_lt tx) (tx_now tx) (tx_prev_trans_lt tx) (tx_total_fees tx) aborted success skipped exit_code
      (ap_success <$> action) (ap_result_code <$> action) (ap_no_funds <$> action) bounce in_msg out_msgs in
  Ok match info with
     | TxOrdinary aborted compute_phase action_phase bounce_phase =>
         match compute_phase with
         | ComputeExecuted success exit_code => parsed aborted success false exit_code action_phase (bounce_outcome <$> bounce_phase)
         | ComputeSkipped => parsed aborted true true 0%Z action_phase (bounce_outcome <$> bounce_phase)
         end
     | TxTickTock => parsed false true false 0%Z None None
     end.

Definition TOO_LONG_TRANSACTION : bytes := bs "transaction BOC exceeds the 2097152-byte decoded ceiling".
Definition parse_transaction (boc_base64 : bytes) : res bytes ChainTransaction :=
  check N.of_nat (length boc_base64) <=? max_encoded MAX_TRANSACTION_BOC_BYTES else TOO_LONG_TRANSACTION;;
  let? decoded := ok_or (base64_decode boc_base64) (bs "transaction BOC is not canonical base64") in
  check N.of_nat (length decoded) <=? MAX_TRANSACTION_BOC_BYTES else TOO_LONG_TRANSACTION;;
  let? c := ok_or (boc_decode decoded) (bs "failed to decode transaction BOC") in
  parse_transaction_cell c.
End history.

(** ** emulator.rs *)
Inductive GlobalCapability := CapSignatureWithId | CapFullBodyInBounced | CapSuspendByMarks | CapSignatureDomain.

Record ExecutorParams := mkParams {
  ep_block_unixtime : N;
  ep_disable_delete_frozen_accounts : bool;
  ep_charge_action_fees_on_fail : bool;
  ep_strict_extra_currency : bool;
  ep_full_body_in_bounced : bool;
  ep_authority_marks_enabled : bool;
  ep_chksig_always_succeed : bool;
  ep_signature_with_id : option Z;
  ep_enable_signature_domains : bool
}.

Record ShardAccount (lazy : Type) := mkShardAccount { sh_account : lazy; sh_last_trans_hash : bytes32; sh_last_trans_lt : N }.
Arguments mkShardAccount {lazy} _ _ _.
Arguments sh_account {lazy} _.
Arguments sh_last_trans_hash {lazy} _.
Arguments sh_last_trans_lt {lazy} _.

Inductive TxError := TxSkipped | TxFatal (error : bytes).

(** The configuration, the executor and what it runs on. *)
Class EmulatorLib `{NodeLib} := {
  (** [get_gas_prices(masterchain)], its [gas_limit]. *)
  config_gas_limit : BlockchainConfig -> bool -> res bytes N;
  (** [get_global_version], its capabilities as bits. *)
  config_capabilities : BlockchainConfig -> res bytes N;
  cap_contains : N -> GlobalCapability -> bool;
  signature_context_of : Z -> N -> SignatureContext;
  ParsedConfig : Type;
  parse_config : BlockchainConfig -> N -> res bytes ParsedConfig;
  lazy_account : Type;
  (** [Lazy::new] of an account that exists. *)
  optional_account : ChainAccount -> res bytes lazy_account;
  hash_from_str : bytes -> res bytes bytes32;
  uncommitted : Type;
  (** An executor with these parameters and this logical time, for no special account, begins an
      ordinary transaction with an external message. *)
  begin_ordinary : ExecutorParams -> ParsedConfig -> N -> StdAddr Anycast -> cell -> ShardAccount lazy_account -> res TxError uncommitted;
  built_transaction : Type;
  build_uncommitted : uncommitted -> res bytes built_transaction;
  transaction_cell : built_transaction -> res bytes cell
}.

Definition EMULATION_MAX_LT : N := 1152921504606846976.
Definition MAX_SUPPORTED_ORDINARY_GAS_LIMIT : N := 1000000.
Definition MAX_EMULATION_MESSAGE_BOC_BYTES : N := 65536.

Section emulator.
Context `{EmulatorLib} `{!TransactionLib} `{!BocLib}.

Definition ensure_decoded_size (value : bytes) (max : N) (label : bytes) : res bytes unit :=
  let exceeds := label ++ bs " BOC exceeds " ++ print_dec max ++ bs " decoded bytes" in
  check N.of_nat (length value) <=? max_encoded max else exceeds;;
  let? decoded := ok_or (base64_decode value) (label ++ bs " is not canonical base64") in
  check N.of_nat (length decoded) <=? max else exceeds;;
  Ok tt.

Definition message_too_long (size : N) : bytes :=
  bs "external-message BOC is " ++ print_dec size ++ bs " bytes, above the 65536-byte emulation ceiling".

Definition validate_emulation_input_sizes (config : BlockchainConfigState) (state : AccountState) (message : cell) : res bytes unit :=
  let? _ := ensure_decoded_size (bc_config_boc_base64 config) MAX_BLOCKCHAIN_CONFIG_BOC_BYTES (bs "blockchain-config") in
  let? _ := match state with
            | AccountExists _ account_boc_base64 _ _ =>
                ensure_decoded_size account_boc_base64 MAX_ACCOUNT_STATE_BOC_BYTES (bs "account-state")
            | _ => Ok tt
            end in
  let message_size := N.of_nat (length (boc_encode message)) in
  check message_size <=? MAX_EMULATION_MESSAGE_BOC_BYTES else message_too_long message_size;;
  Ok tt.

Record EmulationConfig := mkEmulationConfig {
  ec_parsed : ParsedConfig;
  ec_full_body_in_bounced : bool;
  ec_authority_marks_enabled : bool;
  ec_signature_with_id : option Z;
  ec_enable_signature_domains : bool
}.

Definition check_gas_limit (config : BlockchainConfig) (masterchain : bool) (label : bytes) : res bytes unit :=
  let? gas_limit := map_err (fun _ => bs "blockchain config lacks " ++ label ++ bs " gas prices") (config_gas_limit config masterchain) in
  if (gas_limit =? 0) || (MAX_SUPPORTED_ORDINARY_GAS_LIMIT <? gas_limit)
  then Err (label ++ bs " ordinary-account gas_limit " ++ print_dec gas_limit ++ bs " is outside the supported 1..=1000000 range")
  else Ok tt.

Definition prepare_emulation_config (config : BlockchainConfig) (now : N) : res bytes EmulationConfig :=
  let? _ := check_gas_limit config false (bs "base workchain") in
  let? _ := check_gas_limit config true (bs "masterchain") in
  let? capabilities := map_err (fun _ => bs "blockchain config lacks a global version (param 8)") (config_capabilities config) in
  let? signature_with_id :=
    if cap_contains capabilities CapSignatureWithId
    then map_err (fun _ => bs "blockchain config lacks a global id (param 19)") (rmap Some (config_global_id config))
    else Ok None in
  let? parsed := map_err (fun _ => bs "failed to parse blockchain config for emulation") (parse_config config now) in
  Ok (mkEmulationConfig parsed (cap_contains capabilities CapFullBodyInBounced) (cap_contains capabilities CapSuspendByMarks)
        signature_with_id (cap_contains capabilities CapSignatureDomain)).

Definition shard_account_for_emulation (address : StdAddr Anycast) (state : AccountState) (min_native_balance : N)
  : res bytes (ShardAccount lazy_account) :=
  match state with
  | AccountExists account _ last_transaction_id _ =>
      let tokens := if ca_tokens account <? min_native_balance then min_native_balance else ca_tokens account in
      let account := mkChainAccount (ca_state account) tokens (ca_other account) (N.min (ca_last_trans_lt account) EMULATION_MAX_LT)
                       (ca_rest account) in
      let? (last_trans_hash, last_trans_lt) :=
        match last_transaction_id with
        | Some last =>
            let? hash := map_err (fun _ => bs "invalid last transaction hash") (hash_from_str (lt_hash last)) in
            Ok (hash, N.min (lt_lt last) EMULATION_MAX_LT)
        | None => Ok (pad32 [], 0)
        end in
      let? account := optional_account account in
      Ok (mkShardAccount account last_trans_hash last_trans_lt)
  | AccountNotExists _ =>
      let? account := optional_account (mkChainAccount CoreUninit min_native_balance [] 0 (new_account_rest address)) in
      Ok (mkShardAccount account (pad32 []) 0)
  | AccountUnchanged _ => Err (bs "account state is Unchanged; fetch it without a last-transaction filter")
  end.

(** Only the signature is not checked; the rest of the message is run as it is. *)
Definition emulation_params (config : EmulationConfig) (block_unixtime : N) : ExecutorParams :=
  mkParams block_unixtime true true true (ec_full_body_in_bounced config) (ec_authority_marks_enabled config) true
    (ec_signature_with_id config) (ec_enable_signature_domains config).

Definition emulate_external_message (config : EmulationConfig) (address : StdAddr Anycast) (shard_account : ShardAccount lazy_account)
    (message : cell) (block_unixtime : N) : res bytes ChainTransaction :=
  let message_size := N.of_nat (length (boc_encode message)) in
  check message_size <=? MAX_EMULATION_MESSAGE_BOC_BYTES else message_too_long message_size;;
  let? uncommitted := map_err (fun error => match error with
                        | TxSkipped => bs "the executor skipped the message (unpayable import or not accepted)"
                        | TxFatal _ => bs "emulation failed"
                        end)
    (begin_ordinary (emulation_params config block_unixtime) (ec_parsed config) (sh_last_trans_lt shard_account) address message shard_account) in
  let? tx := map_err (fun error => bs "failed to build the emulated transaction: " ++ error) (build_uncommitted uncommitted) in
  let? c := map_err (fun _ => bs "failed to encode the emulated transaction") (transaction_cell tx) in
  parse_transaction_cell c.
End emulator.
