(* ===== verification/WalletService.v ===== *)
(** * The wallet service and its reads

    [TychoWalletService] of cc-wallet-chain/src/wallet_service.rs: its caches, and the calls
    that read the chain.  A call is a program over the service's state ([Svc]); what the
    nodes answer, the clocks, the entropy and how an emulation ends are given around it.  One
    call runs at a time here; calls that interleave are in [Keyring]. *)

From Stdlib Require Import NArith ZArith Lia.
From stdpp Require Import gmap list.
From S2P Require Import Prelude Ord Bytes Text Decimal Ids Json Asset Amount Digest Affordability Send Swap StorageRecord Profile Journal Fs.
From S2P Require Import VaultKeys Vault ChainData AppState Wallets Comment Activity Transmit Prepare Transfers Keyring ChainStorage Signing Pool.
From S2P Require Import Subscription Transport Emulator.

(** [SigningKey::from_bytes]. *)
Class KeyLib `{CurveLib} := { signing_of : bytes32 -> signing_key }.

Definition FEE_ESTIMATE_STORAGE_LAG_SECS : N := 30.
Definition SWAP_VALID_SECS : N := 300.

(** [SystemTime::now] in seconds since 1970, or the text of its error. *)
Definition now_unix_secs (now : res bytes N) : res ChainError N :=
  let? seconds := map_err ChainWallet now in
  check seconds <=? u32_max else ChainWallet (bs "system time exceeds the protocol u32 range");; Ok seconds.

(** Instants are milliseconds of the monotonic clock. *)
Definition monotonic_ms (origin observed : N) : res ChainError N :=
  let millis := saturating_sub observed origin in
  check millis <=? u64_max else ChainWallet (bs "monotonic prepare timestamp exceeds u64");; Ok millis.

(** ** Provenance *)
Section provenance.
Context `{Sha256}.

Definition provenance_digest (domain : bytes) (fields : list bytes) : Digest32 :=
  sha256 (domain ++ mjoin ((fun field => be_bytes 8 (N.of_nat (length field)) ++ field) <$> fields)).

Context `{MessageCodec}.
Definition account_state_digest (state : AccountState) : Digest32 :=
  match state with
  | AccountExists _ account_boc_base64 last timings =>
      provenance_digest (bs "cc-wallet/account-state/exists/v1" ++ [Byte.x00])
        [account_boc_base64; default [] (lt_hash <$> last); be_bytes 8 (default 0 (lt_lt <$> last));
         be_bytes 8 (at_gen_lt timings); be_bytes 4 (at_gen_utime timings)]
  | AccountNotExists timings =>
      provenance_digest (bs "cc-wallet/account-state/not-exists/v1" ++ [Byte.x00])
        [[if is_some timings then Byte.x01 else Byte.x00]; be_bytes 8 (default 0 (at_gen_lt <$> timings));
         be_bytes 4 (default 0 (at_gen_utime <$> timings))]
  | AccountUnchanged timings =>
      provenance_digest (bs "cc-wallet/account-state/unchanged/v1" ++ [Byte.x00])
        [be_bytes 8 (at_gen_lt timings); be_bytes 4 (at_gen_utime timings)]
  end.
End provenance.

(** ** What is read *)
Definition account_status_label (status : AccountStatus) : bytes :=
  match status with
  | StatusActive => bs "Active" | StatusUninit => bs "Uninit" | StatusFrozen => bs "Frozen" | StatusNotExists => bs "Non-exist"
  end.

Definition invalid_input {A} (r : res WalletError A) : res ChainError A :=
  map_err (fun error => ChainInvalidInput (WalletError_text error)) r.

Definition snapshot (address : bytes) (s : WalletState) (global_id : Z) : res ChainError WalletSnapshot :=
  let? observed :=
    match wst_observed_network_time s with
    | Some o => rmap Some (invalid_input (ObservedNetworkTime_new (ot_value o) (ot_source_endpoint o) (ot_request_id o) (ot_observed_at_mono o)))
    | None => Ok None
    end in
  let? extra := parse_extra_balance (wst_extra_balance s) in
  let? w := invalid_input (new_with_network_time address global_id (account_status_label (wst_status s)) (wst_balance s) extra
                             (wst_last_trans_lt s) observed) in
  Ok (with_last_message_ms w (default 0 (wst_last_message_ms s))).

(** ** The service *)
Section service.
Context `{UrlLib} `{EmulatorLib} `{!TransactionLib} `{!BocLib} `{StatusText} `{!KeyLib} `{SeedLib} `{VaultPrims} `{Sha256} `{PoolL : !PoolLib}.

Record CachedConfig := mkCached {
  cc_state : BlockchainConfigState;
  cc_emulation : EmulationConfig;
  cc_request_id : bytes;
  cc_observed_at_mono : N
}.

(** Of a transport in the cache the number its next request will have, and beside the caches
    the requests made so far. *)
Record TychoWalletService := mkService {
  sv_configs : gmap bytes CachedConfig;
  sv_transports : gmap bytes N;
  sv_keys : Keyring;
  sv_jobs : EmulationJobs;
  sv_requests : list (url * json)
}.
Definition TychoWalletService_default : TychoWalletService := mkService ∅ ∅ Keyring_default ∅ [].

Inductive EmulationEnd := EmulationInTime | EmulationTimedOut | EmulationCrashed.

(** What a call finds around it. Answers are numbered by the requests made before. *)
Record Around := mkAround {
  ar_answers : nat -> Answer;
  (** The clocks, where a configuration is kept, where the message is signed, where a block's
      time is chosen, where a swap's end is, and where the route is resolved. *)
  ar_config_now : res bytes N;
  ar_sign_mono : N;
  ar_sign_ms : res bytes N;
  ar_block_now : res bytes N;
  ar_valid_now : res bytes N;
  ar_route_mono : N;
  ar_origin_mono : N;
  ar_query_id : N;
  ar_entropy : entropy;
  (** Whether waiting for the job went well, and the jobs that end while it is waited for. *)
  ar_handoff : res bytes unit;
  ar_ended : EmulationJobs;
  ar_emulation : EmulationEnd
}.

(** A call changes the service and comes to a result. *)
Definition Svc (A : Type) : Type := TychoWalletService -> TychoWalletService * res ChainError A.
#[export] Instance svc_ret : MRet Svc := fun A a s => (s, Ok a).
#[export] Instance svc_bind : MBind Svc := fun A B k m s =>
  match m s with
  | (s, Ok a) => k a s
  | (s, Err error) => (s, Err error)
  | (s, Panic) => (s, Panic)
  end.
Definition lift {A} (r : res ChainError A) : Svc A := fun s => (s, r).
Definition throw {A} (error : ChainError) : Svc A := lift (Err error).
Definition guard_or (b : bool) (error : ChainError) : Svc unit := if b then mret tt else throw error.

Definition with_configs (configs : gmap bytes CachedConfig) (s : TychoWalletService) : TychoWalletService :=
  mkService configs (sv_transports s) (sv_keys s) (sv_jobs s) (sv_requests s).
Definition with_transports (transports : gmap bytes N) (s : TychoWalletService) : TychoWalletService :=
  mkService (sv_configs s) transports (sv_keys s) (sv_jobs s) (sv_requests s).
Definition with_keys (keys : Keyring) (s : TychoWalletService) : TychoWalletService :=
  mkService (sv_configs s) (sv_transports s) keys (sv_jobs s) (sv_requests s).
Definition with_jobs (jobs : EmulationJobs) (s : TychoWalletService) : TychoWalletService :=
  mkService (sv_configs s) (sv_transports s) (sv_keys s) jobs (sv_requests s).

Variable around : Around.

(** An identity of an endpoint and where its calls go. *)
Definition Transport : Type := bytes * url.

Definition open_transport (endpoint : bytes) : Svc Transport := fun s =>
  match transport_for endpoint with
  | Ok t => (match sv_transports s !! fst t with
             | Some _ => s
             | None => with_transports (<[fst t := 1]> (sv_transports s)) s
             end, Ok t)
  | Err error => (s, Err error)
  | Panic => (s, Panic)
  end.

(** One call over a transport; its number is taken from the transport's counter, which wraps. *)
Definition ask {A} (t : Transport) (method : bytes) (params : json) (get : url -> N -> Answer -> res bytes A) : Svc A := fun s =>
  let id := default 1 (sv_transports s !! fst t) in
  (mkService (sv_configs s) (<[fst t := (id + 1) mod (u64_max + 1)]> (sv_transports s)) (sv_keys s) (sv_jobs s)
     (sv_requests s ++ [(snd t, rpc_request method params id)]),
   map_err ChainWallet (get (snd t) id (ar_answers around (length (sv_requests s))))).

Definition read_account (t : Transport) (address : bytes) : Svc ObservedAccountState :=
  ask t (bs "getContractState") (account_params address None) (get_account_state_observed_since (fst t)).

Definition keep_config (endpoint : bytes) (config : CachedConfig) : Svc CachedConfig := fun s =>
  (with_configs (<[endpoint := config]> (sv_configs s)) s, Ok config).
Definition fetch_config (t : Transport) : Svc CachedConfig :=
  observed ← ask t (bs "getBlockchainConfig") (JObj []) get_blockchain_config_observed;
  now ← lift (now_unix_secs (ar_config_now around));
  emulation ← lift (map_err ChainWallet (prepare_emulation_config (bc_config (ob_state observed)) now));
  keep_config (fst t) (mkCached (ob_state observed) emulation (ob_request_id observed) (ob_observed_at_mono observed)).
Definition blockchain_config (t : Transport) : Svc CachedConfig := fun s =>
  match sv_configs s !! fst t with
  | Some config => (s, Ok config)
  | None => fetch_config t s
  end.

Definition clear_config_cache : Svc unit := fun s =>
  (mkService ∅ ∅ (with_cache ∅ (sv_keys s)) (sv_jobs s) (sv_requests s), Ok tt).

(** A call of [keypair_for] that nothing else interleaves with. *)
Definition keypair_alone (seed : bytes) (k : Keyring) : Keyring * res ChainError bytes32 :=
  if kr_sealed k then (k, Err locked_keys_error) else
  match kr_cache k !! as_bytes (blake3_hash seed) with
  | Some keys => (k, Ok keys)
  | None =>
      match map_err ChainWallet (from_seed seed) with
      | Ok keys => (with_cache (<[as_bytes (blake3_hash seed) := keys]> (kr_cache k)) k, Ok keys)
      | Err error => (k, Err error)
      | Panic => (k, Panic)
      end
  end.
Definition secret_for (seed : bytes) : Svc bytes32 := fun s =>
  let (keys, r) := keypair_alone seed (sv_keys s) in (with_keys keys s, r).
Definition keypair_for (seed : bytes) : Svc signing_key := secret ← secret_for seed; mret (signing_of secret).

Definition derive_wallet_address (inputs : WalletInputs) : Svc bytes :=
  seed ← lift (normalize_and_validate_inputs inputs);
  canonical_endpoint ← lift (map_err ChainInvalidInput (rmap as_str (canonicalize_endpoint (wi_endpoint inputs))));
  guard_or (bool_decide (canonical_endpoint = wi_endpoint inputs)) (ChainInvalidInput (bs "wallet endpoint is not canonical"));;
  keys ← keypair_for seed;
  lift (rmap stdaddr_to_string (map_err ChainWallet (compute_address (wi_workchain inputs) (public_of keys)))).

Definition build_wallet (inputs : WalletInputs) (seed : bytes) : Svc (EverWallet * Transport) :=
  transport ← open_transport (wi_endpoint inputs);
  keys ← keypair_for seed;
  wallet ← lift (map_err ChainWallet (with_shared_keys keys (wi_workchain inputs)));
  mret (wallet, transport).

Definition address_string (w : EverWallet) : bytes := stdaddr_to_string (ew_address w).

Definition load_wallet (inputs : EndpointAddressInputs) : Svc WalletSnapshot :=
  transport ← open_transport (ea_endpoint inputs);
  observed ← read_account transport (ea_address inputs);
  parsed ← lift (map_err ChainWallet (from_account_state (oa_state observed)));
  state ← lift (ok_or parsed (ChainWallet (bs "an initial account-state request returned Unchanged")));
  config ← blockchain_config transport;
  lift (snapshot (ea_address inputs) (with_observed_time (oa_network_time observed) state) (bc_global_id (cc_state config))).

Definition probe_endpoint (endpoint : bytes) : Svc Z :=
  transport ← open_transport endpoint;
  config ← blockchain_config transport;
  mret (bc_global_id (cc_state config)).

(** The key [AccountInspection] finds in the data of a wallet contract; there is none where the
    account cannot be inspected. *)
Definition inspected_key (state : AccountState) : option bytes32 :=
  match state with
  | AccountExists account _ _ _ =>
      _ ← opt_ok (extra_currencies_to_strings (ca_other account) []);
      match ca_state account with
      | CoreActive (Some code) data =>
          wallet_hash ← opt_ok ever_wallet_code_hash;
          if bool_decide (code_hash_text code = wallet_hash)
          then data ← data; s ← opt_ok (as_slice data); fst <$> opt_ok (load_u256 s)
          else None
      | _ => None
      end
  | _ => None
  end.

Definition destination_status (state : AccountState) : DestinationAccountStatus :=
  match account_of state with
  | None => NonExist
  | Some account =>
      match status_of (ca_state account) with
      | StatusActive => Active | StatusFrozen => Frozen | StatusUninit => Uninit | StatusNotExists => NonExist
      end
  end.

Definition check_destination (inputs : EndpointAddressInputs) (address : bytes) : Svc DestinationReport :=
  address ← lift (invalid_input (canonicalize_recipient address));
  transport ← open_transport (ea_endpoint inputs);
  observed ← read_account transport address;
  mret (mkReport (destination_status (oa_state observed)) (inspected_key (oa_state observed))).

Record TransactionPage := mkPage { tp_transactions : list ChainTransaction; tp_skipped : nat; tp_source_endpoint : bytes; tp_request_id : bytes }.

(** The transactions that can be read, and the count of those that cannot. *)
Fixpoint read_transactions (values : list bytes) : res Empty_set (list ChainTransaction * nat) :=
  match values with
  | [] => Ok ([], 0%nat)
  | boc :: values =>
      let? (transactions, skipped) := read_transactions values in
      match parse_transaction boc with
      | Ok tx => Ok (tx :: transactions, skipped)
      | Err _ => Ok (transactions, S skipped)
      | Panic => Panic
      end
  end.

Definition load_transactions (inputs : EndpointAddressInputs) (limit : N) (before_lt : option N) : Svc TransactionPage :=
  transport ← open_transport (ea_endpoint inputs);
  observed ← ask transport (bs "getTransactionsList") (transactions_params (ea_address inputs) limit before_lt) get_transactions_list_observed;
  read ← lift (rexpect (read_transactions (ol_values observed)));
  mret (mkPage (fst read) (snd read) (fst transport) (ol_request_id observed)).

(** ** Contracts *)

(** What the storage and the pool read of an account. *)
Definition contract_account (state : AccountState) : option Account :=
  (fun account => mkAccount (ca_tokens account)
                    (match ca_state account with CoreActive _ data => ActiveState data | _ => InactiveState end)) <$> account_of state.

(** The secret of the wallet, and its address. *)
Definition storage_owner (inputs : WalletInputs) : Svc (bytes32 * StdAddr Anycast) :=
  seed ← lift (normalize_and_validate_inputs inputs);
  secret ← secret_for seed;
  owner ← lift (map_err ChainWallet (compute_address (wi_workchain inputs) (public_of (signing_of secret))));
  mret (secret, owner).

Definition storage_address_for (inputs : WalletInputs) : Svc bytes :=
  '(_, owner) ← storage_owner inputs;
  lift (map_err ChainWallet (rmap (fun a => stdaddr_to_string (fst a)) (storage_address owner))).

Definition read_storage (inputs : WalletInputs) : Svc StorageSnapshot :=
  '(secret, owner) ← storage_owner inputs;
  '(address, _) ← lift (map_err ChainWallet (storage_address owner));
  transport ← open_transport (wi_endpoint inputs);
  observed ← read_account transport (stdaddr_to_string address);
  lift (load_storage secret owner (contract_account (oa_state observed))).

Definition read_pool (endpoint pool : bytes) : Svc PoolSnapshot :=
  pool_address ← lift (invalid_input (canonicalize_recipient pool));
  transport ← open_transport endpoint;
  observed ← read_account transport pool_address;
  lift (load_pool_state pool (contract_account (oa_state observed))).
End service.

(** ** Programs of the service *)
Section programs.
Context `{UrlLib} `{EmulatorLib} `{!TransactionLib} `{!BocLib} `{StatusText} `{!KeyLib} `{SeedLib} `{VaultPrims} `{Sha256} `{PoolL : !PoolLib}.

Lemma bind_Ok {A B} (m : Svc A) (k : A -> Svc B) s s' b :
  (m ≫= k) s = (s', Ok b) <-> exists s1 a, m s = (s1, Ok a) /\ k a s1 = (s', Ok b).
Proof.
  unfold mbind, svc_bind. destruct (m s) as [s1 [a|e|]]; split; try done; [eauto|by intros (? & ? & [= <- <-] & ?)|..];
    by intros (? & ? & [=] & ?).
Qed.
Lemma lift_Ok {A} (r : res ChainError A) s s' a : lift r s = (s', Ok a) <-> s' = s /\ r = Ok a.
Proof. unfold lift. split; [by intros [= <- ->]|by intros [-> ->]]. Qed.
Lemma ret_Ok {A} (a a' : A) s s' : @mret Svc _ A a s = (s', Ok a') <-> s' = s /\ a' = a.
Proof. unfold mret, svc_ret. split; [by intros [= <- <-]|by intros [-> ->]]. Qed.
Lemma guard_Ok b error s s' u : guard_or b error s = (s', Ok u) <-> s' = s /\ b = true.
Proof. unfold guard_or. destruct b, u; [rewrite ret_Ok|unfold throw; rewrite lift_Ok]; naive_solver. Qed.

(** What a program makes of the requests and of the caches, whatever comes of it. *)
Definition keeps (I : TychoWalletService -> TychoWalletService -> Prop) {A} (m : Svc A) : Prop := forall s, I s (fst (m s)).

Lemma keeps_bind I {A B} (m : Svc A) (k : A -> Svc B) : Transitive I -> keeps I m ->
  (forall a s s', m s = (s', Ok a) -> keeps I (k a)) -> keeps I (m ≫= k).
Proof.
  intros HT Hm Hk s. specialize (Hm s). unfold mbind, svc_bind. destruct (m s) as [s1 [a|e|]] eqn:E; [|done..].
  etransitivity; [exact Hm|by eapply Hk].
Qed.
Lemma keeps_lift I {A} (r : res ChainError A) : Reflexive I -> keeps I (lift r).
Proof. intros HR s. apply HR. Qed.
Lemma keeps_ret I {A} (a : A) : Reflexive I -> keeps I (mret a).
Proof. intros HR s. apply HR. Qed.
Lemma keeps_guard I b error : Reflexive I -> keeps I (guard_or b error).
Proof. intros HR. unfold guard_or. destruct b; [by apply keeps_ret|by apply keeps_lift]. Qed.
End programs.

(** [sinv H] opens a hypothesis that a program came to a result, step by step. *)
Ltac sinv_step H :=
  lazymatch type of H with
  | mbind _ _ _ = (_, Ok _) =>
      let s := fresh "s" in let a := fresh "a" in let H1 := fresh "Hs" in
      apply bind_Ok in H; destruct H as (s & a & H1 & H);
      lazymatch type of H1 with
      | lift _ _ = _ => apply lift_Ok in H1 as [-> H1]
      | guard_or _ _ _ = _ => apply guard_Ok in H1 as [-> H1]
      | _ => idtac
      end
  | mret _ _ = (_, Ok _) => apply ret_Ok in H as [-> H]
  | lift _ _ = (_, Ok _) => apply lift_Ok in H as [-> H]
  | (let '(_, _) := ?p in _) _ = (_, Ok _) => let x := fresh "x" in let y := fresh "y" in destruct p as [x y]
  | (match ?p with (_, _) => _ end) _ = (_, Ok _) => let x := fresh "x" in let y := fresh "y" in destruct p as [x y]
  end.
Ltac sinv H := repeat (sinv_step H; cbv beta zeta in H).

(** ** Only reads *)
Section reading.
Context `{UrlLib} `{EmulatorLib} `{!TransactionLib} `{!BocLib} `{StatusText} `{!KeyLib} `{SeedLib} `{VaultPrims} `{Sha256} `{PoolL : !PoolLib}.
Variables (around : Around) (endpoint : bytes).

Definition READS : list bytes := [bs "getBlockchainConfig"; bs "getContractState"; bs "getTransactionsList"].

(** A request that reads, to where the calls of the endpoint go. *)
Definition reads (request : url * json) : Prop :=
  exists t method params id, transport_for endpoint = Ok t /\ method ∈ READS /\ request = (snd t, rpc_request method params id).
Definition only_reads (s s' : TychoWalletService) : Prop :=
  exists more, sv_requests s' = sv_requests s ++ more /\ Forall reads more.

#[export] Instance only_reads_refl : Reflexive only_reads.
Proof. intros s. exists []. by rewrite app_nil_r. Qed.
#[export] Instance only_reads_trans : Transitive only_reads.
Proof.
  intros s1 s2 s3 (l1 & E1 & H1') (l2 & E2 & H2'). exists (l1 ++ l2). rewrite E2, E1, app_assoc. split; [done|by apply Forall_app].
Qed.
Lemma only_reads_same s s' : sv_requests s' = sv_requests s -> only_reads s s'.
Proof. intros E. exists []. by rewrite app_nil_r. Qed.

Notation reading := (keeps only_reads).

Lemma opened_transport e s s' t : open_transport e s = (s', Ok t) -> transport_for e = Ok t.
Proof. unfold open_transport. by destruct (transport_for e); intros [= _ <-]. Qed.
Lemma reading_open e : reading (open_transport e).
Proof. intros s. unfold open_transport. destruct (transport_for e) as [t| |]; [|done..]. cbn. case_match; by apply only_reads_same. Qed.

Lemma reading_ask {A} (t : Transport) method params (get : url -> N -> Answer -> res bytes A) :
  transport_for endpoint = Ok t -> method ∈ READS -> reading (ask around t method params get).
Proof. intros Ht Hm s. eexists. split; [done|]. constructor; [|done]. by eexists _, _, _, _. Qed.

Lemma reading_account t address : transport_for endpoint = Ok t -> reading (read_account around t address).
Proof. intros Ht. apply reading_ask; [done|]. right. left. Qed.

Lemma reading_config t : transport_for endpoint = Ok t -> reading (blockchain_config around t).
Proof.
  intros Ht s. unfold blockchain_config. destruct (_ !! _); [done|]. revert s. fold (reading (fetch_config around t)).
  apply keeps_bind; [apply _|apply reading_ask; [done|left]|]. intros observed _ _ _.
  apply keeps_bind; [apply _|apply keeps_lift, _|]. intros now _ _ _.
  apply keeps_bind; [apply _|apply keeps_lift, _|]. intros emulation _ _ _ s. by apply only_reads_same.
Qed.

Lemma reading_secret seed : reading (secret_for seed).
Proof. intros s. unfold secret_for. destruct (keypair_alone _ _). by apply only_reads_same. Qed.
End reading.

(** Opens a program along its steps; what remains is for lemmas on its parts. *)
Ltac keeping :=
  repeat lazymatch goal with
  | |- keeps _ (mbind _ _) => apply keeps_bind; [apply _| |intros ? ? ? ?]
  | |- keeps _ (mret _) => apply keeps_ret, _
  | |- keeps _ (lift _) => apply keeps_lift, _
  | |- keeps _ (guard_or _ _) => apply keeps_guard, _
  | |- keeps _ (secret_for _) => apply reading_secret
  | |- keeps _ (open_transport _) => apply reading_open
  | |- keeps _ (match ?p with (_, _) => _ end) => destruct p
  end.
