(* ===== verification/Preparation.v ===== *)
(** * Estimating and preparing

    The calls of cc-wallet-chain/src/wallet_service.rs that estimate a fee, and that sign a
    send, a swap or a request to the storage without broadcasting it. *)

From Stdlib Require Import NArith ZArith Lia.
From stdpp Require Import gmap list.
From S2P Require Import Prelude Ord Bytes Text Decimal Ids Json Asset Amount Digest Affordability Send Swap StorageRecord Profile Risk Journal Fs.
From S2P Require Import VaultKeys Vault ChainData AppState Wallets Comment Activity Transmit Prepare Transfers Keyring ChainStorage Signing Pool.
From S2P Require Import Subscription Transport Emulator WalletService.

Section preparing.
Context `{UrlLib} `{EmulatorLib} `{!TransactionLib} `{!BocLib} `{StatusText} `{!KeyLib} `{SeedLib} `{VaultPrims} `{Sha256} `{PoolL : !PoolLib}.
Variable around : Around.

(** What a signature is bound to: the network, and the capabilities of its configuration. *)
Record BoundContext := mkBound { bx_global_id : Z; bx_capabilities : N; bx_has_id : bool }.
Definition bound_signature (context : BoundContext) : SignatureContext :=
  signature_context_of (bx_global_id context) (bx_capabilities context).

(** The configuration of the network the wallet is on, and the context to sign in. *)
Definition checked_context (inputs : WalletInputs) (t : Transport) : Svc (CachedConfig * BoundContext) :=
  config ← blockchain_config around t;
  capabilities ← lift (map_err ChainWallet (config_capabilities (bc_config (cc_state config))));
  let context := mkBound (bc_global_id (cc_state config)) capabilities (cap_contains capabilities CapSignatureWithId) in
  lift (map_err ChainWallet (validate_signature_context (bx_global_id context) (bx_has_id context)
                               (wi_network_id inputs) (wi_require_signature_id inputs)));;
  mret (config, context).

Definition apply_observed (observed : ObservedAccountState) (w : EverWallet) : res ChainError EverWallet :=
  map_err ChainWallet (apply_observed_account_state (oa_state observed) (oa_network_time observed) w).

Definition seal_of (keys : signing_key) (w : EverWallet) : CommentSeal := mkSeal keys (address_string w).

Definition sign_transfer (w : EverWallet) (transfer : EverTransfer) (context : BoundContext) : res ChainError PreparedMessage :=
  map_err ChainWallet (prepare_send_currency w (ar_sign_mono around) (ar_sign_ms around) transfer (bound_signature context)).

Definition block_time : res ChainError N :=
  rmap (fun now => saturating_add u32_max now FEE_ESTIMATE_STORAGE_LAG_SECS) (now_unix_secs (ar_block_now around)).

Definition emulation_key (t : Transport) (w : EverWallet) : bytes := fst t ++ bs "|" ++ address_string w.

(** Its guard goes into the emulation, which drops it when it ends. *)
Definition acquire_job (key : bytes) : Svc bytes := fun s =>
  let (jobs, r) := acquire (sv_jobs s) key in (with_jobs jobs s, r).
Definition acquire_job_wait (key : bytes) : Svc bytes := fun s =>
  let (jobs, r) := acquire_wait (sv_jobs s ∖ ar_ended around) key in (with_jobs jobs s, r).
Definition release_job (key : bytes) : Svc unit := fun s => (with_jobs (drop_guard (sv_jobs s) key) s, Ok tt).

(** The emulation of a message, in the time it has; what it is called is for its errors. *)
Definition emulate (what : bytes) (config : CachedConfig) (w : EverWallet) (account : ShardAccount lazy_account)
    (message : cell) (block_time : N) (job : bytes) : Svc ChainTransaction :=
  match ar_emulation around with
  | EmulationTimedOut => throw (ChainWallet (what ++ bs " timed out on hostile chain data"))
  | EmulationCrashed => release_job job;; throw (ChainWallet (what ++ bs " crashed on invalid chain data"))
  | EmulationInTime =>
      release_job job;;
      lift (map_err ChainWallet (emulate_external_message (cc_emulation config) (ew_address w) account message block_time))
  end.

(** The fee of what was emulated, that of its first transfer. *)
Definition emulated_ok (emulated : ChainTransaction) (failed : bytes) : res ChainError unit :=
  if ct_aborted emulated || negb (ct_compute_success emulated)
  then Err (ChainWallet (failed ++ bs " (exit code " ++ print_z (ct_exit_code emulated) ++ bs ")")) else Ok tt.
Definition first_fee (emulated : ChainTransaction) (none : bytes) : res ChainError N :=
  let? events := activity_from_chain_tx emulated in
  ok_or (ae_fee_native <$> head events) (ChainWallet none).
Definition first_fee_or_zero (emulated : ChainTransaction) : res ChainError N :=
  let? events := activity_from_chain_tx emulated in Ok (default 0 (ae_fee_native <$> head events)).

Definition message_digest (what : bytes) (p : PreparedMessage) : res ChainError Digest32 :=
  map_err (fun error => ChainWallet (bs "prepared " ++ what ++ bs " hash is not canonical 32-byte hex: " ++ IdError_text error))
    (try_from_hex (pm_message_hash p)).

Definition shard_account (w : EverWallet) (state : AccountState) (native : N) : res ChainError (ShardAccount lazy_account) :=
  let? min_balance := emulation_balance_floor native in
  map_err ChainWallet (shard_account_for_emulation (ew_address w) state min_balance).

Definition check_sizes (config : CachedConfig) (state : AccountState) (p : PreparedMessage) : res ChainError unit :=
  map_err ChainWallet (validate_emulation_input_sizes (cc_state config) state (pm_message p)).

(** ** The estimate *)
Definition estimate_fee (inputs : WalletInputs) (request : SendRequest) (bounce : bool) : Svc FeeEstimate :=
  seed ← lift (normalize_and_validate_inputs inputs);
  lift (validate_chain_request request);;
  keys ← keypair_for seed;
  '(wallet, transport) ← build_wallet inputs seed;
  '(config, context) ← checked_context inputs transport;
  observed ← read_account around transport (address_string wallet);
  wallet ← lift (apply_observed observed wallet);
  let deploy := negb (wst_is_active (ew_state wallet)) in
  '(transfer, _) ← lift (build_transfer request bounce (Some (seal_of keys wallet)) (ar_entropy around));
  prepared ← lift (sign_transfer wallet transfer context);
  lift (check_sizes config (oa_state observed) prepared);;
  account ← lift (shard_account wallet (oa_state observed) (default 0 (native_units (sr_value request))));
  block_time ← lift block_time;
  job ← acquire_job (emulation_key transport wallet);
  emulated ← emulate (bs "fee emulation") config wallet account (pm_message prepared) block_time job;
  lift (emulated_ok emulated (bs "fee emulation failed"));;
  fee ← lift (first_fee emulated (bs "fee emulation produced no transfer"));
  guard_or (fee_within_bounds fee)
    (ChainWallet (bs "fee estimate " ++ print_dec fee ++ bs " nanos is outside the trustworthy range "
                  ++ [Byte.xe2; Byte.x80; Byte.x94] ++ bs " the endpoint's blockchain config may be wrong"));;
  mret (mkFeeEstimate fee deploy).

(** ** The send *)

(** What was prepared, with the route and the signed message that stay with the service. *)
Record ChainSend := mkChainSend { cs_send : PreparedChainSend; cs_route : option ResolvedSendRoute; cs_message : option cell }.

Definition network_time_provenance (observed : option ObservedTime) : res ChainError (option NetworkTimeProvenance) :=
  match observed with
  | None => Ok None
  | Some o =>
      let? at_ms := monotonic_ms (ar_origin_mono around) (ot_observed_at_mono o) in
      rmap Some (map_err (fun error => ChainWallet (bs (JournalError_display error)))
                   (NetworkTimeProvenance_new (ot_value o) (ot_source_endpoint o) (ot_request_id o) at_ms))
  end.

Definition signature_context_digest (config : BlockchainConfigState) (context : BoundContext) : Digest32 :=
  provenance_digest (bs "cc-wallet/prepare-signature-context/v1" ++ [Byte.x00])
    [i32_to_be_bytes (bc_global_id config); be_bytes 4 (bc_seqno config); be_bytes 8 (bx_capabilities context); bc_config_boc_base64 config].
Definition fee_input_digest (config : BlockchainConfigState) (account_state_hash external_hash : Digest32) : Digest32 :=
  provenance_digest (bs "cc-wallet/prepare-fee-input/v1" ++ [Byte.x00])
    [bc_config_boc_base64 config; as_bytes account_state_hash; as_bytes external_hash].

(** The fee of the send, and the most that is asked for above it. *)
Definition desired_fee_ceiling (estimated_fee_native : N) : res ChainError N :=
  check fee_within_bounds estimated_fee_native
    else ChainWallet (bs "send fee " ++ print_dec estimated_fee_native ++ bs " nanos is outside the trustworthy local range");;
  ok_or (wanted ← checked_add u128_max estimated_fee_native LOCAL_SEND_FEE_HEADROOM_NANOS;
         if wanted <=? LOCAL_SEND_FEE_CEILING_NANOS then Some wanted else None)
    (ChainWallet (bs "the exact send fee plus its local headroom exceeds the policy ceiling")).

Definition check_ticket (inputs : WalletInputs) (ticket : SendTicket) : res ChainError unit :=
  let? canonical_endpoint := map_err ChainInvalidInput (rmap as_str (canonicalize_endpoint (wi_endpoint inputs))) in
  if negb (bool_decide (canonical_endpoint = wi_endpoint inputs))
     || negb (bool_decide (t_endpoint_identity ticket = wi_endpoint inputs))
     || negb (t_network_global_id ticket =? wi_network_id inputs)%Z
  then Err (ChainInvalidInput (bs "send ticket endpoint/network does not match the frozen wallet inputs"))
  else Ok tt.

(** The record of what was prepared. *)
Definition prepared_send (ticket : SendTicket) (t : Transport) (config : CachedConfig) (context : BoundContext)
    (observed : ObservedAccountState) (route : ResolvedSendRoute) (state_init_required : bool) (balances : list AssetAmount)
    (external_hash : Digest32) (fee ceiling : N) (reservations overlap : list Reservation) (expire_at : N) : res ChainError PreparedRecord :=
  let journal {A} (r : res JournalError A) := map_err (fun error => ChainWallet (bs (JournalError_display error))) r in
  let account_state_hash := account_state_digest (oa_state observed) in
  let? observed_at_mono_ms := monotonic_ms (ar_origin_mono around)
    (N.max (N.max (cc_observed_at_mono config) (oa_observed_at_mono observed)) (ro_observed_at_mono route)) in
  let? network_time := network_time_provenance (oa_network_time observed) in
  let? provenance := journal (PrepareProvenance_new (mkProvenance (fst t) (route_id route)
    (cc_request_id config :: oa_request_id observed :: ro_probe_request_ids route) observed_at_mono_ms
    account_state_hash state_init_required balances (signature_context_digest (cc_state config) context)
    (bx_global_id context) (bx_has_id context) network_time (fee_input_digest (cc_state config) account_state_hash external_hash)
    fee ceiling overlap)) in
  journal (PreparedRecord_new (Journal.mkPrepared ticket provenance external_hash expire_at reservations)).

Definition prepare_transaction (inputs : WalletInputs) (ticket : SendTicket) (active_reservations authorized_overlap : list Reservation)
  : Svc ChainSend :=
  lift (check_ticket inputs ticket);;
  seed ← lift (normalize_and_validate_inputs inputs);
  lift (validate_chain_request (t_request ticket));;
  keys ← keypair_for seed;
  '(wallet, transport) ← build_wallet inputs seed;
  guard_or (bool_decide (address_string wallet = t_sender_address ticket))
    (ChainInvalidInput (bs "send ticket sender does not match the wallet derived from its frozen key"));;
  '(config, context) ← checked_context inputs transport;
  observed ← read_account around transport (address_string wallet);
  guard_or (negb (account_unchanged (oa_state observed)))
    (ChainWallet (bs "fresh unfiltered account read unexpectedly returned Unchanged"));;
  wallet ← lift (apply_observed observed wallet);
  extra_balance ← lift (parse_extra_balance (wst_extra_balance (ew_state wallet)));
  balances ← lift (typed_balances (wst_balance (ew_state wallet)) extra_balance);
  let state_init_required := negb (wst_is_active (ew_state wallet)) in
  account ← lift (shard_account wallet (oa_state observed) (default 0 (native_units (sr_value (t_request ticket)))));
  let route := resolve_send_route (fst transport) (snd transport) (ar_route_mono around) in
  '(transfer, _) ← lift (build_transfer (t_request ticket) (t_bounce ticket) (Some (seal_of keys wallet)) (ar_entropy around));
  prepared ← lift (sign_transfer wallet transfer context);
  external_hash ← lift (message_digest (bs "external-message") prepared);
  lift (check_sizes config (oa_state observed) prepared);;
  block_time ← lift block_time;
  lift (map_err (fun error => ChainWallet (bs "could not hand off fee emulation to send preparation: " ++ error)) (ar_handoff around));;
  job ← acquire_job_wait (emulation_key transport wallet);
  emulated ← emulate (bs "send preparation emulation") config wallet account (pm_message prepared) block_time job;
  lift (emulated_ok emulated (bs "send preparation emulation failed"));;
  fee ← lift (first_fee emulated (bs "send emulation produced no transfer"));
  desired ← lift (desired_fee_ceiling fee);
  '(ceiling, reservations) ← lift (select_affordable_fee_ceiling ticket balances active_reservations authorized_overlap fee desired);
  record ← lift (prepared_send ticket transport config context observed route state_init_required balances external_hash
                   fee ceiling reservations authorized_overlap (pm_expire_at prepared));
  mret (mkChainSend (mkPreparedSend record (pm_created_at_ms prepared) (candidate_count route)) (Some route) (Some (pm_message prepared))).

(** ** The swap *)
Record PreparedSwap := mkPreparedSwap {
  sw_endpoint : bytes;
  sw_message : cell;
  sw_route : ResolvedSendRoute;
  sw_external_hash : Digest32;
  sw_expire_at : N;
  sw_request : SwapRequest;
  sw_pool : bytes;
  sw_deploy : bool;
  sw_attached_native : N;
  sw_fee_nanos : N
}.

Definition prepare_swap (inputs : WalletInputs) (pool : bytes) (request : SwapRequest) : Svc PreparedSwap :=
  seed ← lift (normalize_and_validate_inputs inputs);
  pool_address ← lift (invalid_input (canonicalize_recipient pool));
  '(wallet, transport) ← build_wallet inputs seed;
  '(config, context) ← checked_context inputs transport;
  observed ← read_account around transport (address_string wallet);
  wallet ← lift (apply_observed observed wallet);
  let deploy := negb (wst_is_active (ew_state wallet)) in
  now ← lift (now_unix_secs (ar_valid_now around));
  let valid_until := saturating_add u32_max now SWAP_VALID_SECS in
  '(attached_native, transfer) ← lift (build_swap_transfer (ar_query_id around) pool_address request valid_until);
  prepared ← lift (sign_transfer wallet transfer context);
  external_hash ← lift (message_digest (bs "swap message") prepared);
  lift (check_sizes config (oa_state observed) prepared);;
  account ← lift (shard_account wallet (oa_state observed) attached_native);
  block_time ← lift block_time;
  job ← acquire_job (emulation_key transport wallet);
  emulated ← emulate (bs "swap preparation emulation") config wallet account (pm_message prepared) block_time job;
  lift (emulated_ok emulated (bs "this swap would fail on your wallet before it reached the pool"));;
  fee_nanos ← lift (first_fee_or_zero emulated);
  let route := resolve_send_route (fst transport) (snd transport) (ar_route_mono around) in
  mret (mkPreparedSwap (fst transport) (pm_message prepared) route external_hash (pm_expire_at prepared) request pool_address deploy
          attached_native fee_nanos).

(** ** The storage *)
Record PreparedStorageOp := mkPreparedStorageOp {
  so_endpoint : bytes;
  so_message : cell;
  so_route : ResolvedSendRoute;
  so_external_hash : Digest32;
  so_expire_at : N;
  so_storage_address : bytes;
  so_op : StorageOp;
  so_attached_native : N;
  so_fee_nanos : N
}.

Definition prepare_storage_op (inputs : WalletInputs) (op : StorageOp) : Svc PreparedStorageOp :=
  '(secret, owner) ← storage_owner inputs;
  '(address, _) ← lift (map_err ChainWallet (storage_address owner));
  seed ← lift (normalize_and_validate_inputs inputs);
  '(wallet, transport) ← build_wallet inputs seed;
  stored ← read_account around transport (stdaddr_to_string address);
  let storage_balance := default 0 (ca_tokens <$> account_of (oa_state stored)) in
  '(config, context) ← checked_context inputs transport;
  observed ← read_account around transport (address_string wallet);
  wallet ← lift (apply_observed observed wallet);
  '(attached_native, transfer, _) ← lift (storage_transfer secret owner storage_balance (ar_query_id around) op (ar_entropy around));
  prepared ← lift (sign_transfer wallet transfer context);
  external_hash ← lift (message_digest (bs "storage message") prepared);
  lift (check_sizes config (oa_state observed) prepared);;
  account ← lift (shard_account wallet (oa_state observed) attached_native);
  block_time ← lift block_time;
  job ← acquire_job (emulation_key transport wallet);
  emulated ← emulate (bs "storage preparation emulation") config wallet account (pm_message prepared) block_time job;
  lift (emulated_ok emulated (bs "this request would fail on your wallet before it reached the storage"));;
  fee_nanos ← lift (first_fee_or_zero emulated);
  let route := resolve_send_route (fst transport) (snd transport) (ar_route_mono around) in
  mret (mkPreparedStorageOp (fst transport) (pm_message prepared) route external_hash (pm_expire_at prepared) (stdaddr_to_string address) op
          attached_native fee_nanos).
End preparing.

(** ** Preparing only reads *)
Section preparing_reads.
Context `{UrlLib} `{EmulatorLib} `{!TransactionLib} `{!BocLib} `{StatusText} `{!KeyLib} `{SeedLib} `{VaultPrims} `{Sha256} `{PoolL : !PoolLib}.
Variable around : Around.

Notation reading endpoint := (keeps (only_reads endpoint)).

Lemma reading_keys endpoint seed : reading endpoint (keypair_for seed).
Proof. unfold keypair_for. keeping. Qed.

Lemma built_transport inputs seed s s' w t : build_wallet inputs seed s = (s', Ok (w, t)) -> transport_for (wi_endpoint inputs) = Ok t.
Proof. unfold build_wallet. intros Hb. sinv Hb. injection Hb as -> ->. by eapply opened_transport. Qed.

Lemma reading_build endpoint inputs seed : reading endpoint (build_wallet inputs seed).
Proof. unfold build_wallet. keeping. apply reading_keys. Qed.

Lemma reading_context endpoint inputs t : transport_for endpoint = Ok t -> reading endpoint (checked_context around inputs t).
Proof. intros Ht. unfold checked_context. keeping. by apply reading_config. Qed.

Lemma reading_jobs endpoint {A} (f : EmulationJobs -> EmulationJobs * res ChainError A) :
  reading endpoint (fun s => let (jobs, r) := f (sv_jobs s) in (with_jobs jobs s, r)).
Proof. intros s. destruct (f _). by apply only_reads_same. Qed.

Lemma reading_acquire endpoint key : reading endpoint (acquire_job key).
Proof. exact (reading_jobs endpoint (fun jobs => acquire jobs key)). Qed.
Lemma reading_acquire_wait endpoint key : reading endpoint (acquire_job_wait around key).
Proof. exact (reading_jobs endpoint (fun jobs => acquire_wait (jobs ∖ ar_ended around) key)). Qed.

Lemma reading_emulate endpoint what config w account message now job : reading endpoint (emulate around what config w account message now job).
Proof.
  assert (Hrel : reading endpoint (release_job job)) by (intros s; by apply only_reads_same).
  unfold emulate, throw. destruct (ar_emulation around); keeping; done.
Qed.

Lemma reading_owner endpoint inputs : reading endpoint (storage_owner inputs).
Proof. unfold storage_owner. keeping. Qed.
End preparing_reads.

Ltac keeping_prepare :=
  repeat first
    [ progress keeping
    | lazymatch goal with
      | |- keeps _ (keypair_for _) => apply reading_keys
      | |- keeps _ (build_wallet _ _) => apply reading_build
      | |- keeps _ (storage_owner _) => apply reading_owner
      | |- keeps _ (acquire_job _) => apply reading_acquire
      | |- keeps _ (acquire_job_wait _ _) => apply reading_acquire_wait
      | |- keeps _ (emulate _ _ _ _ _ _ _ _) => apply reading_emulate
      | |- keeps _ (checked_context _ _ _) => apply reading_context; by eapply built_transport
      | |- keeps _ (read_account _ _ _) => apply reading_account; by eapply built_transport
      end ].

Section only_reading.
Context `{UrlLib} `{EmulatorLib} `{!TransactionLib} `{!BocLib} `{StatusText} `{!KeyLib} `{SeedLib} `{VaultPrims} `{Sha256} `{PoolL : !PoolLib}.

(** C14: estimating a fee and preparing a send, a swap or a storage operation only read. However
    they end, the requests they put to the network are calls of the node's reading methods at the
    wallet's own endpoint, appended to those of before: nothing they do broadcasts a message. *)
Theorem preparing_only_reads (around : Around) (inputs : WalletInputs) (s : TychoWalletService) :
  let quiet {A} (m : Svc A) := only_reads (wi_endpoint inputs) s (fst (m s)) in
  (forall request bounce, quiet (estimate_fee around inputs request bounce))
  /\ (forall ticket active overlap, quiet (prepare_transaction around inputs ticket active overlap))
  /\ (forall pool request, quiet (prepare_swap around inputs pool request))
  /\ (forall op, quiet (prepare_storage_op around inputs op)).
Proof.
  cbv zeta. split; [|split; [|split]]; intros; revert s.
  - fold (keeps (only_reads (wi_endpoint inputs)) (estimate_fee around inputs request bounce)). unfold estimate_fee. keeping_prepare.
  - fold (keeps (only_reads (wi_endpoint inputs)) (prepare_transaction around inputs ticket active overlap)). unfold prepare_transaction. keeping_prepare.
  - fold (keeps (only_reads (wi_endpoint inputs)) (prepare_swap around inputs pool request)). unfold prepare_swap. keeping_prepare.
  - fold (keeps (only_reads (wi_endpoint inputs)) (prepare_storage_op around inputs op)). unfold prepare_storage_op. keeping_prepare.
Qed.
End only_reading.
