(* ===== verification/Prepared.v ===== *)
(** * What is prepared

    Theorems on [prepare_transaction] and [estimate_fee]: a send that was prepared is the one
    that was confirmed, signed with the wallet's own key; it is paid for by the balances just
    read; and its fee is the one that was estimated. *)

From Stdlib Require Import NArith ZArith Lia.
From stdpp Require Import gmap list relations.
From S2P Require Import Prelude Ord Bytes Text Decimal Ids Json Asset Amount Digest Affordability Send Swap StorageRecord Profile Risk Journal Fs.
From S2P Require Import VaultKeys Vault ChainData AppState Wallets Comment Activity Transmit Prepare Transfers Keyring ChainStorage Signing Pool.
From S2P Require Import Subscription Transport Emulator WalletService Preparation.

(** ** Keys *)
Section keys.
Context `{SeedLib}.

(** What is cached derives from a seed of its digest; every run of [Keyring] keeps this. *)
Definition cached_keys_derived (k : Keyring) : Prop :=
  forall d keys, kr_cache k !! d = Some keys -> exists digest, d = as_bytes digest /\ derived digest keys.

Lemma set_call_twice t c c' k : set_call t c (set_call t c' k) = set_call t c k.
Proof. unfold set_call. cbn. by rewrite insert_insert_eq. Qed.

Lemma keypair_alone_spec seed k k' secret : cached_keys_derived k -> keypair_alone seed k = (k', Ok secret) ->
  derived (blake3_hash seed) secret /\ cached_keys_derived k' /\ keypair_alone seed k' = (k', Ok secret).
Proof.
  intros Hd. unfold keypair_alone. destruct (kr_sealed k) eqn:Hs; [done|].
  destruct (kr_cache k !! as_bytes (blake3_hash seed)) as [keys|] eqn:Hc.
  - intros [= <- <-]. rewrite Hs, Hc. destruct (Hd _ _ Hc) as (digest & E & Hdig). by apply as_bytes_inj in E as <-.
  - destruct (from_seed seed) as [keys| |] eqn:Hf; cbn; [|done..]. intros [= <- <-]. cbn. rewrite Hs, lookup_insert_eq.
    split; [by exists seed|]. split; [|done]. intros d keys' Hl. cbn in Hl.
    apply lookup_insert_Some in Hl as [[<- <-]|[_ Hl]]; [|by apply Hd]. eexists. split; [done|]. by exists seed.
Qed.

(** It is the run of [keypair_step] that nothing interleaves with. *)
Lemma keypair_alone_runs t seed k : kr_mutex k = None -> kr_calls k !! t = Some (Enter seed) ->
  rtc (fun k k' => keypair_step t k = Some k') k (set_call t (Return (snd (keypair_alone seed k))) (fst (keypair_alone seed k))).
Proof.
  intros Hm Ht. unfold keypair_alone. destruct (kr_sealed k) eqn:Hs; cbn [fst snd].
  { apply rtc_once. unfold keypair_step. by rewrite Ht, Hs. }
  eapply rtc_l with (set_call t (Look seed) k); [unfold keypair_step; by rewrite Ht, Hs|].
  destruct (kr_cache k !! as_bytes (blake3_hash seed)) as [keys|] eqn:Hc.
  { apply rtc_once. unfold keypair_step. cbn. rewrite lookup_insert_eq, Hm. change (kr_cache (set_call t _ k)) with (kr_cache k).
    by rewrite Hc, set_call_twice. }
  eapply rtc_l with (set_call t (Derive seed) k).
  { unfold keypair_step. cbn. rewrite lookup_insert_eq, Hm, Hc. by rewrite set_call_twice. }
  destruct (from_seed seed) as [keys|e|] eqn:Hf; cbn.
  2,3: apply rtc_once; unfold keypair_step; cbn; rewrite lookup_insert_eq, Hf; cbn; by rewrite set_call_twice.
  eapply rtc_l with (set_call t (Take (blake3_hash seed) keys) k).
  { unfold keypair_step. cbn. rewrite lookup_insert_eq, Hf. cbn. by rewrite set_call_twice. }
  eapply rtc_l with (with_mutex (Some t) (set_call t (Recheck (blake3_hash seed) keys) k)).
  { unfold keypair_step. cbn. rewrite lookup_insert_eq, Hm. by rewrite set_call_twice. }
  eapply rtc_l with (with_mutex (Some t) (set_call t (Store (blake3_hash seed) keys) k)).
  { unfold keypair_step. cbn. rewrite lookup_insert_eq, Hs. unfold set_call, with_mutex. cbn. by rewrite insert_insert_eq. }
  apply rtc_once. unfold keypair_step. cbn. rewrite lookup_insert_eq. unfold set_call, with_mutex, with_cache. cbn.
  rewrite insert_insert_eq. by rewrite <- Hm.
Qed.
End keys.

(** ** What a run came through *)
Section runs.
Context `{UrlLib} `{EmulatorLib} `{!TransactionLib} `{!BocLib} `{StatusText} `{!KeyLib} `{SeedLib} `{VaultPrims} `{Sha256} `{PoolL : !PoolLib}.
Variable around : Around.

Lemma kept_requests endpoint {A} (m : Svc A) s s' r : keeps (only_reads endpoint) m -> m s = (s', r) ->
  (length (sv_requests s) <= length (sv_requests s'))%nat.
Proof. intros Hk Hm. specialize (Hk s). rewrite Hm in Hk. destruct Hk as (more & E & _). cbn in E. rewrite E, length_app. lia. Qed.

(** An account that was read is the answer to a request of its own. *)
Definition read_as (t : Transport) (n : nat) (observed : ObservedAccountState) : Prop :=
  exists id, get_account_state_observed_since (fst t) (snd t) id (ar_answers around n) = Ok observed.

Lemma read_account_Ok t address s s' o : read_account around t address s = (s', Ok o) -> read_as t (length (sv_requests s)) o.
Proof. unfold read_account, ask. intros [= _ Ho]. apply map_err_Ok in Ho. by eexists. Qed.

Lemma validated_context reported has expected require : validate_signature_context reported has expected require = Ok tt ->
  reported = expected /\ (require = true -> has = true).
Proof.
  unfold validate_signature_context. destruct (Z.eqb_spec reported expected); cbn; [|done].
  destruct require, has; cbn; done.
Qed.

Lemma checked_context_Ok inputs t s s' config context : checked_context around inputs t s = (s', Ok (config, context)) ->
  bx_global_id context = bc_global_id (cc_state config) /\ bx_global_id context = wi_network_id inputs
  /\ (wi_require_signature_id inputs = true -> bx_has_id context = true)
  /\ config_capabilities (bc_config (cc_state config)) = Ok (bx_capabilities context)
  /\ bx_has_id context = cap_contains (bx_capabilities context) CapSignatureWithId.
Proof.
  unfold checked_context. intros Hc. sinv Hc. injection Hc as -> ->. cbn [bx_global_id bx_has_id bx_capabilities].
  apply map_err_Ok in Hs0, Hs1. destruct a1. by apply validated_context in Hs1 as [? ?].
Qed.

Lemma open_transport_keys e s s' r : open_transport e s = (s', r) -> sv_keys s' = sv_keys s.
Proof. unfold open_transport. destruct (transport_for e); [|by intros [= <- _]..]. case_match; by intros [= <- _]. Qed.

Lemma keypair_for_Ok seed s s' keys : keypair_for seed s = (s', Ok keys) ->
  exists secret, keypair_alone seed (sv_keys s) = (sv_keys s', Ok secret) /\ keys = signing_of secret /\ sv_requests s' = sv_requests s.
Proof.
  unfold keypair_for. intros Hk. sinv Hk. unfold secret_for in Hs. destruct (keypair_alone _ _) as [k r] eqn:E.
  injection Hs as <- ->. eauto.
Qed.

Lemma build_wallet_Ok inputs seed s s' w t : build_wallet inputs seed s = (s', Ok (w, t)) ->
  transport_for (wi_endpoint inputs) = Ok t
  /\ exists secret, keypair_alone seed (sv_keys s) = (sv_keys s', Ok secret) /\ with_shared_keys (signing_of secret) (wi_workchain inputs) = Ok w.
Proof.
  unfold build_wallet. intros Hb. sinv Hb. injection Hb as -> ->. apply map_err_Ok in Hs1.
  split; [by eapply opened_transport|]. apply keypair_for_Ok in Hs0 as (secret & Hk & -> & _).
  rewrite (open_transport_keys _ _ _ _ Hs) in Hk. eauto.
Qed.

(** The keys that seal the comment are those that sign. *)
Lemma same_keys inputs seed s s1 s2 keys w t : cached_keys_derived (sv_keys s) ->
  keypair_for seed s = (s1, Ok keys) -> build_wallet inputs seed s1 = (s2, Ok (w, t)) ->
  exists secret, keys = signing_of secret /\ derived (blake3_hash seed) secret
    /\ with_shared_keys (signing_of secret) (wi_workchain inputs) = Ok w.
Proof.
  intros Hd Hk Hb. apply keypair_for_Ok in Hk as (secret & Hk & -> & _).
  apply build_wallet_Ok in Hb as (_ & secret' & Hk' & Hw). apply keypair_alone_spec in Hk as (Hdig & _ & Hagain); [|done].
  rewrite Hagain in Hk'. injection Hk' as _ <-. eauto.
Qed.

(** A run that prepared a send: what it came to on its way, and that it did. *)
Record Run := mkRun {
  rn_keys : signing_key;
  rn_fresh : EverWallet;
  rn_transport : Transport;
  rn_config : CachedConfig;
  rn_context : BoundContext;
  rn_asked : nat;
  rn_observed : ObservedAccountState;
  rn_wallet : EverWallet;
  rn_extra : btree N CcAmount;
  rn_balances : list AssetAmount;
  rn_account : ShardAccount lazy_account;
  rn_transfer : EverTransfer;
  rn_left : entropy;
  rn_message : PreparedMessage;
  rn_hash : Digest32;
  rn_block_time : N;
  rn_emulated : ChainTransaction;
  rn_fee : N;
  rn_desired : N;
  rn_ceiling : N;
  rn_reservations : list Reservation;
  rn_record : PreparedRecord
}.

Definition run_route (r : Run) : ResolvedSendRoute :=
  resolve_send_route (fst (rn_transport r)) (snd (rn_transport r)) (ar_route_mono around).

Record came_through (inputs : WalletInputs) (ticket : SendTicket) (active overlap : list Reservation) (s : TychoWalletService)
    (r : Run) (p : ChainSend) : Prop := {
  th_ticket : check_ticket inputs ticket = Ok tt;
  th_seed : normalize_and_validate_inputs inputs = Ok (wi_seed inputs);
  th_request : validate_chain_request (t_request ticket) = Ok tt;
  th_opened : exists s1 s2 s3 s4, keypair_for (wi_seed inputs) s = (s1, Ok (rn_keys r))
              /\ build_wallet inputs (wi_seed inputs) s1 = (s2, Ok (rn_fresh r, rn_transport r))
              /\ checked_context around inputs (rn_transport r) s2 = (s3, Ok (rn_config r, rn_context r))
              /\ read_account around (rn_transport r) (address_string (rn_fresh r)) s3 = (s4, Ok (rn_observed r));
  th_sender : address_string (rn_fresh r) = t_sender_address ticket;
  th_asked : (length (sv_requests s) <= rn_asked r)%nat;
  th_read : read_as (rn_transport r) (rn_asked r) (rn_observed r);
  th_fresh : account_unchanged (oa_state (rn_observed r)) = false;
  th_applied : apply_observed (rn_observed r) (rn_fresh r) = Ok (rn_wallet r);
  th_extra : parse_extra_balance (wst_extra_balance (ew_state (rn_wallet r))) = Ok (rn_extra r);
  th_balances : typed_balances (wst_balance (ew_state (rn_wallet r))) (rn_extra r) = Ok (rn_balances r);
  th_account : shard_account (rn_wallet r) (oa_state (rn_observed r)) (default 0 (native_units (sr_value (t_request ticket)))) = Ok (rn_account r);
  th_transfer : build_transfer (t_request ticket) (t_bounce ticket) (Some (seal_of (rn_keys r) (rn_wallet r))) (ar_entropy around)
                = Ok (rn_transfer r, rn_left r);
  th_signed : sign_transfer around (rn_wallet r) (rn_transfer r) (rn_context r) = Ok (rn_message r);
  th_hash : message_digest (bs "external-message") (rn_message r) = Ok (rn_hash r);
  th_block_time : block_time around = Ok (rn_block_time r);
  th_emulated : ar_emulation around = EmulationInTime
                /\ emulate_external_message (cc_emulation (rn_config r)) (ew_address (rn_wallet r)) (rn_account r)
                     (pm_message (rn_message r)) (rn_block_time r) = Ok (rn_emulated r);
  th_fee : first_fee (rn_emulated r) (bs "send emulation produced no transfer") = Ok (rn_fee r);
  th_desired : desired_fee_ceiling (rn_fee r) = Ok (rn_desired r);
  th_ceiling : select_affordable_fee_ceiling ticket (rn_balances r) active overlap (rn_fee r) (rn_desired r)
               = Ok (rn_ceiling r, rn_reservations r);
  th_record : prepared_send around ticket (rn_transport r) (rn_config r) (rn_context r) (rn_observed r) (run_route r)
                (negb (wst_is_active (ew_state (rn_wallet r)))) (rn_balances r) (rn_hash r) (rn_fee r) (rn_ceiling r)
                (rn_reservations r) overlap (pm_expire_at (rn_message r)) = Ok (rn_record r);
  th_result : p = mkChainSend (mkPreparedSend (rn_record r) (pm_created_at_ms (rn_message r)) (candidate_count (run_route r)))
                    (Some (run_route r)) (Some (pm_message (rn_message r)))
}.

Lemma checked_seed inputs seed : normalize_and_validate_inputs inputs = Ok seed -> seed = wi_seed inputs.
Proof. unfold normalize_and_validate_inputs. intros Hn. by rinv Hn. Qed.

Lemma emulated_in_time what config w account message now job s s' tx : emulate around what config w account message now job s = (s', Ok tx) ->
  ar_emulation around = EmulationInTime /\ emulate_external_message (cc_emulation config) (ew_address w) account message now = Ok tx.
Proof.
  unfold emulate, throw. destruct (ar_emulation around); [|done|intros He; by sinv He].
  intros He. sinv He. by apply map_err_Ok in He.
Qed.

Lemma prepare_came_through inputs ticket active overlap s s' p :
  prepare_transaction around inputs ticket active overlap s = (s', Ok p) -> exists r, came_through inputs ticket active overlap s r p.
Proof.
  unfold prepare_transaction. intros Hp. sinv Hp. pose proof (checked_seed _ _ Hs0) as ->.
  repeat match goal with u : () |- _ => destruct u end.
  pose proof (built_transport _ _ _ _ _ _ Hs3) as Ht.
  pose proof (kept_requests (wi_endpoint inputs) _ _ _ _ (reading_keys _ _) Hs2).
  pose proof (kept_requests (wi_endpoint inputs) _ _ _ _ (reading_build _ _ _) Hs3).
  pose proof (kept_requests (wi_endpoint inputs) _ _ _ _ (reading_context around _ _ _ Ht) Hs5).
  eexists (mkRun a2 x y x0 y0 (length (sv_requests s2)) a4 a6 a7 a8 a9 x1 y1 a10 a11 a13 a16 a18 a19 x2 y2 a20).
  split; try done; cbn.
  - by exists s0, s1, s2, s3.
  - by apply bool_decide_eq_true in Hs4.
  - lia.
  - by eapply read_account_Ok.
  - by apply negb_true_iff in Hs7.
  - by eapply emulated_in_time.
Qed.
End runs.

(** ** What was signed *)
Section confirmed.
Context `{UrlLib} `{EmulatorLib} `{!TransactionLib} `{!BocLib} `{StatusText} `{!KeyLib} `{SeedLib} `{VaultPrims} `{Sha256} `{PoolL : !PoolLib}.
Context `{!StdAddrLaws} `{!CellLaws}.

Lemma payload_built r bounce seal e t e' : build_transfer r bounce seal e = Ok (t, e') -> exists payload, payload_of r seal e payload e'.
Proof.
  unfold build_transfer, payload_of. intros Hb. rinv Hb.
  - apply negb_true_iff, bool_decide_eq_false in Hc. rinv Hm0. eexists (Some _). right. split; [done|]. eexists. split; [done|eassumption].
  - apply negb_false_iff, bool_decide_eq_true in Hc. injection Hm0 as _ <-. exists None. by left.
Qed.

(** What the body of a message says of a request: nothing, its comment in the clear, or its
    comment sealed. *)
Definition message_says (r : SendRequest) (seal : CommentSeal) (e : entropy) (body : cell) : Prop :=
  if bool_decide (sr_comment r = []) then read_comment body = None else
  match sr_encrypt_to r with
  | None => utf8_valid (sr_comment r) = true -> read_comment body = Some (sr_comment r)
  | Some key => exists e', seal_comment seal key r e = Ok (body, e')
  end.

Lemma payload_says r seal e payload e' : payload_of r (Some seal) e payload e' ->
  exists body, match payload with Some c => Ok c | None => rexpect EMPTY_PAYLOAD end = @Ok bytes _ body /\ message_says r seal e body.
Proof.
  unfold message_says. intros [(Hz & -> & ->)|(Hz & c & -> & Hc)].
  - destruct empty_payload as (c & Hc & Hread). exists c. by rewrite (bool_decide_eq_true_2 _ Hz).
  - exists c. split; [done|]. rewrite (bool_decide_eq_false_2 _ Hz). unfold comment_cell in Hc.
    destruct (sr_encrypt_to r) as [key|]; [by exists e'|]. rinv Hc. intros Hu.
    destruct (comment_roundtrip (sr_comment r) Hu) as (c' & Hc' & Hread).
    { unfold comment_payload in Hm. by destruct (Nat.ltb_spec Comment.MAX_COMMENT_BYTES (length (sr_comment r))). }
    congruence.
Qed.

(** The record that was prepared, field by field. *)
Lemma prepared_send_Ok around ticket t config context observed route init balances hash fee ceiling rows overlap expire_at record :
  prepared_send around ticket t config context observed route init balances hash fee ceiling rows overlap expire_at = Ok record ->
  pr_ticket record = ticket /\ pr_ext_msg_hash record = hash /\ pr_expire_at record = expire_at /\ pr_reservations record = rows
  /\ check_prepared_shape ticket (pr_prepare_provenance record) rows = Ok tt
  /\ PrepareProvenance_new (pr_prepare_provenance record) = Ok (pr_prepare_provenance record)
  /\ let v := pr_prepare_provenance record in
     p_source_endpoint v = fst t /\ p_signature_global_id v = bx_global_id context /\ p_signature_with_id v = bx_has_id context
     /\ p_balances v = balances /\ p_estimated_fee_native v = fee /\ p_local_fee_ceiling_native v = ceiling
     /\ p_state_init_required v = init /\ p_account_state_hash v = account_state_digest (oa_state observed)
     /\ p_authorized_overlap v = overlap /\ p_route_id v = route_id route.
Proof.
  unfold prepared_send. intros Hp. rinv Hp.
  match goal with H : PrepareProvenance_new _ = Ok _ |- _ => pose proof H as Hnew; apply prepare_provenance_sound in H as [-> _] end.
  unfold PreparedRecord_new in Hp. rinv Hp. repeat match goal with u : () |- _ => destruct u end. by cbn in *.
Qed.

Lemma applied_same observed w w' : apply_observed observed w = Ok w' ->
  ew_keys w' = ew_keys w /\ ew_address w' = ew_address w /\ wst_observed_network_time (ew_state w') = oa_network_time observed.
Proof. unfold apply_observed. intros Ha. apply map_err_Ok in Ha. by eapply applied_state. Qed.

(** The message of a transfer that was built of a checked request, as it was signed. *)
Lemma signed_transfer around w r bounce keys t e' context p :
  validate_chain_request r = Ok tt -> in_domain (sr_value r) ->
  build_transfer r bounce (Some (seal_of keys w)) (ar_entropy around) = Ok (t, e') ->
  sign_transfer around w t context = Ok p ->
  exists m now, stdaddr_to_string (im_dst m) = sr_destination r /\ im_bounce m = bounce /\ im_tokens m = tokens_of (sr_value r)
    /\ im_other m = other_of (sr_value r) /\ im_init m = None /\ message_says r (seal_of keys w) (ar_entropy around) (im_body m)
    /\ signed_for w m SAFE_SEND_FLAGS (bound_signature context) p
    /\ checked_expire_at now DEFAULT_TTL_SECS = Ok (pm_expire_at p)
    /\ validate_clock_skew (ar_sign_mono around) (now / 1000) (wst_observed_network_time (ew_state w)) = Ok tt.
Proof.
  intros Hr Hv Hb Hs. destruct (payload_built _ _ _ _ _ _ Hb) as [payload Hp].
  destruct (built_transfer r bounce _ _ _ _ Hr Hv Hp) as (t' & Hb' & Hcar & Hdest & Hbounce & Hflags & Hpayload & Hinit).
  rewrite Hb in Hb'. injection Hb' as <-.
  destruct (payload_says _ _ _ _ _ Hp) as (body & Hbody & Hsays).
  destruct (request_checked r Hr) as (Hsend & _). destruct (carried_entries t _ Hcar Hsend (request_nonzero r Hr)) as [Htok Hent].
  unfold sign_transfer in Hs. apply map_err_Ok in Hs.
  destruct (ar_sign_ms around) as [now|e|] eqn:Hnow; [|done..].
  set (m := mkInternal _ _ _ (et_dest t) bounce (tokens_of (sr_value r)) (other_of (sr_value r)) None body). exists m, now.
  rewrite <- Hpayload in Hbody.
  destruct (prepared_is_signed w (ar_sign_mono around) now t (bound_signature context) p m) as (Hsig & _ & Hexp & Hskew); [done..|]. rewrite Hflags in Hsig. done.
Qed.

End confirmed.

(** ** What pays for it *)
Section paid.
Context `{UrlLib} `{EmulatorLib} `{!TransactionLib} `{!BocLib} `{StatusText} `{!KeyLib} `{SeedLib} `{VaultPrims} `{Sha256} `{PoolL : !PoolLib}.

Lemma extra_currencies_wf entries : forall result extra, bt_wf result -> extra_currencies_to_strings entries result = Ok extra -> bt_wf extra.
Proof.
  induction entries as [|entry entries IH]; intros result extra Hwf; cbn [extra_currencies_to_strings]; [by intros [= <-]|].
  intros He. rinv He. eapply IH; [|exact He]. by apply bt_insert_wf.
Qed.

(** A fresh account gives the wallet the balances it has, each currency once. *)
Lemma applied_fresh observed w w' : account_unchanged (oa_state observed) = false -> apply_observed observed w = Ok w' ->
  exists state, from_account_state (oa_state observed) = Ok (Some state) /\ bt_wf (wst_extra_balance state)
    /\ wst_balance (ew_state w') = wst_balance state /\ wst_extra_balance (ew_state w') = wst_extra_balance state
    /\ wst_status (ew_state w') = wst_status state.
Proof.
  intros Hf Ha. unfold apply_observed in Ha. apply map_err_Ok in Ha. unfold apply_observed_account_state, apply_account_state in Ha.
  destruct (from_account_state (oa_state observed)) as [parsed| |] eqn:Hp; cbn in Ha; [|done..]. injection Ha as <-.
  destruct (oa_state observed) as [account boc last timings|timings|timings]; [..|done]; cbn in Hp.
  - rinv Hp. eexists. split; [done|]. split; [|done]. cbn. by eapply extra_currencies_wf; [constructor|eassumption].
  - injection Hp as <-. eexists. split; [done|]. split; [constructor|done].
Qed.

Lemma desired_Ok fee desired : desired_fee_ceiling fee = Ok desired ->
  FEE_ESTIMATE_FLOOR_NANOS <= fee /\ desired = fee + LOCAL_SEND_FEE_HEADROOM_NANOS /\ desired <= LOCAL_SEND_FEE_CEILING_NANOS.
Proof.
  unfold desired_fee_ceiling, fee_within_bounds. intros Hd. rinv Hd. bprop.
  destruct (checked_add _ _ _) as [wanted|] eqn:Hw; cbn in Hd; [|done]. apply checked_add_Some in Hw as [-> _].
  destruct (N.leb_spec (fee + LOCAL_SEND_FEE_HEADROOM_NANOS) LOCAL_SEND_FEE_CEILING_NANOS); [|done]. injection Hd as <-. lia.
Qed.

(** The journal takes the record as its next. *)
Lemma record_accepted record seq : check_prepared_shape (pr_ticket record) (pr_prepare_provenance record) (pr_reservations record) = Ok tt ->
  0 < seq -> exists r, prepared_record record seq = Ok r /\ validate_static r = Ok tt.
Proof.
  intros Hc Hs. unfold prepared_record, DeliveryEvent_new. destruct (N.eqb_spec seq 0); [lia|]. cbn. eexists. split; [done|].
  unfold validate_static. cbn. rewrite Hc. cbn. destruct (N.leb_spec seq 0); [lia|done].
Qed.

(** An account that the node gave as its answer to a request made since. *)
Definition answered_since (around : Around) (s : TychoWalletService) (account : AccountState) : Prop :=
  exists n id result raw, (length (sv_requests s) <= n)%nat /\ answered id (ar_answers around n) result
    /\ raw_account_from result = Some raw /\ account_from_raw raw = Ok account.

End paid.

(** ** The fee that was estimated *)

(** What one step came to twice is the same. *)
Ltac same_run :=
  match goal with
  | H1 : ?run = (_, Ok _), H2 : ?run = (_, Ok _) |- _ => rewrite H1 in H2; injection H2; clear H2; intros; subst
  | H1 : ?run = Ok _, H2 : ?run = Ok _ |- _ => rewrite H1 in H2; injection H2; clear H2; intros; subst
  end.

Section estimated.
Context `{UrlLib} `{EmulatorLib} `{!TransactionLib} `{!BocLib} `{StatusText} `{!KeyLib} `{SeedLib} `{VaultPrims} `{Sha256} `{PoolL : !PoolLib}.

Lemma first_fee_same tx a b fee : first_fee tx a = Ok fee -> first_fee tx b = Ok fee.
Proof. unfold first_fee. destruct (activity_from_chain_tx tx) as [events| |]; [|done..]. cbn. by destruct (head events). Qed.

(** What a prepared send says it costs. *)
Definition recorded_cost (p : ChainSend) : FeeEstimate :=
  let provenance := pr_prepare_provenance (ps_prepared_record (cs_send p)) in
  mkFeeEstimate (p_estimated_fee_native provenance) (p_state_init_required provenance).

(** C15: a send prepared in the surroundings in which it was estimated costs what was estimated: the
    fee that [estimate_fee] shows and the fee that [prepare_transaction] records are the same, and
    so is whether the send deploys the wallet. *)
Theorem prepared_fee_is_the_estimate (around : Around) (inputs : WalletInputs) (ticket : SendTicket) (active overlap : list Reservation)
    (s s1 s2 : TychoWalletService) (estimate : FeeEstimate) (p : ChainSend)
    (Hestimate : estimate_fee around inputs (t_request ticket) (t_bounce ticket) s = (s1, Ok estimate))
    (Hprepare : prepare_transaction around inputs ticket active overlap s = (s2, Ok p)) :
  estimate = recorded_cost p.
Proof.
  unfold recorded_cost. apply prepare_came_through in Hprepare as [r Hr].
  destruct Hr as [_ _ _ (t1 & t2 & t3 & t4 & Hk & Hb & Hc & Ho) _ _ _ _ Happ _ _ Hacc Htr Hsig _ Hbt [_ Hem] Hfee _ _ Hrec ->].
  destruct (prepared_send_Ok _ _ _ _ _ _ _ _ _ _ _ _ _ _ _ _ Hrec) as (_ & _ & _ & _ & _ & _ & _ & _ & _ & _ & Hf & _ & Hi & _).
  cbn [cs_send ps_prepared_record]. rewrite Hf, Hi. clear Hrec Hf Hi.
  unfold estimate_fee in Hestimate. sinv Hestimate. subst. pose proof (checked_seed _ _ Hs) as ->.
  apply emulated_in_time in Hs12 as [_ Hs12]. apply (first_fee_same _ _ (bs "send emulation produced no transfer")) in Hs14.
  destruct r; cbn in *. repeat same_run. done.
Qed.
End estimated.

(** ** A network to run on: one node, an account with ten coins, an executor that takes its fee *)
Section demo.
#[local] Existing Instances toy_cells toy_stdaddr toy_cell_laws toy_stdaddr_laws toy_storage_messages toy_storage toy_curve toy_codec toy_status toy_seeds toy_prims toy_sha256.

Definition flat_urls : UrlLib := {|
  url := bytes;
  url_parse l := if starts_with (bs "https://") l then Ok l else Err (bs "relative URL without a base");
  as_str u := u;
  scheme _ := bs "https";
  host_str u := Some (drop 8 u);
  username _ := [];
  password _ := None;
  fragment _ := None;
  path _ := bs "/";
  query _ := None;
  set_scheme u _ := Some u;
  set_path u _ := u;
  set_query u _ := u;
  clear_query u := u;
  clear_fragment u := u;
  url_join u p := Ok (u ++ p);
  local_ip _ := None
|}.

Definition demo_reply (id : Z) (result : json) : json :=
  JObj [(bs "jsonrpc", JStr (bs "2.0")); (bs "id", JInt id); (bs "result", result)].
Definition demo_node : BocLib := {|
  base64_decode l := Some l;
  base64_encode l := l;
  boc_decode l := Some (Toy [] []);
  boc_encode c := bs "boc";
  value_from_slice l :=
    if bool_decide (l = bs "config") then
      Ok (demo_reply 1 (JObj [(bs "globalId", JInt 42); (bs "seqno", JInt 7); (bs "config", JStr [])]))
    else Ok (demo_reply 2 (JObj [(bs "type", JStr (bs "exists")); (bs "account", JStr []);
                                 (bs "timings", JObj [(bs "genLt", JStr (bs "9")); (bs "genUtime", JInt 1000)])]))
|}.
Definition demo_types : NodeLib := {|
  BlockchainConfig := unit;
  config_decode l := Ok tt;
  account_decode l := Ok (mkChainAccount CoreUninit 10000000000 [Ok (1, 500)] 8 tt);
  config_global_id _ := Ok 42%Z
|}.
Definition demo_transactions : TransactionLib := {|
  int_addr := bytes;
  int_addr_to_string a := a;
  message_body := unit;
  load_transaction s := Ok (mkTx _ 10 1035 9 1000000 (Ok (TxOrdinary false (ComputeExecuted true 0) None None))
                              (Some (Toy (bs "in") [])) [Ok (Toy (bs "out") [])]);
  load_message s := Ok (if bool_decide (s = bs "in") then InfoExtIn (bs "wallet")
                        else InfoInt (bs "wallet") (bs "peer") 5 [] 400 true false 10 1035, tt);
  slice_apply _ := Ok [];
  build_from _ := Ok (Toy [] [])
|}.
#[local] Existing Instances flat_urls demo_node demo_types demo_transactions.
Definition demo_executor : EmulatorLib := {|
  config_gas_limit _ _ := Ok 1000000;
  config_capabilities _ := Ok 0;
  cap_contains _ _ := false;
  signature_context_of _ _ := tt;
  ParsedConfig := unit;
  parse_config _ _ := Ok tt;
  lazy_account := ChainAccount;
  optional_account := Ok;
  hash_from_str l := Ok (pad32 l);
  uncommitted := unit;
  begin_ordinary _ _ _ _ _ _ := Ok tt;
  built_transaction := unit;
  build_uncommitted _ := Ok tt;
  transaction_cell _ := Ok (Toy (bs "tx") [])
|}.
Definition demo_keys : KeyLib := {| signing_of k := k |}.
#[local] Existing Instances demo_executor demo_keys.

Definition demo_seed : bytes := bs "a b c d e f g h i j k l".
Definition demo_answer (body : bytes) : Answer := mkAnswer (Ok (mkResponse 200 None None [Ok body])) 50.
Definition demo_around : Around := {|
  ar_answers n := demo_answer (if (n =? 0)%nat then bs "config" else bs "account");
  ar_config_now := Ok 1004;
  ar_sign_mono := 60;
  ar_sign_ms := Ok 1005000;
  ar_block_now := Ok 1005;
  ar_valid_now := Ok 1005;
  ar_route_mono := 70;
  ar_origin_mono := 0;
  ar_query_id := 1;
  ar_entropy := [];
  ar_handoff := Ok tt;
  ar_ended := ∅;
  ar_emulation := EmulationInTime
|}.
Definition demo_inputs : WalletInputs := mkInputs (bs "https://node/") 42 0 demo_seed false.
Definition demo_address : bytes :=
  match snd (derive_wallet_address demo_inputs TychoWalletService_default) with Ok address => address | _ => [] end.
Definition demo_send_ticket : SendTicket :=
  mkSendTicket (pad32 []) (bs "w") demo_address 42 (bs "https://node/") demo_plain_request true 0 0.

Definition demo_prepare : TychoWalletService * res ChainError ChainSend :=
  prepare_transaction demo_around demo_inputs demo_send_ticket [] [] TychoWalletService_default.

Definition demo_estimate : TychoWalletService * res ChainError FeeEstimate :=
  estimate_fee demo_around demo_inputs (t_request demo_send_ticket) (t_bounce demo_send_ticket) TychoWalletService_default.


Lemma run_to {A} (r : TychoWalletService * res ChainError A) : is_ok (snd r) = true -> exists s v, r = (s, Ok v).
Proof. destruct r as [s [v| |]]; [by eauto|done..]. Qed.

Lemma demo_prepares : exists s p, demo_prepare = (s, Ok p).
Proof. apply run_to. vm_compute. reflexivity. Qed.

Lemma demo_estimates : exists s f, demo_estimate = (s, Ok f).
Proof. apply run_to. vm_compute. reflexivity. Qed.

Lemma no_keys_cached : cached_keys_derived (sv_keys TychoWalletService_default).
Proof. intros d keys Hl. discriminate (eq_trans (eq_sym (lookup_empty d)) Hl). Qed.

Lemma demo_in_domain : in_domain (sr_value demo_plain_request).
Proof. vm_compute. intuition discriminate. Qed.



Lemma prepared_fee_is_the_estimate_witness : exists s s' estimate p,
  demo_estimate = (s, Ok estimate) /\ demo_prepare = (s', Ok p) /\ estimate = recorded_cost p.
Proof.
  destruct demo_estimates as (s & estimate & He), demo_prepares as (s' & p & Hp). exists s, s', estimate, p.
  split; [done|]. split; [done|].
  unfold demo_estimate in He. unfold demo_prepare in Hp.
  exact (prepared_fee_is_the_estimate demo_around demo_inputs demo_send_ticket [] [] TychoWalletService_default s s' estimate p He Hp).
Defined.
End demo.
