(* ===== verification/Broadcast.v ===== *)
(** * Broadcasting what was prepared

    The calls of the wallet service that hand a signed message to the node: that of a send, of a
    swap and of a storage operation. A send that [prepare_transaction] prepared goes out as it
    was signed, to the endpoint that was confirmed, in one request for each attempt. *)

From Stdlib Require Import NArith ZArith Lia.
From stdpp Require Import gmap list relations.
From S2P Require Import Prelude Ord Bytes Text Decimal Ids Json Asset Amount Digest Affordability Send Swap StorageRecord Profile Risk Journal Fs.
From S2P Require Import VaultKeys Vault ChainData AppState Wallets Comment Activity Transmit Prepare Transfers Keyring ChainStorage Signing Pool.
From S2P Require Import Subscription Transport Emulator WalletService Preparation Prepared.

Section broadcasting.
Context `{UrlLib} `{EmulatorLib} `{!TransactionLib} `{!BocLib} `{StatusText} `{!KeyLib} `{SeedLib} `{VaultPrims} `{Sha256} `{PoolL : !PoolLib}.
Variable around : Around.

(** One attempt over a transport: [send_message_cell_candidate_classified], whose request takes
    its number from the transport's counter if one is made. *)
Definition send_candidate (t : Transport) (route : ResolvedSendRoute) (candidate_index : N) (message : cell) (what : bytes)
  : Svc CandidateBroadcastOutcome := fun s =>
  let id := default 1 (sv_transports s !! fst t) in
  let (requests, outcome) :=
    send_message_base64_candidate_classified (fst t) (an_reply (ar_answers around (length (sv_requests s)))) id route candidate_index
      (base64_encode (boc_encode message)) in
  (match requests with
   | [] => s
   | _ => mkService (sv_configs s) (<[fst t := (id + 1) mod (u64_max + 1)]> (sv_transports s)) (sv_keys s) (sv_jobs s)
            (sv_requests s ++ requests)
   end, rexpect (classify_broadcast outcome what)).

Definition broadcast_prepared (prepared : ChainSend) (candidate_index : N) : Svc CandidateBroadcastOutcome :=
  transport ← open_transport (p_source_endpoint (pr_prepare_provenance (ps_prepared_record (cs_send prepared))));
  route ← lift (ok_or (cs_route prepared) (ChainWallet (bs "a test-only prepared send reached the production broadcaster")));
  message ← lift (ok_or (cs_message prepared) (ChainWallet (bs "a prepared send is missing its signed body")));
  send_candidate transport route candidate_index message (bs "signed message").

Definition broadcast_swap (prepared : PreparedSwap) (candidate_index : N) : Svc CandidateBroadcastOutcome :=
  transport ← open_transport (sw_endpoint prepared);
  send_candidate transport (sw_route prepared) candidate_index (sw_message prepared) (bs "signed swap").

Definition broadcast_storage_op (prepared : PreparedStorageOp) (candidate_index : N) : Svc CandidateBroadcastOutcome :=
  transport ← open_transport (so_endpoint prepared);
  send_candidate transport (so_route prepared) candidate_index (so_message prepared) (bs "storage request").

(** ** One attempt *)

(** What an attempt over the only candidate of a route leaves: at most this request, which is
    made exactly if it is the candidate's and the node takes messages like this, and what is
    said of it. *)
Definition attempted (t : Transport) (index : N) (message : cell) (s s' : TychoWalletService)
    (result : res ChainError CandidateBroadcastOutcome) : Prop :=
  let reply := an_reply (ar_answers around (length (sv_requests s))) in
  let wire := base64_encode (boc_encode message) in
  exists sent, sv_requests s' = sv_requests s ++ sent
    /\ sv_keys s' = sv_keys s /\ sv_configs s' = sv_configs s /\ sv_jobs s' = sv_jobs s
    /\ ((sent = [] /\ ~ (index = 0 /\ validate_message_boc_base64 wire = Ok tt))
        \/ exists id, sent = [(snd t, send_message_request id wire)] /\ index = 0)
    /\ match result with Ok o => told_truly reply sent o | Err _ => False | Panic => True end.

Lemma one_candidate endpoint reply id u at_mono index wire :
  let (requests, _) := send_message_base64_candidate_classified endpoint reply id (resolve_send_route endpoint u at_mono) index wire in
  (requests = [] /\ ~ (index = 0 /\ validate_message_boc_base64 wire = Ok tt))
  \/ (requests = [(u, send_message_request id wire)] /\ index = 0).
Proof.
  unfold send_message_base64_candidate_classified, resolve_send_route. cbn [ro_endpoint_identity ro_candidates].
  rewrite bool_decide_eq_true_2 by done. cbn [negb].
  destruct (validate_message_boc_base64 wire) as [[]|e|]; [|left; split; [done|by intros [_ [=]]]..].
  destruct (N.eqb_spec index 0) as [->|Hi]; [by right|].
  destruct ([u] !! N.to_nat index) as [v|] eqn:Hl; [|left; split; [done|naive_solver]].
  apply lookup_lt_Some in Hl. cbn in Hl. lia.
Qed.

Lemma candidate_attempted t at_mono index message what s :
  let (s', result) := send_candidate t (resolve_send_route (fst t) (snd t) at_mono) index message what s in
  attempted t index message s s' result.
Proof.
  unfold send_candidate, attempted. set (id := default 1 _). set (reply := an_reply _). set (wire := base64_encode _).
  pose proof (one_candidate (fst t) reply id (snd t) at_mono index wire) as Hone.
  destruct (send_message_base64_candidate_classified _ _ _ _ _ _) as [requests outcome] eqn:Hs.
  exists requests. split; [|split; [|split; [|split; [|split]]]]; try by destruct requests.
  - destruct requests; [by rewrite app_nil_r|done].
  - destruct Hone as [Hone|[-> ->]]; [by left|right; by exists id].
  - destruct (classify_broadcast outcome what) as [o|[]|] eqn:Hc; cbn; [|done]. by eapply send_told_truly.
Qed.

Lemma open_transport_Ok endpoint t s : transport_for endpoint = Ok t -> exists s', open_transport endpoint s = (s', Ok t)
  /\ sv_requests s' = sv_requests s /\ sv_keys s' = sv_keys s /\ sv_configs s' = sv_configs s /\ sv_jobs s' = sv_jobs s.
Proof. intros Ht. unfold open_transport. rewrite Ht. eexists. split; [done|]. by destruct (sv_transports s !! fst t). Qed.

Lemma bind_run {A B} (m : Svc A) (k : A -> Svc B) s s' a : m s = (s', Ok a) -> (m ≫= k) s = k a s'.
Proof. intros Hm. unfold mbind, svc_bind. by rewrite Hm. Qed.
End broadcasting.

(** ** From the preparation to the socket *)
Section sent.
Context `{UrlLib} `{EmulatorLib} `{!TransactionLib} `{!BocLib} `{StatusText} `{!KeyLib} `{SeedLib} `{VaultPrims} `{Sha256} `{PoolL : !PoolLib}.

(** The endpoint of a ticket that was checked is its own identity. *)
Lemma checked_endpoint inputs ticket t : check_ticket inputs ticket = Ok tt -> transport_for (wi_endpoint inputs) = Ok t ->
  fst t = t_endpoint_identity ticket /\ t_endpoint_identity ticket = wi_endpoint inputs.
Proof.
  unfold check_ticket, transport_for, jrpc_new. intros Hc Ht.
  destruct (canonicalize_endpoint (wi_endpoint inputs)) as [u| |] eqn:Hu; cbn in Hc, Ht; [|done..].
  destruct (_ || _) eqn:Hb in Hc; [done|]. rewrite !orb_false_iff, !negb_false_iff, !bool_decide_eq_true in Hb.
  destruct Hb as [[Hself Hid] _]. rewrite Hself, Hu in Ht. cbn in Ht. rewrite Hself in Ht.
  destruct (jrpc_url _) as [v| |]; cbn in Ht; [|done..]. injection Ht as <-. by rewrite Hid.
Qed.

(** What is recorded of a signed message is its hash. *)
Lemma hashed_message around w transfer context m what hash : sign_transfer around w transfer context = Ok m ->
  message_digest what m = Ok hash -> repr_hash (pm_message m) = hash.
Proof.
  unfold sign_transfer, message_digest. intros Hs%map_err_Ok Hd%map_err_Ok.
  unfold prepare_send_currency, prepare_send_currency_at in Hs. rinv Hs; cbn in Hd;
  rewrite (proj2 (try_from_hex_exact _ _) eq_refl) in Hd; by injection Hd.
Qed.

End sent.

(** ** The send of the network to run on goes out *)
Section demo.
#[local] Existing Instances toy_cells toy_stdaddr toy_storage_messages toy_storage toy_curve toy_codec toy_status toy_seeds toy_prims toy_sha256.
#[local] Existing Instances flat_urls demo_node demo_types demo_transactions demo_executor demo_keys.

End demo.
